(* ===== verification/_CoqProject ===== *)
-Q . S2P
Prelude.v
GoStrings.v
GoNet.v
NetBytes.v
NetString.v
Models.v
RuleID.v
FeedIDs.v
Validate.v
Settings.v
Reach.v
PacketLog.v
PacketDecode.v
PacketRing.v
FeedRanges.v
Nft.v
Matchers.v
Builders.v
ForwardChain.v
Ruleset.v
InputChain.v
ReachKernel.v
BuildCheck.v
Diff.v
AuditDetail.v
Acceptance.v
RulesStore.v
AuditLog.v
Usage.v
Kernel.v
World.v
Firewall.v
FeedStore.v
FeedUpdate.v
Dispatch.v
Interleaving.v
Scenarios.v
SaveRuns.v
CrashSafety.v
KernelTruth.v
CycleRuns.v
RestoreRuns.v
GoCrypto.v
GoRunes.v
GoJSON.v
FeedParse.v
FeedRunner.v
FeedCard.v
CountryTable.v
CountryLookup.v
GoJSONText.v
AuditTrail.v
Health.v
Docker.v
SecondFactor.v
WebAddr.v
LoginEvents.v
LoginLimit.v
Sessions.v
Credentials.v
Login.v
Enrolment.v
