(* ===== verification/Prelude.v ===== *)
(** * easywall: a verification development

    easywall is a host firewall in Go.  A privileged daemon, the core
    ([src/cmd/easywall-core], [src/internal/core]), owns the nftables table
    [inet easywall], the rules file and the audit log; an unprivileged web process
    ([src/cmd/easywall-web], [src/internal/web]) talks to it over a Unix socket;
    [src/internal/shared] holds what both need: the data model, validation, diffs
    and the answers the pages give.  This development models the core, the
    shared package and, of the web process, what guards it and what it fetches:
    signing in, sessions and factors, the downloads of the lists and the country
    table.

    ** The program and its parts

    An operator edits the _staged_ rules; an _apply_ backs the current rules up,
    marks the change as unconfirmed, promotes staged to current, builds a complete
    ruleset and writes it in one netlink transaction.  An _acceptance window_ then
    waits for a confirmation, and without one the previous rules and the previous
    configuration go back into the kernel.  _Panic mode_ tears the table down and
    stays until it is resumed; a _restore_ brings the stored rules back at boot.
    _Feeds_ are downloaded lists that become interval sets the rules look up.

    ** The files, and the code they model

    - [Prelude], [GoStrings], [GoNet], [NetBytes], [NetString]: results and tactics; the
      parts of Go's standard library the code uses: [strings], [strconv], [net],
      [net/netip], with printing and parsing of prefixes.
    - [Models] ([shared/models.go]), [RuleID] ([shared/ruleid.go]), [FeedIDs]
      ([shared/feeds.go], [shared/countries.go]), [Validate] ([shared/validate.go]):
      the data, the identifiers, and [ValidateRules] with its specification
      [ValidRules].
    - [Settings] ([core/config.go], [web/handler_settings.go]): loading, validating,
      saving and reloading the configuration file.
    - [Reach] ([shared/reach.go]) and [PacketLog] ([shared/packetlog.go]): what the
      apply page and the packet log page tell the operator.
    - [FeedRanges] ([core/nftables_feeds.go]): a feed as a kernel interval set.
      [FeedStore] ([core/feedstore.go]): the stored copies.  [FeedUpdate]
      ([core/feeds.go]): what the core accepts of a download, and the update itself.
    - [GoRunes], [GoJSON]: UTF-8 and the scanner and parser of [encoding/json].
      [FeedParse] ([web/feed_parse.go]) reads a published list, [FeedRunner]
      ([web/feeds.go], [feed_state.go]) decides when one is asked for, what of the
      answer the core is offered and whom a password is sent to; [FeedCard]
      ([web/handler_feeds.go], [countries.go]) is what the cards stage.
      [CountryTable] and [CountryLookup] ([web/countrytable.go], [countrylookup.go])
      build, keep and ask the table of countries.
    - [PacketDecode], [PacketRing] ([core/packetlog.go]): a refused packet from its bytes
      to the entry, the ring of the entries, its file and its query.
    - [GoCrypto]: SHA-1, SHA-256, HMAC, base64 and hexadecimal.  [SecondFactor] ([web/totp.go],
      [totpreplay.go], [recovery.go]), [Sessions] ([web/sessionrevoke.go],
      [middleware.go], [pendingattempts.go], [passkeyreplay.go]), [Credentials]
      ([web/config.go], [auth.go], [passkeystore.go], [factors.go]), [Login]
      ([web/handler_login.go], [pending2fa.go], [handler_passkey.go]), [Enrolment]
      ([web/handler_2fa.go], [handler_password.go]), [WebAddr] ([web/clientaddr.go]),
      [LoginLimit] ([web/middleware.go]) and [LoginEvents] ([core/loginevents.go]):
      signing in, what it takes, what it counts, and what the audit log says of it.
    - [Nft]: the expressions of the library and the documented reading the kernel
      gives them; [Matchers], [Builders], [ForwardChain], [Ruleset] ([core/nftables.go],
      [core/forward_family.go]): every builder, as the commands it queues, and
      [ApplyWithFeeds]' order of them.  [InputChain] and [ReachKernel] read the input
      chain back; [BuildCheck] is [core/nftables_check.go].
    - [Diff] ([shared/diff.go]) and [AuditDetail] ([shared/audit_detail.go]): what the
      preview and the audit log say changed.
    - [Acceptance] ([core/acceptance.go]), [RulesStore] and [AuditLog] ([core/rules.go];
      [AuditTrail] and [GoJSONText] add what the log page reads back, [core/daemon.go]),
      [Usage] ([core/usage.go]), [Kernel] (the outcomes of [ApplyWithFeeds] and [Reset]):
      the components of the cycle, each operation a function on its state.
    - [World]: the state of the daemon, split into what a crash keeps ([Disk]), what it
      loses ([Mem]) and the kernel, and the atomic actions on it.  [Firewall]
      ([core/firewall.go], [restore.go], [unconfirmed.go], [panicmode.go],
      [appliedconfig.go]) and [Dispatch] ([core/daemon.go]): each function of the source
      a program of those actions.
    - [Health] ([core/health.go]) and [Docker] ([core/docker.go], [unknown_bridges.go],
      [dockerreconcile.go]): what the daemon reports of the kernel's counters, and of the
      container networks and published ports it finds.
    - [Interleaving]: the daemon as a transition system, in which any action of any
      goroutine, any I/O outcome, the passing of time and a crash are steps; and the
      invariant argument, a [Protocol], the safety theorems instantiate.
    - [Scenarios], [SaveRuns], [CrashSafety], [KernelTruth], [CycleRuns], [RestoreRuns]: the
      theorems about that system.

    Two levels describe the kernel table.  The cycle ([World] and up) treats it as the
    value of the inputs its chains were built from; [Ruleset] says which rules those
    inputs become, and [Nft] what the rules do to a packet.

    ** What the theorems show

    - The cycle: after any interleaving, fault and crash a confirmed rule set is what a
      restart puts in force ([CrashSafety.crash_safety]); panic mode is obeyed and the
      recorded configuration is the kernel's ([KernelTruth]); whole runs end as the window
      decided ([CycleRuns], [RestoreRuns]); saving never enforces ([SaveRuns]).  Where the
      code does not keep its promise, the run that breaks it is a theorem too.
    - The ruleset: the forward chain is one decision procedure
      ([Ruleset.forward_chain_decides]); the apply page's verdict is the input chain's
      ([ReachKernel]); what the builders queue passes the code's own check
      ([BuildCheck]); the alarm of a dead stateful half means what it says, over any traffic
      ([Health]); a published container port is open or named in a warning ([Docker]).
    - Feeds: the interval sets hold exactly the addresses of the prefixes
      ([FeedRanges]); the store survives restarts and answers like the kernel
      ([FeedStore]); from the downloaded bytes to the kernel, a list that is in force
      refuses exactly the global addresses its lines name
      ([FeedRunner.published_list_is_enforced]); a publisher is asked at most once an
      hour and a password stays with the host it was typed for ([FeedRunner]); the
      country shown is that of the narrowest block ([CountryTable]).
    - Signing in: a session is earned by the password and, where there is one, a second
      factor that is spent by it ([Login], [SecondFactor]); a pending login has three
      guesses and an address five attempts ([LoginLimit], [WebAddr]); a logout and a change of
      the credentials end sessions ([Sessions], [Credentials]); the last factor is kept
      ([Enrolment]); every event is told ([LoginEvents]).
    - The packet log: decoding stays inside the packet and reads it ([PacketDecode]); the
      ring is the list of what was read, cut to its capacity, over restarts too
      ([PacketRing]).
    - Data: validation decides its specification, diffs are empty exactly for equal
      views, saved settings survive a restart, printed prefixes are read back, the log
      page shows what was recorded ([AuditTrail]).

    ** Bounds and fuel

    Go's [int] is a [Z]; where a width matters ([uint64] counters, the [uint32] limits of
    a rate, 16-bit ports, 32- and 128-bit addresses) the wrap-around or the bound is
    written out.  Fuel is used where the recursion is not structural, with the bound the
    code has: the eight groups of an IPv6 address; the length of the string for trimming;
    the length of the list for binary search and for the chunks of a feed; two steps a byte
    for JSON ([GoJSON.json_parser_ends]); the eight turns of the loop over the headers of an IPv6 packet;
    sixteen nested jumps, as in the kernel; the polls of [waitForApplySlot], one per 50 ms of its timeout.

    ** Parameters

    What is not code of the repository is an argument: what nft makes of a custom rule,
    the bridges found on the host, the answers of the netlink library and of the kernel,
    the byte order of the machine ([Host]), the randomness of the ids, the clock, and the
    outcome of every file operation.  In the web process: argon2, what the WebAuthn library
    answers, the codec of the cookies, the token bucket of [x/time/rate] with its documented
    law, the parts of a parsed URL, the table of printable characters, the answers of
    publishers, and what unpacking an archive gives.

    ** Not modelled

    Of the web process the routing, the rendering, TLS, the first-run wizard, the demo and
    the editing of web.toml; of the core the network namespace of the self test, netlink
    and file-descriptor plumbing, the NFLOG socket and systemd notifications; toml syntax
    and the command line: input and output around the logic above, or libraries.  Texts
    that only reach the journal are left out; those that reach the audit log or the
    operator are kept. *)
From stdpp Require Export base gmap strings list fin_maps sorting pretty.
From Stdlib Require Export ZArith Lia.
From Stdlib Require Export Ascii.
From Stdlib Require String.

#[export] Set Default Proof Using "Type".
#[export] Set Warnings "-clear-no-such-hyp,-level-tolerance".

(** ** Results of fallible Go functions

    A Go function returning [(T, error)] is a function into [result E T]: the
    error value on the path that returns a non-nil error, the result
    otherwise. *)
Inductive result (E A : Type) : Type :=
| Ok (a : A)
| Err (e : E).
Arguments Ok {E A} a.
Arguments Err {E A} e.

Declare Scope go_scope.
Delimit Scope go_scope with go.
Open Scope go_scope.

Definition rbind {E A B} (m : result E A) (k : A → result E B) : result E B :=
  match m with Ok a => k a | Err e => Err e end.

Definition rmap_err {E F A} (f : E → F) (m : result E A) : result F A :=
  match m with Ok a => Ok a | Err e => Err (f e) end.

Notation "'let?' x ':=' m 'in' k" := (rbind m (λ x, k))
  (at level 10, x pattern, m at level 200, k at level 200) : go_scope.
Notation "m ';?' k" := (rbind m (λ _ : unit, k))
  (at level 199, right associativity) : go_scope.

(** [guard? b e]: return the error [e] unless [b]. *)
Definition check {E} (b : bool) (e : E) : result E unit :=
  if b then Ok tt else Err e.

(** A loop that returns at the first element whose body returns an error. *)
Fixpoint for_each {E A} (f : A → result E unit) (l : list A) : result E unit :=
  match l with
  | [] => Ok tt
  | x :: l => f x ;? for_each f l
  end.

Lemma rbind_Ok {E A B} (m : result E A) (k : A → result E B) b :
  rbind m k = Ok b ↔ ∃ a, m = Ok a ∧ k a = Ok b.
Proof.
  destruct m; simpl; split; [by eauto| |done|].
  - intros (a' & [= <-] & ?); done.
  - intros (? & [=] & _).
Qed.

Lemma rmap_err_Ok {E F A} (f : E → F) (m : result E A) a :
  rmap_err f m = Ok a ↔ m = Ok a.
Proof. destruct m; naive_solver. Qed.

Lemma check_Ok {E} (b : bool) (e : E) u : check b e = Ok u ↔ b = true.
Proof. destruct b, u; naive_solver. Qed.

Lemma for_each_Ok {E A} (f : A → result E unit) l u :
  for_each f l = Ok u ↔ Forall (λ x, f x = Ok tt) l.
Proof.
  destruct u. induction l as [|x l IH]; simpl; [by split|].
  rewrite Forall_cons, <- IH, rbind_Ok. split.
  - intros ([] & -> & ?); done.
  - intros [-> ?]; eauto.
Qed.

(** The database of the equivalences that turn "this call succeeded" into the
    facts its guards established. *)
Create Rewrite HintDb go_ok.
#[export] Hint Rewrite @rbind_Ok @rmap_err_Ok @check_Ok @for_each_Ok : go_ok.

(** ** Tactics *)

(** Split every boolean connective and reflect the comparisons the guards of
    the code use. *)
Ltac breflect :=
  repeat match goal with
  | H : _ && _ = true |- _ => apply andb_true_iff in H as [? ?]
  | H : _ || _ = false |- _ => apply orb_false_iff in H as [? ?]
  | H : negb _ = true |- _ => apply negb_true_iff in H
  | H : negb _ = false |- _ => apply negb_false_iff in H
  | H : (_ <=? _)%Z = true |- _ => apply Z.leb_le in H
  | H : (_ <=? _)%Z = false |- _ => apply Z.leb_gt in H
  | H : (_ <? _)%Z = true |- _ => apply Z.ltb_lt in H
  | H : (_ <? _)%Z = false |- _ => apply Z.ltb_ge in H
  | H : (_ =? _)%Z = true |- _ => apply Z.eqb_eq in H
  | H : (_ =? _)%Z = false |- _ => apply Z.eqb_neq in H
  | H : bool_decide _ = true |- _ => apply bool_decide_eq_true_1 in H
  | H : bool_decide _ = false |- _ => apply bool_decide_eq_false_1 in H
  end.

(** Case analysis on every [match] and [if] of the goal, then close what is
    trivial. *)
Ltac cases := repeat (case_match; simplify_eq/=); try done.

(** ** Lists *)

Lemma map_nil_iff {A B} (f : A → B) (l : list A) : map f l = [] ↔ l = [].
Proof. destruct l; naive_solver. Qed.

Lemma filter_nil_iff {A} (P : A → Prop) `{!∀ x, Decision (P x)} (l : list A) :
  filter P l = [] ↔ ∀ x, x ∈ l → ¬ P x.
Proof.
  induction l as [|x l IH]; [split; [intros _ x []%not_elem_of_nil|done]|].
  rewrite filter_cons. setoid_rewrite elem_of_cons. case_decide.
  - split; [done|]. intros Hn. exfalso. apply (Hn x); auto.
  - rewrite IH. naive_solver.
Qed.

Lemma filter_ext_in {A} (P Q : A → Prop) `{!∀ x, Decision (P x)} `{!∀ x, Decision (Q x)} (l : list A) :
  (∀ x, x ∈ l → P x ↔ Q x) → filter P l = filter Q l.
Proof.
  induction l as [|x l IH]; intros HPQ; [done|]. rewrite !filter_cons, IH by (intros y Hy; apply HPQ; by right).
  specialize (HPQ x ltac:(by left)). repeat case_decide; tauto.
Qed.

Lemma foldl_inv {A B} (P : A → Prop) (f : A → B → A) (l : list B) a :
  (∀ a x, P a → P (f a x)) → P a → P (foldl f a l).
Proof. intros Hf. revert a; induction l as [|x l IH]; intros a Ha; [done|]. apply IH, Hf, Ha. Qed.

Lemma filter_all {A} (P : A → Prop) `{!∀ x, Decision (P x)} (l : list A) :
  Forall P l → filter P l = l.
Proof. induction 1 as [|x l Hx _ IH]; [done|]. rewrite filter_cons, decide_True, IH by done. done. Qed.

Lemma Forall_filter_keep {A} (P Q : A → Prop) `{!∀ x, Decision (Q x)} (l : list A) :
  Forall P l → Forall P (filter Q l).
Proof. rewrite !Forall_forall. intros HP x [_ Hx]%list_elem_of_filter. auto. Qed.

(** Decoding every element of an encoded list. *)
Lemma mapM_map_inv {A B} (f : A → B) (g : B → option A) (l : list A) :
  Forall (λ x, g (f x) = Some x) l → mapM g (map f l) = Some l.
Proof. induction 1 as [|x l Hx _ IH]; simpl; [done|]. by rewrite Hx; simpl; rewrite IH. Qed.
