(* ===== verification/GoStrings.v ===== *)
(** * Go strings

    The part of Go's [strings], [strconv] and [unicode] packages the modelled
    code uses.  A Go string is a sequence of bytes; here it is a [string] whose
    [ascii] characters are those bytes.  Every function is executable. *)
From S2P Require Import Prelude.

Local Open Scope Z_scope.

Definition byte_val (c : ascii) : Z := Z.of_N (N_of_ascii c).
Definition mkbyte (n : nat) : ascii := ascii_of_nat n.

Definition bytes (s : string) : list ascii := String.list_ascii_of_string s.
Definition of_bytes (l : list ascii) : string := String.string_of_list_ascii l.

Lemma of_bytes_bytes s : of_bytes (bytes s) = s.
Proof. apply String.string_of_list_ascii_of_string. Qed.
Lemma bytes_inj s t : bytes s = bytes t → s = t.
Proof. intros HE. rewrite <- (of_bytes_bytes s), HE. apply of_bytes_bytes. Qed.
Lemma bytes_of_bytes l : bytes (of_bytes l) = l.
Proof. apply String.list_ascii_of_string_of_list_ascii. Qed.

(** ** strings.TrimSpace

    Go trims the runes [unicode.IsSpace] accepts.  In UTF-8 these are the byte
    sequences below; every other byte, a byte that is not valid UTF-8
    included, decodes to a rune that is not a space.  A rune is matched at the
    front by its encoding and at the back by the same encoding, since no
    encoding is a proper suffix of another rune's. *)
Definition space_encodings : list (list nat) :=
  [[9]; [10]; [11]; [12]; [13]; [32];          (* \t \n \v \f \r and ' ' *)
   [0xC2; 0x85]; [0xC2; 0xA0];                 (* U+0085 U+00A0 *)
   [0xE1; 0x9A; 0x80];                         (* U+1680 *)
   [0xE2; 0x80; 0x80]; [0xE2; 0x80; 0x81]; [0xE2; 0x80; 0x82]; [0xE2; 0x80; 0x83];
   [0xE2; 0x80; 0x84]; [0xE2; 0x80; 0x85]; [0xE2; 0x80; 0x86]; [0xE2; 0x80; 0x87];
   [0xE2; 0x80; 0x88]; [0xE2; 0x80; 0x89]; [0xE2; 0x80; 0x8A];
   [0xE2; 0x80; 0xA8]; [0xE2; 0x80; 0xA9]; [0xE2; 0x80; 0xAF];
   [0xE2; 0x81; 0x9F]; [0xE3; 0x80; 0x80]]%nat.

Definition space_bytes : list (list ascii) := map (map mkbyte) space_encodings.

(** [starts_with p l]: the rest of [l] after the prefix [p]. *)
Fixpoint starts_with (p l : list ascii) : option (list ascii) :=
  match p, l with
  | [], _ => Some l
  | a :: p, b :: l => if Ascii.eqb a b then starts_with p l else None
  | _ :: _, [] => None
  end.

(** The rest of [l] after one leading element of [encs]. *)
Fixpoint strip_one (encs : list (list ascii)) (l : list ascii) : option (list ascii) :=
  match encs with
  | [] => None
  | p :: encs =>
      match starts_with p l with
      | Some r => Some r
      | None => strip_one encs l
      end
  end.

(** Strip leading elements of [encs]; the fuel bounds the number of runes, of
    which there are at most as many as bytes. *)
Fixpoint strip_all (encs : list (list ascii)) (fuel : nat) (l : list ascii) : list ascii :=
  match fuel with
  | O => l
  | S fuel =>
      match strip_one encs l with
      | Some r => strip_all encs fuel r
      | None => l
      end
  end.

Definition trim_left (l : list ascii) : list ascii :=
  strip_all space_bytes (length l) l.
Definition trim_right (l : list ascii) : list ascii :=
  reverse (strip_all (map reverse space_bytes) (length l) (reverse l)).

Definition TrimSpace (s : string) : string :=
  of_bytes (trim_right (trim_left (bytes s))).

Section trim.
Context (encs : list (list ascii)).
Hypothesis encs_nonempty : Forall (λ p, p ≠ []) encs.

Lemma starts_with_Some p l r : starts_with p l = Some r ↔ l = p ++ r.
Proof using.
  revert l; induction p as [|a p IH]; intros l; simpl; [naive_solver|].
  destruct l as [|b l]; simpl; [done|].
  destruct (Ascii.eqb_spec a b) as [->|]; [rewrite IH|]; naive_solver.
Qed.

Lemma strip_one_Some es l r :
  strip_one es l = Some r → ∃ p, p ∈ es ∧ l = p ++ r.
Proof using.
  induction es as [|p es IH]; simpl; [done|].
  destruct (starts_with p l) eqn:E.
  - intros [= ->]. apply starts_with_Some in E. exists p. split; [left|done].
  - intros (q & ? & ?)%IH. exists q. split; [by right|done].
Qed.

Lemma strip_one_None es l :
  strip_one es l = None ↔ ∀ p r, p ∈ es → l ≠ p ++ r.
Proof using.
  induction es as [|p es IH]; simpl.
  - split; [|done]. intros _ p r Hp. by apply not_elem_of_nil in Hp.
  - destruct (starts_with p l) eqn:E.
    + split; [done|]. intros H. apply starts_with_Some in E. exfalso.
      by apply (H p l0); [left|].
    + rewrite IH. split.
      * intros H q r [->|Hq]%elem_of_cons; [|by apply H].
        intros ->. by rewrite (proj2 (starts_with_Some p (p ++ r) r)) in E.
      * intros H q r Hq. apply H. by right.
Qed.

(** With fuel for every byte, nothing strippable is left in front. *)
Lemma strip_all_None fuel l :
  (length l ≤ fuel)%nat → strip_one encs (strip_all encs fuel l) = None.
Proof using encs_nonempty.
  revert l; induction fuel as [|fuel IH]; intros l Hl; simpl.
  - destruct l; [|simpl in *; lia]. apply strip_one_None.
    intros p r Hp. rewrite Forall_forall in encs_nonempty.
    specialize (encs_nonempty p Hp). by destruct p.
  - destruct (strip_one encs l) as [r|] eqn:E; [|done].
    apply IH. apply strip_one_Some in E as (p & Hp & ->).
    rewrite Forall_forall in encs_nonempty. specialize (encs_nonempty p Hp).
    destruct p; [done|]. rewrite length_app in Hl. simpl in Hl. lia.
Qed.

Lemma strip_all_suffix fuel l : strip_all encs fuel l `suffix_of` l.
Proof using.
  revert l; induction fuel as [|fuel IH]; intros l; simpl; [done|].
  destruct (strip_one encs l) as [r|] eqn:E; [|done].
  apply strip_one_Some in E as (p & _ & ->).
  etrans; [apply IH|]. by apply suffix_app_r.
Qed.

(** Nothing strippable is in front of a prefix of such a list. *)
Lemma strip_one_prefix l l' :
  l `prefix_of` l' → strip_one encs l' = None → strip_one encs l = None.
Proof using.
  intros [k ->]. rewrite !strip_one_None. intros H p r Hp ->.
  apply (H p (r ++ k) Hp). by rewrite app_assoc.
Qed.

Lemma strip_all_stop fuel l : strip_one encs l = None → strip_all encs fuel l = l.
Proof using. intros H. by destruct fuel; simpl; rewrite ?H. Qed.
End trim.

Lemma space_bytes_nonempty : Forall (λ p, p ≠ []) space_bytes.
Proof. repeat constructor; done. Qed.

Lemma space_bytes_rev_nonempty : Forall (λ p, p ≠ []) (map reverse space_bytes).
Proof. repeat constructor; done. Qed.

(** A string that starts or ends with no space. *)
Definition trimmed (l : list ascii) : Prop :=
  strip_one space_bytes l = None ∧
  strip_one (map reverse space_bytes) (reverse l) = None.

Lemma trim_trimmed l : trimmed (trim_right (trim_left l)).
Proof.
  split.
  - apply (strip_one_prefix _ _ (trim_left l)).
    + unfold trim_right. rewrite prefix_suffix_reverse, reverse_involutive.
      apply strip_all_suffix.
    + apply strip_all_None; [apply space_bytes_nonempty|done].
  - unfold trim_right. rewrite reverse_involutive.
    apply strip_all_None; [apply space_bytes_rev_nonempty|].
    by rewrite length_reverse.
Qed.

Lemma trimmed_trim l : trimmed l → trim_right (trim_left l) = l.
Proof.
  intros [Hl Hr]. unfold trim_left. rewrite strip_all_stop by done.
  unfold trim_right. rewrite strip_all_stop by done. apply reverse_involutive.
Qed.

Lemma TrimSpace_idemp s : TrimSpace (TrimSpace s) = TrimSpace s.
Proof.
  unfold TrimSpace. rewrite bytes_of_bytes. f_equal.
  apply trimmed_trim, trim_trimmed.
Qed.

(** A printable ASCII byte other than the space. *)
Definition word_byte (c : ascii) : bool := (33 <=? byte_val c) && (byte_val c <=? 126).
Definition word (s : string) : Prop := forallb word_byte (bytes s) = true.

Lemma strip_one_word es c l :
  forallb (λ p, match p with h :: _ => negb (word_byte h) | [] => false end) es = true →
  word_byte c = true → strip_one es (c :: l) = None.
Proof.
  intros He Hc. apply strip_one_None. intros p r Hp Heq.
  rewrite forallb_forall in He. rewrite list_elem_of_In in Hp. apply He in Hp.
  destruct p as [|h p]; [done|]. simplify_eq/=. by rewrite Hc in Hp.
Qed.

(** Trimming leaves a word alone. *)
Lemma TrimSpace_word s : word s → TrimSpace s = s.
Proof.
  unfold word. intros H. unfold TrimSpace. rewrite trimmed_trim; [apply of_bytes_bytes|].
  split.
  - destruct (bytes s) as [|c l]; [by vm_compute|]. simpl in H. breflect.
    by apply strip_one_word.
  - assert (forallb word_byte (reverse (bytes s)) = true) as H'.
    { rewrite forallb_forall in *. intros c Hc. apply H.
      apply list_elem_of_In. apply list_elem_of_In in Hc. by apply elem_of_reverse. }
    destruct (reverse (bytes s)) as [|c l]; [by vm_compute|]. simpl in H'. breflect.
    by apply strip_one_word.
Qed.

(** Trimming adds no byte. *)
Lemma TrimSpace_bytes s c : c ∈ bytes (TrimSpace s) → c ∈ bytes s.
Proof.
  assert (∀ es f l, c ∈ strip_all es f l → c ∈ l) as Hs.
  { intros es f l Hc. destruct (strip_all_suffix es f l) as [k Hk]. rewrite Hk.
    apply elem_of_app. by right. }
  unfold TrimSpace, trim_right, trim_left. rewrite bytes_of_bytes.
  intros Hc. apply elem_of_reverse, Hs, elem_of_reverse, Hs in Hc. done.
Qed.

(** ** Prefixes, cutting, joining *)

Definition HasPrefix (s p : string) : bool :=
  match starts_with (bytes p) (bytes s) with Some _ => true | None => false end.

(** [strings.CutPrefix] *)
Definition CutPrefix (s p : string) : option string :=
  of_bytes <$> starts_with (bytes p) (bytes s).

(** [strings.Cut] at a one-byte separator. *)
Fixpoint CutByte (sep : ascii) (s : string) : option (string * string) :=
  match s with
  | EmptyString => None
  | String c s =>
      if Ascii.eqb c sep then Some (EmptyString, s)
      else match CutByte sep s with
           | Some (a, b) => Some (String c a, b)
           | None => None
           end
  end.

Lemma CutByte_None sep s : CutByte sep s = None ↔ sep ∉ bytes s.
Proof.
  induction s as [|c s IH]; simpl; [set_solver|].
  rewrite elem_of_cons. destruct (Ascii.eqb_spec c sep) as [->|].
  - naive_solver.
  - destruct (CutByte sep s) as [[]|]; naive_solver.
Qed.

Lemma CutByte_Some sep s a b : CutByte sep s = Some (a, b) → bytes s = bytes a ++ sep :: bytes b.
Proof.
  revert a. induction s as [|c s IH]; simpl; intros a; [done|].
  destruct (Ascii.eqb_spec c sep) as [->|]; [by intros [= <- <-]|].
  destruct (CutByte sep s) as [[a' b']|]; [|done]. intros [= <- <-]. simpl.
  f_equal. by apply IH.
Qed.

(** [strings.Split] at a one-byte separator. *)
Fixpoint SplitByte (sep : ascii) (s : string) : list string :=
  match s with
  | EmptyString => [EmptyString]
  | String c s =>
      if Ascii.eqb c sep then EmptyString :: SplitByte sep s
      else match SplitByte sep s with
           | x :: l => String c x :: l
           | [] => [String c EmptyString]
           end
  end.

(** [strings.Join] *)
Fixpoint Join (l : list string) (sep : string) : string :=
  match l with
  | [] => ""
  | [x] => x
  | x :: l => (x +:+ sep +:+ Join l sep)%string
  end.

(** [strings.IndexAny(s, chars) >= 0] for ASCII [chars]. *)
Definition contains_any (chars : list ascii) (s : string) : bool :=
  existsb (λ c, existsb (Ascii.eqb c) chars) (bytes s).

Lemma contains_any_false chars s :
  contains_any chars s = false ↔ ∀ c, c ∈ chars → c ∉ bytes s.
Proof.
  unfold contains_any. rewrite <- not_true_iff_false, existsb_exists.
  split.
  - intros H c Hc Hs. apply H. exists c. rewrite <- list_elem_of_In. split; [done|].
    apply existsb_exists. exists c. rewrite <- list_elem_of_In.
    by rewrite Ascii.eqb_refl.
  - intros H (c & Hc & (d & Hd & Heq%Ascii.eqb_eq)%existsb_exists). subst d.
    rewrite <- list_elem_of_In in Hc, Hd. by eapply H.
Qed.

(** ** strconv *)

Definition is_digit (c : ascii) : bool :=
  (48 <=? byte_val c) && (byte_val c <=? 57).

(** The value of a string of decimal digits, [None] at any other byte. *)
Fixpoint digits (acc : Z) (s : string) : option Z :=
  match s with
  | EmptyString => Some acc
  | String c s => if is_digit c then digits (acc * 10 + (byte_val c - 48)) s else None
  end.

Definition int64_min : Z := - 2 ^ 63.
Definition int64_max : Z := 2 ^ 63 - 1.

(** [strconv.Atoi]: an optional sign, at least one digit, nothing else, and a
    value that fits an [int] (64 bits on the supported platforms). *)
Definition Atoi (s : string) : option Z :=
  let parse neg r :=
    match r with
    | EmptyString => None
    | _ => match digits 0 r with
           | Some n =>
               let v := if (neg : bool) then - n else n in
               if (int64_min <=? v) && (v <=? int64_max) then Some v else None
           | None => None
           end
    end in
  match s with
  | String "+"%char r => parse false r
  | String "-"%char r => parse true r
  | _ => parse false s
  end.

Definition atoi_digits (neg : bool) (r : string) : option Z :=
  match r with
  | EmptyString => None
  | _ => match digits 0 r with
         | Some n =>
             let v := if neg then - n else n in
             if (int64_min <=? v) && (v <=? int64_max) then Some v else None
         | None => None
         end
  end.

Lemma Atoi_cases c r :
  Atoi (String c r) =
  if Ascii.eqb c "+" then atoi_digits false r
  else if Ascii.eqb c "-" then atoi_digits true r
  else atoi_digits false (String c r).
Proof. by destruct c as [[] [] [] [] [] [] [] []]. Qed.

(** [strconv.ParseUint] in base ten: digits only, and a value that fits. *)
Definition ParseUint (bits : Z) (s : string) : option Z :=
  match s with
  | EmptyString => None
  | _ => match digits 0 s with
         | Some n => if n <? 2 ^ bits then Some n else None
         | None => None
         end
  end.

Lemma digits_word acc s n : digits acc s = Some n → word s.
Proof.
  unfold word. revert acc. induction s as [|c s IH]; simpl; intros acc; [done|].
  destruct (is_digit c) eqn:E; [|done]. intros H. unfold is_digit in E. breflect.
  apply andb_true_iff. split; [|by eapply IH].
  unfold word_byte. apply andb_true_iff. split; apply Z.leb_le; lia.
Qed.

(** Without a plus sign, a number that fits sixteen bits reads the same in both. *)
Lemma Atoi_ParseUint s n :
  Atoi s = Some n → 1 <= n <= 65535 → "+"%char ∉ bytes s → ParseUint 16 s = Some n ∧ word s.
Proof.
  intros H Hn Hp. destruct s as [|c r]; [done|]. rewrite Atoi_cases in H.
  destruct (Ascii.eqb_spec c "+") as [->|_]; [simpl in Hp; set_solver|].
  destruct (Ascii.eqb_spec c "-") as [->|_].
  - exfalso. unfold atoi_digits in H. destruct r as [|d r]; [done|].
    destruct (digits 0 (String d r)) as [m|] eqn:E; [|done].
    assert (∀ a t k, 0 <= a → digits a t = Some k → 0 <= k) as Hd.
    { clear. intros a t. revert a. induction t as [|d t IH]; simpl; intros a k ?; [naive_solver|].
      destruct (is_digit d) eqn:E; [|done]. unfold is_digit in E. breflect. apply IH. lia. }
    apply Hd in E; [|lia]. destruct (_ && _) in H; simplify_eq. lia.
  - unfold atoi_digits in H. destruct (digits 0 (String c r)) as [m|] eqn:E; [|done].
    split; [|by eapply digits_word]. unfold ParseUint. rewrite E.
    destruct (_ && _) in H; simplify_eq. destruct (Z.ltb_spec n (2 ^ 16)); [done|lia].
Qed.

(** [strconv.Itoa] *)
Definition Itoa (n : Z) : string := pretty n.

Example trim_ex : TrimSpace "  # a note 	" = "# a note".
Proof. reflexivity. Qed.
Example atoi_ex : (Atoi "8080", Atoi "+80", Atoi "80abc", Atoi "", Atoi "-1", Atoi "99999999999999999999")
  = (Some 8080, Some 80, None, None, Some (-1), None).
Proof. reflexivity. Qed.
Example cut_ex : CutByte ":"%char "8000:9000:1" = Some ("8000", "9000:1")%string.
Proof. reflexivity. Qed.

Example split_ex : SplitByte "," "a,,b" = ["a"; ""; "b"].
Proof. reflexivity. Qed.
