(* ===== verification/GoNet.v ===== *)
(** * Go addresses

    The part of Go's [net] and [net/netip] packages the modelled code uses:
    [netip.ParseAddr], [net.ParseIP], [net.ParseCIDR] and prefixes.  Addresses
    are their numeric value at their width, 32 bits or 128. *)
From S2P Require Import Prelude GoStrings.

Local Open Scope Z_scope.

(** [netip.Addr] *)
Inductive addr :=
| Addr4 (n : Z)
| Addr6 (n : Z) (zone : string).

#[global] Instance addr_eq_dec : EqDecision addr.
Proof. solve_decision. Defined.

Definition BitLen (a : addr) : Z :=
  match a with Addr4 _ => 32 | Addr6 _ _ => 128 end.
Definition Zone (a : addr) : string :=
  match a with Addr4 _ => "" | Addr6 _ z => z end.
Definition addr_val (a : addr) : Z :=
  match a with Addr4 n => n | Addr6 n _ => n end.

(** Network byte order. *)
Definition be_val (l : list Z) : Z := foldl (λ a b, a * 256 + b) 0 l.

(** ** netip.ParseAddr *)

Definition is_empty (s : string) : bool :=
  match s with EmptyString => true | _ => false end.

(** [parseIPv4Fields]: four decimal octets, no leading zero, none above 255.
    [fields] holds the octets read, [val] and [digLen] the one being read. *)
Fixpoint parseIPv4Fields (s : string) (val digLen : Z) (fields : list Z) : option (list Z) :=
  match s with
  | EmptyString => if (length fields =? 3)%nat then Some (fields ++ [val]) else None
  | String c r =>
      if is_digit c then
        if (digLen =? 1) && (val =? 0) then None else
        let val := val * 10 + (byte_val c - 48) in
        if 255 <? val then None else parseIPv4Fields r val (digLen + 1) fields
      else if Ascii.eqb c "."%char then
        if (digLen =? 0) || is_empty r then None
        else if (length fields =? 3)%nat then None
        else parseIPv4Fields r 0 0 (fields ++ [val])
      else None
  end.

Definition hex_digit (c : ascii) : option Z :=
  let v := byte_val c in
  if (48 <=? v) && (v <=? 57) then Some (v - 48)
  else if (97 <=? v) && (v <=? 102) then Some (v - 97 + 10)
  else if (65 <=? v) && (v <=? 70) then Some (v - 65 + 10)
  else None.

(** One group: the number of digits, their value and what follows; [None] for
    a fifth digit. *)
Fixpoint hex_group (off acc : Z) (s : string) : option (Z * Z * string) :=
  match s with
  | EmptyString => Some (off, acc, s)
  | String c r =>
      match hex_digit c with
      | Some d => if 3 <? off then None else hex_group (off + 1) (acc * 16 + d) r
      | None => Some (off, acc, s)
      end
  end.

(** The loop of [parseIPv6].  [ip] are the bytes written so far, [ell] the
    position of the ellipsis; every round writes two bytes, so eight rounds
    are the loop's bound [i < 16]. *)
Fixpoint v6_groups (rounds : nat) (s : string) (ip : list Z) (ell : option nat)
    : option (list Z * option nat * string) :=
  match rounds with
  | O => Some (ip, ell, s)
  | S rounds =>
      match hex_group 0 0 s with
      | None => None
      | Some (off, acc, r) =>
          if off =? 0 then None else
          let ip' := ip ++ [acc / 256; acc mod 256] in
          match r with
          | EmptyString => Some (ip', ell, EmptyString)
          | String c r' =>
              if Ascii.eqb c "."%char then
                if bool_decide (ell = None) && negb (length ip =? 12)%nat then None
                else if (16 <? length ip + 4)%nat then None
                else match parseIPv4Fields s 0 0 [] with
                     | Some f => Some (ip ++ f, ell, EmptyString)
                     | None => None
                     end
              else if negb (Ascii.eqb c ":"%char) then None
              else match r' with
                   | EmptyString => None
                   | String c' r'' =>
                       if Ascii.eqb c' ":"%char then
                         match ell with
                         | Some _ => None
                         | None =>
                             if is_empty r'' then Some (ip', Some (length ip'), EmptyString)
                             else v6_groups rounds r'' ip' (Some (length ip'))
                         end
                       else v6_groups rounds r' ip' ell
                   end
          end
      end
  end.

(** The tail of [parseIPv6]: nothing may follow the groups, and an ellipsis
    stands for at least one zero group. *)
Definition v6_finish (zone : string) (res : option (list Z * option nat * string)) : option addr :=
  match res with
  | Some (ip, ell, EmptyString) =>
      if (length ip <? 16)%nat then
        match ell with
        | Some e => Some (Addr6 (be_val (take e ip ++ replicate (16 - length ip) 0 ++ drop e ip)) zone)
        | None => None
        end
      else match ell with
           | Some _ => None
           | None => Some (Addr6 (be_val ip) zone)
           end
  | _ => None
  end.

(** What follows a leading "::". *)
Definition leading_ellipsis (s : string) : option string :=
  match s with
  | String c (String c' r) => if Ascii.eqb c ":" && Ascii.eqb c' ":" then Some r else None
  | _ => None
  end.

Definition v6_body (zone s : string) : option addr :=
  match leading_ellipsis s with
  | Some r =>
      if is_empty r then Some (Addr6 0 zone) else v6_finish zone (v6_groups 8 r [] (Some 0%nat))
  | None => v6_finish zone (v6_groups 8 s [] None)
  end.

Definition parseIPv6 (s : string) : option addr :=
  match CutByte "%"%char s with
  | Some (s, z) => if is_empty z then None else v6_body z s
  | None => v6_body "" s
  end.

(** [netip.ParseAddr] picks the family by the first of ['.'], [':'], ['%']. *)
Fixpoint addr_family (s : string) : option bool :=
  match s with
  | EmptyString => None
  | String c r =>
      if Ascii.eqb c "."%char then Some false
      else if Ascii.eqb c ":"%char then Some true
      else if Ascii.eqb c "%"%char then None
      else addr_family r
  end.

Definition ParseAddr (s : string) : option addr :=
  match addr_family s with
  | Some false => (λ f, Addr4 (be_val f)) <$> parseIPv4Fields s 0 0 []
  | Some true => parseIPv6 s
  | None => None
  end.

(** [net.ParseIP] refuses a zone. *)
Definition ParseIP (s : string) : option addr :=
  match ParseAddr s with
  | Some a => if is_empty (Zone a) then Some a else None
  | None => None
  end.

(** ** Networks *)

(** The [net.IPNet] a CIDR parse returns, as the address the mask leaves and
    the mask's length. *)
Record prefix := Prefix { p_addr : addr; p_bits : Z }.

#[global] Instance prefix_eq_dec : EqDecision prefix.
Proof. solve_decision. Defined.

(** Clear the [w - n] low bits. *)
Definition mask_bits (w n v : Z) : Z := Z.shiftl (Z.shiftr v (w - n)) (w - n).

Definition mask_addr (a : addr) (n : Z) : addr :=
  match a with
  | Addr4 v => Addr4 (mask_bits 32 n v)
  | Addr6 v z => Addr6 (mask_bits 128 n v) z
  end.

(** [dtoi], which gives up at 0xFFFFFF. *)
Definition dtoi (s : string) : option Z :=
  if is_empty s then None
  else match digits 0 s with
       | Some n => if n <? 0xFFFFFF then Some n else None
       | None => None
       end.

(** [net.ParseCIDR], the network it returns. *)
Definition ParseCIDR (s : string) : option prefix :=
  match CutByte "/"%char s with
  | None => None
  | Some (a, m) =>
      match ParseAddr a, dtoi m with
      | Some ip, Some n =>
          if is_empty (Zone ip) && (n <=? BitLen ip)
          then Some (Prefix (mask_addr ip n) n)
          else None
      | _, _ => None
      end
  end.

(** [netip.Addr.Is4In6] and [Unmap] *)
Definition Is4In6 (a : addr) : bool :=
  match a with
  | Addr4 _ => false
  | Addr6 n _ => Z.shiftr n 32 =? 0xFFFF
  end.

Definition Unmap (a : addr) : addr :=
  match a with
  | Addr6 n _ => if Is4In6 a then Addr4 (n mod 2 ^ 32) else a
  | Addr4 _ => a
  end.

(** [netip.Addr.WithZone("")], [IsLoopback], [Is4], [Is6] *)
Definition WithoutZone (a : addr) : addr :=
  match a with Addr4 n => Addr4 n | Addr6 n _ => Addr6 n "" end.
Definition Is6 (a : addr) : bool := match a with Addr6 _ _ => true | Addr4 _ => false end.
Definition Is4 (a : addr) : bool := negb (Is6 a).
Definition IsLoopback (a : addr) : bool :=
  match Unmap a with Addr4 n => Z.shiftr n 24 =? 127 | Addr6 n _ => n =? 1 end.

(** [netip.Prefix.Masked] of [netip.PrefixFrom]. *)
Definition Masked (a : addr) (bits : Z) : prefix := Prefix (mask_addr a bits) bits.

(** [netip.Prefix.Contains]: same family, no zone, equal leading bits. *)
Definition Contains (p : prefix) (a : addr) : bool :=
  match p_addr p, a with
  | Addr4 n, Addr4 v => Z.shiftr n (32 - p_bits p) =? Z.shiftr v (32 - p_bits p)
  | Addr6 n _, Addr6 v z =>
      is_empty z && (Z.shiftr n (128 - p_bits p) =? Z.shiftr v (128 - p_bits p))
  | _, _ => false
  end.

#[global] Arguments Is4In6 : simpl never.
#[global] Arguments Unmap : simpl never.
#[global] Arguments mask_bits : simpl never.

(** ** Facts *)

Lemma mask_bits_shiftr w n v :
  0 <= n <= w → Z.shiftr (mask_bits w n v) (w - n) = Z.shiftr v (w - n).
Proof.
  intros ?. unfold mask_bits. rewrite Z.shiftr_shiftl_l by lia.
  by rewrite Z.sub_diag, Z.shiftl_0_r.
Qed.

Lemma mask_bits_idemp w n v :
  0 <= n <= w → mask_bits w n (mask_bits w n v) = mask_bits w n v.
Proof. intros ?. unfold mask_bits at 1. by rewrite mask_bits_shiftr. Qed.

Lemma mask_addr_idemp a n :
  0 <= n <= BitLen a → mask_addr (mask_addr a n) n = mask_addr a n.
Proof. destruct a; simpl; intros ?; by rewrite mask_bits_idemp. Qed.

Lemma digits_nonneg s acc n : 0 <= acc → digits acc s = Some n → 0 <= n.
Proof.
  revert acc; induction s as [|c s IH]; simpl; intros acc Ha; [naive_solver|].
  destruct (is_digit c) eqn:Hc; [|done]. unfold is_digit in Hc. breflect.
  apply IH. lia.
Qed.

Lemma dtoi_nonneg s n : dtoi s = Some n → 0 <= n.
Proof.
  unfold dtoi. destruct (is_empty s); [done|].
  destruct (digits 0 s) as [m|] eqn:E; [|done]. apply digits_nonneg in E; [|lia].
  destruct (m <? _); naive_solver.
Qed.

Lemma BitLen_mask a n : BitLen (mask_addr a n) = BitLen a.
Proof. by destruct a. Qed.

(** What a successful CIDR parse guarantees. *)
Lemma ParseCIDR_spec s p :
  ParseCIDR s = Some p →
  0 <= p_bits p <= BitLen (p_addr p) ∧ p_addr p = mask_addr (p_addr p) (p_bits p) ∧
  Zone (p_addr p) = ""%string.
Proof.
  unfold ParseCIDR. destruct (CutByte _ _) as [[a m]|]; [|done].
  destruct (ParseAddr a) as [ip|]; [|done]. destruct (dtoi m) as [n|] eqn:Hn; [|done].
  apply dtoi_nonneg in Hn.
  destruct (is_empty (Zone ip)) eqn:Hz; [|done]. simpl.
  destruct (n <=? BitLen ip) eqn:Hb; [|done]. intros [= <-]. breflect. simpl.
  rewrite BitLen_mask, mask_addr_idemp by lia. split; [lia|]. split; [done|].
  destruct ip as [|v z]; [done|]. simpl in *. by destruct z.
Qed.

Example ip_ex1 : ParseIP "192.0.2.42" = Some (Addr4 3221226026). Proof. reflexivity. Qed.
Example ip_ex2 : (ParseIP "192.0.2.042", ParseIP "192.0.2", ParseIP "1.2.3.4.5", ParseIP "fe80::1%eth0")
  = (None, None, None, None). Proof. reflexivity. Qed.
Example ip_ex3 : ParseIP "2001:db8::1" = Some (Addr6 0x20010db8000000000000000000000001 "").
Proof. vm_compute. reflexivity. Qed.
Example ip_ex4 : (ParseIP "::ffff:10.0.0.1", ParseIP "::", ParseIP "1::2::3", ParseIP "1:2:3:4:5:6:7:8::")
  = (Some (Addr6 0xffff0a000001 ""), Some (Addr6 0 ""), None, None).
Proof. vm_compute. reflexivity. Qed.
Example cidr_ex : ParseCIDR "10.1.2.3/08" = Some (Prefix (Addr4 0x0a000000) 8).
Proof. vm_compute. reflexivity. Qed.

(** ** Zones *)

Lemma parseIPv4Fields_pct s v d f l : parseIPv4Fields s v d f = Some l → "%"%char ∉ bytes s.
Proof.
  revert v d f. induction s as [|c s IH]; intros v d f; simpl; [set_solver|].
  rewrite elem_of_cons. destruct (is_digit c) eqn:Hc.
  - destruct (_ && _); [done|]. destruct (255 <? _); [done|]. intros H [<-|Hs]; [done|].
    by eapply IH.
  - destruct (Ascii.eqb_spec c ".") as [->|]; [|done].
    destruct (_ || _); [done|]. destruct (_ =? _)%nat; [done|]. intros H [|Hs]; [done|].
    by eapply IH.
Qed.

Lemma v6_finish_Some z x a :
  v6_finish z x = Some a → Zone a = z ∧ ∃ ip ell, x = Some (ip, ell, EmptyString).
Proof. unfold v6_finish. destruct x as [[[ip ell] [|]]|]; [|done..]. intros H. split; [|by eauto]. by repeat case_match; simplify_eq/=. Qed.

Lemma v6_body_zone z s a : v6_body z s = Some a → Zone a = z.
Proof.
  unfold v6_body. destruct (leading_ellipsis s) as [r|]; [|by intros []%v6_finish_Some].
  destruct (is_empty r); [by intros [= <-]|by intros []%v6_finish_Some].
Qed.

Lemma parseIPv6_zone s a :
  parseIPv6 s = Some a →
  Zone a = match CutByte "%"%char s with Some (_, z) => z | None => "" end ∧
  (∀ b z, CutByte "%"%char s = Some (b, z) → z ≠ ""%string).
Proof.
  unfold parseIPv6. destruct (CutByte "%"%char s) as [[b z]|] eqn:E.
  - destruct z as [|d z]; [done|]. intros H%v6_body_zone. split; [done|by intros ? ? [= <- <-]].
  - intros H%v6_body_zone. by split.
Qed.

(** An address has a zone exactly when it is written with a percent sign. *)
Lemma ParseAddr_zone s a : ParseAddr s = Some a → Zone a = ""%string ↔ "%"%char ∉ bytes s.
Proof.
  unfold ParseAddr. destruct (addr_family s) as [[]|]; [| |done].
  - intros [-> Hz]%parseIPv6_zone. rewrite <- CutByte_None.
    destruct (CutByte "%"%char s) as [[b z]|]; [|done]. specialize (Hz b z eq_refl). naive_solver.
  - destruct (parseIPv4Fields s 0 0 []) as [f|] eqn:E; [|done]. intros [= <-].
    apply parseIPv4Fields_pct in E. naive_solver.
Qed.

Lemma ParseIP_pct s a : ParseIP s = Some a → "%"%char ∉ bytes s.
Proof.
  unfold ParseIP. destruct (ParseAddr s) as [b|] eqn:E; [|done].
  destruct (is_empty (Zone b)) eqn:Z; [|done]. intros [= ->].
  apply (ParseAddr_zone _ _ E). by destruct (Zone a).
Qed.

Lemma ParseCIDR_pct s p : ParseCIDR s = Some p → "%"%char ∉ bytes s.
Proof.
  unfold ParseCIDR. destruct (CutByte _ s) as [[a m]|] eqn:C; [|done].
  apply CutByte_Some in C. destruct (ParseAddr a) as [ip|] eqn:E; [|done].
  destruct (dtoi m) as [n|] eqn:D; [|done]. destruct (is_empty (Zone ip)) eqn:Z; [|done].
  intros _. rewrite C, elem_of_app, elem_of_cons. intros [H|[H|H]]; [|done|].
  - revert H. apply (ParseAddr_zone _ _ E). by destruct (Zone ip).
  - unfold dtoi in D. destruct (is_empty m); [done|].
    destruct (digits 0 m) as [k|] eqn:K; [|done]. clear - K H. revert K H. generalize 0 as acc.
    induction m as [|c m IH]; simpl; intros acc; [set_solver|].
    destruct (is_digit c) eqn:Hc; [|done]. rewrite elem_of_cons. intros K [<-|H]; [done|eauto].
Qed.

(** ** The characters an address is written with *)

Definition addr_char (c : ascii) : bool :=
  match hex_digit c with Some _ => true | None => Ascii.eqb c "." || Ascii.eqb c ":" end.

Lemma is_digit_hex c : is_digit c = true → addr_char c = true.
Proof.
  unfold addr_char, hex_digit, is_digit. cbv zeta. intros ->. done.
Qed.

Lemma addr_char_word c : addr_char c = true → word_byte c = true.
Proof. destruct c as [[] [] [] [] [] [] [] []]; vm_compute; done. Qed.

Lemma forallb_bytes_cons f c s : forallb f (bytes (String c s)) = f c && forallb f (bytes s).
Proof. done. Qed.

Lemma parseIPv4Fields_chars s v d f l :
  parseIPv4Fields s v d f = Some l → forallb addr_char (bytes s) = true.
Proof.
  revert v d f. induction s as [|c s IH]; intros v d f; [done|]. rewrite forallb_bytes_cons. cbn [parseIPv4Fields].
  destruct (is_digit c) eqn:Hc.
  - destruct (_ && _); [done|]. destruct (255 <? _); [done|]. intros H%IH.
    by rewrite H, (is_digit_hex c Hc).
  - destruct (Ascii.eqb_spec c ".") as [->|]; [|done].
    destruct (_ || _); [done|]. destruct (_ =? _)%nat; [done|]. intros H%IH. by rewrite H.
Qed.

Lemma hex_group_chars s off acc o a r :
  hex_group off acc s = Some (o, a, r) →
  forallb addr_char (bytes r) = true → forallb addr_char (bytes s) = true.
Proof.
  revert off acc. induction s as [|c s IH]; intros off acc; cbn [hex_group]; [naive_solver|].
  destruct (hex_digit c) as [d|] eqn:D; [|naive_solver].
  destruct (3 <? off); [done|]. intros H Hr. rewrite forallb_bytes_cons. unfold addr_char at 1.
  rewrite D. eauto.
Qed.

Lemma v6_groups_chars n s ip ell ip' ell' :
  v6_groups n s ip ell = Some (ip', ell', EmptyString) → forallb addr_char (bytes s) = true.
Proof.
  revert s ip ell. induction n as [|n IH]; intros s ip ell; cbn [v6_groups].
  { by intros [= _ _ ->]. }
  destruct (hex_group 0 0 s) as [[[off acc] r]|] eqn:G; [|done].
  destruct (off =? 0); [done|]. intros H.
  destruct r as [|c r]; [by eapply hex_group_chars|].
  destruct (Ascii.eqb_spec c ".").
  - destruct (_ && _); [done|]. destruct (_ <? _)%nat; [done|].
    destruct (parseIPv4Fields s 0 0 []) as [f|] eqn:F; [|done].
    by apply parseIPv4Fields_chars in F.
  - eapply hex_group_chars; [exact G|]. rewrite forallb_bytes_cons.
    destruct (Ascii.eqb_spec c ":") as [->|]; [|done]. cbn [negb] in H.
    destruct r as [|c' r]; [done|]. rewrite forallb_bytes_cons.
    destruct (Ascii.eqb_spec c' ":") as [->|].
    + destruct ell; [done|]. destruct r as [|c'' r]; [done|]. cbn [is_empty] in H. by apply IH in H.
    + by apply IH in H.
Qed.

Lemma leading_ellipsis_Some s r : leading_ellipsis s = Some r → bytes s = ":"%char :: ":"%char :: bytes r.
Proof.
  destruct s as [|c [|c' r']]; [done..|]. simpl.
  destruct (Ascii.eqb_spec c ":"), (Ascii.eqb_spec c' ":"); simpl; [|done..]. by intros [= ->]; subst.
Qed.

Lemma v6_body_chars z s a : v6_body z s = Some a → forallb addr_char (bytes s) = true.
Proof.
  unfold v6_body. destruct (leading_ellipsis s) as [r|] eqn:E.
  - apply leading_ellipsis_Some in E. rewrite E. cbn [forallb].
    destruct (is_empty r) eqn:R; [by destruct r|].
    intros [_ (? & ? & H)]%v6_finish_Some. by apply v6_groups_chars in H.
  - intros [_ (? & ? & H)]%v6_finish_Some. by apply v6_groups_chars in H.
Qed.

Lemma ParseAddr_chars s a :
  ParseAddr s = Some a → Zone a = ""%string → forallb addr_char (bytes s) = true.
Proof.
  unfold ParseAddr. destruct (addr_family s) as [[]|]; [| |done].
  - intros H Hz. pose proof (parseIPv6_zone s a H) as [Z Hne]. unfold parseIPv6 in H.
    destruct (CutByte "%"%char s) as [[b z]|] eqn:C; [by destruct (Hne b z eq_refl); congruence|].
    by apply v6_body_chars in H.
  - destruct (parseIPv4Fields s 0 0 []) as [f|] eqn:E; [|done].
    intros _ _. by apply parseIPv4Fields_chars in E.
Qed.

Lemma chars_word s : forallb addr_char (bytes s) = true → word s.
Proof.
  unfold word. rewrite !forallb_forall. intros H c Hc. by apply addr_char_word, H.
Qed.

Lemma ParseIP_word s a : ParseIP s = Some a → word s.
Proof.
  unfold ParseIP. destruct (ParseAddr s) as [b|] eqn:E; [|done].
  destruct (is_empty (Zone b)) eqn:Z; [|done]. intros [= ->].
  apply chars_word. eapply ParseAddr_chars; [done|]. by destruct (Zone a).
Qed.

Lemma dtoi_word m n : dtoi m = Some n → word m.
Proof.
  unfold dtoi. destruct (is_empty m); [done|]. destruct (digits 0 m) as [k|] eqn:K; [|done].
  intros _. by eapply digits_word.
Qed.

Lemma ParseCIDR_word s p : ParseCIDR s = Some p → word s.
Proof.
  unfold ParseCIDR. destruct (CutByte "/" s) as [[a m]|] eqn:C; [|done].
  apply CutByte_Some in C. destruct (ParseAddr a) as [ip|] eqn:E; [|done].
  destruct (dtoi m) as [n|] eqn:D; [|done]. destruct (is_empty (Zone ip)) eqn:Z; [|done].
  intros _. unfold word. rewrite C, forallb_app. cbn [forallb].
  rewrite (dtoi_word _ _ D), (chars_word a); [done|].
  eapply ParseAddr_chars; [done|]. by destruct (Zone ip).
Qed.

Lemma ParseAddr_slash s a : ParseAddr s = Some a → Zone a = ""%string → "/"%char ∉ bytes s.
Proof.
  intros H Hz Hin%list_elem_of_In. pose proof (ParseAddr_chars _ _ H Hz) as Hc.
  rewrite forallb_forall in Hc. by apply Hc in Hin.
Qed.

Lemma ParseCIDR_slash s p : ParseCIDR s = Some p → "/"%char ∈ bytes s.
Proof.
  unfold ParseCIDR. destruct (CutByte "/"%char s) as [[a m]|] eqn:C; [|done].
  apply CutByte_Some in C. intros _. rewrite C. set_solver.
Qed.
