(* ===== verification/NetBytes.v ===== *)
(** * Addresses and ports as bytes

    The part of [net] and [net/netip] that turns addresses, masks and prefixes
    into the byte slices a netlink message carries: [Addr.AsSlice], [As16],
    [AddrFrom16], [CIDRMask], [Compare], [Next], and the order of bytes
    [memcmp] gives.  A byte is a [Z] in [0, 256). *)
From S2P Require Import Prelude GoStrings GoNet.

Local Open Scope Z_scope.

(** The [n] bytes of [v], most significant first. *)
Fixpoint be_bytes (n : nat) (v : Z) : list Z :=
  match n with
  | O => []
  | S n => (v / 256 ^ Z.of_nat n) mod 256 :: be_bytes n v
  end.

(** [Addr.AsSlice], [Addr.As16], [AddrFrom16] *)
Definition AsSlice (a : addr) : list Z :=
  match a with Addr4 n => be_bytes 4 n | Addr6 n _ => be_bytes 16 n end.

Definition As16 (a : addr) : list Z :=
  match a with
  | Addr4 n => be_bytes 16 (0xFFFF * 2 ^ 32 + n)
  | Addr6 n _ => be_bytes 16 n
  end.

Definition AddrFrom16 (b : list Z) : addr := Addr6 (be_val b) "".

(** [net.CIDRMask] *)
Definition CIDRMask (ones bits : Z) : list Z :=
  be_bytes (Z.to_nat (bits / 8)) (mask_bits bits ones (2 ^ bits - 1)).

(** [Addr.Compare]: the family first, then the value, then the zone. *)
Definition Compare (a b : addr) : comparison :=
  match a, b with
  | Addr4 m, Addr4 n => Z.compare m n
  | Addr4 _, Addr6 _ _ => Lt
  | Addr6 _ _, Addr4 _ => Gt
  | Addr6 m z, Addr6 n z' =>
      match Z.compare m n with Eq => String.compare z z' | c => c end
  end.

(** [Addr.Next]: the invalid address past the top of the family. *)
Definition Next (a : addr) : option addr :=
  match a with
  | Addr4 n => if n =? 2 ^ 32 - 1 then None else Some (Addr4 (n + 1))
  | Addr6 n z => if n =? 2 ^ 128 - 1 then None else Some (Addr6 (n + 1) z)
  end.

(** [Prefix.IsValid]; [PrefixFrom] drops the zone. *)
Definition IsValid (p : prefix) : bool := (0 <=? p_bits p) && (p_bits p <=? BitLen (p_addr p)).

(** An address of the wire: in range, without a zone. *)
Definition addr_ok (a : addr) : Prop := 0 <= addr_val a < 2 ^ BitLen a ∧ Zone a = "".

(** [memcmp] on slices of one length. *)
Fixpoint memcmp (a b : list Z) : comparison :=
  match a, b with
  | x :: a, y :: b => match Z.compare x y with Eq => memcmp a b | c => c end
  | _, _ => Eq
  end.

#[global] Arguments be_bytes : simpl never.
#[global] Arguments AsSlice : simpl never.

(** ** Bytes and values *)

Lemma be_bytes_S n v : be_bytes (S n) v = (v / 256 ^ Z.of_nat n) mod 256 :: be_bytes n v.
Proof. done. Qed.

Lemma length_be_bytes n v : length (be_bytes n v) = n.
Proof. induction n; [done|]. rewrite be_bytes_S. simpl. by f_equal. Qed.

Lemma be_bytes_byte n v : Forall (λ b, 0 <= b < 256) (be_bytes n v).
Proof.
  induction n; [constructor|]. rewrite be_bytes_S. constructor; [apply Z.mod_pos_bound; lia|done].
Qed.

Lemma pow256_S n : 256 ^ Z.of_nat (S n) = 256 * 256 ^ Z.of_nat n.
Proof. rewrite Nat2Z.inj_succ, Z.pow_succ_r by lia. done. Qed.

Lemma pow256_pos n : 0 < 256 ^ Z.of_nat n.
Proof. apply Z.pow_pos_nonneg; lia. Qed.

Lemma be_bytes_mod n v : be_bytes n (v mod 256 ^ Z.of_nat n) = be_bytes n v.
Proof.
  assert (∀ k w, (k <= n)%nat → w mod 256 ^ Z.of_nat n = v mod 256 ^ Z.of_nat n →
                 be_bytes k w = be_bytes k v) as H.
  { induction k as [|k IH]; intros w Hk Hw; [done|]. rewrite !be_bytes_S. f_equal; [|apply IH; [lia|done]].
    pose proof (pow256_pos k). pose proof (pow256_pos (n - S k)).
    assert (∀ x, (x / 256 ^ Z.of_nat k) mod 256 =
                 ((x mod 256 ^ Z.of_nat n) / 256 ^ Z.of_nat k) mod 256) as E.
    { intros x. replace (Z.of_nat n) with (Z.of_nat k + (1 + Z.of_nat (n - S k))) by lia.
      rewrite !Z.pow_add_r by lia. rewrite Z.rem_mul_r by nia.
      rewrite (Z.mul_comm (256 ^ Z.of_nat k)), Z.div_add by lia.
      rewrite (Z.div_small (x mod 256 ^ Z.of_nat k)) by (apply Z.mod_pos_bound; lia).
      rewrite Z.add_0_l, Z.rem_mul_r by lia.
      replace (256 ^ 1 * ((x / 256 ^ Z.of_nat k / 256 ^ 1) mod 256 ^ Z.of_nat (n - S k)))
        with (((x / 256 ^ Z.of_nat k / 256 ^ 1) mod 256 ^ Z.of_nat (n - S k)) * 256) by lia.
      rewrite Z_mod_plus_full. change (256 ^ 1) with 256. by rewrite Z.mod_mod. }
    by rewrite (E w), Hw, <- E. }
  apply H; [done|]. apply Z.mod_mod. pose proof (pow256_pos n). lia.
Qed.

Lemma foldl_be a l : foldl (λ a b, a * 256 + b) a l = a * 256 ^ Z.of_nat (length l) + be_val l.
Proof.
  unfold be_val. revert a. induction l as [|x l IH]; intros a; cbn [foldl length]; [simpl; lia|].
  rewrite IH, (IH (0 * 256 + x)), pow256_S. lia.
Qed.

Lemma be_val_cons x l : be_val (x :: l) = x * 256 ^ Z.of_nat (length l) + be_val l.
Proof. unfold be_val at 1. cbn [foldl]. rewrite foldl_be. lia. Qed.

Lemma be_val_bytes n v : be_val (be_bytes n v) = v mod 256 ^ Z.of_nat n.
Proof.
  induction n as [|n IH]; [by rewrite Z.mod_1_r|].
  rewrite be_bytes_S, be_val_cons, length_be_bytes, IH, pow256_S.
  pose proof (pow256_pos n). rewrite (Z.mul_comm 256), Z.rem_mul_r by lia. lia.
Qed.

Lemma be_val_be_bytes n v : 0 <= v < 256 ^ Z.of_nat n → be_val (be_bytes n v) = v.
Proof. intros. by rewrite be_val_bytes, Z.mod_small. Qed.

Lemma be_bytes_inj n v w :
  0 <= v < 256 ^ Z.of_nat n → 0 <= w < 256 ^ Z.of_nat n → be_bytes n v = be_bytes n w → v = w.
Proof. intros Hv Hw H. apply (f_equal be_val) in H. by rewrite !be_val_be_bytes in H. Qed.

Lemma be_val_bound l : Forall (λ b, 0 <= b < 256) l → 0 <= be_val l < 256 ^ Z.of_nat (length l).
Proof.
  induction 1 as [|x l Hx _ IH]; [done|]. rewrite be_val_cons. cbn [length]. rewrite pow256_S. nia.
Qed.

Lemma be_bytes_val l : Forall (λ b, 0 <= b < 256) l → be_bytes (length l) (be_val l) = l.
Proof.
  induction 1 as [|x l Hx Hl IH]; [done|]. cbn [length]. rewrite be_bytes_S, be_val_cons.
  pose proof (be_val_bound l Hl). pose proof (pow256_pos (length l)).
  rewrite Z.add_comm, Z.div_add by lia. rewrite Z.div_small, Z.add_0_l, Z.mod_small by lia.
  f_equal. rewrite <- be_bytes_mod, Z_mod_plus_full, Z.mod_small by done. done.
Qed.

(** The order of the bytes is the order of the values. *)
Lemma memcmp_be_bytes n v w :
  0 <= v < 256 ^ Z.of_nat n → 0 <= w < 256 ^ Z.of_nat n →
  memcmp (be_bytes n v) (be_bytes n w) = Z.compare v w.
Proof.
  assert (∀ n v w, memcmp (be_bytes n v) (be_bytes n w) =
                   Z.compare (v mod 256 ^ Z.of_nat n) (w mod 256 ^ Z.of_nat n)) as H.
  { clear. induction n as [|n IH]; intros v w; [by rewrite !Z.mod_1_r|].
    rewrite !be_bytes_S. cbn [memcmp]. rewrite IH, pow256_S.
    pose proof (pow256_pos n). rewrite (Z.mul_comm 256), !Z.rem_mul_r by lia.
    pose proof (Z.mod_pos_bound v (256 ^ Z.of_nat n) ltac:(lia)).
    pose proof (Z.mod_pos_bound w (256 ^ Z.of_nat n) ltac:(lia)).
    generalize dependent ((v / 256 ^ Z.of_nat n) mod 256). intros x.
    generalize dependent ((w / 256 ^ Z.of_nat n) mod 256). intros y.
    destruct (Z.compare_spec x y).
    - subst. by rewrite !(Z.add_comm _ (256 ^ Z.of_nat n * y)), Z.add_compare_mono_l.
    - symmetry. apply Z.compare_lt_iff. nia.
    - symmetry. apply Z.compare_gt_iff. nia. }
  intros Hv Hw. by rewrite H, !Z.mod_small.
Qed.

(** ** Bitwise operations act byte by byte *)

Lemma be_bytes_land n v w :
  be_bytes n (Z.land v w) = zip_with Z.land (be_bytes n v) (be_bytes n w).
Proof.
  induction n as [|n IH]; [done|]. rewrite !be_bytes_S. cbn [zip_with]. f_equal; [|done].
  replace (256 ^ Z.of_nat n) with (2 ^ (8 * Z.of_nat n)) by (by rewrite Z.pow_mul_r by lia).
  change 256 with (2 ^ 8). rewrite <- !Z.shiftr_div_pow2 by lia. rewrite <- !Z.land_ones by lia.
  rewrite Z.shiftr_land. apply Z.bits_inj_iff'. intros i Hi. rewrite !Z.land_spec.
  by destruct (Z.testbit (Z.ones 8) i); rewrite ?andb_false_r, ?andb_true_r.
Qed.

Lemma zip_xor_zero l : zip_with Z.lxor l (replicate (length l) 0) = l.
Proof. induction l as [|x l IH]; [done|]. cbn. by rewrite Z.lxor_0_r, IH. Qed.

(** A masked value. *)
Lemma mask_bits_land w n v :
  0 <= n <= w → 0 <= v < 2 ^ w → Z.land v (mask_bits w n (2 ^ w - 1)) = mask_bits w n v.
Proof.
  intros Hn Hv. unfold mask_bits.
  replace (2 ^ w - 1) with (Z.ones w) by (rewrite Z.ones_equiv; lia).
  apply Z.bits_inj_iff'. intros i Hi. rewrite Z.land_spec, !Z.shiftl_spec by lia.
  destruct (Z.ltb_spec i (w - n)) as [Hlt|Hge].
  { rewrite !(Z.testbit_neg_r _ (i - (w - n))) by lia. by rewrite andb_false_r. }
  rewrite !Z.shiftr_spec by lia. replace (i - (w - n) + (w - n)) with i by lia.
  destruct (Z.ltb_spec i w).
  - rewrite Z.ones_spec_low by lia. by rewrite andb_true_r.
  - rewrite Z.ones_spec_high by lia. rewrite andb_false_r. symmetry.
    rewrite <- (Z.mod_small v (2 ^ w)) by done. apply Z.mod_pow2_bits_high. lia.
Qed.

Lemma mask_bits_eq_iff w n u v :
  0 <= n <= w →
  mask_bits w n u = mask_bits w n v ↔ Z.shiftr u (w - n) = Z.shiftr v (w - n).
Proof.
  intros Hn. split; [|unfold mask_bits; by intros ->].
  intros H. apply (f_equal (λ x, Z.shiftr x (w - n))) in H. by rewrite !mask_bits_shiftr in H.
Qed.

Lemma mask_bits_range w n v : 0 <= n <= w → 0 <= v < 2 ^ w → 0 <= mask_bits w n v < 2 ^ w.
Proof.
  intros Hn Hv. unfold mask_bits. rewrite Z.shiftl_mul_pow2, Z.shiftr_div_pow2 by lia.
  pose proof (Z.pow_pos_nonneg 2 (w - n) ltac:(lia) ltac:(lia)).
  pose proof (Z.mul_div_le v (2 ^ (w - n)) ltac:(lia)).
  pose proof (Z.div_pos v (2 ^ (w - n)) ltac:(lia) ltac:(lia)). nia.
Qed.

Lemma mask_addr_ok a n : addr_ok a → 0 <= n <= BitLen a → addr_ok (mask_addr a n).
Proof.
  intros [Hv Hz] Hn. split; [|by destruct a].
  destruct a; simpl in *; by apply mask_bits_range.
Qed.

(** ** Parsed addresses are in range *)

Definition is_byte (b : Z) : Prop := 0 <= b < 256.

Lemma is_digit_val c : is_digit c = true → 48 <= byte_val c <= 57.
Proof. unfold is_digit. intros H. breflect. lia. Qed.

Lemma parseIPv4Fields_bytes s v d f l :
  parseIPv4Fields s v d f = Some l → is_byte v → Forall is_byte f →
  (length f <= 3)%nat → length l = 4%nat ∧ Forall is_byte l.
Proof.
  revert v d f. induction s as [|c s IH]; intros v d f; cbn [parseIPv4Fields].
  - destruct (length f =? 3)%nat eqn:E; [|done]. apply Nat.eqb_eq in E. intros [= <-] Hv Hf _.
    rewrite length_app. simpl. split; [lia|]. apply Forall_app. by rewrite Forall_singleton.
  - destruct (is_digit c) eqn:Hc.
    + destruct (_ && _); [done|]. destruct (255 <? _) eqn:E; [done|]. breflect.
      intros H Hv Hf Hl. eapply IH; [exact H| |done..]. apply is_digit_val in Hc. unfold is_byte in *. lia.
    + destruct (Ascii.eqb c "."); [|done]. destruct (_ || _); [done|].
      destruct (length f =? 3)%nat eqn:E; [done|]. apply Nat.eqb_neq in E. intros H Hv Hf Hl.
      eapply IH; [exact H|unfold is_byte; lia| |].
      * apply Forall_app. by rewrite Forall_singleton.
      * rewrite length_app. simpl. lia.
Qed.

Lemma hex_digit_val c v : hex_digit c = Some v → 0 <= v < 16.
Proof. unfold hex_digit. repeat case_match; intros [= <-]; breflect; lia. Qed.

Lemma hex_group_val s off acc off' acc' r :
  hex_group off acc s = Some (off', acc', r) → 0 <= off <= 4 → 0 <= acc < 16 ^ off →
  0 <= acc' < 2 ^ 16.
Proof.
  revert off acc. induction s as [|c s IH]; intros off acc; cbn [hex_group].
  - intros [= <- <- <-] Ho Ha. pose proof (Z.pow_le_mono_r 16 off 4 ltac:(lia) ltac:(lia)). lia.
  - destruct (hex_digit c) as [d|] eqn:Hd.
    + destruct (3 <? off) eqn:E; [done|]. breflect. intros H Ho Ha. apply hex_digit_val in Hd.
      eapply IH; [exact H|lia|]. rewrite Z.pow_add_r, Z.pow_1_r by lia. lia.
    + intros [= <- <- <-] Ho Ha. pose proof (Z.pow_le_mono_r 16 off 4 ltac:(lia) ltac:(lia)). lia.
Qed.

Lemma v6_groups_bytes n s ip ell ip' ell' r :
  v6_groups n s ip ell = Some (ip', ell', r) → Forall is_byte ip → (length ip + 2 * n <= 16)%nat →
  (∀ e, ell = Some e → (e <= length ip)%nat) →
  Forall is_byte ip' ∧ (length ip' <= 16)%nat ∧ (∀ e, ell' = Some e → (e <= length ip')%nat).
Proof.
  revert s ip ell. induction n as [|n IH]; intros s ip ell; cbn [v6_groups].
  { intros [= <- <- <-] Hb Hl He. split_and!; [done|lia|done]. }
  destruct (hex_group 0 0 s) as [[[off acc] r']|] eqn:G; [|done].
  apply hex_group_val in G; [|lia..]. destruct (off =? 0); [done|].
  set (ip2 := ip ++ [acc / 256; acc mod 256]). intros H Hb Hl He.
  assert (Forall is_byte ip2) as Hb2.
  { apply Forall_app. split; [done|]. apply Forall_cons. split; [|apply Forall_singleton].
    - split; [apply Z.div_pos|apply Z.div_lt_upper_bound]; lia.
    - apply Z.mod_pos_bound. lia. }
  assert (length ip2 = length ip + 2)%nat as Hl2 by (unfold ip2; rewrite length_app; simpl; lia).
  clearbody ip2.
  assert (∀ e, ell = Some e → (e <= length ip2)%nat) as He2 by (intros e E; apply He in E; lia).
  destruct r' as [|c r']; [injection H as <- <- <-; split_and!; [done|lia|done]|].
  destruct (Ascii.eqb c ".").
  - destruct (_ && _); [done|]. destruct (16 <? length ip + 4)%nat eqn:E; [done|].
    apply Nat.ltb_ge in E. destruct (parseIPv4Fields s 0 0 []) as [f|] eqn:F; [|done].
    apply parseIPv4Fields_bytes in F as [Hf Hbf]; [|unfold is_byte; lia|constructor|simpl; lia].
    injection H as <- <- <-. rewrite length_app. split_and!; [by apply Forall_app|lia|].
    intros e Ee. apply He in Ee. lia.
  - destruct (negb _); [done|]. destruct r' as [|c' r'']; [done|].
    destruct (Ascii.eqb c' ":").
    + destruct ell; [done|]. destruct (is_empty r'').
      * injection H as <- <- <-. split_and!; [done|lia|]. intros e [= <-]. lia.
      * eapply IH; [exact H|done|lia|]. intros e [= <-]. lia.
    + eapply IH; [exact H|done|lia|done].
Qed.

Lemma be_val_range n l :
  Forall is_byte l → length l = n → 0 <= be_val l < 256 ^ Z.of_nat n.
Proof. intros H <-. by apply be_val_bound. Qed.

Lemma v6_finish_range z n s ell a :
  (n <= 8)%nat → (∀ e, ell = Some e → e = 0%nat) →
  v6_finish z (v6_groups n s [] ell) = Some a → 0 <= addr_val a < 2 ^ BitLen a.
Proof.
  intros Hn He. destruct (v6_groups n s [] ell) as [[[ip el] r]|] eqn:G; [|done].
  apply v6_groups_bytes in G as (Hb & Hl & Hel); [|constructor|simpl; lia|intros e ->%He; lia].
  unfold v6_finish. destruct r; [|done]. destruct (length ip <? 16)%nat eqn:E.
  - destruct el as [e|]; [|done]. intros [= <-]. apply Nat.ltb_lt in E. specialize (Hel e eq_refl).
    apply (be_val_range 16).
    + apply Forall_app. split; [by apply Forall_take|]. apply Forall_app. split; [|by apply Forall_drop].
      apply Forall_replicate. unfold is_byte. lia.
    + rewrite !length_app, length_take, length_replicate, length_drop. lia.
  - destruct el; [done|]. intros [= <-]. apply Nat.ltb_ge in E. apply (be_val_range 16); [done|lia].
Qed.

Lemma ParseAddr_range s a : ParseAddr s = Some a → 0 <= addr_val a < 2 ^ BitLen a.
Proof.
  unfold ParseAddr. destruct (addr_family s) as [[]|]; [| |done].
  - unfold parseIPv6, v6_body. intros H.
    assert (∀ z s, match leading_ellipsis s with
                   | Some r => if is_empty r then Some (Addr6 0 z)
                               else v6_finish z (v6_groups 8 r [] (Some 0%nat))
                   | None => v6_finish z (v6_groups 8 s [] None)
                   end = Some a → 0 <= addr_val a < 2 ^ BitLen a) as Hr.
    { intros z s'. destruct (leading_ellipsis s') as [r|].
      - destruct (is_empty r); [intros [= <-]; simpl; lia|]. apply v6_finish_range; [done|]. by intros e [= <-].
      - by apply v6_finish_range. }
    destruct (CutByte "%" s) as [[b z]|]; [destruct (is_empty z); [done|]|]; by apply Hr in H.
  - destruct (parseIPv4Fields s 0 0 []) as [f|] eqn:F; [|done]. intros [= <-].
    apply parseIPv4Fields_bytes in F as [Hl Hb]; [|unfold is_byte; lia|constructor|simpl; lia].
    by apply (be_val_range 4).
Qed.

Lemma ParseIP_ok s a : ParseIP s = Some a → addr_ok a.
Proof.
  unfold ParseIP. destruct (ParseAddr s) as [b|] eqn:E; [|done]. destruct (is_empty (Zone b)) eqn:Z; [|done].
  intros [= ->]. split; [by eapply ParseAddr_range|]. by destruct (Zone a).
Qed.

Lemma ParseCIDR_ok s p : ParseCIDR s = Some p → addr_ok (p_addr p).
Proof.
  intros H. pose proof (ParseCIDR_spec s p H) as (Hb & _ & _). revert H. unfold ParseCIDR.
  destruct (CutByte "/" s) as [[a m]|]; [|done]. destruct (ParseAddr a) as [ip|] eqn:E; [|done].
  destruct (dtoi m) as [n|]; [|done]. destruct (is_empty (Zone ip) && (n <=? BitLen ip)) eqn:C; [|done].
  intros [= <-]. simpl in *. rewrite BitLen_mask in Hb. breflect. apply mask_addr_ok; [|lia].
  split; [by eapply ParseAddr_range|]. by destruct (Zone ip).
Qed.

Lemma Unmap_ok a : addr_ok a → addr_ok (Unmap a).
Proof.
  intros [Ha Hz]. destruct a as [n|n z]; [done|]. unfold Unmap.
  destruct (Is4In6 (Addr6 n z)); [|done]. split; [|done]. simpl. apply Z.mod_pos_bound. lia.
Qed.
