(* ===== verification/NetString.v ===== *)
(** * Printing addresses

    [netip.Addr.String], [netip.Prefix.String] and [netip.ParsePrefix], the form
    the feeds are stored in, and that parsing inverts printing. *)
From S2P Require Import Prelude GoStrings GoNet NetBytes.

Local Open Scope Z_scope.

(** ** [Addr.String] *)

Definition digit_char (d : Z) : ascii := mkbyte (Z.to_nat (if d <? 10 then 48 + d else 87 + d)).

(** [appendDecimal], one octet. *)
Definition appendDecimal (x : Z) : list ascii :=
  (if 100 <=? x then [digit_char (x / 100)] else []) ++
  (if 10 <=? x then [digit_char (x / 10 mod 10)] else []) ++ [digit_char (x mod 10)].

(** [appendHex], one group, without leading zeros. *)
Definition appendHex (x : Z) : list ascii :=
  (if 0x1000 <=? x then [digit_char (x / 2 ^ 12)] else []) ++
  (if 0x100 <=? x then [digit_char (x / 2 ^ 8 mod 16)] else []) ++
  (if 0x10 <=? x then [digit_char (x / 2 ^ 4 mod 16)] else []) ++ [digit_char (x mod 16)].

(** [string4] *)
Definition print4 (n : Z) : list ascii :=
  match be_bytes 4 n with
  | [a; b; c; d] =>
      appendDecimal a ++ "."%char :: appendDecimal b ++ "."%char :: appendDecimal c ++ "."%char :: appendDecimal d
  | _ => []
  end.

(** [v6u16] of every position. *)
Definition v6_words (n : Z) : list Z := map (λ i, n / 65536 ^ (7 - Z.of_nat i) mod 65536) (seq 0 8).

(** The zeros from a position on. *)
Fixpoint zeros (l : list Z) : nat :=
  match l with 0 :: l => S (zeros l) | _ => O end.

(** The first loop of [appendTo6]: the longest run of at least two zero groups,
    the first of them when there are several. *)
Definition zero_run (l : list Z) : nat * nat :=
  foldl (λ best i,
    let n := zeros (drop i l) in
    if (2 <=? n)%nat && (best.2 - best.1 <? n)%nat then (i, (i + n)%nat) else best) (255, 255)%nat (seq 0 8).

(** The second loop, from position [i]; eight rounds cover it. *)
Fixpoint print_words (fuel i : nat) (run : nat * nat) (l : list Z) : list ascii :=
  match fuel with
  | O => []
  | S fuel =>
      if (8 <=? i)%nat then []
      else if (i =? run.1)%nat then
        ":"%char :: ":"%char ::
        (if (8 <=? run.2)%nat then [] else appendHex (nth run.2 l 0) ++ print_words fuel (S run.2) run l)
      else (if (0 <? i)%nat then [":"%char] else []) ++ appendHex (nth i l 0) ++ print_words fuel (S i) run l
  end.

Definition appendTo6 (n : Z) : list ascii :=
  let l := v6_words n in print_words 8 0 (zero_run l) l.

Definition Addr_String (a : addr) : string :=
  of_bytes
    match a with
    | Addr4 n => print4 n
    | Addr6 n z =>
        (if Is4In6 a then bytes "::ffff:" ++ print4 (n mod 2 ^ 32) else appendTo6 n) ++
        (if is_empty z then [] else "%"%char :: bytes z)
    end.

(** [Prefix.String] *)
Definition Prefix_String (p : prefix) : string :=
  if IsValid p then Addr_String (p_addr p) +:+ "/" +:+ Itoa (p_bits p) else "invalid Prefix".

(** ** [ParsePrefix] *)

(** [strings.Cut] at the last separator. *)
Fixpoint CutLastByte (sep : ascii) (s : string) : option (string * string) :=
  match s with
  | EmptyString => None
  | String c s =>
      match CutLastByte sep s with
      | Some (a, b) => Some (String c a, b)
      | None => if Ascii.eqb c sep then Some (EmptyString, s) else None
      end
  end.

Definition ParsePrefix (s : string) : option prefix :=
  match CutLastByte "/" s with
  | None => None
  | Some (a, m) =>
      match ParseAddr a with
      | None => None
      | Some ip =>
          let leading := match m with
                         | String c (String _ _) => negb ((49 <=? byte_val c) && (byte_val c <=? 57))
                         | _ => false
                         end in
          if negb (is_empty (Zone ip)) || leading then None
          else match Atoi m with
               | Some n => if (n <? 0) || (BitLen ip <? n) then None else Some (Prefix ip n)
               | None => None
               end
      end
  end.

Example string_ex :
  map Prefix_String
    [Prefix (Addr4 0xcb007100) 24; Prefix (Addr6 (0x20010db8 * 2 ^ 96 + 1) "") 128; Prefix (Addr6 0 "") 0;
     Prefix (Addr6 (0x2001 * 2 ^ 112 + 0xab) "") 128; Prefix (Addr6 (0xFFFF * 2 ^ 32 + 258) "") 128;
     Prefix (Addr6 (0x20010db800010000000100000001 * 2 ^ 16) "") 112] =
  ["203.0.113.0/24"; "2001:db8::1/128"; "::/0"; "2001::ab/128"; "::ffff:0.0.1.2/128"; "2001:db8:1:0:1:0:1:0/112"].
Proof. vm_compute. reflexivity. Qed.

Example parse_ex :
  map ParsePrefix ["203.0.113.9/24"; "2001:db8::/32"; "10.0.0.0/08"; "10.0.0.0/33"; "10.0.0.0"; "fe80::1%a/64"] =
  [Some (Prefix (Addr4 0xcb007109) 24); Some (Prefix (Addr6 (0x20010db8 * 2 ^ 96) "") 32); None; None; None; None].
Proof. vm_compute. reflexivity. Qed.

(** ** Reading back what was printed *)

(** Groups with colons between them. *)
Fixpoint join_hex (l : list Z) : list ascii :=
  match l with
  | [] => []
  | [x] => appendHex x
  | x :: l => appendHex x ++ ":"%char :: join_hex l
  end.

Definition word16 (x : Z) : Prop := 0 <= x < 65536.
Definition words_bytes (l : list Z) : list Z := flat_map (λ x, [x / 256; x mod 256]) l.

Lemma digit_char_hex d : 0 <= d < 16 → hex_digit (digit_char d) = Some d.
Proof.
  intros Hd. assert (Forall (λ d, hex_digit (digit_char d) = Some d) (seqZ 0 16)) as H by (repeat constructor).
  rewrite Forall_forall in H. apply H, elem_of_seqZ. lia.
Qed.

Lemma digit_char_dec d : 0 <= d < 10 → is_digit (digit_char d) = true ∧ byte_val (digit_char d) = 48 + d.
Proof.
  intros Hd.
  assert (Forall (λ d, is_digit (digit_char d) = true ∧ byte_val (digit_char d) = 48 + d) (seqZ 0 10)) as H
    by (repeat constructor).
  rewrite Forall_forall in H. apply H, elem_of_seqZ. lia.
Qed.

(** What may follow a group. *)
Definition group_end (r : list ascii) : Prop := r = [] ∨ ∃ r', r = ":"%char :: r'.

Lemma hex_group_end off acc r : group_end r → hex_group off acc (of_bytes r) = Some (off, acc, of_bytes r).
Proof. intros [->|[r' ->]]; [done|]. cbn. done. Qed.

Lemma hex_group_digit off acc d r :
  0 <= d < 16 → off <= 3 →
  hex_group off acc (of_bytes (digit_char d :: r)) = hex_group (off + 1) (acc * 16 + d) (of_bytes r).
Proof.
  intros Hd Ho. cbn [of_bytes String.string_of_list_ascii hex_group]. rewrite digit_char_hex by done.
  destruct (Z.ltb_spec 3 off); [lia|done].
Qed.

Lemma hex_group_appendHex x r :
  word16 x → group_end r →
  ∃ off, 0 < off ∧ hex_group 0 0 (of_bytes (appendHex x ++ r)) = Some (off, x, of_bytes r).
Proof.
  intros [H0 Hx] Hr. unfold appendHex.
  assert (∀ k, 0 <= x / 2 ^ k mod 16 < 16) as Hm by (intros; apply Z.mod_pos_bound; lia).
  pose proof (Z.mod_pos_bound x 16 ltac:(lia)) as Hm0.
  pose proof (Z.div_mod x 16 ltac:(lia)) as E0.
  pose proof (Z.div_mod (x / 16) 16 ltac:(lia)) as E1. pose proof (Z.div_mod (x / 16 / 16) 16 ltac:(lia)) as E2.
  rewrite Z.div_div in E1, E2 by lia. rewrite Z.div_div in E2 by lia.
  change (16 * 16) with (2 ^ 8) in *. change (2 ^ 8 * 16) with (2 ^ 12) in *.
  pose proof (Hm 4). pose proof (Hm 8).
  assert (0 <= x / 2 ^ 12 < 16) by (split; [apply Z.div_pos; lia|apply Z.div_lt_upper_bound; lia]).
  change (x / 16) with (x / 2 ^ 4) in *.
  destruct (Z.leb_spec 0x1000 x), (Z.leb_spec 0x100 x), (Z.leb_spec 0x10 x); try lia; cbn [app];
    rewrite !hex_group_digit, hex_group_end by (done || lia); eexists; (split; [|do 3 f_equal]); nia.
Qed.

Lemma join_hex_cons x y l : join_hex (x :: y :: l) = appendHex x ++ ":"%char :: join_hex (y :: l).
Proof. done. Qed.

(** One group and what follows it. *)
Lemma v6_groups_last n x ip ell :
  word16 x → v6_groups (S n) (of_bytes (appendHex x)) ip ell = Some (ip ++ [x / 256; x mod 256], ell, EmptyString).
Proof.
  intros Hx. cbn [v6_groups]. destruct (hex_group_appendHex x [] Hx) as (off & Ho & E); [by left|].
  rewrite app_nil_r in E. rewrite E. destruct (Z.eqb_spec off 0); [lia|]. done.
Qed.

Lemma v6_groups_colon n x c r ip ell :
  word16 x → c ≠ ":"%char →
  v6_groups (S n) (of_bytes (appendHex x ++ ":"%char :: c :: r)) ip ell =
  v6_groups n (of_bytes (c :: r)) (ip ++ [x / 256; x mod 256]) ell.
Proof.
  intros Hx Hc. cbn [v6_groups].
  destruct (hex_group_appendHex x (":"%char :: c :: r) Hx) as (off & Ho & ->); [by right; eexists|].
  destruct (Z.eqb_spec off 0); [lia|]. cbn. destruct (Ascii.eqb_spec c ":"); [done|]. done.
Qed.

Lemma v6_groups_ellipsis n x r ip :
  word16 x →
  v6_groups (S n) (of_bytes (appendHex x ++ ":"%char :: ":"%char :: r)) ip None =
  let ip' := ip ++ [x / 256; x mod 256] in
  if is_empty (of_bytes r) then Some (ip', Some (length ip'), EmptyString)
  else v6_groups n (of_bytes r) ip' (Some (length ip')).
Proof.
  intros Hx. cbn [v6_groups].
  destruct (hex_group_appendHex x (":"%char :: ":"%char :: r) Hx) as (off & Ho & ->); [by right; eexists|].
  destruct (Z.eqb_spec off 0); [lia|]. done.
Qed.

Lemma digit_char_colon d : 0 <= d < 16 → digit_char d ≠ ":"%char.
Proof. intros Hd E. pose proof (digit_char_hex d Hd) as H. by rewrite E in H. Qed.

Lemma appendHex_head x : word16 x → ∃ d r, appendHex x = digit_char d :: r ∧ 0 <= d < 16.
Proof.
  intros [H0 Hx]. unfold appendHex.
  assert (∀ k, 0 <= x / 2 ^ k mod 16 < 16) as Hm by (intros; apply Z.mod_pos_bound; lia).
  pose proof (Z.mod_pos_bound x 16 ltac:(lia)). pose proof (Hm 4). pose proof (Hm 8).
  assert (0 <= x / 2 ^ 12 < 16) by (split; [apply Z.div_pos; lia|apply Z.div_lt_upper_bound; lia]).
  destruct (_ <=? x), (_ <=? x), (_ <=? x); cbn [app]; eauto.
Qed.

Lemma join_hex_head x l : word16 x → ∃ c r, join_hex (x :: l) = c :: r ∧ c ≠ ":"%char.
Proof.
  intros Hx. destruct (appendHex_head x Hx) as (d & r & E & Hd).
  destruct l as [|y l]; [cbn [join_hex]|rewrite join_hex_cons]; rewrite E; cbn [app];
    eauto using digit_char_colon.
Qed.

Lemma v6_groups_join l n ip ell :
  l ≠ [] → Forall word16 l → (length l <= n)%nat →
  v6_groups n (of_bytes (join_hex l)) ip ell = Some (ip ++ words_bytes l, ell, EmptyString).
Proof.
  revert n ip. induction l as [|x l IH]; intros n ip Hne Hl Hn; [done|]. clear Hne.
  apply Forall_cons in Hl as [Hx Hl]. destruct n as [|n]; [simpl in Hn; lia|].
  destruct l as [|y l]; [by apply v6_groups_last|]. rewrite join_hex_cons.
  pose proof Hl as [Hy _]%Forall_cons. destruct (join_hex_head y l Hy) as (c & r & E & Hc). rewrite E.
  rewrite v6_groups_colon by done. rewrite <- E, IH by (done || simpl in *; lia).
  by rewrite <- app_assoc.
Qed.

Lemma v6_groups_join_ellipsis l n ip r :
  l ≠ [] → Forall word16 l → (length l <= n)%nat →
  v6_groups n (of_bytes (join_hex l ++ ":"%char :: ":"%char :: r)) ip None =
  let ip' := ip ++ words_bytes l in
  if is_empty (of_bytes r) then Some (ip', Some (length ip'), EmptyString)
  else v6_groups (n - length l) (of_bytes r) ip' (Some (length ip')).
Proof.
  revert n ip. induction l as [|x l IH]; intros n ip Hne Hl Hn; [done|]. clear Hne.
  apply Forall_cons in Hl as [Hx Hl]. destruct n as [|n]; [simpl in Hn; lia|].
  destruct l as [|y l].
  - cbn [join_hex]. rewrite v6_groups_ellipsis by done. cbn [length Nat.sub]. by rewrite Nat.sub_0_r.
  - rewrite join_hex_cons, <- app_assoc. cbn [app].
    pose proof Hl as [Hy _]%Forall_cons. destruct (join_hex_head y l Hy) as (c & r' & E & Hc). rewrite E. cbn [app].
    rewrite v6_groups_colon by done. change (c :: r' ++ ?t) with ((c :: r') ++ t). rewrite <- E, IH by (done || simpl in *; lia).
    cbv zeta. by rewrite <- app_assoc.
Qed.

Lemma length_words_bytes l : length (words_bytes l) = (2 * length l)%nat.
Proof. unfold words_bytes. induction l; simpl in *; lia. Qed.

Lemma words_bytes_zeros k : words_bytes (replicate k 0) = replicate (2 * k) 0.
Proof.
  induction k as [|k IH]; [done|]. replace (2 * S k)%nat with (S (S (2 * k))) by lia.
  unfold words_bytes in *. cbn [replicate flat_map]. by rewrite IH.
Qed.

Lemma words_bytes_app a b : words_bytes (a ++ b) = words_bytes a ++ words_bytes b.
Proof. apply flat_map_app. Qed.

Lemma v6_finish_groups z pre k post :
  (2 * length pre + 2 * k + 2 * length post = 16)%nat → (0 < k)%nat →
  v6_finish z (Some (words_bytes pre ++ words_bytes post, Some (length (words_bytes pre)), EmptyString)) =
  Some (Addr6 (be_val (words_bytes (pre ++ replicate k 0 ++ post))) z).
Proof.
  intros Hlen Hk. unfold v6_finish. rewrite !length_app, !length_words_bytes.
  destruct (Nat.ltb_spec (2 * length pre + 2 * length post) 16); [|lia].
  rewrite <- (length_words_bytes pre), take_app_length, drop_app_length.
  rewrite !words_bytes_app, words_bytes_zeros, length_words_bytes. do 6 f_equal. lia.
Qed.

Lemma v6_body_plain z l :
  length l = 8%nat → Forall word16 l →
  v6_body z (of_bytes (join_hex l)) = Some (Addr6 (be_val (words_bytes l)) z).
Proof.
  intros Hlen Hl. destruct l as [|x l]; [done|]. pose proof Hl as [Hx _]%Forall_cons.
  unfold v6_body. assert (leading_ellipsis (of_bytes (join_hex (x :: l))) = None) as ->.
  { destruct (join_hex_head x l Hx) as (c & r & -> & Hc). destruct r as [|c' r]; [done|]. cbn.
    by rewrite (proj2 (Ascii.eqb_neq c ":")). }
  rewrite v6_groups_join by (done || lia). unfold v6_finish. rewrite app_nil_l, length_words_bytes, Hlen. done.
Qed.

Lemma v6_body_run z pre k post :
  (length pre + k + length post = 8)%nat → (0 < k)%nat → Forall word16 pre → Forall word16 post →
  v6_body z (of_bytes (join_hex pre ++ ":"%char :: ":"%char :: join_hex post)) =
  Some (Addr6 (be_val (words_bytes (pre ++ replicate k 0 ++ post))) z).
Proof.
  intros Hlen Hk Hpre Hpost. unfold v6_body. destruct pre as [|x pre].
  - cbn [join_hex app]. assert (leading_ellipsis (of_bytes (":"%char :: ":"%char :: join_hex post)) =
                                Some (of_bytes (join_hex post))) as -> by done.
    destruct post as [|y post].
    + simpl in Hlen. replace k with 8%nat by lia. done.
    + pose proof Hpost as [Hy _]%Forall_cons. destruct (join_hex_head y post Hy) as (c & r & E & _).
      assert (is_empty (of_bytes (join_hex (y :: post))) = false) as -> by by rewrite E.
      rewrite v6_groups_join by (done || simpl in *; lia).
      apply (v6_finish_groups z [] k (y :: post)); simpl in *; lia.
  - assert (leading_ellipsis (of_bytes (join_hex (x :: pre) ++ ":"%char :: ":"%char :: join_hex post)) = None) as ->.
    { pose proof Hpre as [Hx _]%Forall_cons. destruct (join_hex_head x pre Hx) as (c & r & -> & Hc). cbn.
      by destruct (r ++ _); cbn; rewrite ?(proj2 (Ascii.eqb_neq c ":")). }
    rewrite v6_groups_join_ellipsis by (done || simpl in *; lia). cbv zeta. rewrite app_nil_l.
    destruct post as [|y post].
    + cbn [join_hex is_empty of_bytes String.string_of_list_ascii].
      rewrite <- (app_nil_r (words_bytes (x :: pre))) at 1.
      apply (v6_finish_groups z (x :: pre) k []); simpl in *; lia.
    + pose proof Hpost as [Hy _]%Forall_cons. destruct (join_hex_head y post Hy) as (c & r & E & _).
      assert (is_empty (of_bytes (join_hex (y :: post))) = false) as -> by by rewrite E.
      rewrite v6_groups_join by (done || simpl in *; lia).
      apply (v6_finish_groups z (x :: pre) k (y :: post)); simpl in *; lia.
Qed.

(** *** The groups of an address *)

Lemma length_v6_words n : length (v6_words n) = 8%nat.
Proof. done. Qed.

Lemma v6_words_ok n : Forall word16 (v6_words n).
Proof. apply Forall_forall. intros x (i & -> & _)%list_elem_of_fmap. apply Z.mod_pos_bound. lia. Qed.

Lemma v6_words_bytes n : words_bytes (v6_words n) = be_bytes 16 n.
Proof.
  unfold v6_words, words_bytes. cbn [seq map flat_map app be_bytes].
  assert (∀ m, m mod 65536 mod 256 = m mod 256) as H1.
  { intros m. change 65536 with (256 * 256). rewrite Z.rem_mul_r by lia.
    rewrite (Z.mul_comm 256), Z.mod_add by lia. apply Z.mod_mod. lia. }
  assert (∀ m, m mod 65536 / 256 = (m / 256) mod 256) as H2.
  { intros m. change 65536 with (256 * 256). rewrite Z.rem_mul_r by lia.
    rewrite (Z.mul_comm 256), Z.div_add, (Z.div_small (m mod 256)) by (try apply Z.mod_pos_bound; lia). lia. }
  rewrite !H1, !H2, !Z.div_div by lia. repeat f_equal.
Qed.

Lemma v6_words_val n : 0 <= n < 2 ^ 128 → be_val (words_bytes (v6_words n)) = n.
Proof. intros Hn. rewrite v6_words_bytes. by apply be_val_be_bytes. Qed.

Lemma zeros_split l : l = replicate (zeros l) 0 ++ drop (zeros l) l.
Proof. induction l as [|[] l IH]; [done| |done|done]. cbn. by f_equal. Qed.

Lemma zeros_length l : (zeros l <= length l)%nat.
Proof. induction l as [|[] l IH]; cbn; lia. Qed.

Definition run_ok (l : list Z) (r : nat * nat) : Prop :=
  r = (255, 255)%nat ∨
  ∃ i k, r = (i, (i + k)%nat) ∧ (2 <= k)%nat ∧ (i + k <= 8)%nat ∧ l = take i l ++ replicate k 0 ++ drop (i + k) l.

Lemma zero_run_ok l : length l = 8%nat → run_ok l (zero_run l).
Proof.
  intros Hlen. unfold zero_run. assert (Forall (λ i, (i < 8)%nat) (seq 0 8)) as Hs by (repeat constructor; lia).
  assert (run_ok l (255, 255)%nat) as Hb by by left. revert Hb Hs.
  generalize (255, 255)%nat as best, (seq 0 8) as js. intros best js. revert best.
  induction js as [|i js IH]; intros best Hb Hs; [done|]. apply Forall_cons in Hs as [Hi Hs]. cbn [foldl].
  apply IH; [|done]. cbv zeta. destruct (Nat.leb_spec 2 (zeros (drop i l))) as [H2|]; [|done].
  destruct (_ <? _)%nat; [|done]. cbn [andb]. right. exists i, (zeros (drop i l)).
  pose proof (zeros_length (drop i l)) as Hz. rewrite length_drop in Hz.
  split_and!; [done|done|lia|]. rewrite <- drop_drop, <- zeros_split. by rewrite take_drop.
Qed.

(** The printed form of either shape. *)
Lemma print_words_plain l :
  length l = 8%nat → print_words 8 0 (255, 255)%nat l = join_hex l.
Proof. intros Hlen. do 8 (destruct l as [|? l]; [done|]). destruct l; [|done]. cbn -[appendHex]. by rewrite app_nil_r. Qed.

Lemma print_words_run l i k :
  length l = 8%nat → (2 <= k)%nat → (i + k <= 8)%nat →
  print_words 8 0 (i, (i + k)%nat) l = join_hex (take i l) ++ ":"%char :: ":"%char :: join_hex (drop (i + k) l).
Proof.
  intros Hlen Hk Hik. do 8 (destruct l as [|? l]; [done|]). destruct l; [|done]. clear Hlen.
  do 7 (destruct i as [|i]; [do 9 (destruct k as [|k]; [try lia; cbn -[appendHex]; repeat (rewrite <- app_assoc; cbn [app]); by rewrite ?app_nil_r|]); lia|]).
  lia.
Qed.

(** *** The characters of a printed address *)

Definition v6_char (c : ascii) : bool :=
  match hex_digit c with Some _ => true | None => Ascii.eqb c ":" end.

Lemma v6_char_cases c : v6_char c = true → c = ":"%char ∨ (c ≠ "."%char ∧ c ≠ "%"%char ∧ c ≠ "/"%char ∧ c ≠ ":"%char).
Proof.
  intros Hc. destruct (Ascii.eqb_spec c ":"); [by left|right].
  split_and!; try done; intros ->; by vm_compute in Hc.
Qed.

Lemma appendHex_chars x : word16 x → Forall (λ c, v6_char c = true) (appendHex x).
Proof.
  intros [H0 Hx]. assert (∀ d, 0 <= d < 16 → v6_char (digit_char d) = true) as Hd
    by (intros d Hd; unfold v6_char; by rewrite digit_char_hex).
  assert (∀ k, 0 <= x / 2 ^ k mod 16 < 16) as Hm by (intros; apply Z.mod_pos_bound; lia).
  pose proof (Z.mod_pos_bound x 16 ltac:(lia)). pose proof (Hm 4). pose proof (Hm 8).
  assert (0 <= x / 2 ^ 12 < 16) by (split; [apply Z.div_pos; lia|apply Z.div_lt_upper_bound; lia]).
  unfold appendHex. rewrite !Forall_app. split_and!; try (destruct (_ <=? _)); by repeat constructor; auto.
Qed.

Lemma join_hex_chars l : Forall word16 l → Forall (λ c, v6_char c = true) (join_hex l).
Proof.
  induction 1 as [|x l Hx Hl IH]; [constructor|]. destruct l as [|y l]; [by apply appendHex_chars|].
  rewrite join_hex_cons. apply Forall_app. split; [by apply appendHex_chars|]. by constructor.
Qed.

Lemma addr_family_v6 l :
  Forall (λ c, v6_char c = true) l → ":"%char ∈ l → addr_family (of_bytes l) = Some true.
Proof.
  induction 1 as [|c l Hc Hl IH]; intros Hin; [by apply not_elem_of_nil in Hin|].
  destruct (v6_char_cases c Hc) as [->|(H1 & H2 & _ & H3)]; [done|]. cbn.
  rewrite !(proj2 (Ascii.eqb_neq _ _)) by done. apply IH.
  apply elem_of_cons in Hin as [<-|Hin]; [done|done].
Qed.

Lemma no_byte sep l : Forall (λ c, v6_char c = true) l → v6_char sep = false → CutByte sep (of_bytes l) = None.
Proof.
  intros Hl Hs. apply CutByte_None. rewrite bytes_of_bytes. rewrite Forall_forall in Hl.
  intros Hin. specialize (Hl sep Hin). congruence.
Qed.

(** The printed form of an address of sixteen bytes, as the groups around the
    run of zeros. *)
Lemma appendTo6_shape n :
  appendTo6 n = join_hex (v6_words n) ∨
  ∃ pre k post, appendTo6 n = join_hex pre ++ ":"%char :: ":"%char :: join_hex post ∧
    v6_words n = pre ++ replicate k 0 ++ post ∧ (0 < k)%nat.
Proof.
  unfold appendTo6. cbv zeta. pose proof (length_v6_words n) as Hlen.
  destruct (zero_run_ok _ Hlen) as [->|(i & k & -> & Hk & Hik & E)].
  - left. by apply print_words_plain.
  - right. exists (take i (v6_words n)), k, (drop (i + k) (v6_words n)).
    split; [by apply print_words_run|]. split; [done|lia].
Qed.

Lemma appendTo6_chars n : Forall (λ c, v6_char c = true) (appendTo6 n) ∧ ":"%char ∈ appendTo6 n.
Proof.
  pose proof (v6_words_ok n) as Hw. destruct (appendTo6_shape n) as [->|(pre & k & post & -> & E & Hk)].
  - split; [by apply join_hex_chars|]. unfold v6_words. cbn [seq map]. rewrite join_hex_cons.
    apply elem_of_app. right. by left.
  - rewrite E in Hw. apply Forall_app in Hw as [Hpre Hw]. apply Forall_app in Hw as [_ Hpost].
    split; [|apply elem_of_app; right; by left]. apply Forall_app. split; [by apply join_hex_chars|].
    constructor; [done|]. constructor; [done|]. by apply join_hex_chars.
Qed.

Lemma parse_appendTo6 n : 0 <= n < 2 ^ 128 → ParseAddr (of_bytes (appendTo6 n)) = Some (Addr6 n "").
Proof.
  intros Hn. destruct (appendTo6_chars n) as [Hc Hcol]. unfold ParseAddr, parseIPv6.
  rewrite addr_family_v6, no_byte by done. rewrite <- (v6_words_val n Hn) at 2.
  pose proof (v6_words_ok n) as Hw. pose proof (length_v6_words n) as Hlen.
  destruct (appendTo6_shape n) as [->|(pre & k & post & -> & E & Hk)]; [by apply v6_body_plain|].
  rewrite E in Hw, Hlen |- *. apply Forall_app in Hw as [Hpre Hw]. apply Forall_app in Hw as [_ Hpost].
  apply v6_body_run; [|done..]. rewrite !length_app, length_replicate in Hlen. lia.
Qed.

(** *** Four octets *)

Lemma parseIPv4Fields_digit d r val n f :
  0 <= d < 10 → n ≠ 1 ∨ val ≠ 0 → val * 10 + d <= 255 →
  parseIPv4Fields (of_bytes (digit_char d :: r)) val n f = parseIPv4Fields (of_bytes r) (val * 10 + d) (n + 1) f.
Proof.
  intros Hd Hz Hv. destruct (digit_char_dec d Hd) as [Hi Hb].
  cbn [of_bytes String.string_of_list_ascii parseIPv4Fields]. rewrite Hi, Hb.
  assert ((n =? 1) && (val =? 0) = false) as -> by (destruct (Z.eqb_spec n 1), (Z.eqb_spec val 0); naive_solver).
  replace (val * 10 + (48 + d - 48)) with (val * 10 + d) by lia. destruct (Z.ltb_spec 255 (val * 10 + d)); [lia|done].
Qed.

Lemma parseIPv4Fields_octet x r f :
  0 <= x < 256 →
  ∃ n, 0 < n ∧ parseIPv4Fields (of_bytes (appendDecimal x ++ r)) 0 0 f = parseIPv4Fields (of_bytes r) x n f.
Proof.
  intros Hx. unfold appendDecimal.
  pose proof (Z.mod_pos_bound x 10 ltac:(lia)). pose proof (Z.mod_pos_bound (x / 10) 10 ltac:(lia)).
  pose proof (Z.div_mod x 10 ltac:(lia)) as E0. pose proof (Z.div_mod (x / 10) 10 ltac:(lia)) as E1.
  rewrite Z.div_div in E1 by lia. change (10 * 10) with 100 in E1.
  assert (0 <= x / 100 < 10) by (split; [apply Z.div_pos; lia|apply Z.div_lt_upper_bound; lia]).
  destruct (Z.leb_spec 100 x), (Z.leb_spec 10 x); try lia; cbn [app];
    rewrite !parseIPv4Fields_digit by (lia || (left; lia) || (right; lia));
    (eexists; split; [|f_equal]; lia).
Qed.

Lemma parseIPv4Fields_dot x c r f :
  0 <= x < 256 → (length f < 3)%nat →
  parseIPv4Fields (of_bytes (appendDecimal x ++ "."%char :: c :: r)) 0 0 f =
  parseIPv4Fields (of_bytes (c :: r)) 0 0 (f ++ [x]).
Proof.
  intros Hx Hf. destruct (parseIPv4Fields_octet x ("."%char :: c :: r) f Hx) as (n & Hn & ->).
  cbn -[parseIPv4Fields]. cbn [parseIPv4Fields]. assert (is_digit "." = false) as -> by done. cbn [Ascii.eqb].
  destruct (Z.eqb_spec n 0); [lia|]. cbn [is_empty orb]. destruct (Nat.eqb_spec (length f) 3); [lia|done].
Qed.

Lemma appendDecimal_head x : ∃ c r, appendDecimal x = c :: r.
Proof. unfold appendDecimal. destruct (_ <=? x), (_ <=? x); cbn; eauto. Qed.

Lemma parse_print4 n : 0 <= n < 2 ^ 32 → parseIPv4Fields (of_bytes (print4 n)) 0 0 [] = Some (be_bytes 4 n).
Proof.
  intros Hn. unfold print4. pose proof (be_bytes_byte 4 n) as Hb. pose proof (length_be_bytes 4 n) as Hlen.
  destruct (be_bytes 4 n) as [|a [|b [|c [|d []]]]]; try done. clear Hlen. decompose_Forall_hyps.
  destruct (appendDecimal_head b) as (cb & rb & Eb), (appendDecimal_head c) as (cc & rc & Ec),
    (appendDecimal_head d) as (cd & rd & Ed).
  rewrite Eb. cbn [app]. rewrite parseIPv4Fields_dot by (done || simpl; lia). rewrite app_comm_cons, <- Eb.
  rewrite Ec. cbn [app]. rewrite parseIPv4Fields_dot by (done || simpl; lia). rewrite app_comm_cons, <- Ec.
  rewrite Ed. rewrite parseIPv4Fields_dot by (done || simpl; lia). rewrite <- Ed.
  destruct (parseIPv4Fields_octet d [] ([] ++ [a] ++ [b] ++ [c]) ltac:(done)) as (k & _ & E).
  rewrite app_nil_r in E. cbn [app] in E |- *. by rewrite E.
Qed.

Lemma appendDecimal_chars x : 0 <= x < 256 → Forall (λ c, is_digit c = true) (appendDecimal x).
Proof.
  intros Hx. assert (∀ d, 0 <= d < 10 → is_digit (digit_char d) = true) as Hd by (intros d Hd; by apply digit_char_dec).
  pose proof (Z.mod_pos_bound x 10 ltac:(lia)). pose proof (Z.mod_pos_bound (x / 10) 10 ltac:(lia)).
  assert (0 <= x / 100 < 10) by (split; [apply Z.div_pos; lia|apply Z.div_lt_upper_bound; lia]).
  unfold appendDecimal. rewrite !Forall_app. split_and!; try (destruct (_ <=? _)); by repeat constructor; auto.
Qed.

Lemma addr_family_v4 l r : Forall (λ c, is_digit c = true) l → addr_family (of_bytes (l ++ "."%char :: r)) = Some false.
Proof.
  induction 1 as [|c l Hc Hl IH]; [done|]. cbn.
  assert (c ≠ "."%char ∧ c ≠ ":"%char ∧ c ≠ "%"%char) as (? & ? & ?) by (split_and!; intros ->; by vm_compute in Hc).
  by rewrite !(proj2 (Ascii.eqb_neq _ _)) by done.
Qed.

Lemma parse_string4 n : 0 <= n < 2 ^ 32 → ParseAddr (of_bytes (print4 n)) = Some (Addr4 n).
Proof.
  intros Hn. unfold ParseAddr. rewrite parse_print4 by done.
  assert (addr_family (of_bytes (print4 n)) = Some false) as ->.
  { unfold print4. pose proof (be_bytes_byte 4 n) as Hb. pose proof (length_be_bytes 4 n) as Hlen.
    destruct (be_bytes 4 n) as [|a [|b [|c [|d []]]]]; try done. decompose_Forall_hyps.
    by apply addr_family_v4, appendDecimal_chars. }
  cbn [fmap option_fmap option_map]. do 2 f_equal. by apply be_val_be_bytes.
Qed.

(** ** Prefixes *)

Lemma CutLastByte_app sep a m :
  sep ∉ bytes m → CutLastByte sep (a +:+ String sep m) = Some (a, m).
Proof.
  intros Hm. assert (CutLastByte sep m = None) as E.
  { clear a. induction m as [|c m IH]; [done|]. simpl in Hm. apply not_elem_of_cons in Hm as [Hc Hm]. cbn.
    rewrite IH by done. by rewrite (proj2 (Ascii.eqb_neq c sep)). }
  induction a as [|c a IH].
  - change ("" +:+ String sep m) with (String sep m). cbn. by rewrite E, Ascii.eqb_refl.
  - change (String c a +:+ String sep m) with (String c (a +:+ String sep m)). cbn. by rewrite IH.
Qed.

Lemma Itoa_bits n :
  0 <= n <= 128 →
  Atoi (Itoa n) = Some n ∧ "/"%char ∉ bytes (Itoa n) ∧
  match Itoa n with String c (String _ _) => negb ((49 <=? byte_val c) && (byte_val c <=? 57)) | _ => false end = false.
Proof.
  intros Hn.
  assert (Forall (λ n, bool_decide (Atoi (Itoa n) = Some n) && bool_decide ("/"%char ∉ bytes (Itoa n)) &&
    negb match Itoa n with String c (String _ _) => negb ((49 <=? byte_val c) && (byte_val c <=? 57)) | _ => false end = true)
    (seqZ 0 129)) as H.
  { apply Forall_forall, Forall_forall. apply (bool_decide_eq_true_1 _). vm_compute. reflexivity. }
  rewrite Forall_forall in H. specialize (H n). rewrite elem_of_seqZ in H. specialize (H ltac:(lia)).
  by breflect.
Qed.

Lemma print4_chars n : Forall (λ c, is_digit c = true ∨ c = "."%char) (print4 n).
Proof.
  unfold print4. pose proof (be_bytes_byte 4 n) as Hb.
  assert (∀ x, 0 <= x < 256 → Forall (λ c, is_digit c = true ∨ c = "."%char) (appendDecimal x)) as H.
  { intros x Hx. eapply Forall_impl; [by apply appendDecimal_chars|]. by left. }
  destruct (be_bytes 4 n) as [|a [|b [|c [|d []]]]]; try by constructor. decompose_Forall_hyps.
  rewrite !Forall_app, !Forall_cons, !Forall_app, !Forall_cons, !Forall_app, !Forall_cons. auto 10.
Qed.

(** *** An IPv4 address in IPv6's clothes *)

Lemma hex_group_dot off acc r : hex_group off acc (of_bytes ("."%char :: r)) = Some (off, acc, of_bytes ("."%char :: r)).
Proof. done. Qed.

Lemma hex_group_octet x r :
  0 <= x < 256 →
  ∃ off acc, 0 < off ∧
    hex_group 0 0 (of_bytes (appendDecimal x ++ "."%char :: r)) = Some (off, acc, of_bytes ("."%char :: r)).
Proof.
  intros Hx. unfold appendDecimal.
  pose proof (Z.mod_pos_bound x 10 ltac:(lia)). pose proof (Z.mod_pos_bound (x / 10) 10 ltac:(lia)).
  assert (0 <= x / 100 < 10) by (split; [apply Z.div_pos; lia|apply Z.div_lt_upper_bound; lia]).
  destruct (Z.leb_spec 100 x), (Z.leb_spec 10 x); try lia; cbn [app];
    rewrite !hex_group_digit, hex_group_dot by lia; (do 2 eexists; split; [|done]); lia.
Qed.

Lemma v6_groups_print4 k n ip e :
  0 <= n < 2 ^ 32 → (length ip <= 12)%nat →
  v6_groups (S k) (of_bytes (print4 n)) ip (Some e) = Some (ip ++ be_bytes 4 n, Some e, EmptyString).
Proof.
  intros Hn Hip. pose proof (parse_print4 n Hn) as Hp. cbn [v6_groups]. unfold print4 in *.
  pose proof (be_bytes_byte 4 n) as Hb. pose proof (length_be_bytes 4 n) as Hlen.
  destruct (be_bytes 4 n) as [|a [|b [|c [|d []]]]]; try done. decompose_Forall_hyps.
  edestruct (hex_group_octet a) as (off & acc & Ho & ->); [done|]. destruct (Z.eqb_spec off 0); [lia|].
  cbn [of_bytes String.string_of_list_ascii]. rewrite Ascii.eqb_refl.
  rewrite (proj2 (Nat.ltb_ge 16 _)) by lia. by rewrite Hp.
Qed.

Lemma parse_4in6 n :
  0 <= n < 2 ^ 32 →
  ParseAddr (of_bytes (bytes "::ffff:" ++ print4 n)) = Some (Addr6 (0xFFFF * 2 ^ 32 + n) "").
Proof.
  intros Hn. unfold ParseAddr.
  assert (addr_family (of_bytes (bytes "::ffff:" ++ print4 n)) = Some true) as -> by done.
  assert ("%"%char ∉ bytes (of_bytes (bytes "::ffff:" ++ print4 n))) as Hpct%CutByte_None.
  { rewrite bytes_of_bytes, elem_of_app. pose proof (print4_chars n) as Hc. rewrite Forall_forall in Hc.
    intros [Hin|[Hd|?]%Hc]; [|by vm_compute in Hd|done].
    by repeat (apply elem_of_cons in Hin as [?|Hin]; [done|]); apply not_elem_of_nil in Hin. }
  unfold parseIPv6. rewrite Hpct. unfold v6_body.
  assert (leading_ellipsis (of_bytes (bytes "::ffff:" ++ print4 n)) =
          Some (of_bytes (appendHex 0xffff ++ ":"%char :: print4 n))) as -> by done.
  assert (∃ c r, print4 n = c :: r ∧ c ≠ ":"%char) as (c & r & E & Hc).
  { unfold print4. pose proof (be_bytes_byte 4 n) as Hb. pose proof (length_be_bytes 4 n) as Hlen.
    destruct (be_bytes 4 n) as [|a [|b [|c [|d []]]]]; try done. decompose_Forall_hyps.
    pose proof (appendDecimal_chars a ltac:(done)) as Ha. destruct (appendDecimal_head a) as (c' & r & E). rewrite E in *.
    apply Forall_cons in Ha as [Ha _]. cbn [app]. do 2 eexists. split; [done|]. intros ->. by vm_compute in Ha. }
  rewrite E.
  rewrite v6_groups_colon by done. rewrite <- E.
  rewrite v6_groups_print4 by (done || (simpl; lia)).
  assert (is_empty (of_bytes (appendHex 65535 ++ ":"%char :: print4 n)) = false) as -> by done.
  pose proof (be_val_be_bytes 4 n Hn) as Hv. pose proof (length_be_bytes 4 n) as Hlen.
  destruct (be_bytes 4 n) as [|b0 [|b1 [|b2 [|b3 []]]]]; try done. unfold be_val in Hv. cbn [foldl] in Hv.
  unfold v6_finish, be_val. cbn -[Z.mul Z.pow Z.add]. do 2 f_equal. rewrite <- Hv.
  change (65535 / 256) with 255. change (65535 mod 256) with 255. lia.
Qed.

(** What [Addr.String] prints of an address in range without a zone is read back. *)
Lemma ParseAddr_String a : addr_ok a → ParseAddr (Addr_String a) = Some a.
Proof.
  intros [Hr Hz]. destruct a as [n|n z]; cbn in Hr, Hz; unfold Addr_String.
  - by apply parse_string4.
  - subst z. cbn [is_empty]. rewrite app_nil_r. destruct (Is4In6 (Addr6 n "")) eqn:H46; [|by apply parse_appendTo6].
    rewrite parse_4in6 by (apply Z.mod_pos_bound; lia). do 2 f_equal.
    unfold Is4In6 in H46. apply Z.eqb_eq in H46. rewrite Z.shiftr_div_pow2 in H46 by lia.
    rewrite (Z.div_mod n (2 ^ 32)) at 2 by lia. lia.
Qed.

(** A printed prefix is read back. *)
Lemma ParsePrefix_String p :
  addr_ok (p_addr p) → IsValid p = true → ParsePrefix (Prefix_String p) = Some p.
Proof.
  intros Ha Hv. unfold Prefix_String. rewrite Hv. unfold ParsePrefix.
  unfold IsValid in Hv. breflect.
  assert (BitLen (p_addr p) <= 128) as Hb by by destruct (p_addr p).
  destruct (Itoa_bits (p_bits p) ltac:(lia)) as (Hat & Hs & Hl).
  change ("/" +:+ Itoa (p_bits p)) with (String "/" (Itoa (p_bits p))).
  rewrite (CutLastByte_app "/" (Addr_String (p_addr p)) (Itoa (p_bits p)) Hs), ParseAddr_String by done. destruct Ha as [_ ->]. cbn [is_empty negb orb].
  rewrite Hl, Hat. destruct (Z.ltb_spec (p_bits p) 0), (Z.ltb_spec (BitLen (p_addr p)) (p_bits p)); try lia.
  by destruct p.
Qed.

(** What is printed is read back.  The text [Prefix.String] gives a valid prefix
    of either family, zeros compressed as RFC 5952 asks and an IPv4-mapped address
    with its octets in decimal, is parsed by [ParsePrefix] to that prefix, host bits
    included. *)
Theorem ParsePrefix_inverts_String p :
  addr_ok (p_addr p) → IsValid p = true → ParsePrefix (Prefix_String p) = Some p.
Proof. apply ParsePrefix_String. Qed.

Lemma ParsePrefix_inverts_String_witness :
  let p := Prefix (Addr6 (0x2a00 * 2 ^ 112 + 0x10 * 2 ^ 48) "") 79 in
  Prefix_String p = "2a00::10:0:0:0/79" ∧ ParsePrefix (Prefix_String p) = Some p.
Proof.
  intros p. split; [vm_compute; reflexivity|].
  apply (ParsePrefix_inverts_String p); [|vm_compute; reflexivity..].
  split; [vm_compute; split; congruence|reflexivity].
Defined.
