(* ===== verification/Models.v ===== *)
(** * The data model shared by the two processes

    [src/internal/shared/models.go]: rules, the three-state rules document,
    firewall options and their limits, network settings and the applied
    configuration.  Records keep the source's field names; where two Go structs
    share one, the later one carries a prefix.  A Go [int] is a [Z]; a
    [time.Time] is an [option Z] of nanoseconds, [None] being the zero time. *)
From S2P Require Import Prelude GoStrings.

Local Open Scope Z_scope.

Abbreviation Time := (option Z).

(** ** Rules *)

Definition ScopeHost : string := "host".
Definition ScopeForwarded : string := "forwarded".
Definition ScopeBoth : string := "both".

Record PortRule := mkPortRule {
  ID : string;
  Port : string;
  Description : string;
  SSH : bool;
  Scope : string;
  Sources : list string;
  Service : string }.

Record ForwardingRule := mkForwardingRule {
  Protocol : string;
  SourcePort : Z;
  DestPort : Z }.

Record Rules := mkRules {
  TCP : list PortRule;
  UDP : list PortRule;
  Blocklist : list string;
  Allowlist : list string;
  Forwarding : list ForwardingRule;
  Custom : list string;
  Feeds : list string }.

Record RulesState := mkRulesState {
  Current : Rules;
  Staged : Rules;
  Backup : Rules }.

#[global] Instance PortRule_eq_dec : EqDecision PortRule.
Proof. solve_decision. Defined.
#[global] Instance ForwardingRule_eq_dec : EqDecision ForwardingRule.
Proof. solve_decision. Defined.
#[global] Instance Rules_eq_dec : EqDecision Rules.
Proof. solve_decision. Defined.
#[global] Instance RulesState_eq_dec : EqDecision RulesState.
Proof. solve_decision. Defined.

Definition emptyRules : Rules := mkRules [] [] [] [] [] [] [].

Definition set_ID (id : string) (r : PortRule) : PortRule :=
  mkPortRule id (Port r) (Description r) (SSH r) (Scope r) (Sources r) (Service r).
Definition set_ports (tcp udp : list PortRule) (r : Rules) : Rules :=
  mkRules tcp udp (Blocklist r) (Allowlist r) (Forwarding r) (Custom r) (Feeds r).

(** [Rules.IsEmpty] *)
Definition IsEmpty (r : Rules) : bool :=
  bool_decide (TCP r = []) && bool_decide (UDP r = []) &&
  bool_decide (Blocklist r = []) && bool_decide (Allowlist r = []) &&
  bool_decide (Forwarding r = []) && bool_decide (Custom r = []) &&
  bool_decide (Feeds r = []).

Lemma IsEmpty_spec r : IsEmpty r = true ↔ r = emptyRules.
Proof.
  split; [|by intros ->]. destruct r. unfold IsEmpty. simpl. intros H. breflect.
  by subst.
Qed.

(** [PortRule.FiltersHost], [PortRule.FiltersForwarded] *)
Definition FiltersHost (r : PortRule) : bool :=
  bool_decide (Scope r = "") || bool_decide (Scope r = ScopeHost) ||
  bool_decide (Scope r = ScopeBoth).
Definition FiltersForwarded (r : PortRule) : bool :=
  bool_decide (Scope r = ScopeForwarded) || bool_decide (Scope r = ScopeBoth).

(** ** Firewall options *)

Record FirewallOptions := mkFirewallOptions {
  SSHBruteForce : bool; SSHBruteForceLog : bool;
  SSHBruteForceConnectionLimit : Z; SSHBruteForceLogLimit : Z;
  ICMPAllowEchoRequest : bool;
  ICMPFlood : bool; ICMPFloodLog : bool;
  ICMPFloodConnectionLimit : Z; ICMPFloodLogLimit : Z;
  SYNFlood : bool; SYNFloodLog : bool; SYNFloodLimit : Z;
  PortScan : bool; PortScanLog : bool;
  InvalidPackets : bool; InvalidPacketsLog : bool;
  Fragments : bool; FragmentsLog : bool;
  Bogons : bool; BogonsLog : bool;
  ConnectionLimit : bool; ConnectionLimitMax : Z;
  TCPRSTFlood : bool; TCPRSTFloodLog : bool; TCPRSTFloodLimit : Z;
  DropBroadcast : bool; DropMulticast : bool; DropAnycast : bool;
  LogBlocked : bool; LogBlockedLimit : Z;
  LogBlocklist : bool; LogBlocklistLimit : Z;
  LogFeed : bool; LogFeedLimit : Z }.

#[global] Instance FirewallOptions_eq_dec : EqDecision FirewallOptions.
Proof. solve_decision. Defined.

(** [FirewallOptions.LogsAnything] *)
Definition LogsAnything (o : FirewallOptions) : bool :=
  SSHBruteForceLog o || ICMPFloodLog o || SYNFloodLog o || TCPRSTFloodLog o ||
  PortScanLog o || InvalidPacketsLog o || FragmentsLog o || BogonsLog o ||
  LogBlocklist o || LogFeed o || LogBlocked o.

(** The options with their ten numbers replaced: what assigning through a
    [FirewallLimit.Value] pointer leaves. *)
Definition set_limits (o : FirewallOptions) (l0 l1 l2 l3 l4 l5 l6 l7 l8 l9 : Z) : FirewallOptions :=
  mkFirewallOptions
    (SSHBruteForce o) (SSHBruteForceLog o) l0 l1 (ICMPAllowEchoRequest o) (ICMPFlood o)
    (ICMPFloodLog o) l2 l3 (SYNFlood o) (SYNFloodLog o) l4 (PortScan o) (PortScanLog o)
    (InvalidPackets o) (InvalidPacketsLog o) (Fragments o) (FragmentsLog o) (Bogons o)
    (BogonsLog o) (ConnectionLimit o) l5 (TCPRSTFlood o) (TCPRSTFloodLog o) l6
    (DropBroadcast o) (DropMulticast o) (DropAnycast o) (LogBlocked o) l7 (LogBlocklist o)
    l8 (LogFeed o) l9.
Definition set_SSHBruteForceConnectionLimit (v : Z) (o : FirewallOptions) : FirewallOptions :=
  set_limits o v (SSHBruteForceLogLimit o) (ICMPFloodConnectionLimit o)
    (ICMPFloodLogLimit o) (SYNFloodLimit o) (ConnectionLimitMax o) (TCPRSTFloodLimit o)
    (LogBlockedLimit o) (LogBlocklistLimit o) (LogFeedLimit o).
Definition set_SSHBruteForceLogLimit (v : Z) (o : FirewallOptions) : FirewallOptions :=
  set_limits o (SSHBruteForceConnectionLimit o) v (ICMPFloodConnectionLimit o)
    (ICMPFloodLogLimit o) (SYNFloodLimit o) (ConnectionLimitMax o) (TCPRSTFloodLimit o)
    (LogBlockedLimit o) (LogBlocklistLimit o) (LogFeedLimit o).
Definition set_ICMPFloodConnectionLimit (v : Z) (o : FirewallOptions) : FirewallOptions :=
  set_limits o (SSHBruteForceConnectionLimit o) (SSHBruteForceLogLimit o) v
    (ICMPFloodLogLimit o) (SYNFloodLimit o) (ConnectionLimitMax o) (TCPRSTFloodLimit o)
    (LogBlockedLimit o) (LogBlocklistLimit o) (LogFeedLimit o).
Definition set_ICMPFloodLogLimit (v : Z) (o : FirewallOptions) : FirewallOptions :=
  set_limits o (SSHBruteForceConnectionLimit o) (SSHBruteForceLogLimit o)
    (ICMPFloodConnectionLimit o) v (SYNFloodLimit o) (ConnectionLimitMax o)
    (TCPRSTFloodLimit o) (LogBlockedLimit o) (LogBlocklistLimit o) (LogFeedLimit o).
Definition set_SYNFloodLimit (v : Z) (o : FirewallOptions) : FirewallOptions :=
  set_limits o (SSHBruteForceConnectionLimit o) (SSHBruteForceLogLimit o)
    (ICMPFloodConnectionLimit o) (ICMPFloodLogLimit o) v (ConnectionLimitMax o)
    (TCPRSTFloodLimit o) (LogBlockedLimit o) (LogBlocklistLimit o) (LogFeedLimit o).
Definition set_ConnectionLimitMax (v : Z) (o : FirewallOptions) : FirewallOptions :=
  set_limits o (SSHBruteForceConnectionLimit o) (SSHBruteForceLogLimit o)
    (ICMPFloodConnectionLimit o) (ICMPFloodLogLimit o) (SYNFloodLimit o) v
    (TCPRSTFloodLimit o) (LogBlockedLimit o) (LogBlocklistLimit o) (LogFeedLimit o).
Definition set_TCPRSTFloodLimit (v : Z) (o : FirewallOptions) : FirewallOptions :=
  set_limits o (SSHBruteForceConnectionLimit o) (SSHBruteForceLogLimit o)
    (ICMPFloodConnectionLimit o) (ICMPFloodLogLimit o) (SYNFloodLimit o)
    (ConnectionLimitMax o) v (LogBlockedLimit o) (LogBlocklistLimit o) (LogFeedLimit o).
Definition set_LogBlockedLimit (v : Z) (o : FirewallOptions) : FirewallOptions :=
  set_limits o (SSHBruteForceConnectionLimit o) (SSHBruteForceLogLimit o)
    (ICMPFloodConnectionLimit o) (ICMPFloodLogLimit o) (SYNFloodLimit o)
    (ConnectionLimitMax o) (TCPRSTFloodLimit o) v (LogBlocklistLimit o) (LogFeedLimit o).
Definition set_LogBlocklistLimit (v : Z) (o : FirewallOptions) : FirewallOptions :=
  set_limits o (SSHBruteForceConnectionLimit o) (SSHBruteForceLogLimit o)
    (ICMPFloodConnectionLimit o) (ICMPFloodLogLimit o) (SYNFloodLimit o)
    (ConnectionLimitMax o) (TCPRSTFloodLimit o) (LogBlockedLimit o) v (LogFeedLimit o).
Definition set_LogFeedLimit (v : Z) (o : FirewallOptions) : FirewallOptions :=
  set_limits o (SSHBruteForceConnectionLimit o) (SSHBruteForceLogLimit o)
    (ICMPFloodConnectionLimit o) (ICMPFloodLogLimit o) (SYNFloodLimit o)
    (ConnectionLimitMax o) (TCPRSTFloodLimit o) (LogBlockedLimit o) (LogBlocklistLimit o)
    v.

(** [FirewallLimit]: a numeric option, its range, its default, its module's
    switch and its value, read and assigned. *)
Record FirewallLimit := mkFirewallLimit {
  Key : string; Min : Z; Max : Z; Default : Z;
  LimitEnabled : FirewallOptions → bool;
  Value : FirewallOptions → Z;
  SetValue : Z → FirewallOptions → FirewallOptions }.

(** [FirewallLimits] *)
Definition FirewallLimits : list FirewallLimit := [
  mkFirewallLimit "ssh_brute_force_connection_limit" 1 100 5
    SSHBruteForce SSHBruteForceConnectionLimit set_SSHBruteForceConnectionLimit;
  mkFirewallLimit "ssh_brute_force_log_limit" 1 10000 60
    SSHBruteForceLog SSHBruteForceLogLimit set_SSHBruteForceLogLimit;
  mkFirewallLimit "icmp_flood_connection_limit" 1 1000 10
    ICMPFlood ICMPFloodConnectionLimit set_ICMPFloodConnectionLimit;
  mkFirewallLimit "icmp_flood_log_limit" 1 10000 60
    ICMPFloodLog ICMPFloodLogLimit set_ICMPFloodLogLimit;
  mkFirewallLimit "syn_flood_limit" 1 10000 100 SYNFlood SYNFloodLimit set_SYNFloodLimit;
  mkFirewallLimit "tcp_rst_flood_limit" 1 10000 100 TCPRSTFlood TCPRSTFloodLimit set_TCPRSTFloodLimit;
  mkFirewallLimit "connection_limit_max" 1 100000 100 ConnectionLimit ConnectionLimitMax set_ConnectionLimitMax;
  mkFirewallLimit "log_blocked_connections_limit" 1 10000 60 LogBlocked LogBlockedLimit set_LogBlockedLimit;
  mkFirewallLimit "log_blocklist_connections_limit" 1 10000 60 LogBlocklist LogBlocklistLimit set_LogBlocklistLimit;
  mkFirewallLimit "log_feed_connections_limit" 1 10000 60 LogFeed LogFeedLimit set_LogFeedLimit ].

(** [FirewallLimit.InRange], [FirewallLimit.Clamp] *)
Definition InRange (l : FirewallLimit) (v : Z) : bool := (Min l <=? v) && (v <=? Max l).
Definition Clamp (l : FirewallLimit) (v : Z) : Z := Z.min (Z.max v (Min l)) (Max l).

(** ** Acceptance, IPv6, routing and Docker settings *)

Record AcceptanceConfig := mkAcceptanceConfig { Enabled : bool; Duration : Z }.

Definition AcceptanceDurationMin : Z := 10.
Definition AcceptanceDurationMax : Z := 3600.
Definition ValidAcceptanceDuration (d : Z) : bool :=
  (AcceptanceDurationMin <=? d) && (d <=? AcceptanceDurationMax).

Definition IPv6Filter : string := "filter".
Definition IPv6Passthrough : string := "passthrough".
Definition IPv6Block : string := "block".
Definition IPv6Mode_Valid (m : string) : bool :=
  bool_decide (m = IPv6Filter) || bool_decide (m = IPv6Passthrough) ||
  bool_decide (m = IPv6Block).

Record IPv6Config := mkIPv6Config {
  IPv6_Mode : string;
  IPv6_Enabled : bool;
  ICMPAllowRouterAdvertisement : bool;
  ICMPAllowNeighborAdvertisement : bool }.

Definition RoutingClosed : string := "closed".
Definition RoutingNetworks : string := "networks".
Definition RoutingOpen : string := "open".
Definition RoutingMode_Valid (m : string) : bool :=
  bool_decide (m = RoutingClosed) || bool_decide (m = RoutingNetworks) ||
  bool_decide (m = RoutingOpen).

Record RoutingConfig := mkRoutingConfig {
  Routing_Mode : string;
  Routing_Networks : list string }.

Definition PublishedPortsOpen : string := "open".
Definition PublishedPortsFiltered : string := "filtered".

Record DockerConfig := mkDockerConfig {
  Docker_Enabled : bool;
  AllowBridgeNetworks : bool;
  CustomNetworks : list string;
  PublishedPorts : string }.

Definition FiltersPublishedPorts (d : DockerConfig) : bool :=
  bool_decide (PublishedPorts d = PublishedPortsFiltered).

Record NetworkSettings := mkNetworkSettings {
  IPv6 : IPv6Config;
  Docker : DockerConfig;
  Routing : RoutingConfig }.

Record AppliedConfig := mkAppliedConfig {
  Applied_Firewall : FirewallOptions;
  Applied_Network : NetworkSettings }.

#[global] Instance IPv6Config_eq_dec : EqDecision IPv6Config.
Proof. solve_decision. Defined.
#[global] Instance RoutingConfig_eq_dec : EqDecision RoutingConfig.
Proof. solve_decision. Defined.
#[global] Instance DockerConfig_eq_dec : EqDecision DockerConfig.
Proof. solve_decision. Defined.
#[global] Instance NetworkSettings_eq_dec : EqDecision NetworkSettings.
Proof. solve_decision. Defined.
#[global] Instance AppliedConfig_eq_dec : EqDecision AppliedConfig.
Proof. solve_decision. Defined.

(** [AppliedConfigResult]: [None] is [Recorded = false]. *)
Abbreviation AppliedConfigResult := (option AppliedConfig).

(** ** Audit entries and the acceptance status *)

Record AuditLogEntry := mkAudit {
  Action : string; RuleType : string; Detail : string; User : string }.

#[global] Instance AuditLogEntry_eq_dec : EqDecision AuditLogEntry.
Proof. solve_decision. Defined.

Inductive AcceptanceStatus :=
| AcceptanceIdle | AcceptancePending | AcceptanceAccepted | AcceptanceRolledBack.

#[global] Instance AcceptanceStatus_eq_dec : EqDecision AcceptanceStatus.
Proof. solve_decision. Defined.

(** ** Limits *)

(** The widths of the nftables fields the limits reach: [limit rate], its
    burst, and [ct count] are 32 bits wide in the kernel. *)
Definition uint32_max : Z := 2 ^ 32 - 1.

Lemma Clamp_InRange l v : Min l <= Max l → InRange l (Clamp l v) = true.
Proof. unfold InRange, Clamp. intros. apply andb_true_iff; split; apply Z.leb_le; lia. Qed.

Lemma Clamp_id l v : InRange l v = true → Clamp l v = v.
Proof. unfold InRange, Clamp. intros. breflect. lia. Qed.

Lemma FirewallLimits_ranges l :
  l ∈ FirewallLimits → 1 <= Min l <= Max l ∧ Max l * 2 <= uint32_max ∧ InRange l (Default l) = true.
Proof.
  unfold FirewallLimits, uint32_max. rewrite !elem_of_cons, elem_of_nil.
  intros H; repeat destruct H as [H|H]; subst; simpl; try done; repeat split; try lia.
Qed.

(** The table's pointers reach ten different numbers and none of the switches. *)
Lemma FirewallLimits_lens l v o :
  l ∈ FirewallLimits →
  Value l (SetValue l v o) = v ∧ SetValue l (Value l o) o = o ∧
  ∀ l', l' ∈ FirewallLimits →
    LimitEnabled l' (SetValue l v o) = LimitEnabled l' o ∧
    (l' = l ∨ Value l' (SetValue l v o) = Value l' o).
Proof.
  unfold FirewallLimits. rewrite !elem_of_cons, elem_of_nil. intros H.
  repeat destruct H as [H|H]; try done; subst l;
    (split; [done|]; split; [by destruct o|]);
    intros l'; rewrite !elem_of_cons, elem_of_nil; intros H;
    repeat destruct H as [H|H]; try done; subst l'; auto.
Qed.
