(* ===== verification/RuleID.v ===== *)
(** * Rule identifiers

    [src/internal/shared/ruleid.go]: the shape of an id, how a fresh one is
    drawn, and [EnsureRuleIDs], which every write path runs.  The randomness of
    [crypto/rand] is an explicit list of six-byte draws; the function returns
    [None] when the list is too short for the loops of the source, and
    [EnsureRuleIDs_total] says how long it has to be. *)
From S2P Require Import Prelude GoStrings Models.

Local Open Scope Z_scope.

(** One [rand.Read] into a [[6]byte]. *)
Record Draw := mkDraw { d0 : ascii; d1 : ascii; d2 : ascii; d3 : ascii; d4 : ascii; d5 : ascii }.

(** [0-9a-f] *)
Definition lower_hex (c : ascii) : bool :=
  is_digit c || ((97 <=? byte_val c) && (byte_val c <=? 102)).

(** [ValidRuleID]: the regular expression [^[0-9a-f]{12}$]. *)
Definition ValidRuleID (id : string) : bool :=
  (String.length id =? 12)%nat && forallb lower_hex (bytes id).

(** [hex.EncodeToString] of one byte. *)
Definition hex_char (v : Z) : ascii :=
  mkbyte (Z.to_nat (if v <? 10 then 48 + v else 97 + (v - 10))).
Definition hex_byte (c : ascii) : list ascii :=
  [hex_char (byte_val c / 16); hex_char (byte_val c mod 16)].

Definition NewRuleID (d : Draw) : string :=
  of_bytes (hex_byte (d0 d) ++ hex_byte (d1 d) ++ hex_byte (d2 d) ++
            hex_byte (d3 d) ++ hex_byte (d4 d) ++ hex_byte (d5 d)).

(** [id = NewRuleID(); for seen[id] { id = NewRuleID() }] *)
Fixpoint fresh_id (seen : gset string) (draws : list Draw) : option (string * list Draw) :=
  match draws with
  | [] => None
  | d :: draws =>
      let id := NewRuleID d in
      if bool_decide (id ∈ seen) then fresh_id seen draws else Some (id, draws)
  end.

(** The inner loop over one list, threading [seen], [changed] and the draws. *)
Fixpoint ensure_list (l : list PortRule) (seen : gset string) (changed : bool)
    (draws : list Draw) : option (list PortRule * gset string * bool * list Draw) :=
  match l with
  | [] => Some ([], seen, changed, draws)
  | r :: l =>
      let id := ID r in
      if bool_decide (id = "") || negb (ValidRuleID id) || bool_decide (id ∈ seen) then
        match fresh_id seen draws with
        | None => None
        | Some (id', draws) =>
            match ensure_list l ({[id']} ∪ seen) true draws with
            | Some (l', seen, changed, draws) => Some (set_ID id' r :: l', seen, changed, draws)
            | None => None
            end
        end
      else
        match ensure_list l ({[id]} ∪ seen) changed draws with
        | Some (l', seen, changed, draws) => Some (r :: l', seen, changed, draws)
        | None => None
        end
  end.

(** [EnsureRuleIDs]: TCP first, then UDP, as one set. *)
Definition EnsureRuleIDs (r : Rules) (draws : list Draw) : option (Rules * bool * list Draw) :=
  match ensure_list (TCP r) ∅ false draws with
  | None => None
  | Some (tcp, seen, changed, draws) =>
      match ensure_list (UDP r) seen changed draws with
      | None => None
      | Some (udp, _, changed, draws) => Some (set_ports tcp udp r, changed, draws)
      end
  end.

(** ** Specification *)

Definition port_ids (r : Rules) : list string := map ID (TCP r ++ UDP r).

(** Every id is well formed and no two rules share one. *)
Definition ids_ok (r : Rules) : Prop :=
  Forall (λ id, ValidRuleID id = true) (port_ids r) ∧ NoDup (port_ids r).

Lemma hex_char_lower v : 0 <= v < 16 → lower_hex (hex_char v) = true.
Proof.
  intros Hv. assert (v ∈ [0;1;2;3;4;5;6;7;8;9;10;11;12;13;14;15]) as Hin.
  { rewrite !elem_of_cons. lia. }
  rewrite !elem_of_cons, elem_of_nil in Hin.
  by repeat destruct Hin as [->|Hin].
Qed.

Lemma byte_val_range c : 0 <= byte_val c < 256.
Proof. unfold byte_val. pose proof (N_ascii_bounded c). lia. Qed.

Lemma hex_byte_lower c : forallb lower_hex (hex_byte c) = true.
Proof.
  pose proof (byte_val_range c). simpl.
  rewrite !hex_char_lower; [done| |].
  - apply Z.mod_pos_bound; lia.
  - split; [apply Z.div_pos; lia|apply Z.div_lt_upper_bound; lia].
Qed.

Lemma length_of_bytes l : String.length (of_bytes l) = length l.
Proof. induction l; simpl; auto. Qed.

Lemma NewRuleID_valid d : ValidRuleID (NewRuleID d) = true.
Proof.
  unfold ValidRuleID, NewRuleID. rewrite length_of_bytes, bytes_of_bytes.
  rewrite !forallb_app, !hex_byte_lower. done.
Qed.

Lemma ValidRuleID_nonempty id : ValidRuleID id = true → id ≠ "".
Proof. by intros H ->. Qed.

Lemma fresh_id_spec seen draws id draws' :
  fresh_id seen draws = Some (id, draws') →
  id ∉ seen ∧ ValidRuleID id = true ∧
  ∃ pre d, draws = pre ++ d :: draws' ∧ NewRuleID d = id ∧
           Forall (λ d, NewRuleID d ∈ seen) pre.
Proof.
  induction draws as [|d draws IH]; simpl; [done|]. case_bool_decide as Hd.
  - intros (? & ? & pre & d' & -> & ? & ?)%IH. do 2 (split; [done|]).
    exists (d :: pre), d'. split; [done|]. split; [done|]. by constructor.
  - intros [= <- <-]. split; [done|]. split; [apply NewRuleID_valid|].
    exists [], d. done.
Qed.

(** What the loop over one list does: the rules keep everything but their id,
    and the ids it leaves are valid, distinct and outside what was seen. *)
Lemma ensure_list_spec l seen ch draws l' seen' ch' draws' :
  ensure_list l seen ch draws = Some (l', seen', ch', draws') →
  Forall (λ r, ValidRuleID (ID r) = true) l' ∧ NoDup (map ID l') ∧
  (∀ id, id ∈ map ID l' → id ∉ seen) ∧
  seen' = list_to_set (map ID l') ∪ seen ∧
  Forall2 (λ r r', r' = set_ID (ID r') r) l l'.
Proof.
  revert seen ch draws l' seen' ch' draws'.
  induction l as [|r l IH]; simpl; intros seen ch draws l' seen' ch' draws' H.
  { simplify_eq/=. split_and!; [constructor|constructor|set_solver|set_solver|constructor]. }
  destruct (_ || _ || _) eqn:Hc.
  - destruct (fresh_id seen draws) as [[id ds]|] eqn:Hf; [|done].
    destruct (ensure_list l _ _ ds) as [[[[l1 s1] c1] ds1]|] eqn:Hl; [|done].
    simplify_eq/=. apply fresh_id_spec in Hf as (Hseen & Hval & _).
    apply IH in Hl as (HF & HN & Hnot & -> & H2).
    split_and!; [by constructor| |set_solver|set_solver|by constructor].
    constructor; [|done]. intros Hin%Hnot. set_solver.
  - destruct (ensure_list l _ _ draws) as [[[[l1 s1] c1] ds1]|] eqn:Hl; [|done].
    simplify_eq/=. apply orb_false_iff in Hc as [Hc Hs]. breflect.
    apply IH in Hl as (HF & HN & Hnot & -> & H2).
    split_and!; [by constructor| |set_solver|set_solver|].
    + constructor; [|done]. intros Hin%Hnot. set_solver.
    + constructor; [by destruct r|done].
Qed.

(** A list whose ids are already valid, distinct and unseen is left alone. *)
Lemma ensure_list_id l seen ch draws :
  Forall (λ r, ValidRuleID (ID r) = true) l → NoDup (map ID l) →
  (∀ id, id ∈ map ID l → id ∉ seen) →
  ensure_list l seen ch draws = Some (l, list_to_set (map ID l) ∪ seen, ch, draws).
Proof.
  revert seen. induction l as [|r l IH]; simpl; intros seen HF HN Hs.
  { do 4 f_equal. set_solver. }
  apply Forall_cons in HF as [Hr HF]. apply NoDup_cons in HN as [Hn HN].
  rewrite Hr, (bool_decide_eq_false_2 (ID r = "")) by by apply ValidRuleID_nonempty.
  rewrite bool_decide_eq_false_2 by set_solver. simpl.
  rewrite IH; [|done|done|]; [by rewrite (assoc_L (∪)), (comm_L (∪) (list_to_set _) {[_]})|set_solver].
Qed.

(** [changed] is never cleared, and is set as soon as one id is replaced. *)
Lemma ensure_list_changed l seen ch draws l' seen' ch' draws' :
  ensure_list l seen ch draws = Some (l', seen', ch', draws') →
  (ch' = false → ch = false ∧ l' = l ∧ draws' = draws).
Proof.
  revert seen ch draws l' seen' ch' draws'.
  induction l as [|r l IH]; simpl; intros seen ch draws l' seen' ch' draws' H Hch.
  { by simplify_eq. }
  destruct (_ || _ || _) eqn:Hc.
  - destruct (fresh_id seen draws) as [[id ds]|]; [|done].
    destruct (ensure_list l _ _ ds) as [[[[l1 s1] c1] ds1]|] eqn:Hl; [|done].
    simplify_eq/=. by apply IH in Hl as [? _].
  - destruct (ensure_list l _ _ draws) as [[[[l1 s1] c1] ds1]|] eqn:Hl; [|done].
    simplify_eq/=. by apply IH in Hl as (-> & -> & ->).
Qed.

(** The number of draws that are still usable. *)
Definition usable (seen : gset string) (draws : list Draw) : nat :=
  length (filter (λ d, NewRuleID d ∉ seen) draws).

Lemma fresh_id_total seen draws :
  (1 ≤ usable seen draws)%nat → is_Some (fresh_id seen draws).
Proof.
  unfold usable. induction draws as [|d draws IH]; [simpl; lia|].
  rewrite filter_cons. simpl. case_decide; case_bool_decide; try done; eauto.
Qed.

Lemma usable_insert id seen draws :
  NoDup (map NewRuleID draws) → (usable seen draws ≤ S (usable ({[id]} ∪ seen) draws))%nat.
Proof.
  unfold usable. induction draws as [|d draws IH]; simpl; [lia|].
  rewrite NoDup_cons. intros [Hd HN]. rewrite !filter_cons.
  destruct (decide (NewRuleID d = id)) as [<-|Hne].
  - assert (filter (λ d0, NewRuleID d0 ∉ {[NewRuleID d]} ∪ seen) draws =
            filter (λ d0, NewRuleID d0 ∉ seen) draws) as Heq.
    { clear -Hd. induction draws as [|e draws IH]; [done|].
      simpl in Hd. rewrite not_elem_of_cons in Hd. destruct Hd as [? Hd].
      rewrite !filter_cons. specialize (IH Hd).
      repeat case_decide; first [done|by f_equal|exfalso; set_solver]. }
    rewrite Heq. repeat case_decide; simpl; lia.
  - repeat case_decide; simpl; specialize (IH HN); first [lia|exfalso; set_solver].
Qed.

Lemma usable_drop seen pre draws :
  Forall (λ d, NewRuleID d ∈ seen) pre → usable seen (pre ++ draws) = usable seen draws.
Proof.
  unfold usable. induction 1 as [|d pre Hd _ IH]; simpl; [done|].
  rewrite filter_cons. by case_decide.
Qed.

Lemma ensure_list_total l seen ch draws :
  NoDup (map NewRuleID draws) → (length l ≤ usable seen draws)%nat →
  ∃ l' seen' ch' draws', ensure_list l seen ch draws = Some (l', seen', ch', draws') ∧
    NoDup (map NewRuleID draws') ∧ (usable seen draws ≤ length l + usable seen' draws')%nat.
Proof.
  revert seen ch draws.
  induction l as [|r l IH]; simpl; intros seen ch draws HN Hu; [eauto 10|].
  destruct (_ || _ || _) eqn:Hc.
  - destruct (fresh_id_total seen draws) as [[id ds] Hf]; [lia|]. rewrite Hf.
    apply fresh_id_spec in Hf as (Hseen & _ & pre & d & -> & Hd & Hpre).
    rewrite usable_drop in Hu by done. rewrite usable_drop by done.
    rewrite map_app in HN. apply NoDup_app in HN as (_ & _ & HN).
    simpl in HN. pose proof HN as HN'. apply NoDup_cons in HN as [Hdn HN].
    pose proof (usable_insert id seen (d :: ds) HN') as Hi.
    assert (usable ({[id]} ∪ seen) (d :: ds) = usable ({[id]} ∪ seen) ds) as Hdrop.
    { apply (usable_drop _ [d]). constructor; [set_solver|done]. }
    destruct (IH ({[id]} ∪ seen) true ds) as (l' & s' & c' & ds' & -> & ? & ?); [done|lia|].
    do 4 eexists. split; [done|]. split; [done|]. lia.
  - pose proof (usable_insert (ID r) seen draws HN) as Hi.
    destruct (IH ({[ID r]} ∪ seen) ch draws) as (l' & s' & c' & ds' & -> & ? & ?); [done|lia|].
    do 4 eexists. split; [done|]. split; [done|]. lia.
Qed.

(** Only ids change. *)
Definition same_but_ids (r r' : Rules) : Prop :=
  Forall2 (λ p p', p' = set_ID (ID p') p) (TCP r) (TCP r') ∧
  Forall2 (λ p p', p' = set_ID (ID p') p) (UDP r) (UDP r') ∧
  r' = set_ports (TCP r') (UDP r') r.

Lemma EnsureRuleIDs_spec r draws r' ch draws' :
  EnsureRuleIDs r draws = Some (r', ch, draws') → ids_ok r' ∧ same_but_ids r r'.
Proof.
  unfold EnsureRuleIDs.
  destruct (ensure_list (TCP r) _ _ _) as [[[[tcp s1] c1] ds1]|] eqn:Ht; [|done].
  destruct (ensure_list (UDP r) _ _ _) as [[[[udp s2] c2] ds2]|] eqn:Hu; [|done].
  intros [= <- <- <-].
  apply ensure_list_spec in Ht as (HF1 & HN1 & _ & -> & H21).
  apply ensure_list_spec in Hu as (HF2 & HN2 & Hnot & _ & H22).
  split; [|done]. unfold ids_ok, port_ids. simpl. rewrite map_app. split.
  - by apply Forall_app; split; apply Forall_map.
  - apply NoDup_app. split_and!; [done| |done].
    intros id Hid Hin%Hnot. set_solver.
Qed.

Lemma EnsureRuleIDs_id r draws :
  ids_ok r → EnsureRuleIDs r draws = Some (r, false, draws).
Proof.
  intros [HF HN]. unfold port_ids in *. rewrite map_app in HF, HN.
  apply Forall_app in HF as [HF1%Forall_map HF2%Forall_map].
  apply NoDup_app in HN as (HN1 & Hd & HN2).
  unfold EnsureRuleIDs. rewrite ensure_list_id; [|done|done|set_solver].
  rewrite ensure_list_id; [by destruct r|done|done|].
  intros id Hid. specialize (Hd id). set_solver.
Qed.

Lemma EnsureRuleIDs_changed r draws r' draws' :
  EnsureRuleIDs r draws = Some (r', false, draws') → r' = r.
Proof.
  unfold EnsureRuleIDs.
  destruct (ensure_list (TCP r) _ _ _) as [[[[tcp s1] c1] ds1]|] eqn:Ht; [|done].
  destruct (ensure_list (UDP r) _ _ _) as [[[[udp s2] c2] ds2]|] eqn:Hu; [|done].
  intros [= <- -> <-].
  apply ensure_list_changed in Hu as (-> & -> & ->); [|done].
  apply ensure_list_changed in Ht as (_ & -> & _); [|done]. by destruct r.
Qed.

Lemma EnsureRuleIDs_total r draws :
  NoDup (map NewRuleID draws) → (length (TCP r) + length (UDP r) ≤ length draws)%nat →
  is_Some (EnsureRuleIDs r draws).
Proof.
  intros HN Hlen. unfold EnsureRuleIDs.
  assert (usable ∅ draws = length draws) as Hu.
  { unfold usable. clear. induction draws; [done|]. rewrite filter_cons.
    case_decide; [simpl; lia|set_solver]. }
  destruct (ensure_list_total (TCP r) ∅ false draws) as (l1 & s1 & c1 & ds1 & -> & HN1 & ?);
    [done|lia|].
  destruct (ensure_list_total (UDP r) s1 c1 ds1) as (l2 & s2 & c2 & ds2 & -> & _ & _);
    [done|lia|]. eauto.
Qed.
