(* ===== verification/FeedIDs.v ===== *)
(** * Feed identifiers

    [src/internal/shared/feeds.go] and [countries.go]: which feed ids exist,
    what they are called and in which order the rules check them.  Of a
    catalogue row only its id and its name are modelled here: the URLs, formats
    and intervals belong to the process that fetches. *)
From S2P Require Import Prelude GoStrings.

Local Open Scope Z_scope.

(** [CatalogueFeed], the id and the name. *)
Record CatalogueFeed := mkCatalogueFeed { CF_ID : string; CF_Name : string }.

Definition FeedCatalogue : list CatalogueFeed := [
  mkCatalogueFeed "spamhaus-drop" "Spamhaus DROP";
  mkCatalogueFeed "dshield" "DShield top block list";
  mkCatalogueFeed "blocklist-de-ssh" "blocklist.de (SSH)";
  mkCatalogueFeed "blocklist-de-imap" "blocklist.de (IMAP, POP3)";
  mkCatalogueFeed "cins" "CINS Army";
  mkCatalogueFeed "et-compromised" "Emerging Threats compromised";
  mkCatalogueFeed "blocklist-de" "blocklist.de (all)";
  mkCatalogueFeed "ipsum-3" "IPsum, on ≥ 3 lists";
  mkCatalogueFeed "hagezi-tif" "Hagezi threat intelligence IPs";
  mkCatalogueFeed "tor-exits" "Tor exit nodes" ].

Definition MaxOwnFeeds : nat := 3.
Definition MaxCountries : Z := 30.

Definition countryFeedPrefix : string := "country-".
Definition ownFeedPrefix : string := "own-".

Definition CountryCodes : list string := [
   "ad"; "ae"; "af"; "ag"; "ai"; "al"; "am"; "ao"; "aq"; "ar"; "as"; "at"; "au"; "aw"; "ax"; "az";
   "ba"; "bb"; "bd"; "be"; "bf"; "bg"; "bh"; "bi"; "bj"; "bl"; "bm"; "bn"; "bo"; "bq"; "br"; "bs";
   "bt"; "bw"; "by"; "bz"; "ca"; "cd"; "cf"; "cg"; "ch"; "ci"; "ck"; "cl"; "cm"; "cn"; "co"; "cr";
   "cu"; "cv"; "cw"; "cy"; "cz"; "de"; "dj"; "dk"; "dm"; "do"; "dz"; "ec"; "ee"; "eg"; "er"; "es";
   "et"; "fi"; "fj"; "fk"; "fm"; "fo"; "fr"; "ga"; "gb"; "gd"; "ge"; "gf"; "gg"; "gh"; "gi"; "gl";
   "gm"; "gn"; "gp"; "gq"; "gr"; "gt"; "gu"; "gw"; "gy"; "hk"; "hn"; "hr"; "ht"; "hu"; "id"; "ie";
   "il"; "im"; "in"; "io"; "iq"; "ir"; "is"; "it"; "je"; "jm"; "jo"; "jp"; "ke"; "kg"; "kh"; "ki";
   "km"; "kn"; "kp"; "kr"; "kw"; "ky"; "kz"; "la"; "lb"; "lc"; "li"; "lk"; "lr"; "ls"; "lt"; "lu";
   "lv"; "ly"; "ma"; "mc"; "md"; "me"; "mf"; "mg"; "mh"; "mk"; "ml"; "mm"; "mn"; "mo"; "mp"; "mq";
   "mr"; "ms"; "mt"; "mu"; "mv"; "mw"; "mx"; "my"; "mz"; "na"; "nc"; "ne"; "nf"; "ng"; "ni"; "nl";
   "no"; "np"; "nr"; "nu"; "nz"; "om"; "pa"; "pe"; "pf"; "pg"; "ph"; "pk"; "pl"; "pm"; "pr"; "ps";
   "pt"; "pw"; "py"; "qa"; "re"; "ro"; "rs"; "ru"; "rw"; "sa"; "sb"; "sc"; "sd"; "se"; "sg"; "si";
   "sk"; "sl"; "sm"; "sn"; "so"; "sr"; "ss"; "st"; "sv"; "sx"; "sy"; "sz"; "tc"; "td"; "tg"; "th";
   "tj"; "tk"; "tl"; "tm"; "tn"; "to"; "tr"; "tt"; "tv"; "tw"; "tz"; "ua"; "ug"; "us"; "uy"; "uz";
   "va"; "vc"; "ve"; "vg"; "vi"; "vn"; "vu"; "wf"; "ws"; "ye"; "yt"; "za"; "zm"; "zw" ].

Definition OwnFeedID (n : nat) : string := ownFeedPrefix +:+ Itoa (Z.of_nat n).

Definition IsOwnFeedID (id : string) : bool :=
  existsb (λ n, String.eqb id (OwnFeedID n)) (seq 1 MaxOwnFeeds).

Definition CountryFeedID (cc : string) : string := countryFeedPrefix +:+ cc.

(** [CountryCode]: the code when the id is "country-" and a listed code. *)
Definition CountryCode (id : string) : option string :=
  match CutPrefix id countryFeedPrefix with
  | Some cc => if existsb (String.eqb cc) CountryCodes then Some cc else None
  | None => None
  end.

Definition IsCountryFeedID (id : string) : bool :=
  match CountryCode id with Some _ => true | None => false end.

(** [strings.ToUpper] on ASCII. *)
Definition upper (c : ascii) : ascii :=
  if (97 <=? byte_val c) && (byte_val c <=? 122)
  then mkbyte (Z.to_nat (byte_val c - 32)) else c.
Definition ToUpper (s : string) : string := of_bytes (map upper (bytes s)).

Definition countryFeed (cc : string) : CatalogueFeed :=
  mkCatalogueFeed (CountryFeedID cc) (ToUpper cc).

Definition CatalogueFeedByID (id : string) : option CatalogueFeed :=
  match find (λ f, String.eqb (CF_ID f) id) FeedCatalogue with
  | Some f => Some f
  | None => countryFeed <$> CountryCode id
  end.

Definition KnownFeedID (id : string) : bool :=
  match CatalogueFeedByID id with Some _ => true | None => IsOwnFeedID id end.

Definition FeedDisplayName (id : string) : string :=
  match CatalogueFeedByID id with
  | Some f => CF_Name f
  | None =>
      if IsOwnFeedID id
      then "Own feed " +:+ default id (CutPrefix id ownFeedPrefix)
      else id
  end.

(** [FeedRuleOrder]: the lists first, then the countries, each in the order
    they were switched on. *)
Definition FeedRuleOrder (ids : list string) : list string :=
  filter (λ id, IsCountryFeedID id = false) ids ++
  filter (λ id, IsCountryFeedID id = true) ids.

(** ** Facts *)

Lemma FeedRuleOrder_Permutation ids : FeedRuleOrder ids ≡ₚ ids.
Proof.
  unfold FeedRuleOrder. induction ids as [|id ids IH]; [done|].
  rewrite !filter_cons. destruct (IsCountryFeedID id) eqn:E; simpl.
  - rewrite <- Permutation_middle. by f_equiv.
  - by f_equiv.
Qed.

Lemma CutPrefix_app p s : CutPrefix (p +:+ s) p = Some s.
Proof.
  unfold CutPrefix.
  assert (bytes (p +:+ s) = bytes p ++ bytes s) as ->.
  { induction p; simpl; [done|]. by f_equal. }
  rewrite (proj2 (starts_with_Some (bytes p) _ (bytes s))) by done.
  simpl. by rewrite of_bytes_bytes.
Qed.

Lemma country_known cc : cc ∈ CountryCodes → IsCountryFeedID (CountryFeedID cc) = true.
Proof.
  intros H. unfold IsCountryFeedID, CountryCode, CountryFeedID.
  rewrite CutPrefix_app. rewrite (proj2 (existsb_exists _ _)); [done|].
  exists cc. by rewrite <- list_elem_of_In, String.eqb_refl.
Qed.

(** No own feed and no catalogue feed is a country: the three id spaces are
    disjoint, so the country count counts countries. *)
Lemma own_not_country id : IsOwnFeedID id = true → IsCountryFeedID id = false.
Proof.
  unfold IsOwnFeedID, MaxOwnFeeds. simpl.
  rewrite !orb_true_iff, !String.eqb_eq.
  intros [->|[->|[->|?]]]; vm_compute; done.
Qed.

Lemma catalogue_not_country : Forall (λ f, IsCountryFeedID (CF_ID f) = false) FeedCatalogue.
Proof.
  apply Forall_forall. intros f Hf. apply negb_true_iff.
  assert (forallb (λ f, negb (IsCountryFeedID (CF_ID f))) FeedCatalogue = true) as H
    by by vm_compute.
  rewrite forallb_forall in H. by apply H, list_elem_of_In.
Qed.

Example feed_ex : (KnownFeedID "spamhaus-drop", KnownFeedID "country-de", KnownFeedID "own-3",
  KnownFeedID "own-4", KnownFeedID "own-01", KnownFeedID "country-DE", FeedDisplayName "own-2",
  FeedDisplayName "country-fr")
  = (true, true, true, false, false, false, "Own feed 2", "FR").
Proof. vm_compute. reflexivity. Qed.
