(* ===== verification/Validate.v ===== *)
(** * What a storable rule set is

    [src/internal/shared/validate.go]: [ValidateRules] and the checks it is made
    of, the list validators of the two configuration files, and [ParseNetwork].
    The errors of the source are the constructors of [ValidationError]; the
    abstract specification is [ValidRules]. *)
From S2P Require Import Prelude GoStrings GoNet Models RuleID FeedIDs.

Local Open Scope Z_scope.

Inductive ValidationError :=
| PortRequired
| NotAPortNumber (s : string)
| PortOutside (p : Z)
| RangeStart (e : ValidationError)
| RangeEnd (e : ValidationError)
| RangeInverted (lo hi : Z)
| UnknownScope (s : string)
| BadAddress (s : string)
| BadSource (s : string) (e : ValidationError)
| TCPRule (port : string) (e : ValidationError)
| UDPRule (port : string) (e : ValidationError)
| MalformedRuleID (id : string)
| DuplicateRuleID (id : string)
| BadBlocklist (ip : string) (e : ValidationError)
| BadAllowlist (ip : string) (e : ValidationError)
| UnknownFeed (id : string)
| DuplicateFeed (id : string)
| TooManyCountries (n : Z)
| CommandSeparator
| BadCustomRule (i : nat) (e : ValidationError)
| BadProtocol (p : string)
| BadSourcePort (p : Z)
| BadDestPort (p : Z)
| NotANetwork (what entry : string)
| BadListEntry (key entry : string) (e : ValidationError).

Abbreviation validation := (result ValidationError).

(** ** Ports, addresses, comments *)

Definition ParsePortNumber (s : string) : validation Z :=
  match Atoi s with
  | None => Err (NotAPortNumber s)
  | Some p => if (p <? 1) || (65535 <? p) then Err (PortOutside p) else Ok p
  end.

Definition IsListComment (entry : string) : bool :=
  let entry := TrimSpace entry in
  String.eqb entry "" || HasPrefix entry "#".

Definition ValidateIPOrCIDR (s : string) : validation unit :=
  match ParseIP s with
  | Some _ => Ok tt
  | None => match ParseCIDR s with Some _ => Ok tt | None => Err (BadAddress s) end
  end.

(** [validatePortRule] *)
Definition validatePortRule (r : PortRule) : validation unit :=
  check (negb (String.eqb (Port r) "")) PortRequired ;?
  (match CutByte ":"%char (Port r) with
   | Some (start, stop) =>
       let? lo := rmap_err RangeStart (ParsePortNumber start) in
       let? hi := rmap_err RangeEnd (ParsePortNumber stop) in
       check (lo <=? hi) (RangeInverted lo hi)
   | None => let? _ := ParsePortNumber (Port r) in Ok tt
   end) ;?
  check (String.eqb (Scope r) "" || String.eqb (Scope r) ScopeHost ||
         String.eqb (Scope r) ScopeForwarded || String.eqb (Scope r) ScopeBoth)
        (UnknownScope (Scope r)) ;?
  for_each (λ src,
    if IsListComment src then Ok tt
    else rmap_err (BadSource src) (ValidateIPOrCIDR (TrimSpace src))) (Sources r).

(** "\n\r;" *)
Definition customRuleSeparators : list ascii := [mkbyte 10; mkbyte 13; ";"%char].

Definition validateCustomRule (rule : string) : validation unit :=
  check (negb (contains_any customRuleSeparators rule)) CommandSeparator.

(** ** The loops of ValidateRules that carry state *)

(** The ids of the port rules: an empty one is skipped, a malformed one and a
    repeated one are refused. *)
Fixpoint checkRuleIDs (l : list PortRule) (seen : gset string) : validation unit :=
  match l with
  | [] => Ok tt
  | r :: l =>
      if String.eqb (ID r) "" then checkRuleIDs l seen
      else if negb (ValidRuleID (ID r)) then Err (MalformedRuleID (ID r))
      else if bool_decide (ID r ∈ seen) then Err (DuplicateRuleID (ID r))
      else checkRuleIDs l ({[ID r]} ∪ seen)
  end.

(** An address list: comments and blanks are skipped. *)
Definition checkAddresses (wrap : string → ValidationError → ValidationError)
    (l : list string) : validation unit :=
  for_each (λ ip, if IsListComment ip then Ok tt
                  else rmap_err (wrap ip) (ValidateIPOrCIDR ip)) l.

(** The feeds: known, each once; the result is the number of countries. *)
Fixpoint checkFeeds (l : list string) (seen : gset string) (countries : Z) : validation Z :=
  match l with
  | [] => Ok countries
  | id :: l =>
      if negb (KnownFeedID id) then Err (UnknownFeed id)
      else if bool_decide (id ∈ seen) then Err (DuplicateFeed id)
      else checkFeeds l ({[id]} ∪ seen)
             (if IsCountryFeedID id then countries + 1 else countries)
  end.

Fixpoint checkCustom (i : nat) (l : list string) : validation unit :=
  match l with
  | [] => Ok tt
  | rule :: l =>
      rmap_err (BadCustomRule (S i)) (validateCustomRule rule) ;? checkCustom (S i) l
  end.

Definition checkForwarding (fwd : ForwardingRule) : validation unit :=
  check (String.eqb (Protocol fwd) "tcp" || String.eqb (Protocol fwd) "udp")
        (BadProtocol (Protocol fwd)) ;?
  check (negb ((SourcePort fwd <? 1) || (65535 <? SourcePort fwd)))
        (BadSourcePort (SourcePort fwd)) ;?
  check (negb ((DestPort fwd <? 1) || (65535 <? DestPort fwd)))
        (BadDestPort (DestPort fwd)).

(** [ValidateRules] *)
Definition ValidateRules (r : Rules) : validation unit :=
  for_each (λ p, rmap_err (TCPRule (Port p)) (validatePortRule p)) (TCP r) ;?
  for_each (λ p, rmap_err (UDPRule (Port p)) (validatePortRule p)) (UDP r) ;?
  checkRuleIDs (TCP r ++ UDP r) ∅ ;?
  checkAddresses BadBlocklist (Blocklist r) ;?
  checkAddresses BadAllowlist (Allowlist r) ;?
  let? countries := checkFeeds (Feeds r) ∅ 0 in
  check (countries <=? MaxCountries) (TooManyCountries countries) ;?
  checkCustom 0 (Custom r) ;?
  for_each checkForwarding (Forwarding r).

(** ** The configuration's lists *)

(** [ValidateNetworkList] *)
Definition ValidateNetworkList (what : string) (entries : list string) : validation unit :=
  for_each (λ e, if IsListComment e then Ok tt
                 else match ParseCIDR (TrimSpace e) with
                      | Some _ => Ok tt
                      | None => Err (NotANetwork what e)
                      end) entries.

(** [ValidateAddressList] *)
Definition ValidateAddressList (key : string) (entries : list string) : validation unit :=
  for_each (λ e, if IsListComment e then Ok tt
                 else rmap_err (BadListEntry key e) (ValidateIPOrCIDR (TrimSpace e))) entries.

(** [ParseNetwork]: an IPv4-mapped network is the IPv4 network it names. *)
Definition ParseNetwork (s : string) : option prefix :=
  match ParseCIDR (TrimSpace s) with
  | None => None
  | Some n =>
      if Is4In6 (p_addr n) && (96 <=? p_bits n)
      then Some (Masked (Unmap (p_addr n)) (p_bits n - 96))
      else Some (Masked (p_addr n) (p_bits n))
  end.

(** ** Specification *)

(** The ports a rule's [Port] names: "80" or "8000:9000". *)
Definition port_interval (s : string) : option (Z * Z) :=
  match CutByte ":"%char s with
  | Some (a, b) =>
      match Atoi a, Atoi b with Some lo, Some hi => Some (lo, hi) | _, _ => None end
  | None => (λ p, (p, p)) <$> Atoi s
  end.

Definition address_ok (s : string) : Prop := is_Some (ParseIP s) ∨ is_Some (ParseCIDR s).

Definition valid_scope (s : string) : Prop :=
  s = "" ∨ s = ScopeHost ∨ s = ScopeForwarded ∨ s = ScopeBoth.

Record ValidPortRule (r : PortRule) : Prop := {
  vp_ports : ∃ lo hi, port_interval (Port r) = Some (lo, hi) ∧ 1 <= lo <= hi ∧ hi <= 65535;
  vp_scope : valid_scope (Scope r);
  vp_sources : Forall (λ s, IsListComment s = false → address_ok (TrimSpace s)) (Sources r) }.

Definition valid_forward (f : ForwardingRule) : Prop :=
  (Protocol f = "tcp" ∨ Protocol f = "udp") ∧
  1 <= SourcePort f <= 65535 ∧ 1 <= DestPort f <= 65535.

Definition nonempty_ids (l : list PortRule) : list string :=
  filter (λ id, id ≠ "") (map ID l).

Record ValidRules (r : Rules) : Prop := {
  vr_tcp : Forall ValidPortRule (TCP r);
  vr_udp : Forall ValidPortRule (UDP r);
  vr_ids : Forall (λ id, ValidRuleID id = true) (nonempty_ids (TCP r ++ UDP r));
  vr_ids_nodup : NoDup (nonempty_ids (TCP r ++ UDP r));
  vr_block : Forall (λ s, IsListComment s = false → address_ok s) (Blocklist r);
  vr_allow : Forall (λ s, IsListComment s = false → address_ok s) (Allowlist r);
  vr_feeds : Forall (λ id, KnownFeedID id = true) (Feeds r);
  vr_feeds_nodup : NoDup (Feeds r);
  vr_countries : Z.of_nat (length (filter (λ id, IsCountryFeedID id = true) (Feeds r))) <= MaxCountries;
  vr_custom : Forall (λ s, ∀ c, c ∈ customRuleSeparators → c ∉ bytes s) (Custom r);
  vr_forwarding : Forall valid_forward (Forwarding r) }.

(** ** Correctness of the pieces *)

(** [m ;? k] succeeds when both do. *)
Lemma then_Ok {E A} (m : result E unit) (k : result E A) a :
  rbind m (λ _, k) = Ok a ↔ m = Ok tt ∧ k = Ok a.
Proof.
  rewrite rbind_Ok. split; [by intros ([] & ? & ?)|intros [? ?]; by exists tt].
Qed.

Lemma ParsePortNumber_Ok s p :
  ParsePortNumber s = Ok p ↔ Atoi s = Some p ∧ 1 <= p <= 65535.
Proof.
  unfold ParsePortNumber. destruct (Atoi s) as [q|]; [|naive_solver].
  destruct ((q <? 1) || (65535 <? q)) eqn:E.
  - apply orb_true_iff in E. rewrite !Z.ltb_lt in E. naive_solver lia.
  - breflect. naive_solver lia.
Qed.

Lemma ValidateIPOrCIDR_Ok s : ValidateIPOrCIDR s = Ok tt ↔ address_ok s.
Proof.
  unfold ValidateIPOrCIDR, address_ok.
  destruct (ParseIP s), (ParseCIDR s); naive_solver.
Qed.

(** The skip-comments-then-check shape every address list has. *)
Lemma skip_comment_Ok {E} (b : bool) (m : result E unit) :
  (if b then Ok tt else m) = Ok tt ↔ (b = false → m = Ok tt).
Proof. destruct b; naive_solver. Qed.

Lemma Forall_comment_Ok (wrap : string → ValidationError → ValidationError)
    (f : string → string) (l : list string) :
  Forall (λ s, (if IsListComment s then Ok tt
                else rmap_err (wrap s) (ValidateIPOrCIDR (f s))) = Ok tt) l ↔
  Forall (λ s, IsListComment s = false → address_ok (f s)) l.
Proof.
  apply Forall_iff. intros s. rewrite skip_comment_Ok, rmap_err_Ok.
  by rewrite ValidateIPOrCIDR_Ok.
Qed.

Lemma checkAddresses_Ok wrap l :
  checkAddresses wrap l = Ok tt ↔ Forall (λ s, IsListComment s = false → address_ok s) l.
Proof. unfold checkAddresses. rewrite for_each_Ok. apply (Forall_comment_Ok wrap id). Qed.

(** The port part of [validatePortRule]. *)
Lemma port_check_Ok s :
  (match CutByte ":"%char s with
   | Some (start, stop) =>
       let? lo := rmap_err RangeStart (ParsePortNumber start) in
       let? hi := rmap_err RangeEnd (ParsePortNumber stop) in
       check (lo <=? hi) (RangeInverted lo hi)
   | None => let? _ := ParsePortNumber s in Ok tt
   end) = Ok tt ↔
  ∃ lo hi, port_interval s = Some (lo, hi) ∧ 1 <= lo <= hi ∧ hi <= 65535.
Proof.
  unfold port_interval. destruct (CutByte _ s) as [[a b]|].
  - rewrite rbind_Ok. setoid_rewrite rmap_err_Ok. setoid_rewrite rbind_Ok.
    setoid_rewrite rmap_err_Ok. setoid_rewrite check_Ok. setoid_rewrite Z.leb_le.
    setoid_rewrite ParsePortNumber_Ok.
    destruct (Atoi a), (Atoi b); naive_solver lia.
  - rewrite rbind_Ok. setoid_rewrite ParsePortNumber_Ok.
    destruct (Atoi s); naive_solver lia.
Qed.

Lemma scope_check s :
  String.eqb s "" || String.eqb s ScopeHost || String.eqb s ScopeForwarded ||
  String.eqb s ScopeBoth = true ↔ valid_scope s.
Proof. unfold valid_scope. rewrite !orb_true_iff, !String.eqb_eq. tauto. Qed.

Lemma port_interval_empty : port_interval "" = None.
Proof. done. Qed.

Lemma validatePortRule_Ok r : validatePortRule r = Ok tt ↔ ValidPortRule r.
Proof.
  unfold validatePortRule. rewrite rbind_Ok. setoid_rewrite check_Ok.
  setoid_rewrite rbind_Ok. setoid_rewrite rbind_Ok. setoid_rewrite check_Ok.
  setoid_rewrite for_each_Ok. setoid_rewrite scope_check.
  setoid_rewrite (Forall_comment_Ok BadSource TrimSpace).
  split.
  - intros ([] & _ & [] & Hp%port_check_Ok & [] & Hs & Hl). by split.
  - intros [Hp Hs Hl]. exists tt. split.
    { destruct (String.eqb_spec (Port r) "") as [He|]; [|done]. exfalso.
      rewrite He, port_interval_empty in Hp. naive_solver. }
    exists tt. split; [by apply port_check_Ok|]. by exists tt.
Qed.

Lemma checkRuleIDs_Ok l seen :
  checkRuleIDs l seen = Ok tt ↔
  Forall (λ id, ValidRuleID id = true) (nonempty_ids l) ∧ NoDup (nonempty_ids l) ∧
  (∀ id, id ∈ nonempty_ids l → id ∉ seen).
Proof.
  unfold nonempty_ids. revert seen. induction l as [|r l IH]; intros seen; simpl.
  { split; [|done]. intros _. split_and!; [constructor|constructor|set_solver]. }
  rewrite filter_cons. destruct (String.eqb_spec (ID r) "") as [He|Hne].
  { rewrite decide_False by auto. apply IH. }
  rewrite decide_True by done. rewrite Forall_cons, NoDup_cons.
  destruct (ValidRuleID (ID r)) eqn:Hv; simpl; [|naive_solver].
  case_bool_decide as Hs.
  { split; [done|]. intros (_ & _ & H). exfalso. by apply (H (ID r)); [left|]. }
  rewrite IH. split.
  - intros (HF & HN & Hnot). split_and!; [done|done| |done|].
    + intros Hin%Hnot. set_solver.
    + intros id [->|Hin]%elem_of_cons; [done|]. apply Hnot in Hin. set_solver.
  - intros ([_ HF] & [Hn HN] & Hnot). split_and!; [done|done|].
    intros id Hin. assert (id ∉ seen) by (apply Hnot; by right). set_solver.
Qed.

Lemma checkFeeds_Ok l seen c n :
  checkFeeds l seen c = Ok n ↔
  Forall (λ id, KnownFeedID id = true) l ∧ NoDup l ∧ (∀ id, id ∈ l → id ∉ seen) ∧
  n = c + Z.of_nat (length (filter (λ id, IsCountryFeedID id = true) l)).
Proof.
  revert seen c. induction l as [|id l IH]; intros seen c; simpl.
  { rewrite Z.add_0_r. split.
    - intros [= ->]. split_and!; [constructor|constructor|set_solver|done].
    - by intros (_ & _ & _ & ->). }
  rewrite Forall_cons, NoDup_cons, filter_cons.
  destruct (KnownFeedID id) eqn:Hk; simpl; [|naive_solver].
  case_bool_decide as Hs.
  { split; [done|]. intros (_ & _ & H & _). exfalso. by apply (H id); [left|]. }
  rewrite IH. assert (∀ k : Z, (if IsCountryFeedID id then c + 1 else c) + k =
    c + (if IsCountryFeedID id then 1 + k else k)) as Hc by (destruct (IsCountryFeedID id); lia).
  rewrite Hc.
  assert (Z.of_nat (length (if decide (IsCountryFeedID id = true)
     then id :: filter (λ id, IsCountryFeedID id = true) l
     else filter (λ id, IsCountryFeedID id = true) l)) =
     if IsCountryFeedID id then 1 + Z.of_nat (length (filter (λ id, IsCountryFeedID id = true) l))
     else Z.of_nat (length (filter (λ id, IsCountryFeedID id = true) l))) as ->.
  { destruct (IsCountryFeedID id); [rewrite decide_True by done|rewrite decide_False by done];
      simpl; lia. }
  split.
  - intros (HF & HN & Hnot & ->). split_and!; [done|done| |done| |done].
    + intros Hin%Hnot. set_solver.
    + intros id' [->|Hin]%elem_of_cons; [done|]. apply Hnot in Hin. set_solver.
  - intros ([_ HF] & [Hn HN] & Hnot & ->). split_and!; [done|done| |done].
    intros id' Hin. assert (id' ∉ seen) by (apply Hnot; by right). set_solver.
Qed.

Lemma checkCustom_Ok i l :
  checkCustom i l = Ok tt ↔ Forall (λ s, ∀ c, c ∈ customRuleSeparators → c ∉ bytes s) l.
Proof.
  revert i; induction l as [|s l IH]; intros i; simpl; [by split|].
  rewrite then_Ok, Forall_cons, rmap_err_Ok, IH. unfold validateCustomRule.
  by rewrite check_Ok, negb_true_iff, contains_any_false.
Qed.

Lemma checkForwarding_Ok f : checkForwarding f = Ok tt ↔ valid_forward f.
Proof.
  unfold checkForwarding, valid_forward. rewrite !then_Ok, !check_Ok.
  rewrite !orb_true_iff, !negb_true_iff, !orb_false_iff, !String.eqb_eq, !Z.ltb_ge.
  naive_solver lia.
Qed.

Lemma ports_check_Ok (wrap : string → ValidationError → ValidationError) l :
  for_each (λ p, rmap_err (wrap (Port p)) (validatePortRule p)) l = Ok tt ↔
  Forall ValidPortRule l.
Proof.
  rewrite for_each_Ok. apply Forall_iff. intros p.
  by rewrite rmap_err_Ok, validatePortRule_Ok.
Qed.

Lemma forwards_check_Ok l : for_each checkForwarding l = Ok tt ↔ Forall valid_forward l.
Proof. rewrite for_each_Ok. apply Forall_iff, checkForwarding_Ok. Qed.

(** [ValidateRules] decides the specification. *)
Lemma ValidateRules_spec r : ValidateRules r = Ok tt ↔ ValidRules r.
Proof.
  unfold ValidateRules.
  rewrite !then_Ok, !ports_check_Ok, checkRuleIDs_Ok, !checkAddresses_Ok, rbind_Ok.
  setoid_rewrite then_Ok. setoid_rewrite then_Ok. setoid_rewrite check_Ok.
  setoid_rewrite checkFeeds_Ok. setoid_rewrite Z.leb_le.
  setoid_rewrite forwards_check_Ok. setoid_rewrite checkCustom_Ok. split.
  - intros (? & ? & (? & ? & _) & ? & ? & n & (? & ? & _ & ->) & ? & ? & ?). by split.
  - intros []. do 2 (split; [done|]).
    split; [split_and!; [done|done|set_solver]|]. do 2 (split; [done|]).
    eexists. split; [split_and!; [done|done|set_solver|done]|done].
Qed.

(** ** Networks *)

(** The 128-bit spelling of an IPv4 address, [::ffff:a.b.c.d]. *)
Definition map4 (v : Z) : Z := 0xFFFF * 2 ^ 32 + v.

Lemma shiftr_map4 v k :
  0 <= k <= 32 → Z.shiftr (map4 v) k = 0xFFFF * 2 ^ (32 - k) + Z.shiftr v k.
Proof.
  intros Hk. unfold map4. rewrite !Z.shiftr_div_pow2 by lia.
  replace (2 ^ 32) with (2 ^ (32 - k) * 2 ^ k)
    by (rewrite <- Z.pow_add_r by lia; f_equal; lia).
  rewrite Z.mul_assoc, Z.div_add_l; [done|]. pose proof (Z.pow_pos_nonneg 2 k). lia.
Qed.

Lemma Is4In6_map4 n z : Is4In6 (Addr6 n z) = true → n = map4 (n mod 2 ^ 32).
Proof.
  unfold Is4In6. intros H. breflect. rewrite Z.shiftr_div_pow2 in H by lia.
  unfold map4. pose proof (Z.div_mod n (2 ^ 32)). lia.
Qed.

(** The shape of a parsed network. *)
Lemma ParseNetwork_cases s p :
  ParseNetwork s = Some p →
  ∃ n, ParseCIDR (TrimSpace s) = Some n ∧
    ((Is4In6 (p_addr n) = true ∧ 96 <= p_bits n ∧
      p = Masked (Unmap (p_addr n)) (p_bits n - 96)) ∨
     ((Is4In6 (p_addr n) = false ∨ p_bits n < 96) ∧ p = n)).
Proof.
  unfold ParseNetwork. destruct (ParseCIDR (TrimSpace s)) as [n|] eqn:Hn; [|done].
  apply ParseCIDR_spec in Hn as (_ & Hm & _).
  assert (Masked (p_addr n) (p_bits n) = n) as Hmn.
  { unfold Masked. rewrite <- Hm. by destruct n. }
  destruct (Is4In6 (p_addr n)) eqn:H4; simpl.
  - destruct (96 <=? p_bits n) eqn:H96; breflect; intros [= <-]; exists n; [by auto|].
    split; [done|]. right. rewrite Hmn. auto with lia.
  - intros [= <-]. exists n. rewrite Hmn. auto.
Qed.

(** A network entry reads as a canonical prefix: its length fits its family,
    its host bits are clear, and it is never an IPv4-mapped network left in its
    128-bit spelling.  [ParseNetwork] accepts exactly what the validator's CIDR
    parser accepts. *)
Theorem ParseNetwork_canonical s p :
  ParseNetwork s = Some p →
  is_Some (ParseCIDR (TrimSpace s)) ∧
  0 <= p_bits p <= BitLen (p_addr p) ∧
  p_addr p = mask_addr (p_addr p) (p_bits p) ∧
  (Is4In6 (p_addr p) = true → p_bits p < 96).
Proof.
  intros (n & Hn & [(H4 & Hb & ->)|(H4 & ->)])%ParseNetwork_cases.
  - apply ParseCIDR_spec in Hn as Hs. destruct Hs as (Hr & _ & _).
    split; [eauto|]. destruct (p_addr n) as [|v z] eqn:Ha; [done|].
    unfold Unmap. rewrite H4. unfold Masked. simpl in *. split; [lia|].
    split; [by rewrite mask_bits_idemp by lia|done].
  - apply ParseCIDR_spec in Hn as Hs. destruct Hs as (Hr & Hm & _).
    split; [eauto|]. split; [done|]. split; [done|]. destruct H4; [congruence|done].
Qed.

Lemma ParseNetwork_canonical_witness :
  ParseNetwork "::ffff:10.1.2.3/104" = Some (Prefix (Addr4 0x0a000000) 8) ∧
  0 <= 8 <= 32.
Proof.
  assert (ParseNetwork "::ffff:10.1.2.3/104" = Some (Prefix (Addr4 0x0a000000) 8)) as H
    by (vm_compute; reflexivity).
  split; [exact H|]. exact (proj1 (proj2 (ParseNetwork_canonical _ _ H))).
Defined.

(** Translating an IPv4-mapped network does not change what it covers: it
    holds an IPv4 address exactly when the network as written holds that
    address's mapped form. *)
Theorem ParseNetwork_mapped_same_addresses s n v :
  ParseCIDR (TrimSpace s) = Some n → Is4In6 (p_addr n) = true → 96 <= p_bits n →
  ∃ p, ParseNetwork s = Some p ∧
       Contains p (Addr4 v) = Contains n (Addr6 (map4 v) "").
Proof.
  intros Hn H4 Hb. unfold ParseNetwork. rewrite Hn, H4, (proj2 (Z.leb_le _ _) Hb). simpl.
  eexists. split; [done|]. apply ParseCIDR_spec in Hn as (Hr & _ & _).
  destruct n as [[|a z] b]; [done|]. simpl in *.
  pose proof (Is4In6_map4 _ _ H4) as Ha.
  unfold Contains, Unmap, Masked. rewrite H4. simpl.
  replace (32 - (b - 96)) with (128 - b) by lia.
  unfold mask_bits. replace (32 - (b - 96)) with (128 - b) by lia.
  rewrite Z.shiftr_shiftl_l, Z.sub_diag, Z.shiftl_0_r by lia.
  rewrite Ha at 2. rewrite !shiftr_map4 by lia.
  apply eq_iff_eq_true. rewrite !Z.eqb_eq. lia.
Qed.

Lemma ParseNetwork_mapped_same_addresses_witness :
  ∃ p, ParseNetwork "::ffff:10.0.0.0/104" = Some p ∧
       Contains p (Addr4 0x0a010203) =
       Contains (Prefix (Addr6 0xffff0a000000 "") 104) (Addr6 (map4 0x0a010203) "").
Proof.
  apply (ParseNetwork_mapped_same_addresses "::ffff:10.0.0.0/104"
           (Prefix (Addr6 0xffff0a000000 "") 104) 0x0a010203).
  - vm_compute. reflexivity.
  - vm_compute. reflexivity.
  - vm_compute. discriminate.
Defined.

(** C33: the one definition of a storable rule set: [ValidateRules] accepts a rule
    set exactly when every port rule names ports inside 1-65535 with an ordered
    range, a known scope and readable sources; the ids that are set are well
    formed and distinct; every list entry that is not a comment is an address or
    a network; the feeds are known, distinct and at most [MaxCountries] of them
    countries; no custom rule contains an nft command separator; and every
    redirect names a protocol and ports in range. *)
Theorem ValidateRules_decides r : ValidateRules r = Ok tt ↔ ValidRules r.
Proof. apply ValidateRules_spec. Qed.

(** What [EnsureRuleIDs] leaves is never refused for its ids: after it has
    run, the id checks of [ValidateRules] pass whatever the ids were before, so
    the check is only a backstop for a file edited by hand. *)
Theorem EnsureRuleIDs_passes_validation r draws r' ch draws' :
  EnsureRuleIDs r draws = Some (r', ch, draws') →
  checkRuleIDs (TCP r' ++ UDP r') ∅ = Ok tt ∧ ids_ok r' ∧ same_but_ids r r'.
Proof.
  intros (Hok & Hsame)%EnsureRuleIDs_spec. split; [|done]. destruct Hok as [HF HN].
  unfold port_ids in *. apply checkRuleIDs_Ok. unfold nonempty_ids. split_and!.
  - apply Forall_forall. intros id [_ Hin]%list_elem_of_filter.
    rewrite Forall_forall in HF. by apply HF.
  - by apply NoDup_filter.
  - set_solver.
Qed.

Definition draw_a : Draw := mkDraw (mkbyte 1) (mkbyte 2) (mkbyte 3) (mkbyte 4) (mkbyte 5) (mkbyte 6).
Definition draw_b : Draw := mkDraw (mkbyte 255) (mkbyte 2) (mkbyte 3) (mkbyte 4) (mkbyte 5) (mkbyte 6).
Definition port_rule (id p : string) : PortRule := mkPortRule id p "" false "" [] "".

Lemma EnsureRuleIDs_passes_validation_witness :
  ∃ r' ch draws',
    EnsureRuleIDs (mkRules [port_rule "" "22"; port_rule "010203040506" "80"] [] [] [] [] [] [])
                  [draw_a; draw_a; draw_b] = Some (r', ch, draws') ∧
    checkRuleIDs (TCP r' ++ UDP r') ∅ = Ok tt.
Proof.
  do 3 eexists. split; [vm_compute; reflexivity|].
  eapply (EnsureRuleIDs_passes_validation
    (mkRules [port_rule "" "22"; port_rule "010203040506" "80"] [] [] [] [] [] [])
    [draw_a; draw_a; draw_b]).
  vm_compute. reflexivity.
Defined.

(** [EnsureRuleIDs] terminates and is a repair, not a rewrite: given at
    least one distinct draw per port rule it returns, a rule set whose ids are
    already good comes back untouched and reported unchanged, and "unchanged"
    is never reported of a rule set that changed. *)
Theorem EnsureRuleIDs_repairs_once r draws :
  NoDup (map NewRuleID draws) → (length (TCP r) + length (UDP r) ≤ length draws)%nat →
  ∃ r' ch draws', EnsureRuleIDs r draws = Some (r', ch, draws') ∧
    (ids_ok r ↔ ch = false) ∧ (ch = false → r' = r) ∧
    ∀ draws2, EnsureRuleIDs r' draws2 = Some (r', false, draws2).
Proof.
  intros HN Hlen. destruct (EnsureRuleIDs_total r draws HN Hlen) as [[[r' ch] ds'] H].
  exists r', ch, ds'. split; [done|].
  assert (ch = false → r' = r) as Hch.
  { intros ->. by eapply EnsureRuleIDs_changed. }
  apply EnsureRuleIDs_spec in H as Hs. destruct Hs as [Hok _].
  split; [split|split; [done|]].
  - intros Hr. rewrite EnsureRuleIDs_id in H by done. congruence.
  - intros Hc. by rewrite <- (Hch Hc).
  - intros. by apply EnsureRuleIDs_id.
Qed.

Lemma EnsureRuleIDs_repairs_once_witness :
  ∃ r' ch draws',
    EnsureRuleIDs (mkRules [port_rule "not an id" "22"] [] [] [] [] [] []) [draw_a; draw_b]
    = Some (r', ch, draws') ∧
    (ids_ok (mkRules [port_rule "not an id" "22"] [] [] [] [] [] []) ↔ ch = false).
Proof.
  destruct (EnsureRuleIDs_repairs_once (mkRules [port_rule "not an id" "22"] [] [] [] [] [] [])
    [draw_a; draw_b]) as (r' & ch & ds' & H & Hc & _).
  - apply (bool_decide_unpack _). vm_compute. exact I.
  - vm_compute. lia.
  - exists r', ch, ds'. exact (conj H Hc).
Defined.
