(* ===== verification/Settings.v ===== *)
(** * The configuration of the core

    [src/internal/core/config.go]: the file [easywall.toml] as [LoadConfig] and
    [Validate] read it, the three saves of the settings pages, and [Reload] on
    SIGHUP; and the network page of the web process
    ([src/internal/web/handler_settings.go]), which is where a network save
    comes from.  A toml file is the value its decoding gives; whether a write
    of the file succeeds is an argument. *)
From S2P Require Import Prelude GoStrings GoNet Models Validate.

Local Open Scope Z_scope.

(** ** The configuration *)

Record PacketLogConfig := mkPacketLogConfig {
  PL_Group : option Z; PL_Entries : option Z; PL_Persist : bool }.

(** [CoreConfig]; [cc_interval] is [Usage.Interval]. *)
Record CoreConfig := mkCoreConfig {
  cc_firewall : FirewallOptions;
  cc_acceptance : AcceptanceConfig;
  cc_interval : option Z;
  cc_packetlog : PacketLogConfig;
  cc_ipv6 : IPv6Config;
  cc_docker : DockerConfig;
  cc_routing : RoutingConfig;
  cc_socket : string; cc_data : string; cc_log : string }.

Definition with_firewall o c := mkCoreConfig o (cc_acceptance c) (cc_interval c) (cc_packetlog c)
  (cc_ipv6 c) (cc_docker c) (cc_routing c) (cc_socket c) (cc_data c) (cc_log c).
Definition with_acceptance a c := mkCoreConfig (cc_firewall c) a (cc_interval c) (cc_packetlog c)
  (cc_ipv6 c) (cc_docker c) (cc_routing c) (cc_socket c) (cc_data c) (cc_log c).
Definition with_interval i c := mkCoreConfig (cc_firewall c) (cc_acceptance c) i (cc_packetlog c)
  (cc_ipv6 c) (cc_docker c) (cc_routing c) (cc_socket c) (cc_data c) (cc_log c).
Definition with_packetlog p c := mkCoreConfig (cc_firewall c) (cc_acceptance c) (cc_interval c) p
  (cc_ipv6 c) (cc_docker c) (cc_routing c) (cc_socket c) (cc_data c) (cc_log c).
Definition with_networks v d r c := mkCoreConfig (cc_firewall c) (cc_acceptance c) (cc_interval c)
  (cc_packetlog c) v d r (cc_socket c) (cc_data c) (cc_log c).
Definition with_paths s d l c := mkCoreConfig (cc_firewall c) (cc_acceptance c) (cc_interval c)
  (cc_packetlog c) (cc_ipv6 c) (cc_docker c) (cc_routing c) s d l.

Inductive CfgError :=
| ErrUnreadable | ErrUnparsable
| ErrSocketPath | ErrDataDir | ErrLogDir
| ErrGroup (g : Z)
| ErrIPv6Mode (m : string) | ErrRoutingMode (m : string)
| ErrNetworks (e : ValidationError)
| ErrPublishedPorts (v : string) | ErrFilteredWithoutDocker
| ErrLimit (key : string) (v : Z)
| ErrDuration (d : Z)
| ErrSave
| ErrPage.   (* the network page answered that a line is no network *)

Abbreviation cfg := (result CfgError).

(** ** [Validate] *)

Definition set_IPv6_Mode (m : string) (v : IPv6Config) : IPv6Config :=
  mkIPv6Config m (IPv6_Enabled v) (ICMPAllowRouterAdvertisement v)
    (ICMPAllowNeighborAdvertisement v).

(** [migrateIPv6Mode] *)
Definition migrateIPv6Mode (v : IPv6Config) : IPv6Config :=
  if String.eqb (IPv6_Mode v) "" then set_IPv6_Mode IPv6Filter v else v.

(** An absent routing mode means closed. *)
Definition default_routing (r : RoutingConfig) : RoutingConfig :=
  if String.eqb (Routing_Mode r) "" then mkRoutingConfig RoutingClosed (Routing_Networks r) else r.

(** [checkNetworkLists] *)
Definition checkNetworkLists (docker routing : list string) : cfg unit :=
  rmap_err ErrNetworks
    (ValidateNetworkList "docker custom network" docker ;?
     ValidateNetworkList "routing network" routing).

(** One turn of the loop over [FirewallLimits]. *)
Definition settle_limit (o : FirewallOptions) (l : FirewallLimit) : FirewallOptions :=
  let v := Value l o in
  if negb (LimitEnabled l o) || InRange l v then o
  else if v <=? 0 then SetValue l (Default l) o
  else SetValue l (Clamp l v) o.

Definition settle_acceptance (a : AcceptanceConfig) : AcceptanceConfig :=
  if ValidAcceptanceDuration (Duration a) then a
  else mkAcceptanceConfig (Enabled a)
         (Z.min (Z.max (Duration a) AcceptanceDurationMin) AcceptanceDurationMax).

Definition settle_interval (i : option Z) : option Z :=
  match i with Some v => if v <? 0 then Some 0 else Some v | None => None end.

Definition PacketLogEntriesMin : Z := 1000.
Definition PacketLogEntriesMax : Z := 200000.

Definition group_ok (g : option Z) : bool :=
  match g with Some v => (0 <=? v) && (v <=? 65535) | None => true end.

Definition settle_entries (p : PacketLogConfig) : PacketLogConfig :=
  match PL_Entries p with
  | Some e =>
      if (e <? PacketLogEntriesMin) || (PacketLogEntriesMax <? e)
      then mkPacketLogConfig (PL_Group p)
             (Some (Z.min (Z.max e PacketLogEntriesMin) PacketLogEntriesMax)) (PL_Persist p)
      else p
  | None => p
  end.

Definition known_published_ports (v : string) : bool :=
  String.eqb v "" || String.eqb v PublishedPortsOpen || String.eqb v PublishedPortsFiltered.

(** [Validate]: what it leaves of the configuration, or why it is refused. *)
Definition Config_Validate (c : CoreConfig) : cfg CoreConfig :=
  check (negb (String.eqb (cc_socket c) "")) ErrSocketPath ;?
  check (negb (String.eqb (cc_data c) "")) ErrDataDir ;?
  check (negb (String.eqb (cc_log c) "")) ErrLogDir ;?
  let c := with_acceptance (settle_acceptance (cc_acceptance c)) c in
  let c := with_interval (settle_interval (cc_interval c)) c in
  check (group_ok (PL_Group (cc_packetlog c)))
    (ErrGroup (default 0 (PL_Group (cc_packetlog c)))) ;?
  let c := with_packetlog (settle_entries (cc_packetlog c)) c in
  let c := with_firewall (foldl settle_limit (cc_firewall c) FirewallLimits) c in
  let v := migrateIPv6Mode (cc_ipv6 c) in
  check (IPv6Mode_Valid (IPv6_Mode v)) (ErrIPv6Mode (IPv6_Mode v)) ;?
  let r := default_routing (cc_routing c) in
  check (RoutingMode_Valid (Routing_Mode r)) (ErrRoutingMode (Routing_Mode r)) ;?
  let d := cc_docker c in
  checkNetworkLists (CustomNetworks d) (Routing_Networks r) ;?
  check (known_published_ports (PublishedPorts d)) (ErrPublishedPorts (PublishedPorts d)) ;?
  check (negb (FiltersPublishedPorts d && negb (Docker_Enabled d))) ErrFilteredWithoutDocker ;?
  Ok (with_networks v d r c).

(** ** [LoadConfig] *)

(** A file that decodes: the shipped defaults with the file's keys over them,
    which of the keys that matter it names, and the two keys from before 2.23. *)
Record TomlFile := mkTomlFile {
  tf_core : CoreConfig;
  tf_ipv6_enabled : bool; tf_ipv6_mode : bool;           (* the key is defined *)
  tf_old_log : option bool; tf_old_limit : option Z;     (* the old keys *)
  tf_new_log : bool; tf_new_limit : bool }.              (* the new key is defined *)

Inductive ConfigFile := CFMissing | CFGarbage | CFDoc (t : TomlFile).

(** The variables [CoreEnvVars] that are present and not empty. *)
Record Env := mkEnv { e_socket : option string; e_data : option string; e_log : option string }.

Definition default_socket : string := "/run/easywall/core.sock".
Definition default_data : string := "/var/lib/easywall".
Definition default_log : string := "/var/log/easywall".

(** [applyEnv] on one string: a value that is stored and is not the shipped
    default wins over the variable. *)
Definition env_string (def : string) (var : option string) (stored : string) : string :=
  match var with
  | Some raw =>
      if negb (String.eqb stored def) && negb (String.eqb stored "") then stored else raw
  | None => stored
  end.

(** [ApplyCoreEnv] *)
Definition ApplyCoreEnv (env : Env) (c : CoreConfig) : CoreConfig :=
  with_paths (env_string default_socket (e_socket env) (cc_socket c))
    (env_string default_data (e_data env) (cc_data c))
    (env_string default_log (e_log env) (cc_log c)) c.

Definition set_LogBlocklist (b : bool) (o : FirewallOptions) : FirewallOptions :=
  mkFirewallOptions (SSHBruteForce o) (SSHBruteForceLog o) (SSHBruteForceConnectionLimit o)
    (SSHBruteForceLogLimit o) (ICMPAllowEchoRequest o) (ICMPFlood o) (ICMPFloodLog o)
    (ICMPFloodConnectionLimit o) (ICMPFloodLogLimit o) (SYNFlood o) (SYNFloodLog o)
    (SYNFloodLimit o) (PortScan o) (PortScanLog o) (InvalidPackets o) (InvalidPacketsLog o)
    (Fragments o) (FragmentsLog o) (Bogons o) (BogonsLog o) (ConnectionLimit o)
    (ConnectionLimitMax o) (TCPRSTFlood o) (TCPRSTFloodLog o) (TCPRSTFloodLimit o)
    (DropBroadcast o) (DropMulticast o) (DropAnycast o) (LogBlocked o) (LogBlockedLimit o)
    b (LogBlocklistLimit o) (LogFeed o) (LogFeedLimit o).

(** [readOldLogKeys]: a new key that is defined wins over its old one. *)
Definition readOldLogKeys (t : TomlFile) (o : FirewallOptions) : FirewallOptions :=
  let o := match tf_old_log t with
           | Some v => if tf_new_log t then o else set_LogBlocklist v o
           | None => o
           end in
  match tf_old_limit t with
  | Some v => if tf_new_limit t then o else set_LogBlocklistLimit v o
  | None => o
  end.

(** [Config]: the embedded [CoreConfig] and the file as it was before the
    environment. *)
Record Config := mkConfig { core : CoreConfig; fileConfig : CoreConfig }.

(** [LoadConfig] *)
Definition LoadConfig (env : Env) (f : ConfigFile) : cfg Config :=
  match f with
  | CFMissing => Err ErrUnreadable
  | CFGarbage => Err ErrUnparsable
  | CFDoc t =>
      let c := tf_core t in
      let c := if tf_ipv6_enabled t && negb (tf_ipv6_mode t)
               then with_networks (set_IPv6_Mode "" (cc_ipv6 c)) (cc_docker c) (cc_routing c) c
               else c in
      let c := with_firewall (readOldLogKeys t (cc_firewall c)) c in
      Ok (mkConfig (ApplyCoreEnv env c) c)
  end.

(** What [main] does with the file: [LoadConfig], then [Validate] in place. *)
Definition start (env : Env) (f : ConfigFile) : cfg Config :=
  let? c := LoadConfig env f in
  let? v := Config_Validate (core c) in
  Ok (mkConfig v (fileConfig c)).

(** ** Saves *)

(** Decoding what the encoder wrote: it leaves nil pointers out, and the
    shipped file has a value for each of them. *)
Definition shipped_interval : Z := 300.
Definition shipped_group : Z := 12227.
Definition shipped_entries : Z := 20000.

Definition written (c : CoreConfig) : TomlFile :=
  let p := cc_packetlog c in
  mkTomlFile
    (with_interval (Some (default shipped_interval (cc_interval c)))
      (with_packetlog (mkPacketLogConfig (Some (default shipped_group (PL_Group p)))
         (Some (default shipped_entries (PL_Entries p))) (PL_Persist p)) c))
    true true None None true true.

(** [saveLocked] *)
Definition saveLocked (io : bool) (c : Config) (f : ConfigFile) : cfg unit * Config * ConfigFile :=
  let snapshot :=
    with_packetlog (cc_packetlog (fileConfig c))
      (with_paths (cc_socket (fileConfig c)) (cc_data (fileConfig c)) (cc_log (fileConfig c))
         (core c)) in
  if io then (Ok tt, c, CFDoc (written snapshot)) else (Err ErrSave, c, f).

Definition set_core (g : CoreConfig → CoreConfig) (c : Config) : Config :=
  mkConfig (g (core c)) (fileConfig c).

(** [SaveNetworkSettings] *)
Definition network_guards (s : NetworkSettings) : cfg (IPv6Config * RoutingConfig) :=
  let v := migrateIPv6Mode (IPv6 s) in
  check (IPv6Mode_Valid (IPv6_Mode v)) (ErrIPv6Mode (IPv6_Mode v)) ;?
  let r := default_routing (Routing s) in
  check (RoutingMode_Valid (Routing_Mode r)) (ErrRoutingMode (Routing_Mode r)) ;?
  checkNetworkLists (CustomNetworks (Docker s)) (Routing_Networks r) ;?
  Ok (v, r).

Definition SaveNetworkSettings (io : bool) (s : NetworkSettings) (c : Config) (f : ConfigFile)
    : cfg unit * Config * ConfigFile :=
  match network_guards s with
  | Err e => (Err e, c, f)
  | Ok (v, r) => saveLocked io (set_core (with_networks v (Docker s) r) c) f
  end.

(** [SaveFirewallOptions] *)
Definition options_guard (o : FirewallOptions) : cfg unit :=
  for_each (λ l, check (negb (LimitEnabled l o && negb (InRange l (Value l o))))
                   (ErrLimit (Key l) (Value l o))) FirewallLimits.

Definition SaveFirewallOptions (io : bool) (o : FirewallOptions) (c : Config) (f : ConfigFile)
    : cfg unit * Config * ConfigFile :=
  match options_guard o with
  | Err e => (Err e, c, f)
  | Ok _ => saveLocked io (set_core (with_firewall o) c) f
  end.

(** [SaveSystemSettings] *)
Definition SaveSystemSettings (io : bool) (a : AcceptanceConfig) (c : Config) (f : ConfigFile)
    : cfg unit * Config * ConfigFile :=
  if ValidAcceptanceDuration (Duration a)
  then saveLocked io (set_core (with_acceptance a) c) f
  else (Err (ErrDuration (Duration a)), c, f).

(** [Reload]: the sections that can change while the daemon runs; the paths and
    the packet log stay, but the file's view of the packet log is taken over. *)
Definition Reload (env : Env) (c : Config) (f : ConfigFile) : cfg unit * Config :=
  match LoadConfig env f with
  | Err e => (Err e, c)
  | Ok fresh =>
      match Config_Validate (core fresh) with
      | Err e => (Err e, c)
      | Ok v =>
          (Ok tt,
           mkConfig
             (mkCoreConfig (cc_firewall v) (cc_acceptance v) (cc_interval v)
                (cc_packetlog (core c)) (cc_ipv6 v) (cc_docker v) (cc_routing v)
                (cc_socket (core c)) (cc_data (core c)) (cc_log (core c)))
             (with_packetlog (cc_packetlog (fileConfig fresh)) (fileConfig c)))
      end
  end.

(** ** The network page *)

(** The lines [validateCIDRListEntries] rejects, counted from one. *)
Definition cidr_line_ok (line : string) : bool :=
  let entry := TrimSpace line in
  String.eqb entry "" || HasPrefix entry "#" ||
  match ParseCIDR entry with Some _ => true | None => false end.

Fixpoint bad_lines (i : nat) (lines : list string) : list nat :=
  match lines with
  | [] => []
  | l :: lines => (if cidr_line_ok l then [] else [i]) ++ bad_lines (S i) lines
  end.

Definition validateCIDRListEntries (raw : string) : list nat :=
  bad_lines 1 (SplitByte (mkbyte 10) raw).

(** [parseIPList]: trimmed lines, without the blank ones at the end. *)
Fixpoint drop_blank_end (l : list string) : list string :=
  match l with
  | [] => []
  | x :: l =>
      match drop_blank_end l with
      | [] => if String.eqb x "" then [] else [x]
      | r => x :: r
      end
  end.

Definition parseIPList (raw : string) : list string :=
  drop_blank_end (map TrimSpace (SplitByte (mkbyte 10) raw)).

(** The form of the network page. *)
Record SettingsForm := mkSettingsForm {
  fm_ipv6_mode : string;
  fm_router_advertisement : string;
  fm_neighbor_advertisement : string;
  fm_docker_enabled : string;
  fm_allow_bridge_networks : string;
  fm_custom_networks : string;
  fm_routing_mode : string;
  fm_routing_networks : string }.

Definition ipv6ModeFromForm (v : string) : string := if IPv6Mode_Valid v then v else IPv6Filter.
Definition routingModeFromForm (v : string) : string :=
  if RoutingMode_Valid v then v else RoutingClosed.

Definition ticked (v : string) : bool := negb (String.eqb v "").

(** [handleSettingsPOST] up to the call of the core: the settings it sends, or
    [None] when a list has a line it rejects. *)
Definition handleSettingsPOST (fm : SettingsForm) : option NetworkSettings :=
  match validateCIDRListEntries (fm_custom_networks fm),
        validateCIDRListEntries (fm_routing_networks fm) with
  | [], [] =>
      Some (mkNetworkSettings
        (mkIPv6Config (ipv6ModeFromForm (fm_ipv6_mode fm)) false
           (ticked (fm_router_advertisement fm)) (ticked (fm_neighbor_advertisement fm)))
        (mkDockerConfig (ticked (fm_docker_enabled fm)) (ticked (fm_allow_bridge_networks fm))
           (parseIPList (fm_custom_networks fm)) "")
        (mkRoutingConfig (routingModeFromForm (fm_routing_mode fm))
           (parseIPList (fm_routing_networks fm))))
  | _, _ => None
  end.

(** ** Specification *)

(** A configuration the daemon can run with. *)
Definition limits_ok (o : FirewallOptions) : Prop :=
  Forall (λ l, LimitEnabled l o = true → InRange l (Value l o) = true) FirewallLimits.

Definition networks_ok (d : DockerConfig) (r : RoutingConfig) : Prop :=
  checkNetworkLists (CustomNetworks d) (Routing_Networks r) = Ok tt.

Definition docker_ok (d : DockerConfig) : Prop :=
  known_published_ports (PublishedPorts d) = true ∧
  (FiltersPublishedPorts d = true → Docker_Enabled d = true).

Definition paths_ok (c : CoreConfig) : Prop :=
  cc_socket c ≠ "" ∧ cc_data c ≠ "" ∧ cc_log c ≠ "".

Record config_ok (c : CoreConfig) : Prop := {
  co_paths : paths_ok c;
  co_duration : ValidAcceptanceDuration (Duration (cc_acceptance c)) = true;
  co_interval : settle_interval (cc_interval c) = cc_interval c;
  co_group : group_ok (PL_Group (cc_packetlog c)) = true;
  co_entries : settle_entries (cc_packetlog c) = cc_packetlog c;
  co_limits : limits_ok (cc_firewall c);
  co_ipv6 : IPv6Mode_Valid (IPv6_Mode (cc_ipv6 c)) = true;
  co_routing : RoutingMode_Valid (Routing_Mode (cc_routing c)) = true;
  co_networks : networks_ok (cc_docker c) (cc_routing c);
  co_docker : docker_ok (cc_docker c) }.

(** A configuration the daemon can be started with: numbers do not matter. *)
Definition startable (c : CoreConfig) : Prop :=
  paths_ok c ∧ group_ok (PL_Group (cc_packetlog c)) = true ∧
  IPv6Mode_Valid (IPv6_Mode (migrateIPv6Mode (cc_ipv6 c))) = true ∧
  RoutingMode_Valid (Routing_Mode (default_routing (cc_routing c))) = true ∧
  networks_ok (cc_docker c) (cc_routing c) ∧ docker_ok (cc_docker c).

(** ** Lemmas *)

Lemma settle_limit_enabled o l l' :
  l ∈ FirewallLimits → l' ∈ FirewallLimits →
  LimitEnabled l' (settle_limit o l) = LimitEnabled l' o.
Proof.
  intros Hl Hl'. unfold settle_limit.
  destruct (negb _ || _); [done|]. by case_match; apply FirewallLimits_lens.
Qed.

Definition settled_at (o : FirewallOptions) (l : FirewallLimit) : Prop :=
  LimitEnabled l o = true → InRange l (Value l o) = true.

Lemma settle_limit_settles o l : l ∈ FirewallLimits → settled_at (settle_limit o l) l.
Proof.
  intros Hl. unfold settled_at. rewrite settle_limit_enabled by done. intros He.
  unfold settle_limit. rewrite He. simpl. destruct (InRange l (Value l o)) eqn:Hr; [done|].
  destruct (FirewallLimits_ranges l Hl) as (? & ? & ?).
  case_match; destruct (FirewallLimits_lens l (Default l) o Hl) as (E1 & _);
    [by rewrite E1|].
  destruct (FirewallLimits_lens l (Clamp l (Value l o)) o Hl) as (E2 & _).
  rewrite E2. apply Clamp_InRange. lia.
Qed.

Lemma FirewallLimits_Key l l' :
  l ∈ FirewallLimits → l' ∈ FirewallLimits → Key l' = Key l → l = l'.
Proof.
  assert (NoDup (map Key FirewallLimits)) as Hnd by (vm_compute; repeat constructor; set_solver).
  revert Hnd. generalize FirewallLimits as ls. induction ls as [|x ls IH]; simpl; [set_solver|].
  intros [Hx Hnd]%NoDup_cons. rewrite !elem_of_cons. intros [->|H1] [->|H2] HK; auto.
  - destruct Hx. rewrite <- HK. by apply list_elem_of_fmap_2.
  - destruct Hx. rewrite HK. by apply list_elem_of_fmap_2.
Qed.

Lemma settle_limit_keeps o l l' :
  l ∈ FirewallLimits → l' ∈ FirewallLimits → settled_at o l' → settled_at (settle_limit o l) l'.
Proof.
  intros Hl Hl' Hs. destruct (decide (Key l' = Key l)) as [Hk|Hk].
  - replace l' with l; [by apply settle_limit_settles|]. by apply FirewallLimits_Key.
  - unfold settled_at. rewrite settle_limit_enabled by done. intros He. specialize (Hs He).
    unfold settle_limit. destruct (negb _ || _); [done|].
    assert (∀ v, InRange l' (Value l' (SetValue l v o)) = true) as HI.
    { intros v. destruct (FirewallLimits_lens l v o Hl) as (_ & _ & Hx).
      destruct (Hx l' Hl') as (_ & [->| ->]); [by destruct Hk|done]. }
    by case_match.
Qed.

#[local] Typeclasses Opaque FirewallLimits.

Lemma settle_limits_ok o : limits_ok (foldl settle_limit o FirewallLimits).
Proof.
  assert (∀ ls o done, (∀ l, l ∈ ls → l ∈ FirewallLimits) →
    (∀ l, l ∈ done → l ∈ FirewallLimits ∧ settled_at o l) →
    ∀ l, l ∈ done ++ ls → settled_at (foldl settle_limit o ls) l) as G.
  { clear o. intros ls. induction ls as [|l ls IH]; intros o dn Hls Hd l'; simpl.
    - rewrite app_nil_r. intros Hin. by apply Hd.
    - intros Hin. apply (IH (settle_limit o l) (dn ++ [l])).
      + set_solver.
      + intros l2 [H2|H2%list_elem_of_singleton]%elem_of_app.
        * destruct (Hd l2 H2). split; [done|]. apply settle_limit_keeps; set_solver.
        * subst l2. split; [set_solver|]. apply settle_limit_settles. set_solver.
      + set_solver. }
  apply Forall_forall. intros l Hl. apply (G FirewallLimits o []); set_solver.
Qed.

Lemma settle_limits_id o : limits_ok o → foldl settle_limit o FirewallLimits = o.
Proof.
  unfold limits_ok. generalize FirewallLimits as ls. induction 1 as [|l ls Hl _ IH]; [done|].
  simpl. replace (settle_limit o l) with o; [done|]. unfold settle_limit.
  destruct (LimitEnabled l o); [|done]. by rewrite Hl.
Qed.

Lemma eqb_nonempty s : negb (String.eqb s "") = true ↔ s ≠ "".
Proof. by rewrite negb_true_iff, String.eqb_neq. Qed.

Lemma docker_check d :
  known_published_ports (PublishedPorts d) = true →
  negb (FiltersPublishedPorts d && negb (Docker_Enabled d)) = true ↔
  docker_ok d.
Proof.
  intros Hk. unfold docker_ok. rewrite Hk.
  destruct (FiltersPublishedPorts d), (Docker_Enabled d); simpl; naive_solver.
Qed.

#[local] Opaque FirewallLimits.

(** The configuration [Validate] leaves. *)
Definition validated (c : CoreConfig) : CoreConfig :=
  mkCoreConfig (foldl settle_limit (cc_firewall c) FirewallLimits)
    (settle_acceptance (cc_acceptance c)) (settle_interval (cc_interval c))
    (settle_entries (cc_packetlog c)) (migrateIPv6Mode (cc_ipv6 c)) (cc_docker c)
    (default_routing (cc_routing c)) (cc_socket c) (cc_data c) (cc_log c).

Lemma default_routing_networks r : Routing_Networks (default_routing r) = Routing_Networks r.
Proof. unfold default_routing. by case_match. Qed.

Lemma Config_Validate_Ok c c' : Config_Validate c = Ok c' ↔ startable c ∧ c' = validated c.
Proof.
  unfold Config_Validate, startable, paths_ok, networks_ok. cbv zeta.
  rewrite !then_Ok, !check_Ok, !eqb_nonempty. simpl. rewrite default_routing_networks.
  split.
  - intros (? & ? & ? & ? & ? & ? & ? & ? & ? & [= <-]). split; [|done].
    do 5 (split; [done|]). by apply docker_check.
  - intros (((? & ? & ?) & ? & ? & ? & ? & Hd) & ->). pose proof (proj1 Hd).
    do 8 (split; [done|]). split; [by apply docker_check|done].
Qed.

Lemma settle_interval_idemp i : settle_interval (settle_interval i) = settle_interval i.
Proof. destruct i as [v|]; simpl; [|done]. destruct (v <? 0) eqn:E; simpl; [done|by rewrite E]. Qed.

Lemma settle_entries_idemp p : settle_entries (settle_entries p) = settle_entries p.
Proof.
  unfold settle_entries, PacketLogEntriesMin, PacketLogEntriesMax.
  destruct (PL_Entries p) as [e|] eqn:E; [|by rewrite E].
  destruct (_ || _) eqn:R; [simpl|by rewrite E, R].
  replace (_ || _) with false; [done|]. symmetry. apply orb_false_iff. lia.
Qed.

Lemma settle_entries_group p : PL_Group (settle_entries p) = PL_Group p.
Proof. unfold settle_entries. by repeat case_match. Qed.

Lemma settle_acceptance_ok a : ValidAcceptanceDuration (Duration (settle_acceptance a)) = true.
Proof.
  unfold settle_acceptance. destruct (ValidAcceptanceDuration (Duration a)) eqn:E; [done|].
  unfold ValidAcceptanceDuration, AcceptanceDurationMin, AcceptanceDurationMax. simpl.
  apply andb_true_iff; split; lia.
Qed.

Lemma validated_ok c : startable c → config_ok (validated c).
Proof.
  intros (Hp & Hg & Hv & Hr & Hn & Hd). split; simpl; try done.
  - apply settle_acceptance_ok.
  - apply settle_interval_idemp.
  - by rewrite settle_entries_group.
  - apply settle_entries_idemp.
  - apply settle_limits_ok.
  - unfold networks_ok. by rewrite default_routing_networks.
Qed.

Lemma IPv6Mode_Valid_migrate v : IPv6Mode_Valid (IPv6_Mode v) = true → migrateIPv6Mode v = v.
Proof.
  unfold migrateIPv6Mode. destruct (String.eqb _ _) eqn:E; [|done].
  apply String.eqb_eq in E. by rewrite E.
Qed.

Lemma RoutingMode_Valid_default r :
  RoutingMode_Valid (Routing_Mode r) = true → default_routing r = r.
Proof.
  unfold default_routing. destruct (String.eqb _ _) eqn:E; [|done].
  apply String.eqb_eq in E. by rewrite E.
Qed.

Lemma config_ok_startable c : config_ok c → startable c ∧ validated c = c.
Proof.
  intros [Hp Hd Hi Hg He Hl Hv Hr Hn Hk]. split.
  - unfold startable. rewrite IPv6Mode_Valid_migrate, RoutingMode_Valid_default by done.
    by do 5 (split; [done|]).
  - unfold validated. rewrite settle_limits_id, Hi, He, IPv6Mode_Valid_migrate,
      RoutingMode_Valid_default by done.
    unfold settle_acceptance. rewrite Hd. by destruct c.
Qed.

(** What a configuration file can stop the daemon with.  [Validate] refuses a
    configuration exactly when a path is missing, the log group is no group, a
    mode is unknown, a network does not parse, or the published ports setting is
    unknown or has no Docker to filter for: never for a number out of range.
    What it leaves has every number in range, and a configuration that has
    nothing to correct is left as it is, so validating again changes nothing. *)
Theorem Config_Validate_decides c :
  ((∃ c', Config_Validate c = Ok c') ↔ startable c) ∧
  (∀ c', Config_Validate c = Ok c' → config_ok c' ∧ Config_Validate c' = Ok c') ∧
  (config_ok c → Config_Validate c = Ok c).
Proof.
  split; [|split].
  - split; [intros [c' H%Config_Validate_Ok]; tauto|].
    intros. exists (validated c). by apply Config_Validate_Ok.
  - intros c' [Hs ->]%Config_Validate_Ok. pose proof (validated_ok c Hs) as Hok.
    split; [done|]. apply Config_Validate_Ok.
    destruct (config_ok_startable _ Hok) as [? E]. by rewrite E.
  - intros Hok. apply Config_Validate_Ok. by destruct (config_ok_startable c Hok).
Qed.

(** ** The running configuration and the file *)

(** What happens to the configuration while the daemon runs. *)
Inductive cfg_op :=
| OpOptions (io : bool) (o : FirewallOptions)
| OpSystem (io : bool) (a : AcceptanceConfig)
| OpNetworkPage (io : bool) (fm : SettingsForm)
| OpReload
| OpEdit (f : ConfigFile).     (* somebody edits the file *)

Definition cfg_do (env : Env) (op : cfg_op) (c : Config) (f : ConfigFile)
    : cfg unit * Config * ConfigFile :=
  match op with
  | OpOptions io o => SaveFirewallOptions io o c f
  | OpSystem io a => SaveSystemSettings io a c f
  | OpNetworkPage io fm =>
      match handleSettingsPOST fm with
      | Some s => SaveNetworkSettings io s c f
      | None => (Err ErrPage, c, f)
      end
  | OpReload => (Reload env c f, f)
  | OpEdit f => (Ok tt, c, f)
  end.

Fixpoint cfg_run (env : Env) (ops : list cfg_op) (c : Config) (f : ConfigFile)
    : Config * ConfigFile :=
  match ops with
  | [] => (c, f)
  | op :: ops => let '(_, c, f) := cfg_do env op c f in cfg_run env ops c f
  end.

Definition saves (op : cfg_op) : bool :=
  match op with OpReload | OpEdit _ => false | _ => true end.

(** What every step keeps: the running configuration is one the daemon can run
    with, and the file's view has the paths the daemon was started with. *)
Record cfg_inv (env : Env) (c : Config) : Prop := {
  ci_ok : config_ok (core c);
  ci_group : group_ok (PL_Group (cc_packetlog (fileConfig c))) = true;
  ci_socket : env_string default_socket (e_socket env) (cc_socket (fileConfig c)) = cc_socket (core c);
  ci_data : env_string default_data (e_data env) (cc_data (fileConfig c)) = cc_data (core c);
  ci_log : env_string default_log (e_log env) (cc_log (fileConfig c)) = cc_log (core c) }.

Lemma page_list_agrees_from what i lines :
  bad_lines i lines = [] ↔ ValidateNetworkList what (drop_blank_end (map TrimSpace lines)) = Ok tt.
Proof.
  unfold ValidateNetworkList. rewrite for_each_Ok. revert i.
  assert (∀ l, cidr_line_ok l = true ↔
    (if IsListComment (TrimSpace l) then Ok tt
     else match ParseCIDR (TrimSpace (TrimSpace l)) with
          | Some _ => Ok tt | None => Err (NotANetwork what (TrimSpace l)) end) = Ok tt) as Hl.
  { intros l. unfold cidr_line_ok, IsListComment. rewrite TrimSpace_idemp. cbv zeta.
    destruct (String.eqb (TrimSpace l) ""); simpl; [done|].
    destruct (HasPrefix (TrimSpace l) "#"); simpl; [done|].
    destruct (ParseCIDR (TrimSpace l)); naive_solver. }
  induction lines as [|l lines IH]; intros i; simpl; [by split|].
  rewrite app_nil, (IH (S i)).
  assert ((if cidr_line_ok l then [] else [i]) = [] ↔ cidr_line_ok l = true) as ->.
  { by destruct (cidr_line_ok l). }
  rewrite Hl. destruct (drop_blank_end (map TrimSpace lines)) as [|y ys].
  - destruct (String.eqb (TrimSpace l) "") eqn:E.
    + apply String.eqb_eq in E. rewrite E. split; [constructor|]. by intros _.
    + rewrite Forall_cons. tauto.
  - rewrite (Forall_cons _ (TrimSpace l)). tauto.
Qed.

Lemma page_list_agrees what raw :
  validateCIDRListEntries raw = [] ↔ ValidateNetworkList what (parseIPList raw) = Ok tt.
Proof. apply page_list_agrees_from. Qed.

Lemma handleSettingsPOST_guards fm s :
  handleSettingsPOST fm = Some s →
  network_guards s = Ok (IPv6 s, Routing s) ∧ docker_ok (Docker s) ∧
  FiltersPublishedPorts (Docker s) = false ∧ networks_ok (Docker s) (Routing s) ∧
  IPv6Mode_Valid (IPv6_Mode (IPv6 s)) = true ∧ RoutingMode_Valid (Routing_Mode (Routing s)) = true.
Proof.
  unfold handleSettingsPOST. intros H.
  destruct (validateCIDRListEntries (fm_custom_networks fm)) eqn:E1; [|done].
  destruct (validateCIDRListEntries (fm_routing_networks fm)) eqn:E2; [|done].
  apply (page_list_agrees "docker custom network") in E1.
  apply (page_list_agrees "routing network") in E2. injection H as <-.
  assert (IPv6Mode_Valid (ipv6ModeFromForm (fm_ipv6_mode fm)) = true) as Hv.
  { unfold ipv6ModeFromForm. destruct (IPv6Mode_Valid (fm_ipv6_mode fm)) eqn:E; done. }
  assert (RoutingMode_Valid (routingModeFromForm (fm_routing_mode fm)) = true) as Hr.
  { unfold routingModeFromForm. destruct (RoutingMode_Valid (fm_routing_mode fm)) eqn:E; done. }
  assert (checkNetworkLists (parseIPList (fm_custom_networks fm))
            (parseIPList (fm_routing_networks fm)) = Ok tt) as Hn.
  { unfold checkNetworkLists. by rewrite E1; simpl; rewrite E2. }
  split; [|by repeat split]. unfold network_guards. simpl.
  rewrite IPv6Mode_Valid_migrate, RoutingMode_Valid_default by done. simpl.
  rewrite Hv, Hr. simpl. by rewrite Hn.
Qed.

Lemma saveLocked_inv io c f r c' f' :
  saveLocked io c f = (r, c', f') → c' = c ∧
  (r = Ok tt → f' = CFDoc (written
    (with_packetlog (cc_packetlog (fileConfig c))
      (with_paths (cc_socket (fileConfig c)) (cc_data (fileConfig c)) (cc_log (fileConfig c))
         (core c))))).
Proof. unfold saveLocked. destruct io; naive_solver. Qed.

Lemma options_guard_Ok o u : options_guard o = Ok u ↔ limits_ok o.
Proof.
  unfold options_guard, limits_ok. rewrite for_each_Ok. apply Forall_iff. intros l.
  rewrite check_Ok. destruct (LimitEnabled l o), (InRange l (Value l o)); naive_solver.
Qed.

Lemma set_core_inv env g c :
  cfg_inv env c → config_ok (g (core c)) →
  cc_socket (g (core c)) = cc_socket (core c) → cc_data (g (core c)) = cc_data (core c) →
  cc_log (g (core c)) = cc_log (core c) → cfg_inv env (set_core g c).
Proof. intros [] ? E1 E2 E3. split; simpl; congruence. Qed.

(** Each step keeps the invariant, and a save that succeeds has written the
    running configuration. *)
Lemma cfg_do_inv env op c f r c' f' :
  cfg_inv env c → cfg_do env op c f = (r, c', f') →
  cfg_inv env c' ∧ (saves op = true → r = Ok tt → f' = CFDoc (written
    (with_packetlog (cc_packetlog (fileConfig c'))
      (with_paths (cc_socket (fileConfig c')) (cc_data (fileConfig c')) (cc_log (fileConfig c'))
         (core c'))))).
Proof.
  intros Hi H. pose proof (ci_ok _ _ Hi) as Hok. destruct op as [io o|io a|io fm| |fl]; simpl in H.
  - unfold SaveFirewallOptions in H. destruct (options_guard o) as [u|] eqn:G; [|naive_solver].
    apply options_guard_Ok in G. apply saveLocked_inv in H as (-> & Hf).
    split; [|auto]. apply set_core_inv; [done| |done..]. by destruct Hok; split.
  - unfold SaveSystemSettings in H.
    destruct (ValidAcceptanceDuration (Duration a)) eqn:G; [|naive_solver].
    apply saveLocked_inv in H as (-> & Hf).
    split; [|auto]. apply set_core_inv; [done| |done..]. by destruct Hok; split.
  - destruct (handleSettingsPOST fm) as [s|] eqn:G; [|naive_solver].
    apply handleSettingsPOST_guards in G as (Hg & Hd & _ & Hn & Hv & Hr).
    unfold SaveNetworkSettings in H. rewrite Hg in H.
    apply saveLocked_inv in H as (-> & Hf).
    split; [|auto]. apply set_core_inv; [done| |done..]. by destruct Hok; split.
  - split; [|done]. unfold Reload in H. destruct (LoadConfig env f) as [fr|] eqn:L; [|naive_solver].
    destruct (Config_Validate (core fr)) as [v|] eqn:V; [|naive_solver].
    apply Config_Validate_Ok in V as [Hs ->]. pose proof (validated_ok _ Hs) as Hv.
    injection H as <- <- <-. assert (cc_packetlog (fileConfig fr) = cc_packetlog (core fr)) as E.
    { unfold LoadConfig in L. destruct f as [| |t]; [done..|]. by injection L as <-; case_match. }
    destruct Hi. split; simpl; try done; [|rewrite E; apply Hs].
    by destruct Hok, Hv; split.
  - naive_solver.
Qed.

Lemma cfg_run_inv env ops c f c' f' :
  cfg_inv env c → cfg_run env ops c f = (c', f') → cfg_inv env c'.
Proof.
  revert c f. induction ops as [|op ops IH]; simpl; intros c f Hi H; [naive_solver|].
  destruct (cfg_do env op c f) as [[r c1] f1] eqn:E.
  apply cfg_do_inv in E as [? _]; [|done]. by eapply IH.
Qed.

Lemma start_inv env f c : start env f = Ok c → cfg_inv env c.
Proof.
  unfold start. rewrite rbind_Ok. intros (l & L & H). rewrite rbind_Ok in H.
  destruct H as (v & [Hs ->]%Config_Validate_Ok & [= <-]).
  unfold LoadConfig in L. destruct f as [| |t]; simplify_eq/=.
  split; simpl; try done; [by apply validated_ok|]. apply Hs.
Qed.

(** The sections of the configuration an apply reads, and the paths. *)
Definition sections (c : CoreConfig) :=
  (cc_firewall c, cc_acceptance c, cc_ipv6 c, cc_docker c, cc_routing c,
   (cc_socket c, cc_data c, cc_log c)).

Lemma written_startable env c :
  cfg_inv env c →
  let snapshot := with_packetlog (cc_packetlog (fileConfig c))
    (with_paths (cc_socket (fileConfig c)) (cc_data (fileConfig c)) (cc_log (fileConfig c))
       (core c)) in
  ∃ c2, start env (CFDoc (written snapshot)) = Ok c2 ∧ sections (core c2) = sections (core c).
Proof.
  intros [Hok Hg E1 E2 E3] snapshot.
  set (x := ApplyCoreEnv env (with_firewall (cc_firewall (core c)) (tf_core (written snapshot)))).
  assert (startable x) as Hs.
  { destruct (proj1 (config_ok_startable _ Hok)) as ((? & ? & ?) & _ & ? & ? & ? & ?).
    unfold startable, paths_ok. simpl. rewrite E1, E2, E3.
    repeat (split; [done|]). split; [|by repeat (split; [done|])].
    by destruct (PL_Group (cc_packetlog (fileConfig c))). }
  set (y := with_firewall (cc_firewall (core c)) (tf_core (written snapshot))).
  assert (LoadConfig env (CFDoc (written snapshot)) = Ok (mkConfig x y)) as HL by done.
  exists (mkConfig (validated x) y). split.
  - unfold start. rewrite HL. cbn [rbind core].
    by rewrite (proj2 (Config_Validate_Ok x _) (conj Hs eq_refl)).
  - destruct (config_ok_startable _ Hok) as [_ Hv]. apply (f_equal sections) in Hv.
    rewrite <- Hv. unfold sections, validated. simpl. by rewrite E1, E2, E3.
Qed.



(** The page and the core agree on what a network is: the network page
    reports no line of a list exactly when the core accepts the list the page
    stores for it. *)
Theorem network_page_agrees_with_core what raw :
  validateCIDRListEntries raw = [] ↔ ValidateNetworkList what (parseIPList raw) = Ok tt.
Proof. apply page_list_agrees. Qed.

(** Saving the network page switches the filter of the published ports off.
    The form has no field for [published_ports], the page sends the settings
    without it, and the core stores what it is sent: every save the page accepts
    is accepted by the core and leaves [published_ports] empty, whatever it was. *)
Theorem network_page_clears_published_ports fm s c f :
  handleSettingsPOST fm = Some s →
  ∃ c' f', SaveNetworkSettings true s c f = (Ok tt, c', f') ∧
    PublishedPorts (cc_docker (core c')) = "" ∧
    FiltersPublishedPorts (cc_docker (core c')) = false.
Proof.
  intros H. pose proof (handleSettingsPOST_guards _ _ H) as (Hg & _ & Hp & _).
  unfold SaveNetworkSettings. rewrite Hg. unfold saveLocked.
  eexists _, _. split; [done|]. split; [|done].
  unfold handleSettingsPOST in H. by repeat case_match; simplify_eq/=.
Qed.

(** The shipped [easywall.toml]. *)
Definition shipped_config : CoreConfig :=
  mkCoreConfig
    (mkFirewallOptions true false 5 60 true true false 10 60 true false 100 true false true false
       false false false false false 100 false false 100 false false false false 60 false 60
       false 60)
    (mkAcceptanceConfig true 120) (Some 300) (mkPacketLogConfig (Some 12227) (Some 20000) false)
    (mkIPv6Config IPv6Filter false true true)
    (mkDockerConfig true true [] PublishedPortsOpen) (mkRoutingConfig RoutingClosed [])
    default_socket default_data default_log.

Definition no_env : Env := mkEnv None None None.
Definition shipped_file : ConfigFile := CFDoc (written shipped_config).
Definition shipped : Config := mkConfig shipped_config shipped_config.

(** The page of a host with Docker, two lists and a comment. *)
Definition form_docker : SettingsForm :=
  mkSettingsForm "filter" "on" "on" "on" "on"
    (of_bytes (bytes "# office" ++ [mkbyte 10] ++ bytes " 10.8.0.0/24 " ++ [mkbyte 10]))
    "networks" "192.168.0.0/16".

Definition filtered : Config :=
  set_core (λ c, with_networks (cc_ipv6 c) (mkDockerConfig true true [] PublishedPortsFiltered)
                   (cc_routing c) c) shipped.



Lemma network_page_clears_published_ports_witness :
  FiltersPublishedPorts (cc_docker (core filtered)) = true ∧
  ∃ s c' f', handleSettingsPOST form_docker = Some s ∧
    SaveNetworkSettings true s filtered shipped_file = (Ok tt, c', f') ∧
    FiltersPublishedPorts (cc_docker (core c')) = false.
Proof.
  split; [done|].
  destruct (handleSettingsPOST form_docker) as [s|] eqn:E; [|by vm_compute in E].
  destruct (network_page_clears_published_ports form_docker s filtered shipped_file E)
    as (c' & f' & H & _ & Hp). by exists s, c', f'.
Defined.

(** The core's own checks of a network save are not those of a start: a save
    over the socket that keeps [published_ports = "filtered"] and switches Docker
    off is accepted, reported as saved and written, and the daemon refuses to
    start from the file. *)
Theorem accepted_save_can_stop_the_next_start :
  let s := mkNetworkSettings (mkIPv6Config IPv6Filter false true true)
             (mkDockerConfig false true [] PublishedPortsFiltered)
             (mkRoutingConfig RoutingClosed []) in
  start no_env shipped_file = Ok shipped ∧
  ∃ c' f', SaveNetworkSettings true s shipped shipped_file = (Ok tt, c', f') ∧
    start no_env f' = Err ErrFilteredWithoutDocker.
Proof. split; [by vm_compute|]. eexists _, _. split; [by vm_compute|by vm_compute]. Qed.
