(* ===== verification/Reach.v ===== *)
(** * Whether an address can still reach a port

    [src/internal/shared/reach.go]: the answer the apply page gives before an
    operator locks himself out, and the address and port matching it shares with
    the packet log. *)
From S2P Require Import Prelude GoStrings GoNet Models FeedIDs Validate.

Local Open Scope Z_scope.

Inductive ReachVerdict := ReachOpen | ReachBlocked | ReachUnknown.

#[global] Instance ReachVerdict_eq_dec : EqDecision ReachVerdict.
Proof. solve_decision. Defined.

Inductive ReachReason :=
| ReasonNoAddress | ReasonProxied | ReasonLoopback | ReasonIPv6Passthrough | ReasonIPv6Blocked
| ReasonBogonFilter | ReasonDockerNetwork | ReasonDockerBridge | ReasonBlocklisted
| ReasonAllowlisted | ReasonInFeed | ReasonFeedsUnreadable | ReasonTrustedProxy
| ReasonPortOpen | ReasonPortSourceMismatch | ReasonCustomRules | ReasonNoRule.

(** [BogonRanges], [dockerPoolRanges] *)
Definition BogonRanges : list string := [
  "0.0.0.0/8"; "10.0.0.0/8"; "100.64.0.0/10"; "127.0.0.0/8"; "169.254.0.0/16";
  "172.16.0.0/12"; "192.0.2.0/24"; "192.168.0.0/16"; "198.51.100.0/24"; "203.0.113.0/24";
  "240.0.0.0/4"].

Definition dockerPoolRanges : list string := ["172.16.0.0/12"].

(** [InAnyEntry] *)
Definition entry_covers (src : addr) (entry : string) : bool :=
  if IsListComment entry then false
  else
    let e := TrimSpace entry in
    match ParseAddr e with
    | Some a => bool_decide (Unmap a = src)
    | None => match ParseNetwork e with Some p => Contains p src | None => false end
    end.

Definition InAnyEntry (src : addr) (entries : list string) : bool :=
  existsb (entry_covers src) entries.

(** [inAnyCIDR] *)
Definition cidr_covers (src : addr) (c : string) : bool :=
  if IsListComment c then false
  else match ParseNetwork c with Some p => Contains p src | None => false end.

Definition inAnyCIDR (src : addr) (cidrs : list string) : bool :=
  existsb (cidr_covers src) cidrs.

(** [PortInRule] *)
Definition PortInRule (spec : string) (port : Z) : bool :=
  let spec := TrimSpace spec in
  match CutByte ":"%char spec with
  | None =>
      match ParseUint 16 (TrimSpace spec) with Some lo => lo =? port | None => false end
  | Some (low, high) =>
      match ParseUint 16 (TrimSpace low) with
      | None => false
      | Some lo =>
          match ParseUint 16 (TrimSpace high) with
          | None => false
          | Some hi => (lo <=? port) && (port <=? hi)
          end
      end
  end.

(** The loop over the TCP rules: [Some true] when one opens the port,
    [Some false] when one restricted it away. *)
Fixpoint port_step (src : addr) (port : Z) (rules : list PortRule) (restricted : bool)
    : bool * bool :=
  match rules with
  | [] => (false, restricted)
  | rule :: rules =>
      if negb (PortInRule (Port rule) port) then port_step src port rules restricted
      else if negb (FiltersHost rule) then port_step src port rules restricted
      else if bool_decide (Sources rule = []) then (true, restricted)
      else if InAnyEntry src (Sources rule) then (true, true)
      else port_step src port rules true
  end.

(** A custom rule that is not a comment. *)
Definition has_custom (r : Rules) : bool := existsb (λ l, negb (IsListComment l)) (Custom r).

(** [Reachable] *)
Definition Reachable (r : Rules) (o : FirewallOptions) (n : NetworkSettings)
    (src : option addr) (port : Z) (proxied local : bool) (feedHits : list string)
    : ReachVerdict * ReachReason :=
  if proxied then (ReachUnknown, ReasonProxied) else
  match (λ a, WithoutZone (Unmap a)) <$> src with
  | None => (ReachUnknown, ReasonNoAddress)
  | Some src =>
      let dockerNets := if Docker_Enabled (Docker n) then CustomNetworks (Docker n) else [] in
      if local || IsLoopback src then (ReachOpen, ReasonLoopback)
      else if Is6 src && bool_decide (IPv6_Mode (IPv6 n) = IPv6Passthrough)
      then (ReachOpen, ReasonIPv6Passthrough)
      else if Is6 src && bool_decide (IPv6_Mode (IPv6 n) = IPv6Block)
      then (ReachBlocked, ReasonIPv6Blocked)
      else if Bogons o && Is4 src && inAnyCIDR src BogonRanges &&
              negb (InAnyEntry src (Allowlist r)) && negb (inAnyCIDR src dockerNets)
      then (ReachUnknown, ReasonBogonFilter)
      else if Docker_Enabled (Docker n) && inAnyCIDR src dockerNets
      then (ReachOpen, ReasonDockerNetwork)
      else if Docker_Enabled (Docker n) && AllowBridgeNetworks (Docker n) &&
              inAnyCIDR src dockerPoolRanges
      then (ReachUnknown, ReasonDockerBridge)
      else if InAnyEntry src (Blocklist r) then (ReachBlocked, ReasonBlocklisted)
      else if InAnyEntry src (Allowlist r) then (ReachOpen, ReasonAllowlisted)
      else if existsb (λ id, bool_decide (id ∈ feedHits)) (Feeds r)
      then (ReachBlocked, ReasonInFeed)
      else
        let '(open, restricted) := port_step src port (TCP r) false in
        if (open : bool) then (ReachOpen, ReasonPortOpen)
        else if has_custom r then (ReachUnknown, ReasonCustomRules)
        else if (restricted : bool) then (ReachBlocked, ReasonPortSourceMismatch)
        else (ReachBlocked, ReasonNoRule)
  end.

Example reach_ex :
  let r := mkRules [mkPortRule "" "8000:9000" "" false "" ["10.0.0.0/8"] ""] [] ["10.1.2.3"] ["# x"] [] [] [] in
  let go a := Reachable r
    (mkFirewallOptions true false 5 60 true true false 10 60 true false 100 true false true false
       false false false false false 100 false false 100 false false false false 60 false 60
       false 60)
    (mkNetworkSettings (mkIPv6Config "filter" false true true)
       (mkDockerConfig false false [] "") (mkRoutingConfig "closed" []))
    (ParseAddr a) 8443 false false [] in
  (go "10.1.2.4", go "10.1.2.3", go "192.0.2.1", go "::ffff:10.9.9.9", go "127.0.0.1") =
  ((ReachOpen, ReasonPortOpen), (ReachBlocked, ReasonBlocklisted),
   (ReachBlocked, ReasonPortSourceMismatch), (ReachOpen, ReasonPortOpen),
   (ReachOpen, ReasonLoopback)).
Proof. vm_compute. reflexivity. Qed.

(** ** Ports *)

Lemma parse_port_word s lo : Atoi s = Some lo → 1 <= lo <= 65535 → "+"%char ∉ bytes s →
  ParseUint 16 (TrimSpace s) = Some lo ∧ word s.
Proof. intros H1 H2 H3. destruct (Atoi_ParseUint s lo) as [? ?]; [done..|]. by rewrite TrimSpace_word. Qed.

(** A rule covers the ports it names.  For the port of a valid rule, written
    without a plus sign, the page's matcher and the kernel's read the same
    interval. *)
Theorem PortInRule_decides r lo hi p :
  ValidPortRule r → port_interval (Port r) = Some (lo, hi) → "+"%char ∉ bytes (Port r) →
  PortInRule (Port r) p = true ↔ lo <= p <= hi.
Proof.
  intros [(lo' & hi' & Hi & Hlo & Hhi) _ _] Hi' Hp. rewrite Hi in Hi'. injection Hi' as -> ->.
  unfold port_interval in Hi. unfold PortInRule.
  destruct (CutByte ":"%char (Port r)) as [[a b]|] eqn:C.
  - pose proof (CutByte_Some _ _ _ _ C) as Cb.
    destruct (Atoi a) as [la|] eqn:Ea; [|done]. destruct (Atoi b) as [hb|] eqn:Eb; [|done].
    injection Hi as -> ->. rewrite Cb, elem_of_app, elem_of_cons in Hp.
    destruct (parse_port_word a lo) as [Ua Wa]; [naive_solver lia..|].
    destruct (parse_port_word b hi) as [Ub Wb]; [naive_solver lia..|].
    rewrite (TrimSpace_word (Port r)).
    + rewrite C, Ua, Ub, andb_true_iff, !Z.leb_le. done.
    + unfold word in *. rewrite Cb, forallb_app, Wa. simpl. by rewrite Wb.
  - destruct (Atoi (Port r)) as [n|] eqn:E; [|done]. injection Hi as -> ->.
    destruct (parse_port_word (Port r) hi) as [U W]; [done|lia|done|].
    rewrite (TrimSpace_word (Port r)) in U by done.
    rewrite !(TrimSpace_word (Port r)) by done. rewrite C, U, Z.eqb_eq. lia.
Qed.

Lemma PortInRule_decides_witness :
  ValidPortRule (mkPortRule "" "8000:9000" "" false "" [] "") ∧
  (PortInRule "8000:9000" 8443 = true ↔ 8000 <= 8443 <= 9000).
Proof.
  assert (ValidPortRule (mkPortRule "" "8000:9000" "" false "" [] "")) as V.
  { split; [exists 8000, 9000; split; [reflexivity|lia]|by left|constructor]. }
  split; [exact V|].
  apply (PortInRule_decides (mkPortRule "" "8000:9000" "" false "" [] "") 8000 9000 8443 V).
  - reflexivity.
  - by apply CutByte_None.
Defined.

(** The two readings of a port differ on a plus sign.  "+22" is a valid rule
    that the kernel reads as port 22, and the apply page reports the open port
    22 as not reachable. *)
Theorem plus_sign_port_is_open_but_reported_blocked :
  let rule := mkPortRule "0123456789ab" "+22" "" false "" [] "" in
  let r := mkRules [rule] [] [] [] [] [] [] in
  ValidateRules r = Ok tt ∧ port_interval (Port rule) = Some (22, 22) ∧
  ∀ o n src, Reachable r o n (Some src) 22 false false [] ≠ (ReachOpen, ReasonPortOpen).
Proof.
  split; [by vm_compute|]. split; [by vm_compute|]. intros o n src H.
  assert (∀ a, port_step a 22 [mkPortRule "0123456789ab" "+22" "" false "" [] ""] false =
               (false, false)) as E.
  { intros a. cbn [port_step Port]. by replace (PortInRule "+22" 22) with false by by vm_compute. }
  revert H. unfold Reachable. cbn [fmap option_fmap option_map TCP]. rewrite E.
  by repeat case_match.
Qed.
