(* ===== verification/PacketLog.v ===== *)
(** * Explaining a refused packet

    [src/internal/shared/packetlog.go]: an entry of the packet log, the reason
    the page gives for a default drop, the remedies it offers, the log prefixes
    that name the rule behind a packet, and the filter of a query; with
    [CurrentListName] of [renamed.go]. *)
From S2P Require Import Prelude GoStrings GoNet Models FeedIDs Validate Reach.

Local Open Scope Z_scope.

Record PacketICMP := mkPacketICMP { ICMP_Type : Z; ICMP_Code : Z }.

(** [PacketLogEntry]; an address that was not read is [None]. *)
Record PacketLogEntry := mkPacketLogEntry {
  Seq : Z; Time_ : Z;
  Rule : string; Feed : string; Hook : string; InDev : string;
  Family : Z; Src : option addr; Dst : option addr;
  Proto : string; SrcPort : Z; DstPort : Z;
  TCPFlags : string; TTL : Z; Length : Z; CtState : string; Mark : Z;
  ICMP : option PacketICMP }.

(** ** Remedies *)

Record Remedy := mkRemedy { R_Allowlist : bool; R_Blocklist : bool; R_Open : bool }.

Definition PacketLogRuleOther : string := "other".

Definition Remedies (e : PacketLogEntry) : Remedy :=
  if String.eqb (Hook e) "forward" then mkRemedy false false false
  else mkRemedy
    (bool_decide (Rule e ∈ ["drop"; PacketLogRuleOther; "bogon"; "feed"]))
    (negb (String.eqb (Rule e) "blocklist"))
    (String.eqb (Rule e) "drop" && negb (DstPort e =? 0) &&
     (String.eqb (Proto e) "tcp" || String.eqb (Proto e) "udp")).

(** ** Drop reasons *)

Inductive DropReason :=
| DropIPv6Blocked | DropIPv6Passthrough | DropICMPAcceptedNow | DropBlocklistedNow
| DropAllowlistedNow | DropPingOff | DropICMPType | DropICMPUntyped | DropNoPort
| DropPortClosed | DropPortForwarded | DropPortSources | DropPortOpenNow.

#[global] Instance DropReason_eq_dec : EqDecision DropReason.
Proof. solve_decision. Defined.

(** The values the sentences name. *)
Inductive DropParams :=
| NoParams
| ICMPParams (proto : string) (type : option Z)
| PortParams (port : Z) (proto : string) (sources : option string).

(** [DropWhy]; no reason to give is [None]. *)
Definition DropWhy : Type := option (DropReason * DropParams).

Definition ICMPv4Accepted (echo : bool) : list Z := if echo then [8] else [].
Definition ICMPv6Accepted (echo : bool) (v6 : IPv6Config) : list Z :=
  (if echo then [128] else []) ++
  (if ICMPAllowRouterAdvertisement v6 then [133; 134] else []) ++
  (if ICMPAllowNeighborAdvertisement v6 then [135; 136] else []).

(** [parseEntryList] *)
Definition parse_entry (entry : string) : list prefix :=
  if IsListComment entry then []
  else
    let e := TrimSpace entry in
    match ParseAddr e with
    | Some a => let a := Unmap a in [Prefix (WithoutZone a) (BitLen a)]   (* PrefixFrom *)
    | None => match ParseNetwork e with Some p => [p] | None => [] end
    end.

Definition parseEntryList (entries : list string) : list prefix := flat_map parse_entry entries.

Record ParsedPortRule := mkParsedPortRule { PP_Rule : PortRule; ParsedSources : list prefix }.

Record ParsedRules := mkParsedRules {
  P_Blocklist : list prefix; P_Allowlist : list prefix;
  P_TCP : list ParsedPortRule; P_UDP : list ParsedPortRule }.

Definition parse_port_rule (pr : PortRule) : ParsedPortRule :=
  mkParsedPortRule pr (parseEntryList (Sources pr)).

(** [ParseRules] *)
Definition ParseRules (r : Rules) : ParsedRules :=
  mkParsedRules (parseEntryList (Blocklist r)) (parseEntryList (Allowlist r))
    (map parse_port_rule (TCP r)) (map parse_port_rule (UDP r)).

(** [netip.Prefix.Contains] of an address that may be the zero one. *)
Definition oContains (p : prefix) (src : option addr) : bool :=
  match src with Some a => Contains p a | None => false end.

(** [inAnyParsedEntry] *)
Definition inAnyParsedEntry (src : option addr) (entries : list prefix) : bool :=
  existsb (λ p, oContains p src) entries.

(** The loop over the port rules: [None] when one accepts the packet, else the
    sources that were named and whether a forwarded rule covers the port. *)
Fixpoint drop_ports (src : option addr) (port : Z) (rules : list ParsedPortRule)
    (others : list string) (forwarded : bool) : option (list string * bool) :=
  match rules with
  | [] => Some (others, forwarded)
  | pr :: rules =>
      let rule := PP_Rule pr in
      if negb (PortInRule (Port rule) port) then drop_ports src port rules others forwarded
      else if negb (FiltersHost rule) then drop_ports src port rules others true
      else if bool_decide (Sources rule = []) then None
      else if bool_decide (ParsedSources pr = []) then drop_ports src port rules others forwarded
      else if inAnyParsedEntry src (ParsedSources pr) then None
      else drop_ports src port rules
             (others ++ map TrimSpace (filter (λ s, IsListComment s = false) (Sources rule)))
             forwarded
  end.

(** The source as the lists are asked about it: unzoned, and unmapped unless the
    packet is an IPv6 one. *)
Definition list_source (e : PacketLogEntry) : option addr :=
  (λ a, let a := WithoutZone a in if Family e =? 6 then a else Unmap a) <$> Src e.

(** The end of the walk: ICMP, packets without ports, and the port rules. *)
Definition drop_port_reason (e : PacketLogEntry) (pr : ParsedRules) : DropWhy :=
  let rules := if String.eqb (Proto e) "udp" then P_UDP pr else P_TCP pr in
  let p := PortParams (DstPort e) (Proto e) in
  match drop_ports (list_source e) (DstPort e) rules [] false with
  | None => Some (DropPortOpenNow, p None)
  | Some ([], false) => Some (DropPortClosed, p None)
  | Some ([], true) => Some (DropPortForwarded, p None)
  | Some (others, _) => Some (DropPortSources, p (Some (Join others ", ")))
  end.

(** [DropReasonParsed] *)
Definition DropReasonParsed (e : PacketLogEntry) (pr : ParsedRules) (a : AppliedConfig) : DropWhy :=
  if negb (String.eqb (Rule e) "drop") || String.eqb (Hook e) "forward" then None else
  let n := Applied_Network a in
  let src := list_source e in
  let v6 := String.eqb (Proto e) "icmpv6" in
  let icmp := String.eqb (Proto e) "icmp" || v6 in
  let label := if v6 then "ICMPv6" else "ICMP" in
  let type := ICMP_Type <$> ICMP e in
  if (Family e =? 6) && bool_decide (IPv6_Mode (IPv6 n) = IPv6Block)
  then Some (DropIPv6Blocked, NoParams)
  else if (Family e =? 6) && bool_decide (IPv6_Mode (IPv6 n) = IPv6Passthrough)
  then Some (DropIPv6Passthrough, NoParams)
  else if v6 && match type with
                | Some t => bool_decide (t ∈ ICMPv6Accepted false (IPv6 n))
                | None => false
                end
  then Some (DropICMPAcceptedNow, ICMPParams label type)
  else if Docker_Enabled (Docker n) &&
          existsb (λ c, match ParseNetwork c with Some p => oContains p src | None => false end)
            (CustomNetworks (Docker n))
  then None
  else if inAnyParsedEntry src (P_Blocklist pr) then Some (DropBlocklistedNow, NoParams)
  else if inAnyParsedEntry src (P_Allowlist pr) then Some (DropAllowlistedNow, NoParams)
  else
    let echo := match type with
                | Some t => (String.eqb (Proto e) "icmp" && (t =? 8)) || (v6 && (t =? 128))
                | None => false
                end in
    if echo && ICMPAllowEchoRequest (Applied_Firewall a)
    then Some (DropICMPAcceptedNow, ICMPParams label type)
    else if icmp && bool_decide (type = None) then Some (DropICMPUntyped, ICMPParams label None)
    else if echo then Some (DropPingOff, NoParams)
    else if icmp then Some (DropICMPType, ICMPParams label type)
    else if negb (String.eqb (Proto e) "tcp" || String.eqb (Proto e) "udp") || (DstPort e =? 0)
    then Some (DropNoPort, NoParams)
    else drop_port_reason e pr.

(** [DropReason] *)
Definition DropReason_of (e : PacketLogEntry) (r : Rules) (a : AppliedConfig) : DropWhy :=
  DropReasonParsed e (ParseRules r) a.

(** ** Log prefixes *)

Definition PacketLogRules : list string := [
  "ssh"; "icmp_flood"; "syn_flood"; "tcp_rst"; "portscan"; "invalid"; "fragment"; "bogon";
  "blocklist"; "feed"; "drop"].

Definition logPrefixStem : string := "easywall ".
Definition feedLogPrefixStem : string := logPrefixStem +:+ "feed: ".

(** [FeedLogPrefix] *)
Definition FeedLogPrefix (id : string) : string := feedLogPrefixStem +:+ id +:+ " ".

(** [CurrentListName] *)
Definition CurrentListName (s : string) : string :=
  if String.eqb s "blacklist" then "blocklist"
  else if String.eqb s "whitelist" then "allowlist" else s.

(** [strings.TrimRight(s, "\x00 ")], [strings.TrimSuffix(s, ":")] and
    [strings.ReplaceAll(s, "-", "_")] *)
Fixpoint trim_end (p : ascii → bool) (l : list ascii) : list ascii :=
  match l with
  | [] => []
  | c :: l =>
      match trim_end p l with
      | [] => if p c then [] else [c]
      | r => c :: r
      end
  end.

Definition TrimNulSpace (s : string) : string :=
  of_bytes (trim_end (λ c, Ascii.eqb c (mkbyte 0) || Ascii.eqb c " ") (bytes s)).

Definition TrimColon (s : string) : string :=
  match reverse (bytes s) with
  | ":"%char :: l => of_bytes (reverse l)
  | _ => s
  end.

Definition dash_to_underscore (s : string) : string :=
  of_bytes (map (λ c, if Ascii.eqb c "-" then "_"%char else c) (bytes s)).

(** [ParseLogPrefix] *)
Definition ParseLogPrefix (prefix : string) : string * string :=
  match CutPrefix prefix logPrefixStem with
  | None => (PacketLogRuleOther, "")
  | Some name =>
      let name := TrimNulSpace name in
      match CutPrefix name "feed:" with
      | Some id =>
          let id := TrimSpace id in
          if KnownFeedID id then ("feed", id) else ("feed", "")
      | None =>
          let name := CurrentListName (dash_to_underscore (TrimColon name)) in
          if bool_decide (name ∈ PacketLogRules) then (name, "") else (PacketLogRuleOther, "")
      end
  end.

(** ** The filter of a query *)

Record PacketLogFilter := mkPacketLogFilter {
  F_Src : string; F_Dst : string; F_Port : Z; F_Proto : string; F_Rule : string;
  F_InDev : string; F_Limit : Z; F_Before : Z; F_Country : string }.

Definition PacketLogProtos : list string := ["tcp"; "udp"; "icmp"; "icmpv6"].
Definition packetLogDefaultLimit : Z := 200.
Definition PacketLogMaxLimit : Z := 1000.

(** [addrOrPrefix] *)
Definition addrOrPrefix (s : string) : option prefix :=
  match ParseNetwork s with
  | Some p => Some p
  | None =>
      match ParseAddr s with
      | Some a => let a := WithoutZone (Unmap a) in Some (Prefix a (BitLen a))
      | None => None
      end
  end.

(** [ifaceName] *)
Definition iface_byte (c : ascii) : bool :=
  let v := byte_val c in
  (65 <=? v) && (v <=? 90) || (97 <=? v) && (v <=? 122) || is_digit c ||
  Ascii.eqb c "." || Ascii.eqb c "_" || Ascii.eqb c "@" || Ascii.eqb c "-".

Definition ifaceName (s : string) : bool :=
  (1 <=? String.length s)%nat && (String.length s <=? 15)%nat && forallb iface_byte (bytes s).

Inductive FilterError := BadSrc | BadDst | BadProto | BadRule | BadIn | BadCountry | BadLimit.

(** [PacketLogFilter.Validate] *)
Definition Filter_Validate (f : PacketLogFilter) : result FilterError unit :=
  let absent s := String.eqb s "" in
  let parses s := match addrOrPrefix s with Some _ => true | None => false end in
  check (absent (F_Src f) || parses (F_Src f)) BadSrc ;?
  check (absent (F_Dst f) || parses (F_Dst f)) BadDst ;?
  check (absent (F_Proto f) || bool_decide (F_Proto f ∈ PacketLogProtos)) BadProto ;?
  check (absent (F_Rule f) || String.eqb (F_Rule f) PacketLogRuleOther ||
         bool_decide (F_Rule f ∈ PacketLogRules)) BadRule ;?
  check (absent (F_InDev f) || ifaceName (F_InDev f)) BadIn ;?
  check (absent (F_Country f) || bool_decide (F_Country f ∈ CountryCodes)) BadCountry ;?
  check (0 <=? F_Limit f) BadLimit.

(** [EffectiveLimit] *)
Definition EffectiveLimit (f : PacketLogFilter) : Z :=
  if F_Limit f <=? 0 then packetLogDefaultLimit else Z.min (F_Limit f) PacketLogMaxLimit.

(** [Matcher] *)
Definition Matcher (f : PacketLogFilter) : result FilterError (PacketLogEntry → bool) :=
  Filter_Validate f ;?
  let net s := if String.eqb s "" then None else addrOrPrefix s in
  let within (p : option prefix) (a : option addr) :=
    match p with Some p => oContains p (Unmap <$> a) | None => true end in
  Ok (λ e,
    within (net (F_Src f)) (Src e) && within (net (F_Dst f)) (Dst e) &&
    ((F_Port f =? 0) || (DstPort e =? F_Port f)) &&
    (String.eqb (F_Proto f) "" || String.eqb (Proto e) (F_Proto f)) &&
    (String.eqb (F_Rule f) "" || String.eqb (Rule e) (F_Rule f)) &&
    (String.eqb (F_InDev f) "" || String.eqb (InDev e) (F_InDev f)) &&
    ((F_Before f =? 0) || (Seq e <? F_Before f))).

(** ** Lemmas *)

Lemma existsb_ext {A} (f g : A → bool) l : (∀ x, x ∈ l → f x = g x) → existsb f l = existsb g l.
Proof.
  induction l as [|x l IH]; simpl; intros H; [done|]. rewrite (H x), IH; set_solver.
Qed.

Lemma existsb_flat_map {A B} (f : B → bool) (g : A → list B) l :
  existsb f (flat_map g l) = existsb (λ x, existsb f (g x)) l.
Proof. induction l as [|x l IH]; simpl; [done|]. by rewrite existsb_app, IH. Qed.

Definition zoneless (entry : string) : Prop :=
  ∀ a, ParseAddr (TrimSpace entry) = Some a → Zone a = "".

Lemma address_ok_pct s : address_ok s → "%"%char ∉ bytes s.
Proof. intros [[? ?%ParseIP_pct]|[? ?%ParseCIDR_pct]]; done. Qed.

Lemma address_ok_zoneless s : address_ok s → zoneless s.
Proof.
  intros Hs a Ha. apply (ParseAddr_zone _ _ Ha). intros Hc%TrimSpace_bytes.
  by apply (address_ok_pct s).
Qed.

Lemma address_ok_trim_zoneless s : address_ok (TrimSpace s) → zoneless s.
Proof. intros Hs a Ha. apply (ParseAddr_zone _ _ Ha). by apply address_ok_pct. Qed.

(** A single address, as an entry and as the prefix it is parsed into. *)
Lemma host_prefix a src :
  Zone a = "" → Zone src = "" →
  Contains (Prefix (WithoutZone (Unmap a)) (BitLen (Unmap a))) src = bool_decide (Unmap a = src).
Proof.
  intros Hz Hs. assert (Zone (Unmap a) = "") as Hu.
  { destruct a as [|n z]; [done|]. unfold Unmap. by destruct (Is4In6 _). }
  revert Hu. generalize (Unmap a) as b. intros b Hb. unfold Contains. simpl.
  destruct b as [n|n z], src as [v|v z']; simpl in *; subst; try done;
    rewrite !Z.shiftr_0_r; simpl.
  - destruct (Z.eqb_spec n v); symmetry; [apply bool_decide_eq_true_2|apply bool_decide_eq_false_2];
      congruence.
  - destruct (Z.eqb_spec n v); symmetry; [apply bool_decide_eq_true_2|apply bool_decide_eq_false_2];
      congruence.
Qed.

Lemma entry_parsed src entry :
  Zone src = "" → (IsListComment entry = false → zoneless entry) →
  existsb (λ p, Contains p src) (parse_entry entry) = entry_covers src entry.
Proof.
  intros Hs Hz. unfold parse_entry, entry_covers.
  destruct (IsListComment entry); [done|]. specialize (Hz eq_refl). cbv zeta.
  destruct (ParseAddr (TrimSpace entry)) as [a|] eqn:E.
  - simpl. rewrite orb_false_r. apply host_prefix; auto.
  - destruct (ParseNetwork (TrimSpace entry)); simpl; [|done]. by rewrite orb_false_r.
Qed.

Lemma list_parsed src entries :
  Zone src = "" → Forall (λ s, IsListComment s = false → zoneless s) entries →
  inAnyParsedEntry (Some src) (parseEntryList entries) = InAnyEntry src entries.
Proof.
  intros Hs Hz. unfold inAnyParsedEntry, parseEntryList, InAnyEntry.
  rewrite existsb_flat_map. apply existsb_ext. intros x Hx.
  rewrite Forall_forall in Hz. apply entry_parsed; auto.
Qed.

Lemma parsed_nil_not_covered src entries :
  Zone src = "" → Forall (λ s, IsListComment s = false → zoneless s) entries →
  parseEntryList entries = [] → InAnyEntry src entries = false.
Proof. intros Hs Hz H. rewrite <- (list_parsed src entries), H by done. done. Qed.

(** A comment is no network. *)
Lemma ParseAddr_hash s : ParseAddr (String "#" s) = None.
Proof.
  unfold ParseAddr. destruct (addr_family _) as [[]|]; [|done..].
  assert (∀ z b, v6_body z (String "#" b) = None) as H by by intros z [].
  unfold parseIPv6. cbn. destruct (CutByte "%" s) as [[b z]|]; [|apply H].
  destruct (is_empty z); [done|apply H].
Qed.

Lemma comment_no_network c : IsListComment c = true → ParseNetwork c = None.
Proof.
  unfold IsListComment, ParseNetwork. cbv zeta. intros H.
  enough (ParseCIDR (TrimSpace c) = None) as -> by done. revert H.
  generalize (TrimSpace c) as s. intros s [->%String.eqb_eq|H]%orb_true_iff; [done|].
  unfold HasPrefix in H. destruct (starts_with _ _) as [k|] eqn:E; [|done].
  apply starts_with_Some in E. destruct s as [|d s]; [done|].
  assert (d = "#"%char) as -> by (cbn in E; congruence).
  unfold ParseCIDR. simpl. destruct (CutByte "/" s) as [[a m]|]; [|done].
  by rewrite ParseAddr_hash.
Qed.

Lemma docker_nets_agree src cidrs :
  existsb (λ c, match ParseNetwork c with Some p => oContains p (Some src) | None => false end) cidrs
  = inAnyCIDR src cidrs.
Proof.
  apply existsb_ext. intros c _. unfold cidr_covers.
  destruct (IsListComment c) eqn:E; [|done]. by rewrite comment_no_network.
Qed.

(** The two loops over the port rules. *)
Lemma ports_agree src port rules others fwd restricted :
  Zone src = "" → Forall ValidPortRule rules →
  fst (port_step src port rules restricted) =
  match drop_ports (Some src) port (map parse_port_rule rules) others fwd with
  | None => true
  | Some _ => false
  end.
Proof.
  intros Hs Hv. revert others fwd restricted.
  induction Hv as [|rule rules [_ _ Hsrc] Hv IH]; intros others fwd restricted; simpl; [done|].
  destruct (PortInRule (Port rule) port); simpl; [|apply IH].
  destruct (FiltersHost rule); simpl; [|apply IH].
  assert (Forall (λ s, IsListComment s = false → zoneless s) (Sources rule)) as Hz.
  { eapply Forall_impl; [exact Hsrc|]. intros s H E. by apply address_ok_trim_zoneless, H. }
  destruct (bool_decide (Sources rule = [])); [done|].
  destruct (bool_decide (parseEntryList (Sources rule) = [])) eqn:E.
  - apply bool_decide_eq_true in E.
    rewrite (parsed_nil_not_covered src (Sources rule)) by done. apply IH.
  - rewrite list_parsed by done. destruct (InAnyEntry src (Sources rule)); [done|]. apply IH.
Qed.

(** The verdict the apply page gives where the packet log gives a reason. *)
Definition verdict_of (r : Rules) (why : DropWhy) : ReachVerdict :=
  match why with
  | None | Some (DropIPv6Passthrough, _) | Some (DropAllowlistedNow, _)
  | Some (DropPortOpenNow, _) => ReachOpen
  | Some (DropIPv6Blocked, _) | Some (DropBlocklistedNow, _) => ReachBlocked
  | Some _ => if has_custom r then ReachUnknown else ReachBlocked
  end.

(** A refused TCP connection attempt from [src]. *)
Definition refused_tcp (src : addr) (port : Z) : PacketLogEntry :=
  mkPacketLogEntry 1 0 "drop" "" "input" "eth0" (if Is6 src then 6 else 4) (Some src) None "tcp"
    40000 port "SYN" 64 60 "new" 0 None.

Lemma blocklist_zoneless l :
  Forall (λ s, IsListComment s = false → address_ok s) l →
  Forall (λ s, IsListComment s = false → zoneless s) l.
Proof. intros H. eapply Forall_impl; [exact H|]. intros s Hs E. by apply address_ok_zoneless, Hs. Qed.


(** A configuration with the modules of the shipped file. *)
Definition shipped_options : FirewallOptions :=
  mkFirewallOptions true false 5 60 true true false 10 60 true false 100 true false true false
    false false false false false 100 false false 100 false false false false 60 false 60
    false 60.
Definition plain_networks : NetworkSettings :=
  mkNetworkSettings (mkIPv6Config IPv6Filter false true true)
    (mkDockerConfig false false [] "") (mkRoutingConfig RoutingClosed []).

(** A rule set with an address list, a restricted port and an open one. *)
Definition office_rules : Rules :=
  mkRules [mkPortRule "0123456789ab" "22" "" false "" ["# office"; "10.8.0.0/16"] "";
           mkPortRule "0123456789ac" "443" "" false "" [] ""] []
    ["198.51.100.7"] ["192.0.2.0/24"] [] [] [].

Lemma office_rules_valid : ValidRules office_rules.
Proof. apply ValidateRules_spec. by vm_compute. Qed.


(** An entry list means the same parsed once and parsed for every packet.
    For a list that can be stored, [parseEntryList] and the prefixes' [Contains]
    decide what [InAnyEntry] decides. *)
Theorem parsed_list_agrees src entries :
  Zone src = "" → Forall (λ s, IsListComment s = false → address_ok s) entries →
  inAnyParsedEntry (Some src) (parseEntryList entries) = InAnyEntry src entries.
Proof. intros Hs Hv. by apply list_parsed, blocklist_zoneless. Qed.

Lemma parsed_list_agrees_witness :
  let l := ["# x"; "192.0.2.1"; "10.0.0.0/8"] in
  inAnyParsedEntry (Some (Addr4 0x0A010203)) (parseEntryList l) = InAnyEntry (Addr4 0x0A010203) l ∧
  InAnyEntry (Addr4 0x0A010203) l = true.
Proof.
  split; [|by vm_compute]. apply parsed_list_agrees; [done|].
  apply Forall_cons; split; [intros E; by vm_compute in E|].
  apply Forall_cons; split; [intros _; left; vm_compute; by eexists|].
  apply Forall_cons; split; [intros _; right; vm_compute; by eexists|constructor].
Defined.

(** [Allowlist] with one more entry, [TCP] or [UDP] with one more rule. *)
Definition allow (entry : string) (r : Rules) : Rules :=
  mkRules (TCP r) (UDP r) (Blocklist r) (Allowlist r ++ [entry]) (Forwarding r) (Custom r) (Feeds r).
Definition open_port (proto : string) (rule : PortRule) (r : Rules) : Rules :=
  if String.eqb proto "udp"
  then mkRules (TCP r) (UDP r ++ [rule]) (Blocklist r) (Allowlist r) (Forwarding r) (Custom r) (Feeds r)
  else mkRules (TCP r ++ [rule]) (UDP r) (Blocklist r) (Allowlist r) (Forwarding r) (Custom r) (Feeds r).

(** The reasons that say the default drop would refuse the packet again. *)
Definition refused_again (why : DropWhy) : bool :=
  match why with
  | Some (c, _) => bool_decide (c ∈ [DropPingOff; DropICMPType; DropICMPUntyped; DropNoPort;
                                      DropPortClosed; DropPortForwarded; DropPortSources])
  | None => false
  end.

Lemma inAnyParsedEntry_app src l l' :
  inAnyParsedEntry src (l ++ l') = inAnyParsedEntry src l || inAnyParsedEntry src l'.
Proof. apply existsb_app. Qed.

Lemma parseEntryList_app l l' : parseEntryList (l ++ l') = parseEntryList l ++ parseEntryList l'.
Proof. apply flat_map_app. Qed.

Lemma drop_ports_open src port rules pr others fwd :
  PortInRule (Port (PP_Rule pr)) port = true → FiltersHost (PP_Rule pr) = true →
  Sources (PP_Rule pr) = [] → drop_ports src port (rules ++ [pr]) others fwd = None.
Proof.
  intros Hp Hf Hs. revert others fwd. induction rules as [|r rules IH]; intros; simpl.
  - rewrite Hp, Hf, Hs. done.
  - by repeat case_match.
Qed.

(** The remedies the page offers work.  Where it offers to allow the source of
    a default drop, the packet with the source on the allowlist is never refused
    by the default drop again; where it offers to open the port, neither is it
    with a rule for the port. *)
Theorem remedies_rescue e r a entry rule :
  Rule e = "drop" →
  (R_Allowlist (Remedies e) = true →
     inAnyParsedEntry (list_source e) (parse_entry entry) = true →
     refused_again (DropReason_of e (allow entry r) a) = false) ∧
  (R_Open (Remedies e) = true →
     PortInRule (Port rule) (DstPort e) = true → FiltersHost rule = true → Sources rule = [] →
     refused_again (DropReason_of e (open_port (Proto e) rule r) a) = false).
Proof.
  intros Hd. split.
  - intros _ Hin. unfold DropReason_of, DropReasonParsed.
    assert (inAnyParsedEntry (list_source e) (P_Allowlist (ParseRules (allow entry r))) = true) as ->.
    { simpl. rewrite parseEntryList_app, inAnyParsedEntry_app. simpl.
      rewrite app_nil_r, Hin. apply orb_true_r. }
    by repeat case_match; simplify_eq/=.
  - intros Ho Hp Hf Hs. unfold Remedies in Ho.
    destruct (String.eqb (Hook e) "forward") eqn:Hh; [done|]. simpl in Ho.
    apply andb_true_iff in Ho as [[_ Hport]%andb_true_iff Hproto].
    apply negb_true_iff in Hport.
    unfold DropReason_of, DropReasonParsed. rewrite Hport, Hproto. cbn [negb orb].
    assert (drop_port_reason e (ParseRules (open_port (Proto e) rule r)) =
            Some (DropPortOpenNow, PortParams (DstPort e) (Proto e) None)) as ->.
    { unfold drop_port_reason, open_port.
      destruct (String.eqb (Proto e) "udp"); cbn [ParseRules P_TCP P_UDP TCP UDP];
        rewrite map_app; cbn [map];
        by rewrite (drop_ports_open _ _ _ (parse_port_rule rule)). }
    apply orb_true_iff in Hproto as [Hx%String.eqb_eq|Hx%String.eqb_eq];
      rewrite Hx; simpl; by repeat case_match; simplify_eq/=.
Qed.

Lemma remedies_rescue_witness :
  let e := refused_tcp (Addr4 0xC6336409) 22 in
  refused_again (DropReason_of e office_rules (mkAppliedConfig shipped_options plain_networks)) = true ∧
  refused_again (DropReason_of e (allow "198.51.100.9" office_rules)
                   (mkAppliedConfig shipped_options plain_networks)) = false.
Proof.
  split; [by vm_compute|].
  refine (proj1 (remedies_rescue (refused_tcp (Addr4 0xC6336409) 22) office_rules
    (mkAppliedConfig shipped_options plain_networks) "198.51.100.9"
    (mkPortRule "" "22" "" false "" [] "") eq_refl) _ _); vm_compute; reflexivity.
Defined.

(** ** Log prefixes *)

(** Every known feed id, by kind. *)
Definition known_feed_ids : list string :=
  map CF_ID FeedCatalogue ++ map CountryFeedID CountryCodes ++ map OwnFeedID (seq 1 MaxOwnFeeds).

Lemma CutPrefix_Some s p k : CutPrefix s p = Some k → s = p +:+ k.
Proof.
  unfold CutPrefix. destruct (starts_with (bytes p) (bytes s)) as [l|] eqn:E; [|done].
  intros [= <-]. apply starts_with_Some in E.
  apply (f_equal of_bytes) in E. rewrite of_bytes_bytes in E. rewrite E.
  clear. induction p as [|c p IH]; [done|].
  change (String c (of_bytes (bytes p ++ l)) = String c (p +:+ of_bytes l)). by rewrite IH.
Qed.

Lemma KnownFeedID_elem id : KnownFeedID id = true → In id known_feed_ids.
Proof.
  unfold KnownFeedID, CatalogueFeedByID, known_feed_ids. rewrite !in_app_iff.
  destruct (find _ FeedCatalogue) as [f|] eqn:F.
  - apply find_some in F as [Hf Hid]. apply String.eqb_eq in Hid. subst id. intros _. left.
    exact (in_map CF_ID _ _ Hf).
  - destruct (CountryCode id) as [cc|] eqn:C; simpl.
    + intros _. right. left. unfold CountryCode in C.
      destruct (CutPrefix id countryFeedPrefix) as [k|] eqn:K; [|done].
      apply CutPrefix_Some in K. subst id.
      destruct (existsb (String.eqb k) CountryCodes) eqn:X; [|done]. injection C as <-.
      apply existsb_exists in X as (y & Hy & Heq%String.eqb_eq). subst y.
      exact (in_map CountryFeedID _ _ Hy).
    + unfold IsOwnFeedID. intros (n & Hn & Heq%String.eqb_eq)%existsb_exists. right. right.
      subst id. exact (in_map OwnFeedID _ _ Hn).
Qed.

(** A log prefix names its rule.  The prefix of every rule that logs, and the
    prefix of every feed that can be switched on, is read back as that rule and
    that feed. *)
Theorem ParseLogPrefix_inverts_prefixes :
  (∀ name, name ∈ ["invalid"; "fragment"; "bogon"; "portscan"; "syn-flood"; "icmp-flood"; "ssh";
                   "tcp-rst"; "blocklist"; "drop"] →
     ParseLogPrefix (logPrefixStem +:+ name +:+ ": ") = (dash_to_underscore name, "")) ∧
  (∀ id, KnownFeedID id = true → ParseLogPrefix (FeedLogPrefix id) = ("feed", id)).
Proof.
  split.
  - intros name H. rewrite !elem_of_cons, elem_of_nil in H.
    repeat destruct H as [->|H]; [by vm_compute..|done].
  - intros id H%KnownFeedID_elem.
    assert (forallb (λ id, bool_decide (ParseLogPrefix (FeedLogPrefix id) = ("feed", id)))
              known_feed_ids = true) as Hall by by vm_compute.
    rewrite forallb_forall in Hall. by apply Hall, bool_decide_eq_true in H.
Qed.

(** ** Queries *)

Lemma ParseAddr_no_network s a :
  ParseAddr s = Some a → Zone a = "" → ParseNetwork s = None.
Proof.
  intros Ha Hz. destruct (ParseNetwork s) as [p|] eqn:N; [|done].
  apply ParseNetwork_cases in N as (n & Hn%ParseCIDR_slash & _).
  by apply TrimSpace_bytes, (ParseAddr_slash s a Ha Hz) in Hn.
Qed.

Lemma Unmap_zoneless a : Zone a = "" → WithoutZone (Unmap a) = Unmap a ∧ Zone (Unmap a) = "".
Proof.
  destruct a as [|n z]; [done|]. unfold Unmap. destruct (Is4In6 _); [done|]. simpl. by intros ->.
Qed.

(** A query asks what its fields say.  A filter for one address, in either
    family or written as an IPv4-mapped address, keeps exactly the packets from
    that address; and whatever the filter, an answer has between one and a
    thousand entries at most. *)
Theorem address_filter_is_exact s a m e b f :
  ParseAddr s = Some a → Zone a = "" →
  Matcher (mkPacketLogFilter s "" 0 "" "" "" 0 0 "") = Ok m →
  Src e = Some b → Zone b = "" →
  (m e = true ↔ Unmap b = Unmap a) ∧ 1 <= EffectiveLimit f <= PacketLogMaxLimit.
Proof.
  intros Ha Hz Hm Hb Hzb. split.
  - unfold Matcher in Hm. apply then_Ok in Hm as [_ Hm]. injection Hm as <-. simpl.
    assert (s ≠ "") as Hs by (intros ->; done).
    rewrite (proj2 (String.eqb_neq s "")) by done.
    assert (addrOrPrefix s = Some (Prefix (WithoutZone (Unmap a)) (BitLen (Unmap a)))) as ->.
    { unfold addrOrPrefix. rewrite (ParseAddr_no_network s a), Ha by done.
      by destruct (Unmap_zoneless a Hz) as [-> _]. }
    rewrite Hb. simpl. rewrite !andb_true_r.
    destruct (Unmap_zoneless b Hzb) as [_ Hub].
    rewrite host_prefix, bool_decide_eq_true by done. naive_solver.
  - unfold EffectiveLimit, packetLogDefaultLimit, PacketLogMaxLimit.
    destruct (Z.leb_spec (F_Limit f) 0); lia.
Qed.

Definition from_mapped : PacketLogFilter :=
  mkPacketLogFilter "::ffff:198.51.100.9" "" 0 "" "" "" 0 0 "".

Lemma from_mapped_valid : Filter_Validate from_mapped = Ok tt.
Proof. vm_compute. reflexivity. Qed.

Lemma address_filter_is_exact_witness :
  ∃ m, Matcher from_mapped = Ok m ∧ m (refused_tcp (Addr4 0xC6336409) 22) = true.
Proof.
  destruct (Matcher from_mapped) as [m|] eqn:E;
    [|unfold Matcher in E; rewrite from_mapped_valid in E; discriminate E].
  exists m. split; [reflexivity|].
  refine (proj2 (proj1 (address_filter_is_exact "::ffff:198.51.100.9" (Addr6 0xFFFFC6336409 "") m
    (refused_tcp (Addr4 0xC6336409) 22) (Addr4 0xC6336409)
    (mkPacketLogFilter "" "" 0 "" "" "" 0 0 "") _ eq_refl E eq_refl eq_refl)) _);
    vm_compute; reflexivity.
Defined.
