(* ===== verification/PacketDecode.v ===== *)
(** * Reading a refused packet

    The decoder of [src/internal/core/packetlog.go]: one NFLOG message, of
    which at most [packetSnaplen] bytes of the packet are copied, becomes an
    entry of the packet log.  The bytes are what a stranger sent, and the
    process that reads them is root.

    A byte is a [Z].  An index or a slice past the end of the payload is a run
    time panic in Go; here it is [None], and a decoder's answer otherwise
    [Some] of the entry or of nothing.  A slice is held to the length of the
    payload, which is stricter than Go's rule, its capacity. *)
From S2P Require Import Prelude GoStrings GoNet NetBytes Models FeedIDs Validate Reach PacketLog.

Local Open Scope Z_scope.

(** ** Reading bytes *)

Definition len (b : list Z) : Z := Z.of_nat (length b).
Definition index (b : list Z) (i : Z) : option Z := if 0 <=? i then b !! Z.to_nat i else None.
Definition slice (b : list Z) (lo hi : Z) : option (list Z) :=
  if (0 <=? lo) && (lo <=? hi) && (hi <=? len b) then Some (take (Z.to_nat (hi - lo)) (drop (Z.to_nat lo) b)) else None.
Definition slice_from (b : list Z) (lo : Z) : option (list Z) := slice b lo (len b).
(** [binary.BigEndian.Uint16(b[i:i+2])] *)
Definition uint16_at (b : list Z) (i : Z) : option Z := be_val <$> slice b i (i + 2).

(** ** Names *)

Definition hookName (h : Z) : string := if h =? 1 then "input" else if h =? 2 then "forward" else "".

Definition ctState (info : option Z) : string :=
  match info with
  | None => ""
  | Some i =>
      if (i =? 0) || (i =? 3) then "established"
      else if (i =? 1) || (i =? 4) then "related"
      else if i =? 2 then "new"
      else if i =? 7 then "untracked" else ""
  end.

Definition IPPROTO_ICMP : Z := 1.
Definition IPPROTO_TCP : Z := 6.
Definition IPPROTO_UDP : Z := 17.
Definition IPPROTO_ICMPV6 : Z := 58.

Definition ipProtoName (p family : Z) : string :=
  if p =? IPPROTO_TCP then "tcp"
  else if p =? IPPROTO_UDP then "udp"
  else if (p =? IPPROTO_ICMP) && (family =? 4) then "icmp"
  else if (p =? IPPROTO_ICMPV6) && (family =? 6) then "icmpv6"
  else Itoa p.

Definition tcpFlagNames : list string := ["FIN"; "SYN"; "RST"; "PSH"; "ACK"; "URG"; "ECE"; "CWR"].
Definition tcpFlags (b : Z) : string :=
  Join (omap (λ x, if Z.testbit b (Z.of_nat (fst x)) then Some (snd x) else None) (imap pair tcpFlagNames)) ",".

(** ** The headers *)

(** An entry with the network header's fields, and with the transport's. *)
Definition with_ip (family length ttl : Z) (src dst : addr) (e : PacketLogEntry) : PacketLogEntry :=
  mkPacketLogEntry (Seq e) (Time_ e) (Rule e) (Feed e) (Hook e) (InDev e) family (Some src) (Some dst)
    (Proto e) (SrcPort e) (DstPort e) (TCPFlags e) ttl length (CtState e) (Mark e) (ICMP e).
Definition with_transport (proto : string) (sport dport : Z) (flags : string) (icmp : option PacketICMP) (e : PacketLogEntry) :
    PacketLogEntry :=
  mkPacketLogEntry (Seq e) (Time_ e) (Rule e) (Feed e) (Hook e) (InDev e) (Family e) (Src e) (Dst e)
    proto sport dport flags (TTL e) (Length e) (CtState e) (Mark e) icmp.
Definition with_proto (proto : string) (e : PacketLogEntry) : PacketLogEntry :=
  with_transport proto (SrcPort e) (DstPort e) (TCPFlags e) (ICMP e) e.

(** [None]: a panic; [Some None]: too short, or not what it claims to be. *)
Definition decoded : Type := option (option PacketLogEntry).

Definition decodeTransport (e : PacketLogEntry) (proto family : Z) (b : list Z) : decoded :=
  let name := ipProtoName proto family in
  let e := with_proto name e in
  if proto =? IPPROTO_TCP then
    if len b <? 20 then Some None
    else
      sport ← uint16_at b 0;
      dport ← uint16_at b 2;
      flags ← index b 13;
      Some (Some (with_transport name sport dport (tcpFlags flags) (ICMP e) e))
  else if proto =? IPPROTO_UDP then
    if len b <? 8 then Some None
    else
      sport ← uint16_at b 0;
      dport ← uint16_at b 2;
      Some (Some (with_transport name sport dport (TCPFlags e) (ICMP e) e))
  else if (proto =? IPPROTO_ICMP) || (proto =? IPPROTO_ICMPV6) then
    if len b <? 2 then Some None
    else if bool_decide (name = "icmp") || bool_decide (name = "icmpv6") then
      t ← index b 0;
      c ← index b 1;
      Some (Some (with_transport name (SrcPort e) (DstPort e) (TCPFlags e) (Some (mkPacketICMP t c)) e))
    else Some (Some e)
  else Some (Some e).

Definition decodeIPv4 (e : PacketLogEntry) (b : list Z) : decoded :=
  if len b <? 20 then Some None
  else
    b0 ← index b 0;
    let ihl := Z.land b0 0x0f * 4 in
    if (ihl <? 20) || (len b <? ihl) then Some None
    else
      length_ ← uint16_at b 2;
      ttl ← index b 8;
      src ← slice b 12 16;
      dst ← slice b 16 20;
      let e := with_ip 4 length_ ttl (Addr4 (be_val src)) (Addr4 (be_val dst)) e in
      frag ← uint16_at b 6;
      proto ← index b 9;
      if negb (Z.land frag 0x1fff =? 0) then Some (Some (with_proto (ipProtoName proto 4) e))
      else
        rest ← slice_from b ihl;
        decodeTransport e proto 4 rest.

(** The loop over the extension headers, [fuel] of them at most. *)
Fixpoint ext_loop (fuel : nat) (e : PacketLogEntry) (next : Z) (rest : list Z) : decoded :=
  match fuel with
  | O => Some None
  | S fuel =>
      if bool_decide (next ∈ [0; 43; 60]) then
        if len rest <? 8 then Some None
        else
          r1 ← index rest 1;
          let n := (r1 + 1) * 8 in
          if len rest <? n then Some None
          else
            next ← index rest 0;
            rest ← slice_from rest n;
            ext_loop fuel e next rest
      else if next =? 44 then
        if len rest <? 8 then Some None
        else
          frag ← uint16_at rest 2;
          next ← index rest 0;
          if negb (Z.shiftr frag 3 =? 0) then Some (Some (with_proto (ipProtoName next 6) e))
          else
            rest ← slice_from rest 8;
            ext_loop fuel e next rest
      else decodeTransport e next 6 rest
  end.

Definition decodeIPv6 (e : PacketLogEntry) (b : list Z) : decoded :=
  if len b <? 40 then Some None
  else
    payload ← uint16_at b 4;
    ttl ← index b 7;
    src ← slice b 8 24;
    dst ← slice b 24 40;
    let e := with_ip 6 (Z.min (40 + payload) 65535) ttl (AddrFrom16 src) (AddrFrom16 dst) e in
    next ← index b 6;
    rest ← slice_from b 40;
    ext_loop 8 e next rest.

Definition decodeHeaders (e : PacketLogEntry) (b : list Z) : decoded :=
  if len b =? 0 then Some None
  else
    b0 ← index b 0;
    if Z.shiftr b0 4 =? 4 then decodeIPv4 e b
    else if Z.shiftr b0 4 =? 6 then decodeIPv6 e b
    else Some None.

(** ** The message *)

(** The attributes of the message, as the library hands them over. *)
Record Attribute := mkAttribute {
  A_Prefix : option string; A_Payload : option (list Z); A_Timestamp : option Z; A_InDev : option Z;
  A_Hook : option Z; A_Mark : option Z; A_CtInfo : option Z }.

Definition packetSnaplen : Z := 128.

(** [ifname] is the name of an interface. *)
Definition entryFromAttribute (a : Attribute) (ifname : Z → string) (now : Z) : decoded :=
  match A_Payload a with
  | None => Some None
  | Some payload =>
      let '(rule, feed) := match A_Prefix a with Some p => ParseLogPrefix p | None => (PacketLogRuleOther, "") end in
      let e := mkPacketLogEntry 0 (default now (A_Timestamp a)) rule feed
        (match A_Hook a with Some h => hookName h | None => "" end)
        (match A_InDev a with Some i => ifname i | None => "" end)
        0 None None "" 0 0 "" 0 0 (ctState (A_CtInfo a)) (default 0 (A_Mark a)) None in
      decodeHeaders e payload
  end.

(** ** No read is out of range *)

Lemma len_cons x b : len (x :: b) = 1 + len b.
Proof. unfold len. cbn [length]. lia. Qed.
Lemma len_app a b : len (a ++ b) = len a + len b.
Proof. unfold len. rewrite length_app. lia. Qed.
Lemma len_be_bytes n v : len (be_bytes n v) = Z.of_nat n.
Proof. unfold len. by rewrite length_be_bytes. Qed.
Lemma len_nonneg b : 0 <= len b.
Proof. unfold len. lia. Qed.

Lemma index_Some b i : 0 <= i < len b → ∃ x, index b i = Some x ∧ x ∈ b.
Proof.
  unfold index, len. intros Hi. rewrite (proj2 (Z.leb_le 0 i)) by lia.
  destruct (lookup_lt_is_Some_2 b (Z.to_nat i) ltac:(lia)) as [x Hx]. exists x. split; [done|]. by eapply list_elem_of_lookup_2.
Qed.
Definition is_octet (x : Z) : Prop := 0 <= x < 256.

Lemma slice_Some b lo hi :
  0 <= lo <= hi → hi <= len b → ∃ s, slice b lo hi = Some s ∧ len s = hi - lo ∧ (Forall is_octet b → Forall is_octet s).
Proof.
  unfold slice, len. intros Hlo Hhi. rewrite !(proj2 (Z.leb_le _ _)) by lia. eexists. split; [done|]. split.
  - rewrite length_take, length_drop. lia.
  - intros HF. by apply Forall_take, Forall_drop.
Qed.
Lemma uint16_Some b i : 0 <= i → i + 2 <= len b → ∃ v, uint16_at b i = Some v.
Proof.
  intros Hi Hb. unfold uint16_at. destruct (slice_Some b i (i + 2) ltac:(lia) Hb) as (s & -> & _). by eexists.
Qed.

(** The next read of the goal succeeds. *)
Ltac read :=
  match goal with
  | |- context [index ?b ?i ≫= _] =>
      let Hx := fresh "Hin" in destruct (index_Some b i ltac:(lia)) as (? & -> & Hx); cbn [mbind option_bind]
  | |- context [uint16_at ?b ?i ≫= _] =>
      destruct (uint16_Some b i ltac:(lia) ltac:(lia)) as (? & ->); cbn [mbind option_bind]
  | |- context [slice ?b ?lo ?hi ≫= _] =>
      let H1 := fresh "Hlen" in let H2 := fresh "Hoct" in
      destruct (slice_Some b lo hi ltac:(lia) ltac:(lia)) as (? & -> & H1 & H2); cbn [mbind option_bind]
  end.

Lemma decodeTransport_safe e proto family b : decodeTransport e proto family b ≠ None.
Proof.
  unfold decodeTransport. repeat case_match; breflect; try done; repeat read; done.
Qed.

Lemma ext_loop_safe fuel e next rest : Forall is_octet rest → ext_loop fuel e next rest ≠ None.
Proof.
  revert next rest; induction fuel as [|fuel IH]; intros next rest Hb; [done|]. cbn [ext_loop]. unfold slice_from.
  case_bool_decide.
  - destruct (Z.ltb_spec (len rest) 8); [done|]. read.
    match goal with H : ?x ∈ rest |- _ => pose proof (proj1 (Forall_forall _ _) Hb x H) as Hx end. unfold is_octet in Hx.
    destruct (Z.ltb_spec (len rest) ((x + 1) * 8)); [done|]. repeat read. auto.
  - destruct (next =? 44); [|apply decodeTransport_safe].
    destruct (Z.ltb_spec (len rest) 8); [done|]. repeat read. case_match; [done|]. repeat read. auto.
Qed.

(** C29: No packet makes the daemon panic.  Whatever bytes a stranger puts into a
    refused packet, every index and every slice the decoder takes is inside
    the payload, through any chain of extension headers, and the loop over
    them ends. *)
Theorem decoding_never_panics a ifname now :
  (∀ b, A_Payload a = Some b → Forall is_octet b) → entryFromAttribute a ifname now ≠ None.
Proof.
  intros Ha. unfold entryFromAttribute. destruct (A_Payload a) as [b|]; [|done]. specialize (Ha b eq_refl).
  destruct (match A_Prefix a with Some p => _ | None => _ end) as [rule feed]. unfold decodeHeaders.
  destruct (Z.eqb_spec (len b) 0); [done|]. pose proof (len_nonneg b). read. case_match; [|case_match; [|done]].
  - unfold decodeIPv4, slice_from. destruct (Z.ltb_spec (len b) 20); [done|]. read.
    match goal with |- context [Z.land ?x 15] => pose proof (Z.land_ones x 4 ltac:(lia)) as Hl;
      pose proof (Z.mod_pos_bound x (2 ^ 4) ltac:(lia)); change (Z.ones 4) with 15 in Hl end.
    destruct (_ || _) eqn:E; [done|]. breflect. repeat read. case_match; [done|]. apply decodeTransport_safe.
  - unfold decodeIPv6, slice_from. destruct (Z.ltb_spec (len b) 40); [done|]. repeat read. apply ext_loop_safe. auto.
Qed.

(** ** The wire

    Packets as RFC 791, 8200, 9293, 768, 792 and 4443 lay them out, as far as
    the decoder's fields go; the rest of each header is arbitrary bytes. *)
Inductive Transport :=
| TTCP (sport dport : Z) (seq_ack_off : list Z) (flags : Z) (rest : list Z)
| TUDP (sport dport : Z) (rest : list Z)
| TICMP (type code : Z) (rest : list Z)
| TOther (b : list Z).

Definition enc_transport (t : Transport) : list Z :=
  match t with
  | TTCP s d x f rest => be_bytes 2 s ++ be_bytes 2 d ++ x ++ f :: rest
  | TUDP s d rest => be_bytes 2 s ++ be_bytes 2 d ++ rest
  | TICMP t c rest => t :: c :: rest
  | TOther b => b
  end.

Definition u16 (x : Z) : Prop := 0 <= x < 65536.
Definition transport_ok (proto family : Z) (t : Transport) : Prop :=
  match t with
  | TTCP s d x f rest => proto = IPPROTO_TCP ∧ u16 s ∧ u16 d ∧ length x = 9%nat ∧ 6 <= len rest
  | TUDP s d rest => proto = IPPROTO_UDP ∧ u16 s ∧ u16 d ∧ 4 <= len rest
  | TICMP _ _ _ => (proto, family) = (IPPROTO_ICMP, 4) ∨ (proto, family) = (IPPROTO_ICMPV6, 6)
  | TOther _ => proto ∉ [IPPROTO_TCP; IPPROTO_UDP; IPPROTO_ICMP; IPPROTO_ICMPV6]
  end.

(** What the entry should say of it. *)
Definition transport_entry (proto family : Z) (t : Transport) (e : PacketLogEntry) : PacketLogEntry :=
  let name := ipProtoName proto family in
  match t with
  | TTCP s d _ f _ => with_transport name s d (tcpFlags f) (ICMP e) e
  | TUDP s d _ => with_transport name s d (TCPFlags e) (ICMP e) e
  | TICMP t c _ => with_transport name (SrcPort e) (DstPort e) (TCPFlags e) (Some (mkPacketICMP t c)) e
  | TOther _ => with_proto name e
  end.

Record IPv4Header := mkIPv4Header {
  v4_tos : Z; v4_len : Z; v4_id : Z; v4_flags : Z; v4_offset : Z; v4_ttl : Z; v4_proto : Z; v4_sum : Z;
  v4_src : Z; v4_dst : Z; v4_options : list Z }.
Definition enc_v4 (h : IPv4Header) : list Z :=
  64 + (5 + len (v4_options h) / 4) :: v4_tos h :: be_bytes 2 (v4_len h) ++ be_bytes 2 (v4_id h) ++
  be_bytes 2 (v4_flags h * 2 ^ 13 + v4_offset h) ++ v4_ttl h :: v4_proto h :: be_bytes 2 (v4_sum h) ++
  be_bytes 4 (v4_src h) ++ be_bytes 4 (v4_dst h) ++ v4_options h.
Definition v4_ok (h : IPv4Header) : Prop :=
  u16 (v4_len h) ∧ 0 <= v4_flags h < 8 ∧ 0 <= v4_offset h < 2 ^ 13 ∧ 0 <= v4_src h < 2 ^ 32 ∧ 0 <= v4_dst h < 2 ^ 32 ∧
  ∃ k, len (v4_options h) = 4 * k ∧ 0 <= k <= 10.

(** An IPv6 extension header: options or routing, with everything after its
    length, or a fragment header with its offset. *)
Inductive Extension :=
| EOptions (kind : Z) (body : list Z)
| EFragment (reserved offset flags : Z) (ident : list Z).

Fixpoint enc_exts (exts : list Extension) (proto : Z) : Z * list Z :=
  match exts with
  | [] => (proto, [])
  | x :: exts =>
      let '(next, b) := enc_exts exts proto in
      match x with
      | EOptions kind body => (kind, next :: (len body + 2) / 8 - 1 :: body ++ b)
      | EFragment r off flags ident => (44, next :: r :: be_bytes 2 (off * 8 + flags) ++ ident ++ b)
      end
  end.
Definition ext_ok (x : Extension) : Prop :=
  match x with
  | EOptions kind body => kind ∈ [0; 43; 60] ∧ ∃ m, len body = 8 * m + 6 ∧ 0 <= m < 256
  | EFragment _ off flags ident => 0 <= off < 2 ^ 13 ∧ 0 <= flags < 8 ∧ length ident = 4%nat
  end.

(** A later fragment has no transport header: the entry names the protocol the
    fragment header does. *)
Fixpoint exts_entry (exts : list Extension) (proto : Z) (t : Transport) (e : PacketLogEntry) : PacketLogEntry :=
  match exts with
  | [] => transport_entry proto 6 t e
  | EOptions _ _ :: exts => exts_entry exts proto t e
  | EFragment _ off _ _ :: exts =>
      if off =? 0 then exts_entry exts proto t e else with_proto (ipProtoName (fst (enc_exts exts proto)) 6) e
  end.

Record IPv6Header := mkIPv6Header { v6_class : Z; v6_label : list Z; v6_payload : Z; v6_hops : Z; v6_src : Z; v6_dst : Z }.
Definition enc_v6 (h : IPv6Header) (next : Z) : list Z :=
  96 + v6_class h :: v6_label h ++ be_bytes 2 (v6_payload h) ++ next :: v6_hops h :: be_bytes 16 (v6_src h) ++ be_bytes 16 (v6_dst h).
Definition v6_ok (h : IPv6Header) : Prop :=
  0 <= v6_class h < 16 ∧ length (v6_label h) = 3%nat ∧ u16 (v6_payload h) ∧ 0 <= v6_src h < 2 ^ 128 ∧ 0 <= v6_dst h < 2 ^ 128.

Inductive Packet :=
| P4 (h : IPv4Header) (t : Transport)
| P6 (h : IPv6Header) (exts : list Extension) (proto : Z) (t : Transport).

Definition wire (p : Packet) : list Z :=
  match p with
  | P4 h t => enc_v4 h ++ enc_transport t
  | P6 h exts proto t => let '(next, b) := enc_exts exts proto in enc_v6 h next ++ b ++ enc_transport t
  end.
Definition packet_ok (p : Packet) : Prop :=
  match p with
  | P4 h t => v4_ok h ∧ (v4_offset h = 0 → transport_ok (v4_proto h) 4 t)
  | P6 h exts proto t =>
      v6_ok h ∧ Forall ext_ok exts ∧ (length exts < 8)%nat ∧ proto ∉ [0; 43; 44; 60] ∧ transport_ok proto 6 t
  end.
Definition packet_entry (p : Packet) (e : PacketLogEntry) : PacketLogEntry :=
  match p with
  | P4 h t =>
      let e := with_ip 4 (v4_len h) (v4_ttl h) (Addr4 (v4_src h)) (Addr4 (v4_dst h)) e in
      if v4_offset h =? 0 then transport_entry (v4_proto h) 4 t e else with_proto (ipProtoName (v4_proto h) 4) e
  | P6 h exts proto t =>
      exts_entry exts proto t
        (with_ip 6 (Z.min (40 + v6_payload h) 65535) (v6_hops h) (Addr6 (v6_src h) "") (Addr6 (v6_dst h) "") e)
  end.

(** ** Reads of an encoding *)

Lemma index_cons x b i : index (x :: b) i = if i =? 0 then Some x else if i <? 0 then None else index b (i - 1).
Proof.
  unfold index. destruct (Z.eqb_spec i 0) as [->|Hn]; [done|]. destruct (Z.ltb_spec i 0).
  - by rewrite (proj2 (Z.leb_gt 0 i)) by lia.
  - rewrite !(proj2 (Z.leb_le _ _)) by lia. by replace (Z.to_nat i) with (S (Z.to_nat (i - 1))) by lia.
Qed.
Lemma index_app a b i : len a <= i → index (a ++ b) i = index b (i - len a).
Proof.
  unfold index, len. intros Hi. rewrite !(proj2 (Z.leb_le _ _)) by lia. rewrite lookup_app_r by lia. f_equal. lia.
Qed.
Lemma slice_cons x b lo hi : 0 < lo → slice (x :: b) lo hi = slice b (lo - 1) (hi - 1).
Proof.
  intros Hlo. unfold slice. rewrite len_cons. replace (hi - 1 - (lo - 1)) with (hi - lo) by lia.
  replace (Z.to_nat lo) with (S (Z.to_nat (lo - 1))) by lia. cbn [drop].
  replace ((0 <=? lo) && (lo <=? hi) && (hi <=? 1 + len b)) with
    ((0 <=? lo - 1) && (lo - 1 <=? hi - 1) && (hi - 1 <=? len b)); [done|].
  rewrite <- !andb_assoc. f_equal; [|f_equal]; apply eq_true_iff_eq; rewrite !Z.leb_le; lia.
Qed.
Lemma slice_app a b lo hi : len a <= lo → slice (a ++ b) lo hi = slice b (lo - len a) (hi - len a).
Proof.
  revert lo hi; induction a as [|x a IH]; intros lo hi Hlo; [by rewrite !Z.sub_0_r|].
  rewrite len_cons in Hlo |- *. cbn [app]. pose proof (len_nonneg a).
  rewrite slice_cons, IH by lia. f_equal; lia.
Qed.
Lemma slice_here a b hi : hi = len a → slice (a ++ b) 0 hi = Some a.
Proof.
  intros ->. unfold slice. rewrite len_app. pose proof (len_nonneg a). pose proof (len_nonneg b).
  rewrite !(proj2 (Z.leb_le _ _)) by lia. cbn [andb]. f_equal. rewrite Z.sub_0_r. change (Z.to_nat 0) with 0%nat.
  rewrite drop_0. unfold len. by rewrite Nat2Z.id, take_app_length.
Qed.
Lemma slice_from_app a b lo : lo = len a → slice_from (a ++ b) lo = Some b.
Proof.
  intros ->. unfold slice_from. rewrite slice_app by lia. rewrite len_app, Z.sub_diag, Z.add_simpl_l.
  rewrite <- (app_nil_r b) at 1. by apply slice_here.
Qed.
Lemma uint16_be b i v a c : u16 v → b = a ++ be_bytes 2 v ++ c → i = len a → uint16_at b i = Some v.
Proof.
  intros Hv -> ->. unfold uint16_at. rewrite slice_app by lia. replace (len a + 2 - len a) with 2 by lia. rewrite Z.sub_diag.
  rewrite slice_here by done. simpl. f_equal. apply be_val_be_bytes. unfold u16 in Hv. simpl. lia.
Qed.

Lemma index_at b i x a c : b = a ++ x :: c → i = len a → index b i = Some x.
Proof. intros -> ->. rewrite index_app, Z.sub_diag by lia. apply index_cons. Qed.

(** ** Decoding an encoding *)

Lemma decodeTransport_enc e proto family t :
  transport_ok proto family t →
  decodeTransport e proto family (enc_transport t) = Some (Some (transport_entry proto family t e)).
Proof.
  destruct t as [s d x f rest|s d rest|ty c rest|b]; cbn [transport_ok enc_transport transport_entry]; unfold decodeTransport.
  - intros (-> & Hs & Hd & Hx & Hr). rewrite Z.eqb_refl. set (b := be_bytes 2 s ++ be_bytes 2 d ++ x ++ f :: rest).
    assert (len b = 14 + len rest) as Hb by (unfold b; rewrite !len_app, !len_be_bytes, len_cons; unfold len; lia).
    rewrite (proj2 (Z.ltb_ge (len b) 20)) by lia.
    rewrite (uint16_be b 0 s [] (be_bytes 2 d ++ x ++ f :: rest)), (uint16_be b 2 d (be_bytes 2 s) (x ++ f :: rest)) by done.
    cbn [mbind option_bind].
    rewrite (index_at b 13 f (be_bytes 2 s ++ be_bytes 2 d ++ x) rest); [done|by unfold b; rewrite <- !app_assoc|].
    rewrite !len_app, !len_be_bytes. unfold len. lia.
  - intros (-> & Hs & Hd & Hr). rewrite Z.eqb_refl. set (b := be_bytes 2 s ++ be_bytes 2 d ++ rest).
    assert (len b = 4 + len rest) as Hb by (unfold b; rewrite !len_app, !len_be_bytes; lia).
    rewrite (proj2 (Z.ltb_ge (len b) 8)) by lia.
    by rewrite (uint16_be b 0 s [] (be_bytes 2 d ++ rest)), (uint16_be b 2 d (be_bytes 2 s) rest).
  - intros H. rewrite !len_cons. pose proof (len_nonneg rest).
    rewrite (proj2 (Z.ltb_ge (1 + (1 + len rest)) 2)) by lia. by destruct H as [[= -> ->]|[= -> ->]].
  - intros H. rewrite !not_elem_of_cons in H. destruct H as (H1 & H2 & H3 & H4 & _).
    by rewrite !(proj2 (Z.eqb_neq proto _)).
Qed.

Lemma flag_bits f o : 0 <= f < 8 → 0 <= o < 2 ^ 13 → Z.land (f * 2 ^ 13 + o) 0x1fff = o ∧ u16 (f * 2 ^ 13 + o).
Proof.
  intros Hf Ho. change 0x1fff with (Z.ones 13). rewrite Z.land_ones by lia.
  rewrite Z.add_comm, Z_mod_plus_full, Z.mod_small by lia. unfold u16. lia.
Qed.
Lemma frag_bits o f : 0 <= f < 8 → 0 <= o < 2 ^ 13 → Z.shiftr (o * 8 + f) 3 = o ∧ u16 (o * 8 + f).
Proof.
  intros Hf Ho. rewrite Z.shiftr_div_pow2 by lia. change (2 ^ 3) with 8.
  rewrite Z.div_add_l, (Z.div_small f) by lia. unfold u16. lia.
Qed.

Lemma slice_be b n v lo hi a c :
  b = a ++ be_bytes n v ++ c → lo = len a → hi = lo + Z.of_nat n → slice b lo hi = Some (be_bytes n v).
Proof.
  intros -> -> ->. rewrite slice_app, Z.sub_diag by lia. apply slice_here. rewrite len_be_bytes. lia.
Qed.


(** The pieces of an encoding, one after the other. *)
Ltac pieces := rewrite <- ?app_assoc; cbn [app]; rewrite <- ?app_assoc; reflexivity.
Ltac lens' := repeat (rewrite len_app || rewrite len_cons || rewrite len_be_bytes); change (len []) with 0; lia.
Ltac lens := repeat (rewrite len_app || rewrite len_cons || rewrite len_be_bytes); unfold len; cbn [length]; lia.

Lemma first_octet opts k : len opts = 4 * k → 0 <= k <= 10 → Z.land (64 + (5 + len opts / 4)) 15 * 4 = 20 + len opts.
Proof.
  intros Hk Hk10. rewrite Hk, (Z.mul_comm 4), Z.div_mul by lia. change 15 with (Z.ones 4). rewrite Z.land_ones by lia.
  change (2 ^ 4) with 16. replace (64 + (5 + k)) with (5 + k + 4 * 16) by lia. rewrite Z_mod_plus_full, Z.mod_small; lia.
Qed.

(** The fields of an IPv4 header, where the decoder reads them. *)
Lemma v4_reads h tr b :
  v4_ok h → b = enc_v4 h ++ tr →
  let w := v4_flags h * 2 ^ 13 + v4_offset h in
  index b 0 = Some (64 + (5 + len (v4_options h) / 4)) ∧ uint16_at b 2 = Some (v4_len h) ∧ uint16_at b 6 = Some w ∧
  index b 8 = Some (v4_ttl h) ∧ index b 9 = Some (v4_proto h) ∧
  slice b 12 16 = Some (be_bytes 4 (v4_src h)) ∧ slice b 16 20 = Some (be_bytes 4 (v4_dst h)).
Proof.
  destruct h as [tos ln id fl off ttl proto sum src dst opts]. unfold v4_ok, enc_v4.
  cbn [v4_tos v4_len v4_id v4_flags v4_offset v4_ttl v4_proto v4_sum v4_src v4_dst v4_options].
  intros (Hln & Hfl & Hoff & _) Eb. destruct (flag_bits fl off Hfl Hoff) as [_ Hu].
  set (w := fl * 2 ^ 13 + off) in *.
  set (first := 64 + (5 + len opts / 4)) in *.
  set (c2 := be_bytes 2 sum ++ be_bytes 4 src ++ be_bytes 4 dst ++ opts ++ tr).
  set (pre := [first; tos] ++ be_bytes 2 ln ++ be_bytes 2 id ++ be_bytes 2 w ++ [ttl; proto] ++ be_bytes 2 sum).
  split_and!.
  - rewrite Eb. apply index_cons.
  - apply (uint16_be b 2 ln [first; tos] (be_bytes 2 id ++ be_bytes 2 w ++ [ttl; proto] ++ c2));
      [done|rewrite Eb; unfold c2; pieces|lens].
  - apply (uint16_be b 6 w ([first; tos] ++ be_bytes 2 ln ++ be_bytes 2 id) ([ttl; proto] ++ c2));
      [done|rewrite Eb; unfold c2; pieces|lens].
  - apply (index_at b 8 ttl ([first; tos] ++ be_bytes 2 ln ++ be_bytes 2 id ++ be_bytes 2 w) (proto :: c2));
      [rewrite Eb; unfold c2; pieces|lens].
  - apply (index_at b 9 proto ([first; tos] ++ be_bytes 2 ln ++ be_bytes 2 id ++ be_bytes 2 w ++ [ttl]) c2);
      [rewrite Eb; unfold c2; pieces|lens].
  - apply (slice_be b 4 src 12 16 pre (be_bytes 4 dst ++ opts ++ tr)); [rewrite Eb; unfold pre; pieces|unfold pre; lens|done].
  - apply (slice_be b 4 dst 16 20 (pre ++ be_bytes 4 src) (opts ++ tr)); [rewrite Eb; unfold pre; pieces|unfold pre; lens|done].
Qed.

Lemma decodeIPv4_enc e h t :
  v4_ok h → (v4_offset h = 0 → transport_ok (v4_proto h) 4 t) →
  decodeIPv4 e (enc_v4 h ++ enc_transport t) = Some (Some (packet_entry (P4 h t) e)).
Proof.
  intros Hok Ht. set (b := enc_v4 h ++ enc_transport t).
  destruct (v4_reads h (enc_transport t) b Hok eq_refl) as (R0 & R2 & R6 & R8 & R9 & R12 & R16).
  destruct Hok as (_ & Hfl & Hoff & Hsrc & Hdst & k & Hk & Hk10).
  destruct (flag_bits _ _ Hfl Hoff) as [Hland _]. pose proof (len_nonneg (v4_options h)).
  assert (len (enc_v4 h) = 20 + len (v4_options h)) as Hhd by (unfold enc_v4; lens).
  assert (len b = 20 + len (v4_options h) + len (enc_transport t)) as Hb by (unfold b; rewrite len_app; lia).
  pose proof (len_nonneg (enc_transport t)).
  unfold decodeIPv4. rewrite (proj2 (Z.ltb_ge (len b) 20)), R0 by lia. cbn [mbind option_bind].
  rewrite (first_octet _ k) by done.
  rewrite (proj2 (Z.ltb_ge (20 + len (v4_options h)) 20)), (proj2 (Z.ltb_ge (len b) (20 + len (v4_options h)))) by lia.
  rewrite R2, R8, R12, R16, R6, R9. cbn [orb mbind option_bind]. rewrite Hland, !be_val_be_bytes by done.
  cbn [packet_entry]. destruct (Z.eqb_spec (v4_offset h) 0); cbn [negb]; [|done].
  unfold b. rewrite slice_from_app by lia. cbn [mbind option_bind]. by apply decodeTransport_enc, Ht.
Qed.

Lemma v6_reads h next tr b :
  v6_ok h → b = enc_v6 h next ++ tr →
  index b 0 = Some (96 + v6_class h) ∧ uint16_at b 4 = Some (v6_payload h) ∧ index b 6 = Some next ∧
  index b 7 = Some (v6_hops h) ∧ slice b 8 24 = Some (be_bytes 16 (v6_src h)) ∧
  slice b 24 40 = Some (be_bytes 16 (v6_dst h)) ∧ slice_from b 40 = Some tr ∧ len b = 40 + len tr.
Proof.
  destruct h as [class label payload hops src dst]. unfold v6_ok, enc_v6.
  cbn [v6_class v6_label v6_payload v6_hops v6_src v6_dst]. intros (_ & Hl & Hp & _) Eb.
  assert (len label = 3) as Hlab by (unfold len; lia).
  assert (len (96 + class :: label ++ be_bytes 2 payload ++ next :: hops :: be_bytes 16 src ++ be_bytes 16 dst) = 40) as Hhd
    by lens'.
  set (pre := (96 + class :: label) ++ be_bytes 2 payload ++ [next; hops]).
  assert (len pre = 8) as Hpre by (unfold pre; lens').
  split_and!.
  - rewrite Eb. apply index_cons.
  - apply (uint16_be b 4 payload (96 + class :: label) (next :: hops :: be_bytes 16 src ++ be_bytes 16 dst ++ tr));
      [done|rewrite Eb; pieces|lens'].
  - apply (index_at b 6 next ((96 + class :: label) ++ be_bytes 2 payload) (hops :: be_bytes 16 src ++ be_bytes 16 dst ++ tr));
      [rewrite Eb; pieces|lens'].
  - apply (index_at b 7 hops ((96 + class :: label) ++ be_bytes 2 payload ++ [next]) (be_bytes 16 src ++ be_bytes 16 dst ++ tr));
      [rewrite Eb; pieces|lens'].
  - apply (slice_be b 16 src 8 24 pre (be_bytes 16 dst ++ tr)); [rewrite Eb; unfold pre; pieces|lia|done].
  - apply (slice_be b 16 dst 24 40 (pre ++ be_bytes 16 src) tr);
      [rewrite Eb; unfold pre; pieces|lens'|done].
  - rewrite Eb. by apply slice_from_app.
  - rewrite Eb, len_app. lia.
Qed.

Lemma ext_loop_enc fuel exts proto t e next bs :
  enc_exts exts proto = (next, bs) → Forall ext_ok exts → (length exts < fuel)%nat → proto ∉ [0; 43; 44; 60] →
  transport_ok proto 6 t → ext_loop fuel e next (bs ++ enc_transport t) = Some (Some (exts_entry exts proto t e)).
Proof.
  intros He Hok Hf Hp Ht. revert fuel next bs He Hf. set (tr := enc_transport t).
  induction exts as [|x exts IH]; intros [|fuel] next bs He Hf; simpl in Hf; try lia.
  { injection He as <- <-. rewrite !not_elem_of_cons in Hp. destruct Hp as (? & ? & ? & ? & _). cbn [ext_loop exts_entry app].
    rewrite bool_decide_eq_false_2 by (rewrite !elem_of_cons, elem_of_nil; naive_solver).
    rewrite (proj2 (Z.eqb_neq proto 44)) by done. by apply decodeTransport_enc. }
  apply Forall_cons in Hok as [Hx Hok]. specialize (IH Hok fuel). cbn [enc_exts exts_entry] in *.
  destruct (enc_exts exts proto) as [nx b'] eqn:Ee. specialize (IH nx b' eq_refl ltac:(lia)).
  pose proof (len_nonneg b'). pose proof (len_nonneg tr). cbn [ext_loop].
  destruct x as [kind body|r off flags ident]; injection He as <- <-.
  - destruct Hx as (Hk & m & Hm & Hm256). rewrite bool_decide_eq_true_2 by done.
    replace ((len body + 2) / 8 - 1) with m by (rewrite Hm, (Z.mul_comm 8), <- Z.add_assoc, (Z.div_add_l m 8) by lia; change ((6 + 2) / 8) with 1; lia).
    set (rest := _ ++ tr). assert (rest = (nx :: m :: body) ++ (b' ++ tr)) as Er by (unfold rest; pieces). clearbody rest.
    assert (len rest = (m + 1) * 8 + (len b' + len tr)) as Hr by (rewrite Er; lens').
    rewrite (proj2 (Z.ltb_ge (len rest) 8)) by lia.
    rewrite (index_at rest 1 m [nx] (body ++ b' ++ tr)) by (rewrite ?Er; done). cbn [mbind option_bind].
    rewrite (proj2 (Z.ltb_ge (len rest) ((m + 1) * 8))) by lia.
    rewrite (index_at rest 0 nx [] (m :: body ++ b' ++ tr)) by (rewrite ?Er; done). cbn [mbind option_bind].
    rewrite Er, slice_from_app by lens'. cbn [mbind option_bind]. apply IH.
  - destruct Hx as (Hoff & Hfl & Hid). destruct (frag_bits off flags Hfl Hoff) as [Hsh Hu].
    rewrite bool_decide_eq_false_2 by (rewrite !elem_of_cons, elem_of_nil; lia). cbn [Z.eqb Pos.eqb].
    set (w := off * 8 + flags) in *. set (rest := _ ++ tr).
    assert (rest = (nx :: r :: be_bytes 2 w ++ ident) ++ (b' ++ tr)) as Er by (unfold rest; pieces). clearbody rest.
    assert (len ident = 4) as Hid' by (unfold len; lia).
    assert (len rest = 8 + (len b' + len tr)) as Hr by (rewrite Er; lens').
    rewrite (proj2 (Z.ltb_ge (len rest) 8)) by lia.
    rewrite (uint16_be rest 2 w [nx; r] (ident ++ b' ++ tr)) by (done || (rewrite Er; pieces)). cbn [mbind option_bind].
    rewrite (index_at rest 0 nx [] (r :: be_bytes 2 w ++ ident ++ b' ++ tr)) by (done || (rewrite Er; pieces)).
    cbn [mbind option_bind]. rewrite Hsh. destruct (Z.eqb_spec off 0); cbn [negb fst]; [|done].
    rewrite Er, slice_from_app by lens'. cbn [mbind option_bind]. apply IH.
Qed.

(** C30: The decoder reads what the sender wrote.  From the bytes of any packet,
    IPv4 with any options or IPv6 with up to seven extension headers, whole or
    a fragment, the entry has the packet's addresses, length, hop limit and
    protocol and, where the packet has a transport header, its ports, flags or
    ICMP type; a later fragment gets no port. *)
Theorem decode_reads_the_packet e p :
  packet_ok p → decodeHeaders e (wire p) = Some (Some (packet_entry p e)).
Proof.
  destruct p as [h t|h exts proto t]; cbn [packet_ok wire]; unfold decodeHeaders.
  - intros [Hok Ht]. set (b := enc_v4 h ++ enc_transport t).
    destruct (v4_reads h (enc_transport t) b Hok eq_refl) as (R0 & _).
    rewrite (proj2 (Z.eqb_neq (len b) 0)), R0 by (unfold b, enc_v4; rewrite <- app_comm_cons, len_cons; pose proof (len_nonneg (enc_transport t)); lens).
    pose proof Hok as Hok'. cbn [mbind option_bind].
    assert (Z.shiftr (64 + (5 + len (v4_options h) / 4)) 4 = 4) as ->.
    { destruct Hok' as (_ & _ & _ & _ & _ & k & Hk & Hk10). rewrite Hk, (Z.mul_comm 4), Z.div_mul by lia.
      rewrite Z.shiftr_div_pow2 by lia. symmetry. apply (Z.div_unique_pos _ _ _ (5 + k)); lia. }
    by apply decodeIPv4_enc.
  - intros (Hok & Hexts & Hn & Hp & Ht). destruct (enc_exts exts proto) as [next bs] eqn:Ee.
    set (b := enc_v6 h next ++ bs ++ enc_transport t).
    destruct (v6_reads h next _ b Hok eq_refl) as (R0 & R4 & R6 & R7 & R8 & R24 & R40 & Hb).
    pose proof (len_nonneg (bs ++ enc_transport t)).
    rewrite (proj2 (Z.eqb_neq (len b) 0)), R0 by lia. cbn [mbind option_bind].
    destruct Hok as (Hc & _ & _ & Hsrc & Hdst).
    assert (Z.shiftr (96 + v6_class h) 4 = 6) as -> by (rewrite Z.shiftr_div_pow2 by lia; symmetry; apply (Z.div_unique_pos _ _ _ (v6_class h)); lia).
    cbn [Z.eqb Pos.eqb]. unfold decodeIPv6. rewrite (proj2 (Z.ltb_ge (len b) 40)), R4, R7, R8, R24, R6, R40 by lia.
    cbn [mbind option_bind packet_entry]. unfold AddrFrom16. rewrite !be_val_be_bytes by done.
    apply (ext_loop_enc 8 exts proto t _ next bs); auto with lia.
Qed.

(** A TCP SYN to port 22 over IPv6, behind hop-by-hop options and in the first
    fragment. *)
Definition sample_packet : Packet :=
  P6 (mkIPv6Header 0 [0; 0; 0] 48 64 0x20010db8000000000000000000000001 0x20010db8000000000000000000000002)
     [EOptions 0 [1; 4; 0; 0; 0; 0]; EFragment 0 0 1 [0; 0; 0; 7]] 6
     (TTCP 50000 22 [0; 0; 0; 1; 0; 0; 0; 0; 0x50] 2 [0; 0; 0; 0; 0; 0]).

Definition sample_message (b : list Z) : Attribute := mkAttribute (Some "easywall drop ") (Some b) None (Some 2) (Some 1) None (Some 2).

Example sample_entry :
  entryFromAttribute (sample_message (wire sample_packet)) (λ _, "eth0") 7 =
  Some (Some (mkPacketLogEntry 0 7 "drop" "" "input" "eth0" 6 (Some (Addr6 0x20010db8000000000000000000000001 ""))
    (Some (Addr6 0x20010db8000000000000000000000002 "")) "tcp" 50000 22 "SYN" 64 88 "new" 0 None)).
Proof. vm_compute. reflexivity. Qed.

Lemma decode_reads_the_packet_witness :
  decodeHeaders (mkPacketLogEntry 0 0 "drop" "" "input" "" 0 None None "" 0 0 "" 0 0 "" 0 None) (wire sample_packet) =
  Some (Some (packet_entry sample_packet (mkPacketLogEntry 0 0 "drop" "" "input" "" 0 None None "" 0 0 "" 0 0 "" 0 None))).
Proof.
  apply decode_reads_the_packet. unfold packet_ok, sample_packet, v6_ok, transport_ok, u16, len.
  assert (Forall ext_ok [EOptions 0 [1; 4; 0; 0; 0; 0]; EFragment 0 0 1 [0; 0; 0; 7]]) as He.
  { constructor; [split; [by left|exists 0; unfold len; cbn; lia]|]. constructor; [|constructor]. split_and!; try lia; done. }
  assert (6 ∉ [0; 43; 44; 60]) as Hp by (rewrite !not_elem_of_cons; split_and!; [lia..|apply not_elem_of_nil]).
  split_and!; try exact He; try exact Hp; cbn; try lia; done.
Defined.

Lemma octets_ok b : forallb (λ x, (0 <=? x) && (x <? 256)) b = true → Forall is_octet b.
Proof.
  intros H. apply Forall_forall. intros x Hx. rewrite forallb_forall in H. apply list_elem_of_In, H in Hx.
  unfold is_octet. breflect. lia.
Qed.

(** An extension header that claims more than was copied. *)
Lemma decoding_never_panics_witness :
  let b := take 52 (wire sample_packet) ++ [255; 255] in
  Forall is_octet b ∧ entryFromAttribute (sample_message b) (λ _, "eth0") 7 ≠ None.
Proof.
  assert (Forall is_octet (take 52 (wire sample_packet) ++ [255; 255])) as H.
  { by apply octets_ok. }
  split; [done|]. apply (decoding_never_panics (sample_message _)). intros b [= <-]. done.
Defined.
