(* ===== verification/PacketRing.v ===== *)
(** * The packet log's ring and its file

    The collector of [src/internal/core/packetlog.go]: the ring of the most
    recent refused packets, the query that reads it, the file it is replayed
    from, and the hook that feeds it ([PacketDecode] reads the packet).

    The ring is a buffer of fixed length written round and round; the file is
    its lines, a line being the entry [encoding/json] reads back from it or
    [None] for one it does not.  The outcome of each file operation is an
    argument. *)
From S2P Require Import Prelude GoStrings GoNet NetBytes Models FeedIDs Validate Reach PacketLog PacketDecode.

Local Open Scope Z_scope.

(** ** The state *)

Record spillFile := mkSpill { sp_lines : Z; sp_limit : Z }.

Record PacketLog := mkPacketLog {
  pl_buf : list PacketLogEntry;
  pl_next : Z; pl_n : Z; pl_seq : Z; pl_since : Z; pl_discarded : Z; pl_lost : Z;
  pl_listening : bool; pl_everListened : bool; pl_group : Z; pl_reason : string;
  pl_spill : option spillFile }.

(** packets.log: its lines, or no file. *)
Definition spill_lines : Type := option (list (option PacketLogEntry)).

Definition zero_entry : PacketLogEntry := mkPacketLogEntry 0 0 "" "" "" "" 0 None None "" 0 0 "" 0 0 "" 0 None.

Definition uint64 (x : Z) : Z := x mod 2 ^ 64.

Definition NewPacketLog (capacity now : Z) : PacketLog :=
  mkPacketLog (replicate (Z.to_nat (Z.max capacity 1)) zero_entry) 0 0 0 now 0 0 false false 0 "" None.

(** ** The ring *)

Definition cap (p : PacketLog) : Z := Z.of_nat (length (pl_buf p)).

Definition with_ring buf next n (p : PacketLog) : PacketLog :=
  mkPacketLog buf next n (pl_seq p) (pl_since p) (pl_discarded p) (pl_lost p) (pl_listening p) (pl_everListened p)
    (pl_group p) (pl_reason p) (pl_spill p).
Definition with_seq seq (p : PacketLog) : PacketLog :=
  mkPacketLog (pl_buf p) (pl_next p) (pl_n p) seq (pl_since p) (pl_discarded p) (pl_lost p) (pl_listening p)
    (pl_everListened p) (pl_group p) (pl_reason p) (pl_spill p).
Definition with_since since (p : PacketLog) : PacketLog :=
  mkPacketLog (pl_buf p) (pl_next p) (pl_n p) (pl_seq p) since (pl_discarded p) (pl_lost p) (pl_listening p)
    (pl_everListened p) (pl_group p) (pl_reason p) (pl_spill p).
Definition with_spill sp (p : PacketLog) : PacketLog :=
  mkPacketLog (pl_buf p) (pl_next p) (pl_n p) (pl_seq p) (pl_since p) (pl_discarded p) (pl_lost p) (pl_listening p)
    (pl_everListened p) (pl_group p) (pl_reason p) sp.
Definition countDiscarded (p : PacketLog) : PacketLog :=
  mkPacketLog (pl_buf p) (pl_next p) (pl_n p) (pl_seq p) (pl_since p) (uint64 (pl_discarded p + 1)) (pl_lost p) (pl_listening p)
    (pl_everListened p) (pl_group p) (pl_reason p) (pl_spill p).
Definition countLost (p : PacketLog) : PacketLog :=
  mkPacketLog (pl_buf p) (pl_next p) (pl_n p) (pl_seq p) (pl_since p) (pl_discarded p) (uint64 (pl_lost p + 1)) (pl_listening p)
    (pl_everListened p) (pl_group p) (pl_reason p) (pl_spill p).

(** [setListening]: the error of the bind, or none. *)
Definition setListening (group : Z) (err : option string) (p : PacketLog) : PacketLog :=
  mkPacketLog (pl_buf p) (pl_next p) (pl_n p) (pl_seq p) (pl_since p) (pl_discarded p) (pl_lost p)
    (bool_decide (err = None)) (pl_everListened p || bool_decide (err = None)) group (default "" err) (pl_spill p).

Definition push (e : PacketLogEntry) (p : PacketLog) : PacketLog :=
  with_ring (<[Z.to_nat (pl_next p) := e]> (pl_buf p)) (Z.rem (pl_next p + 1) (cap p))
    (if pl_n p <? cap p then pl_n p + 1 else pl_n p) p.

(** [at]: the [i]-th newest.  Go's [%] keeps the sign. *)
Definition at_pos (p : PacketLog) (i : Z) : Z := Z.rem (Z.rem (pl_next p - 1 - i) (cap p) + cap p) (cap p).
Definition at_ (p : PacketLog) (i : Z) : PacketLogEntry := nth (Z.to_nat (at_pos p i)) (pl_buf p) zero_entry.

Definition oldestFirst (p : PacketLog) : list PacketLogEntry := map (at_ p) (rev (seqZ 0 (pl_n p))).

(** ** The query *)

Record PacketLogResult := mkPacketLogResult {
  pr_Entries : list PacketLogEntry; pr_Matched : Z; pr_Held : Z;
  pr_Listening : bool; pr_Stopped : bool; pr_Group : Z; pr_Reason : string; pr_Since : Z;
  pr_Discarded : Z; pr_Lost : Z; pr_Persisted : bool }.

(** The loop: what was shown so far, latest last, and how many matched. *)
Definition query_step (matches : PacketLogEntry → bool) (limit : Z) (p : PacketLog) (acc : list PacketLogEntry * Z) (i : Z) :
    list PacketLogEntry * Z :=
  let e := at_ p i in
  if matches e
  then (if Z.of_nat (length (fst acc)) <? limit then fst acc ++ [e] else fst acc, snd acc + 1)
  else acc.

Definition Query (f : PacketLogFilter) (p : PacketLog) : result FilterError PacketLogResult :=
  match Matcher f with
  | Err e => Err e
  | Ok m =>
  let '(entries, matched) := foldl (query_step m (EffectiveLimit f) p) ([], 0) (seqZ 0 (pl_n p)) in
  Ok (mkPacketLogResult entries matched (pl_n p) (pl_listening p) (negb (pl_listening p) && pl_everListened p)
        (pl_group p) (pl_reason p) (pl_since p) (pl_discarded p) (pl_lost p) (bool_decide (is_Some (pl_spill p))))
  end.

(** ** The file *)

(** [rewrite]: it fails before the rename, after it (the reopening), or not. *)
Inductive rewrite_io := RwKept | RwReplaced | RwOk.
Definition rewrite (io : rewrite_io) (entries : list PacketLogEntry) (f : spill_lines) : bool * spill_lines :=
  match io with
  | RwKept => (false, f)
  | RwReplaced => (false, Some (map Some entries))
  | RwOk => (true, Some (map Some entries))
  end.

(** The append: written, or failed leaving nothing, or a part of the line,
    which may be all of it but its end. *)
Inductive append_io := ApOk | ApTorn (whole : bool) | ApNothing.

Definition spill_append (wio : append_io) (rio : rewrite_io) (e : PacketLogEntry) (ring : list PacketLogEntry) (sp : spillFile)
    (f : spill_lines) : option spillFile * spill_lines :=
  match wio with
  | ApNothing => (None, f)
  | ApTorn whole => (None, Some (default [] f ++ [if whole then Some e else None]))
  | ApOk =>
      let f := Some (default [] f ++ [Some e]) in
      let sp := mkSpill (sp_lines sp + 1) (sp_limit sp) in
      if sp_limit sp <? sp_lines sp then
        let '(ok, f) := rewrite rio ring f in
        (if ok then Some (mkSpill (Z.of_nat (length ring)) (sp_limit sp)) else None, f)
      else (Some sp, f)
  end.

Definition set_seq (seq : Z) (e : PacketLogEntry) : PacketLogEntry :=
  mkPacketLogEntry seq (Time_ e) (Rule e) (Feed e) (Hook e) (InDev e) (Family e) (Src e) (Dst e) (Proto e) (SrcPort e) (DstPort e)
    (TCPFlags e) (TTL e) (Length e) (CtState e) (Mark e) (ICMP e).
Definition set_rule (rule : string) (e : PacketLogEntry) : PacketLogEntry :=
  mkPacketLogEntry (Seq e) (Time_ e) rule (Feed e) (Hook e) (InDev e) (Family e) (Src e) (Dst e) (Proto e) (SrcPort e) (DstPort e)
    (TCPFlags e) (TTL e) (Length e) (CtState e) (Mark e) (ICMP e).

Definition Add (wio : append_io) (rio : rewrite_io) (e : PacketLogEntry) (p : PacketLog) (f : spill_lines) : PacketLog * spill_lines :=
  let seq := uint64 (pl_seq p + 1) in
  let e := set_seq seq e in
  let p := push e (with_seq seq p) in
  match pl_spill p with
  | None => (p, f)
  | Some sp => let '(sp, f) := spill_append wio rio e (oldestFirst p) sp f in (with_spill sp p, f)
  end.

(** One line of the replay. *)
Definition replay_line (p : PacketLog) (l : option PacketLogEntry) : PacketLog :=
  match l with
  | None => countDiscarded p
  | Some e =>
      let p := push (set_rule (CurrentListName (Rule e)) e) p in
      with_seq (Z.max (pl_seq p) (Seq e)) p
  end.

(** The open and the scan: the file can be read, is not there, or cannot be
    read: not opened, or only its first [n] lines. *)
Inductive replay_io := RdOk | RdOpenFails | RdStops (n : nat).

(** The end of [Persist], once the lines have been read. *)
Definition persist_replayed (rw : rewrite_io) (p : PacketLog) (f : spill_lines) : bool * PacketLog * spill_lines :=
  let p := if bool_decide (is_Some f) && (0 <? pl_n p) then with_since (Time_ (at_ p (pl_n p - 1))) p else p in
  let '(ok, f) := rewrite rw (oldestFirst p) f in
  if ok then (true, with_spill (Some (mkSpill (Z.of_nat (length (oldestFirst p))) (2 * cap p))) p, f) else (false, p, f).

Definition Persist (rd : replay_io) (rw : rewrite_io) (p : PacketLog) (f : spill_lines) : bool * PacketLog * spill_lines :=
  match f, rd with
  | Some ls, RdStops n => (false, foldl replay_line p (take n ls), f)
  | Some _, RdOpenFails => (false, p, f)
  | _, _ => persist_replayed rw (foldl replay_line p (default [] f)) f
  end.

(** ** Messages *)

(** [hook]: [None] is a panic. *)
Definition hook (a : Attribute) (ifname : Z → string) (now : Z) (wio : append_io) (rio : rewrite_io) (p : PacketLog)
    (f : spill_lines) : option (PacketLog * spill_lines) :=
  match entryFromAttribute a ifname now with
  | None => None
  | Some None => Some (countDiscarded p, f)
  | Some (Some e) => Some (Add wio rio e p f)
  end.

(** [onError]: an overrun is counted and the reading goes on. *)
Definition onError (enobufs : bool) (err : string) (p : PacketLog) : bool * PacketLog :=
  if enobufs then (true, countLost p) else (false, setListening (pl_group p) (Some err) p).

Inductive pl_event :=
| PMessage (a : Attribute) (ifname : Z → string) (now : Z) (wio : append_io) (rio : rewrite_io)
| PError (enobufs : bool) (err : string)
| PListen (group : Z) (err : option string).

(** A panic ends the process; the run stays where it was. *)
Definition pl_step (st : PacketLog * spill_lines) (x : pl_event) : PacketLog * spill_lines :=
  let '(p, f) := st in
  match x with
  | PMessage a ifname now wio rio => default (p, f) (hook a ifname now wio rio p f)
  | PError enobufs err => ((onError enobufs err p).2, f)
  | PListen group err => (setListening group err p, f)
  end.

(** A start with persistence. *)
Definition start (capacity now : Z) (rd : replay_io) (rw : rewrite_io) (f : spill_lines) : bool * PacketLog * spill_lines :=
  Persist rd rw (NewPacketLog capacity now) f.

(** ** The ring is a bounded list, newest first *)

Definition newest (p : PacketLog) : list PacketLogEntry := map (at_ p) (seqZ 0 (pl_n p)).

Lemma oldestFirst_rev p : oldestFirst p = rev (newest p).
Proof. unfold oldestFirst, newest. by rewrite map_rev. Qed.

Record ring_ok (p : PacketLog) : Prop := {
  ro_cap : 0 < cap p; ro_next : 0 <= pl_next p < cap p; ro_n : 0 <= pl_n p <= cap p }.

Lemma length_newest p : ring_ok p → Z.of_nat (length (newest p)) = pl_n p.
Proof. intros [_ _ Hn]. unfold newest. rewrite length_map, length_seqZ. lia. Qed.

Lemma at_pos_mod p i : ring_ok p → at_pos p i = (pl_next p - 1 - i) mod cap p.
Proof.
  intros [Hc _ _]. unfold at_pos. set (x := pl_next p - 1 - i). pose proof (Z.rem_bound_abs x (cap p) ltac:(lia)).
  rewrite Z.rem_mod_nonneg by lia. rewrite <- (Z.mul_1_l (cap p)) at 2. rewrite Z_mod_plus_full.
  rewrite (Z.quot_rem' x (cap p)) at 2. rewrite Z.add_comm, Z.mul_comm. by rewrite Z_mod_plus_full.
Qed.

Lemma nth_insert (buf : list PacketLogEntry) i j e :
  (i < length buf)%nat → nth j (<[i := e]> buf) zero_entry = if decide (j = i) then e else nth j buf zero_entry.
Proof.
  intros Hi. rewrite !nth_lookup. case_decide as Hd.
  - subst. by rewrite list_lookup_insert_eq.
  - by rewrite list_lookup_insert_ne.
Qed.

Lemma push_ok e p : ring_ok p → ring_ok (push e p) ∧ cap (push e p) = cap p.
Proof.
  intros [Hc Hx Hn]. assert (cap (push e p) = cap p) as Hcap by (unfold cap, push, with_ring; simpl; by rewrite length_insert).
  split; [|done]. constructor; rewrite Hcap; [done| |].
  - simpl. rewrite Z.rem_mod_nonneg by lia. apply Z.mod_pos_bound. lia.
  - simpl. destruct (Z.ltb_spec (pl_n p) (cap p)); lia.
Qed.

Lemma at_push e p i : ring_ok p → 0 <= i < cap p → at_ (push e p) i = if i =? 0 then e else at_ p (i - 1).
Proof.
  intros HR Hi. destruct (push_ok e p HR) as [HR' Hcap]. unfold at_. rewrite !at_pos_mod by done. rewrite Hcap.
  destruct HR as [Hc Hx Hn]. cbn [push with_ring pl_next pl_buf].
  replace ((Z.rem (pl_next p + 1) (cap p) - 1 - i) mod cap p) with ((pl_next p - i) mod cap p).
  2:{ rewrite Z.rem_mod_nonneg by lia. rewrite <- Z.sub_add_distr, Zminus_mod_idemp_l. f_equal. lia. }
  assert (0 <= (pl_next p - i) mod cap p < cap p) as Hb by (apply Z.mod_pos_bound; lia).
  rewrite nth_insert by (unfold cap in *; lia). destruct (Z.eqb_spec i 0) as [->|Hi0].
  - rewrite Z.sub_0_r, Z.mod_small by lia. by rewrite decide_True.
  - replace (pl_next p - 1 - (i - 1)) with (pl_next p - i) by lia. rewrite decide_False; [done|].
    intros HE. assert ((pl_next p - i) mod cap p = pl_next p) as HE' by lia.
    pose proof (Z.div_mod (pl_next p - i) (cap p) ltac:(lia)) as HD. rewrite HE' in HD.
    set (q := (pl_next p - i) / cap p) in HD. destruct (Z.le_gt_cases 0 q); nia.
Qed.

Lemma take_map_seqZ (g : Z → PacketLogEntry) k n :
  0 <= k → 0 <= n → take (Z.to_nat k) (map g (seqZ 0 n)) = map g (seqZ 0 (Z.min k n)).
Proof.
  intros Hk Hn. destruct (Z.le_ge_cases k n).
  - rewrite Z.min_l by lia. replace n with (k + (n - k)) by lia. rewrite seqZ_app, map_app by lia.
    rewrite take_app_length'; [done|]. rewrite length_map, length_seqZ. lia.
  - rewrite Z.min_r by lia. apply take_ge. rewrite length_map, length_seqZ. lia.
Qed.

(** Writing an entry over the oldest is putting it in front and cutting. *)
Lemma newest_push e p : ring_ok p → newest (push e p) = take (Z.to_nat (cap p)) (e :: newest p).
Proof.
  intros HR. pose proof HR as [Hc Hx Hn]. unfold newest.
  set (m := if pl_n p <? cap p then pl_n p + 1 else pl_n p). change (pl_n (push e p)) with m.
  assert (m - 1 = Z.min (cap p - 1) (pl_n p)) as Hm by (unfold m; destruct (Z.ltb_spec (pl_n p) (cap p)); lia).
  replace (Z.to_nat (cap p)) with (S (Z.to_nat (cap p - 1))) by lia. cbn [take].
  rewrite seqZ_cons by lia. cbn [map]. rewrite at_push by (done || lia). f_equal.
  rewrite take_map_seqZ by lia. replace (Z.pred m) with (m - 1) by lia. rewrite Hm.
  replace (Z.succ 0) with (1 + 0) by lia. rewrite <- fmap_add_seqZ.
  change (Z.add 1 <$> ?l) with (map (Z.add 1) l). rewrite map_map.
  apply map_ext_in. intros i Hi. apply list_elem_of_In, elem_of_seqZ in Hi. rewrite at_push by (done || lia).
  destruct (Z.eqb_spec (1 + i) 0); [lia|]. f_equal. lia.
Qed.

Lemma take_take_cons {A} k (x : A) l : take k (x :: take k l) = take k (x :: l).
Proof. destruct k as [|k]; [done|]. cbn [take]. f_equal. rewrite take_take. f_equal. lia. Qed.

(** ** The query *)

Lemma query_fold (m : PacketLogEntry → bool) limit (l acc : list PacketLogEntry) cnt :
  Z.of_nat (length acc) <= Z.max 0 limit →
  foldl (λ (acc : list PacketLogEntry * Z) e, if m e then (if Z.of_nat (length (fst acc)) <? limit then fst acc ++ [e] else fst acc, snd acc + 1) else acc)
    (acc, cnt) l =
  (take (Z.to_nat limit) (acc ++ filter (λ e, m e = true) l), cnt + Z.of_nat (length (filter (λ e, m e = true) l))).
Proof.
  revert acc cnt; induction l as [|e l IH]; intros acc cnt Hl; cbn [foldl].
  - rewrite filter_nil, app_nil_r, take_ge by lia. cbn [length]. f_equal. lia.
  - rewrite filter_cons. destruct (m e) eqn:Em; [rewrite decide_True by done|rewrite decide_False by done; by apply IH].
    cbn [fst snd]. destruct (Z.ltb_spec (Z.of_nat (length acc)) limit).
    + rewrite IH by (rewrite length_app; cbn [length]; lia). rewrite <- app_assoc. cbn [app length]. f_equal. lia.
    + rewrite IH by lia. cbn [length]. f_equal; [|lia]. rewrite !take_app_ge by lia.
      replace (Z.to_nat limit - length acc)%nat with 0%nat by lia. done.
Qed.

Lemma foldl_map' {A B C} (g : A → B) (h : C → B → C) l c : foldl h c (map g l) = foldl (λ c x, h c (g x)) c l.
Proof. revert c; induction l as [|x l IH]; intros c; [done|]. apply IH. Qed.


Lemma Query_spec flt p m :
  ring_ok p → Matcher flt = Ok m →
  ∃ r, Query flt p = Ok r ∧
    pr_Entries r = take (Z.to_nat (EffectiveLimit flt)) (filter (λ e, m e = true) (newest p)) ∧
    pr_Matched r = Z.of_nat (length (filter (λ e, m e = true) (newest p))) ∧
    pr_Held r = Z.of_nat (length (newest p)) ∧ pr_Persisted r = bool_decide (is_Some (pl_spill p)).
Proof.
  intros HR Hm. unfold Query. rewrite Hm.
  pose proof (query_fold m (EffectiveLimit flt) (newest p) [] 0 ltac:(cbn [length]; lia)) as HF.
  unfold newest in HF at 1. rewrite foldl_map' in HF. cbn [app] in HF. unfold query_step. rewrite HF.
  eexists. split; [done|]. cbn [pr_Entries pr_Matched pr_Held pr_Persisted]. rewrite length_newest by done. split_and!; done.
Qed.

(** ** The entries that were read, however many the ring holds *)

Definition seen_step (st : Z * list PacketLogEntry) (x : pl_event) : Z * list PacketLogEntry :=
  match x with
  | PMessage a ifname now _ _ =>
      match entryFromAttribute a ifname now with
      | Some (Some e) => (uint64 (fst st + 1), set_seq (uint64 (fst st + 1)) e :: snd st)
      | _ => st
      end
  | _ => st
  end.

Lemma Add_newest wio rio e p f :
  ring_ok p →
  let '(p', f') := Add wio rio e p f in
  ring_ok p' ∧ cap p' = cap p ∧ pl_seq p' = uint64 (pl_seq p + 1) ∧
  newest p' = take (Z.to_nat (cap p)) (set_seq (uint64 (pl_seq p + 1)) e :: newest p).
Proof.
  intros HR. unfold Add. set (p1 := with_seq _ p).
  assert (ring_ok p1) as HR1 by (destruct HR; by constructor).
  destruct (push_ok (set_seq (uint64 (pl_seq p + 1)) e) p1 HR1) as [HR2 Hcap].
  pose proof (newest_push (set_seq (uint64 (pl_seq p + 1)) e) p1 HR1) as HN.
  set (p2 := push _ p1) in *. change (newest p1) with (newest p) in HN. change (cap p1) with (cap p) in *.
  destruct (pl_spill p2) as [sp|]; [destruct (spill_append _ _ _ _ sp f) as [sp' f']|]; split_and!; try done.
  destruct HR2. by constructor.
Qed.

Lemma step_newest x p f :
  ring_ok p →
  let '(p', _) := pl_step (p, f) x in
  ring_ok p' ∧ cap p' = cap p ∧
  ∀ all, newest p = take (Z.to_nat (cap p)) all →
    let st := seen_step (pl_seq p, all) x in pl_seq p' = fst st ∧ newest p' = take (Z.to_nat (cap p)) (snd st).
Proof.
  intros HR. destruct x as [a ifname now wio rio|enobufs err|group err]; cbn [pl_step seen_step].
  - unfold hook. destruct (entryFromAttribute a ifname now) as [[e|]|]; cbn [default from_option id].
    + pose proof (Add_newest wio rio e p f HR) as HA. destruct (Add wio rio e p f) as [p' f'].
      destruct HA as (HR' & Hc & Hs & HN). split; [done|]. split; [done|]. intros all Hall. split; [done|].
      cbn [fst snd]. by rewrite HN, Hall, take_take_cons.
    + split; [destruct HR; by constructor|]. done.
    + done.
  - unfold onError. destruct enobufs; cbn [snd]; (split; [destruct HR; by constructor|]); done.
  - split; [destruct HR; by constructor|]. done.
Qed.

Lemma run_newest evs p f :
  ring_ok p →
  let '(p', _) := foldl pl_step (p, f) evs in
  ring_ok p' ∧ cap p' = cap p ∧
  ∀ all, newest p = take (Z.to_nat (cap p)) all →
    let st := foldl seen_step (pl_seq p, all) evs in pl_seq p' = fst st ∧ newest p' = take (Z.to_nat (cap p)) (snd st).
Proof.
  revert p f; induction evs as [|x evs IH]; intros p f HR; [done|]. cbn [foldl].
  pose proof (step_newest x p f HR) as HS. destruct (pl_step (p, f) x) as [p1 f1]. destruct HS as (HR1 & Hc1 & HS).
  specialize (IH p1 f1 HR1). destruct (foldl pl_step (p1, f1) evs) as [p2 f2]. destruct IH as (HR2 & Hc2 & IH).
  split; [done|]. split; [congruence|]. intros all Hall. destruct (HS all Hall) as [Hseq HN].
  specialize (IH (snd (seen_step (pl_seq p, all) x))). rewrite Hc1 in IH. specialize (IH HN).
  rewrite Hseq in IH. by destruct (seen_step (pl_seq p, all) x).
Qed.

Lemma new_ok c now : ring_ok (NewPacketLog c now) ∧ cap (NewPacketLog c now) = Z.max c 1 ∧ newest (NewPacketLog c now) = [].
Proof.
  assert (cap (NewPacketLog c now) = Z.max c 1) as Hc.
  { unfold cap, NewPacketLog. cbn [pl_buf]. rewrite length_replicate. lia. }
  split; [constructor; rewrite Hc; cbn; lia|]. done.
Qed.

(** C31: The blocked page shows the newest packets.  After any messages, errors
    and rebinds, a query has, newest first, the matching ones among the last
    [capacity] packets that could be read, up to its limit, and says how many
    match and how many are held: the ring that is written round and round is
    the list of everything read, cut to its capacity. *)
Theorem query_shows_the_newest capacity now evs flt m :
  Matcher flt = Ok m →
  let p := fst (foldl pl_step (NewPacketLog capacity now, None : spill_lines) evs) in
  let held := take (Z.to_nat (Z.max capacity 1)) (snd (foldl seen_step (0, []) evs)) in
  ∃ r, Query flt p = Ok r ∧
    pr_Entries r = take (Z.to_nat (EffectiveLimit flt)) (filter (λ e, m e = true) held) ∧
    pr_Matched r = Z.of_nat (length (filter (λ e, m e = true) held)) ∧ pr_Held r = Z.of_nat (length held).
Proof.
  intros Hm. destruct (new_ok capacity now) as (HR & Hc & HN).
  pose proof (run_newest evs _ None HR) as HRun.
  destruct (foldl pl_step (NewPacketLog capacity now, None : spill_lines) evs) as [p f]. destruct HRun as (HR' & _ & HRun).
  assert (newest (NewPacketLog capacity now) = take (Z.to_nat (cap (NewPacketLog capacity now))) []) as H0 by (by rewrite HN, take_nil).
  apply HRun in H0 as [_ HN']. rewrite Hc in HN'. cbn [fst].
  destruct (Query_spec flt p m HR' Hm) as (r & HQ & HE & HM & HH & _). exists r. rewrite HN' in *. done.
Qed.

(** ** The file holds what the ring holds *)

Definition current (e : PacketLogEntry) : Prop := CurrentListName (Rule e) = Rule e.
Definition renamed (e : PacketLogEntry) : PacketLogEntry := set_rule (CurrentListName (Rule e)) e.

(** What a replay of the file makes of it, newest first. *)
Definition replayed (ls : list (option PacketLogEntry)) : list PacketLogEntry := rev (map renamed (omap id ls)).

Lemma CurrentListName_idemp s : CurrentListName (CurrentListName s) = CurrentListName s.
Proof.
  unfold CurrentListName. destruct (String.eqb s "blacklist") eqn:E1; [done|].
  destruct (String.eqb s "whitelist") eqn:E2; [done|]. by rewrite E1, E2.
Qed.
Lemma renamed_current e : current (renamed e).
Proof. apply CurrentListName_idemp. Qed.
Lemma renamed_id e : current e → renamed e = e.
Proof. unfold current, renamed. intros ->. by destruct e. Qed.

Lemma ParseLogPrefix_current s : CurrentListName (fst (ParseLogPrefix s)) = fst (ParseLogPrefix s).
Proof.
  unfold ParseLogPrefix. destruct (CutPrefix s logPrefixStem) as [name|]; [|done].
  destruct (CutPrefix (TrimNulSpace name) "feed:"); [by case_match|]. case_match; [apply CurrentListName_idemp|done].
Qed.

(** Every step of a decoder that ended in an entry. *)
Ltac steps_of H :=
  repeat match type of H with
  | ?m ≫= _ = Some _ => destruct m; cbn [mbind option_bind] in H; [|discriminate H]
  | (if ?c then _ else _) = Some _ => destruct c; try discriminate H
  end.

(** The decoder leaves the rule as the prefix named it. *)
Lemma decodeTransport_rule e proto family b e' : decodeTransport e proto family b = Some (Some e') → Rule e' = Rule e.
Proof. unfold decodeTransport. intros H. steps_of H; by injection H as <-. Qed.
Lemma ext_loop_rule fuel e next b e' : ext_loop fuel e next b = Some (Some e') → Rule e' = Rule e.
Proof.
  revert next b; induction fuel as [|fuel IH]; intros next b H; [done|]. cbn [ext_loop] in H.
  steps_of H; eauto using decodeTransport_rule. by injection H as <-.
Qed.
Lemma decodeHeaders_rule e b e' : decodeHeaders e b = Some (Some e') → Rule e' = Rule e.
Proof.
  unfold decodeHeaders, decodeIPv4, decodeIPv6. intros H. steps_of H.
  - by injection H as <-.
  - by apply decodeTransport_rule in H.
  - by apply ext_loop_rule in H.
Qed.

Lemma message_current a ifname now e : entryFromAttribute a ifname now = Some (Some e) → current e.
Proof.
  unfold entryFromAttribute, current. destruct (A_Payload a) as [b|]; [|done].
  destruct (A_Prefix a) as [s|].
  - pose proof (ParseLogPrefix_current s) as HC. destruct (ParseLogPrefix s) as [rule feed]. simpl in HC.
    intros H. apply decodeHeaders_rule in H. by rewrite H.
  - intros H. apply decodeHeaders_rule in H. by rewrite H.
Qed.

Record spill_inv (p : PacketLog) (f : spill_lines) : Prop := {
  si_ring : ring_ok p;
  si_current : Forall current (newest p);
  si_bound : Z.of_nat (length (default [] f)) <= 2 * cap p + 1;
  si_spill : ∀ sp, pl_spill p = Some sp →
    sp_limit sp = 2 * cap p ∧ sp_lines sp <= sp_limit sp ∧ ∃ ls, f = Some ls ∧ Z.of_nat (length ls) = sp_lines sp ∧
    take (Z.to_nat (cap p)) (replayed ls) = newest p }.

Lemma omap_Some (l : list PacketLogEntry) : omap id (map Some l) = l.
Proof. induction l as [|e l IH]; [done|]. cbn. by rewrite IH. Qed.

Lemma replayed_snoc ls x : replayed (ls ++ [x]) = match x with Some e => renamed e :: replayed ls | None => replayed ls end.
Proof.
  unfold replayed. rewrite omap_app, map_app, rev_app_distr. by destruct x.
Qed.

Lemma renamed_list l : Forall current l → map renamed l = l.
Proof. induction 1 as [|e l He Hl IH]; [done|]. cbn [map]. by rewrite renamed_id, IH. Qed.

(** The file a rewrite leaves. *)
Lemma rewritten p : ring_ok p → Forall current (newest p) →
  take (Z.to_nat (cap p)) (replayed (map Some (oldestFirst p))) = newest p ∧
  Z.of_nat (length (map Some (oldestFirst p))) = pl_n p.
Proof.
  intros HR HC. pose proof (length_newest p HR) as HL. rewrite length_map, oldestFirst_rev, length_rev. split; [|done].
  unfold replayed. rewrite omap_Some, map_rev, rev_involutive, renamed_list by done.
  apply take_ge. destruct HR. lia.
Qed.

Lemma spill_inv_append wio rio e p sp f :
  ring_ok p → Forall current (newest p) → current e → sp_limit sp = 2 * cap p → sp_lines sp <= sp_limit sp →
  (∃ ls, f = Some ls ∧ Z.of_nat (length ls) = sp_lines sp ∧
     take (Z.to_nat (cap p)) (e :: replayed ls) = newest p) →
  let '(sp', f') := spill_append wio rio e (oldestFirst p) sp f in spill_inv (with_spill sp' p) f'.
Proof.
  intros HR HC He Hlim Hle (ls & -> & Hlen & Hls). assert (ring_ok (with_spill None p)) as HR' by (destruct HR; by constructor).
  pose proof (rewritten p HR HC) as [HW HWl]. pose proof HR as [Hc0 _ Hn].
  assert (∀ sp' f', (∀ sp, sp' = Some sp →
      sp_limit sp = 2 * cap p ∧ sp_lines sp <= sp_limit sp ∧ ∃ ls, f' = Some ls ∧ Z.of_nat (length ls) = sp_lines sp ∧
      take (Z.to_nat (cap p)) (replayed ls) = newest p) →
    Z.of_nat (length (default [] f')) <= 2 * cap p + 1 → spill_inv (with_spill sp' p) f') as Hmk.
  { intros sp' f' Hs Hb. constructor; [destruct HR; by constructor|done|done|exact Hs]. }
  unfold spill_append. destruct wio as [|whole|]; cbn [default from_option id].
  - destruct (Z.ltb_spec (sp_limit sp) (sp_lines sp + 1)); cbn [sp_limit sp_lines].
    + rewrite (proj2 (Z.ltb_lt _ _)) by lia. destruct rio; cbn [rewrite]; apply Hmk; try done; cbn [default from_option id].
      * rewrite length_app. cbn [length]. lia.
      * lia.
      * intros sp' [= <-]. cbn [sp_limit sp_lines]. split_and!; [done| |].
        -- rewrite <- HWl, length_map in Hn. lia.
        -- eexists. split_and!; [done|by rewrite length_map|done].
      * lia.
    + rewrite (proj2 (Z.ltb_ge _ _)) by lia. apply Hmk; cbn [default from_option id].
      * intros sp' [= <-]. cbn [sp_limit sp_lines]. split_and!; [done|lia|]. eexists. split_and!; [done| |].
        -- rewrite length_app. cbn [length]. lia.
        -- by rewrite replayed_snoc, renamed_id.
      * rewrite length_app. cbn [length]. lia.
  - apply Hmk; [done|]. cbn [default from_option id]. rewrite length_app. cbn [length]. lia.
  - apply Hmk; [done|]. cbn [default from_option id]. lia.
Qed.

Lemma spill_inv_Add wio rio e p f :
  spill_inv p f → current e → let '(p', f') := Add wio rio e p f in spill_inv p' f'.
Proof.
  intros [HR HC HB HS] He. pose proof (Add_newest wio rio e p f HR) as HA.
  unfold Add in *. set (e1 := set_seq _ e) in *. set (p1 := with_seq _ p) in *. set (p2 := push e1 p1) in *.
  assert (current e1) as He1 by done.
  assert (ring_ok p1) as HR1 by (destruct HR; by constructor).
  destruct (push_ok e1 p1 HR1) as [HR2 Hcap]. fold p2 in HR2, Hcap.
  pose proof (newest_push e1 p1 HR1) as HN. fold p2 in HN. change (newest p1) with (newest p) in HN. change (cap p1) with (cap p) in *.
  assert (Forall current (newest p2)) as HC2 by (rewrite HN; by apply Forall_take, Forall_cons).
  change (pl_spill p2) with (pl_spill p) in *. destruct (pl_spill p) as [sp|] eqn:Esp.
  - destruct (HS sp eq_refl) as (Hlim & Hle & ls & -> & Hlen & Hls).
    pose proof (spill_inv_append wio rio e1 p2 sp (Some ls) HR2 HC2 He1 ltac:(by rewrite Hcap) Hle) as HP.
    destruct (spill_append wio rio e1 (oldestFirst p2) sp (Some ls)) as [sp' f']. apply HP.
    exists ls. split_and!; [done|done|]. rewrite HN, Hcap, <- Hls, take_take_cons. done.
  - constructor; [done|done|by rewrite Hcap|]. intros sp Hsp. change (pl_spill p2) with (pl_spill p) in Hsp. congruence.
Qed.

(** The counters and the listener's state are not part of it. *)
Lemma spill_inv_same p p' f :
  (pl_buf p', pl_next p', pl_n p', pl_spill p') = (pl_buf p, pl_next p, pl_n p, pl_spill p) → spill_inv p f → spill_inv p' f.
Proof.
  destruct p, p'. cbn. intros [= -> -> -> ->] [[]]. constructor; try done.
Qed.

Lemma spill_inv_step x p f : spill_inv p f → let '(p', f') := pl_step (p, f) x in spill_inv p' f'.
Proof.
  intros HI. destruct x as [a ifname now wio rio|enobufs err|group err]; cbn [pl_step].
  - unfold hook. destruct (entryFromAttribute a ifname now) as [[e|]|] eqn:Ee; cbn [default from_option id].
    + apply spill_inv_Add; [done|]. by eapply message_current.
    + by apply (spill_inv_same p).
    + done.
  - unfold onError. destruct enobufs; by apply (spill_inv_same p).
  - by apply (spill_inv_same p).
Qed.

Lemma spill_inv_run evs p f : spill_inv p f → let '(p', f') := foldl pl_step (p, f) evs in spill_inv p' f'.
Proof.
  revert p f; induction evs as [|x evs IH]; intros p f HI; [done|]. cbn [foldl].
  pose proof (spill_inv_step x p f HI) as HS. destruct (pl_step (p, f) x) as [p1 f1]. by apply IH.
Qed.

(** ** A start on a file *)

Lemma replay_newest ls p :
  ring_ok p →
  let p' := foldl replay_line p ls in
  ring_ok p' ∧ cap p' = cap p ∧ pl_spill p' = pl_spill p ∧
  newest p' = take (Z.to_nat (cap p)) (replayed ls ++ newest p) ∧
  (Forall (λ e, Seq e <= pl_seq p) (newest p) → Forall (λ e, Seq e <= pl_seq p') (newest p')).
Proof.
  revert p; induction ls as [|x ls IH] using rev_ind; intros p HR; cbn zeta.
  { cbn [foldl]. split_and!; try done. cbn. rewrite take_ge; [done|]. pose proof (length_newest p HR). destruct HR. lia. }
  rewrite foldl_app. cbn [foldl]. destruct (IH p HR) as (HR' & Hc & Hs & HN & HF). set (p1 := foldl replay_line p ls) in *.
  rewrite replayed_snoc. destruct x as [e|]; cbn [replay_line].
  2:{ split_and!; [destruct HR'; by constructor|done|done|exact HN|exact HF]. }
  destruct (push_ok (renamed e) p1 HR') as [HR2 Hc2]. pose proof (newest_push (renamed e) p1 HR') as HN2.
  change (set_rule (CurrentListName (Rule e)) e) with (renamed e).
  set (p2 := push (renamed e) p1) in *.
  change (newest (with_seq (Z.max (pl_seq p2) (Seq e)) p2)) with (newest p2).
  split_and!; [destruct HR2; by constructor|by rewrite <- Hc, <- Hc2|done| |].
  - rewrite HN2, Hc, HN, take_take_cons. done.
  - intros Hseq. specialize (HF Hseq). cbn [with_seq pl_seq]. rewrite HN2. apply Forall_take.
    change (pl_seq p2) with (pl_seq p1). constructor; [cbn; lia|]. eapply Forall_impl; [exact HF|]. cbn. lia.
Qed.

Lemma persist_replayed_spec rw p f :
  ring_ok p → Forall current (newest p) →
  let '(ok, p', f') := persist_replayed rw p f in
  ring_ok p' ∧ cap p' = cap p ∧ newest p' = newest p ∧ pl_seq p' = pl_seq p ∧
  (ok = true → spill_inv p' f' ∧ is_Some (pl_spill p') ∧ f' = Some (map Some (oldestFirst p))).
Proof.
  intros HR HC. unfold persist_replayed. destruct (rewritten p HR HC) as [HW HWl].
  set (p1 := if _ && _ then _ else p).
  assert (ring_ok p1 ∧ cap p1 = cap p ∧ newest p1 = newest p ∧ oldestFirst p1 = oldestFirst p ∧ pl_seq p1 = pl_seq p)
    as (HR1 & Hc1 & HN1 & HO1 & Hs1) by (unfold p1; destruct (_ && _); [|done]; split_and!; try done; destruct HR; by constructor).
  clearbody p1. rewrite HO1, Hc1. destruct rw; cbn [rewrite]; split_and!; try done; [destruct HR1; by constructor|].
  intros _. split_and!; [|by eexists|done]. pose proof HR as [Hc Hx Hn]. rewrite length_map in HWl.
  constructor; [destruct HR1; by constructor|by rewrite <- HN1 in HC| |].
  - change (cap (with_spill _ p1)) with (cap p1). cbn [default from_option id]. rewrite length_map. lia.
  - intros sp [= <-]. change (cap (with_spill _ p1)) with (cap p1). cbn [sp_limit sp_lines]. split_and!; [lia|lia|].
    eexists. split_and!; [done|by rewrite length_map|].
    change (newest (with_spill _ p1)) with (newest p1). by rewrite Hc1, HN1.
Qed.

Lemma start_spec capacity now rw f :
  let '(ok, p, f') := start capacity now RdOk rw f in
  ring_ok p ∧ cap p = Z.max capacity 1 ∧ newest p = take (Z.to_nat (cap p)) (replayed (default [] f)) ∧
  Forall (λ e, Seq e <= pl_seq p) (newest p) ∧
  (ok = true → spill_inv p f' ∧ is_Some (pl_spill p) ∧ f' = Some (map Some (rev (newest p)))).
Proof.
  destruct (new_ok capacity now) as (HR & Hc & HN).
  pose proof (replay_newest (default [] f) _ HR) as HP. cbv zeta in HP.
  replace (start capacity now RdOk rw f) with (persist_replayed rw (foldl replay_line (NewPacketLog capacity now) (default [] f)) f)
    by (by destruct f).
  set (p1 := foldl replay_line _ (default [] f)) in *.
  destruct HP as (HR1 & Hc1 & _ & HN1 & HF1). rewrite HN, app_nil_r in HN1. specialize (HF1 ltac:(by rewrite HN)).
  assert (Forall current (newest p1)) as HC.
  { rewrite HN1. apply Forall_take. unfold replayed. apply Forall_rev, Forall_forall. intros e He.
    apply list_elem_of_fmap in He as (e' & -> & _). apply renamed_current. }
  pose proof (persist_replayed_spec rw p1 f HR1 HC) as HS. destruct (persist_replayed rw p1 f) as [[ok p] f'].
  destruct HS as (HR2 & Hc2 & HN2 & Hs2 & HS). rewrite HN2, Hs2, Hc2. split_and!; [done|by rewrite Hc1|by rewrite HN1, Hc1|done|].
  rewrite <- oldestFirst_rev. exact HS.
Qed.

(** C32: The packet log survives a restart and its file stays small.  Started on
    any file, then fed any messages with whatever outcome each write has, the
    file never exceeds twice the ring's capacity by more than one line; and as
    long as it is still written, a restart at any moment holds exactly the
    packets the ring held, under the same numbers, with the next number above
    all of them, and has compacted the file to them. *)
Theorem packet_log_survives_restart capacity now f0 evs now' rw :
  let '(ok, p0, f1) := start capacity now RdOk RwOk f0 in
  let '(p, f) := foldl pl_step (p0, f1) evs in
  let '(ok', p', f') := start capacity now' RdOk rw f in
  Z.of_nat (length (default [] f)) <= 2 * Z.max capacity 1 + 1 ∧
  Forall (λ e, Seq e <= pl_seq p') (newest p') ∧
  (is_Some (pl_spill p) → newest p' = newest p ∧ (ok' = true → f' = Some (map Some (rev (newest p))))).
Proof.
  pose proof (start_spec capacity now RwOk f0) as HS0.
  destruct (start capacity now RdOk RwOk f0) as [[ok p0] f1] eqn:E0.
  assert (ok = true) as ->.
  { unfold start, Persist, persist_replayed, rewrite in E0. destruct f0; congruence. }
  destruct HS0 as (_ & Hc0 & _ & _ & HI). destruct (HI eq_refl) as [HI0 _].
  pose proof (spill_inv_run evs p0 f1 HI0) as HR. pose proof (run_newest evs p0 f1 (si_ring _ _ HI0)) as HN.
  destruct (foldl pl_step (p0, f1) evs) as [p f]. destruct HN as (_ & Hc & _). rewrite Hc0 in Hc.
  pose proof (start_spec capacity now' rw f) as HS. destruct (start capacity now' RdOk rw f) as [[ok' p'] f'].
  destruct HS as (_ & Hc' & HN' & HF & HI'). pose proof (si_bound _ _ HR) as HB. rewrite Hc in HB. split_and!; [done|done|].
  intros [sp Hsp]. destruct (si_spill _ _ HR sp Hsp) as (_ & _ & ls & -> & _ & Hls).
  assert (newest p' = newest p) as Heq by (rewrite HN', Hc', <- Hc; exact Hls).
  split; [done|]. intros Hok. destruct (HI' Hok) as (_ & _ & ->). by rewrite Heq.
Qed.

(** Three packets into a ring of two, an overrun between them. *)
Definition ring_sample : list pl_event :=
  let msg n b := PMessage (sample_message b) (λ _, "eth0") n ApOk RwOk in
  [PListen 4 None; msg 1 (wire sample_packet); PError true ""; msg 2 [69; 0]; msg 3 (wire sample_packet); msg 4 (wire sample_packet)].
Definition any_packet : PacketLogFilter := mkPacketLogFilter "" "" 0 "" "" "" 0 0 "".

Example ring_sample_query :
  let p := fst (foldl pl_step (NewPacketLog 2 0, None : spill_lines) ring_sample) in
  match Query any_packet p with
  | Ok r => (map Seq (pr_Entries r), pr_Matched r, pr_Held r, pr_Discarded r, pr_Lost r, pr_Listening r) = ([3; 2], 2, 2, 1, 1, true)
  | Err _ => False
  end.
Proof. vm_compute. reflexivity. Qed.

Lemma query_shows_the_newest_witness :
  ∃ m r, Matcher any_packet = Ok m ∧
    Query any_packet (fst (foldl pl_step (NewPacketLog 2 0, None : spill_lines) ring_sample)) = Ok r ∧ pr_Held r = 2.
Proof.
  destruct (Matcher any_packet) as [m|e] eqn:Em; [|vm_compute in Em; discriminate Em].
  destruct (query_shows_the_newest 2 0 ring_sample any_packet m Em) as (r & HQ & _ & _ & HH).
  exists m, r. split; [done|]. split; [exact HQ|]. rewrite HH. vm_compute. reflexivity.
Defined.

(** The same on a file an older release wrote, with a torn line, and a restart. *)
Definition old_file : spill_lines :=
  Some [Some (set_rule "blacklist" (set_seq 41 zero_entry)); None; Some (set_rule "drop" (set_seq 42 zero_entry))].

Lemma packet_log_survives_restart_witness :
  let '(_, p0, f1) := start 2 0 RdOk RwOk old_file in
  let '(p, f) := foldl pl_step (p0, f1) ring_sample in
  let '(_, p', _) := start 2 9 RdOk RwOk f in
  newest p' = newest p ∧ map Seq (newest p) = [45; 44].
Proof.
  pose proof (packet_log_survives_restart 2 0 old_file ring_sample 9 RwOk) as H.
  assert (is_Some (pl_spill (let '(_, p0, f1) := start 2 0 RdOk RwOk old_file in fst (foldl pl_step (p0, f1) ring_sample)))) as Hs
    by (vm_compute; by eexists).
  assert (map Seq (newest (let '(_, p0, f1) := start 2 0 RdOk RwOk old_file in fst (foldl pl_step (p0, f1) ring_sample))) = [45; 44])
    as Hn by (vm_compute; reflexivity).
  destruct (start 2 0 RdOk RwOk old_file) as [[ok p0] f1]. destruct (foldl pl_step (p0, f1) ring_sample) as [p f].
  destruct (start 2 9 RdOk RwOk f) as [[ok' p'] f']. destruct H as (_ & _ & H). by destruct (H Hs).
Defined.
