(* ===== verification/FeedRanges.v ===== *)
(** * A feed as an interval set

    The pure half of [src/internal/core/nftables_feeds.go]: how the prefixes of
    a downloaded list become the elements of a kernel interval set.  The
    specification side is [Covers], the addresses a list of ranges holds,
    [Normal], the shape the kernel accepts, and [in_interval_set], the documented
    reading of a set's elements. *)
From S2P Require Import Prelude GoStrings GoNet NetBytes.

Local Open Scope Z_scope.

(** [addrRange] *)
Record addrRange := mkRange { r_from : addr; r_to : addr }.

(** [feedSetName], [feedCounterID] *)
Definition feedSetName (id : string) (v6 : bool) : string :=
  if v6 then "feed-" +:+ id +:+ "-v6" else "feed-" +:+ id +:+ "-v4".

Definition feedCounterID (id : string) : string := "_feed-" +:+ id.

(** The loop of [lastAddr], from the last byte up: set the host's bits. *)
Fixpoint or_host (host : Z) (l : list Z) : list Z :=
  match l with
  | [] => []
  | x :: l =>
      if 0 <? host then
        let n := Z.min host 8 in Z.lor x (2 ^ n - 1) :: or_host (host - n) l
      else x :: l
  end.

Definition lastAddr (p : prefix) : addr :=
  let b := As16 (p_addr (Masked (p_addr p) (p_bits p))) in
  let host := if Is4 (p_addr p) then 32 - p_bits p else 128 - p_bits p in
  let a := AddrFrom16 (rev (or_host host (rev b))) in
  if Is4 (p_addr p) then Unmap a else a.

(** ** mergeRanges *)

Definition range_of (p : prefix) : addrRange :=
  mkRange (p_addr (Masked (p_addr p) (p_bits p))) (lastAddr p).

Definition valid_ranges (ps : list prefix) : list addrRange :=
  map range_of (filter (λ p, IsValid p = true) ps).

(** The comparison [slices.SortFunc] is given, as an order. *)
Definition from_le (a b : addrRange) : Prop := Compare (r_from a) (r_from b) ≠ Gt.

#[global] Instance from_le_dec a b : Decision (from_le a b).
Proof. unfold from_le. solve_decision. Defined.

(** One round of the loop; [out] is kept last range first.  [out] shares its
    array with the sorted ranges, and never overtakes the range being read. *)
Definition merge_step (out : list addrRange) (r : addrRange) : list addrRange :=
  match out with
  | [] => [r]
  | last :: rest =>
      if negb (bool_decide (Compare (r_from r) (r_to last) = Gt)) ||
         match Next (r_to last) with Some next => bool_decide (r_from r = next) | None => false end
      then (if bool_decide (Compare (r_to r) (r_to last) = Gt)
            then mkRange (r_from last) (r_to r) else last) :: rest
      else r :: out
  end.

Definition merge_sorted (rs : list addrRange) : list addrRange := rev (foldl merge_step [] rs).

Definition mergeRanges (ps : list prefix) : list addrRange :=
  merge_sorted (merge_sort from_le (valid_ranges ps)).

(** [slices.BinarySearchFunc] with a comparison that never answers 0. *)
Fixpoint lower_bound {A} (less : A → bool) (fuel i j : nat) (l : list A) : nat :=
  match fuel with
  | O => i
  | S fuel =>
      if (i <? j)%nat then
        let h := Nat.div2 (i + j) in
        match l !! h with
        | Some x => if less x then lower_bound less fuel (S h) j l else lower_bound less fuel i h l
        | None => i
        end
      else i
  end.

Definition splitFamilies (rs : list addrRange) : list addrRange * list addrRange :=
  let i := lower_bound (λ r, Is4 (r_from r)) (S (length rs)) 0 (length rs) rs in
  (take i rs, drop i rs).

(** [nftables.SetElement], the fields the code sets. *)
Record SetElement := mkSetElement { Key : list Z; IntervalEnd : bool }.

Definition range_elements (r : addrRange) : list SetElement :=
  mkSetElement (AsSlice (r_from r)) false ::
  match Next (r_to r) with
  | Some e => [mkSetElement (AsSlice e) true]
  | None => []
  end.

Definition rangeElements (rs : list addrRange) : list SetElement := flat_map range_elements rs.

(** ** Sizes *)

Definition feedRangeBytesV4 : Z := 40.
Definition feedRangeBytesV6 : Z := 64.
Definition maxElemListBytes : Z := 0xffff - 4.

Definition feedRangesPerChunk (v6 : bool) : Z :=
  if v6 then maxElemListBytes / feedRangeBytesV6 else maxElemListBytes / feedRangeBytesV4.

Definition zlen {A} (l : list A) : Z := Z.of_nat (length l).

Definition feedElementBytes (v4 v6 : list addrRange) : Z :=
  let calls := zlen v4 / feedRangesPerChunk false + zlen v6 / feedRangesPerChunk true + 2 in
  zlen v4 * feedRangeBytesV4 + zlen v6 * feedRangeBytesV6 + calls * 256.

(** The loop of [addFeedElements]: the ranges of each [SetAddElements] call.
    Every round takes at least one range, so the ranges' number bounds it. *)
Fixpoint feed_chunks (fuel : nat) (per : Z) (rs : list addrRange) : list (list addrRange) :=
  match fuel, rs with
  | S fuel, _ :: _ =>
      let n := Z.to_nat (Z.min per (zlen rs)) in take n rs :: feed_chunks fuel per (drop n rs)
  | _, _ => []
  end.

Definition chunks_of (v6 : bool) (rs : list addrRange) : list (list addrRange) :=
  feed_chunks (length rs) (feedRangesPerChunk v6) rs.

(** [flushBuffers] *)
Definition sndBytesPerRule : Z := 2 * 301.
Definition rcvBytesPerRule : Z := 2 * 915.
Definition rcvElemDivisor : Z := 100 / 2.
Definition defaultSndbuf : Z := 212992.
Definition defaultRcvbuf : Z := 212992.

Definition flushBuffers (rules batch : Z) : Z * Z :=
  (defaultSndbuf + rules * sndBytesPerRule + batch,
   defaultRcvbuf + rules * rcvBytesPerRule + batch / rcvElemDivisor).

(** ** Specification *)

(** Addresses on one line: IPv6 after IPv4, with a gap, so that two keys are
    adjacent exactly when one address follows the other. *)
Definition key (a : addr) : Z :=
  match a with Addr4 n => n | Addr6 n _ => 2 ^ 33 + n end.

Definition in_range (r : addrRange) (a : addr) : Prop := key (r_from r) <= key a <= key (r_to r).

Definition Covers (rs : list addrRange) (a : addr) : Prop := Exists (λ r, in_range r a) rs.

Record range_ok (r : addrRange) : Prop := {
  ro_from : addr_ok (r_from r);
  ro_to : addr_ok (r_to r);
  ro_family : Is4 (r_from r) = Is4 (r_to r);
  ro_order : key (r_from r) <= key (r_to r) }.

(** Sorted, disjoint and not adjacent. *)
Definition apart (a b : addrRange) : Prop := key (r_to a) + 1 < key (r_from b).

Definition Normal (rs : list addrRange) : Prop := Forall range_ok rs ∧ StronglySorted apart rs.

Definition prefix_ok (p : prefix) : Prop := addr_ok (p_addr p).

(** An interval set holds a key when the greatest element not above it starts an
    interval. *)
Definition greatest_step (k : list Z) (best : option SetElement) (e : SetElement) : option SetElement :=
  match memcmp (Key e) k with
  | Gt => best
  | _ => match best with
         | Some b => match memcmp (Key e) (Key b) with Lt => best | _ => Some e end
         | None => Some e
         end
  end.

Definition in_interval_set (els : list SetElement) (k : list Z) : bool :=
  match foldl (greatest_step k) None els with
  | Some e => negb (IntervalEnd e)
  | None => false
  end.

Example mergeRanges_ex :
  mergeRanges (omap ParseCIDR ["10.0.1.0/24"; "2001:db8::/32"; "10.0.0.0/24"; "10.0.0.9/32"; "255.255.255.0/24"])
  = [mkRange (Addr4 0x0a000000) (Addr4 0x0a0001ff); mkRange (Addr4 0xffffff00) (Addr4 0xffffffff);
     mkRange (Addr6 0x20010db8000000000000000000000000 "") (Addr6 0x20010db8ffffffffffffffffffffffff "")].
Proof. vm_compute. reflexivity. Qed.

(** ** Keys *)

Lemma key_inj a b : addr_ok a → addr_ok b → key a = key b → a = b.
Proof.
  intros [Ha Za] [Hb Zb] H. destruct a as [m|m z], b as [n|n z']; simpl in *; f_equal; try lia; congruence.
Qed.

Lemma Compare_key a b : addr_ok a → addr_ok b → Compare a b = Z.compare (key a) (key b).
Proof.
  intros [Ha Za] [Hb Zb]. destruct a as [m|m z], b as [n|n z']; simpl in *; [done| | |].
  - symmetry. apply Z.compare_lt_iff. lia.
  - symmetry. apply Z.compare_gt_iff. lia.
  - subst. rewrite Z.add_compare_mono_l. by destruct (Z.compare m n).
Qed.

Lemma Compare_gt a b : addr_ok a → addr_ok b → bool_decide (Compare a b = Gt) = (key b <? key a).
Proof.
  intros Ha Hb. rewrite Compare_key by done. case_bool_decide as H; rewrite Z.compare_gt_iff in H;
    symmetry; [by apply Z.ltb_lt|apply Z.ltb_ge; lia].
Qed.

Lemma from_le_key a b :
  addr_ok (r_from a) → addr_ok (r_from b) → from_le a b ↔ key (r_from a) <= key (r_from b).
Proof. intros Ha Hb. unfold from_le. rewrite Compare_key by done. apply Z.compare_le_iff. Qed.

Lemma Next_key a b : addr_ok a → addr_ok b → Next a = Some b ↔ key b = key a + 1.
Proof.
  intros [Ha Za] [Hb Zb]. split.
  - destruct a as [m|m z]; simpl in *; case_match; naive_solver lia.
  - destruct a as [m|m z], b as [n|n z']; simpl in *; intros H; try lia;
      destruct (Z.eqb_spec m (2 ^ 32 - 1)), (Z.eqb_spec m (2 ^ 128 - 1)); try lia;
      repeat f_equal; try lia; congruence.
Qed.

Lemma Next_ok a b : addr_ok a → Next a = Some b → addr_ok b ∧ Is4 b = Is4 a.
Proof.
  intros [Ha Za]. unfold addr_ok. destruct a as [m|m z]; simpl in *; case_match eqn:E; intros [= <-];
    apply Z.eqb_neq in E; simpl; repeat split; done || lia.
Qed.

Lemma key_between a b k :
  addr_ok a → addr_ok b → Is4 a = Is4 b → key a <= k <= key b →
  ∃ c, addr_ok c ∧ key c = k ∧ Is4 c = Is4 a.
Proof.
  unfold addr_ok. intros [Ha Za] [Hb Zb] E Hk. destruct a as [m|m z], b as [n|n z']; simpl in *; try done.
  - exists (Addr4 k). simpl. repeat split; lia.
  - exists (Addr6 (k - 2 ^ 33) ""). simpl. repeat split; done || lia.
Qed.

Lemma key_family a b c :
  addr_ok a → addr_ok b → addr_ok c → Is4 a = Is4 b → key a <= key c <= key b → Is4 c = Is4 a.
Proof.
  intros [Ha Za] [Hb Zb] [Hc Zc] E Hk.
  destruct a, b, c; simpl in *; try done; lia.
Qed.

(** ** The range of a prefix *)

Lemma be_bytes_snoc n v : be_bytes (S n) v = be_bytes n (v / 256) ++ [v mod 256].
Proof.
  induction n as [|n IH].
  - by rewrite be_bytes_S, Z.div_1_r.
  - rewrite be_bytes_S, IH, (be_bytes_S n (v / 256)). cbn [app]. do 2 f_equal.
    rewrite Z.div_div by (try apply pow256_pos; lia). by rewrite <- pow256_S.
Qed.

Lemma lor_ones_split v h :
  0 <= h → (Z.lor v (Z.ones h)) / 256 = Z.lor (v / 256) (Z.ones (Z.max 0 (h - 8))) ∧
           (Z.lor v (Z.ones h)) mod 256 = Z.lor (v mod 256) (Z.ones (Z.min h 8)).
Proof.
  intros Hh. change 256 with (2 ^ 8). rewrite <- !Z.shiftr_div_pow2, <- !Z.land_ones by lia.
  split; apply Z.bits_inj_iff'; intros i Hi;
    rewrite ?Z.land_spec, ?Z.lor_spec, ?Z.shiftr_spec, ?Z.land_spec, ?Z.lor_spec by lia;
    rewrite !Z.testbit_ones_nonneg by lia.
  - f_equal. destruct (Z.ltb_spec (i + 8) h), (Z.ltb_spec i (Z.max 0 (h - 8))); lia || done.
  - destruct (Z.testbit v i); simpl; destruct (Z.ltb_spec i h), (Z.ltb_spec i 8), (Z.ltb_spec i (Z.min h 8)); lia || done.
Qed.

Lemma or_host_spec n h v :
  0 <= h → rev (or_host h (rev (be_bytes n v))) = be_bytes n (Z.lor v (Z.ones h)).
Proof.
  revert h v. induction n as [|n IH]; intros h v Hh; [done|].
  rewrite !be_bytes_snoc, rev_unit. cbn [or_host].
  destruct (lor_ones_split v h Hh) as [-> ->]. destruct (Z.ltb_spec 0 h).
  - replace (2 ^ Z.min h 8 - 1) with (Z.ones (Z.min h 8)) by (rewrite Z.ones_equiv; lia).
    cbn [rev]. destruct (decide (8 <= h)).
    + rewrite IH by lia. by replace (h - Z.min h 8) with (Z.max 0 (h - 8)) by lia.
    + replace (Z.max 0 (h - 8)) with 0 by lia. rewrite Z.lor_0_r. f_equal.
      enough (or_host (h - Z.min h 8) (rev (be_bytes n (v / 256))) = rev (be_bytes n (v / 256))) as ->
        by apply rev_involutive.
      replace (h - Z.min h 8) with 0 by lia. by destruct (rev _).
  - replace h with 0 by lia. change (Z.ones (Z.max 0 (0 - 8))) with 0. change (Z.ones (Z.min 0 8)) with 0.
    rewrite !Z.lor_0_r. cbn [rev]. by rewrite rev_involutive.
Qed.

Lemma lor_host w n v :
  0 <= n <= w → Z.lor (mask_bits w n v) (Z.ones (w - n)) = mask_bits w n v + (2 ^ (w - n) - 1).
Proof.
  intros Hn. rewrite <- Z.add_nocarry_lor; [rewrite Z.ones_equiv; lia|].
  unfold mask_bits. rewrite Z.land_ones, Z.shiftl_mul_pow2 by lia. apply Z.mod_mul. lia.
Qed.

(** The value of the last address: every host bit set. *)
Definition last_val (w n v : Z) : Z := mask_bits w n v + (2 ^ (w - n) - 1).

Lemma last_val_bounds w n v :
  0 <= n <= w → 0 <= v < 2 ^ w → 0 <= mask_bits w n v <= last_val w n v ∧ last_val w n v < 2 ^ w.
Proof.
  intros Hn Hv. unfold last_val, mask_bits. rewrite Z.shiftl_mul_pow2, Z.shiftr_div_pow2 by lia.
  pose proof (Z.pow_pos_nonneg 2 (w - n) ltac:(lia) ltac:(lia)).
  pose proof (Z.div_pos v (2 ^ (w - n)) ltac:(lia) ltac:(lia)).
  assert (v / 2 ^ (w - n) < 2 ^ n).
  { apply Z.div_lt_upper_bound; [lia|]. rewrite <- Z.pow_add_r by lia. replace (w - n + n) with w by lia. lia. }
  assert (2 ^ w = 2 ^ n * 2 ^ (w - n)) as -> by (rewrite <- Z.pow_add_r by lia; f_equal; lia).
  nia.
Qed.

(** Between the two ends of a masked value lie the values with its leading bits. *)
Lemma mask_range w n u v :
  0 <= n <= w → mask_bits w n u <= v <= last_val w n u ↔ Z.shiftr u (w - n) = Z.shiftr v (w - n).
Proof.
  intros Hn. unfold last_val, mask_bits. rewrite Z.shiftl_mul_pow2, !Z.shiftr_div_pow2 by lia.
  pose proof (Z.pow_pos_nonneg 2 (w - n) ltac:(lia) ltac:(lia)).
  generalize dependent (2 ^ (w - n)). intros m Hm. split; intros H.
  - apply Z.div_unique with (v - u / m * m); [left|]; lia.
  - rewrite H. pose proof (Z.mul_div_le v m ltac:(lia)). pose proof (Z.mod_pos_bound v m ltac:(lia)).
    pose proof (Z.div_mod v m ltac:(lia)). lia.
Qed.

Lemma lastAddr_spec p :
  prefix_ok p → IsValid p = true →
  lastAddr p = match p_addr p with
               | Addr4 v => Addr4 (last_val 32 (p_bits p) v)
               | Addr6 v _ => Addr6 (last_val 128 (p_bits p) v) ""
               end.
Proof.
  intros [Hv _] Hb. unfold IsValid in Hb. breflect. unfold lastAddr. destruct p as [[v|v z] n]; cbn in *.
  - rewrite or_host_spec by lia. unfold AddrFrom16.
    pose proof (last_val_bounds 32 n v ltac:(lia) Hv) as [? ?].
    assert (Z.lor (0xFFFF * 2 ^ 32 + mask_bits 32 n v) (Z.ones (32 - n)) =
            0xFFFF * 2 ^ 32 + last_val 32 n v) as ->.
    { unfold last_val. rewrite Z.add_assoc.
      assert (0xFFFF * 2 ^ 32 + mask_bits 32 n v = mask_bits 48 (16 + n) (0xFFFF * 2 ^ 32 + v)) as ->.
      { unfold mask_bits. rewrite !Z.shiftl_mul_pow2, !Z.shiftr_div_pow2 by lia.
        replace (48 - (16 + n)) with (32 - n) by lia.
        replace (0xFFFF * 2 ^ 32 + v) with (v + (0xFFFF * 2 ^ n) * 2 ^ (32 - n)).
        - rewrite Z.div_add by (apply Z.pow_nonzero; lia).
          rewrite Z.mul_add_distr_r, <- !Z.mul_assoc, <- Z.pow_add_r by lia.
          replace (n + (32 - n)) with 32 by lia. lia.
        - rewrite <- Z.mul_assoc, <- Z.pow_add_r by lia. replace (n + (32 - n)) with 32 by lia. lia. }
      replace (32 - n) with (48 - (16 + n)) by lia. rewrite lor_host by lia. lia. }
    rewrite be_val_be_bytes by lia. unfold Unmap, Is4In6.
    rewrite Z.shiftr_div_pow2, (Z.add_comm (0xFFFF * 2 ^ 32)), Z.div_add, Z.div_small by lia.
    simpl (_ =? _). cbn [Z.eqb]. rewrite Z_mod_plus_full, Z.mod_small by lia. done.
  - rewrite or_host_spec by lia. rewrite lor_host by lia. unfold AddrFrom16.
    pose proof (last_val_bounds 128 n v ltac:(lia) Hv) as [? ?].
    rewrite be_val_be_bytes by (unfold last_val in *; lia). done.
Qed.

Lemma range_of_ok p : prefix_ok p → IsValid p = true → range_ok (range_of p).
Proof.
  intros Hp Hb. pose proof (lastAddr_spec p Hp Hb) as HL. destruct Hp as [Hv Hz].
  unfold IsValid in Hb. breflect. unfold range_of. rewrite HL. unfold addr_ok in *.
  destruct p as [[v|v z] n]; simpl in *; split; unfold addr_ok; simpl;
    first [pose proof (last_val_bounds 32 n v ltac:(lia) Hv)
          |pose proof (last_val_bounds 128 n v ltac:(lia) Hv)]; repeat split; done || lia.
Qed.

(** The range of a prefix holds the addresses the prefix contains. *)
Lemma range_of_contains p a :
  prefix_ok p → IsValid p = true → addr_ok a → in_range (range_of p) a ↔ Contains p a = true.
Proof.
  intros Hp Hb [Ha Za]. pose proof (lastAddr_spec p Hp Hb) as HL. destruct Hp as [Hv Hz].
  unfold IsValid in Hb. breflect. unfold in_range, range_of, Contains. rewrite HL.
  destruct p as [[v|v z] n], a as [u|u z']; simpl in *.
  - rewrite Z.eqb_eq. apply mask_range. lia.
  - pose proof (last_val_bounds 32 n v ltac:(lia) Hv). split; [lia|done].
  - pose proof (last_val_bounds 128 n v ltac:(lia) Hv). split; [lia|done].
  - subst z'. cbn [is_empty andb]. rewrite Z.eqb_eq, <- mask_range by lia. lia.
Qed.

(** ** The merge *)

#[local] Hint Resolve ro_from ro_to : core.

(** The shape of the output while the loop runs, last range first. *)
Record merging (out : list addrRange) : Prop := {
  mg_ok : Forall range_ok out;
  mg_apart : StronglySorted (flip apart) out }.

Definition upto (out : list addrRange) (k : Z) : Prop :=
  match out with [] => True | last :: _ => key (r_from last) <= k end.

Lemma merge_step_cond last r :
  range_ok last → range_ok r →
  negb (bool_decide (Compare (r_from r) (r_to last) = Gt)) ||
    match Next (r_to last) with Some next => bool_decide (r_from r = next) | None => false end
  = (key (r_from r) <=? key (r_to last) + 1).
Proof.
  intros Hl Hr. rewrite Compare_gt by auto.
  destruct (Z.ltb_spec (key (r_to last)) (key (r_from r))) as [Hlt|Hge]; simpl.
  2:{ symmetry. apply Z.leb_le. lia. }
  destruct (Next (r_to last)) as [n|] eqn:E.
  - pose proof (Next_ok _ _ (ro_to _ Hl) E) as [Hn _]. apply Next_key in E; [|auto..].
    case_bool_decide as H.
    + subst n. symmetry. apply Z.leb_le. lia.
    + symmetry. apply Z.leb_gt. destruct (Z.eq_dec (key (r_from r)) (key n)) as [K|]; [|lia].
      by apply key_inj in K; auto.
  - symmetry. apply Z.leb_gt. destruct (Z.eq_dec (key (r_from r)) (key (r_to last) + 1)) as [K|]; [|lia].
    apply Next_key in K; [congruence|auto..].
Qed.

Lemma merge_step_ok out r :
  merging out → range_ok r → upto out (key (r_from r)) →
  merging (merge_step out r) ∧ upto (merge_step out r) (key (r_from r)) ∧
  (∀ a, addr_ok a → Covers (merge_step out r) a ↔ Covers out a ∨ in_range r a).
Proof.
  intros [Hok Hap] Hr Hup. unfold merge_step, Covers. destruct out as [|last rest].
  { split_and!; [split; [by apply Forall_singleton|repeat constructor]|simpl; lia|].
    intros a _. rewrite Exists_cons, !Exists_nil. tauto. }
  apply Forall_cons in Hok as [Hl Hok]. apply StronglySorted_inv in Hap as [Hap Hlast].
  simpl in Hup. rewrite merge_step_cond by done.
  destruct (Z.leb_spec (key (r_from r)) (key (r_to last) + 1)) as [Hle|Hgt].
  - rewrite Compare_gt by auto. destruct (Z.ltb_spec (key (r_to last)) (key (r_to r))) as [Hlt|Hge].
    + split_and!.
      * split; [constructor; [|done]|constructor; done].
        destruct Hl as [? ? Hf ?], Hr as [? ? Hf' ?]. split; simpl; try done; [|lia].
        rewrite Hf. symmetry. destruct (Z.le_gt_cases (key (r_from r)) (key (r_to last))).
        -- rewrite <- Hf'. symmetry. rewrite <- Hf. symmetry.
           apply (key_family _ (r_to last)); done || lia.
        -- rewrite <- Hf'. assert (Next (r_to last) = Some (r_from r)) as E by (apply Next_key; done || lia).
           by apply Next_ok in E as [_ ->].
      * simpl. lia.
      * intros a _. rewrite !Exists_cons. unfold in_range. simpl. lia || (destruct Hr; intuition lia).
    + split_and!; [split; by constructor|done|].
      intros a _. rewrite !Exists_cons. unfold in_range. destruct Hr. intuition lia.
  - split_and!.
    + split; [by constructor; [|constructor]|]. constructor; [by constructor|]. constructor; [done|].
      eapply Forall_impl; [exact Hlast|]. unfold flip, apart. intros x Hx. destruct Hl. lia.
    + simpl. lia.
    + intros a _. rewrite !Exists_cons. tauto.
Qed.

Lemma merge_fold_ok rs out :
  merging out → Forall range_ok rs → Sorted from_le rs →
  match rs with [] => True | r :: _ => upto out (key (r_from r)) end →
  merging (foldl merge_step out rs) ∧
  (∀ a, addr_ok a → Covers (foldl merge_step out rs) a ↔ Covers out a ∨ Covers rs a).
Proof.
  revert out. induction rs as [|r rs IH]; intros out Hm Hok Hs Hup.
  { split; [done|]. intros a _. unfold Covers. cbn. rewrite Exists_nil. tauto. }
  apply Forall_cons in Hok as [Hr Hok]. apply Sorted_inv in Hs as [Hs Hhd].
  destruct (merge_step_ok out r Hm Hr Hup) as (Hm' & Hup' & Hc). cbn [foldl].
  destruct (IH (merge_step out r) Hm' Hok Hs) as [Hm'' Hc''].
  - destruct rs as [|r' rs]; [done|]. apply HdRel_inv in Hhd. apply Forall_cons in Hok as [Hr' _].
    apply from_le_key in Hhd; [|auto..]. destruct (merge_step out r); simpl in *; [done|lia].
  - split; [done|]. intros a Ha. rewrite Hc'', Hc by done. unfold Covers. rewrite Exists_cons. tauto.
Qed.

Lemma StronglySorted_rev {A} (R : relation A) l :
  StronglySorted (flip R) l → StronglySorted R (rev l).
Proof.
  induction 1 as [|x l Hs IH Hx]; [constructor|]. cbn [rev].
  apply StronglySorted_app. split_and!; [|done|repeat constructor].
  intros y z Hy%list_elem_of_In%in_rev%list_elem_of_In Hz%list_elem_of_singleton. subst z.
  rewrite Forall_forall in Hx. by apply Hx.
Qed.

Lemma Exists_rev {A} (P : A → Prop) l : Exists P (rev l) ↔ Exists P l.
Proof. rewrite !Exists_exists. setoid_rewrite list_elem_of_In. setoid_rewrite <- in_rev. done. Qed.

Lemma Forall_rev_iff {A} (P : A → Prop) l : Forall P (rev l) ↔ Forall P l.
Proof. rewrite !Forall_forall. setoid_rewrite list_elem_of_In. setoid_rewrite <- in_rev. done. Qed.

Lemma merge_sorted_spec rs :
  Forall range_ok rs → Sorted from_le rs →
  Normal (merge_sorted rs) ∧ ∀ a, addr_ok a → Covers (merge_sorted rs) a ↔ Covers rs a.
Proof.
  intros Hok Hs. destruct (merge_fold_ok rs []) as [[Hm Ha] Hc]; [by repeat constructor|done..|by destruct rs|].
  unfold merge_sorted. split; [split; [by apply Forall_rev_iff|by apply StronglySorted_rev]|].
  intros a Hok'. unfold Covers at 1. rewrite Exists_rev. fold (Covers (foldl merge_step [] rs) a).
  rewrite Hc by done. unfold Covers. rewrite Exists_nil. tauto.
Qed.

(** ** A normal list is determined by what it covers *)

Lemma Normal_cons r rs :
  Normal (r :: rs) ↔ range_ok r ∧ Normal rs ∧ Forall (apart r) rs.
Proof.
  unfold Normal. rewrite Forall_cons. split.
  - intros [[? ?] [? ?]%StronglySorted_inv]. done.
  - intros (? & [? ?] & ?). split; [done|by constructor].
Qed.

Lemma Covers_cons r rs a : Covers (r :: rs) a ↔ in_range r a ∨ Covers rs a.
Proof. apply Exists_cons. Qed.

Lemma Covers_above r rs a :
  range_ok r → Normal rs → Forall (apart r) rs → Covers rs a → key (r_to r) + 1 < key a.
Proof.
  intros Hr [Hok _] Hap (x & Hin & Hx)%Exists_exists. rewrite Forall_forall in Hap, Hok.
  apply Hap in Hin. unfold apart, in_range in *. lia.
Qed.

Lemma Covers_tail r rs a :
  Normal (r :: rs) → Covers rs a ↔ Covers (r :: rs) a ∧ key (r_to r) < key a.
Proof.
  intros (Hr & Hn & Hap)%Normal_cons. rewrite Covers_cons. split.
  - intros H. split; [by right|]. pose proof (Covers_above _ _ _ Hr Hn Hap H). lia.
  - intros [[H|H] Hk]; [|done]. unfold in_range in H. lia.
Qed.

(** The first range of a normal list starts at the least address covered, and
    ends before the first address not covered. *)
Lemma head_determined r rs r' rs' :
  Normal (r :: rs) → Normal (r' :: rs') →
  (∀ a, addr_ok a → Covers (r :: rs) a → Covers (r' :: rs') a) →
  key (r_from r') <= key (r_from r) ∧
  (key (r_from r) = key (r_from r') → key (r_to r) <= key (r_to r')).
Proof.
  intros (Hr & Hn & Hap)%Normal_cons (Hr' & Hn' & Hap')%Normal_cons H. split.
  - assert (Covers (r :: rs) (r_from r)) as Hc by (apply Covers_cons; left; split; [done|apply Hr]).
    apply H in Hc; [|by apply Hr]. apply Covers_cons in Hc as [[? _]|Hc]; [done|].
    pose proof (Covers_above _ _ _ Hr' Hn' Hap' Hc). destruct Hr'. lia.
  - intros E. apply Z.le_ngt. intros Hlt. destruct Hr as [Hf Ht Hfam Ho].
    destruct (key_between (r_from r) (r_to r) (key (r_to r') + 1)) as (c & Hc & Hk & _);
      [done..| |]. { destruct Hr'. lia. }
    assert (Covers (r :: rs) c) as Hcov
      by (apply Covers_cons; left; unfold in_range; destruct Hr'; lia).
    apply H in Hcov; [|done]. apply Covers_cons in Hcov as [[_ ?]|Hcov]; [lia|].
    pose proof (Covers_above _ _ _ Hr' Hn' Hap' Hcov). lia.
Qed.

Lemma Normal_covers_head r rs : Normal (r :: rs) → ∃ a, addr_ok a ∧ Covers (r :: rs) a.
Proof.
  intros (Hr & _)%Normal_cons. exists (r_from r). split; [apply Hr|].
  apply Covers_cons. left. split; [done|apply Hr].
Qed.

Lemma Normal_unique rs rs' :
  Normal rs → Normal rs' → (∀ a, addr_ok a → Covers rs a ↔ Covers rs' a) → rs = rs'.
Proof.
  revert rs'. induction rs as [|r rs IH]; intros [|r' rs'] Hn Hn' H; [done| | |].
  - apply Normal_covers_head in Hn' as (a & Ha & Hc). apply H in Hc; [|done]. by apply Exists_nil in Hc.
  - apply Normal_covers_head in Hn as (a & Ha & Hc). apply H in Hc; [|done]. by apply Exists_nil in Hc.
  - destruct (head_determined r rs r' rs') as [F1 T1]; [done..|naive_solver|].
    destruct (head_determined r' rs' r rs) as [F2 T2]; [done..|naive_solver|].
    pose proof Hn as (Hr & Hns & _)%Normal_cons. pose proof Hn' as (Hr' & Hns' & _)%Normal_cons.
    assert (r = r') as <-.
    { destruct r as [f t], r' as [f' t']. simpl in *. destruct Hr, Hr'. simpl in *.
      f_equal; apply key_inj; done || lia. }
    f_equal. apply IH; [done..|]. intros a Ha.
    by rewrite (Covers_tail r rs), (Covers_tail r rs'), H.
Qed.

(** ** Feeds *)

Lemma valid_ranges_ok ps : Forall prefix_ok ps → Forall range_ok (valid_ranges ps).
Proof.
  intros H. unfold valid_ranges. rewrite Forall_map. apply Forall_forall.
  intros p [Hv Hin]%list_elem_of_filter. rewrite Forall_forall in H. by apply range_of_ok; [apply H|].
Qed.

Lemma valid_ranges_covers ps a :
  Forall prefix_ok ps → addr_ok a →
  Covers (valid_ranges ps) a ↔ ∃ p, p ∈ ps ∧ IsValid p = true ∧ Contains p a = true.
Proof.
  intros H Ha. unfold Covers, valid_ranges. rewrite Exists_exists. rewrite Forall_forall in H. split.
  - intros (r & (p & -> & [Hv Hin]%list_elem_of_filter)%list_elem_of_fmap & Hr). exists p.
    split_and!; [done..|]. by apply range_of_contains in Hr; auto; apply H.
  - intros (p & Hin & Hv & Hc). exists (range_of p). split.
    + apply list_elem_of_fmap. exists p. split; [done|]. by apply list_elem_of_filter.
    + by apply range_of_contains; auto; apply H.
Qed.

#[global] Instance from_le_total : Total from_le.
Proof.
  intros a b. unfold from_le. destruct (r_from a) as [m|m z], (r_from b) as [n|n z']; simpl;
    [|by left|by right|].
  - rewrite !Z.compare_le_iff. lia.
  - rewrite (Z.compare_antisym m n), (String.compare_antisym z' z).
    destruct (Z.compare m n), (String.compare z z'); simpl; by (left; done) || (right; done).
Qed.

Lemma mergeRanges_spec ps :
  Forall prefix_ok ps →
  Normal (mergeRanges ps) ∧
  ∀ a, addr_ok a → Covers (mergeRanges ps) a ↔ ∃ p, p ∈ ps ∧ IsValid p = true ∧ Contains p a = true.
Proof.
  intros Hps. pose proof (merge_sort_Permutation from_le (valid_ranges ps)) as Hp'.
  destruct (merge_sorted_spec (merge_sort from_le (valid_ranges ps))) as [N2 C2];
    [by rewrite Hp'; apply valid_ranges_ok|by apply Sorted_merge_sort, _|].
  split; [done|]. intros a Ha. unfold mergeRanges. rewrite C2 by done. unfold Covers. rewrite Hp'.
  by apply valid_ranges_covers.
Qed.

(** The ranges of a feed.  Whatever order the unstable sort gives ranges that
    start at the same address, the merge gives one list: sorted, disjoint and not
    adjacent, the only shape the kernel's interval set accepts, covering exactly
    the addresses of the valid prefixes.  Two feeds that name the same addresses
    become the same list. *)
Theorem mergeRanges_canonical ps rs :
  Forall prefix_ok ps → rs ≡ₚ valid_ranges ps → Sorted from_le rs →
  merge_sorted rs = mergeRanges ps ∧ Normal (mergeRanges ps) ∧
  ∀ a, addr_ok a →
    Covers (mergeRanges ps) a ↔ ∃ p, p ∈ ps ∧ IsValid p = true ∧ Contains p a = true.
Proof.
  intros Hps Hp Hs. pose proof (valid_ranges_ok ps Hps) as Hok.
  destruct (merge_sorted_spec rs) as [N1 C1]; [by rewrite Hp|done|].
  pose proof (merge_sort_Permutation from_le (valid_ranges ps)) as Hp'.
  destruct (merge_sorted_spec (merge_sort from_le (valid_ranges ps))) as [N2 C2];
    [by rewrite Hp'|by apply Sorted_merge_sort, _|].
  split_and!; [|done|].
  - apply Normal_unique; [done..|]. intros a Ha. unfold mergeRanges. rewrite C1, C2 by done.
    unfold Covers. by rewrite Hp, Hp'.
  - intros a Ha. unfold mergeRanges. rewrite C2 by done. unfold Covers. rewrite Hp'.
    by apply valid_ranges_covers.
Qed.

Lemma mergeRanges_canonical_witness :
  let ps := omap ParseCIDR ["10.0.1.0/24"; "10.0.0.0/24"; "2001:db8::/32"; "10.0.0.9/32"] in
  Forall prefix_ok ps ∧
  Covers (mergeRanges ps) (Addr4 0x0a000109).
Proof.
  intros ps. assert (Forall prefix_ok ps) as Hps.
  { repeat constructor; unfold prefix_ok, addr_ok; vm_compute; try split; congruence. }
  split; [exact Hps|].
  apply (mergeRanges_canonical ps (merge_sort from_le (valid_ranges ps)) Hps).
  - apply merge_sort_Permutation.
  - apply Sorted_merge_sort, _.
  - split; [vm_compute; split; congruence|done].
  - exists (Prefix (Addr4 0x0a000100) 24). split; [by left|done].
Defined.

(** ** Two families *)

Lemma lower_bound_spec {A} (less : A → bool) fuel i j (l : list A) :
  (j - i < fuel)%nat → (i <= j <= length l)%nat →
  (∀ a b x y, (a < b)%nat → l !! a = Some x → l !! b = Some y → less y = true → less x = true) →
  (∀ k x, (k < i)%nat → l !! k = Some x → less x = true) →
  (∀ k x, (j <= k)%nat → l !! k = Some x → less x = false) →
  let n := lower_bound less fuel i j l in
  (∀ k x, (k < n)%nat → l !! k = Some x → less x = true) ∧
  (∀ k x, (n <= k)%nat → l !! k = Some x → less x = false).
Proof.
  revert i j. induction fuel as [|fuel IH]; intros i j Hf Hb Hm Hlo Hhi; [lia|]. cbn [lower_bound].
  destruct (Nat.ltb_spec i j) as [Hij|Hij].
  2:{ replace j with i in * by lia. done. }
  assert (i <= Nat.div2 (i + j) < j)%nat as Hh.
  { rewrite Nat.div2_div. pose proof (Nat.div_mod (i + j) 2 ltac:(lia)).
    pose proof (Nat.mod_upper_bound (i + j) 2 ltac:(lia)). lia. }
  set (h := Nat.div2 (i + j)) in *. clearbody h.
  destruct (l !! h) as [x|] eqn:E.
  2:{ apply lookup_ge_None in E. lia. }
  destruct (less x) eqn:L.
  - apply IH; [lia|lia|done| |done]. intros k y Hk Hy.
    destruct (decide (k = h)) as [->|]; [congruence|]. eapply (Hm k h); eauto. lia.
  - apply IH; [lia|lia|done|done|]. intros k y Hk Hy.
    destruct (decide (k = h)) as [->|]; [congruence|].
    destruct (less y) eqn:L'; [|done]. enough (less x = true) by congruence. eapply (Hm h k); eauto. lia.
Qed.

Lemma Normal_app l1 l2 : Normal (l1 ++ l2) → Normal l1 ∧ Normal l2.
Proof.
  unfold Normal. rewrite Forall_app, StronglySorted_app. tauto.
Qed.

Lemma splitFamilies_spec rs v4 v6 :
  Normal rs → splitFamilies rs = (v4, v6) →
  rs = v4 ++ v6 ∧ Forall (λ r, Is4 (r_from r) = true) v4 ∧ Forall (λ r, Is4 (r_from r) = false) v6.
Proof.
  intros Hn. pose proof (lower_bound_spec (λ r, Is4 (r_from r)) (S (length rs)) 0 (length rs) rs) as H.
  cbv zeta in H. unfold splitFamilies. revert H.
  generalize (lower_bound (λ r, Is4 (r_from r)) (S (length rs)) 0 (length rs) rs) as n.
  intros n H [= <- <-]. split; [by rewrite take_drop|].
  destruct H as [Hlo Hhi]; [lia|lia| |lia| |].
  - intros a b x y Hab Hx Hy. destruct Hn as [Hok Hs].
    pose proof (list_elem_of_split_length _ _ _ Hx) as (l1 & l2 & -> & ->).
    rewrite lookup_app_r, lookup_cons_ne_0 in Hy by lia.
    apply StronglySorted_app in Hs as (_ & _ & [_ Hs]%StronglySorted_inv).
    apply Forall_app in Hok as [_ [Hx' Hok]%Forall_cons].
    apply list_elem_of_lookup_2 in Hy. rewrite Forall_forall in Hs, Hok.
    specialize (Hs y Hy). specialize (Hok y Hy). unfold apart in *.
    destruct Hx' as [[? ?] [? ?] Hf ?], Hok as [[? ?] ? ? ?].
    destruct x as [[] []], y as [[] ?]; simpl in *; try done; lia.
  - intros k x Hk Hx. apply lookup_lt_Some in Hx. lia.
  - split; apply Forall_lookup; intros k x Hk.
    + apply lookup_take_Some in Hk as [? ?]. by eapply Hlo.
    + rewrite lookup_drop in Hk. eapply Hhi; [|done]. lia.
Qed.

(** ** The set *)

Lemma AsSlice_compare a b :
  addr_ok a → addr_ok b → Is4 a = Is4 b → memcmp (AsSlice a) (AsSlice b) = Z.compare (key a) (key b).
Proof.
  intros [Ha _] [Hb _] E. destruct a as [m|m z], b as [n|n z']; try done;
    cbn [addr_val BitLen key] in *; unfold AsSlice; rewrite ?Z.add_compare_mono_l; by apply memcmp_be_bytes.
Qed.

(** Ascending elements: an element not above the key replaces every earlier one. *)
Lemma greatest_step_le k best e a x :
  addr_ok a → addr_ok x → Is4 a = Is4 x → k = AsSlice a → Key e = AsSlice x →
  (∀ b, best = Some b → memcmp (Key e) (Key b) ≠ Lt) →
  greatest_step k best e = if key x <=? key a then Some e else best.
Proof.
  intros Ha Hx E -> He Hb. unfold greatest_step. rewrite He, AsSlice_compare by done.
  destruct (Z.compare_spec (key x) (key a)), (Z.leb_spec (key x) (key a)); try lia; [| |done];
    (destruct best as [b|]; [|done]); specialize (Hb b eq_refl); rewrite He in Hb;
    by destruct (memcmp (AsSlice x) (Key b)).
Qed.

(** What a walk over the elements leaves: the start of the range that covers the
    address, the end of one below it, or what there was before. *)
Definition lookup_state (rs : list addrRange) (a : addr) (best res : option SetElement) : Prop :=
  (Covers rs a ∧ ∃ e, res = Some e ∧ IntervalEnd e = false) ∨
  (¬ Covers rs a ∧ Exists (λ r, key (r_from r) <= key a) rs ∧ ∃ e, res = Some e ∧ IntervalEnd e = true) ∨
  (Forall (λ r, key a < key (r_from r)) rs ∧ res = best).

Lemma below_all rs a : Forall (λ r, key a < key (r_from r)) rs → ¬ Covers rs a.
Proof.
  intros H (r & Hin & Hr)%Exists_exists. rewrite Forall_forall in H. apply H in Hin.
  unfold in_range in Hr. lia.
Qed.

Lemma Next_None a b : addr_ok a → addr_ok b → Is4 a = Is4 b → Next a = None → key b <= key a.
Proof.
  intros [Ha _] [Hb _] E H. destruct a as [m|m z], b as [n|n z']; try done; simpl in *;
    (case_match eqn:K; [|done]); apply Z.eqb_eq in K; lia.
Qed.

(** The element before the ranges still to come. *)
Definition before (best : option SetElement) (a : addr) (rs : list addrRange) : Prop :=
  ∀ b, best = Some b → ∃ y, addr_ok y ∧ Is4 y = Is4 a ∧ Key b = AsSlice y ∧
       Forall (λ r, key y < key (r_from r)) rs.

Lemma before_ge best a rs x e :
  before best a rs → addr_ok x → Is4 x = Is4 a → Key e = AsSlice x →
  (∀ y, Forall (λ r, key y < key (r_from r)) rs → key y < key x) →
  ∀ b, best = Some b → memcmp (Key e) (Key b) ≠ Lt.
Proof.
  intros Hb Hx Ex He Hlt b Eb. destruct (Hb b Eb) as (y & Hy & Ey & Ky & Hall).
  rewrite He, Ky, AsSlice_compare by congruence. apply Hlt in Hall.
  rewrite Z.compare_lt_iff. lia.
Qed.

Lemma lookup_range r a best rs :
  range_ok r → addr_ok a → Is4 (r_from r) = Is4 a → before best a (r :: rs) →
  foldl (greatest_step (AsSlice a)) best (range_elements r) =
    if key a <? key (r_from r) then best
    else if key a <=? key (r_to r) then Some (mkSetElement (AsSlice (r_from r)) false)
    else match Next (r_to r) with
         | Some n => Some (mkSetElement (AsSlice n) true)
         | None => Some (mkSetElement (AsSlice (r_from r)) false)
         end.
Proof.
  intros [Hf Ht Efam Ho] Ha E Hb. unfold range_elements. cbn [foldl].
  rewrite (greatest_step_le _ _ _ a (r_from r)); [|done..|].
  2:{ eapply (before_ge _ a (r :: rs) (r_from r)); [done..|]. intros y Hy. by apply Forall_cons in Hy as [? _]. }
  rewrite Z.ltb_antisym. destruct (Z.leb_spec (key (r_from r)) (key a)) as [Hle|Hgt]; cbn [negb].
  - destruct (Next (r_to r)) as [n|] eqn:En; cbn [foldl].
    2:{ by destruct (key a <=? _). }
    destruct (Next_ok _ _ Ht En) as [Hn Fn]. apply Next_key in En; [|done..].
    rewrite (greatest_step_le _ _ _ a n); [|done|done|congruence|done..|].
    + destruct (Z.leb_spec (key n) (key a)), (Z.leb_spec (key a) (key (r_to r))); done || lia.
    + intros b [= <-]. simpl. rewrite AsSlice_compare; [|done..|congruence].
      rewrite Z.compare_lt_iff. lia.
  - destruct (Next (r_to r)) as [n|] eqn:En; cbn [foldl]; [|done].
    destruct (Next_ok _ _ Ht En) as [Hn Fn]. apply Next_key in En; [|done..].
    rewrite (greatest_step_le _ _ _ a n); [|done|done|congruence|done..|].
    + by rewrite (proj2 (Z.leb_gt _ _)) by lia.
    + eapply (before_ge _ a (r :: rs) n); [done|done|congruence|done|].
      intros y [? _]%Forall_cons. lia.
Qed.

Lemma lookup_fold rs a best :
  Normal rs → Forall (λ r, Is4 (r_from r) = Is4 a) rs → addr_ok a → before best a rs →
  lookup_state rs a best (foldl (greatest_step (AsSlice a)) best (rangeElements rs)).
Proof.
  revert best. induction rs as [|r rs IH]; intros best Hn Hf Ha Hb; [by right; right|].
  apply Normal_cons in Hn as (Hr & Hn & Hap). apply Forall_cons in Hf as [Fr Hf].
  unfold rangeElements. cbn [flat_map]. rewrite foldl_app, (lookup_range r a best rs) by done.
  fold (rangeElements rs).
  assert (key a <= key (r_to r) + 1 → Forall (λ x, key a < key (r_from x)) rs) as Habove.
  { intros. eapply Forall_impl; [exact Hap|]. unfold apart. intros. lia. }
  assert (∀ x e, addr_ok x → Is4 x = Is4 a → Key e = AsSlice x → key x <= key (r_to r) + 1 →
            before (Some e) a rs) as Hbef.
  { intros x e Hx Ex Kx Hle b [= <-]. exists x. split_and!; [done..|].
    eapply Forall_impl; [exact Hap|]. unfold apart. intros. lia. }
  destruct (Z.ltb_spec (key a) (key (r_from r))) as [Hlt|Hge].
  - assert (Forall (λ x, key a < key (r_from x)) rs) as Hall by (apply Habove; destruct Hr; lia).
    destruct (IH best) as [[Hc _]|[(_ & He & _)|[_ He]]]; [done..| | | |].
    + intros b Eb. destruct (Hb b Eb) as (y & ? & ? & ? & [_ ?]%Forall_cons). eauto 6.
    + by apply below_all in Hc.
    + apply Exists_exists in He as (x & Hin & Hx). rewrite Forall_forall in Hall. apply Hall in Hin. lia.
    + right; right. split; [by constructor|done].
  - destruct (Z.leb_spec (key a) (key (r_to r))) as [Hle|Hgt].
    + left. split; [apply Covers_cons; by left|].
      destruct (IH (Some (mkSetElement (AsSlice (r_from r)) false))) as [[Hc _]|[(_ & He & _)|[_ ->]]]; [done..| | | |].
      * eapply Hbef; [apply Hr|done|done|]. destruct Hr; lia.
      * apply below_all in Hc; [done|]. apply Habove. lia.
      * apply Exists_exists in He as (x & Hin & Hx). specialize (Habove ltac:(lia)).
        rewrite Forall_forall in Habove. apply Habove in Hin. lia.
      * by eexists.
    + destruct Hr as [Rf Rt Rfam Ro]. destruct (Next (r_to r)) as [n|] eqn:En.
      2:{ pose proof (Next_None _ a Rt Ha ltac:(congruence) En). lia. }
      destruct (Next_ok _ _ Rt En) as [Hno Fn]. apply Next_key in En; [|done..].
      destruct (IH (Some (mkSetElement (AsSlice n) true))) as [[Hc He]|[(Hc & _ & He)|[Hall ->]]]; [done..| | | |].
      * eapply (Hbef n); [done|congruence|done|lia].
      * left. split; [apply Covers_cons; by right|done].
      * right; left. split_and!; [|by apply Exists_cons; left|done].
        intros [[_ ?]|?]%Covers_cons; [lia|done].
      * right; left. split_and!; [|by apply Exists_cons; left|by eexists].
        intros [[_ ?]|?]%Covers_cons; [lia|]. by eapply below_all.
Qed.

(** The elements of one family's ranges, read back by the kernel. *)
Lemma rangeElements_lookup rs a :
  Normal rs → Forall (λ r, Is4 (r_from r) = Is4 a) rs → addr_ok a →
  in_interval_set (rangeElements rs) (AsSlice a) = true ↔ Covers rs a.
Proof.
  intros Hn Hf Ha. unfold in_interval_set.
  destruct (lookup_fold rs a None Hn Hf Ha) as [[Hc (e & -> & He)]|[(Hc & _ & e & -> & He)|[Hall ->]]].
  - done.
  - by rewrite He.
  - by rewrite He.
  - split; [done|]. intros Hc. by apply below_all in Hc.
Qed.

Lemma splitFamilies_covers rs v4 v6 a :
  Normal rs → addr_ok a → splitFamilies rs = (v4, v6) →
  Covers rs a ↔ Covers (if Is4 a then v4 else v6) a.
Proof.
  intros Hn Ha Hs. destruct (splitFamilies_spec rs v4 v6 Hn Hs) as (-> & H4 & H6).
  unfold Covers. rewrite Exists_app.
  assert (∀ l b, Forall range_ok l → Forall (λ r, Is4 (r_from r) = b) l → Is4 a ≠ b →
                 ¬ Exists (λ r, in_range r a) l) as Hno.
  { intros l b Hok Hb Hne (r & Hin & Hr)%Exists_exists. rewrite Forall_forall in Hok, Hb.
    specialize (Hok r Hin). specialize (Hb r Hin). destruct Hok. apply Hne. rewrite <- Hb.
    by apply (key_family _ (r_to r)). }
  destruct Hn as [[O4 O6]%Forall_app _]. destruct (Is4 a) eqn:E.
  - split; [|by left]. intros [?|H]; [done|]. exfalso. revert H. by eapply Hno.
  - split; [|by right]. intros [H|?]; [|done]. exfalso. revert H. by eapply Hno.
Qed.

(** The elements [addFeeds] loads into the set of one family. *)
Definition feed_elements (v6 : bool) (ps : list prefix) : list SetElement :=
  let '(r4, r6) := splitFamilies (mergeRanges ps) in
  flat_map rangeElements (chunks_of v6 (if v6 then r6 else r4)).

Lemma feed_chunks_concat fuel per rs :
  1 <= per → (length rs <= fuel)%nat → concat (feed_chunks fuel per rs) = rs.
Proof.
  intros Hper. revert rs. induction fuel as [|fuel IH]; intros [|r rs] Hf; simpl in Hf; try done; try lia.
  cbn [feed_chunks concat]. rewrite IH; [by rewrite take_drop|].
  rewrite length_drop. unfold zlen. simpl length. lia.
Qed.

Lemma chunks_of_concat v6 rs : concat (chunks_of v6 rs) = rs.
Proof. apply feed_chunks_concat; [by destruct v6|done]. Qed.

Lemma flat_map_concat {A B} (f : A → list B) ls :
  flat_map (flat_map f) ls = flat_map f (concat ls).
Proof. induction ls as [|l ls IH]; [done|]. cbn. by rewrite flat_map_app, IH. Qed.

(** The set of one feed and family, read back. *)
Lemma feed_elements_lookup ps a :
  Forall prefix_ok ps → addr_ok a →
  in_interval_set (feed_elements (negb (Is4 a)) ps) (AsSlice a) = true ↔
  ∃ p, p ∈ ps ∧ IsValid p = true ∧ Contains p a = true.
Proof.
  intros Hps Ha. pose proof (merge_sort_Permutation from_le (valid_ranges ps)) as Hp.
  destruct (merge_sorted_spec (merge_sort from_le (valid_ranges ps))) as [Hn Hc];
    [by rewrite Hp; apply valid_ranges_ok|by apply Sorted_merge_sort, _|].
  fold (mergeRanges ps) in Hn, Hc. unfold feed_elements.
  destruct (splitFamilies (mergeRanges ps)) as [v4 v6] eqn:Es.
  rewrite <- valid_ranges_covers by done. unfold Covers at 1. rewrite <- Hp.
  fold (Covers (merge_sort from_le (valid_ranges ps)) a).
  rewrite <- Hc, (splitFamilies_covers _ v4 v6) by done. unfold rangeElements at 1.
  rewrite flat_map_concat, chunks_of_concat. fold (rangeElements (if negb (Is4 a) then v6 else v4)).
  destruct (splitFamilies_spec _ _ _ Hn Es) as (E & F4 & F6). rewrite E in Hn.
  apply Normal_app in Hn as [N4 N6]. destruct (Is4 a) eqn:Ea; cbn [negb];
    apply rangeElements_lookup; try done; by rewrite Ea.
Qed.

(** C9: the kernel refuses exactly the addresses the list names.  An address of a
    family is in the set [addFeeds] fills for that feed and family exactly when
    one of the feed's valid prefixes contains it. *)
Theorem feed_set_holds_the_prefixes ps a :
  Forall prefix_ok ps → addr_ok a →
  in_interval_set (feed_elements (negb (Is4 a)) ps) (AsSlice a) = true ↔
  ∃ p, p ∈ ps ∧ IsValid p = true ∧ Contains p a = true.
Proof. apply feed_elements_lookup. Qed.

Lemma feed_set_holds_the_prefixes_witness :
  let ps := omap ParseCIDR ["10.0.1.0/24"; "10.0.0.0/24"; "2001:db8::/32"; "::/0"; "255.255.255.255/32"] in
  Forall prefix_ok ps ∧ addr_ok (Addr4 0xffffffff) ∧
  (in_interval_set (feed_elements false ps) (AsSlice (Addr4 0xffffffff)) = true ↔
   ∃ p, p ∈ ps ∧ IsValid p = true ∧ Contains p (Addr4 0xffffffff) = true).
Proof.
  intros ps. assert (Forall prefix_ok ps) as Hps.
  { repeat constructor; unfold prefix_ok, addr_ok; vm_compute; try split; congruence. }
  assert (addr_ok (Addr4 0xffffffff)) as Ha by (split; [vm_compute; split; congruence|done]).
  split; [exact Hps|]. split; [exact Ha|].
  exact (feed_set_holds_the_prefixes ps (Addr4 0xffffffff) Hps Ha).
Defined.

(** The bytes of one call's element list: what the comment of the source says the
    library sends for a range of that family. *)
Definition range_bytes (v6 : bool) : Z := if v6 then feedRangeBytesV6 else feedRangeBytesV4.

Lemma feed_chunks_length fuel per rs c :
  1 <= per → c ∈ feed_chunks fuel per rs → 1 <= zlen c <= per.
Proof.
  intros Hper. revert rs. induction fuel as [|fuel IH]; intros [|r rs] Hc; try by apply not_elem_of_nil in Hc.
  cbn [feed_chunks] in Hc. apply elem_of_cons in Hc as [->|Hc]; [|by eapply IH].
  unfold zlen. rewrite length_take. simpl length. lia.
Qed.

Lemma feed_chunks_count fuel per rs :
  1 <= per → (length rs <= fuel)%nat →
  zlen (feed_chunks fuel per rs) <= zlen rs / per + 1.
Proof.
  intros Hper. revert rs. induction fuel as [|fuel IH]; intros rs Hf.
  { destruct rs; simpl in *; [|lia]. unfold zlen. simpl. rewrite Z.div_0_l; lia. }
  destruct rs as [|r rs]; [unfold zlen; simpl; rewrite Z.div_0_l; lia|].
  cbn [feed_chunks]. set (l := r :: rs) in *.
  assert (1 <= zlen l) by (unfold zlen, l; simpl length; lia).
  specialize (IH (drop (Z.to_nat (Z.min per (zlen l))) l)).
  assert (zlen (drop (Z.to_nat (Z.min per (zlen l))) l) = zlen l - Z.min per (zlen l)) as E
    by (unfold zlen; rewrite length_drop; lia).
  assert (zlen (feed_chunks fuel per (drop (Z.to_nat (Z.min per (zlen l))) l))
          <= (zlen l - Z.min per (zlen l)) / per + 1) as IH'.
  { rewrite <- E. apply IH. rewrite length_drop. unfold zlen, l in *. simpl length in *. lia. }
  destruct (Z.le_gt_cases per (zlen l)).
  - rewrite Z.min_l in * by lia.
    assert (zlen l / per = (zlen l - per) / per + 1) as ->
      by (rewrite <- Z.div_add by lia; f_equal; lia).
    unfold zlen at 1. cbn [length]. unfold zlen in *. lia.
  - rewrite Z.min_r in * by lia. replace (Z.to_nat (zlen l)) with (length l) by (unfold zlen; lia).
    rewrite drop_all. pose proof (Z.div_pos (zlen l) per ltac:(lia) ltac:(lia)).
    unfold zlen at 1. destruct fuel; simpl; lia.
Qed.

(** No element list is truncated.  Every [SetAddElements] call carries at
    least one range and fits the 16-bit length of its attribute, the calls
    together carry every range in order, and the batch size the send buffer is
    given counts every element and every call. *)
Theorem feed_elements_fit v4 v6 :
  Forall (λ c, 1 <= zlen c ∧ zlen c * range_bytes false <= 65531) (chunks_of false v4) ∧
  Forall (λ c, 1 <= zlen c ∧ zlen c * range_bytes true <= 65531) (chunks_of true v6) ∧
  concat (chunks_of false v4) = v4 ∧ concat (chunks_of true v6) = v6 ∧
  zlen v4 * range_bytes false + zlen v6 * range_bytes true +
    256 * (zlen (chunks_of false v4) + zlen (chunks_of true v6)) <= feedElementBytes v4 v6.
Proof.
  assert (∀ b rs c, c ∈ chunks_of b rs → 1 <= zlen c <= feedRangesPerChunk b) as H.
  { intros b rs c Hc. eapply feed_chunks_length, Hc. by destruct b. }
  split_and!; [| |apply chunks_of_concat..|].
  - apply Forall_forall. intros c Hc%H. change (feedRangesPerChunk false) with 1638 in Hc.
    unfold range_bytes, feedRangeBytesV4. lia.
  - apply Forall_forall. intros c Hc%H. change (feedRangesPerChunk true) with 1023 in Hc.
    unfold range_bytes, feedRangeBytesV6. lia.
  - unfold feedElementBytes, range_bytes, chunks_of.
    pose proof (feed_chunks_count (length v4) (feedRangesPerChunk false) v4 ltac:(done) ltac:(done)).
    pose proof (feed_chunks_count (length v6) (feedRangesPerChunk true) v6 ltac:(done) ltac:(done)).
    lia.
Qed.
