(* ===== verification/Nft.v ===== *)
(** * The rule language of the kernel

    The expressions the builders of [src/internal/core/nftables.go] put together
    are data of the google/nftables library, and the kernel gives them their
    meaning.  Neither is code of this repository: [Expr] names the expressions
    and fields the code uses, and [run] and [eval_chain] state the documented
    reading of a rule (nft(8)), which is the specification the builders are held
    to.  Every expression of the code works on register 1, so there is one
    register.  What a packet is to the rules, down to the verdict of the stateful
    expressions, is the record [Packet]. *)
From S2P Require Import Prelude GoStrings GoNet NetBytes FeedRanges.

Local Open Scope Z_scope.

(** ** Constants of the kernel's headers *)

Definition NFPROTO_IPV4 : Z := 2.
Definition NFPROTO_IPV6 : Z := 10.
Definition IPPROTO_ICMP : Z := 1.
Definition IPPROTO_TCP : Z := 6.
Definition IPPROTO_UDP : Z := 17.
Definition IPPROTO_ICMPV6 : Z := 58.
Definition RTN_LOCAL : Z := 2.
Definition RTN_ANYCAST : Z := 4.
Definition PACKET_BROADCAST : Z := 1.
Definition PACKET_MULTICAST : Z := 2.

(** ** Expressions *)

Inductive MetaKey := NFPROTO | L4PROTO | IIFNAME | PKTTYPE.
Inductive CmpOp := CmpEq | CmpNeq | CmpGte | CmpLte.
Inductive PayloadBase := NetworkHeader | TransportHeader.
Inductive VerdictKind := VerdictAccept | VerdictDrop | VerdictReturn | VerdictJump (chain : string).
Inductive LimitTime := PerSecond | PerMinute.

(** What a dynamic set runs for its element: a rate over which it passes, or a
    number of connections over which it does. *)
Inductive SetStatement :=
| OverRate (rate : Z) (unit : LimitTime) (burst timeout : Z)
| OverConnections (count : Z).

Inductive Expr :=
| Meta (k : MetaKey)
| Cmp (op : CmpOp) (data : list Z)
| Payload (base : PayloadBase) (offset len : Z)
| Bitwise (len : Z) (mask xor : list Z)
| Ct
| Fib
| Lookup (set : string)
| Dynset (set : string) (stmt : SetStatement)
| Limit (rate : Z) (unit : LimitTime) (burst : Z)
| Log (key : Z) (data : string) (group snaplen : Z)
| Counter
| Verdict (v : VerdictKind)
| Immediate (data : list Z)
| Redir.

#[global] Instance MetaKey_eq_dec : EqDecision MetaKey.
Proof. solve_decision. Defined.
#[global] Instance CmpOp_eq_dec : EqDecision CmpOp.
Proof. solve_decision. Defined.
#[global] Instance PayloadBase_eq_dec : EqDecision PayloadBase.
Proof. solve_decision. Defined.
#[global] Instance VerdictKind_eq_dec : EqDecision VerdictKind.
Proof. solve_decision. Defined.
#[global] Instance LimitTime_eq_dec : EqDecision LimitTime.
Proof. solve_decision. Defined.
#[global] Instance SetStatement_eq_dec : EqDecision SetStatement.
Proof. solve_decision. Defined.
#[global] Instance Expr_eq_dec : EqDecision Expr.
Proof. solve_decision. Defined.

(** A rule is added to a chain by name; the tag is the comment in its user data,
    empty when it has none. *)
Record Rule := mkRule { r_chain : string; r_exprs : list Expr; r_tag : string }.

(** ** Packets *)

(** The byte order of the machine: registers the kernel fills with a 32-bit value
    hold it natively. *)
Class Host := { little_endian : bool }.

Definition NativeEndian_PutUint32 `{Host} (v : Z) : list Z :=
  if little_endian then rev (be_bytes 4 v) else be_bytes 4 v.

Record Packet := mkPacket {
  pk_nfproto : Z;
  pk_l4proto : Z;
  pk_iif : list Z;            (* the name of the arrival interface, with its zeros *)
  pk_type : Z;
  pk_network : list Z;        (* the network header, and the transport header *)
  pk_transport : list Z;
  pk_ct : Z;                  (* conntrack state bits *)
  pk_daddr : Z;               (* what the FIB says the destination is *)
  pk_over : string → bool;    (* does this dynamic set's statement pass? *)
  pk_log : bool }.            (* is a log line within its rate? *)

Definition header (pk : Packet) (base : PayloadBase) : list Z :=
  match base with NetworkHeader => pk_network pk | TransportHeader => pk_transport pk end.

(** [len] bytes from [off]. *)
Definition slice (off len : Z) (l : list Z) : list Z := take (Z.to_nat len) (drop (Z.to_nat off) l).

(** ** Evaluation *)

Inductive outcome :=
| NoMatch
| Fall (reg : list Z)         (* every expression passed, no verdict *)
| Decide (v : VerdictKind)
| Redirect (port : list Z).

Definition cmp_holds (op : CmpOp) (reg data : list Z) : bool :=
  let c := memcmp (take (length data) reg) data in
  match op with
  | CmpEq => bool_decide (take (length data) reg = data)
  | CmpNeq => negb (bool_decide (take (length data) reg = data))
  | CmpGte => match c with Lt => false | _ => true end
  | CmpLte => match c with Gt => false | _ => true end
  end.

Section Eval.
Context `{Host} (sets : string → list SetElement) (pk : Packet).

Definition step (reg : list Z) (e : Expr) : outcome :=
  match e with
  | Meta NFPROTO => Fall [pk_nfproto pk]
  | Meta L4PROTO => Fall [pk_l4proto pk]
  | Meta IIFNAME => Fall (pk_iif pk)
  | Meta PKTTYPE => Fall [pk_type pk]
  | Cmp op data => if cmp_holds op reg data then Fall reg else NoMatch
  | Payload base off len =>
      let b := slice off len (header pk base) in
      if Z.of_nat (length b) =? len then Fall b else NoMatch
  | Bitwise len mask xor =>
      Fall (zip_with Z.lxor (zip_with Z.land (take (Z.to_nat len) reg) mask) xor)
  | Ct => Fall (NativeEndian_PutUint32 (pk_ct pk))
  | Fib => Fall (NativeEndian_PutUint32 (pk_daddr pk))
  | Lookup set => if in_interval_set (sets set) reg then Fall reg else NoMatch
  | Dynset set _ => if pk_over pk set then Fall reg else NoMatch
  | Limit _ _ _ => if pk_log pk then Fall reg else NoMatch
  | Log _ _ _ _ | Counter => Fall reg
  | Verdict v => Decide v
  | Immediate data => Fall data
  | Redir => Redirect reg
  end.

Fixpoint run (reg : list Z) (es : list Expr) : outcome :=
  match es with
  | [] => Fall reg
  | e :: es =>
      match step reg e with
      | Fall reg => run reg es
      | o => o
      end
  end.

(** What a chain decides.  [TooDeep] is a jump past the kernel's stack, which
    refuses to load such a table. *)
Inductive decision := Accepted | Dropped | Returned | RedirectedTo (port : list Z) | TooDeep.

Fixpoint eval_rules (jump : string → decision) (rs : list Rule) : decision :=
  match rs with
  | [] => Returned
  | r :: rs =>
      match run [] (r_exprs r) with
      | NoMatch | Fall _ => eval_rules jump rs
      | Decide VerdictAccept => Accepted
      | Decide VerdictDrop => Dropped
      | Decide VerdictReturn => Returned
      | Decide (VerdictJump c) =>
          match jump c with
          | Returned => eval_rules jump rs
          | d => d
          end
      | Redirect p => RedirectedTo p
      end
  end.

Definition chain_rules (tbl : list Rule) (c : string) : list Rule :=
  filter (λ r, r_chain r = c) tbl.

Fixpoint eval_chain (depth : nat) (tbl : list Rule) (c : string) : decision :=
  match depth with
  | O => TooDeep
  | S depth => eval_rules (eval_chain depth tbl) (chain_rules tbl c)
  end.

(** The kernel's jump stack. *)
Definition NFT_JUMP_STACK_SIZE : nat := 16.

(** A base chain: its policy decides what its rules do not. *)
Definition base_chain (tbl : list Rule) (c : string) (policy : decision) : decision :=
  match eval_chain NFT_JUMP_STACK_SIZE tbl c with
  | Returned => policy
  | d => d
  end.

(** [m] passes exactly when [b] holds, whatever the register held. *)
Definition Matches (m : list Expr) (b : bool) : Prop :=
  ∀ reg, if b then ∃ reg', run reg m = Fall reg' else run reg m = NoMatch.

Lemma run_app reg a b :
  run reg (a ++ b) = match run reg a with Fall reg => run reg b | o => o end.
Proof.
  revert reg. induction a as [|e a IH]; intros reg; [done|]. cbn [app run].
  destruct (step reg e); [done|apply IH|done..].
Qed.

Lemma Matches_nil : Matches [] true.
Proof. intros reg. by exists reg. Qed.

Lemma Matches_app m m' b b' : Matches m b → Matches m' b' → Matches (m ++ m') (b && b').
Proof.
  intros Hm Hm' reg. rewrite run_app. specialize (Hm reg). destruct b; simpl.
  - destruct Hm as [reg' ->]. apply Hm'.
  - by rewrite Hm.
Qed.

(** What follows a failed test is not read. *)
Lemma Matches_app_if m m' b b' :
  Matches m b → (b = true → Matches m' b') → Matches (m ++ m') (b && b').
Proof.
  intros Hm Hm' reg. rewrite run_app. specialize (Hm reg). destruct b; simpl.
  - destruct Hm as [reg' ->]. by apply Hm'.
  - by rewrite Hm.
Qed.

Lemma Matches_counter m b : Matches m b → Matches (m ++ [Counter]) b.
Proof.
  intros Hm. rewrite <- (andb_true_r b). apply Matches_app; [done|]. intros reg. by exists reg.
Qed.

Lemma Matches_inj m b b' : Matches m b → Matches m b' → b = b'.
Proof.
  intros H1 H2. specialize (H1 []). specialize (H2 []).
  destruct b, b'; try done; [destruct H1 as [? H1]|destruct H2 as [? H2]]; congruence.
Qed.

(** A matching rule with a verdict. *)
Lemma run_verdict m b v : Matches m b → run [] (m ++ [Verdict v]) = if b then Decide v else NoMatch.
Proof.
  intros Hm. rewrite run_app. specialize (Hm []). destruct b; [by destruct Hm as [reg ->]|by rewrite Hm].
Qed.

(** A rule without a verdict is passed over. *)
Definition silent (e : Expr) : Prop := match e with Verdict _ | Redir => False | _ => True end.

Lemma run_silent reg m :
  Forall silent m → (∃ reg', run reg m = Fall reg') ∨ run reg m = NoMatch.
Proof.
  intros Hm. revert reg. induction Hm as [|e m He Hm IH]; intros reg; [by left; exists reg|].
  cbn [run]. assert (step reg e = NoMatch ∨ ∃ r, step reg e = Fall r) as [->|[r ->]]; [|by right|apply IH].
  destruct e as [[]|op data| | | | |set|set stmt| | | | | |]; try done; cbn [step]; try case_match; eauto.
Qed.

Lemma eval_rules_silent jump r rs :
  Forall silent (r_exprs r) → eval_rules jump (r :: rs) = eval_rules jump rs.
Proof. intros Hr. cbn [eval_rules]. by destruct (run_silent [] (r_exprs r) Hr) as [[reg ->]| ->]. Qed.

(** The verdicts a rule can reach. *)
Definition never_returns (r : Rule) : Prop := Verdict VerdictReturn ∉ r_exprs r.

Lemma run_verdict_in reg es v : run reg es = Decide v → Verdict v ∈ es.
Proof.
  revert reg. induction es as [|e es IH]; intros reg; [done|]. cbn [run].
  destruct (step reg e) as [|reg'|v'|p] eqn:E; try done.
  - intros ?%IH. by right.
  - intros [= ->]. destruct e; cbn in E; repeat case_match; try done. injection E as ->. by left.
Qed.

(** Consecutive rules, when none of the first leaves the chain. *)
Lemma eval_rules_app jump a b :
  Forall never_returns a →
  eval_rules jump (a ++ b) =
    match eval_rules jump a with Returned => eval_rules jump b | d => d end.
Proof.
  induction 1 as [|r a Hr Ha IH]; [done|]. cbn [app eval_rules].
  destruct (run [] (r_exprs r)) as [|reg|[]|p] eqn:E; simpl; try done.
  - exfalso. apply Hr. by eapply run_verdict_in.
  - by destruct (jump chain).
Qed.

(** One rule in front. *)
Lemma eval_rules_verdict jump c m b v tag rs :
  Matches m b →
  eval_rules jump (mkRule c (m ++ [Verdict v]) tag :: rs) =
    if b then match v with
              | VerdictAccept => Accepted
              | VerdictDrop => Dropped
              | VerdictReturn => Returned
              | VerdictJump t => match jump t with Returned => eval_rules jump rs | d => d end
              end
    else eval_rules jump rs.
Proof.
  intros Hm. cbn [eval_rules r_exprs]. rewrite (run_verdict m b) by done. by destruct b, v.
Qed.
(** ** Blocks of rules

    [decides jump rs b d]: whatever follows, the rules [rs] end the chain with
    [d] when [b] holds and are passed over when it does not. *)
Definition decides (jump : string → decision) (rs : list Rule) (b : bool) (d : decision) : Prop :=
  ∀ rest, eval_rules jump (rs ++ rest) = if b then d else eval_rules jump rest.

Lemma decides_nil jump d : decides jump [] false d.
Proof. done. Qed.

Lemma decides_app jump a a' b b' d :
  decides jump a b d → decides jump a' b' d → decides jump (a ++ a') (b || b') d.
Proof. intros Ha Ha' rest. rewrite <- app_assoc, Ha. destruct b; [done|]. by rewrite Ha'. Qed.

Lemma decides_flat_map {A} jump (f : A → list Rule) (g : A → bool) l d :
  (∀ x, x ∈ l → decides jump (f x) (g x) d) → decides jump (flat_map f l) (existsb g l) d.
Proof.
  induction l as [|x l IH]; intros Hf; [apply decides_nil|]. cbn [flat_map existsb].
  apply decides_app; [apply Hf; by left|apply IH]. intros y Hy. apply Hf. by right.
Qed.

Lemma decides_eval jump rs b d : decides jump rs b d → eval_rules jump rs = if b then d else Returned.
Proof. intros Hd. specialize (Hd []). by rewrite app_nil_r in Hd. Qed.

Definition decision_of (v : VerdictKind) : decision :=
  match v with VerdictAccept => Accepted | VerdictDrop => Dropped | _ => Returned end.

Definition final (v : VerdictKind) : Prop := match v with VerdictJump _ => False | _ => True end.

Lemma decides_verdict jump c m b v tag :
  Matches m b → final v → decides jump [mkRule c (m ++ [Verdict v]) tag] b (decision_of v).
Proof.
  intros Hm Hv rest. cbn [app]. rewrite (eval_rules_verdict jump c m b) by done. by destruct b, v.
Qed.

Lemma decides_jump jump c m b t tag d :
  Matches m b → jump t = d → d ≠ Returned → decides jump [mkRule c (m ++ [Verdict (VerdictJump t)]) tag] b d.
Proof.
  intros Hm Hj Hd rest. cbn [app]. rewrite (eval_rules_verdict jump c m b) by done. rewrite Hj.
  destruct b; [by destruct d|done].
Qed.

(** A jump into a chain that returns changes nothing. *)
Lemma decides_jump_back jump c m b t tag d :
  Matches m b → jump t = Returned → decides jump [mkRule c (m ++ [Verdict (VerdictJump t)]) tag] false d.
Proof.
  intros Hm Hj rest. cbn [app]. rewrite (eval_rules_verdict jump c m b) by done. rewrite Hj. by destruct b.
Qed.

Lemma decides_silent jump r d : Forall silent (r_exprs r) → decides jump [r] false d.
Proof. intros Hr rest. cbn [app]. by apply eval_rules_silent. Qed.

Lemma decides_false jump rs d d' : decides jump rs false d → decides jump rs false d'.
Proof. done. Qed.

(** A failed test, whatever would follow it. *)
Lemma decides_nomatch jump c m v tag d :
  Matches m false → decides jump [mkRule c (m ++ [Verdict v]) tag] false d.
Proof. intros Hm rest. cbn [app]. by rewrite (eval_rules_verdict jump c m false). Qed.

(** A rule whose set statement does not pass reaches nothing after it. *)
Lemma run_dynset_closed reg a set stmt b :
  Forall silent a → pk_over pk set = false → run reg (a ++ Dynset set stmt :: b) = NoMatch.
Proof.
  intros Ha Ho. rewrite run_app. destruct (run_silent reg a Ha) as [[reg' ->]| ->]; [|done].
  cbn [run step]. by rewrite Ho.
Qed.

Lemma decides_dynset_closed jump c a set stmt b tag d :
  Forall silent a → pk_over pk set = false → decides jump [mkRule c (a ++ Dynset set stmt :: b) tag] false d.
Proof. intros Ha Ho rest. cbn [app eval_rules r_exprs]. by rewrite run_dynset_closed. Qed.

(** A jump into a chain that returns, whatever leads to it. *)
Lemma decides_visit jump c m t tag d :
  Forall silent m → jump t = Returned → decides jump [mkRule c (m ++ [Verdict (VerdictJump t)]) tag] false d.
Proof.
  intros Hm Hj rest. cbn [app eval_rules r_exprs]. rewrite run_app.
  destruct (run_silent [] m Hm) as [[reg ->]| ->]; [|done]. cbn [run step]. by rewrite Hj.
Qed.

(** The rules an entry of a list becomes. *)
Definition entry_rules {A} (mb : A → option (list Expr)) (mk : list Expr → list Rule) (l : list A) : list Rule :=
  flat_map (λ x, match mb x with Some m => mk m | None => [] end) l.

Lemma decides_entries {A} jump (mb : A → option (list Expr)) mk (cov : A → bool) l d :
  (∀ x, x ∈ l → match mb x with
                | Some m => decides jump (mk m) (cov x) d
                | None => cov x = false
                end) →
  decides jump (entry_rules mb mk l) (existsb cov l) d.
Proof.
  intros Hl. apply decides_flat_map. intros x Hx. specialize (Hl x Hx).
  destruct (mb x); [done|]. rewrite Hl. apply decides_nil.
Qed.
End Eval.

#[global] Arguments decides {_} sets pk jump rs b d.
#[global] Arguments Matches {_} sets pk m b.
#[global] Arguments header : simpl never.
#[global] Arguments slice : simpl never.

(** ** The tests the builders are made of *)

Section Tests.
Context `{Host} (sets : string → list SetElement) (pk : Packet).

Lemma Matches_meta_byte k v :
  (k = NFPROTO ∨ k = L4PROTO ∨ k = PKTTYPE) →
  let x := match k with NFPROTO => pk_nfproto pk | L4PROTO => pk_l4proto pk | _ => pk_type pk end in
  Matches sets pk [Meta k; Cmp CmpEq [v]] (x =? v).
Proof.
  intros Hk x reg. cbn [run].
  assert (step sets pk reg (Meta k) = Fall [x]) as -> by by destruct Hk as [->|[->| ->]].
  cbn [step cmp_holds length take].
  destruct (Z.eqb_spec x v) as [->|Hne]; [rewrite bool_decide_true by done; eauto|].
  rewrite bool_decide_false by congruence. done.
Qed.

(** The interface name is compared with its terminating zero, so "lo" does not
    match "lo0". *)
Definition on_loopback : bool := bool_decide (take 3 (pk_iif pk) = [108; 111; 0]).

Lemma Matches_iif_lo : Matches sets pk [Meta IIFNAME; Cmp CmpEq [108; 111; 0]] on_loopback.
Proof. intros reg. cbn. unfold on_loopback. destruct (bool_decide _); eauto. Qed.

Lemma Matches_iif_not_lo :
  Matches sets pk [Meta IIFNAME; Cmp CmpNeq [108; 111; 0]] (negb on_loopback).
Proof. intros reg. cbn. unfold on_loopback. destruct (bool_decide _); simpl; eauto. Qed.

(** A load of [len] bytes that are there. *)
Definition loads (base : PayloadBase) (off len : Z) (b : list Z) : Prop :=
  slice off len (header pk base) = b ∧ Z.of_nat (length b) = len.

Lemma run_payload reg base off len b es :
  loads base off len b → run sets pk reg (Payload base off len :: es) = run sets pk b es.
Proof. intros [E Hl]. cbn [run step]. by rewrite E, (proj2 (Z.eqb_eq _ _) Hl). Qed.

Lemma Matches_payload_cmp base off len b op data :
  loads base off len b →
  Matches sets pk [Payload base off len; Cmp op data] (cmp_holds op b data).
Proof.
  intros Hl reg. rewrite (run_payload _ _ _ _ _ _ Hl). cbn [run step].
  destruct (cmp_holds _ _ _); eauto.
Qed.

Lemma Matches_payload_masked base off len b mask op data :
  loads base off len b → length mask = length b →
  Matches sets pk [Payload base off len; Bitwise len mask (replicate (Z.to_nat len) 0); Cmp op data]
    (cmp_holds op (zip_with Z.land b mask) data).
Proof.
  intros Hl Hm reg. rewrite (run_payload _ _ _ _ _ _ Hl). destruct Hl as [_ Hl]. cbn [run step].
  rewrite <- Hl, Nat2Z.id, firstn_all.
  assert (zip_with Z.lxor (zip_with Z.land b mask) (replicate (length b) 0) = zip_with Z.land b mask) as ->.
  { replace (length b) with (length (zip_with Z.land b mask)) by (rewrite length_zip_with; lia).
    apply zip_xor_zero. }
  destruct (cmp_holds _ _ _); eauto.
Qed.

(** A conntrack state test, on a machine of either byte order. *)
Lemma native_land v m :
  zip_with Z.lxor (zip_with Z.land (take 4 (NativeEndian_PutUint32 v)) (NativeEndian_PutUint32 m)) [0; 0; 0; 0]
  = NativeEndian_PutUint32 (Z.land v m).
Proof.
  unfold NativeEndian_PutUint32. rewrite be_bytes_land. destruct little_endian.
  - unfold be_bytes. simpl. by rewrite !Z.lxor_0_r.
  - unfold be_bytes. simpl. by rewrite !Z.lxor_0_r.
Qed.

Lemma native_zero v : 0 <= v < 2 ^ 32 → NativeEndian_PutUint32 v = [0; 0; 0; 0] ↔ v = 0.
Proof.
  intros Hv. split; [|intros ->; unfold NativeEndian_PutUint32; by destruct little_endian].
  assert (be_bytes 4 v = [0; 0; 0; 0] → v = 0) as Hz.
  { intros E. by apply (be_bytes_inj 4 v 0); [done|done|]. }
  unfold NativeEndian_PutUint32. destruct little_endian; [|done].
  intros E. apply Hz. apply (f_equal (@rev Z)) in E. by rewrite rev_involutive in E.
Qed.

Lemma Matches_ct m :
  0 <= pk_ct pk < 2 ^ 32 →
  Matches sets pk [Ct; Bitwise 4 (NativeEndian_PutUint32 m) [0; 0; 0; 0]; Cmp CmpNeq [0; 0; 0; 0]]
    (negb (Z.land (pk_ct pk) m =? 0)).
Proof.
  intros Hct reg. cbn [run step]. change (Z.to_nat 4) with 4%nat. rewrite native_land.
  cbn [cmp_holds length].
  assert (take 4 (NativeEndian_PutUint32 (Z.land (pk_ct pk) m)) =
          NativeEndian_PutUint32 (Z.land (pk_ct pk) m)) as ->
    by (unfold NativeEndian_PutUint32; by destruct little_endian).
  assert (0 <= Z.land (pk_ct pk) m < 2 ^ 32) as Hb.
  { rewrite <- (Z.mod_small (pk_ct pk) (2 ^ 32)), <- Z.land_ones by lia.
    rewrite <- Z.land_assoc, (Z.land_comm (Z.ones 32)), Z.land_assoc, Z.land_ones by lia.
    apply Z.mod_pos_bound. lia. }
  destruct (Z.eqb_spec (Z.land (pk_ct pk) m) 0) as [E|Hne]; cbn [negb].
  - rewrite bool_decide_true by by apply native_zero. done.
  - rewrite bool_decide_false by by rewrite native_zero. simpl. eauto.
Qed.
End Tests.
