(* ===== verification/Matchers.v ===== *)
(** * The matches rules are built from

    The functions of [src/internal/core/nftables.go] and [forward_family.go] that
    turn an address entry or a port into expressions, and [portAcceptRules], which
    turns a port rule into kernel rules.  A builder that has nothing to match
    returns nil, here [None].  The theorems read what was built back with the
    kernel's evaluation of [Nft.v]. *)
From S2P Require Import Prelude GoStrings GoNet NetBytes Models FeedIDs Validate Reach PacketLog FeedRanges Nft.

Local Open Scope Z_scope.

(** ** Addresses *)

(** [net.IP.To4], [To16]: an IPv4-mapped address is an IPv4 address. *)
Definition To4 (a : addr) : option (list Z) :=
  match Unmap a with Addr4 n => Some (AsSlice (Addr4 n)) | Addr6 _ _ => None end.
Definition To16 (a : addr) : list Z := As16 a.

(** [net.IPNet]; the address is four bytes or sixteen. *)
Record IPNet := mkIPNet { IP : addr; Mask : list Z }.

Definition parseIPNet (s : string) : option IPNet :=
  match ParseNetwork s with
  | Some p => Some (mkIPNet (p_addr p) (CIDRMask (p_bits p) (BitLen (p_addr p))))
  | None => None
  end.

(** [net.IPMask.Size]: the leading ones, or 0, 0 when ones follow a zero. *)
Fixpoint leading_ones (fuel : nat) (v : Z) : Z * Z :=
  match fuel with
  | O => (0, v)
  | S fuel => if Z.testbit v 7 then let '(n, v) := leading_ones fuel ((2 * v) mod 256) in (1 + n, v)
              else (0, v)
  end.

Fixpoint simpleMaskLength (m : list Z) : option Z :=
  match m with
  | [] => Some 0
  | v :: m =>
      if v =? 255 then (λ n, 8 + n) <$> simpleMaskLength m
      else let '(n, v) := leading_ones 8 v in
           if (v =? 0) && forallb (λ b, b =? 0) m then Some n else None
  end.

Definition Size (m : list Z) : Z * Z :=
  match simpleMaskLength m with
  | Some n => (n, 8 * zlen m)
  | None => (0, 0)
  end.

(** [addrPos] *)
Record addrPos := mkAddrPos { off_v4 : Z; off_v6 : Z }.
Definition posSrcAddr : addrPos := mkAddrPos 12 8.
Definition posDstAddr : addrPos := mkAddrPos 16 24.

(** [addrFamily], [addrFamilies] *)
Record addrFamily := mkAddrFamily { af_name : string; af_nfproto : Z; af_offset : Z; af_keyLen : Z }.
Definition addrFamilies : list addrFamily :=
  [mkAddrFamily "ipv4" NFPROTO_IPV4 12 4; mkAddrFamily "ipv6" NFPROTO_IPV6 8 16].

Definition familySuffix (f : addrFamily) : string :=
  if af_nfproto f =? NFPROTO_IPV6 then "v6" else "v4".

Definition srcAddrExprs (f : addrFamily) : list Expr :=
  [Meta NFPROTO; Cmp CmpEq [af_nfproto f]; Payload NetworkHeader (af_offset f) (af_keyLen f)].

(** [ipv4SourceMatch] *)
Definition ipv4SourceMatch (entry : string) : option (list Expr) :=
  if IsListComment entry then None
  else
    let entry := TrimSpace entry in
    let ipNet :=
      match ParseIP entry with
      | Some ip => match To4 ip with Some ip4 => Some (ip4, CIDRMask 32 32) | None => None end
      | None =>
          match parseIPNet entry with
          | Some parsed =>
              match To4 (IP parsed) with Some ip4 => Some (ip4, Mask parsed) | None => None end
          | None => None
          end
      end in
    match ipNet with
    | Some (ip4, mask) =>
        Some [Meta NFPROTO; Cmp CmpEq [NFPROTO_IPV4]; Payload NetworkHeader 12 4;
              Bitwise 4 mask [0; 0; 0; 0]; Cmp CmpEq ip4]
    | None => None
    end.

(** [cidrMatchOp] *)
Definition cidrMatchOp (entry : string) (pos : addrPos) (op : CmpOp) : option (list Expr) :=
  if IsListComment entry then None
  else
    let entry := TrimSpace entry in
    let ipNet :=
      match ParseIP entry with
      | Some ip =>
          match To4 ip with
          | Some _ => Some (mkIPNet (Unmap ip) (CIDRMask 32 32))
          | None => Some (mkIPNet ip (CIDRMask 128 128))
          end
      | None => parseIPNet entry
      end in
    match ipNet with
    | None => None
    | Some ipNet =>
        let '(family, offset, length', addr) :=
          match To4 (IP ipNet) with
          | Some ip4 => (NFPROTO_IPV4, off_v4 pos, 4, ip4)
          | None => (NFPROTO_IPV6, off_v6 pos, 16, To16 (IP ipNet))
          end in
        if negb (zlen (Mask ipNet) =? length') then None
        else
          let '(ones, bits) := Size (Mask ipNet) in
          Some ([Meta NFPROTO; Cmp CmpEq [family]; Payload NetworkHeader offset length'] ++
                (if negb (ones =? bits)
                 then [Bitwise length' (Mask ipNet) (replicate (Z.to_nat length') 0)] else []) ++
                [Cmp op addr])
    end.

Definition cidrMatch (entry : string) (pos : addrPos) : option (list Expr) := cidrMatchOp entry pos CmpEq.
Definition cidrMatchNegated (entry : string) (pos : addrPos) : option (list Expr) :=
  cidrMatchOp entry pos CmpNeq.

Definition withoutFamilyTest (m : list Expr) : list Expr :=
  match m with
  | Meta _ :: Cmp _ _ :: rest => rest
  | _ => m
  end.

(** [cidrDropMatch] *)
Definition cidrDropMatch (cidr : string) : option (list Expr) :=
  match parseIPNet cidr with
  | None => None
  | Some ipNet =>
      match To4 (IP ipNet) with
      | Some ip4 =>
          Some [Meta NFPROTO; Cmp CmpEq [NFPROTO_IPV4]; Payload NetworkHeader 12 4;
                Bitwise 4 (Mask ipNet) [0; 0; 0; 0]; Cmp CmpEq ip4]
      | None =>
          Some [Meta NFPROTO; Cmp CmpEq [NFPROTO_IPV6]; Payload NetworkHeader 8 16;
                Bitwise 16 (Mask ipNet) (replicate 16 0); Cmp CmpEq (To16 (IP ipNet))]
      end
  end.

(** The match of a bare address, in [addBlocklistRule] and [addAllowlistRule]. *)
Definition hostMatch (ip : addr) : list Expr :=
  match To4 ip with
  | Some ip4 =>
      [Meta NFPROTO; Cmp CmpEq [NFPROTO_IPV4]; Payload NetworkHeader 12 4; Cmp CmpEq ip4]
  | None =>
      [Meta NFPROTO; Cmp CmpEq [NFPROTO_IPV6]; Payload NetworkHeader 8 16; Cmp CmpEq (To16 ip)]
  end.

(** The match of a blocklist entry. *)
Definition blocklistMatch (ip : string) : option (list Expr) :=
  match ParseIP ip with
  | None => cidrDropMatch ip
  | Some parsed => Some (hostMatch parsed)
  end.

(** ** Ports *)

Definition portBytes (p : Z) : list Z :=
  if (p <? 1) || (65535 <? p) then [0; 0] else [Z.shiftr p 8; p mod 256].

Definition parsePort (s : string) : Z :=
  match ParsePortNumber (TrimSpace s) with Ok p => p | Err _ => 0 end.

Definition matchPortEq (p : Z) : list Expr := [Payload TransportHeader 2 2; Cmp CmpEq (portBytes p)].

Definition buildPortExprs (port : string) : list Expr :=
  match CutByte ":"%char port with
  | Some (lo, hi) =>
      match ParsePortNumber (TrimSpace lo), ParsePortNumber (TrimSpace hi) with
      | Ok start, Ok stop =>
          if stop <? start then matchPortEq 0
          else [Payload TransportHeader 2 2; Cmp CmpGte (portBytes start); Cmp CmpLte (portBytes stop)]
      | _, _ => matchPortEq 0
      end
  | None => matchPortEq (parsePort port)
  end.

(** ** Port rules *)

Definition protoNum (proto : string) : Z := if String.eqb proto "udp" then IPPROTO_UDP else IPPROTO_TCP.

(** [portMatch], and the rule it goes into. *)
Definition port_rule (c proto : string) (rule : PortRule) (pre : list Expr) : Rule :=
  mkRule c (pre ++ [Meta L4PROTO; Cmp CmpEq [protoNum proto]] ++ buildPortExprs (Port rule) ++
            [Counter; Verdict VerdictAccept]) (ID rule).

Definition portAcceptRules (c : string) (proto : string) (rule : PortRule) : list Rule :=
  let matches := omap (λ src, cidrMatch src posSrcAddr) (Sources rule) in
  if negb (bool_decide (Sources rule = [])) && bool_decide (matches = []) then []
  else if bool_decide (matches = []) then [port_rule c proto rule []]
  else map (port_rule c proto rule) matches.

(** [ruleFamily], [forwardFamilyPin] *)
Definition ruleFamily (exprs : list Expr) : option Z :=
  match exprs with
  | Meta NFPROTO :: Cmp _ [family] :: _ => Some family
  | _ => None
  end.

Definition forwardFamilyPin (exprs : list Expr) (family : Z) : list Expr :=
  match ruleFamily exprs with
  | Some _ => exprs
  | None => [Meta NFPROTO; Cmp CmpEq [family]] ++ exprs
  end.

(** ** Container networks *)

(** [cidrFamilies] *)
Fixpoint cidrFamilies_loop (cidrs : list string) (v4 v6 : bool) : bool * bool :=
  match cidrs with
  | [] => (v4, v6)
  | c :: cidrs =>
      if IsListComment c then cidrFamilies_loop cidrs v4 v6
      else match ParseNetwork c with
           | None => cidrFamilies_loop cidrs v4 v6
           | Some p => if Is4 (p_addr p) then cidrFamilies_loop cidrs true v6
                       else cidrFamilies_loop cidrs v4 true
           end
  end.

Definition cidrFamilies (cidrs : list string) : bool * bool := cidrFamilies_loop cidrs false false.

(** [withoutIPv6] *)
Definition kept_without_IPv6 (c : string) : bool :=
  if IsListComment c then true
  else match ParseNetwork c with Some p => Is4 (p_addr p) | None => true end.

Definition withoutIPv6 (cidrs : list string) : list string :=
  filter (λ c, kept_without_IPv6 c = true) cidrs.

(** [containerNetworks] *)
Definition containerNetworks (docker : DockerConfig) (detected : list string) (mode : string) : list string :=
  if negb (Docker_Enabled docker) then []
  else
    let cidrs := (if AllowBridgeNetworks docker then detected else []) ++ CustomNetworks docker in
    if String.eqb mode IPv6Block then withoutIPv6 cidrs else cidrs.

Example cidrMatch_ex :
  cidrMatch "::ffff:10.0.0.0/104" posDstAddr =
  Some [Meta NFPROTO; Cmp CmpEq [2]; Payload NetworkHeader 16 4; Bitwise 4 [255; 0; 0; 0] [0; 0; 0; 0];
        Cmp CmpEq [10; 0; 0; 0]] ∧
  cidrMatch "# note" posDstAddr = None ∧
  cidrMatch " 10.1.2.3 " posSrcAddr =
  Some [Meta NFPROTO; Cmp CmpEq [2]; Payload NetworkHeader 12 4; Cmp CmpEq [10; 1; 2; 3]] ∧
  Size [255; 240; 0; 0] = (12, 32).
Proof. vm_compute. done. Qed.

(** ** What an entry names *)

Definition entry_net (entry : string) : option prefix :=
  if IsListComment entry then None
  else
    match ParseIP (TrimSpace entry) with
    | Some ip => Some (Prefix (Unmap ip) (BitLen (Unmap ip)))
    | None => ParseNetwork (TrimSpace entry)
    end.

(** A prefix of the wire: in range, masked, and not an IPv4-mapped network. *)
Record net_ok (p : prefix) : Prop := {
  no_addr : addr_ok (p_addr p);
  no_bits : 0 <= p_bits p <= BitLen (p_addr p);
  no_masked : mask_addr (p_addr p) (p_bits p) = p_addr p;
  no_mapped : Is4In6 (p_addr p) = false }.

Lemma short_mask_not_mapped n z b :
  0 <= b < 96 → Is4In6 (Addr6 (mask_bits 128 b n) z) = false.
Proof.
  intros Hb. unfold Is4In6, mask_bits. apply Z.eqb_neq. rewrite Z.shiftr_shiftl_l by lia.
  replace (128 - b - 32) with (Z.succ (95 - b)) by lia.
  rewrite Z.shiftl_mul_pow2, Z.pow_succ_r by lia. lia.
Qed.

Lemma Unmap_not_mapped a : Is4In6 (Unmap a) = false.
Proof. unfold Unmap. destruct a as [n|n z]; [done|]. by destruct (Is4In6 (Addr6 n z)) eqn:E. Qed.

Lemma Unmap_id a : Is4In6 a = false → Unmap a = a.
Proof. unfold Unmap. destruct a as [n|n z]; [done|]. by intros ->. Qed.

Lemma full_mask a : mask_addr a (BitLen a) = a.
Proof.
  destruct a as [n|n z]; simpl; unfold mask_bits;
    by rewrite Z.sub_diag, Z.shiftl_0_r, Z.shiftr_0_r.
Qed.

Lemma ParseNetwork_ok s p : ParseNetwork s = Some p → net_ok p.
Proof.
  intros (n & Hn & H)%ParseNetwork_cases. pose proof (ParseCIDR_ok _ _ Hn) as Ha.
  apply ParseCIDR_spec in Hn as (Hb & Hm & _). destruct H as [(H4 & H96 & ->)|(H4 & ->)].
  - destruct n as [[v|v z] b]; [done|]. simpl in *. pose proof (Unmap_ok _ Ha) as Hu.
    unfold Unmap in *. rewrite H4 in *. simpl. split; simpl.
    + apply (mask_addr_ok (Addr4 _) (b - 96)); [done|simpl; lia].
    + lia.
    + by rewrite mask_bits_idemp by lia.
    + done.
  - split; [done|lia|done|]. destruct H4 as [H4|H4]; [done|].
    destruct n as [[v|v z] b]; [done|]. simpl in *. rewrite Hm. apply short_mask_not_mapped. lia.
Qed.

Lemma entry_net_ok entry p : entry_net entry = Some p → net_ok p.
Proof.
  unfold entry_net. destruct (IsListComment entry); [done|].
  destruct (ParseIP (TrimSpace entry)) as [ip|] eqn:E; [|apply ParseNetwork_ok].
  intros [= <-]. split; simpl.
  - by eapply Unmap_ok, ParseIP_ok.
  - destruct (Unmap ip); simpl; lia.
  - apply full_mask.
  - apply Unmap_not_mapped.
Qed.

Lemma entry_net_covers a entry :
  addr_ok a → (IsListComment entry = false → zoneless entry) →
  entry_covers a entry = match entry_net entry with Some p => Contains p a | None => false end.
Proof.
  intros [Ha Hz] Hzl. unfold entry_covers, entry_net. destruct (IsListComment entry); [done|].
  specialize (Hzl eq_refl). cbv zeta.
  unfold ParseIP. destruct (ParseAddr (TrimSpace entry)) as [ip|] eqn:E; [|done].
  pose proof (Hzl ip E) as Zi. rewrite Zi. cbn [is_empty].
  rewrite <- (host_prefix ip a Zi Hz). by destruct (Unmap_zoneless ip Zi) as [-> _].
Qed.

(** The entries of a valid list. *)
Definition entry_valid (entry : string) : Prop := IsListComment entry = false → address_ok (TrimSpace entry).

Lemma entry_valid_zoneless entry : entry_valid entry → IsListComment entry = false → zoneless entry.
Proof. intros H E. by apply address_ok_trim_zoneless, H. Qed.

Lemma address_ok_word s : address_ok s → word s.
Proof. intros [[? ?%ParseIP_word]|[? ?%ParseCIDR_word]]; done. Qed.

(** The blocklist and the allowlist are validated as written. *)
Lemma listed_valid entry : (IsListComment entry = false → address_ok entry) → entry_valid entry.
Proof.
  intros H E. specialize (H E). by rewrite (TrimSpace_word entry (address_ok_word _ H)).
Qed.

(** A usable entry names a network. *)
Lemma entry_net_Some entry :
  entry_valid entry → is_Some (entry_net entry) ↔ IsListComment entry = false.
Proof.
  unfold entry_valid, entry_net. destruct (IsListComment entry); [split; [by intros []|done]|].
  intros H. specialize (H eq_refl). split; [done|]. intros _. destruct H as [[ip ->]|[p Hp]]; [by eexists|].
  destruct (ParseIP _); [by eexists|]. unfold ParseNetwork.
  rewrite (TrimSpace_word (TrimSpace entry)), Hp by by eapply ParseCIDR_word.
  case_match; by eexists.
Qed.

(** ** Bytes of a network *)

Lemma AsSlice_eq a b : addr_ok a → addr_ok b → Is4 a = Is4 b → AsSlice a = AsSlice b ↔ a = b.
Proof.
  intros Ha Hb E. split; [|by intros ->]. intros H. apply key_inj; [done..|].
  apply Z.compare_eq. by rewrite <- AsSlice_compare, H, AsSlice_compare, Z.compare_refl.
Qed.

Lemma length_AsSlice a : Z.of_nat (length (AsSlice a)) = if Is4 a then 4 else 16.
Proof. destruct a; unfold AsSlice; by rewrite length_be_bytes. Qed.

Lemma AsSlice_mask a n :
  addr_ok a → 0 <= n <= BitLen a →
  zip_with Z.land (AsSlice a) (CIDRMask n (BitLen a)) = AsSlice (mask_addr a n).
Proof.
  intros [Ha _] Hn. unfold CIDRMask. destruct a as [v|v z]; cbn [BitLen mask_addr addr_val] in *; unfold AsSlice.
  - change (Z.to_nat (32 / 8)) with 4%nat. by rewrite <- be_bytes_land, mask_bits_land.
  - change (Z.to_nat (128 / 8)) with 16%nat. by rewrite <- be_bytes_land, mask_bits_land.
Qed.

Lemma Contains_mask p a :
  net_ok p → addr_ok a →
  Contains p a = bool_decide (Is4 a = Is4 (p_addr p)) && bool_decide (mask_addr a (p_bits p) = p_addr p).
Proof.
  intros [[_ Zp] Hb Hm _] [_ Za]. unfold Contains. destruct p as [[v|v z] n], a as [u|u z']; simpl in *; try done.
  - injection Hm as Hm. apply eq_iff_eq_true. rewrite ?andb_true_iff, !bool_decide_eq_true, Z.eqb_eq.
    rewrite <- (mask_bits_eq_iff 32), Hm by lia. naive_solver.
  - injection Hm as Hm. subst z z'. simpl.
    apply eq_iff_eq_true. rewrite ?andb_true_iff, !bool_decide_eq_true, Z.eqb_eq.
    rewrite <- (mask_bits_eq_iff 128), Hm by lia. naive_solver.
Qed.

(** Every mask the code builds is read back with the length it was built from. *)
Lemma Size_table :
  forallb (λ n, bool_decide (Size (CIDRMask (Z.of_nat n) 32) = (Z.of_nat n, 32))) (seq 0 33) = true ∧
  forallb (λ n, bool_decide (Size (CIDRMask (Z.of_nat n) 128) = (Z.of_nat n, 128))) (seq 0 129) = true.
Proof. vm_compute. done. Qed.

Lemma Size_CIDRMask a n : 0 <= n <= BitLen a → Size (CIDRMask n (BitLen a)) = (n, BitLen a).
Proof.
  intros Hn. destruct Size_table as [H4 H6]. rewrite forallb_forall in H4, H6.
  destruct a; cbn [BitLen] in *.
  - specialize (H4 (Z.to_nat n)). apply bool_decide_eq_true in H4; [by rewrite Z2Nat.id in H4 by lia|].
    apply in_seq. lia.
  - specialize (H6 (Z.to_nat n)). apply bool_decide_eq_true in H6; [by rewrite Z2Nat.id in H6 by lia|].
    apply in_seq. lia.
Qed.

Lemma zlen_CIDRMask a n : zlen (CIDRMask n (BitLen a)) = if Is4 a then 4 else 16.
Proof. unfold zlen, CIDRMask. rewrite length_be_bytes. by destruct a. Qed.

(** ** The tests of a network *)

Definition fam_of (a : addr) : Z := if Is4 a then NFPROTO_IPV4 else NFPROTO_IPV6.
Definition off_of (pos : addrPos) (a : addr) : Z := if Is4 a then off_v4 pos else off_v6 pos.
Definition len_of (a : addr) : Z := if Is4 a then 4 else 16.

Definition net_exprs (masked : bool) (pos : addrPos) (op : CmpOp) (p : prefix) : list Expr :=
  [Meta NFPROTO; Cmp CmpEq [fam_of (p_addr p)];
   Payload NetworkHeader (off_of pos (p_addr p)) (len_of (p_addr p))] ++
  (if masked then [Bitwise (len_of (p_addr p)) (CIDRMask (p_bits p) (BitLen (p_addr p)))
                     (replicate (Z.to_nat (len_of (p_addr p))) 0)] else []) ++
  [Cmp op (AsSlice (p_addr p))].

(** The builders write nothing else. *)
Lemma To4_not_mapped a : Is4In6 a = false → To4 a = if Is4 a then Some (AsSlice a) else None.
Proof. intros H. unfold To4. rewrite Unmap_id by done. by destruct a. Qed.

Lemma To16_v6 n z : To16 (Addr6 n z) = AsSlice (Addr6 n z).
Proof. done. Qed.

Lemma CIDRMask_host ip :
  match To4 ip with
  | Some _ => Some (mkIPNet (Unmap ip) (CIDRMask 32 32))
  | None => Some (mkIPNet ip (CIDRMask 128 128))
  end = Some (mkIPNet (Unmap ip) (CIDRMask (BitLen (Unmap ip)) (BitLen (Unmap ip)))).
Proof.
  unfold To4. destruct (Unmap ip) as [n|n z] eqn:E; [done|].
  unfold Unmap in E. destruct ip as [m|m z']; [done|]. destruct (Is4In6 (Addr6 m z')); [done|]. by injection E as -> ->.
Qed.

Lemma cidrMatchOp_net entry pos op :
  cidrMatchOp entry pos op =
  (λ p, net_exprs (negb (p_bits p =? BitLen (p_addr p))) pos op p) <$> entry_net entry.
Proof.
  unfold cidrMatchOp. pose proof (entry_net_ok entry) as Hok. revert Hok. unfold entry_net.
  destruct (IsListComment entry); [done|]. cbv zeta. intros Hok.
  assert (∀ p, net_ok p →
    match Some (mkIPNet (p_addr p) (CIDRMask (p_bits p) (BitLen (p_addr p)))) with
    | None => None
    | Some ipNet =>
        let '(family, offset, length', addr) :=
          match To4 (IP ipNet) with
          | Some ip4 => (NFPROTO_IPV4, off_v4 pos, 4, ip4)
          | None => (NFPROTO_IPV6, off_v6 pos, 16, To16 (IP ipNet))
          end in
        if negb (zlen (Mask ipNet) =? length') then None
        else
          let '(ones, bits) := Size (Mask ipNet) in
          Some ([Meta NFPROTO; Cmp CmpEq [family]; Payload NetworkHeader offset length'] ++
                (if negb (ones =? bits)
                 then [Bitwise length' (Mask ipNet) (replicate (Z.to_nat length') 0)] else []) ++
                [Cmp op addr])
    end = Some (net_exprs (negb (p_bits p =? BitLen (p_addr p))) pos op p)) as Hnet.
  { intros p [Ha Hb _ Hm]. cbn [IP Mask]. rewrite (To4_not_mapped _ Hm), zlen_CIDRMask, Size_CIDRMask by done.
    unfold net_exprs, fam_of, off_of, len_of. by destruct (p_addr p). }
  destruct (ParseIP (TrimSpace entry)) as [ip|].
  - rewrite CIDRMask_host. by apply (Hnet (Prefix (Unmap ip) (BitLen (Unmap ip)))), Hok.
  - unfold parseIPNet. destruct (ParseNetwork (TrimSpace entry)) as [p|]; [|done]. by apply Hnet, Hok.
Qed.

Lemma ipv4SourceMatch_net entry :
  ipv4SourceMatch entry =
  match entry_net entry with
  | Some p => if Is4 (p_addr p) then Some (net_exprs true posSrcAddr CmpEq p) else None
  | None => None
  end.
Proof.
  unfold ipv4SourceMatch. pose proof (entry_net_ok entry) as Hok. revert Hok. unfold entry_net.
  destruct (IsListComment entry); [done|]. cbv zeta. intros Hok.
  destruct (ParseIP (TrimSpace entry)) as [ip|].
  - specialize (Hok _ eq_refl). unfold To4. simpl. by destruct (Unmap ip).
  - unfold parseIPNet. destruct (ParseNetwork (TrimSpace entry)) as [p|]; [|done].
    specialize (Hok p eq_refl) as [_ _ _ Hm]. cbn [IP Mask]. rewrite (To4_not_mapped _ Hm).
    unfold net_exprs. by destruct (p_addr p).
Qed.

Lemma cidrDropMatch_net cidr :
  cidrDropMatch cidr = (λ p, net_exprs true posSrcAddr CmpEq p) <$> ParseNetwork cidr.
Proof.
  unfold cidrDropMatch, parseIPNet. destruct (ParseNetwork cidr) as [p|] eqn:E; [|done].
  apply ParseNetwork_ok in E as [_ _ _ Hm]. cbn [IP Mask]. rewrite (To4_not_mapped _ Hm).
  unfold net_exprs. cbn [fmap option_fmap option_map]. destruct (p_addr p); [done|]. done.
Qed.

Lemma hostMatch_net ip :
  hostMatch ip = net_exprs false posSrcAddr CmpEq (Prefix (Unmap ip) (BitLen (Unmap ip))).
Proof.
  unfold hostMatch, To4, net_exprs. destruct (Unmap ip) as [n|n z] eqn:E; [done|].
  unfold Unmap in E. destruct ip as [m|m z']; [done|].
  destruct (Is4In6 (Addr6 m z')); [done|]. by injection E as -> ->.
Qed.

(** A blocklist entry, as validation accepts it. *)
Lemma blocklistMatch_net entry :
  IsListComment entry = false → address_ok entry →
  ∃ p masked, entry_net entry = Some p ∧ blocklistMatch entry = Some (net_exprs masked posSrcAddr CmpEq p) ∧
    (masked = false → p_bits p = BitLen (p_addr p)).
Proof.
  intros Hc Hok. pose proof (TrimSpace_word _ (address_ok_word _ Hok)) as Ht.
  unfold entry_net, blocklistMatch. rewrite Hc, Ht.
  destruct (ParseIP entry) as [ip|] eqn:E.
  - rewrite hostMatch_net. by eexists _, _.
  - destruct Hok as [[? ?]|[n Hn]]; [congruence|]. rewrite cidrDropMatch_net.
    unfold ParseNetwork. rewrite Ht, Hn. case_match; by eexists _, _.
Qed.

(** ** Reading a match back *)

Lemma atoi_digits_word neg r n : atoi_digits neg r = Some n → word r.
Proof.
  unfold atoi_digits. destruct r as [|d r]; [done|].
  destruct (digits 0 (String d r)) as [k|] eqn:D; [|done]. intros _. by eapply digits_word.
Qed.

Lemma Atoi_word s n : Atoi s = Some n → word s.
Proof.
  destruct s as [|c r]; [done|]. rewrite Atoi_cases.
  assert (word_byte c = true → word r → word (String c r)) as Hc.
  { unfold word. rewrite forallb_bytes_cons. by intros -> ->. }
  destruct (Ascii.eqb_spec c "+") as [->|]; [by intros ?%atoi_digits_word; apply Hc|].
  destruct (Ascii.eqb_spec c "-") as [->|]; [by intros ?%atoi_digits_word; apply Hc|].
  apply atoi_digits_word.
Qed.

Section Read.
Context `{Host} (sets : string → list SetElement) (pk : Packet).

(** The packet carries the address [a] at [pos]. *)
Record addr_at (pos : addrPos) (a : addr) : Prop := {
  aa_ok : addr_ok a;
  aa_family : pk_nfproto pk = fam_of a;
  aa_loads : loads pk NetworkHeader (off_of pos a) (len_of a) (AsSlice a) }.

Lemma fam_of_eq a b : (fam_of a =? fam_of b) = bool_decide (Is4 a = Is4 b).
Proof. unfold fam_of. by destruct (Is4 a), (Is4 b). Qed.

Lemma net_body_match (masked : bool) pos op p a :
  addr_at pos a → net_ok p → (masked = false → p_bits p = BitLen (p_addr p)) →
  op = CmpEq ∨ op = CmpNeq → Is4 a = Is4 (p_addr p) →
  Matches sets pk
    ([Payload NetworkHeader (off_of pos (p_addr p)) (len_of (p_addr p))] ++
     (if masked then [Bitwise (len_of (p_addr p)) (CIDRMask (p_bits p) (BitLen (p_addr p)))
                        (replicate (Z.to_nat (len_of (p_addr p))) 0)] else []) ++
     [Cmp op (AsSlice (p_addr p))])
    (if bool_decide (op = CmpEq) then Contains p a else negb (Contains p a)).
Proof.
  intros [Ha _ Hl] Hp Hm Hop E. pose proof Hp as [Hpa Hb Hmask _].
  assert (off_of pos (p_addr p) = off_of pos a ∧ len_of (p_addr p) = len_of a ∧
          BitLen (p_addr p) = BitLen a) as (-> & -> & Eb).
  { unfold off_of, len_of. rewrite E. destruct a, (p_addr p); done. }
  rewrite Eb in *. rewrite (Contains_mask p a) by done. rewrite (bool_decide_true (Is4 a = _)) by done.
  assert (∀ l, length l = length (AsSlice a) → (masked = true → l = AsSlice (mask_addr a (p_bits p))) →
            (masked = false → l = AsSlice a) →
            cmp_holds op l (AsSlice (p_addr p)) =
            if bool_decide (op = CmpEq) then true && bool_decide (mask_addr a (p_bits p) = p_addr p)
            else negb (true && bool_decide (mask_addr a (p_bits p) = p_addr p))) as Hcmp.
  { intros l Hlen Ht Hf. cbn [andb].
    assert (length (AsSlice (p_addr p)) = length l) as Hl2.
    { rewrite Hlen. pose proof (length_AsSlice a). pose proof (length_AsSlice (p_addr p)). rewrite E in *. lia. }
    assert (l = AsSlice (mask_addr a (p_bits p))) as ->.
    { destruct masked; [by apply Ht|]. rewrite Hf, Hm by done. by rewrite full_mask. }
    assert (bool_decide (take (length (AsSlice (p_addr p))) (AsSlice (mask_addr a (p_bits p))) =
                         AsSlice (p_addr p)) = bool_decide (mask_addr a (p_bits p) = p_addr p)) as Eq.
    { rewrite Hl2, firstn_all. apply bool_decide_ext, AsSlice_eq; [by apply mask_addr_ok|done|].
      rewrite <- E. by destruct a. }
    unfold cmp_holds. by destruct Hop as [->| ->]; cbv zeta; rewrite Eq. }
  destruct masked.
  - rewrite <- (Hcmp (zip_with Z.land (AsSlice a) (CIDRMask (p_bits p) (BitLen a)))).
    + apply (Matches_payload_masked sets pk NetworkHeader (off_of pos a) (len_of a)); [done|].
      pose proof (length_AsSlice a). pose proof (zlen_CIDRMask a (p_bits p)). unfold zlen in *. lia.
    + rewrite AsSlice_mask by done. pose proof (length_AsSlice a).
      pose proof (length_AsSlice (mask_addr a (p_bits p))). destruct a; simpl in *; lia.
    + intros _. by rewrite AsSlice_mask.
    + done.
  - rewrite <- (Hcmp (AsSlice a)); [|done..]. by apply Matches_payload_cmp.
Qed.

Lemma net_match (masked : bool) pos op p a :
  addr_at pos a → net_ok p → (masked = false → p_bits p = BitLen (p_addr p)) →
  op = CmpEq ∨ op = CmpNeq →
  Matches sets pk (net_exprs masked pos op p)
    (bool_decide (Is4 a = Is4 (p_addr p)) &&
     if bool_decide (op = CmpEq) then Contains p a else negb (Contains p a)).
Proof.
  intros Ha Hp Hm Hop. unfold net_exprs.
  apply (Matches_app_if sets pk [Meta NFPROTO; Cmp CmpEq [fam_of (p_addr p)]]
           ([Payload NetworkHeader (off_of pos (p_addr p)) (len_of (p_addr p))] ++ _)).
  - rewrite <- fam_of_eq, <- (aa_family _ _ Ha). by apply (Matches_meta_byte sets pk NFPROTO); left.
  - intros E%bool_decide_eq_true. by apply net_body_match.
Qed.

Lemma net_match_eq (masked : bool) pos p a :
  addr_at pos a → net_ok p → (masked = false → p_bits p = BitLen (p_addr p)) →
  Matches sets pk (net_exprs masked pos CmpEq p) (Contains p a).
Proof.
  intros Ha Hp Hm. pose proof (net_match masked pos CmpEq p a Ha Hp Hm ltac:(by left)) as HM.
  cbn in HM. replace (Contains p a) with (bool_decide (Is4 a = Is4 (p_addr p)) && Contains p a); [done|].
  rewrite Contains_mask by (done || apply Ha). by destruct (bool_decide (Is4 a = Is4 (p_addr p))).
Qed.

Lemma unmasked_host p : negb (p_bits p =? BitLen (p_addr p)) = false → p_bits p = BitLen (p_addr p).
Proof. intros E. by breflect. Qed.

(** A source or destination entry tests the address the shared matcher tests. *)
Lemma cidrMatch_reads entry pos a m :
  addr_at pos a → entry_valid entry → cidrMatch entry pos = Some m →
  Matches sets pk m (entry_covers a entry).
Proof.
  intros Ha Hv Hm. unfold cidrMatch in Hm. rewrite cidrMatchOp_net in Hm.
  rewrite entry_net_covers; [|apply Ha|by apply entry_valid_zoneless].
  destruct (entry_net entry) as [p|] eqn:E; [|done]. injection Hm as <-.
  apply net_match_eq; [done|by eapply entry_net_ok|apply unmasked_host].
Qed.

(** An entry without a match covers nothing. *)
Lemma cidrMatch_None entry pos op a :
  addr_ok a → entry_valid entry → cidrMatchOp entry pos op = None → entry_covers a entry = false.
Proof.
  intros Ha Hv Hm. rewrite cidrMatchOp_net in Hm.
  rewrite entry_net_covers; [|done|by apply entry_valid_zoneless]. by destruct (entry_net entry).
Qed.

(** ** Ports *)

(** The packet goes to the port [p]. *)
Definition to_port (p : Z) : Prop := 0 <= p <= 65535 ∧ loads pk TransportHeader 2 2 (be_bytes 2 p).

Lemma portBytes_be p : 1 <= p <= 65535 → portBytes p = be_bytes 2 p.
Proof.
  intros Hp. unfold portBytes. rewrite (proj2 (Z.ltb_ge p 1)), (proj2 (Z.ltb_ge 65535 p)) by lia. simpl.
  unfold be_bytes. rewrite Z.shiftr_div_pow2 by lia. simpl Z.of_nat. change (2 ^ 8) with 256.
  change (256 ^ 1) with 256. change (256 ^ 0) with 1. rewrite Z.div_1_r.
  rewrite (Z.mod_small (p / 256)); [done|]. split; [apply Z.div_pos; lia|apply Z.div_lt_upper_bound; lia].
Qed.

Lemma ParsePort_trim s n : Atoi s = Some n → 1 <= n <= 65535 → ParsePortNumber (TrimSpace s) = Ok n.
Proof.
  intros E Hn. rewrite (TrimSpace_word s) by (by eapply Atoi_word). by apply ParsePortNumber_Ok.
Qed.

Lemma take_be_bytes n v : take n (be_bytes n v) = be_bytes n v.
Proof. apply take_ge. by rewrite length_be_bytes. Qed.

Lemma port_compare p q :
  0 <= p <= 65535 → 1 <= q <= 65535 → memcmp (be_bytes 2 p) (portBytes q) = Z.compare p q.
Proof. intros Hp Hq. rewrite portBytes_be by done. apply memcmp_be_bytes; simpl; lia. Qed.

Lemma port_bounds p q :
  0 <= p <= 65535 → 1 <= q <= 65535 →
  cmp_holds CmpGte (be_bytes 2 p) (portBytes q) = (q <=? p) ∧
  cmp_holds CmpLte (be_bytes 2 p) (portBytes q) = (p <=? q).
Proof.
  intros Hp Hq. unfold cmp_holds.
  assert (length (portBytes q) = 2%nat) as -> by (unfold portBytes; by case_match).
  rewrite take_be_bytes, port_compare by done. unfold Z.leb. rewrite (Z.compare_antisym p q).
  by destruct (Z.compare p q).
Qed.

Lemma port_eq p q :
  0 <= p <= 65535 → 1 <= q <= 65535 → bool_decide (be_bytes 2 p = portBytes q) = (p =? q).
Proof.
  intros Hp Hq. rewrite portBytes_be by done. destruct (Z.eqb_spec p q) as [->|Hne].
  - by apply bool_decide_true.
  - apply bool_decide_false. intros E. apply Hne. apply (be_bytes_inj 2); [simpl; lia..|done].
Qed.

Lemma matchPortEq_reads p q :
  to_port p → 1 <= q <= 65535 → Matches sets pk (matchPortEq q) (p =? q).
Proof.
  intros [Hp Hl] Hq. rewrite <- (port_eq p q) by done.
  replace (bool_decide (be_bytes 2 p = portBytes q)) with (cmp_holds CmpEq (be_bytes 2 p) (portBytes q)).
  - by apply Matches_payload_cmp.
  - rewrite portBytes_be by done. unfold cmp_holds. by rewrite length_be_bytes, take_be_bytes.
Qed.

(** The port test of a valid rule: the interval validation read. *)
Lemma buildPortExprs_reads s lo hi p :
  port_interval s = Some (lo, hi) → 1 <= lo <= hi → hi <= 65535 → to_port p →
  Matches sets pk (buildPortExprs s) ((lo <=? p) && (p <=? hi)).
Proof.
  intros Hi Hlo Hhi Hp. unfold port_interval in Hi. unfold buildPortExprs.
  destruct (CutByte ":" s) as [[a b]|].
  - destruct (Atoi a) as [la|] eqn:Ea; [|done]. destruct (Atoi b) as [lb|] eqn:Eb; [|done].
    injection Hi as -> ->. rewrite (ParsePort_trim a lo), (ParsePort_trim b hi) by (done || lia).
    rewrite (proj2 (Z.ltb_ge hi lo)) by lia. destruct Hp as [Hp Hl]. intros reg.
    rewrite (run_payload _ _ _ _ _ _ _ _ Hl). cbn [run step].
    destruct (port_bounds p lo) as [-> _]; [lia..|]. destruct (lo <=? p); [|done]. cbn [run step andb].
    destruct (port_bounds p hi) as [_ ->]; [lia..|]. destruct (p <=? hi); [by eexists|done].
  - destruct (Atoi s) as [n|] eqn:E; [|done]. injection Hi as -> ->. unfold parsePort.
    rewrite (ParsePort_trim s hi) by (done || lia).
    replace ((hi <=? p) && (p <=? hi)) with (p =? hi); [apply matchPortEq_reads; done || lia|].
    apply eq_iff_eq_true. rewrite andb_true_iff, !Z.leb_le, Z.eqb_eq. lia.
Qed.
End Read.

(** ** Port rules *)

Lemma map_omap_flat {A} (f : A → option (list Expr)) (mk : list Expr → Rule) l :
  map mk (omap f l) = entry_rules f (λ m, [mk m]) l.
Proof.
  unfold entry_rules. induction l as [|x l IH]; [done|]. cbn in *. destruct (f x); cbn; by rewrite <- IH.
Qed.

Lemma portAcceptRules_entries c proto rule :
  portAcceptRules c proto rule =
  if bool_decide (Sources rule = []) then [port_rule c proto rule []]
  else entry_rules (λ src, cidrMatch src posSrcAddr) (λ m, [port_rule c proto rule m]) (Sources rule).
Proof.
  unfold portAcceptRules. cbv zeta. rewrite <- map_omap_flat.
  destruct (bool_decide (Sources rule = [])) eqn:Es; cbn [negb andb].
  - apply bool_decide_eq_true in Es. by rewrite Es.
  - destruct (bool_decide (omap _ _ = [])) eqn:Em; [|done]. apply bool_decide_eq_true in Em. by rewrite Em.
Qed.

(** The ports a rule names, and whether it opens one to this source: the reading
    the apply page and the packet log share. *)
Definition in_port (rule : PortRule) (p : Z) : bool :=
  match port_interval (Port rule) with
  | Some (lo, hi) => (lo <=? p) && (p <=? hi)
  | None => false
  end.

Definition rule_opens (rule : PortRule) (a : addr) (p : Z) : bool :=
  in_port rule p && (bool_decide (Sources rule = []) || InAnyEntry a (Sources rule)).

Section Ports.
Context `{Host} (sets : string → list SetElement) (pk : Packet).

Lemma port_tests_read rule proto p pre b :
  ValidPortRule rule → (pk_l4proto pk = protoNum proto → to_port pk p) → Matches sets pk pre b →
  Matches sets pk (pre ++ [Meta L4PROTO; Cmp CmpEq [protoNum proto]] ++ buildPortExprs (Port rule))
    (b && ((pk_l4proto pk =? protoNum proto) && in_port rule p)).
Proof.
  intros [(lo & hi & Hi & Hlo & Hhi) _ _] Hp Hpre. unfold in_port. rewrite Hi. apply Matches_app; [done|].
  apply Matches_app_if; [by apply (Matches_meta_byte sets pk L4PROTO); auto|].
  intros E%Z.eqb_eq. apply buildPortExprs_reads; auto.
Qed.

Lemma port_rule_decides jump c proto rule p pre b :
  ValidPortRule rule → (pk_l4proto pk = protoNum proto → to_port pk p) → Matches sets pk pre b →
  decides sets pk jump [port_rule c proto rule pre]
    (b && ((pk_l4proto pk =? protoNum proto) && in_port rule p)) Accepted.
Proof.
  intros Hv Hp Hpre. pose proof (port_tests_read rule proto p pre b Hv Hp Hpre) as HM.
  apply Matches_counter in HM. unfold port_rule.
  apply (decides_verdict sets pk jump c _ _ VerdictAccept (ID rule)) in HM; [|done].
  by rewrite <- !app_assoc in HM.
Qed.

Lemma existsb_andb_r {A} (f : A → bool) b l : existsb (λ x, f x && b) l = existsb f l && b.
Proof. induction l as [|x l IH]; [done|]. simpl. rewrite IH. by destruct (f x), b, (existsb f l). Qed.

(** The kernel rules of a valid rule accept a packet of their protocol exactly
    when its port is in the rule's interval and the rule names no source or one
    that covers the packet's; a list of comments opens nothing. *)
Lemma portAcceptRules_decides jump c proto rule a p :
  ValidPortRule rule → addr_at pk posSrcAddr a → (pk_l4proto pk = protoNum proto → to_port pk p) →
  decides sets pk jump (portAcceptRules c proto rule)
    ((pk_l4proto pk =? protoNum proto) && rule_opens rule a p) Accepted.
Proof.
  intros Hv Ha Hp. rewrite portAcceptRules_entries. unfold rule_opens.
  destruct (bool_decide (Sources rule = [])); cbn [orb].
  - rewrite andb_true_r. apply (port_rule_decides jump c proto rule p [] true); [done..|apply Matches_nil].
  - replace ((pk_l4proto pk =? protoNum proto) && (in_port rule p && InAnyEntry a (Sources rule)))
      with (existsb (λ s, entry_covers a s && ((pk_l4proto pk =? protoNum proto) && in_port rule p)) (Sources rule)).
    2:{ rewrite existsb_andb_r. unfold InAnyEntry.
        by destruct (existsb _ _), (pk_l4proto pk =? protoNum proto), (in_port rule p). }
    apply decides_entries. intros s Hs.
    destruct Hv as [Hpo Hsc Hsrc]. rewrite Forall_forall in Hsrc. specialize (Hsrc s Hs) as Hsv.
    destruct (cidrMatch s posSrcAddr) as [m|] eqn:E.
    + apply port_rule_decides; [split; [done..|by apply Forall_forall]|done|]. by eapply cidrMatch_reads.
    + by rewrite (cidrMatch_None s posSrcAddr CmpEq a) by (done || apply Ha).
Qed.
End Ports.
