(* ===== verification/Builders.v ===== *)
(** * The rule builders

    The functions of [src/internal/core/nftables.go] that queue the rules of one
    part of the firewall: the protection modules, the lists, the ports, the port
    forwarding and the final log.  A builder's effect is what it queues on the
    connection's batch, so each is the list of commands it queues, in order.
    What the library's [AddSet] and [SetAddElements] answer is a parameter. *)
From S2P Require Import Prelude GoStrings GoNet NetBytes Models FeedIDs Validate Reach PacketLog FeedRanges Nft Matchers.

Local Open Scope Z_scope.

(** [nftables.SetDatatype], by the length of its key. *)
Record SetSpec := mkSetSpec { ss_name : string; ss_keyLen : Z; ss_interval : bool; ss_timeout : option Z }.

Inductive Hook := HookInput | HookOutput | HookForward | HookPrerouting.

Record BaseChain := mkBaseChain { bc_nat : bool; bc_hook : Hook; bc_priority : Z; bc_policy : option decision }.

(** What goes on the batch. *)
Inductive Cmd :=
| AddTable
| DelTable
| AddChain (name : string) (base : option BaseChain)
| AddSet (s : SetSpec)
| SetAddElements (set : string) (els : list SetElement)
| FlushSet (set : string)
| AddRule (r : Rule).

(** The rules of a batch, in the order they are added. *)
Definition rules_of (b : list Cmd) : list Rule :=
  omap (λ c, match c with AddRule r => Some r | _ => None end) b.

(** The google/nftables connection: does it refuse to queue this set, or these
    elements? *)
Class NftConn := { AddSet_err : string → bool; SetAddElements_err : list SetElement → bool }.

(** ** Logging *)

Definition logPrefixInvalid : string := "easywall invalid: ".
Definition logPrefixFragment : string := "easywall fragment: ".
Definition logPrefixBogon : string := "easywall bogon: ".
Definition logPrefixPortScan : string := "easywall portscan: ".
Definition logPrefixSYNFlood : string := "easywall syn-flood: ".
Definition logPrefixICMPFlood : string := "easywall icmp-flood: ".
Definition logPrefixSSH : string := "easywall ssh: ".
Definition logPrefixTCPRST : string := "easywall tcp-rst: ".
Definition logPrefixBlocklist : string := "easywall blocklist: ".
Definition logPrefixDrop : string := "easywall drop: ".

Record logSpec := mkLogSpec { lg_enabled : bool; lg_prefix : string; lg_perMinute : Z }.

(** [logSink] *)
Record logSink := mkLogSink { nflog : bool; group : Z }.

(** Attribute indices of nf_tables.h: the key of a log expression is a mask over
    them. *)
Definition NFTA_LOG_GROUP : Z := 1.
Definition NFTA_LOG_PREFIX : Z := 2.
Definition NFTA_LOG_SNAPLEN : Z := 3.
Definition packetSnaplen : Z := 128.

Definition uint32 (v : Z) : Z := v mod 2 ^ 32.
Definition uint64 (v : Z) : Z := v mod 2 ^ 64.

Definition logExprs (prefix : string) (perMinute : Z) (sink : logSink) : list Expr :=
  let perMinute := if perMinute <=? 0 then 60 else perMinute in
  let key := Z.shiftl 1 NFTA_LOG_PREFIX in
  let log :=
    if nflog sink
    then Log (Z.lor key (Z.lor (Z.shiftl 1 NFTA_LOG_GROUP) (Z.shiftl 1 NFTA_LOG_SNAPLEN))) prefix (group sink)
           packetSnaplen
    else Log key prefix 0 0 in
  [Limit (uint64 perMinute) PerMinute (uint32 perMinute); log].

Definition rule (c : string) (es : list Expr) : Cmd := AddRule (mkRule c es "").

(** [addLogged], [addFiltered] *)
Definition addLogged (sink : logSink) (c : string) (match_ : list Expr) (lg : logSpec) (tag : string)
    (action : list Expr) : list Cmd :=
  (if lg_enabled lg then [rule c (match_ ++ logExprs (lg_prefix lg) (lg_perMinute lg) sink)] else []) ++
  [AddRule (mkRule c (match_ ++ action) tag)].

Definition addFiltered (sink : logSink) (c : string) (match_ : list Expr) (action : Expr) (lg : logSpec) : list Cmd :=
  addLogged sink c match_ lg "" [action].

(** ** The base of the input chain *)

Definition inputChainName : string := "input".
Definition forwardChainName : string := "forward".
Definition forwardListsChainName : string := "forward-lists".
Definition fragmentChainName : string := "fragments".

Definition addFamilyVerdict (c : string) (family : Z) (kind : VerdictKind) : list Cmd :=
  [rule c [Meta NFPROTO; Cmp CmpEq [family]; Verdict kind]].

(** "lo\x00" *)
Definition lo_name : list Z := [108; 111; 0].

Definition addLoopbackAccept (c : string) : list Cmd :=
  [rule c [Meta IIFNAME; Cmp CmpEq lo_name; Verdict VerdictAccept]].

Definition ctStateInvalid : Z := 0x01.
Definition ctStateEstablished : Z := 0x02.
Definition ctStateRelated : Z := 0x04.
Definition ctStateNew : Z := 0x08.

Definition ctStateMask `{Host} (bits : Z) : list Z := NativeEndian_PutUint32 bits.
Definition ctStateNoMatch : list Z := [0; 0; 0; 0].

Definition ReservedIDEstablished : string := "_established".

Definition ctStateExprs `{Host} (bits : Z) : list Expr :=
  [Ct; Bitwise 4 (ctStateMask bits) ctStateNoMatch; Cmp CmpNeq ctStateNoMatch].

Definition addEstablishedAccept `{Host} (c : string) : list Cmd :=
  let tag := if String.eqb c inputChainName then ReservedIDEstablished else "" in
  [AddRule (mkRule c
     ([Ct; Bitwise 4 (ctStateMask (Z.lor ctStateEstablished ctStateRelated)) ctStateNoMatch;
       Cmp CmpNeq ctStateNoMatch] ++ [Counter; Verdict VerdictAccept]) tag)].

Definition addICMPTypeAccept (c : string) (proto typ : Z) : list Cmd :=
  [rule c [Meta L4PROTO; Cmp CmpEq [proto]; Payload TransportHeader 0 1; Cmp CmpEq [typ];
           Verdict VerdictAccept]].

Definition addICMPRules (c : string) (ipv6 : IPv6Config) : list Cmd :=
  if negb (String.eqb (IPv6_Mode ipv6) IPv6Filter) then []
  else flat_map (addICMPTypeAccept c IPPROTO_ICMPV6) (ICMPv6Accepted false ipv6).

Definition addEchoAccepts (c : string) (echo : bool) (ipv6 : IPv6Config) : list Cmd :=
  flat_map (addICMPTypeAccept c IPPROTO_ICMP) (ICMPv4Accepted echo) ++
  if negb (String.eqb (IPv6_Mode ipv6) IPv6Filter) then []
  else flat_map (addICMPTypeAccept c IPPROTO_ICMPV6)
         (ICMPv6Accepted echo (mkIPv6Config "" false false false)).

(** ** Protection modules *)

Definition addInvalidPacketDrop `{Host} (sink : logSink) (c : string) (opts : FirewallOptions) : list Cmd :=
  addFiltered sink c
    [Ct; Bitwise 4 (ctStateMask ctStateInvalid) ctStateNoMatch; Cmp CmpNeq ctStateNoMatch]
    (Verdict VerdictDrop) (mkLogSpec (InvalidPacketsLog opts) logPrefixInvalid 0).

Definition fragmentMatch `{Host} : list Expr :=
  [Meta NFPROTO; Cmp CmpEq [NFPROTO_IPV4]; Meta IIFNAME; Cmp CmpNeq lo_name;
   Payload NetworkHeader 6 2; Bitwise 2 [0x3f; 0xff] [0; 0]; Cmp CmpNeq [0; 0];
   Fib; Cmp CmpEq (NativeEndian_PutUint32 RTN_LOCAL)].

Definition addFragmentDrop `{Host} (sink : logSink) (c : string) (opts : FirewallOptions) : list Cmd :=
  addFiltered sink c fragmentMatch (Verdict VerdictDrop)
    (mkLogSpec (FragmentsLog opts) logPrefixFragment 0).

Definition option_list {A B} (o : option A) (f : A → list B) : list B :=
  match o with Some x => f x | None => [] end.

(** [addBogonFilter] *)
Definition bogon_source_returns (proto : Z) (r : PortRule) : list Cmd :=
  if negb (FiltersHost r) then []
  else flat_map (λ src, option_list (ipv4SourceMatch src) (λ m,
         [rule "bogon" (m ++ [Meta L4PROTO; Cmp CmpEq [proto]] ++ buildPortExprs (Port r) ++
                        [Verdict VerdictReturn])])) (Sources r).

Definition addBogonFilter (sink : logSink) (c : string) (opts : FirewallOptions) (exempt : list string)
    (rules : Rules) : list Cmd :=
  [AddChain "bogon" None] ++
  flat_map (λ cidr, option_list (ipv4SourceMatch cidr) (λ m,
    [rule "bogon" (m ++ [Verdict VerdictReturn])])) exempt ++
  flat_map (bogon_source_returns IPPROTO_TCP) (TCP rules) ++
  flat_map (bogon_source_returns IPPROTO_UDP) (UDP rules) ++
  flat_map (λ cidr, option_list (ipv4SourceMatch cidr) (λ m,
    addFiltered sink "bogon" m (Verdict VerdictDrop) (mkLogSpec (BogonsLog opts) logPrefixBogon 0)))
    BogonRanges ++
  [rule c [Meta NFPROTO; Cmp CmpEq [NFPROTO_IPV4]; Meta IIFNAME; Cmp CmpNeq lo_name;
           Verdict (VerdictJump "bogon")]].

(** [addPortScanPrevention] *)
Definition scanCombos : list (Z * Z) :=
  [(0x00, 0xff); (0x01, 0xff); (0x03, 0x03); (0x05, 0x05); (0x06, 0x06); (0x29, 0x29); (0xff, 0xff)].

Definition tcpFlagsMatch (mask flags : Z) : list Expr :=
  [Meta L4PROTO; Cmp CmpEq [IPPROTO_TCP]; Payload TransportHeader 13 1; Bitwise 1 [mask] [0];
   Cmp CmpEq [flags]].

Definition addPortScanPrevention (sink : logSink) (c : string) (opts : FirewallOptions) : list Cmd :=
  [AddChain "portscan" None] ++
  (if PortScanLog opts then [rule "portscan" (logExprs logPrefixPortScan 0 sink)] else []) ++
  [rule "portscan" [Verdict VerdictDrop]] ++
  map (λ combo, rule c (tcpFlagsMatch combo.2 combo.1 ++ [Verdict (VerdictJump "portscan")])) scanCombos.

(** [addOverRateChain], [addPerSourceRateLimit] *)
Definition addOverRateChain (sink : logSink) (name : string) (lg : logSpec) : list Cmd :=
  [AddChain name None] ++
  (if lg_enabled lg then [rule name (logExprs (lg_prefix lg) (lg_perMinute lg) sink)] else []) ++
  [rule name [Verdict VerdictDrop]].

Record perSourceRate := mkPerSourceRate {
  ps_setPrefix : string; ps_rate : Z; ps_unit : LimitTime; ps_burst : Z; ps_timeout : Z }.

Definition rateExprs (match_ : addrFamily → list Expr) (r : perSourceRate) (target : string)
    (f : addrFamily) : list Expr :=
  [Meta NFPROTO; Cmp CmpEq [af_nfproto f]] ++ match_ f ++
  [Payload NetworkHeader (af_offset f) (af_keyLen f);
   Dynset (ps_setPrefix r +:+ "-" +:+ familySuffix f)
     (OverRate (ps_rate r) (ps_unit r) (ps_burst r) (ps_timeout r));
   Verdict (VerdictJump target)].

Definition addPerSourceRateLimit `{NftConn} (c : string) (match_ : addrFamily → list Expr) (r : perSourceRate)
    (target : string) : list Cmd :=
  flat_map (λ f,
    let name := ps_setPrefix r +:+ "-" +:+ familySuffix f in
    if AddSet_err name then []
    else [AddSet (mkSetSpec name (af_keyLen f) false (Some (ps_timeout r)));
          rule c (rateExprs match_ r target f)]) addrFamilies.

(** A limit that is not positive is replaced. *)
Definition positive_or (d v : Z) : Z := if v <=? 0 then d else v.

Definition synMatch (f : addrFamily) : list Expr := tcpFlagsMatch 0x17 0x02.

Definition addSYNFloodProtection `{NftConn} (sink : logSink) (c : string) (opts : FirewallOptions) : list Cmd :=
  let limit := positive_or 100 (SYNFloodLimit opts) in
  addOverRateChain sink "synflood-over" (mkLogSpec (SYNFloodLog opts) logPrefixSYNFlood 0) ++
  addPerSourceRateLimit c synMatch
    (mkPerSourceRate "synflood" (uint64 limit) PerSecond (uint32 (limit * 2)) 60) "synflood-over".

Definition echoMatch (f : addrFamily) : list Expr :=
  let '(proto, echo) := if af_nfproto f =? NFPROTO_IPV6 then (IPPROTO_ICMPV6, 128) else (IPPROTO_ICMP, 8) in
  [Meta L4PROTO; Cmp CmpEq [proto]; Payload TransportHeader 0 1; Cmp CmpEq [echo]].

Definition addICMPFloodProtection `{NftConn} (sink : logSink) (c : string) (opts : FirewallOptions) : list Cmd :=
  let limit := positive_or 10 (ICMPFloodConnectionLimit opts) in
  addOverRateChain sink "icmpflood-over"
    (mkLogSpec (ICMPFloodLog opts) logPrefixICMPFlood (ICMPFloodLogLimit opts)) ++
  addPerSourceRateLimit c echoMatch
    (mkPerSourceRate "icmpflood" (uint64 limit) PerSecond (uint32 limit) 60) "icmpflood-over".

(** [sshMeteredPorts], [addSSHBruteForce] *)
Definition sshMeteredPorts (rules : Rules) : list string :=
  let ports := map Port (filter (λ r, SSH r && FiltersHost r = true) (TCP rules)) in
  if bool_decide (ports = []) then ["22"] else ports.

Definition addSSHBruteForce `{Host} `{NftConn} (sink : logSink) (c : string) (rules : Rules)
    (opts : FirewallOptions) : list Cmd :=
  let limit := positive_or 5 (SSHBruteForceConnectionLimit opts) in
  [AddChain "sshbrute" None] ++
  addOverRateChain sink "sshbrute-over"
    (mkLogSpec (SSHBruteForceLog opts) logPrefixSSH (SSHBruteForceLogLimit opts)) ++
  addPerSourceRateLimit "sshbrute" (λ _, [])
    (mkPerSourceRate "sshbrute" (uint64 limit) PerMinute (uint32 limit) 600) "sshbrute-over" ++
  [rule "sshbrute" [Verdict VerdictReturn]] ++
  map (λ port, rule c ([Meta L4PROTO; Cmp CmpEq [IPPROTO_TCP]] ++ buildPortExprs port ++
    [Ct; Bitwise 4 (ctStateMask ctStateNew) ctStateNoMatch; Cmp CmpNeq ctStateNoMatch;
     Verdict (VerdictJump "sshbrute")])) (sshMeteredPorts rules).

Definition rstMatch (f : addrFamily) : list Expr := tcpFlagsMatch 0x04 0x04.

Definition addTCPRSTFlood `{NftConn} (sink : logSink) (c : string) (opts : FirewallOptions) : list Cmd :=
  let limit := positive_or 100 (TCPRSTFloodLimit opts) in
  addOverRateChain sink "tcprst-over" (mkLogSpec (TCPRSTFloodLog opts) logPrefixTCPRST 0) ++
  addPerSourceRateLimit c rstMatch
    (mkPerSourceRate "tcprst" (uint64 limit) PerSecond (uint32 limit) 60) "tcprst-over".

(** [addConnectionLimit] *)
Definition addConnectionLimit `{NftConn} (c : string) (opts : FirewallOptions) : list Cmd :=
  let max := positive_or 100 (ConnectionLimitMax opts) in
  flat_map (λ f,
    let name := "connlimit-" +:+ familySuffix f in
    if AddSet_err name then []
    else [AddSet (mkSetSpec name (af_keyLen f) false None);
          rule c (srcAddrExprs f ++ [Dynset name (OverConnections (uint32 max)); Verdict VerdictDrop])])
    addrFamilies.

(** [addBroadcastDrop], [addMulticastDrop], [addAnycastDrop] *)
Definition addBroadcastDrop (c : string) : list Cmd :=
  [rule c [Meta PKTTYPE; Cmp CmpEq [PACKET_BROADCAST]; Verdict VerdictDrop]].
Definition addMulticastDrop (c : string) : list Cmd :=
  [rule c [Meta PKTTYPE; Cmp CmpEq [PACKET_MULTICAST]; Verdict VerdictDrop]].
Definition addAnycastDrop `{Host} (c : string) : list Cmd :=
  [rule c [Fib; Cmp CmpEq (NativeEndian_PutUint32 RTN_ANYCAST); Verdict VerdictDrop]].

(** ** The lists *)

(** [addCIDRAccept]: always masked, on both families. *)
Definition addCIDRAccept (c cidr : string) : list Cmd :=
  if IsListComment cidr then []
  else
    let cidr := TrimSpace cidr in
    match parseIPNet cidr with
    | None => []
    | Some ipNet =>
        match To4 (IP ipNet) with
        | Some ip4 =>
            [rule c [Meta NFPROTO; Cmp CmpEq [NFPROTO_IPV4]; Payload NetworkHeader 12 4;
                     Bitwise 4 (Mask ipNet) [0; 0; 0; 0]; Cmp CmpEq ip4; Verdict VerdictAccept]]
        | None =>
            [rule c [Meta NFPROTO; Cmp CmpEq [NFPROTO_IPV6]; Payload NetworkHeader 8 16;
                     Bitwise 16 (Mask ipNet) (replicate 16 0); Cmp CmpEq (To16 (IP ipNet));
                     Verdict VerdictAccept]]
        end
    end.

Definition addBlocklistRule (sink : logSink) (c ip : string) (opts : FirewallOptions) : list Cmd :=
  if IsListComment ip then []
  else
    let lg := mkLogSpec (LogBlocklist opts) logPrefixBlocklist (LogBlocklistLimit opts) in
    option_list (blocklistMatch ip) (λ m, addFiltered sink c m (Verdict VerdictDrop) lg).

Definition addAllowlistRule (c ip : string) : list Cmd :=
  if IsListComment ip then []
  else match ParseIP ip with
       | None => addCIDRAccept c ip
       | Some parsed => [rule c (hostMatch parsed ++ [Verdict VerdictAccept])]
       end.

(** [addPortAccept] *)
Definition addPortAccept (c proto : string) (r : PortRule) : list Cmd :=
  map AddRule (portAcceptRules c proto r).

(** ** Port forwarding *)

Definition prioFilter : Z := 0.
Definition prioNAT : Z := -100.
Definition prioBeforeDefrag : Z := -450.

Definition forwarding_rule `{Host} (r : ForwardingRule) : Cmd :=
  let protoNum := if String.eqb (Protocol r) "udp" then IPPROTO_UDP else IPPROTO_TCP in
  rule "prerouting"
    [Fib; Cmp CmpEq (NativeEndian_PutUint32 RTN_LOCAL); Meta L4PROTO; Cmp CmpEq [protoNum];
     Payload TransportHeader 2 2; Cmp CmpEq (portBytes (SourcePort r)); Immediate (portBytes (DestPort r));
     Redir].

Definition addForwardingRules `{Host} (rules : list ForwardingRule) : list Cmd :=
  [AddChain "prerouting" (Some (mkBaseChain true HookPrerouting prioNAT None))] ++ map forwarding_rule rules.

(** [addFinalLog] *)
Definition addFinalLog (sink : logSink) (c : string) (opts : FirewallOptions) : list Cmd :=
  [rule c (logExprs logPrefixDrop (positive_or 60 (LogBlockedLimit opts)) sink)].

(** ** Feeds *)

Definition feed_range_calls (set : string) (v6 : bool) (ranges : list addrRange) : list (list SetElement) :=
  map rangeElements (chunks_of v6 ranges).

(** [addFeedElements]: the calls up to the first one refused. *)
Fixpoint addFeedElements `{NftConn} (set : string) (calls : list (list SetElement)) : list Cmd * bool :=
  match calls with
  | [] => ([], true)
  | els :: calls =>
      if SetAddElements_err els then ([], false)
      else let '(cs, ok) := addFeedElements set calls in (SetAddElements set els :: cs, ok)
  end.

Definition FeedContents : Type := string → list prefix.

Section Feeds.
Context `{NftConn} (sink : logSink) (c : string) (feeds : FeedContents) (opts : FirewallOptions)
  (fwdLists : option string).

Definition feed_rules (id : string) (f : addrFamily) : list Cmd :=
  let set := feedSetName id (af_nfproto f =? NFPROTO_IPV6) in
  addLogged sink c (srcAddrExprs f ++ [Lookup set])
    (mkLogSpec (LogFeed opts) (FeedLogPrefix id) (LogFeedLimit opts)) (feedCounterID id)
    [Counter; Verdict VerdictDrop] ++
  match fwdLists with
  | Some fwd => [rule fwd (srcAddrExprs f ++ [Lookup set; Counter; Verdict VerdictDrop])]
  | None => []
  end.

(** One feed and family: [None] is the error return. *)
Definition addFeed_family (id : string) (v4 v6 : list addrRange) (f : addrFamily) : option (list Cmd) :=
  let is6 := af_nfproto f =? NFPROTO_IPV6 in
  let set := feedSetName id is6 in
  if AddSet_err set then None
  else
    let '(els, ok) := addFeedElements set (feed_range_calls set is6 (if is6 then v6 else v4)) in
    if negb ok then None
    else Some ([AddSet (mkSetSpec set (af_keyLen f) true None)] ++ els ++ feed_rules id f).

Fixpoint addFeed_families (id : string) (v4 v6 : list addrRange) (fs : list addrFamily) : option (list Cmd) :=
  match fs with
  | [] => Some []
  | f :: fs =>
      match addFeed_family id v4 v6 f, addFeed_families id v4 v6 fs with
      | Some a, Some b => Some (a ++ b)
      | _, _ => None
      end
  end.

Fixpoint addFeeds_loop (ids : list string) (batch : Z) : option (list Cmd * Z) :=
  match ids with
  | [] => Some ([], batch)
  | id :: ids =>
      let '(v4, v6) := splitFamilies (mergeRanges (feeds id)) in
      let batch := batch + feedElementBytes v4 v6 in
      match addFeed_families id v4 v6 addrFamilies with
      | None => None
      | Some a => match addFeeds_loop ids batch with
                  | Some (b, batch) => Some (a ++ b, batch)
                  | None => None
                  end
      end
  end.

(** [addFeeds]: what it queues and the bytes of its elements. *)
Definition addFeeds (enabled : list string) : option (list Cmd * Z) :=
  addFeeds_loop (FeedRuleOrder enabled) 0.
End Feeds.

(** ** Batches and chains *)

Lemma rules_of_app a b : rules_of (a ++ b) = rules_of a ++ rules_of b.
Proof. unfold rules_of. by rewrite omap_app. Qed.

Lemma rules_of_flat_map {A} (f : A → list Cmd) l : rules_of (flat_map f l) = flat_map (λ x, rules_of (f x)) l.
Proof. induction l as [|x l IH]; [done|]. cbn [flat_map]. by rewrite rules_of_app, IH. Qed.

Lemma rules_of_map {A} (f : A → Rule) l : rules_of (map (λ x, AddRule (f x)) l) = map f l.
Proof. induction l as [|x l IH]; [done|]. cbn in *. by f_equal. Qed.

(** Every rule of the batch goes to one of these chains. *)
Definition within (cs : list string) (b : list Cmd) : Prop :=
  Forall (λ k, match k with AddRule r => r_chain r ∈ cs | _ => True end) b.

Lemma within_app cs a b : within cs a → within cs b → within cs (a ++ b).
Proof. intros. by apply Forall_app. Qed.

Lemma within_nil cs : within cs [].
Proof. constructor. Qed.

Lemma within_cons_rule cs r b : r_chain r ∈ cs → within cs b → within cs (AddRule r :: b).
Proof. intros. by constructor. Qed.

Lemma within_cons_other cs k b :
  match k with AddRule r => r_chain r ∈ cs | _ => True end → within cs b → within cs (k :: b).
Proof. intros. by constructor. Qed.

Lemma within_flat_map {A} cs (f : A → list Cmd) l : (∀ x, within cs (f x)) → within cs (flat_map f l).
Proof. intros Hf. induction l as [|x l IH]; [constructor|]. by apply within_app. Qed.

Lemma within_map {A} cs (f : A → Cmd) l :
  (∀ x, match f x with AddRule r => r_chain r ∈ cs | _ => True end) → within cs (map f l).
Proof. intros Hf. induction l as [|x l IH]; [constructor|]. constructor; [apply Hf|apply IH]. Qed.

Lemma within_mono cs cs' b : cs ⊆ cs' → within cs b → within cs' b.
Proof. intros Hcs Hb. eapply Forall_impl; [exact Hb|]. intros [| | | | | |r]; auto. Qed.

Lemma chain_rules_app a b c : chain_rules (a ++ b) c = chain_rules a c ++ chain_rules b c.
Proof. apply filter_app. Qed.

Lemma within_none cs b c : within cs b → c ∉ cs → chain_rules (rules_of b) c = [].
Proof.
  intros Hb Hc. induction Hb as [|k b Hk _ IH]; [done|].
  destruct k; [exact IH..|]. cbn in Hk. change (chain_rules (r :: rules_of b) c = []).
  unfold chain_rules. rewrite filter_cons_False; [exact IH|]. intros E. by rewrite E in Hk.
Qed.

Lemma within_all b c : within [c] b → chain_rules (rules_of b) c = rules_of b.
Proof.
  intros Hb. induction Hb as [|k b Hk _ IH]; [done|].
  destruct k; [exact IH..|]. cbn in Hk. change (chain_rules (r :: rules_of b) c = r :: rules_of b).
  unfold chain_rules. rewrite filter_cons_True; [by f_equal|].
  by apply list_elem_of_singleton.
Qed.

Lemma option_list_within {B} cs (o : option B) f : (∀ x, within cs (f x)) → within cs (option_list o f).
Proof. destruct o; intros Hf; [apply Hf|apply within_nil]. Qed.

(** A chain of a list of chains. *)
Ltac in_chains := solve [cbn [r_chain]; repeat first [exact (list_elem_of_here _ _) | apply list_elem_of_further]].

Ltac chains :=
  repeat lazymatch goal with
  | |- within _ [] => apply within_nil
  | |- within _ (_ ++ _) => apply within_app
  | |- within _ (flat_map _ _) => apply within_flat_map; intros ?
  | |- within _ (option_list _ _) => apply option_list_within; intros ?
  | |- within _ (AddRule _ :: _) => apply within_cons_rule; [in_chains|]
  | |- within _ (_ :: _) => apply within_cons_other; [exact I|]
  | |- within _ (if ?b then _ else _) => destruct b
  end.

Section Chains.
Context `{Host} `{NftConn} (sink : logSink) (opts : FirewallOptions).

Lemma addLogged_within c m lg tag act : within [c] (addLogged sink c m lg tag act).
Proof. unfold addLogged, rule. destruct (lg_enabled lg); cbn [app]; chains. Qed.

Lemma addCIDRAccept_within c cidr : within [c] (addCIDRAccept c cidr).
Proof. unfold addCIDRAccept, rule. cbv zeta. repeat case_match; chains. Qed.

Lemma addBlocklistRule_within c ip : within [c] (addBlocklistRule sink c ip opts).
Proof.
  unfold addBlocklistRule. destruct (IsListComment ip); [apply within_nil|]. cbv zeta.
  apply option_list_within. intros. apply addLogged_within.
Qed.

Lemma addAllowlistRule_within c ip : within [c] (addAllowlistRule c ip).
Proof.
  unfold addAllowlistRule, rule. destruct (IsListComment ip); [apply within_nil|].
  destruct (ParseIP ip); [chains|apply addCIDRAccept_within].
Qed.

Lemma portAcceptRules_chain c proto r k : k ∈ portAcceptRules c proto r → r_chain k = c.
Proof.
  unfold portAcceptRules. cbv zeta. destruct (_ && _); [by intros ?%not_elem_of_nil|].
  destruct (bool_decide _).
  - by intros ->%list_elem_of_singleton.
  - intros (m & -> & _)%list_elem_of_fmap. done.
Qed.

Lemma addPortAccept_within c proto r : within [c] (addPortAccept c proto r).
Proof.
  unfold addPortAccept, within. rewrite Forall_map, Forall_forall. intros k Hk%portAcceptRules_chain.
  cbn. set_solver.
Qed.

Lemma addICMPTypeAccept_within c proto typ : within [c] (addICMPTypeAccept c proto typ).
Proof. unfold addICMPTypeAccept, rule. chains. Qed.

Lemma addOverRateChain_within name lg : within [name] (addOverRateChain sink name lg).
Proof. unfold addOverRateChain, rule. destruct (lg_enabled lg); cbn [app]; chains. Qed.

Lemma addPerSourceRateLimit_within c m r target : within [c] (addPerSourceRateLimit c m r target).
Proof.
  unfold addPerSourceRateLimit, rule. apply within_flat_map. intros f. cbv zeta.
  destruct (AddSet_err _); chains.
Qed.

Lemma addBogonFilter_within c exempt rules : within ["bogon"; c] (addBogonFilter sink c opts exempt rules).
Proof.
  unfold addBogonFilter, bogon_source_returns, rule. chains.
  eapply within_mono, addLogged_within. set_solver.
Qed.
End Chains.

(** ** The feeds' rules *)

Lemma FeedRuleOrder_existsb (f : string → bool) ids : existsb f (FeedRuleOrder ids) = existsb f ids.
Proof.
  apply eq_iff_eq_true. rewrite !existsb_exists. unfold FeedRuleOrder.
  setoid_rewrite <- list_elem_of_In. setoid_rewrite elem_of_app.
  setoid_rewrite list_elem_of_filter. split.
  - intros (x & [[_ Hx]|[_ Hx]] & Hf); by exists x.
  - intros (x & Hx & Hf). exists x. split; [|done].
    destruct (IsCountryFeedID x); [by right|by left].
Qed.

Section FeedRules.
Context `{NftConn} (sink : logSink) (c : string) (feeds : FeedContents) (opts : FirewallOptions)
  (fwd : option string).

Lemma addFeedElements_rules set calls : rules_of (addFeedElements set calls).1 = [].
Proof.
  induction calls as [|els calls IH]; [done|]. cbn [addFeedElements].
  destruct (SetAddElements_err els); [done|]. by destruct (addFeedElements set calls).
Qed.

Lemma addFeed_family_rules id v4 v6 f cs :
  addFeed_family sink c opts fwd id v4 v6 f = Some cs → rules_of cs = rules_of (feed_rules sink c opts fwd id f).
Proof.
  unfold addFeed_family. cbv zeta. destruct (AddSet_err _); [done|].
  destruct (addFeedElements _ _) as [els ok] eqn:E. destruct ok; [|done]. intros [= <-].
  change (rules_of (els ++ feed_rules sink c opts fwd id f) = rules_of (feed_rules sink c opts fwd id f)).
  rewrite rules_of_app. pose proof (addFeedElements_rules
    (feedSetName id (af_nfproto f =? NFPROTO_IPV6))
    (feed_range_calls (feedSetName id (af_nfproto f =? NFPROTO_IPV6)) (af_nfproto f =? NFPROTO_IPV6)
       (if af_nfproto f =? NFPROTO_IPV6 then v6 else v4))) as Hr.
  rewrite E in Hr. cbn [fst] in Hr. by rewrite Hr.
Qed.

Lemma addFeed_families_rules id v4 v6 fs cs :
  addFeed_families sink c opts fwd id v4 v6 fs = Some cs →
  rules_of cs = flat_map (λ f, rules_of (feed_rules sink c opts fwd id f)) fs.
Proof.
  revert cs. induction fs as [|f fs IH]; intros cs; cbn [addFeed_families flat_map]; [by intros [= <-]|].
  destruct (addFeed_family _ _ _ _ _ _ _ _) as [a|] eqn:Ea; [|done].
  destruct (addFeed_families _ _ _ _ _ _ _ _) as [b|]; [|done]. intros [= <-].
  rewrite rules_of_app, (addFeed_family_rules _ _ _ _ _ Ea). by rewrite (IH b).
Qed.

(** Whatever the feeds hold, the rules of the enabled ones are queued. *)
Lemma addFeeds_rules enabled cs n :
  addFeeds sink c feeds opts fwd enabled = Some (cs, n) →
  rules_of cs = flat_map (λ id, flat_map (λ f, rules_of (feed_rules sink c opts fwd id f)) addrFamilies)
                  (FeedRuleOrder enabled).
Proof.
  unfold addFeeds. generalize 0 as batch. generalize (FeedRuleOrder enabled) as ids. intros ids batch.
  revert batch cs n. induction ids as [|id ids IH]; intros batch cs n; cbn [addFeeds_loop flat_map]; [by intros [= <- _]|].
  destruct (splitFamilies _) as [v4 v6]. destruct (addFeed_families _ _ _ _ _ _ _ _) as [a|] eqn:Ea; [|done].
  destruct (addFeeds_loop _ _ _ _ _ _ _) as [[b n']|] eqn:Eb; [|done]. intros [= <- _].
  by rewrite rules_of_app, (addFeed_families_rules _ _ _ _ _ Ea), (IH _ _ _ Eb).
Qed.
End FeedRules.

(** ** Reading the builders back *)

Section Read.
Context `{Host} (sets : string → list SetElement) (pk : Packet).

Lemma logExprs_silent prefix n sink : Forall silent (logExprs prefix n sink).
Proof. unfold logExprs. destruct (nflog sink); by repeat constructor. Qed.

Lemma rule_decides jump c m b v :
  Matches sets pk m b → final v → decides sets pk jump (rules_of [rule c (m ++ [Verdict v])]) b (decision_of v).
Proof. intros. by apply decides_verdict. Qed.

Lemma established_decides jump c :
  0 <= pk_ct pk < 2 ^ 32 →
  decides sets pk jump (rules_of (addEstablishedAccept c)) (negb (Z.land (pk_ct pk) 6 =? 0)) Accepted.
Proof.
  intros Hct. pose proof (Matches_ct sets pk 6 Hct) as HM. apply Matches_counter in HM.
  by apply (decides_verdict sets pk jump c _ _ VerdictAccept
             (if String.eqb c inputChainName then ReservedIDEstablished else "")) in HM.
Qed.

(** The match of a feed's set. *)
Lemma lookup_matches f set a :
  addr_at pk posSrcAddr a → f ∈ addrFamilies →
  Matches sets pk (srcAddrExprs f ++ [Lookup set])
    (bool_decide (af_nfproto f = fam_of a) && in_interval_set (sets set) (AsSlice a)).
Proof.
  intros [Ha Hf Hl] Hin.
  assert (srcAddrExprs f ++ [Lookup set] =
          [Meta NFPROTO; Cmp CmpEq [af_nfproto f]] ++ [Payload NetworkHeader (af_offset f) (af_keyLen f); Lookup set])
    as -> by done.
  apply Matches_app_if.
  - pose proof (Matches_meta_byte sets pk NFPROTO (af_nfproto f) ltac:(by left)) as HM. cbn in HM.
    rewrite Hf in HM. replace (bool_decide (af_nfproto f = fam_of a)) with (fam_of a =? af_nfproto f); [done|].
    destruct (Z.eqb_spec (fam_of a) (af_nfproto f)); symmetry; [by apply bool_decide_true|].
    apply bool_decide_false. congruence.
  - intros E%bool_decide_eq_true.
    assert (af_offset f = off_of posSrcAddr a ∧ af_keyLen f = len_of a) as [-> ->].
    { unfold addrFamilies in Hin. unfold fam_of, off_of, len_of in *.
      apply elem_of_cons in Hin as [->|[->|[]%not_elem_of_nil]%elem_of_cons]; destruct (Is4 a); done. }
    intros reg. rewrite (run_payload _ _ _ _ _ _ _ _ Hl). cbn. destruct (in_interval_set _ _); eauto.
Qed.

Lemma logged_decides jump sink c m lg tag act b v :
  Matches sets pk (m ++ act) b → Forall silent m → final v →
  decides sets pk jump (rules_of (addLogged sink c m lg tag (act ++ [Verdict v]))) b (decision_of v).
Proof.
  intros HM Hs Hv. unfold addLogged. rewrite rules_of_app.
  rewrite <- (orb_false_l b). apply decides_app.
  - destruct (lg_enabled lg); [|apply decides_nil]. apply decides_silent. cbn.
    apply Forall_app. split; [done|apply logExprs_silent].
  - cbn. rewrite app_assoc. by apply decides_verdict.
Qed.
End Read.

(** ** Chains of a list of rules *)

Lemma within_rules cs b : within cs b ↔ Forall (λ r, r_chain r ∈ cs) (rules_of b).
Proof.
  induction b as [|k b IH]; [split; constructor|]. unfold within in *. rewrite Forall_cons, IH.
  destruct k; cbn; [tauto..|]. by rewrite Forall_cons.
Qed.

Lemma chain_rules_none (cs : list string) rs c : Forall (λ r, r_chain r ∈ cs) rs → c ∉ cs → chain_rules rs c = [].
Proof.
  intros Hr Hc. unfold chain_rules. apply filter_nil_iff. intros r Hin E.
  rewrite Forall_forall in Hr. apply Hc. rewrite <- E. by apply Hr.
Qed.

Lemma chain_rules_all rs c : Forall (λ r, r_chain r = c) rs → chain_rules rs c = rs.
Proof.
  induction 1 as [|r rs Hr _ IH]; [done|]. unfold chain_rules. rewrite filter_cons_True by done. by f_equal.
Qed.

Lemma chain_rules_flat_map {A} (f : A → list Rule) l c :
  chain_rules (flat_map f l) c = flat_map (λ x, chain_rules (f x) c) l.
Proof. induction l as [|x l IH]; [done|]. cbn [flat_map]. by rewrite chain_rules_app, IH. Qed.

Lemma within_not b c c' : within [c] b → c' ≠ c → chain_rules (rules_of b) c' = [].
Proof. intros Hb Hc. apply (within_none [c]); [done|]. by intros ?%list_elem_of_singleton. Qed.

(** A feed's rules, chain by chain. *)
Lemma feed_rules_chain `{NftConn} sink c opts fwd id f :
  chain_rules (rules_of (feed_rules sink c opts (Some fwd) id f)) fwd =
    (if bool_decide (c = fwd) then rules_of (feed_rules sink c opts None id f) else []) ++
    [mkRule fwd (srcAddrExprs f ++ [Lookup (feedSetName id (af_nfproto f =? NFPROTO_IPV6)); Counter; Verdict VerdictDrop]) ""].
Proof.
  unfold feed_rules. cbv zeta. rewrite !rules_of_app, chain_rules_app, app_nil_r.
  pose proof (addLogged_within sink c (srcAddrExprs f ++ [Lookup (feedSetName id (af_nfproto f =? NFPROTO_IPV6))])
    (mkLogSpec (LogFeed opts) (FeedLogPrefix id) (LogFeedLimit opts)) (feedCounterID id) [Counter; Verdict VerdictDrop]) as Hw.
  f_equal.
  - case_bool_decide as E; [subst fwd; by apply within_all|]. apply (within_not _ c); congruence.
  - apply chain_rules_all. by apply Forall_singleton.
Qed.
