(* ===== verification/ForwardChain.v ===== *)
(** * The forward chain

    [buildForwardChain] of [src/internal/core/nftables.go] and the functions it is
    made of: what a host lets cross between its networks and its containers.  The
    theorem reads the chain back as one decision procedure, [forward_verdict]. *)
From S2P Require Import Prelude GoStrings GoNet NetBytes Models FeedIDs Validate Reach PacketLog FeedRanges Nft Matchers Builders.

Local Open Scope Z_scope.

(** [forwardExceptionMatches], [addForwardExceptions] *)
Definition forwardExceptionMatches (cidrs : list string) : list (list Expr) :=
  flat_map (λ cidr, omap (cidrMatch cidr) [posSrcAddr; posDstAddr]) cidrs.

Definition addForwardExceptions (c : string) (matches : list (list Expr)) : list Cmd :=
  map (λ m, rule c (m ++ [Verdict VerdictAccept])) matches.

(** [addForwardLists]: the rules of the chain it adds, the jumps into it, and what
    it queues with the chain it leaves for the feeds. *)
Definition lists_chain (rules : Rules) (cidrs : list string) : list Cmd :=
  let add m v := rule forwardListsChainName (m ++ [Verdict v]) in
  flat_map (λ cidr, option_list (cidrMatch cidr posSrcAddr) (λ m, [add m VerdictReturn])) cidrs ++
  map (λ m, add (m ++ [Counter]) VerdictDrop) (omap (λ e, cidrMatch e posSrcAddr) (Blocklist rules)) ++
  flat_map (λ e, option_list (cidrMatch e posSrcAddr) (λ m, [add m VerdictReturn])) (Allowlist rules).

Definition lists_jumps (c : string) (routing : RoutingConfig) (cidrs : list string) : list Cmd :=
  if negb (String.eqb (Routing_Mode routing) RoutingOpen)
  then [rule c [Verdict (VerdictJump forwardListsChainName)]]
  else flat_map (λ cidr, option_list (cidrMatch cidr posDstAddr) (λ m,
         [rule c (m ++ [Verdict (VerdictJump forwardListsChainName)])])) cidrs.

Definition addForwardLists (c : string) (rules : Rules) (routing : RoutingConfig) (cidrs : list string)
    : list Cmd * option string :=
  let blocked := omap (λ e, cidrMatch e posSrcAddr) (Blocklist rules) in
  if bool_decide (blocked = []) && bool_decide (Feeds rules = []) then ([], None)
  else
    ([AddChain forwardListsChainName None] ++ lists_chain rules cidrs ++ lists_jumps c routing cidrs,
     Some forwardListsChainName).

(** [forwardPortRulesRender] *)
Definition forwardPortRulesRender (docker : DockerConfig) (cidrs : list string) : bool :=
  let '(v4, v6) := cidrFamilies cidrs in FiltersPublishedPorts docker && (v4 || v6).

(** The rules of one forwarded port rule: a source's in its own family, the
    source-less one pinned to every family that has a container network. *)
Definition forward_rule (c proto : string) (v4 v6 : bool) (ipv6 : string) (r : PortRule) : list Rule :=
  if negb (FiltersForwarded r) then []
  else
    flat_map (λ k : Rule,
      match ruleFamily (r_exprs k) with
      | None => []
      | Some fam => if (fam =? NFPROTO_IPV6) && String.eqb ipv6 IPv6Block then [] else [k]
      end) (portAcceptRules c proto r) ++
    flat_map (λ '(on, fam),
      if negb (on : bool) then []
      else flat_map (λ k : Rule,
             match ruleFamily (r_exprs k) with
             | Some _ => []
             | None => [mkRule (r_chain k) (forwardFamilyPin (r_exprs k) fam) (r_tag k)]
             end) (portAcceptRules c proto r))
      [(v4, NFPROTO_IPV4); (v6, NFPROTO_IPV6)].

(** The deny of one container network. *)
Definition bridge_deny (c cidr : string) : list Cmd :=
  match cidrMatch cidr posDstAddr, cidrMatchNegated cidr posSrcAddr with
  | Some dst, Some src =>
      [rule c ((dst ++ withoutFamilyTest src) ++ [Counter; Verdict VerdictDrop])]
  | _, _ => []
  end.

Definition addForwardPortRules (c : string) (rules : Rules) (docker : DockerConfig) (cidrs : list string)
    (ipv6 : string) : list Cmd :=
  if negb (FiltersPublishedPorts docker) then []
  else
    let '(v4, v6) := cidrFamilies cidrs in
    if negb v4 && negb v6 then []
    else
      map AddRule (flat_map (forward_rule c "tcp" v4 v6 ipv6) (TCP rules) ++
                   flat_map (forward_rule c "udp" v4 v6 ipv6) (UDP rules)) ++
      flat_map (bridge_deny c) cidrs.

(** [buildForwardChain] *)
Definition forward_exceptions (routing : RoutingConfig) (dockerCIDRs : list string) : list (list Expr) :=
  if negb (String.eqb (Routing_Mode routing) RoutingOpen)
  then forwardExceptionMatches
         (if String.eqb (Routing_Mode routing) RoutingNetworks
          then dockerCIDRs ++ Routing_Networks routing else dockerCIDRs)
  else [].

Definition buildForwardChain `{Host} (c : string) (rules : Rules) (docker : DockerConfig)
    (routing : RoutingConfig) (dockerCIDRs : list string) (ipv6 : string) : list Cmd * option string :=
  let exceptions := forward_exceptions routing dockerCIDRs in
  if negb (forwardPortRulesRender docker dockerCIDRs) && bool_decide (exceptions = []) then ([], None)
  else
    let '(lists, fwd) := addForwardLists c rules routing dockerCIDRs in
    (addEstablishedAccept c ++ lists ++ addForwardPortRules c rules docker dockerCIDRs ipv6 ++
     addForwardExceptions c exceptions, fwd).

(** ** The warning about published ports *)

(** What the detection of published ports answers. *)
Record publishedPort := mkPublishedPort { pp_proto : string; pp_addr : string; pp_port : Z; pp_containerPort : Z }.

(** [forwardedRuleCovers] *)
Definition forwardedRuleCovers (rules : Rules) (p : publishedPort) : bool :=
  let lists := [TCP rules; UDP rules] in
  let lists := if String.eqb (pp_proto p) "tcp" then take 1 lists
               else if String.eqb (pp_proto p) "udp" then drop 1 lists else lists in
  existsb (existsb (λ r, FiltersForwarded r && bool_decide (Sources r = []) &&
                         PortInRule (Port r) (pp_containerPort p))) lists.

(** ** What the chain decides *)

Section Spec.
Context (pk : Packet) (src dst : addr) (port : Z).

(** A forwarded rule lets the packet reach a container. *)
Definition forward_opens (proto : string) (v4 v6 : bool) (ipv6 : string) (r : PortRule) : bool :=
  FiltersForwarded r && (pk_l4proto pk =? protoNum proto) && rule_opens r src port &&
  (if bool_decide (Sources r = []) then (if Is4 src then v4 else v6)
   else Is4 src || negb (String.eqb ipv6 IPv6Block)).

Definition any_opens (rules : Rules) (cidrs : list string) (ipv6 : string) : bool :=
  let '(v4, v6) := cidrFamilies cidrs in
  existsb (forward_opens "tcp" v4 v6 ipv6) (TCP rules) ||
  existsb (forward_opens "udp" v4 v6 ipv6) (UDP rules).

(** From outside a container network into it. *)
Definition enters_bridge (cidr : string) : bool := entry_covers dst cidr && negb (entry_covers src cidr).

Definition crosses (cidr : string) : bool := entry_covers src cidr || entry_covers dst cidr.

(** The lists, for a source that is no container network. *)
Definition lists_refuse (sets : string → list SetElement) (rules : Rules) (routing : RoutingConfig)
    (cidrs : list string) : bool :=
  (negb (String.eqb (Routing_Mode routing) RoutingOpen) || InAnyEntry dst cidrs) &&
  negb (InAnyEntry src cidrs) &&
  (InAnyEntry src (Blocklist rules) ||
   (negb (InAnyEntry src (Allowlist rules)) &&
    existsb (λ id, in_interval_set (sets (feedSetName id (negb (Is4 src)))) (AsSlice src)) (Feeds rules))).

Definition forward_verdict (sets : string → list SetElement) (rules : Rules) (docker : DockerConfig)
    (routing : RoutingConfig) (cidrs : list string) (ipv6 : string) (policy : decision) : decision :=
  if negb (forwardPortRulesRender docker cidrs) && bool_decide (forward_exceptions routing cidrs = [])
  then policy
  else if negb (Z.land (pk_ct pk) 6 =? 0) then Accepted
  else if lists_refuse sets rules routing cidrs then Dropped
  else if forwardPortRulesRender docker cidrs && any_opens rules cidrs ipv6 then Accepted
  else if forwardPortRulesRender docker cidrs && existsb enters_bridge cidrs then Dropped
  else if negb (String.eqb (Routing_Mode routing) RoutingOpen) &&
          existsb crosses (if String.eqb (Routing_Mode routing) RoutingNetworks
                           then cidrs ++ Routing_Networks routing else cidrs)
  then Accepted
  else policy.
End Spec.

(** ** Reading the chain back *)

Section Read.
Context `{Host} (sets : string → list SetElement) (pk : Packet) (src dst : addr) (port : Z).

(** A packet the host routes. *)
Record forwarded : Prop := {
  fw_src : addr_at pk posSrcAddr src;
  fw_dst : addr_at pk posDstAddr dst;
  fw_port : ∀ proto, pk_l4proto pk = protoNum proto → to_port pk port;
  fw_ct : 0 <= pk_ct pk < 2 ^ 32 }.
Context (Hfw : forwarded).

Lemma same_family : Is4 src = Is4 dst.
Proof using Hfw.
  destruct Hfw as [[_ Es _] [_ Ed _] _ _]. rewrite Es in Ed. unfold fam_of in Ed.
  by destruct (Is4 src), (Is4 dst).
Qed.

(** *** Port rules *)

Lemma ruleFamily_net masked pos op p rest : ruleFamily (net_exprs masked pos op p ++ rest) = Some (fam_of (p_addr p)).
Proof. done. Qed.

Lemma flat_map_entries {A} (f : Rule → list Rule) (mb : A → option (list Expr)) mk l :
  flat_map f (entry_rules mb mk l) = entry_rules mb (λ m, flat_map f (mk m)) l.
Proof.
  unfold entry_rules. induction l as [|x l IH]; [done|]. cbn [flat_map]. rewrite flat_map_app, IH.
  by destruct (mb x).
Qed.

Lemma cidrMatch_net_exprs s pos m :
  cidrMatch s pos = Some m → ∃ p masked, entry_net s = Some p ∧ m = net_exprs masked pos CmpEq p.
Proof.
  unfold cidrMatch. rewrite cidrMatchOp_net. destruct (entry_net s) as [p|]; [|done].
  intros [= <-]. by eexists _, _.
Qed.

(** An entry of the other family covers nothing here. *)
Lemma covers_family a s p :
  addr_ok a → entry_valid s → entry_net s = Some p → entry_covers a s = true → Is4 a = Is4 (p_addr p).
Proof.
  intros Ha Hv E. rewrite entry_net_covers by (done || by apply entry_valid_zoneless). rewrite E.
  rewrite Contains_mask by (done || by eapply entry_net_ok). intros [?%bool_decide_eq_true _]%andb_true_iff. done.
Qed.

Lemma sources_forward_decides jump c proto v4 v6 ipv6 r :
  ValidPortRule r → Sources r ≠ [] → FiltersForwarded r = true →
  decides sets pk jump (forward_rule c proto v4 v6 ipv6 r)
    (forward_opens pk src port proto v4 v6 ipv6 r) Accepted.
Proof using Hfw.
  intros Hv Hne Hff. unfold forward_rule, forward_opens, rule_opens. rewrite Hff. cbn [negb].
  rewrite portAcceptRules_entries, (bool_decide_false _ Hne), !flat_map_entries. cbn [orb andb].
  set (q := (pk_l4proto pk =? protoNum proto) && in_port r port).
  set (fam_on := Is4 src || negb (String.eqb ipv6 IPv6Block)).
  replace (_ && _ && _) with (existsb (λ s, entry_covers src s && (q && fam_on)) (Sources r)).
  2:{ rewrite existsb_andb_r. unfold InAnyEntry, q.
      by destruct (existsb _ _), (pk_l4proto pk =? protoNum proto), (in_port r port), fam_on. }
  rewrite <- (orb_false_r (existsb _ _)). apply decides_app.
  - apply decides_entries. intros s Hs.
    pose proof Hv as [_ _ Hsrc]. rewrite Forall_forall in Hsrc. specialize (Hsrc s Hs) as Hsv.
    destruct (cidrMatch s posSrcAddr) as [m|] eqn:E.
    2:{ by rewrite (cidrMatch_None s posSrcAddr CmpEq src) by (done || apply Hfw). }
    destruct (cidrMatch_net_exprs _ _ _ E) as (p & masked & En & Em).
    assert (Matches sets pk m (entry_covers src s)) as HM by (eapply cidrMatch_reads; [apply Hfw|done|done]).
    pose proof (port_rule_decides sets pk jump c proto r port m _ Hv (fw_port Hfw proto) HM) as Hd. fold q in Hd.
    cbn [flat_map]. rewrite app_nil_r.
    assert (ruleFamily (r_exprs (port_rule c proto r m)) = Some (fam_of (p_addr p))) as -> by (by rewrite Em).
    destruct (entry_covers src s) eqn:Ec; cbn [andb] in *.
    + pose proof (covers_family src s p ltac:(apply Hfw) Hsv En Ec) as Ef.
      unfold fam_on, fam_of. rewrite <- Ef. destruct (Is4 src); cbn [orb andb Z.eqb] in *.
      * by rewrite andb_true_r.
      * destruct (String.eqb ipv6 IPv6Block); cbn in *; [rewrite andb_false_r; apply decides_nil|].
        by rewrite andb_true_r.
    + destruct ((fam_of (p_addr p) =? NFPROTO_IPV6) && String.eqb ipv6 IPv6Block); [apply decides_nil|done].
  - assert (∀ fam, entry_rules (λ s, cidrMatch s posSrcAddr)
              (λ m, flat_map (λ k, match ruleFamily (r_exprs k) with
                                   | Some _ => []
                                   | None => [mkRule (r_chain k) (forwardFamilyPin (r_exprs k) fam) (r_tag k)]
                                   end) [port_rule c proto r m]) (Sources r) = []) as Hnil.
    { intros fam. unfold entry_rules. generalize (Sources r) as srcs. induction srcs as [|s l IH]; [done|]. cbn [flat_map].
      destruct (cidrMatch s posSrcAddr) as [m|] eqn:E; [|exact IH].
      destruct (cidrMatch_net_exprs _ _ _ E) as (p & masked & _ & ->). exact IH. }
    cbn [flat_map]. rewrite !flat_map_entries, !Hnil. destruct v4, v6; apply decides_nil.
Qed.

Lemma open_forward_decides jump c proto v4 v6 ipv6 r :
  ValidPortRule r → Sources r = [] → FiltersForwarded r = true →
  decides sets pk jump (forward_rule c proto v4 v6 ipv6 r)
    (forward_opens pk src port proto v4 v6 ipv6 r) Accepted.
Proof using Hfw.
  intros Hv Hne Hff. unfold forward_rule, forward_opens, rule_opens. rewrite Hff. cbn [negb andb].
  rewrite portAcceptRules_entries, (bool_decide_true _ Hne). cbn [orb]. rewrite andb_true_r.
  set (q := (pk_l4proto pk =? protoNum proto) && in_port r port).
  cbn [flat_map app port_rule r_exprs ruleFamily r_chain r_tag forwardFamilyPin]. rewrite !app_nil_r.
  assert (∀ fam, decides sets pk jump
            [mkRule c ([Meta NFPROTO; Cmp CmpEq [fam]] ++ [Meta L4PROTO; Cmp CmpEq [protoNum proto]] ++
               buildPortExprs (Port r) ++ [Counter; Verdict VerdictAccept]) (ID r)]
            ((fam_of src =? fam) && q) Accepted) as Hpin.
  { intros fam. apply (port_rule_decides sets pk jump c proto r port [Meta NFPROTO; Cmp CmpEq [fam]]);
      [done|by apply Hfw|]. rewrite <- (aa_family _ _ _ (fw_src Hfw)).
    by apply (Matches_meta_byte sets pk NFPROTO); left. }
  replace (q && if Is4 src then v4 else v6) with
    ((v4 && ((fam_of src =? NFPROTO_IPV4) && q)) || (v6 && ((fam_of src =? NFPROTO_IPV6) && q))).
  2:{ unfold fam_of. by destruct (Is4 src), v4, v6, q. }
  apply decides_app; [destruct v4|destruct v6]; cbn [negb andb]; first [apply decides_nil|apply Hpin].
Qed.

Lemma forward_rule_decides jump c proto v4 v6 ipv6 r :
  ValidPortRule r →
  decides sets pk jump (forward_rule c proto v4 v6 ipv6 r)
    (forward_opens pk src port proto v4 v6 ipv6 r) Accepted.
Proof using Hfw.
  intros Hv. destruct (FiltersForwarded r) eqn:Hff.
  - destruct (decide (Sources r = [])); [by apply open_forward_decides|by apply sources_forward_decides].
  - unfold forward_rule, forward_opens. rewrite Hff. apply decides_nil.
Qed.

(** *** The deny and the exceptions *)

Lemma decides_cmds {A} jump (f : A → list Cmd) (g : A → bool) l d :
  (∀ x, x ∈ l → decides sets pk jump (rules_of (f x)) (g x) d) →
  decides sets pk jump (rules_of (flat_map f l)) (existsb g l) d.
Proof. intros Hl. rewrite rules_of_flat_map. by apply decides_flat_map. Qed.

Lemma withoutFamilyTest_net masked pos op p :
  withoutFamilyTest (net_exprs masked pos op p) =
  [Payload NetworkHeader (off_of pos (p_addr p)) (len_of (p_addr p))] ++
  (if masked then [Bitwise (len_of (p_addr p)) (CIDRMask (p_bits p) (BitLen (p_addr p)))
                     (replicate (Z.to_nat (len_of (p_addr p))) 0)] else []) ++
  [Cmp op (AsSlice (p_addr p))].
Proof. done. Qed.

Lemma bridge_deny_decides jump c cidr :
  entry_valid cidr →
  decides sets pk jump (rules_of (bridge_deny c cidr)) (enters_bridge src dst cidr) Dropped.
Proof using Hfw.
  intros Hv. pose proof (fw_src Hfw) as Hs. pose proof (fw_dst Hfw) as Hd.
  unfold bridge_deny, cidrMatch, cidrMatchNegated. rewrite !cidrMatchOp_net. unfold enters_bridge.
  rewrite !entry_net_covers by (apply Hs || apply Hd || by apply entry_valid_zoneless).
  destruct (entry_net cidr) as [p|] eqn:E; [|apply decides_nil]. cbn [fmap option_fmap option_map].
  pose proof (entry_net_ok _ _ E) as Hp. rewrite withoutFamilyTest_net.
  assert (Matches sets pk
    (net_exprs (negb (p_bits p =? BitLen (p_addr p))) posDstAddr CmpEq p ++
     [Payload NetworkHeader (off_of posSrcAddr (p_addr p)) (len_of (p_addr p))] ++
     (if negb (p_bits p =? BitLen (p_addr p))
      then [Bitwise (len_of (p_addr p)) (CIDRMask (p_bits p) (BitLen (p_addr p)))
              (replicate (Z.to_nat (len_of (p_addr p))) 0)] else []) ++
     [Cmp CmpNeq (AsSlice (p_addr p))]) (Contains p dst && negb (Contains p src))) as HM.
  { apply Matches_app_if.
    - apply net_match_eq; [done|done|apply unmasked_host].
    - intros Hc. apply (net_body_match sets pk _ posSrcAddr CmpNeq p src); [done|done|apply unmasked_host|by right|].
      rewrite same_family. rewrite Contains_mask in Hc by (done || apply Hd).
      by apply andb_true_iff in Hc as [?%bool_decide_eq_true _]. }
  apply Matches_counter in HM. apply (rule_decides sets pk jump c _ _ VerdictDrop) in HM; [|done].
  assert (∀ l : list Expr, (l ++ [Counter]) ++ [Verdict VerdictDrop] = l ++ [Counter; Verdict VerdictDrop]) as El
    by by intros l; rewrite <- app_assoc.
  rewrite El in HM. exact HM.
Qed.

Lemma crosses_decides jump c cidr :
  entry_valid cidr →
  decides sets pk jump
    (map (λ m, mkRule c (m ++ [Verdict VerdictAccept]) "") (omap (cidrMatch cidr) [posSrcAddr; posDstAddr]))
    (crosses src dst cidr) Accepted.
Proof using Hfw.
  intros Hv. rewrite map_omap_flat. unfold crosses.
  replace (entry_covers src cidr || entry_covers dst cidr) with
    (existsb (λ i : bool, if i then entry_covers src cidr else entry_covers dst cidr) [true; false])
    by (cbn; by rewrite orb_false_r).
  replace (entry_rules _ _ _) with
    (entry_rules (λ i : bool, cidrMatch cidr (if i then posSrcAddr else posDstAddr))
       (λ m, [mkRule c (m ++ [Verdict VerdictAccept]) ""]) [true; false]) by done.
  apply decides_entries. intros i _.
  assert (addr_at pk (if i then posSrcAddr else posDstAddr) (if i then src else dst)) as Ha
    by (destruct i; apply Hfw).
  destruct (cidrMatch cidr (if i then posSrcAddr else posDstAddr)) as [m|] eqn:E.
  - apply (decides_verdict sets pk jump c m _ VerdictAccept); [|done].
    pose proof (cidrMatch_reads sets pk cidr _ _ m Ha Hv E). by destruct i.
  - pose proof (cidrMatch_None cidr _ CmpEq (if i then src else dst) ltac:(by apply Ha) Hv E). by destruct i.
Qed.

Lemma exceptions_decide jump c cidrs :
  Forall entry_valid cidrs →
  decides sets pk jump (rules_of (addForwardExceptions c (forwardExceptionMatches cidrs)))
    (existsb (crosses src dst) cidrs) Accepted.
Proof using Hfw.
  intros Hv. unfold addForwardExceptions, forwardExceptionMatches, rule.
  rewrite (rules_of_map (λ m, mkRule c (m ++ [Verdict VerdictAccept]) "")).
  assert (∀ l, map (λ m, mkRule c (m ++ [Verdict VerdictAccept]) "")
            (flat_map (λ cidr, omap (cidrMatch cidr) [posSrcAddr; posDstAddr]) l) =
          flat_map (λ cidr, map (λ m, mkRule c (m ++ [Verdict VerdictAccept]) "")
            (omap (cidrMatch cidr) [posSrcAddr; posDstAddr])) l) as ->.
  { intros l. induction l as [|x l IH]; [done|]. cbn [flat_map]. by rewrite map_app, IH. }
  apply decides_flat_map. intros cidr Hin. rewrite Forall_forall in Hv. by apply crosses_decides, Hv.
Qed.

(** *** The lists *)

Lemma entry_cmds_decide jump c pos a v l (post : list Expr) :
  addr_at pk pos a → Forall entry_valid l → final v → post = [] ∨ post = [Counter] →
  decides sets pk jump
    (rules_of (flat_map (λ e, option_list (cidrMatch e pos) (λ m, [rule c ((m ++ post) ++ [Verdict v])])) l))
    (InAnyEntry a l) (decision_of v).
Proof.
  intros Ha Hv Hf Hpost. apply decides_cmds. intros e He. rewrite Forall_forall in Hv. specialize (Hv e He).
  destruct (cidrMatch e pos) as [m|] eqn:E; cbn [option_list].
  - apply rule_decides; [|done]. pose proof (cidrMatch_reads sets pk e pos a m Ha Hv E).
    destruct Hpost as [->| ->]; [by rewrite app_nil_r|by apply Matches_counter].
  - rewrite (cidrMatch_None e pos CmpEq a) by (done || apply Ha). apply decides_nil.
Qed.

(** The feeds' rules at the end of the lists' chain. *)
Definition feed_lookups (c : string) (ids : list string) : list Rule :=
  flat_map (λ id, flat_map (λ f,
    [mkRule c (srcAddrExprs f ++ [Lookup (feedSetName id (af_nfproto f =? NFPROTO_IPV6)); Counter; Verdict VerdictDrop]) ""])
    addrFamilies) ids.

Definition src_in_feed (id : string) : bool :=
  in_interval_set (sets (feedSetName id (negb (Is4 src)))) (AsSlice src).

Lemma family_existsb (f : addrFamily → bool) :
  existsb (λ x, bool_decide (af_nfproto x = fam_of src) && f x) addrFamilies =
  f (if Is4 src then mkAddrFamily "ipv4" NFPROTO_IPV4 12 4 else mkAddrFamily "ipv6" NFPROTO_IPV6 8 16).
Proof.
  unfold addrFamilies, fam_of. destruct (Is4 src); cbn; rewrite ?orb_false_r; done.
Qed.

Lemma feed_lookups_decide jump c ids :
  decides sets pk jump (feed_lookups c ids) (existsb src_in_feed ids) Dropped.
Proof using Hfw.
  apply decides_flat_map. intros id _.
  replace (src_in_feed id) with
    (existsb (λ f, bool_decide (af_nfproto f = fam_of src) &&
       in_interval_set (sets (feedSetName id (af_nfproto f =? NFPROTO_IPV6))) (AsSlice src)) addrFamilies)
    by (rewrite family_existsb; unfold src_in_feed; by destruct (Is4 src)).
  apply decides_flat_map. intros f Hf.
  pose proof (lookup_matches sets pk f (feedSetName id (af_nfproto f =? NFPROTO_IPV6)) src (fw_src Hfw) Hf) as HM.
  apply Matches_counter in HM. apply (decides_verdict sets pk jump c _ _ VerdictDrop "") in HM; [|done].
  by rewrite <- !app_assoc in HM.
Qed.

Lemma map_omap_option_list {A} (mb : A → option (list Expr)) (mk : list Expr → Cmd) l :
  map mk (omap mb l) = flat_map (λ e, option_list (mb e) (λ m, [mk m])) l.
Proof. induction l as [|x l IH]; [done|]. cbn in *. destruct (mb x); cbn; by rewrite <- IH. Qed.

Lemma lists_chain_eval jump rules cidrs :
  Forall entry_valid cidrs → Forall entry_valid (Blocklist rules) → Forall entry_valid (Allowlist rules) →
  eval_rules sets pk jump (rules_of (lists_chain rules cidrs) ++ feed_lookups forwardListsChainName (FeedRuleOrder (Feeds rules))) =
    if negb (InAnyEntry src cidrs) &&
       (InAnyEntry src (Blocklist rules) ||
        (negb (InAnyEntry src (Allowlist rules)) && existsb src_in_feed (Feeds rules)))
    then Dropped else Returned.
Proof using Hfw.
  intros Hc Hb Ha. unfold lists_chain. cbv zeta.
  rewrite (map_omap_option_list (λ e, cidrMatch e posSrcAddr)), !rules_of_app, <- !app_assoc.
  pose proof (entry_cmds_decide jump forwardListsChainName posSrcAddr src VerdictReturn cidrs [] (fw_src Hfw) Hc I ltac:(by left)) as D1.
  pose proof (entry_cmds_decide jump forwardListsChainName posSrcAddr src VerdictDrop (Blocklist rules) [Counter] (fw_src Hfw) Hb I ltac:(by right)) as D2.
  pose proof (entry_cmds_decide jump forwardListsChainName posSrcAddr src VerdictReturn (Allowlist rules) [] (fw_src Hfw) Ha I ltac:(by left)) as D3.
  assert (∀ l, flat_map (λ e, option_list (cidrMatch e posSrcAddr)
            (λ m, [rule forwardListsChainName ((m ++ []) ++ [Verdict VerdictReturn])])) l =
          flat_map (λ e, option_list (cidrMatch e posSrcAddr)
            (λ m, [rule forwardListsChainName (m ++ [Verdict VerdictReturn])])) l) as Hnil.
  { intros l. apply flat_map_ext. intros e. destruct (cidrMatch e posSrcAddr); cbn; by rewrite ?app_nil_r. }
  rewrite Hnil in D1, D3. rewrite D1, D2, D3.
  rewrite (decides_eval sets pk jump _ _ _ (feed_lookups_decide jump forwardListsChainName (FeedRuleOrder (Feeds rules)))).
  rewrite FeedRuleOrder_existsb. cbn [decision_of].
  by destruct (InAnyEntry src cidrs), (InAnyEntry src (Blocklist rules)), (InAnyEntry src (Allowlist rules)),
    (existsb src_in_feed (Feeds rules)).
Qed.

Definition refused (rules : Rules) (cidrs : list string) : bool :=
  negb (InAnyEntry src cidrs) &&
  (InAnyEntry src (Blocklist rules) ||
   (negb (InAnyEntry src (Allowlist rules)) && existsb src_in_feed (Feeds rules))).

Lemma lists_jumps_decide jump c routing rules cidrs :
  Forall entry_valid cidrs →
  jump forwardListsChainName = (if refused rules cidrs then Dropped else Returned) →
  decides sets pk jump (rules_of (lists_jumps c routing cidrs))
    (lists_refuse src dst sets rules routing cidrs) Dropped.
Proof using Hfw.
  intros Hc Hj. unfold lists_jumps, lists_refuse. fold (refused rules cidrs).
  rewrite <- andb_assoc. fold (src_in_feed). fold (refused rules cidrs).
  assert (∀ m b, Matches sets pk m b →
    decides sets pk jump [mkRule c (m ++ [Verdict (VerdictJump forwardListsChainName)]) ""]
      (b && refused rules cidrs) Dropped) as Hjump.
  { intros m b HM. destruct (refused rules cidrs).
    - rewrite andb_true_r. by eapply decides_jump.
    - rewrite andb_false_r. by eapply decides_jump_back. }
  destruct (String.eqb (Routing_Mode routing) RoutingOpen); cbn [negb orb].
  - change (InAnyEntry dst cidrs) with (existsb (entry_covers dst) cidrs).
    rewrite <- existsb_andb_r. apply decides_cmds. intros e He. rewrite Forall_forall in Hc.
    specialize (Hc e He). destruct (cidrMatch e posDstAddr) as [m|] eqn:E; cbn [option_list].
    + apply Hjump. eapply cidrMatch_reads; [apply Hfw|done|done].
    + rewrite (cidrMatch_None e posDstAddr CmpEq dst) by (done || apply Hfw). apply decides_nil.
  - apply (Hjump [] true), Matches_nil.
Qed.

Lemma no_lists_refuse rules routing cidrs :
  Forall entry_valid (Blocklist rules) →
  omap (λ e, cidrMatch e posSrcAddr) (Blocklist rules) = [] → Feeds rules = [] →
  lists_refuse src dst sets rules routing cidrs = false.
Proof using Hfw.
  intros Hb Hnone Hf. unfold lists_refuse. rewrite Hf. cbn [existsb]. rewrite andb_false_r, orb_false_r.
  assert (InAnyEntry src (Blocklist rules) = false) as ->; [|by rewrite andb_false_r].
  unfold InAnyEntry. induction Hb as [|e l He Hb IH]; [done|]. cbn in *.
  destruct (cidrMatch e posSrcAddr) as [m|] eqn:E; [done|].
  rewrite (cidrMatch_None e posSrcAddr CmpEq src) by (done || apply Hfw). by apply IH.
Qed.

(** *** The port rules and the deny *)

Lemma port_rules_eval jump c rules docker cidrs ipv6 rest :
  Forall ValidPortRule (TCP rules) → Forall ValidPortRule (UDP rules) → Forall entry_valid cidrs →
  eval_rules sets pk jump (rules_of (addForwardPortRules c rules docker cidrs ipv6) ++ rest) =
    if forwardPortRulesRender docker cidrs && any_opens pk src port rules cidrs ipv6 then Accepted
    else if forwardPortRulesRender docker cidrs && existsb (enters_bridge src dst) cidrs then Dropped
    else eval_rules sets pk jump rest.
Proof using Hfw.
  intros Ht Hu Hc. unfold addForwardPortRules, forwardPortRulesRender, any_opens.
  destruct (cidrFamilies cidrs) as [v4 v6].
  destruct (FiltersPublishedPorts docker); [|done]. cbn [negb andb].
  destruct (negb v4 && negb v6) eqn:Ev.
  { by destruct v4, v6. }
  replace (v4 || v6) with true by by destruct v4, v6. cbn [andb].
  rewrite rules_of_app, <- app_assoc.
  assert (rules_of (map AddRule (flat_map (forward_rule c "tcp" v4 v6 ipv6) (TCP rules) ++
                                 flat_map (forward_rule c "udp" v4 v6 ipv6) (UDP rules))) =
          flat_map (forward_rule c "tcp" v4 v6 ipv6) (TCP rules) ++
          flat_map (forward_rule c "udp" v4 v6 ipv6) (UDP rules)) as ->.
  { rewrite (rules_of_map (λ r, r)). apply map_id. }
  assert (decides sets pk jump (flat_map (forward_rule c "tcp" v4 v6 ipv6) (TCP rules) ++
                                flat_map (forward_rule c "udp" v4 v6 ipv6) (UDP rules))
            (existsb (forward_opens pk src port "tcp" v4 v6 ipv6) (TCP rules) ||
             existsb (forward_opens pk src port "udp" v4 v6 ipv6) (UDP rules)) Accepted) as ->.
  { rewrite Forall_forall in Ht, Hu.
    apply decides_app; apply decides_flat_map; intros r Hr; apply forward_rule_decides; auto. }
  assert (decides sets pk jump (rules_of (flat_map (bridge_deny c) cidrs))
            (existsb (enters_bridge src dst) cidrs) Dropped) as ->.
  { apply decides_cmds. intros e He. rewrite Forall_forall in Hc. by apply bridge_deny_decides, Hc. }
  by destruct (existsb (forward_opens pk src port "tcp" v4 v6 ipv6) (TCP rules)),
    (existsb (forward_opens pk src port "udp" v4 v6 ipv6) (UDP rules)).
Qed.

(** *** The whole chain *)

Definition allowed_networks (routing : RoutingConfig) (cidrs : list string) : list string :=
  if String.eqb (Routing_Mode routing) RoutingNetworks then cidrs ++ Routing_Networks routing else cidrs.

Lemma forward_exceptions_decide jump c routing cidrs :
  Forall entry_valid cidrs → Forall entry_valid (Routing_Networks routing) →
  decides sets pk jump (rules_of (addForwardExceptions c (forward_exceptions routing cidrs)))
    (negb (String.eqb (Routing_Mode routing) RoutingOpen) &&
     existsb (crosses src dst) (allowed_networks routing cidrs)) Accepted.
Proof using Hfw.
  intros Hc Hr. unfold forward_exceptions, allowed_networks.
  destruct (String.eqb (Routing_Mode routing) RoutingOpen); cbn [negb andb]; [apply decides_nil|].
  apply exceptions_decide. destruct (String.eqb _ _); [by apply Forall_app|done].
Qed.

Lemma forward_rules_eval jump c rules docker routing cidrs ipv6 lists :
  ValidRules rules → Forall entry_valid cidrs → Forall entry_valid (Routing_Networks routing) →
  decides sets pk jump lists (lists_refuse src dst sets rules routing cidrs) Dropped →
  eval_rules sets pk jump (rules_of (addEstablishedAccept c) ++ lists ++
      rules_of (addForwardPortRules c rules docker cidrs ipv6) ++
      rules_of (addForwardExceptions c (forward_exceptions routing cidrs))) =
    if negb (Z.land (pk_ct pk) 6 =? 0) then Accepted
    else if lists_refuse src dst sets rules routing cidrs then Dropped
    else if forwardPortRulesRender docker cidrs && any_opens pk src port rules cidrs ipv6 then Accepted
    else if forwardPortRulesRender docker cidrs && existsb (enters_bridge src dst) cidrs then Dropped
    else if negb (String.eqb (Routing_Mode routing) RoutingOpen) &&
            existsb (crosses src dst) (allowed_networks routing cidrs) then Accepted
    else Returned.
Proof using Hfw.
  intros Hv Hc Hr Hl. destruct Hv as [Ht Hu _ _ _ _ _ _ _ _ _].
  rewrite (established_decides sets pk jump c (fw_ct Hfw)), Hl, port_rules_eval by done.
  by rewrite (decides_eval sets pk jump _ _ _ (forward_exceptions_decide jump c routing cidrs Hc Hr)).
Qed.

(** The lists of a valid rule set. *)
Lemma listed_entries l :
  Forall (λ s, IsListComment s = false → address_ok s) l → Forall entry_valid l.
Proof. intros Hl. eapply Forall_impl; [exact Hl|]. apply listed_valid. Qed.
End Read.

(** ** The chains of the batch *)

Section Chains.
Context `{Host}.

Lemma lists_chain_within rules cidrs : within [forwardListsChainName] (lists_chain rules cidrs).
Proof.
  unfold lists_chain, rule. cbv zeta. chains.
  rewrite (map_omap_option_list (λ e, cidrMatch e posSrcAddr)). chains.
Qed.

Lemma lists_jumps_within c routing cidrs : within [c] (lists_jumps c routing cidrs).
Proof. unfold lists_jumps, rule. chains. Qed.

Lemma forward_rule_chain c proto v4 v6 ipv6 r k :
  k ∈ forward_rule c proto v4 v6 ipv6 r → r_chain k = c.
Proof.
  unfold forward_rule. destruct (negb _); [by intros ?%not_elem_of_nil|].
  rewrite elem_of_app. intros Hk.
  assert (∃ k', k' ∈ portAcceptRules c proto r ∧ r_chain k = r_chain k') as (k' & Hk' & ->).
  { rewrite !list_elem_of_In, !in_flat_map in Hk. destruct Hk as [(k' & Hk' & Hin)|([on fam] & _ & Hin)].
    - exists k'. rewrite list_elem_of_In. split; [done|]. destruct (ruleFamily _); [|done].
      destruct (_ && _); [done|]. by destruct Hin as [<-|[]].
    - destruct on; [|done]. cbn [negb] in Hin. rewrite in_flat_map in Hin.
      destruct Hin as (k' & Hk' & Hin). exists k'. rewrite list_elem_of_In. split; [done|].
      destruct (ruleFamily _); [done|]. by destruct Hin as [<-|[]]. }
  by eapply portAcceptRules_chain.
Qed.

Lemma addForwardPortRules_within c rules docker cidrs ipv6 :
  within [c] (addForwardPortRules c rules docker cidrs ipv6).
Proof.
  unfold addForwardPortRules. destruct (negb _); [apply within_nil|].
  destruct (cidrFamilies cidrs) as [v4 v6]. destruct (_ && _); [apply within_nil|].
  apply within_app.
  - unfold within. rewrite Forall_map. apply Forall_forall. intros k Hk. cbn.
    apply list_elem_of_singleton. rewrite elem_of_app, !list_elem_of_In, !in_flat_map in Hk.
    setoid_rewrite <- list_elem_of_In in Hk. destruct Hk as [(r & _ & Hk)|(r & _ & Hk)];
      by apply forward_rule_chain in Hk.
  - apply within_flat_map. intros e. unfold bridge_deny, rule. destruct (cidrMatch e posDstAddr), (cidrMatchNegated e posSrcAddr); chains.
Qed.

Lemma addForwardExceptions_within c ms : within [c] (addForwardExceptions c ms).
Proof. apply within_map. intros m. cbn. by apply list_elem_of_singleton. Qed.

Lemma addEstablishedAccept_within c : within [c] (addEstablishedAccept c).
Proof. unfold addEstablishedAccept. chains. Qed.
End Chains.
