(* ===== verification/Ruleset.v ===== *)
(** * The ruleset an apply builds

    The body of [ApplyWithFeeds] in [src/internal/core/nftables.go] between its
    guards and its flush: every command it queues, in the order it queues them,
    and the rules the table holds once the custom rules and the final log have
    been added.  What [detectDockerBridges] finds and what the nft program makes
    of the custom rules are parameters. *)
From S2P Require Import Prelude GoStrings GoNet NetBytes Models FeedIDs Validate Reach PacketLog FeedRanges Nft Matchers Builders ForwardChain.

Local Open Scope Z_scope.

(** The commands of [applyCustomRules]. *)
Definition custom_commands (rules : list string) : list string :=
  omap (λ rule,
    let rule := TrimSpace rule in
    if String.eqb rule "" || HasPrefix rule "#" then None
    else Some ("add rule inet easywall input " +:+ rule)) rules.

Section Queue.
Context `{Host} `{NftConn} (sink : logSink) (detected : list string).

Definition base_commands (routing : RoutingConfig) : list Cmd :=
  [AddTable; DelTable; AddTable;
   AddChain inputChainName (Some (mkBaseChain false HookInput prioFilter (Some Dropped)));
   AddChain "output" (Some (mkBaseChain false HookOutput prioFilter (Some Accepted)));
   AddChain forwardChainName (Some (mkBaseChain false HookForward prioFilter
     (Some (if String.eqb (Routing_Mode routing) RoutingOpen then Accepted else Dropped))))].

Definition ipv6_disposition (mode : string) : list Cmd :=
  if String.eqb mode IPv6Passthrough then addFamilyVerdict inputChainName NFPROTO_IPV6 VerdictAccept
  else if String.eqb mode IPv6Block then addFamilyVerdict inputChainName NFPROTO_IPV6 VerdictDrop
  else [].

Definition when (b : bool) (l : list Cmd) : list Cmd := if b then l else [].

Definition early_rules (opts : FirewallOptions) (ipv6 : IPv6Config) : list Cmd :=
  addLoopbackAccept inputChainName ++
  ipv6_disposition (IPv6_Mode ipv6) ++
  when (ICMPFlood opts) (addICMPFloodProtection sink inputChainName opts) ++
  when (TCPRSTFlood opts) (addTCPRSTFlood sink inputChainName opts) ++
  addEstablishedAccept inputChainName ++
  addICMPRules inputChainName ipv6.

Definition module_rules (opts : FirewallOptions) (rules : Rules) (dockerCIDRs : list string) : list Cmd :=
  when (PortScan opts) (addPortScanPrevention sink inputChainName opts) ++
  when (SYNFlood opts) (addSYNFloodProtection sink inputChainName opts) ++
  when (InvalidPackets opts) (addInvalidPacketDrop sink inputChainName opts) ++
  when (Fragments opts)
    ([AddChain fragmentChainName
        (Some (mkBaseChain false HookPrerouting prioBeforeDefrag (Some Accepted)))] ++
     addFragmentDrop sink fragmentChainName opts) ++
  when (Bogons opts)
    (addBogonFilter sink inputChainName opts (Allowlist rules ++ dockerCIDRs) rules) ++
  when (SSHBruteForce opts) (addSSHBruteForce sink inputChainName rules opts) ++
  when (ConnectionLimit opts) (addConnectionLimit inputChainName opts) ++
  when (DropBroadcast opts) (addBroadcastDrop inputChainName) ++
  when (DropMulticast opts) (addMulticastDrop inputChainName) ++
  when (DropAnycast opts) (addAnycastDrop inputChainName).

Definition list_rules (opts : FirewallOptions) (rules : Rules) (dockerCIDRs : list string) : list Cmd :=
  flat_map (addCIDRAccept inputChainName) dockerCIDRs ++
  flat_map (λ ip, addBlocklistRule sink inputChainName ip opts) (Blocklist rules) ++
  flat_map (addAllowlistRule inputChainName) (Allowlist rules).

Definition port_rules (opts : FirewallOptions) (rules : Rules) (ipv6 : IPv6Config) : list Cmd :=
  addEchoAccepts inputChainName (ICMPAllowEchoRequest opts) ipv6 ++
  flat_map (λ r, if FiltersHost r then addPortAccept inputChainName "tcp" r else []) (TCP rules) ++
  flat_map (λ r, if FiltersHost r then addPortAccept inputChainName "udp" r else []) (UDP rules) ++
  (if bool_decide (Forwarding rules = []) then [] else addForwardingRules (Forwarding rules)).

(** The container networks of this apply. *)
Definition apply_cidrs (net : NetworkSettings) : list string :=
  containerNetworks (Docker net)
    (if Docker_Enabled (Docker net) && AllowBridgeNetworks (Docker net) then detected else [])
    (IPv6_Mode (IPv6 net)).

(** What [ApplyWithFeeds] queues, the bytes of its feed elements and the
    networks its forward chain was built over; [None] is a set the library
    refused. *)
Definition ruleset (rules : Rules) (opts : FirewallOptions) (net : NetworkSettings) (feeds : FeedContents)
    : option (list Cmd * Z * list string) :=
  let cidrs := apply_cidrs net in
  let '(fwd, fwdLists) :=
    buildForwardChain forwardChainName rules (Docker net) (Routing net) cidrs (IPv6_Mode (IPv6 net)) in
  match addFeeds sink inputChainName feeds opts fwdLists (Feeds rules) with
  | None => None
  | Some (feed, feedBytes) =>
      Some (base_commands (Routing net) ++ early_rules opts (IPv6 net) ++ fwd ++
            module_rules opts rules cidrs ++ list_rules opts rules cidrs ++ feed ++
            port_rules opts rules (IPv6 net), feedBytes, cidrs)
  end.

(** The rules in the table when the apply has returned. *)
Context (nft : list string → list Rule).

Definition custom_rules (rules : Rules) : list Rule :=
  let cmds := custom_commands (Custom rules) in
  if bool_decide (cmds = []) then [] else nft cmds.

Definition table_rules (rules : Rules) (opts : FirewallOptions) (queued : list Cmd) : list Rule :=
  rules_of queued ++ custom_rules rules ++
  rules_of (when (LogBlocked opts) (addFinalLog sink inputChainName opts)).
End Queue.

(** ** The chains of the table *)

Section Chains.
Context `{Host} `{NftConn} (sink : logSink).

Lemma when_within cs b l : within cs l → within cs (when b l).
Proof. destruct b; [done|]. intros _. apply within_nil. Qed.

Lemma early_rules_within opts ipv6 :
  within [inputChainName; "icmpflood-over"; "tcprst-over"] (early_rules sink opts ipv6).
Proof.
  unfold early_rules, ipv6_disposition, addLoopbackAccept, addFamilyVerdict, addICMPRules, rule, when,
    addICMPFloodProtection, addTCPRSTFlood. cbv zeta. chains;
  try (eapply within_mono; [|apply addOverRateChain_within]; set_solver);
  try (eapply within_mono; [|apply addPerSourceRateLimit_within]; set_solver);
  try (eapply within_mono; [|apply addEstablishedAccept_within]; set_solver);
  try (eapply within_mono; [|apply addICMPTypeAccept_within]; set_solver).
Qed.

Lemma module_rules_within opts rules cidrs :
  within [inputChainName; "portscan"; "synflood-over"; fragmentChainName; "bogon"; "sshbrute"; "sshbrute-over"]
    (module_rules sink opts rules cidrs).
Proof.
  unfold module_rules, when, addPortScanPrevention, addSYNFloodProtection, addInvalidPacketDrop, addFiltered,
    addFragmentDrop, addSSHBruteForce, addConnectionLimit, addBroadcastDrop, addMulticastDrop, addAnycastDrop, rule.
  cbv zeta. chains;
  try (eapply within_mono; [|apply addOverRateChain_within]; set_solver);
  try (eapply within_mono; [|apply addPerSourceRateLimit_within]; set_solver);
  try (eapply within_mono; [|apply addLogged_within]; set_solver);
  try (eapply within_mono; [|apply addBogonFilter_within]; set_solver);
  apply within_map; intros; cbn; set_solver.
Qed.

Lemma list_rules_within opts rules cidrs : within [inputChainName] (list_rules sink opts rules cidrs).
Proof.
  unfold list_rules. chains.
  - apply addCIDRAccept_within.
  - apply addBlocklistRule_within.
  - apply addAllowlistRule_within.
Qed.

Lemma port_rules_within opts rules ipv6 :
  within [inputChainName; "prerouting"] (port_rules opts rules ipv6).
Proof.
  unfold port_rules, addEchoAccepts, addForwardingRules. chains;
  try (eapply within_mono; [|apply addICMPTypeAccept_within]; set_solver);
  try (eapply within_mono; [|apply addPortAccept_within]; set_solver).
  apply within_map. intros r. unfold forwarding_rule, rule. cbn. set_solver.
Qed.

Lemma feed_rules_within opts fwd id f :
  within (inputChainName :: option_list fwd (λ c, [c])) (feed_rules sink inputChainName opts fwd id f).
Proof.
  unfold feed_rules, rule. cbv zeta. apply within_app.
  - eapply within_mono; [|apply addLogged_within]. set_solver.
  - destruct fwd; [|apply within_nil]. cbn [option_list]. chains.
Qed.

Lemma buildForwardChain_within rules docker routing cidrs ipv6 :
  within [forwardChainName; forwardListsChainName]
    (buildForwardChain forwardChainName rules docker routing cidrs ipv6).1.
Proof.
  unfold buildForwardChain. cbv zeta. destruct (_ && _); [apply within_nil|].
  unfold addForwardLists. destruct (_ && _); cbn [fst]; chains;
  try (eapply within_mono; [|apply addEstablishedAccept_within]; set_solver);
  try (eapply within_mono; [|apply lists_chain_within]; set_solver);
  try (eapply within_mono; [|apply lists_jumps_within]; set_solver);
  try (eapply within_mono; [|apply addForwardPortRules_within]; set_solver);
  try (eapply within_mono; [|apply addForwardExceptions_within]; set_solver).
Qed.

(** The feeds' chain is the one the forward chain jumps to. *)
Lemma buildForwardChain_fwd rules docker routing cidrs ipv6 c :
  (buildForwardChain forwardChainName rules docker routing cidrs ipv6).2 = Some c → c = forwardListsChainName.
Proof.
  unfold buildForwardChain. cbv zeta. destruct (_ && _); [done|]. unfold addForwardLists.
  by destruct (_ && _); intros [= <-].
Qed.
End Chains.

(** ** The forward chain of the table *)

Section Forward.
Context `{Host} `{NftConn} (sink : logSink) (detected : list string) (nft : list string → list Rule).
Context (rules : Rules) (opts : FirewallOptions) (net : NetworkSettings) (feeds : FeedContents)
  (queued : list Cmd) (bytes : Z) (cidrs : list string).
Context (Hq : ruleset sink detected rules opts net feeds = Some (queued, bytes, cidrs)).
(** nft adds every custom rule where its command says. *)
Context (Hnft : ∀ cmds, Forall (λ r, r_chain r = inputChainName) (nft cmds)).

Let tbl := table_rules sink nft rules opts queued.
Let fwd := buildForwardChain forwardChainName rules (Docker net) (Routing net) cidrs (IPv6_Mode (IPv6 net)).

Lemma ruleset_parts : ∃ feed n,
  addFeeds sink inputChainName feeds opts fwd.2 (Feeds rules) = Some (feed, n) ∧ cidrs = apply_cidrs detected net ∧
  queued = base_commands (Routing net) ++ early_rules sink opts (IPv6 net) ++ fwd.1 ++
    module_rules sink opts rules cidrs ++ list_rules sink opts rules cidrs ++ feed ++ port_rules opts rules (IPv6 net).
Proof using Hq.
  clear Hnft tbl. revert Hq. unfold ruleset. intros Hq'.
  assert (apply_cidrs detected net = cidrs) as Ec.
  { destruct (buildForwardChain forwardChainName rules (Docker net) (Routing net) (apply_cidrs detected net) _) as [f o].
    destruct (addFeeds sink inputChainName feeds opts o (Feeds rules)) as [[feed n]|]; [|done].
    by injection Hq'. }
  subst fwd. rewrite Ec in Hq'. destruct (buildForwardChain _ _ _ _ _ _) as [f o]. cbn [fst snd] in *.
  destruct (addFeeds sink inputChainName feeds opts o (Feeds rules)) as [[feed n]|]; [|done]. injection Hq' as <- <-. by exists feed, n.
Qed.

Lemma custom_rules_input : Forall (λ r, r_chain r = inputChainName) (custom_rules nft rules).
Proof using Hnft. unfold custom_rules. cbv zeta. destruct (bool_decide _); [constructor|apply Hnft]. Qed.

Lemma final_within : within [inputChainName] (when (LogBlocked opts) (addFinalLog sink inputChainName opts)).
Proof. unfold when, addFinalLog, rule. chains. Qed.

(** What a chain other than the input chain holds. *)
Lemma chain_parts feed n c :
  addFeeds sink inputChainName feeds opts fwd.2 (Feeds rules) = Some (feed, n) →
  queued = base_commands (Routing net) ++ early_rules sink opts (IPv6 net) ++ fwd.1 ++
    module_rules sink opts rules cidrs ++ list_rules sink opts rules cidrs ++ feed ++ port_rules opts rules (IPv6 net) →
  chain_rules tbl c =
    chain_rules (rules_of (early_rules sink opts (IPv6 net))) c ++ chain_rules (rules_of fwd.1) c ++
    chain_rules (rules_of (module_rules sink opts rules cidrs)) c ++
    chain_rules (rules_of (list_rules sink opts rules cidrs)) c ++
    chain_rules (flat_map (λ id, flat_map (λ f, rules_of (feed_rules sink inputChainName opts fwd.2 id f)) addrFamilies)
      (FeedRuleOrder (Feeds rules))) c ++
    chain_rules (rules_of (port_rules opts rules (IPv6 net))) c ++
    chain_rules (custom_rules nft rules) c ++
    chain_rules (rules_of (when (LogBlocked opts) (addFinalLog sink inputChainName opts))) c.
Proof using.
  intros Hf Eq. unfold tbl, table_rules. rewrite Eq, !rules_of_app, !chain_rules_app.
  rewrite (addFeeds_rules _ _ _ _ _ _ _ _ Hf).
  assert (rules_of (base_commands (Routing net)) = []) as -> by done.
  cbn [chain_rules filter list_filter app]. by rewrite <- !app_assoc.
Qed.

Lemma forward_chain_rules : chain_rules tbl forwardChainName = chain_rules (rules_of fwd.1) forwardChainName.
Proof using Hq Hnft.
  destruct ruleset_parts as (feed & n & Hf & _ & E). rewrite (chain_parts feed n forwardChainName Hf E).
  rewrite (within_none _ _ _ (early_rules_within sink opts (IPv6 net))) by set_solver.
  rewrite (within_none _ _ _ (module_rules_within sink opts rules cidrs)) by set_solver.
  rewrite (within_none _ _ _ (list_rules_within sink opts rules cidrs)) by set_solver.
  rewrite (within_none _ _ _ (port_rules_within opts rules (IPv6 net))) by set_solver.
  rewrite (within_none _ _ _ final_within) by set_solver.
  rewrite (chain_rules_none [inputChainName] (custom_rules nft rules)) by
    (set_solver || (eapply Forall_impl; [apply custom_rules_input|]; intros r ->; set_solver)).
  rewrite !chain_rules_flat_map. cbn [app]. rewrite app_nil_r.
  enough (flat_map (λ id, chain_rules (flat_map (λ f, rules_of (feed_rules sink inputChainName opts fwd.2 id f)) addrFamilies)
            forwardChainName) (FeedRuleOrder (Feeds rules)) = []) as -> by by rewrite app_nil_r.
  induction (FeedRuleOrder (Feeds rules)) as [|id l IH]; [done|]. cbn [flat_map]. rewrite IH, app_nil_r.
  rewrite chain_rules_flat_map.
  assert (∀ f, chain_rules (rules_of (feed_rules sink inputChainName opts fwd.2 id f)) forwardChainName = []) as Hno.
  { intros f. eapply within_none; [apply feed_rules_within|].
    destruct (fwd.2) as [c|] eqn:Ec; cbn [option_list]; [|set_solver].
    apply buildForwardChain_fwd in Ec as ->. set_solver. }
  unfold addrFamilies. cbn [flat_map]. by rewrite !Hno.
Qed.

Lemma lists_chain_rules :
  fwd.2 = Some forwardListsChainName →
  chain_rules tbl forwardListsChainName =
    chain_rules (rules_of fwd.1) forwardListsChainName ++
    feed_lookups forwardListsChainName (FeedRuleOrder (Feeds rules)).
Proof using Hq Hnft.
  intros E2. destruct ruleset_parts as (feed & n & Hf & _ & E).
  rewrite (chain_parts feed n forwardListsChainName Hf E).
  rewrite (within_none _ _ _ (early_rules_within sink opts (IPv6 net))) by set_solver.
  rewrite (within_none _ _ _ (module_rules_within sink opts rules cidrs)) by set_solver.
  rewrite (within_none _ _ _ (list_rules_within sink opts rules cidrs)) by set_solver.
  rewrite (within_none _ _ _ (port_rules_within opts rules (IPv6 net))) by set_solver.
  rewrite (within_none _ _ _ final_within) by set_solver.
  rewrite (chain_rules_none [inputChainName] (custom_rules nft rules)) by
    (set_solver || (eapply Forall_impl; [apply custom_rules_input|]; intros r ->; set_solver)).
  rewrite chain_rules_flat_map. cbn [app]. rewrite !app_nil_r. f_equal.
  unfold feed_lookups. apply flat_map_ext. intros id. rewrite chain_rules_flat_map.
  apply flat_map_ext. intros f. rewrite E2, feed_rules_chain. by rewrite bool_decide_false.
Qed.

Context (sets : string → list SetElement) (pk : Packet) (src dst : addr) (port : Z).

(** The policy of the forward chain. *)
Definition forward_policy : decision :=
  if String.eqb (Routing_Mode (Routing net)) RoutingOpen then Accepted else Dropped.
End Forward.

Lemma rules_of_AddChain name base l : rules_of (AddChain name base :: l) = rules_of l.
Proof. done. Qed.

Lemma kept_entry_valid mode docker detected :
  Forall entry_valid detected → Forall entry_valid (CustomNetworks docker) →
  Forall entry_valid (containerNetworks docker detected mode).
Proof.
  intros Hd Hc. unfold containerNetworks. destruct (Docker_Enabled docker); [|constructor]. cbn [negb]. cbv zeta.
  assert (Forall entry_valid ((if AllowBridgeNetworks docker then detected else []) ++ CustomNetworks docker)) as Hall.
  { apply Forall_app. split; [|done]. by destruct (AllowBridgeNetworks docker). }
  destruct (String.eqb _ _); [|done]. unfold withoutIPv6. rewrite Forall_forall in *.
  intros x [_ Hx]%list_elem_of_filter. auto.
Qed.

Lemma apply_cidrs_valid detected net :
  Forall entry_valid detected → Forall entry_valid (CustomNetworks (Docker net)) →
  Forall entry_valid (apply_cidrs detected net).
Proof.
  intros. unfold apply_cidrs. apply kept_entry_valid; [|done].
  destruct (_ && _); [done|constructor].
Qed.

(** C4: the forward chain lets through what the rules say and nothing else.  The
    table an apply builds decides a packet the host routes exactly as
    [forward_verdict] says: replies first; then the blocklist, the allowlist and
    the feeds, from which a container's own traffic is exempt; then, when
    published ports are filtered, the forwarded port rules, and a drop of all
    else that enters a container network from outside it; then the networks the
    host routes for; then the policy. *)
Theorem forward_chain_decides `{Host} `{NftConn} sink detected nft rules opts net feeds queued bytes cidrs
    sets pk src dst port :
  ruleset sink detected rules opts net feeds = Some (queued, bytes, cidrs) →
  (∀ cmds, Forall (λ r, r_chain r = inputChainName) (nft cmds)) →
  ValidRules rules → Forall entry_valid detected → Forall entry_valid (CustomNetworks (Docker net)) →
  Forall entry_valid (Routing_Networks (Routing net)) →
  forwarded pk src dst port →
  base_chain sets pk (table_rules sink nft rules opts queued) forwardChainName (forward_policy net) =
  forward_verdict pk src dst port sets rules (Docker net) (Routing net) cidrs (IPv6_Mode (IPv6 net))
    (forward_policy net).
Proof.
  intros Hq Hnft Hv Hd Hc Hr Hfw.
  pose proof (forward_chain_rules sink detected nft rules opts net feeds queued bytes cidrs Hq Hnft) as HF.
  pose proof (lists_chain_rules sink detected nft rules opts net feeds queued bytes cidrs Hq Hnft) as HL.
  destruct (ruleset_parts sink detected rules opts net feeds queued bytes cidrs Hq) as (_ & _ & _ & Ecidrs & _).
  assert (Forall entry_valid cidrs) as Hcv by (rewrite Ecidrs; by apply apply_cidrs_valid).
  unfold base_chain, NFT_JUMP_STACK_SIZE. cbn [eval_chain]. rewrite HF. unfold forward_verdict.
  unfold buildForwardChain in *. cbv zeta in *.
  destruct (negb (forwardPortRulesRender (Docker net) cidrs) && _) eqn:Enone; [done|].
  destruct (addForwardLists forwardChainName rules (Routing net) cidrs) as [lists o] eqn:El.
  cbn [fst snd] in *.
  set (jump := eval_chain sets pk 15 (table_rules sink nft rules opts queued)).
  assert (decides sets pk jump (chain_rules (rules_of lists) forwardChainName)
            (lists_refuse src dst sets rules (Routing net) cidrs) Dropped) as Hlists.
  { unfold addForwardLists in El. destruct (_ && _) eqn:Eb in El.
    - injection El as <- <-. apply andb_true_iff in Eb as [Eb%bool_decide_eq_true Ef%bool_decide_eq_true].
      rewrite (no_lists_refuse sets pk src dst port Hfw) by (done || apply listed_entries, Hv).
      apply decides_nil.
    - injection El as <- <-. rewrite rules_of_AddChain, !rules_of_app, !chain_rules_app.
      rewrite (within_not (lists_chain rules cidrs) forwardListsChainName) by (done || apply lists_chain_within).
      rewrite (within_all (lists_jumps _ _ _)) by apply lists_jumps_within. cbn [app].
      apply (lists_jumps_decide sets pk src dst port Hfw); [done|].
      unfold jump. cbn [eval_chain]. rewrite HL by done. rewrite !rules_of_app, rules_of_AddChain, !rules_of_app, !chain_rules_app.
      rewrite (within_all (lists_chain rules cidrs)) by apply lists_chain_within.
      rewrite (within_not (lists_jumps _ _ _) forwardChainName) by (done || apply lists_jumps_within).
      rewrite (within_not (addEstablishedAccept _) forwardChainName) by (done || apply addEstablishedAccept_within).
      rewrite (within_not (addForwardPortRules _ _ _ _ _) forwardChainName) by (done || apply addForwardPortRules_within).
      rewrite (within_not (addForwardExceptions _ _) forwardChainName) by (done || apply addForwardExceptions_within).
      cbn [app]. rewrite !app_nil_r.
      apply (lists_chain_eval sets pk src dst port Hfw); [done|apply listed_entries, Hv..]. }
  rewrite !rules_of_app, !chain_rules_app.
  rewrite (within_all (addEstablishedAccept _)) by apply addEstablishedAccept_within.
  rewrite (within_all (addForwardPortRules _ _ _ _ _)) by apply addForwardPortRules_within.
  rewrite (within_all (addForwardExceptions _ _)) by apply addForwardExceptions_within.
  rewrite (forward_rules_eval sets pk src dst port Hfw) by done. fold (allowed_networks (Routing net) cidrs).
  by repeat case_match.
Qed.

(** ** A host with containers *)

Definition amd64 : Host := {| little_endian := true |}.
Definition netlink_conn : NftConn := {| AddSet_err := λ _, false; SetAddElements_err := λ _, false |}.
Definition kernel_log : logSink := mkLogSink false 0.
Definition no_nft (cmds : list string) : list Rule := [].

(** A TCP segment: a new connection carries a SYN. *)
Definition tcp_packet (src dst port ct flags : Z) (iif : list Z) : Packet :=
  mkPacket NFPROTO_IPV4 IPPROTO_TCP iif 0
    ([0x45; 0; 0; 60; 0; 0; 0x40; 0; 64; 6; 0; 0] ++ be_bytes 4 src ++ be_bytes 4 dst)
    ([0x9c; 0x40] ++ be_bytes 2 port ++ [0; 0; 0; 1; 0; 0; 0; 0; 0x50; flags; 0xff; 0xff; 0; 0; 0; 0])
    ct RTN_LOCAL (λ _, false) true.

(** "eth0" *)
Definition eth0 : list Z := [101; 116; 104; 48; 0; 0; 0; 0; 0; 0; 0; 0; 0; 0; 0; 0].

Definition container_rules : Rules :=
  mkRules [mkPortRule "0123456789ab" "443" "" false "forwarded" [] "";
           mkPortRule "0123456789ac" "5432" "" false "forwarded" ["10.8.0.0/16"] ""] []
    ["198.51.100.0/24"] [] [] [] [].

Definition container_networks : NetworkSettings :=
  mkNetworkSettings (mkIPv6Config IPv6Filter false true true)
    (mkDockerConfig true false ["172.20.0.0/16"] PublishedPortsFiltered) (mkRoutingConfig RoutingClosed []).

Lemma container_rules_valid : ValidRules container_rules.
Proof. apply ValidateRules_spec. by vm_compute. Qed.

Lemma custom_networks_valid : Forall entry_valid ["172.20.0.0/16"].
Proof. apply Forall_singleton. intros _. right. eexists. vm_compute. reflexivity. Qed.

Lemma tcp_packet_forwarded src dst port ct flags iif :
  0 <= src < 2 ^ 32 → 0 <= dst < 2 ^ 32 → 0 <= port <= 65535 → 0 <= ct < 2 ^ 32 →
  forwarded (tcp_packet src dst port ct flags iif) (Addr4 src) (Addr4 dst) port.
Proof.
  intros Hs Hd Hp Hc. split; [| |intros proto Hproto|done].
  - split; [done|done|]. split; unfold slice, header, be_bytes; reflexivity.
  - split; [done|done|]. split; unfold slice, header, be_bytes; reflexivity.
  - split; [done|]. split; unfold slice, header, be_bytes; reflexivity.
Qed.

Lemma forward_chain_decides_witness :
  ∃ queued bytes cidrs,
    @ruleset amd64 netlink_conn kernel_log [] container_rules shipped_options container_networks (λ _, []) =
      Some (queued, bytes, cidrs) ∧
    (let chain port := @base_chain amd64 (λ _, []) (tcp_packet 0xCB007109 0xAC140005 port 8 2 eth0)
       (table_rules kernel_log no_nft container_rules shipped_options queued) forwardChainName Dropped in
     chain 443 = Accepted ∧ chain 5432 = Dropped ∧ chain 80 = Dropped).
Proof.
  do 3 eexists. split; [vm_compute; reflexivity|]. cbv zeta.
  split_and!; (etrans; [eapply (@forward_chain_decides amd64 netlink_conn kernel_log [] no_nft container_rules shipped_options
      container_networks (λ _, []) _ _ _ (λ _, []));
    [vm_compute; reflexivity|intros ?; constructor|exact container_rules_valid|constructor
    |exact custom_networks_valid|constructor|by apply tcp_packet_forwarded]|vm_compute; reflexivity]).
Defined.
