(* ===== verification/InputChain.v ===== *)
(** * The input chain and the apply page

    What the input chain of [Ruleset.v] decides about a new TCP connection to this
    host, read back rule by rule as [input_verdict], and the theorem that the
    verdict [shared.Reachable] shows on the apply page is the kernel's. *)
From S2P Require Import Prelude GoStrings GoNet NetBytes Models FeedIDs Validate Reach PacketLog FeedRanges Nft Matchers Builders ForwardChain Ruleset.

Local Open Scope Z_scope.

(** ** A new connection *)

(** The first segment of a TCP connection to an address of this host, from a
    source that is under every per-source limit. *)
Record new_tcp (pk : Packet) (src : addr) (port : Z) : Prop := {
  nt_src : addr_at pk posSrcAddr src;
  nt_proto : pk_l4proto pk = IPPROTO_TCP;
  nt_port : to_port pk port;
  nt_flags : loads pk TransportHeader 13 1 [2];
  nt_ct : pk_ct pk = ctStateNew;
  nt_type : pk_type pk = 0;
  nt_daddr : pk_daddr pk = RTN_LOCAL;
  nt_over : ∀ set, pk_over pk set = false }.

(** ** Specification *)

Section Spec.
Context (sets : string → list SetElement) (src : addr) (port : Z).

Definition v4_covers (entry : string) : bool := Is4 src && entry_covers src entry.

(** A port rule exempts its sources from the bogon filter, at its ports. *)
Definition source_exempt (r : PortRule) : bool :=
  FiltersHost r && (existsb v4_covers (Sources r) && in_port r port).

Definition bogon_dropped (rules : Rules) (cidrs : list string) : bool :=
  negb (existsb v4_covers (Allowlist rules ++ cidrs)) &&
  negb (existsb source_exempt (TCP rules)) && existsb v4_covers BogonRanges.

Definition input_verdict (loopback : bool) (rules : Rules) (opts : FirewallOptions) (mode : string)
    (cidrs : list string) (rest : decision) : decision :=
  if loopback then Accepted
  else if Is6 src && String.eqb mode IPv6Passthrough then Accepted
  else if Is6 src && String.eqb mode IPv6Block then Dropped
  else if Bogons opts && Is4 src && bogon_dropped rules cidrs then Dropped
  else if inAnyCIDR src cidrs then Accepted
  else if InAnyEntry src (Blocklist rules) then Dropped
  else if InAnyEntry src (Allowlist rules) then Accepted
  else if existsb (src_in_feed sets src) (Feeds rules) then Dropped
  else if existsb (λ r, FiltersHost r && rule_opens r src port) (TCP rules) then Accepted
  else rest.
End Spec.

(** ** Reading the chain back *)

Section Read.
Context `{Host} `{NftConn} (sink : logSink) (sets : string → list SetElement) (pk : Packet) (src : addr)
  (port : Z) (jump : string → decision).
Context (Hnew : new_tcp pk src port).

Lemma decides_nothing rs rs' d :
  decides sets pk jump rs false d → decides sets pk jump rs' false d → decides sets pk jump (rs ++ rs') false d.
Proof. intros Ha Hb. by apply (decides_app sets pk jump rs rs' false false). Qed.

Lemma flat_map_nothing {A} (f : A → list Rule) l d :
  (∀ x, x ∈ l → decides sets pk jump (f x) false d) → decides sets pk jump (flat_map f l) false d.
Proof.
  intros Hf. assert (existsb (λ _ : A, false) l = false) as <- by (induction l; [done|]; apply IHl; intros; apply Hf; by right).
  by apply decides_flat_map.
Qed.

Lemma other_proto proto m b :
  proto ≠ IPPROTO_TCP → Matches sets pk ([Meta L4PROTO; Cmp CmpEq [proto]] ++ m) (false && b).
Proof using Hnew.
  intros Hp. apply Matches_app_if; [|done].
  pose proof (Matches_meta_byte sets pk L4PROTO proto ltac:(auto)) as HM. cbn in HM.
  rewrite (nt_proto _ _ _ Hnew) in HM. by rewrite (proj2 (Z.eqb_neq _ _)) in HM by congruence.
Qed.

Lemma tcp_proto : Matches sets pk [Meta L4PROTO; Cmp CmpEq [IPPROTO_TCP]] true.
Proof using Hnew.
  pose proof (Matches_meta_byte sets pk L4PROTO IPPROTO_TCP ltac:(auto)) as HM. cbn in HM.
  by rewrite (nt_proto _ _ _ Hnew) in HM.
Qed.

(** *** Base rules *)

Lemma loopback_decides c :
  decides sets pk jump (rules_of (addLoopbackAccept c)) (on_loopback pk) Accepted.
Proof. apply (rule_decides sets pk jump c [Meta IIFNAME; Cmp CmpEq lo_name] _ VerdictAccept); [apply Matches_iif_lo|done]. Qed.

Lemma family_decides c v :
  final v → decides sets pk jump (rules_of (addFamilyVerdict c NFPROTO_IPV6 v)) (Is6 src) (decision_of v).
Proof using Hnew.
  intros Hv. apply (rule_decides sets pk jump c [Meta NFPROTO; Cmp CmpEq [NFPROTO_IPV6]]); [|done].
  pose proof (Matches_meta_byte sets pk NFPROTO NFPROTO_IPV6 ltac:(auto)) as HM. cbn in HM.
  rewrite (aa_family _ _ _ (nt_src _ _ _ Hnew)) in HM. unfold fam_of, Is4 in HM. by destruct (Is6 src).
Qed.

Lemma rate_limit_nothing c m r target d :
  (∀ f, Forall silent (m f)) → decides sets pk jump (rules_of (addPerSourceRateLimit c m r target)) false d.
Proof using Hnew.
  intros Hm. unfold addPerSourceRateLimit. rewrite rules_of_flat_map. apply flat_map_nothing. intros f _.
  cbv zeta. destruct (AddSet_err _); [apply decides_nil|]. cbn [rules_of omap list_omap rule].
  unfold rateExprs.
  assert (∀ a p e v, [Meta NFPROTO; Cmp CmpEq [a]] ++ m f ++ [p; e; v] =
                     ([Meta NFPROTO; Cmp CmpEq [a]] ++ m f ++ [p]) ++ e :: [v]) as -> by by intros; rewrite <- !app_assoc.
  apply decides_dynset_closed; [|apply Hnew].
  apply Forall_app. split; [by repeat constructor|]. apply Forall_app. split; [done|by repeat constructor].
Qed.

Lemma over_chain_other name lg c :
  c ≠ name → chain_rules (rules_of (addOverRateChain sink name lg)) c = [].
Proof. intros Hc. apply (within_not _ name); [apply addOverRateChain_within|done]. Qed.

Lemma icmp_nothing c proto typ d :
  proto ≠ IPPROTO_TCP → decides sets pk jump (rules_of (addICMPTypeAccept c proto typ)) false d.
Proof using Hnew.
  intros Hp. unfold addICMPTypeAccept. cbn [rules_of omap list_omap rule].
  apply (decides_nomatch sets pk jump c
    ([Meta L4PROTO; Cmp CmpEq [proto]] ++ [Payload TransportHeader 0 1; Cmp CmpEq [typ]]) VerdictAccept).
  by apply (other_proto proto _ true).
Qed.

Lemma flags_match mask flags :
  0 <= mask < 256 →
  Matches sets pk (tcpFlagsMatch mask flags) (Z.land 2 mask =? flags).
Proof using Hnew.
  intros Hm. unfold tcpFlagsMatch. rewrite <- (andb_true_l (_ =? _)).
  apply (Matches_app sets pk [Meta L4PROTO; Cmp CmpEq [IPPROTO_TCP]]
    [Payload TransportHeader 13 1; Bitwise 1 [mask] [0]; Cmp CmpEq [flags]]); [apply tcp_proto|].
  pose proof (Matches_payload_masked sets pk TransportHeader 13 1 [2] [mask] CmpEq [flags]
    (nt_flags _ _ _ Hnew) eq_refl) as HM. cbn [zip_with cmp_holds length take] in HM.
  replace (Z.land 2 mask =? flags) with (bool_decide ([Z.land 2 mask] = [flags])); [done|].
  destruct (Z.eqb_spec (Z.land 2 mask) flags); [apply bool_decide_true|apply bool_decide_false]; congruence.
Qed.

Lemma ct_match m :
  Matches sets pk [Ct; Bitwise 4 (ctStateMask m) ctStateNoMatch; Cmp CmpNeq ctStateNoMatch]
    (negb (Z.land ctStateNew m =? 0)).
Proof using Hnew. rewrite <- (nt_ct _ _ _ Hnew). apply Matches_ct. rewrite (nt_ct _ _ _ Hnew). done. Qed.

Lemma pkttype_nothing c t v d :
  t ≠ 0 → decides sets pk jump (rules_of [rule c [Meta PKTTYPE; Cmp CmpEq [t]; Verdict v]]) false d.
Proof using Hnew.
  intros Ht. apply (decides_nomatch sets pk jump c [Meta PKTTYPE; Cmp CmpEq [t]] v).
  pose proof (Matches_meta_byte sets pk PKTTYPE t ltac:(auto)) as HM. cbn in HM.
  rewrite (nt_type _ _ _ Hnew) in HM. by rewrite (proj2 (Z.eqb_neq _ _)) in HM by congruence.
Qed.

Lemma native_inj u v :
  0 <= u < 2 ^ 32 → 0 <= v < 2 ^ 32 → NativeEndian_PutUint32 u = NativeEndian_PutUint32 v → u = v.
Proof.
  intros Hu Hv. unfold NativeEndian_PutUint32. destruct little_endian; intros E.
  - apply (f_equal (@rev Z)) in E. rewrite !rev_involutive in E. by apply (be_bytes_inj 4) in E.
  - by apply (be_bytes_inj 4) in E.
Qed.

Lemma fib_match t :
  0 <= t < 2 ^ 32 → Matches sets pk [Fib; Cmp CmpEq (NativeEndian_PutUint32 t)] (RTN_LOCAL =? t).
Proof using Hnew.
  intros Ht reg. cbn [run step cmp_holds]. rewrite (nt_daddr _ _ _ Hnew).
  assert (∀ v, length (NativeEndian_PutUint32 v) = 4%nat) as Hlen
    by (intros; unfold NativeEndian_PutUint32; by destruct little_endian).
  rewrite Hlen, take_ge by by rewrite Hlen.
  destruct (Z.eqb_spec RTN_LOCAL t) as [<-|Hne]; [rewrite bool_decide_true by done; eauto|].
  rewrite bool_decide_false; [done|]. intros E. apply Hne. by apply native_inj in E.
Qed.

(** *** Blocks of the input chain *)

(** The rules a batch adds to the input chain. *)
Let IN (b : list Cmd) : list Rule := chain_rules (rules_of b) inputChainName.

(** A batch none of whose input rules decides this packet. *)
Definition nothing (b : list Cmd) : Prop :=
  ∀ rest, eval_rules sets pk jump (IN b ++ rest) = eval_rules sets pk jump rest.

Lemma nothing_within b d : within [inputChainName] b → decides sets pk jump (rules_of b) false d → nothing b.
Proof. intros Hw Hd rest. unfold IN. rewrite within_all by done. apply Hd. Qed.

Lemma nothing_none cs b : within cs b → inputChainName ∉ cs → nothing b.
Proof. intros Hw Hc rest. unfold IN. by rewrite (within_none cs). Qed.

Lemma nothing_app a b : nothing a → nothing b → nothing (a ++ b).
Proof. intros Ha Hb rest. unfold IN. rewrite rules_of_app, chain_rules_app, <- app_assoc. by rewrite Ha, Hb. Qed.

Lemma nothing_when w b : nothing b → nothing (when w b).
Proof. destruct w; [done|]. intros _ rest. done. Qed.

Lemma nothing_flat_map {A} (f : A → list Cmd) l : (∀ x, x ∈ l → nothing (f x)) → nothing (flat_map f l).
Proof.
  induction l as [|x l IH]; intros Hf; [by intros rest|]. apply nothing_app; [apply Hf; by left|].
  apply IH. intros y Hy. apply Hf. by right.
Qed.

Lemma nothing_rate name lg m r :
  name ≠ inputChainName → (∀ f, Forall silent (m f)) →
  nothing (addOverRateChain sink name lg ++ addPerSourceRateLimit inputChainName m r name).
Proof using Hnew.
  intros Hn Hm. apply nothing_app.
  - apply (nothing_none [name]); [apply addOverRateChain_within|]. by intros ?%list_elem_of_singleton.
  - apply (nothing_within _ Dropped); [apply addPerSourceRateLimit_within|by apply rate_limit_nothing].
Qed.

Lemma icmp_flood_nothing opts : nothing (addICMPFloodProtection sink inputChainName opts).
Proof using Hnew.
  apply nothing_rate; [done|]. intros f. unfold echoMatch. destruct (_ =? _); by repeat constructor.
Qed.

Lemma rst_flood_nothing opts : nothing (addTCPRSTFlood sink inputChainName opts).
Proof using Hnew. apply nothing_rate; [done|]. intros f. by repeat constructor. Qed.

Lemma syn_flood_nothing opts : nothing (addSYNFloodProtection sink inputChainName opts).
Proof using Hnew. apply nothing_rate; [done|]. intros f. by repeat constructor. Qed.

Lemma established_nothing : nothing (addEstablishedAccept inputChainName).
Proof using Hnew.
  apply (nothing_within _ Accepted); [apply addEstablishedAccept_within|].
  pose proof (established_decides sets pk jump inputChainName) as Hd.
  rewrite (nt_ct _ _ _ Hnew) in Hd. by apply Hd.
Qed.

Lemma icmp_types_nothing proto l :
  proto ≠ IPPROTO_TCP → nothing (flat_map (addICMPTypeAccept inputChainName proto) l).
Proof using Hnew.
  intros Hp. apply nothing_flat_map. intros typ _.
  apply (nothing_within _ Accepted); [apply addICMPTypeAccept_within|by apply icmp_nothing].
Qed.

Lemma icmp_rules_nothing ipv6 : nothing (addICMPRules inputChainName ipv6).
Proof using Hnew.
  unfold addICMPRules. destruct (negb _); [by intros rest|]. by apply icmp_types_nothing.
Qed.

Lemma echo_nothing echo ipv6 : nothing (addEchoAccepts inputChainName echo ipv6).
Proof using Hnew.
  unfold addEchoAccepts. apply nothing_app; [by apply icmp_types_nothing|].
  destruct (negb _); [by intros rest|]. by apply icmp_types_nothing.
Qed.

(** A SYN is none of the flag combinations a scan uses. *)
Lemma portscan_nothing opts : nothing (addPortScanPrevention sink inputChainName opts).
Proof using Hnew.
  unfold addPortScanPrevention. rewrite app_assoc. apply nothing_app.
  { apply (nothing_none ["portscan"]); [unfold rule; chains|by intros ?%list_elem_of_singleton]. }
  apply (nothing_app [rule "portscan" [Verdict VerdictDrop]]).
  { apply (nothing_none ["portscan"]); [unfold rule; chains|by intros ?%list_elem_of_singleton]. }
  apply (nothing_within _ Dropped); [apply within_map; intros; by apply list_elem_of_singleton|].
  unfold rule. rewrite (rules_of_map (λ combo : Z * Z,
    mkRule inputChainName (tcpFlagsMatch combo.2 combo.1 ++ [Verdict (VerdictJump "portscan")]) "")).
  assert (∀ mask flags, 0 <= mask < 256 → (Z.land 2 mask =? flags) = false → decides sets pk jump
    [mkRule inputChainName (tcpFlagsMatch mask flags ++ [Verdict (VerdictJump "portscan")]) ""] false Dropped) as Hno.
  { intros mask flags Hm E. apply decides_nomatch. rewrite <- E. by apply flags_match. }
  unfold scanCombos. cbn [map fst snd].
  repeat (apply (decides_nothing [_]); [by apply Hno|]). apply decides_nil.
Qed.

Lemma invalid_nothing opts : nothing (addInvalidPacketDrop sink inputChainName opts).
Proof using Hnew.
  apply (nothing_within _ Dropped); [apply addLogged_within|]. unfold addInvalidPacketDrop, addFiltered.
  apply (logged_decides sets pk jump sink _ _ _ _ [] false VerdictDrop); [|by repeat constructor|done].
  rewrite app_nil_r. apply (ct_match ctStateInvalid).
Qed.

Lemma connlimit_nothing opts : nothing (addConnectionLimit inputChainName opts).
Proof using Hnew.
  unfold addConnectionLimit. cbv zeta. apply nothing_flat_map. intros f _.
  destruct (AddSet_err _); [by intros rest|]. apply (nothing_within _ Dropped); [unfold rule; chains|].
  cbn [rules_of omap list_omap rule]. apply decides_dynset_closed; [by repeat constructor|apply Hnew].
Qed.

Lemma buildPortExprs_silent spec : Forall silent (buildPortExprs spec).
Proof. unfold buildPortExprs, matchPortEq. repeat case_match; by repeat constructor. Qed.

(** A source under its rate comes back from the meter. *)
Lemma ssh_nothing rules opts :
  jump "sshbrute" = Returned → nothing (addSSHBruteForce sink inputChainName rules opts).
Proof using Hnew.
  intros Hj. unfold addSSHBruteForce. cbv zeta.
  apply nothing_app; [by intros rest|].
  apply nothing_app.
  { apply (nothing_none ["sshbrute-over"]); [apply addOverRateChain_within|by intros ?%list_elem_of_singleton]. }
  apply nothing_app.
  { apply (nothing_none ["sshbrute"]); [apply addPerSourceRateLimit_within|by intros ?%list_elem_of_singleton]. }
  apply nothing_app.
  { apply (nothing_none ["sshbrute"]); [unfold rule; chains|by intros ?%list_elem_of_singleton]. }
  apply (nothing_within _ Dropped); [apply within_map; intros; by apply list_elem_of_singleton|].
  induction (sshMeteredPorts rules) as [|spec specs IH]; [apply decides_nil|]. cbn [map].
  apply (decides_nothing [_]); [|exact IH].
  replace ([Meta L4PROTO; Cmp CmpEq [IPPROTO_TCP]] ++ buildPortExprs spec ++ _) with
    (([Meta L4PROTO; Cmp CmpEq [IPPROTO_TCP]] ++ buildPortExprs spec ++
      [Ct; Bitwise 4 (ctStateMask ctStateNew) ctStateNoMatch; Cmp CmpNeq ctStateNoMatch]) ++
     [Verdict (VerdictJump "sshbrute")]) by by rewrite <- !app_assoc.
  apply decides_visit; [|done]. apply Forall_app. split; [by repeat constructor|].
  apply Forall_app. split; [apply buildPortExprs_silent|by repeat constructor].
Qed.

Lemma packet_type_nothing t :
  t ≠ 0 → nothing [rule inputChainName [Meta PKTTYPE; Cmp CmpEq [t]; Verdict VerdictDrop]].
Proof using Hnew.
  intros Ht. apply (nothing_within _ Dropped); [unfold rule; chains|by apply pkttype_nothing].
Qed.

Lemma anycast_nothing : nothing (addAnycastDrop inputChainName).
Proof using Hnew.
  apply (nothing_within _ Dropped); [unfold addAnycastDrop, rule; chains|].
  apply (decides_nomatch sets pk jump inputChainName [Fib; Cmp CmpEq (NativeEndian_PutUint32 RTN_ANYCAST)]).
  by apply (fib_match RTN_ANYCAST).
Qed.

Lemma fragments_nothing opts : nothing (addFragmentDrop sink fragmentChainName opts).
Proof. apply (nothing_none [fragmentChainName]); [apply addLogged_within|by intros ?%list_elem_of_singleton]. Qed.

(** *** The bogon filter *)

(** An IPv4 entry, read from the source. *)
Lemma ipv4_entry_reads e m :
  entry_valid e → ipv4SourceMatch e = Some m → Matches sets pk m (v4_covers src e).
Proof using Hnew.
  intros Hv. rewrite ipv4SourceMatch_net. unfold v4_covers.
  rewrite entry_net_covers by (apply (nt_src _ _ _ Hnew) || by apply entry_valid_zoneless).
  destruct (entry_net e) as [p|] eqn:E; [|done]. destruct (Is4 (p_addr p)) eqn:E4; [|done]. intros [= <-].
  pose proof (entry_net_ok _ _ E) as Hp. pose proof (nt_src _ _ _ Hnew) as Hs.
  replace (Is4 src && Contains p src) with (Contains p src); [by apply net_match_eq|].
  rewrite Contains_mask by (done || apply Hs). rewrite E4. by destruct (Is4 src).
Qed.

Lemma ipv4_entry_None e : entry_valid e → ipv4SourceMatch e = None → v4_covers src e = false.
Proof using Hnew.
  intros Hv. rewrite ipv4SourceMatch_net. unfold v4_covers.
  rewrite entry_net_covers by (apply (nt_src _ _ _ Hnew) || by apply entry_valid_zoneless).
  destruct (entry_net e) as [p|] eqn:E; [|by rewrite andb_false_r].
  destruct (Is4 (p_addr p)) eqn:E4; [done|]. intros _.
  rewrite Contains_mask by (by eapply entry_net_ok || apply (nt_src _ _ _ Hnew)). rewrite E4. by destruct (Is4 src).
Qed.

Lemma net_exprs_silent masked pos op p : Forall silent (net_exprs masked pos op p).
Proof. destruct masked; by repeat constructor. Qed.

Lemma ipv4_entry_silent e m : ipv4SourceMatch e = Some m → Forall silent m.
Proof.
  rewrite ipv4SourceMatch_net. destruct (entry_net e); [|done]. destruct (Is4 _); [|done].
  intros [= <-]. apply net_exprs_silent.
Qed.

Lemma v4_entries_decide (f : string → list Expr → list Cmd) l d :
  Forall entry_valid l →
  (∀ e m, Forall silent m → Matches sets pk m (v4_covers src e) → decides sets pk jump (rules_of (f e m)) (v4_covers src e) d) →
  decides sets pk jump (rules_of (flat_map (λ e, option_list (ipv4SourceMatch e) (f e)) l))
    (existsb (v4_covers src) l) d.
Proof using Hnew.
  intros Hl Hf. apply decides_cmds. intros e He. rewrite Forall_forall in Hl. specialize (Hl e He).
  destruct (ipv4SourceMatch e) as [m|] eqn:E; cbn [option_list].
  - apply Hf; [by eapply ipv4_entry_silent|by apply ipv4_entry_reads].
  - rewrite (ipv4_entry_None e) by done. apply decides_nil.
Qed.

Lemma source_returns_decide r :
  ValidPortRule r →
  decides sets pk jump (rules_of (bogon_source_returns IPPROTO_TCP r)) (source_exempt src port r) Returned.
Proof using Hnew.
  intros Hv. unfold bogon_source_returns, source_exempt. destruct (FiltersHost r); [|apply decides_nil]. cbn [negb andb].
  rewrite <- existsb_andb_r. apply decides_cmds. intros e He.
  pose proof Hv as [_ _ Hs]. rewrite Forall_forall in Hs. specialize (Hs e He).
  destruct (ipv4SourceMatch e) as [m|] eqn:E; cbn [option_list].
  - pose proof (port_tests_read sets pk r "tcp" port m _ Hv (λ _, nt_port _ _ _ Hnew) (ipv4_entry_reads e m Hs E)) as HM.
    rewrite (nt_proto _ _ _ Hnew) in HM. cbn [protoNum String.eqb] in HM.
    rewrite Z.eqb_refl in HM. apply (rule_decides sets pk jump "bogon" _ _ VerdictReturn) in HM; [|done].
    by rewrite <- !app_assoc in HM.
  - rewrite (ipv4_entry_None e) by done. apply decides_nil.
Qed.

Lemma udp_returns_decide r :
  Forall (λ s, IsListComment s = false → address_ok (TrimSpace s)) (Sources r) →
  decides sets pk jump (rules_of (bogon_source_returns IPPROTO_UDP r)) false Returned.
Proof using Hnew.
  intros Hs. unfold bogon_source_returns. destruct (FiltersHost r); [|apply decides_nil]. cbn [negb].
  rewrite rules_of_flat_map. apply flat_map_nothing. intros e He. rewrite Forall_forall in Hs. specialize (Hs e He).
  destruct (ipv4SourceMatch e) as [m|] eqn:E; cbn [option_list]; [|apply decides_nil].
  assert (Matches sets pk (m ++ [Meta L4PROTO; Cmp CmpEq [IPPROTO_UDP]] ++ buildPortExprs (Port r)) false) as HM.
  { rewrite <- (andb_false_r (v4_covers src e)). apply Matches_app; [by apply ipv4_entry_reads|].
    by apply (other_proto IPPROTO_UDP _ true). }
  apply (rule_decides sets pk jump "bogon" _ _ VerdictReturn) in HM; [|done]. by rewrite <- !app_assoc in HM.
Qed.

Lemma BogonRanges_valid : Forall entry_valid BogonRanges.
Proof. unfold BogonRanges. repeat (apply Forall_cons; split; [intros _; right; eexists; by vm_compute|]). constructor. Qed.

Lemma bogon_chain_eval opts exempt rules :
  Forall entry_valid exempt → Forall ValidPortRule (TCP rules) → Forall ValidPortRule (UDP rules) →
  eval_rules sets pk jump (chain_rules (rules_of (addBogonFilter sink inputChainName opts exempt rules)) "bogon") =
    if negb (existsb (v4_covers src) exempt) && negb (existsb (source_exempt src port) (TCP rules)) &&
       existsb (v4_covers src) BogonRanges then Dropped else Returned.
Proof using Hnew.
  intros He Ht Hu. rewrite Forall_forall in Ht, Hu. unfold addBogonFilter. rewrite !rules_of_app, !chain_rules_app.
  assert (∀ l, within ["bogon"] (flat_map (λ cidr, option_list (ipv4SourceMatch cidr)
    (λ m, [rule "bogon" (m ++ [Verdict VerdictReturn])])) l)) as W1 by by (intros; unfold rule; chains).
  assert (∀ proto l, within ["bogon"] (flat_map (bogon_source_returns proto) l)) as W2
    by by (intros; unfold bogon_source_returns, rule; chains).
  assert (∀ l, within ["bogon"] (flat_map (λ cidr, option_list (ipv4SourceMatch cidr)
    (λ m, addFiltered sink "bogon" m (Verdict VerdictDrop) (mkLogSpec (BogonsLog opts) logPrefixBogon 0))) l)) as W3
    by by (intros; chains; apply addLogged_within).
  rewrite !(within_all (flat_map _ _)) by auto.
  rewrite (within_not [rule inputChainName _] inputChainName) by (done || (unfold rule; chains)).
  rewrite app_nil_r.
  assert (decides sets pk jump (rules_of (flat_map (λ cidr, option_list (ipv4SourceMatch cidr)
            (λ m, [rule "bogon" (m ++ [Verdict VerdictReturn])])) exempt)) (existsb (v4_covers src) exempt) Returned) as D1.
  { apply v4_entries_decide; [done|]. intros e m _ HM. by apply (rule_decides sets pk jump "bogon" m _ VerdictReturn). }
  assert (decides sets pk jump (rules_of (flat_map (bogon_source_returns IPPROTO_TCP) (TCP rules)))
            (existsb (source_exempt src port) (TCP rules)) Returned) as D2.
  { apply decides_cmds. intros r Hr. by apply source_returns_decide, Ht. }
  assert (decides sets pk jump (rules_of (flat_map (bogon_source_returns IPPROTO_UDP) (UDP rules))) false Returned) as D3.
  { rewrite rules_of_flat_map. apply flat_map_nothing. intros r Hr. by apply udp_returns_decide, (Hu r Hr). }
  assert (decides sets pk jump (rules_of (flat_map (λ cidr, option_list (ipv4SourceMatch cidr)
            (λ m, addFiltered sink "bogon" m (Verdict VerdictDrop) (mkLogSpec (BogonsLog opts) logPrefixBogon 0))) BogonRanges))
            (existsb (v4_covers src) BogonRanges) Dropped) as D4.
  { apply (v4_entries_decide (λ _ m, addFiltered sink "bogon" m (Verdict VerdictDrop)
      (mkLogSpec (BogonsLog opts) logPrefixBogon 0))); [apply BogonRanges_valid|]. intros e m Hs HM.
    apply (logged_decides sets pk jump sink "bogon" m _ "" [] _ VerdictDrop); [by rewrite app_nil_r|done..]. }
  cbn [rules_of omap list_omap chain_rules filter list_filter app].
  rewrite D1, D2, D3, (decides_eval sets pk jump _ _ _ D4).
  by destruct (existsb _ exempt), (existsb _ (TCP rules)), (existsb _ BogonRanges).
Qed.

(** An input block: what [decides] says of the rules it adds to the chain. *)
Definition block (b : list Cmd) (c : bool) (d : decision) : Prop := decides sets pk jump (IN b) c d.

Lemma block_within b c d : within [inputChainName] b → decides sets pk jump (rules_of b) c d → block b c d.
Proof. intros Hw Hd. unfold block, IN. by rewrite within_all. Qed.

Lemma block_flat_map {A} (f : A → list Cmd) (g : A → bool) l d :
  (∀ x, x ∈ l → block (f x) (g x) d) → block (flat_map f l) (existsb g l) d.
Proof.
  unfold block, IN. rewrite rules_of_flat_map, chain_rules_flat_map. apply decides_flat_map.
Qed.

Lemma bogon_block opts exempt rules (b : bool) :
  jump "bogon" = (if b then Dropped else Returned) →
  block (addBogonFilter sink inputChainName opts exempt rules) (Is4 src && negb (on_loopback pk) && b) Dropped.
Proof using Hnew.
  intros Hj. unfold addBogonFilter. rewrite !app_assoc. unfold block, IN. rewrite rules_of_app, chain_rules_app.
  rewrite (within_none ["bogon"]); [|unfold bogon_source_returns, rule; chains; apply addLogged_within
                                    |by intros ?%list_elem_of_singleton].
  rewrite within_all by (unfold rule; chains). cbn [app].
  assert (Matches sets pk ([Meta NFPROTO; Cmp CmpEq [NFPROTO_IPV4]] ++ [Meta IIFNAME; Cmp CmpNeq lo_name])
            (Is4 src && negb (on_loopback pk))) as HM.
  { apply Matches_app; [|apply Matches_iif_not_lo].
    pose proof (Matches_meta_byte sets pk NFPROTO NFPROTO_IPV4 ltac:(auto)) as HM. cbn in HM.
    rewrite (aa_family _ _ _ (nt_src _ _ _ Hnew)) in HM. unfold fam_of in HM. by destruct (Is4 src). }
  destruct b.
  - rewrite andb_true_r. by apply (decides_jump sets pk jump inputChainName _ _ "bogon" "" Dropped HM).
  - rewrite andb_false_r. by apply (decides_jump_back sets pk jump inputChainName _ _ "bogon" "" Dropped HM).
Qed.

(** *** The lists *)

Lemma addCIDRAccept_net cidr :
  addCIDRAccept inputChainName cidr =
  if IsListComment cidr then []
  else option_list (ParseNetwork cidr) (λ p,
         [rule inputChainName (net_exprs true posSrcAddr CmpEq p ++ [Verdict VerdictAccept])]).
Proof.
  unfold addCIDRAccept, parseIPNet. destruct (IsListComment cidr); [done|]. cbv zeta.
  replace (ParseNetwork (TrimSpace cidr)) with (ParseNetwork cidr)
    by (unfold ParseNetwork; by rewrite TrimSpace_idemp).
  destruct (ParseNetwork cidr) as [p|] eqn:E; [|done]. cbn [option_list IP Mask].
  apply ParseNetwork_ok in E as [_ _ _ Hm]. rewrite (To4_not_mapped _ Hm). unfold net_exprs.
  destruct (p_addr p); [done|]. done.
Qed.

Lemma cidr_accept_block cidr : block (addCIDRAccept inputChainName cidr) (cidr_covers src cidr) Accepted.
Proof using Hnew.
  apply block_within; [apply addCIDRAccept_within|]. rewrite addCIDRAccept_net. unfold cidr_covers.
  destruct (IsListComment cidr); [apply decides_nil|].
  destruct (ParseNetwork cidr) as [p|] eqn:E; cbn [option_list]; [|apply decides_nil].
  apply (rule_decides sets pk jump inputChainName _ _ VerdictAccept); [|done].
  apply net_match_eq; [apply Hnew|by eapply ParseNetwork_ok|done].
Qed.

Lemma blocklist_block opts e :
  (IsListComment e = false → address_ok e) →
  block (addBlocklistRule sink inputChainName e opts) (entry_covers src e) Dropped.
Proof using Hnew.
  intros Hv. apply block_within; [apply addBlocklistRule_within|]. pose proof (nt_src _ _ _ Hnew) as Hs.
  rewrite entry_net_covers by (apply Hs || by apply entry_valid_zoneless, listed_valid).
  unfold addBlocklistRule. destruct (IsListComment e) eqn:Ec.
  { unfold entry_net. rewrite Ec. apply decides_nil. }
  destruct (blocklistMatch_net e Ec (Hv eq_refl)) as (p & masked & Ep & -> & Hm). rewrite Ep. cbn [option_list].
  apply (logged_decides sets pk jump sink _ _ _ "" [] _ VerdictDrop); [|apply net_exprs_silent|done].
  rewrite app_nil_r. apply net_match_eq; [done|by eapply entry_net_ok|done].
Qed.

Lemma allowlist_block e :
  (IsListComment e = false → address_ok e) →
  block (addAllowlistRule inputChainName e) (entry_covers src e) Accepted.
Proof using Hnew.
  intros Hv. pose proof (nt_src _ _ _ Hnew) as Hs. unfold addAllowlistRule.
  destruct (IsListComment e) eqn:Ec.
  { unfold entry_covers. rewrite Ec. intros rest. done. }
  specialize (Hv eq_refl). pose proof (TrimSpace_word _ (address_ok_word _ Hv)) as Ht.
  assert (entry_covers src e = match entry_net e with Some p => Contains p src | None => false end) as ->
    by (apply entry_net_covers; [apply Hs|by apply entry_valid_zoneless, listed_valid]).
  pose proof (entry_net_ok e) as Hok. revert Hok.
  unfold entry_net. rewrite Ec, Ht. destruct (ParseIP e) as [ip|] eqn:E; intros Hok.
  - apply block_within; [unfold rule; chains|]. rewrite hostMatch_net.
    apply (rule_decides sets pk jump inputChainName _ _ VerdictAccept); [|done].
    apply net_match_eq; [done|by apply Hok|done].
  - pose proof (cidr_accept_block e) as Hb. unfold cidr_covers in Hb. by rewrite Ec in Hb.
Qed.

(** *** Feeds and ports *)

Lemma feed_block opts fwd ids :
  (∀ c, fwd = Some c → c ≠ inputChainName) →
  decides sets pk jump
    (chain_rules (flat_map (λ id, flat_map (λ f, rules_of (feed_rules sink inputChainName opts fwd id f)) addrFamilies) ids)
       inputChainName)
    (existsb (src_in_feed sets src) ids) Dropped.
Proof using Hnew.
  intros Hfwd. rewrite chain_rules_flat_map. apply decides_flat_map. intros id _. rewrite chain_rules_flat_map.
  replace (src_in_feed sets src id) with
    (existsb (λ f, bool_decide (af_nfproto f = fam_of src) &&
       in_interval_set (sets (feedSetName id (af_nfproto f =? NFPROTO_IPV6))) (AsSlice src)) addrFamilies)
    by (rewrite family_existsb; unfold src_in_feed; by destruct (Is4 src)).
  apply decides_flat_map. intros f Hf. unfold feed_rules. cbv zeta. rewrite rules_of_app, chain_rules_app.
  rewrite (within_all (addLogged _ _ _ _ _ _)) by apply addLogged_within.
  assert (chain_rules (rules_of (match fwd with
    | Some c => [rule c (srcAddrExprs f ++ [Lookup (feedSetName id (af_nfproto f =? NFPROTO_IPV6)); Counter; Verdict VerdictDrop])]
    | None => [] end)) inputChainName = []) as ->.
  { destruct fwd as [c|]; [|done]. specialize (Hfwd c eq_refl). apply (within_not _ c); [unfold rule; chains|done]. }
  rewrite app_nil_r.
  apply (logged_decides sets pk jump sink _ _ _ _ [Counter] _ VerdictDrop); [|by repeat constructor|done].
  apply Matches_counter, lookup_matches; [apply Hnew|done].
Qed.

Lemma rules_of_addPortAccept proto r : rules_of (addPortAccept inputChainName proto r) = portAcceptRules inputChainName proto r.
Proof. unfold addPortAccept. rewrite (rules_of_map (λ r, r)). apply map_id. Qed.

Lemma tcp_port_block r :
  ValidPortRule r →
  block (if FiltersHost r then addPortAccept inputChainName "tcp" r else []) (FiltersHost r && rule_opens r src port) Accepted.
Proof using Hnew.
  intros Hv. destruct (FiltersHost r); cbn [andb]; [|by intros rest].
  apply block_within; [apply addPortAccept_within|]. rewrite rules_of_addPortAccept.
  pose proof (portAcceptRules_decides sets pk jump inputChainName "tcp" r src port Hv (nt_src _ _ _ Hnew)
    (λ _, nt_port _ _ _ Hnew)) as Hd. by rewrite (nt_proto _ _ _ Hnew) in Hd.
Qed.

Lemma udp_port_nothing r :
  ValidPortRule r → nothing (if FiltersHost r then addPortAccept inputChainName "udp" r else []).
Proof using Hnew.
  intros Hv. destruct (FiltersHost r); [|by intros rest].
  apply (nothing_within _ Accepted); [apply addPortAccept_within|]. rewrite rules_of_addPortAccept.
  pose proof (portAcceptRules_decides sets pk jump inputChainName "udp" r src port Hv (nt_src _ _ _ Hnew)
    (λ _, nt_port _ _ _ Hnew)) as Hd. by rewrite (nt_proto _ _ _ Hnew) in Hd.
Qed.

(** *** The parts of the chain, in order *)

Lemma IN_app a b rest : IN (a ++ b) ++ rest = IN a ++ IN b ++ rest.
Proof. unfold IN. by rewrite rules_of_app, chain_rules_app, <- app_assoc. Qed.

Lemma loopback_block : block (addLoopbackAccept inputChainName) (on_loopback pk) Accepted.
Proof. apply block_within; [unfold addLoopbackAccept, rule; chains|apply loopback_decides]. Qed.

Lemma family_block v :
  final v → block (addFamilyVerdict inputChainName NFPROTO_IPV6 v) (Is6 src) (decision_of v).
Proof using Hnew.
  intros Hv. apply block_within; [unfold addFamilyVerdict, rule; chains|by apply family_decides].
Qed.

Lemma early_eval opts ipv6 rest :
  eval_rules sets pk jump (IN (early_rules sink opts ipv6) ++ rest) =
    if on_loopback pk then Accepted
    else if Is6 src && String.eqb (IPv6_Mode ipv6) IPv6Passthrough then Accepted
    else if Is6 src && String.eqb (IPv6_Mode ipv6) IPv6Block then Dropped
    else eval_rules sets pk jump rest.
Proof using Hnew.
  unfold early_rules. rewrite !IN_app.
  rewrite loopback_block.
  destruct (on_loopback pk); [done|].
  assert (∀ rest, eval_rules sets pk jump (IN (ipv6_disposition (IPv6_Mode ipv6)) ++ rest) =
            if Is6 src && String.eqb (IPv6_Mode ipv6) IPv6Passthrough then Accepted
            else if Is6 src && String.eqb (IPv6_Mode ipv6) IPv6Block then Dropped
            else eval_rules sets pk jump rest) as ->.
  { intros rest'. unfold ipv6_disposition. destruct (String.eqb_spec (IPv6_Mode ipv6) IPv6Passthrough) as [->|_].
    - rewrite (family_block VerdictAccept I).
      rewrite andb_true_r. change (String.eqb IPv6Passthrough IPv6Block) with false. by rewrite andb_false_r.
    - rewrite andb_false_r. destruct (String.eqb _ IPv6Block); [|by rewrite andb_false_r].
      rewrite (family_block VerdictDrop I). by rewrite andb_true_r. }
  rewrite (nothing_when _ _ (icmp_flood_nothing opts)), (nothing_when _ _ (rst_flood_nothing opts)),
    established_nothing, icmp_rules_nothing. done.
Qed.

Lemma module_eval opts rules cidrs (b : bool) rest :
  jump "sshbrute" = Returned → (Bogons opts = true → jump "bogon" = (if b then Dropped else Returned)) →
  eval_rules sets pk jump (IN (module_rules sink opts rules cidrs) ++ rest) =
    if Bogons opts && (Is4 src && negb (on_loopback pk) && b) then Dropped else eval_rules sets pk jump rest.
Proof using Hnew.
  intros Hssh Hb. unfold module_rules. rewrite !IN_app.
  rewrite (nothing_when _ _ (portscan_nothing opts)), (nothing_when _ _ (syn_flood_nothing opts)),
    (nothing_when _ _ (invalid_nothing opts)).
  rewrite (nothing_when _ ([AddChain fragmentChainName _] ++ _)) by apply fragments_nothing.
  assert (∀ rest, eval_rules sets pk jump
            (IN (when (Bogons opts) (addBogonFilter sink inputChainName opts (Allowlist rules ++ cidrs) rules)) ++ rest) =
            if Bogons opts && (Is4 src && negb (on_loopback pk) && b) then Dropped
            else eval_rules sets pk jump rest) as ->.
  { intros rest'. destruct (Bogons opts); [|done]. cbn [when andb]. by rewrite bogon_block by auto. }
  rewrite (nothing_when _ _ (ssh_nothing rules opts Hssh)), (nothing_when _ _ (connlimit_nothing opts)).
  rewrite (nothing_when _ _ (packet_type_nothing PACKET_BROADCAST ltac:(done))),
    (nothing_when _ _ (packet_type_nothing PACKET_MULTICAST ltac:(done))), (nothing_when _ _ anycast_nothing). done.
Qed.

Lemma list_eval opts rules cidrs rest :
  ValidRules rules →
  eval_rules sets pk jump (IN (list_rules sink opts rules cidrs) ++ rest) =
    if inAnyCIDR src cidrs then Accepted
    else if InAnyEntry src (Blocklist rules) then Dropped
    else if InAnyEntry src (Allowlist rules) then Accepted
    else eval_rules sets pk jump rest.
Proof using Hnew.
  intros [_ _ _ _ Hb Ha _ _ _ _ _]. rewrite Forall_forall in Hb, Ha. unfold list_rules. rewrite !IN_app.
  rewrite (block_flat_map _ (cidr_covers src) cidrs Accepted) by (intros; apply cidr_accept_block).
  rewrite (block_flat_map _ (entry_covers src) (Blocklist rules) Dropped) by (intros; by apply blocklist_block, Hb).
  by rewrite (block_flat_map _ (entry_covers src) (Allowlist rules) Accepted) by (intros; by apply allowlist_block, Ha).
Qed.

Lemma port_eval opts rules ipv6 rest :
  ValidRules rules →
  eval_rules sets pk jump (IN (port_rules opts rules ipv6) ++ rest) =
    if existsb (λ r, FiltersHost r && rule_opens r src port) (TCP rules) then Accepted
    else eval_rules sets pk jump rest.
Proof using Hnew.
  intros [Ht Hu _ _ _ _ _ _ _ _ _]. rewrite Forall_forall in Ht, Hu. unfold port_rules. rewrite !IN_app.
  rewrite echo_nothing.
  rewrite (block_flat_map _ (λ r, FiltersHost r && rule_opens r src port) (TCP rules) Accepted)
    by (intros; by apply tcp_port_block, Ht).
  rewrite (nothing_flat_map _ (UDP rules)) by (intros; by apply udp_port_nothing, Hu).
  rewrite (nothing_none ["prerouting"]); [done| |by intros ?%list_elem_of_singleton].
  destruct (bool_decide _); [apply within_nil|]. unfold addForwardingRules. chains.
  apply within_map. intros r. cbn. by apply list_elem_of_singleton.
Qed.
End Read.

(** ** The chain of the table *)

(** The feeds' rules are in the input chain and the lists' chain. *)
Lemma feeds_within `{NftConn} sink opts ids fwd c :
  (∀ o, fwd = Some o → o = forwardListsChainName) → c ≠ inputChainName → c ≠ forwardListsChainName →
  chain_rules (flat_map (λ id, flat_map (λ f, rules_of (feed_rules sink inputChainName opts fwd id f)) addrFamilies)
    ids) c = [].
Proof.
  intros Hfwd Hi Hf. rewrite chain_rules_flat_map. induction ids as [|id l IH]; [done|].
  cbn [flat_map]. rewrite IH, app_nil_r, chain_rules_flat_map.
  assert (∀ f, chain_rules (rules_of (feed_rules sink inputChainName opts fwd id f)) c = []) as Hno.
  { intros f. eapply within_none; [apply feed_rules_within|]. destruct fwd as [o|]; cbn [option_list].
    - rewrite (Hfwd o eq_refl). set_solver.
    - set_solver. }
  unfold addrFamilies. cbn [flat_map]. by rewrite !Hno.
Qed.


(** Each module adds to the input chain and to chains of its own. *)
Ltac other_chain := refine (proj1 (bool_decide_eq_true _) _); vm_compute; reflexivity.

(** Rules without a verdict at the end of a chain change nothing. *)
Lemma eval_rules_silent_tail `{Host} sets pk jump rs tail :
  Forall (λ r, Forall silent (r_exprs r)) tail →
  eval_rules sets pk jump (rs ++ tail) = eval_rules sets pk jump rs.
Proof.
  intros Ht. induction rs as [|r rs IH]; cbn [app].
  - induction Ht as [|r tail Hr _ IH]; [done|]. by rewrite eval_rules_silent.
  - cbn [eval_rules]. by rewrite IH.
Qed.

Section Modules.
Context `{Host} `{NftConn} (sink : logSink) (opts : FirewallOptions) (rules : Rules) (cidrs : list string).

Ltac module :=
  apply when_within; unfold addPortScanPrevention, addSYNFloodProtection, addInvalidPacketDrop, addFiltered,
    addFragmentDrop, addSSHBruteForce, addConnectionLimit, addBroadcastDrop, addMulticastDrop, addAnycastDrop, rule;
  cbv zeta; chains;
  try (eapply within_mono; [|apply addOverRateChain_within]; set_solver);
  try (eapply within_mono; [|apply addPerSourceRateLimit_within]; set_solver);
  try (eapply within_mono; [|apply addLogged_within]; set_solver);
  apply within_map; intros; cbn; set_solver.

Definition above_bogons : list Cmd :=
  when (PortScan opts) (addPortScanPrevention sink inputChainName opts) ++
  when (SYNFlood opts) (addSYNFloodProtection sink inputChainName opts) ++
  when (InvalidPackets opts) (addInvalidPacketDrop sink inputChainName opts) ++
  when (Fragments opts)
    ([AddChain fragmentChainName
        (Some (mkBaseChain false HookPrerouting prioBeforeDefrag (Some Accepted)))] ++
     addFragmentDrop sink fragmentChainName opts).

Definition below_ssh : list Cmd :=
  when (ConnectionLimit opts) (addConnectionLimit inputChainName opts) ++
  when (DropBroadcast opts) (addBroadcastDrop inputChainName) ++
  when (DropMulticast opts) (addMulticastDrop inputChainName) ++
  when (DropAnycast opts) (addAnycastDrop inputChainName).

Let bogons := when (Bogons opts) (addBogonFilter sink inputChainName opts (Allowlist rules ++ cidrs) rules).
Let ssh := when (SSHBruteForce opts) (addSSHBruteForce sink inputChainName rules opts).

Lemma module_rules_parts : module_rules sink opts rules cidrs = above_bogons ++ bogons ++ ssh ++ below_ssh.
Proof. unfold module_rules, above_bogons. by rewrite <- !app_assoc. Qed.

Lemma above_bogons_within : within [inputChainName; "portscan"; "synflood-over"; fragmentChainName] above_bogons.
Proof. unfold above_bogons. repeat apply within_app; module. Qed.

Lemma below_ssh_within : within [inputChainName] below_ssh.
Proof. unfold below_ssh. repeat apply within_app; module. Qed.

Lemma ssh_within : within [inputChainName; "sshbrute"; "sshbrute-over"] ssh.
Proof. unfold ssh. module. Qed.

Lemma bogons_within : within ["bogon"; inputChainName] bogons.
Proof. apply when_within, addBogonFilter_within. Qed.

Lemma module_rules_bogon :
  chain_rules (rules_of (module_rules sink opts rules cidrs)) "bogon" = chain_rules (rules_of bogons) "bogon".
Proof.
  rewrite module_rules_parts, !rules_of_app, !chain_rules_app.
  rewrite (within_none _ _ _ above_bogons_within), (within_none _ _ _ ssh_within),
    (within_none _ _ _ below_ssh_within) by other_chain. by rewrite !app_nil_r.
Qed.

Lemma module_rules_sshbrute :
  chain_rules (rules_of (module_rules sink opts rules cidrs)) "sshbrute" = chain_rules (rules_of ssh) "sshbrute".
Proof.
  rewrite module_rules_parts, !rules_of_app, !chain_rules_app.
  rewrite (within_none _ _ _ above_bogons_within), (within_none _ _ _ bogons_within),
    (within_none _ _ _ below_ssh_within) by other_chain. by rewrite !app_nil_r.
Qed.
End Modules.

Section Table.
Context `{Host} `{NftConn} (sink : logSink) (detected : list string) (nft : list string → list Rule).
Context (rules : Rules) (opts : FirewallOptions) (net : NetworkSettings) (feeds : FeedContents)
  (queued : list Cmd) (bytes : Z) (cidrs : list string).
Context (Hq : ruleset sink detected rules opts net feeds = Some (queued, bytes, cidrs)).
Context (Hnft : ∀ cmds, Forall (λ r, r_chain r = inputChainName) (nft cmds)).
Let tbl := table_rules sink nft rules opts queued.

(** A chain only the modules add to. *)
Lemma module_chain c :
  c ∉ [inputChainName; "icmpflood-over"; "tcprst-over"; forwardChainName; forwardListsChainName; "prerouting"] →
  chain_rules tbl c = chain_rules (rules_of (module_rules sink opts rules cidrs)) c.
Proof using Hq Hnft.
  intros Hc. destruct (ruleset_parts sink detected rules opts net feeds queued bytes cidrs Hq) as (feed & n & Hf & _ & E).
  unfold tbl. rewrite (chain_parts sink nft rules opts net feeds queued cidrs feed n c Hf E).
  rewrite (within_none _ _ _ (early_rules_within sink opts (IPv6 net))) by set_solver.
  rewrite (within_none _ _ _ (buildForwardChain_within rules (Docker net) (Routing net) cidrs _)) by set_solver.
  rewrite (within_none _ _ _ (list_rules_within sink opts rules cidrs)) by set_solver.
  rewrite (within_none _ _ _ (port_rules_within opts rules (IPv6 net))) by set_solver.
  rewrite (within_none _ _ _ (final_within sink opts)) by set_solver.
  rewrite (chain_rules_none [inputChainName] (custom_rules nft rules)) by
    (set_solver || (eapply Forall_impl; [apply custom_rules_input, Hnft|]; intros r ->; set_solver)).
  rewrite feeds_within; [by rewrite !app_nil_r| |set_solver..].
  intros o Ho. by eapply buildForwardChain_fwd.
Qed.

Context (sets : string → list SetElement) (pk : Packet) (src : addr) (port : Z).
Context (Hnew : new_tcp pk src port).
Context (Hvalid : ValidRules rules) (Hcidrs : Forall entry_valid cidrs).

Let jump := eval_chain sets pk 15 tbl.

Lemma bogon_jump :
  Bogons opts = true → jump "bogon" = if bogon_dropped src port rules cidrs then Dropped else Returned.
Proof using Hq Hnft Hnew Hvalid Hcidrs.
  intros Hb. unfold jump. cbn [eval_chain]. unfold tbl. rewrite module_chain, module_rules_bogon by other_chain.
  rewrite Hb. cbn [when]. destruct Hvalid as [Ht Hu _ _ _ Ha _ _ _ _ _].
  rewrite (bogon_chain_eval sink sets pk src port _ Hnew) by
    (done || (apply Forall_app; split; [by apply listed_entries|done])). done.
Qed.

Lemma ssh_jump : jump "sshbrute" = Returned.
Proof using Hq Hnft Hnew.
  unfold jump. cbn [eval_chain]. unfold tbl. rewrite module_chain, module_rules_sshbrute by other_chain.
  destruct (SSHBruteForce opts); [|done]. cbn [when]. unfold addSSHBruteForce. cbv zeta.
  rewrite !rules_of_app, !chain_rules_app.
  rewrite (within_not (addOverRateChain _ _ _) "sshbrute-over") by (done || apply addOverRateChain_within).
  rewrite (within_all (addPerSourceRateLimit _ _ _ _)) by apply addPerSourceRateLimit_within.
  rewrite (within_not (map _ _) inputChainName) by
    (done || (apply within_map; intros; by apply list_elem_of_singleton)).
  change (chain_rules (rules_of [AddChain "sshbrute" None]) "sshbrute") with (@nil Rule). cbn [app].
  rewrite (rate_limit_nothing sets pk src port _ Hnew "sshbrute" (λ _, []) _ _ Dropped) by (intros; constructor).
  done.
Qed.

(** What follows the rules the model reads: the custom rules, in the kernel's
    hands, and the policy. *)
Definition input_rest : decision :=
  match eval_rules sets pk jump (custom_rules nft rules) with Returned => Dropped | d => d end.

Lemma input_chain_eval :
  base_chain sets pk tbl inputChainName Dropped =
  input_verdict sets src port (on_loopback pk) rules opts (IPv6_Mode (IPv6 net)) cidrs input_rest.
Proof using Hq Hnft Hnew Hvalid Hcidrs.
  destruct (ruleset_parts sink detected rules opts net feeds queued bytes cidrs Hq) as (feed & n & Hf & _ & E).
  change (base_chain sets pk tbl inputChainName Dropped) with
    (match eval_rules sets pk jump (chain_rules (table_rules sink nft rules opts queued) inputChainName) with
     | Returned => Dropped | d => d end).
  rewrite (chain_parts sink nft rules opts net feeds queued cidrs feed n inputChainName Hf E).
  rewrite (within_none _ _ _ (buildForwardChain_within rules (Docker net) (Routing net) cidrs _)) by other_chain.
  cbn [app]. unfold input_verdict.
  rewrite (early_eval sink sets pk src port jump Hnew).
  destruct (on_loopback pk) eqn:Elo; [done|].
  destruct (Is6 src && String.eqb _ IPv6Passthrough); [done|]. destruct (Is6 src && String.eqb _ IPv6Block); [done|].
  rewrite (module_eval sink sets pk src port jump Hnew opts rules cidrs _ _ ssh_jump bogon_jump), Elo.
  cbn [negb]. rewrite andb_true_r, andb_assoc.
  destruct (Bogons opts && Is4 src && bogon_dropped src port rules cidrs); [done|].
  rewrite (list_eval sink sets pk src port jump Hnew) by done.
  destruct (inAnyCIDR src cidrs); [done|]. destruct (InAnyEntry src (Blocklist rules)); [done|].
  destruct (InAnyEntry src (Allowlist rules)); [done|].
  rewrite (feed_block sink sets pk src port jump Hnew), FeedRuleOrder_existsb by
    (intros c ->%buildForwardChain_fwd; done).
  destruct (existsb (src_in_feed sets src) (Feeds rules)); [done|].
  rewrite (port_eval sets pk src port jump Hnew) by done. destruct (existsb _ (TCP rules)); [done|].
  rewrite chain_rules_all by apply custom_rules_input, Hnft.
  rewrite eval_rules_silent_tail; [done|].
  unfold when, addFinalLog. destruct (LogBlocked opts); [|constructor].
  rewrite (within_all _ inputChainName) by (unfold rule; chains).
  apply Forall_singleton, logExprs_silent.
Qed.
End Table.
