(* ===== verification/ReachKernel.v ===== *)
(** * What the apply page promises, and what the kernel does

    The verdict of [Reachable] ([src/internal/shared/reach.go]) against the input
    chain of the table [ApplyWithFeeds] builds ([Ruleset.v], read back in
    [InputChain.v]): the page answers before the apply, from the rules alone. *)
From S2P Require Import Prelude GoStrings GoNet NetBytes Models FeedIDs Validate Reach PacketLog FeedRanges Nft Matchers Builders ForwardChain Ruleset InputChain.

Local Open Scope Z_scope.

(** ** Networks *)

Lemma cidr_entry_covers src c :
  addr_ok src → entry_valid c → cidr_covers src c = true → entry_covers src c = true.
Proof.
  intros Ha Hv. rewrite entry_net_covers by (done || by apply entry_valid_zoneless).
  unfold cidr_covers, entry_net. destruct (IsListComment c) eqn:Ec; [done|].
  destruct (ParseNetwork c) as [p|] eqn:Ep; [|done].
  destruct (ParseIP (TrimSpace c)) as [ip|] eqn:Ei.
  - exfalso. apply ParseNetwork_cases in Ep as (q & Hq%ParseCIDR_slash & _).
    unfold ParseIP in Ei. destruct (ParseAddr (TrimSpace c)) as [a|] eqn:Ea; [|done].
    by apply (ParseAddr_slash _ _ Ea (entry_valid_zoneless _ Hv Ec a Ea)).
  - replace (ParseNetwork (TrimSpace c)) with (ParseNetwork c) by (unfold ParseNetwork; by rewrite TrimSpace_idemp).
    by rewrite Ep.
Qed.

(** An IPv4 address is in no network the IPv6 mode leaves out. *)
Lemma kept_covers src c : addr_ok src → Is4 src = true → cidr_covers src c = true → kept_without_IPv6 c = true.
Proof.
  intros Ha H4. unfold cidr_covers, kept_without_IPv6. destruct (IsListComment c); [done|].
  destruct (ParseNetwork c) as [p|] eqn:E; [|done]. rewrite Contains_mask by (done || by eapply ParseNetwork_ok).
  intros [Hf%bool_decide_eq_true _]%andb_true_iff. congruence.
Qed.

Lemma withoutIPv6_covers src l : addr_ok src → Is4 src = true → inAnyCIDR src (withoutIPv6 l) = inAnyCIDR src l.
Proof.
  intros Ha H4. unfold inAnyCIDR, withoutIPv6. induction l as [|c l IH]; [done|]. cbn [existsb].
  rewrite filter_cons. case_decide as Hk; cbn [existsb]; rewrite IH; [done|].
  destruct (cidr_covers src c) eqn:E; [|done]. exfalso. by apply Hk, (kept_covers src).
Qed.

(** ** Ports *)

(** Written without a plus sign, a valid rule's port means one thing. *)
Lemma in_port_PortInRule r p :
  ValidPortRule r → "+"%char ∉ bytes (Port r) → in_port r p = PortInRule (Port r) p.
Proof.
  intros Hv Hp. pose proof Hv as [(lo & hi & Hi & _) _ _]. unfold in_port. rewrite Hi.
  apply eq_iff_eq_true. rewrite (PortInRule_decides r lo hi p) by done. rewrite andb_true_iff, !Z.leb_le. done.
Qed.

Lemma port_step_open src port rules restricted :
  Forall (λ r, ValidPortRule r ∧ "+"%char ∉ bytes (Port r)) rules →
  (port_step src port rules restricted).1 = existsb (λ r, FiltersHost r && rule_opens r src port) rules.
Proof.
  intros Hr. revert restricted. induction Hr as [|r rules [Hv Hp] _ IH]; intros restricted; [done|].
  cbn [port_step existsb]. unfold rule_opens. rewrite (in_port_PortInRule r port Hv Hp).
  destruct (PortInRule (Port r) port); cbn [negb andb]; [|by rewrite andb_false_r, IH].
  destruct (FiltersHost r); cbn [negb andb]; [|apply IH].
  destruct (bool_decide (Sources r = [])); [done|]. cbn [orb]. destruct (InAnyEntry src (Sources r)); [done|apply IH].
Qed.

(** ** Custom rules *)

Lemma no_custom_rules nft rules : has_custom rules = false → custom_rules nft rules = [].
Proof.
  unfold has_custom, custom_rules. intros Hc.
  enough (custom_commands (Custom rules) = []) as -> by done.
  unfold custom_commands. revert Hc. induction (Custom rules) as [|l ls IH]; [done|]. cbn [existsb omap list_omap].
  intros [Hl Hls]%orb_false_iff. apply negb_false_iff in Hl. unfold IsListComment in Hl. cbv zeta in Hl |- *.
  rewrite Hl. by apply IH.
Qed.

(** ** The verdicts *)

Lemma apply_cidrs_cover detected net src :
  addr_ok src → Is4 src = true ∨ String.eqb (IPv6_Mode (IPv6 net)) IPv6Block = false →
  inAnyCIDR src (apply_cidrs detected net) =
    Docker_Enabled (Docker net) &&
    ((AllowBridgeNetworks (Docker net) && inAnyCIDR src detected) || inAnyCIDR src (CustomNetworks (Docker net))).
Proof.
  intros Ha Hf. unfold apply_cidrs, containerNetworks. destruct (Docker_Enabled (Docker net)); [|done]. cbn [negb andb]. cbv zeta.
  assert (∀ l, inAnyCIDR src (if String.eqb (IPv6_Mode (IPv6 net)) IPv6Block then withoutIPv6 l else l) = inAnyCIDR src l) as ->.
  { intros l. destruct (String.eqb _ _); [|done]. destruct Hf as [H4|]; [by apply withoutIPv6_covers|done]. }
  unfold inAnyCIDR. rewrite existsb_app. by destruct (AllowBridgeNetworks (Docker net)).
Qed.

(** A verdict that is not the kernel's to contradict. *)
Definition kept (v : ReachVerdict) (d : decision) : Prop :=
  (v = ReachOpen → d = Accepted) ∧ (v = ReachBlocked → d = Dropped).

Lemma kept_open : kept ReachOpen Accepted.
Proof. done. Qed.
Lemma kept_blocked : kept ReachBlocked Dropped.
Proof. done. Qed.
Lemma kept_unknown d : kept ReachUnknown d.
Proof. done. Qed.

Ltac kept := cbn [fst]; first [exact kept_open | exact kept_blocked | exact (kept_unknown _)].

Section Verdicts.
Context (sets : string → list SetElement) (src : addr) (port : Z).
Context (rules : Rules) (opts : FirewallOptions) (net : NetworkSettings) (detected hits : list string).

(** What the page cannot see, as it is when it answers. *)
Record page_knows : Prop := {
  pk_wire : addr_ok src ∧ Is4In6 src = false;
  pk_rules : ValidRules rules;
  pk_ports : Forall (λ r, "+"%char ∉ bytes (Port r)) (TCP rules);
  pk_networks : Forall entry_valid (CustomNetworks (Docker net));
  pk_feeds : ∀ id, id ∈ Feeds rules → src_in_feed sets src id = bool_decide (id ∈ hits);
  pk_bridges : AllowBridgeNetworks (Docker net) = true →
    inAnyCIDR src detected = true → inAnyCIDR src dockerPoolRanges = true }.

Lemma bogon_agrees cidrs :
  page_knows → cidrs = apply_cidrs detected net → Forall entry_valid cidrs → Is4 src = true →
  bogon_dropped src port rules cidrs = true →
  inAnyCIDR src BogonRanges && negb (InAnyEntry src (Allowlist rules)) &&
  negb (inAnyCIDR src (if Docker_Enabled (Docker net) then CustomNetworks (Docker net) else [])) = true.
Proof.
  intros Hp E Hc H4. pose proof Hp as [[Ha _] Hv _ _ _ _]. unfold bogon_dropped.
  assert (∀ l, existsb (v4_covers src) l = existsb (entry_covers src) l) as Hv4
    by (intros l; unfold v4_covers; by rewrite H4).
  rewrite !Hv4. intros [[Hno _]%andb_true_iff Hb]%andb_true_iff. apply negb_true_iff in Hno.
  rewrite existsb_app in Hno. apply orb_false_iff in Hno as [Hal Hci].
  assert (inAnyCIDR src BogonRanges = existsb (entry_covers src) BogonRanges) as ->.
  { unfold inAnyCIDR, BogonRanges, cidr_covers, entry_covers.
    cbn [existsb]. repeat (rewrite (_ : TrimSpace _ = _) by (vm_compute; reflexivity)). reflexivity. }
  rewrite Hb. unfold InAnyEntry. rewrite Hal. cbn [negb andb].
  destruct (inAnyCIDR src _) eqn:Ed; [|done]. exfalso.
  assert (inAnyCIDR src cidrs = true) as Hin.
  { rewrite E, apply_cidrs_cover by auto. destruct (Docker_Enabled (Docker net)); [|done]. by rewrite Ed, orb_true_r. }
  unfold inAnyCIDR in Hin. apply existsb_exists in Hin as (c & Hc' & Hcov).
  rewrite Forall_forall in Hc. specialize (Hc c). rewrite list_elem_of_In in Hc.
  apply (cidr_entry_covers src c Ha (Hc Hc')) in Hcov.
  assert (existsb (entry_covers src) cidrs = true) by (apply existsb_exists; eauto). congruence.
Qed.

Lemma wire_address : addr_ok src → Is4In6 src = false → WithoutZone (Unmap src) = src.
Proof. intros [_ Hz] Hm. rewrite Unmap_id by done. destruct src as [n|n z]; [done|]. cbn in *. by rewrite Hz. Qed.

Lemma in_hits : page_knows → existsb (src_in_feed sets src) (Feeds rules) = existsb (λ id, bool_decide (id ∈ hits)) (Feeds rules).
Proof.
  intros [_ _ _ _ Hf _]. apply existsb_ext. intros id Hid. by apply Hf.
Qed.

(** Below the networks, the page and the chain take the same steps. *)
Ltac same_steps Hrest open restricted :=
  destruct (InAnyEntry src (Blocklist rules)); [kept|];
  destruct (InAnyEntry src (Allowlist rules)); [kept|];
  destruct (existsb (λ id, bool_decide (id ∈ hits)) (Feeds rules)); [kept|];
  destruct open; [kept|]; destruct (has_custom rules); [kept|];
  rewrite (Hrest eq_refl); destruct restricted; kept.

(** The page's verdict and the chain's, on the same address. *)
Lemma verdicts_agree local cidrs loopback rest :
  page_knows → cidrs = apply_cidrs detected net → Forall entry_valid cidrs → loopback = local || IsLoopback src →
  (has_custom rules = false → rest = Dropped) →
  let verdict := Reachable rules opts net (Some src) port false local hits in
  let d := input_verdict sets src port loopback rules opts (IPv6_Mode (IPv6 net)) cidrs rest in
  kept verdict.1 d.
Proof.
  intros Hp Ec Hcv -> Hrest. pose proof Hp as [[Ha Hm] Hv Hplus Hn _ Hb].
  pose proof (bogon_agrees cidrs Hp Ec Hcv) as Hbogon. pose proof (in_hits Hp) as Hhits.
  unfold Reachable, input_verdict. cbn [fmap option_fmap option_map]. rewrite (wire_address Ha Hm).
  rewrite Hhits, <- (port_step_open src port (TCP rules) false) by
    (rewrite Forall_and; split; [apply Hv|done]).
  destruct (port_step src port (TCP rules) false) as [open restricted]. cbn [fst].
  destruct (local || IsLoopback src); [kept|].
  assert (∀ m, bool_decide (IPv6_Mode (IPv6 net) = m) = String.eqb (IPv6_Mode (IPv6 net)) m) as Hmode.
  { intros m. destruct (String.eqb_spec (IPv6_Mode (IPv6 net)) m); [by apply bool_decide_true|by apply bool_decide_false]. }
  rewrite !Hmode. clear Hmode.
  destruct (Is6 src && String.eqb (IPv6_Mode (IPv6 net)) IPv6Passthrough); [kept|].
  destruct (Is6 src && String.eqb (IPv6_Mode (IPv6 net)) IPv6Block) eqn:E6; [kept|].
  assert (Is4 src = true ∨ String.eqb (IPv6_Mode (IPv6 net)) IPv6Block = false) as Hfam.
  { unfold Is4. destruct (Is6 src); [by right|by left]. }
  pose proof (apply_cidrs_cover detected net src Ha Hfam) as Hcov. rewrite <- Ec in Hcov.
  destruct (Bogons opts && Is4 src && inAnyCIDR src BogonRanges && _ && _) eqn:Epage; [kept|].
  destruct (Bogons opts && Is4 src && bogon_dropped src port rules cidrs) eqn:Ekernel.
  { exfalso. apply andb_true_iff in Ekernel as [[H1 H2]%andb_true_iff H3].
    specialize (Hbogon H2 H3). rewrite H1, H2 in Epage. cbn [andb] in Epage. congruence. }
  rewrite Hcov. clear Hcov Epage Ekernel Hbogon.
  destruct (Docker_Enabled (Docker net)); cbn [andb].
  2:{ same_steps Hrest open restricted. }
  destruct (inAnyCIDR src (CustomNetworks (Docker net))); [rewrite orb_true_r; kept|]. rewrite orb_false_r.
  destruct (AllowBridgeNetworks (Docker net)); cbn [andb].
  - destruct (inAnyCIDR src detected); [rewrite (Hb eq_refl eq_refl); kept|].
    destruct (inAnyCIDR src dockerPoolRanges); [kept|]. same_steps Hrest open restricted.
  - same_steps Hrest open restricted.
Qed.
End Verdicts.


(** A host that lets one network in to SSH and blocks one address. *)
Definition ssh_rules : Rules :=
  mkRules [mkPortRule "0123456789ab" "22" "" true "" ["8.8.8.0/24"] ""] [] ["9.9.9.9"] [] [] [] [].

Lemma ssh_rules_known src n :
  src = Addr4 n → 0 <= n < 2 ^ 32 → page_knows (λ _, []) src ssh_rules container_networks [] [].
Proof.
  intros -> Hn. split.
  - by split; [split|].
  - apply ValidateRules_spec. by vm_compute.
  - apply Forall_singleton. other_chain.
  - exact custom_networks_valid.
  - by intros id ?%not_elem_of_nil.
  - done.
Qed.

Lemma tcp_packet_new src dst port iif :
  0 <= src < 2 ^ 32 → 0 <= dst < 2 ^ 32 → 0 <= port <= 65535 →
  new_tcp (tcp_packet src dst port ctStateNew 2 iif) (Addr4 src) port.
Proof.
  intros Hs Hd Hp. by split.
Qed.

