(* ===== verification/BuildCheck.v ===== *)
(** * The check in front of netlink

    [CheckRules] of [src/internal/core/nftables_check.go], which reads the rules an
    apply is about to send, what makes a set of rules pass it, and the theorem
    that everything the builders put together does. *)
From S2P Require Import Prelude GoStrings GoNet NetBytes Models FeedIDs Validate Reach PacketLog FeedRanges Nft Matchers Builders ForwardChain Ruleset InputChain.

Local Open Scope Z_scope.

(** ** [CheckRules] *)

(** A finding; its reasons are fixed sentences. *)
Inductive FindingReason := MaskWidth | MaskBits | MissingChain | AcceptingChain.

Record Finding := mkFinding { fd_Chain : string; fd_Index : Z; fd_Reason : FindingReason }.

Definition noIndex : Z := -1.

Definition Finding_reason (r : FindingReason) : string :=
  match r with
  | MaskWidth => "a conntrack state mask is not four bytes wide"
  | MaskBits => "the conntrack state mask names bits no conntrack state carries; it is probably byte-reversed"
  | MissingChain => "the rule jumps to a chain this transaction does not create"
  | AcceptingChain =>
      "a jumped-to chain accepts, so it outranks every rule after the jump; it must drop or return"
  end.

(** [Finding.String] *)
Definition Finding_String (f : Finding) : string :=
  if fd_Index f =? noIndex then fd_Chain f +:+ ": " +:+ Finding_reason (fd_Reason f)
  else fd_Chain f +:+ " rule " +:+ Itoa (fd_Index f) +:+ ": " +:+ Finding_reason (fd_Reason f).

Definition ctStateAllBits : Z :=
  Z.lor (Z.lor (Z.lor ctStateInvalid ctStateEstablished) ctStateRelated) ctStateNew.

(** [binaryutil.NativeEndian.Uint32] *)
Definition NativeEndian_Uint32 `{Host} (b : list Z) : Z := be_val (if little_endian then rev b else b).

(** [precededByCtState]: the expressions before a mask, nearest first.  Every load
    goes to the one register, and the only conntrack key is the state. *)
Fixpoint precededByCtState (before : list Expr) : bool :=
  match before with
  | [] => false
  | Ct :: _ => true
  | _ :: before => precededByCtState before
  end.

(** What the check says of one mask. *)
Definition mask_finding `{Host} (mask : list Z) : option FindingReason :=
  if negb (zlen mask =? 4) then Some MaskWidth
  else
    let native := NativeEndian_Uint32 mask in
    if (native =? 0) || negb (Z.land native (Z.lxor (Z.ones 32) ctStateAllBits) =? 0) then Some MaskBits else None.

Fixpoint mask_findings `{Host} (before es : list Expr) : list FindingReason :=
  match es with
  | [] => []
  | e :: es =>
      match e with
      | Bitwise _ mask _ =>
          if precededByCtState before then option_list (mask_finding mask) (λ r, [r]) else []
      | _ => []
      end ++ mask_findings (e :: before) es
  end.

(** [jumpSite] *)
Record jumpSite := mkJumpSite { js_from : string; js_index : Z }.

Definition jump_targets (es : list Expr) : list string :=
  omap (λ e, match e with Verdict (VerdictJump t) => Some t | _ => None end) es.

Definition is_accept (e : Expr) : bool := match e with Verdict VerdictAccept => true | _ => false end.

(** The loop over the rules: the findings, the chains that accept, and who jumps
    where. *)
Record Scan := mkScan {
  sc_findings : list Finding;
  sc_accepts : gset string;
  sc_jumped : gmap string (list jumpSite);
  sc_perChain : gmap string Z }.

Definition add_jump (site : jumpSite) (t : string) (m : gmap string (list jumpSite)) : gmap string (list jumpSite) :=
  <[t := default [] (m !! t) ++ [site]]> m.

Definition scan_rule `{Host} (s : Scan) (r : Rule) : Scan :=
  let idx := default 0 (sc_perChain s !! r_chain r) in
  mkScan
    (sc_findings s ++ map (mkFinding (r_chain r) idx) (mask_findings [] (r_exprs r)))
    (if existsb is_accept (r_exprs r) then {[r_chain r]} ∪ sc_accepts s else sc_accepts s)
    (foldl (λ m t, add_jump (mkJumpSite (r_chain r) idx) t m) (sc_jumped s) (jump_targets (r_exprs r)))
    (<[r_chain r := idx + 1]> (sc_perChain s)).

Definition target_findings (created accepts accepting : list string) (t : string) (sites : list jumpSite)
    : list Finding :=
  (if bool_decide (t ∈ created) then []
   else map (λ s, mkFinding (js_from s) (js_index s) MissingChain) sites) ++
  (if bool_decide (t ∈ accepts) && negb (bool_decide (t ∈ accepting))
   then [mkFinding t noIndex AcceptingChain] else []).

(** The findings about chains come in the order of a map. *)
Definition CheckRules `{Host} (rules : list Rule) (acceptingChains : list string) : list Finding :=
  let created := map r_chain rules in
  let s := foldl scan_rule (mkScan [] ∅ ∅ ∅) rules in
  sc_findings s ++
  flat_map (λ '(t, sites), target_findings created (elements (sc_accepts s)) acceptingChains t sites)
    (map_to_list (sc_jumped s)).

(** [checkBuilt] reads what has been built so far. *)
Definition checkBuilt `{Host} (built : list Rule) : list Finding := CheckRules built [].

Example reversed_mask_ex :
  map Finding_String (@CheckRules {| little_endian := true |}
    [mkRule "input" [Ct; Bitwise 4 [0; 0; 0; 6] [0; 0; 0; 0]; Cmp CmpNeq [0; 0; 0; 0]; Verdict VerdictAccept] "";
     mkRule "input" [Verdict (VerdictJump "nowhere")] ""] []) =
  ["input rule 0: the conntrack state mask names bits no conntrack state carries; it is probably byte-reversed";
   "input rule 1: the rule jumps to a chain this transaction does not create"].
Proof. vm_compute. reflexivity. Qed.

(** ** What passes the check *)

Lemma app_eq_nil_iff {A} (a b : list A) : a ++ b = [] ↔ a = [] ∧ b = [].
Proof. split; [apply app_eq_nil|by intros [-> ->]]. Qed.

Lemma flat_map_eq_nil {A B} (f : A → list B) l : flat_map f l = [] ↔ ∀ x, x ∈ l → f x = [].
Proof.
  induction l as [|x l IH]; cbn; [split; [by intros _ x ?%not_elem_of_nil|done]|].
  rewrite app_eq_nil_iff, IH. setoid_rewrite elem_of_cons. naive_solver.
Qed.

Definition jumps_to (rules : list Rule) (t : string) : Prop :=
  ∃ r, r ∈ rules ∧ t ∈ jump_targets (r_exprs r).

Definition accepts (rules : list Rule) (c : string) : Prop :=
  ∃ r, r ∈ rules ∧ r_chain r = c ∧ existsb is_accept (r_exprs r) = true.

(** Every conntrack mask names states, every jump leads to a chain that has a
    rule, and no chain that is jumped to accepts. *)
Record well_built `{Host} (rules : list Rule) (accepting : list string) : Prop := {
  wb_masks : Forall (λ r, mask_findings [] (r_exprs r) = []) rules;
  wb_created : ∀ t, jumps_to rules t → t ∈ map r_chain rules;
  wb_accepts : ∀ t, jumps_to rules t → accepts rules t → t ∈ accepting }.

Lemma jumps_to_snoc rules r t : jumps_to (rules ++ [r]) t ↔ jumps_to rules t ∨ t ∈ jump_targets (r_exprs r).
Proof.
  unfold jumps_to. setoid_rewrite elem_of_app. setoid_rewrite list_elem_of_singleton. naive_solver.
Qed.

Lemma accepts_snoc rules r c :
  accepts (rules ++ [r]) c ↔ accepts rules c ∨ r_chain r = c ∧ existsb is_accept (r_exprs r) = true.
Proof.
  unfold accepts. setoid_rewrite elem_of_app. setoid_rewrite list_elem_of_singleton. naive_solver.
Qed.

(** The jump sites of a chain are never empty. *)
Definition recorded (m : gmap string (list jumpSite)) (t : string) : Prop :=
  ∃ s sites, m !! t = Some (s :: sites).

Lemma add_jumps_recorded site ts m t :
  (∀ t', is_Some (m !! t') → recorded m t') →
  let m' := foldl (λ m t, add_jump site t m) m ts in
  (∀ t', is_Some (m' !! t') → recorded m' t') ∧ (recorded m' t ↔ recorded m t ∨ t ∈ ts).
Proof.
  revert m. induction ts as [|t0 ts IH]; intros m Hm; cbn [foldl].
  { split; [done|]. split; [by left|]. by intros [?|?%not_elem_of_nil]. }
  assert (∀ t', recorded (add_jump site t0 m) t' ↔ recorded m t' ∨ t' = t0) as Hadd.
  { intros t'. unfold recorded, add_jump. destruct (decide (t' = t0)) as [->|Hne].
    - rewrite lookup_insert_eq. split; [by right|]. intros _.
      destruct (default [] (m !! t0)) as [|s l]; cbn; eauto.
    - rewrite lookup_insert_ne by done. naive_solver. }
  destruct (IH (add_jump site t0 m)) as [H1 H2].
  - intros t' Hs. apply Hadd. unfold add_jump in Hs. destruct (decide (t' = t0)) as [->|Hne]; [by right|left].
    apply Hm. by rewrite lookup_insert_ne in Hs by done.
  - split; [done|]. rewrite H2, Hadd, elem_of_cons. naive_solver.
Qed.

Record scanned `{Host} (rules : list Rule) (s : Scan) : Prop := {
  scd_findings : sc_findings s = [] ↔ Forall (λ r, mask_findings [] (r_exprs r) = []) rules;
  scd_accepts : ∀ c, c ∈ sc_accepts s ↔ accepts rules c;
  scd_sites : ∀ t, is_Some (sc_jumped s !! t) → recorded (sc_jumped s) t;
  scd_jumped : ∀ t, recorded (sc_jumped s) t ↔ jumps_to rules t }.

Lemma scan_scanned `{Host} rules : scanned rules (foldl scan_rule (mkScan [] ∅ ∅ ∅) rules).
Proof.
  induction rules as [|r rules [Hf Ha Hs Hj]] using rev_ind; cbn [foldl].
  - split; cbn; [done| | |].
    + intros c. split; [by intros ?%not_elem_of_empty|]. by intros (r & ?%not_elem_of_nil & _).
    + intros t [l Hl]. by rewrite lookup_empty in Hl.
    + intros t. split; [intros (s & l & Hl); by rewrite lookup_empty in Hl|].
      by intros (r & ?%not_elem_of_nil & _).
  - rewrite foldl_app. cbn [foldl]. set (s := foldl scan_rule _ rules) in *. unfold scan_rule. split; cbn.
    + rewrite Forall_app, Forall_singleton, <- Hf. split.
      * by intros [? ?%map_eq_nil]%app_eq_nil.
      * intros [-> ->]. done.
    + intros c. rewrite accepts_snoc, <- Ha. destruct (existsb is_accept (r_exprs r)); [set_solver|].
      split; [by left|]. by intros [?|[_ ?]].
    + intros t. apply (add_jumps_recorded _ _ (sc_jumped s) t Hs).
    + intros t. rewrite jumps_to_snoc, <- Hj. apply (add_jumps_recorded _ _ (sc_jumped s) t Hs).
Qed.

(** The check reports nothing exactly about what is well built. *)
Lemma CheckRules_spec `{Host} rules accepting :
  CheckRules rules accepting = [] ↔ well_built rules accepting.
Proof.
  unfold CheckRules. destruct (scan_scanned rules) as [Hf Ha Hs Hj]. set (s := foldl scan_rule _ rules) in *.
  rewrite app_eq_nil_iff, Hf.
  assert (flat_map (λ '(t, sites), target_findings (map r_chain rules) (elements (sc_accepts s)) accepting t sites)
            (map_to_list (sc_jumped s)) = [] ↔
          ∀ t, jumps_to rules t → t ∈ map r_chain rules ∧ (accepts rules t → t ∈ accepting)) as ->.
  { rewrite flat_map_eq_nil. split.
    - intros Hall t Ht. pose proof Ht as (x & l & Hl)%Hj.
      specialize (Hall (t, x :: l)). rewrite elem_of_map_to_list in Hall. specialize (Hall Hl).
      unfold target_findings in Hall. apply app_eq_nil in Hall as [H1 H2].
      destruct (decide (t ∈ map r_chain rules)) as [Hc|Hc]; [split; [done|]|by rewrite bool_decide_false in H1]. intros Hacc%Ha.
      rewrite bool_decide_true in H2 by by apply elem_of_elements. cbn in H2.
      destruct (decide (t ∈ accepting)) as [|Hn]; [done|by rewrite bool_decide_false in H2].
    - intros Hall [t l] Hl%elem_of_map_to_list.
      destruct (Hall t) as [Hc Hacc]; [apply Hj, Hs; by rewrite Hl|].
      unfold target_findings. rewrite (bool_decide_true (t ∈ map r_chain rules)) by done. cbn.
      case_bool_decide as He; [|done]. apply elem_of_elements, Ha in He.
      by rewrite bool_decide_true by by apply Hacc. }
  split; [intros [? Hall]; split; [done|..]; intros t Ht; by apply Hall|].
  intros [? H1 H2]. split; [done|]. auto.
Qed.

(** ** What the builders put together *)

(** The check of a mask depends on what came before only through the last load. *)
Fixpoint masks_after `{Host} (seen : bool) (es : list Expr) : list FindingReason :=
  match es with
  | [] => []
  | Ct :: es => masks_after true es
  | Bitwise _ mask _ :: es =>
      (if seen then option_list (mask_finding mask) (λ r, [r]) else []) ++ masks_after seen es
  | _ :: es => masks_after seen es
  end.

Lemma mask_findings_after `{Host} before es :
  mask_findings before es = masks_after (precededByCtState before) es.
Proof.
  revert before. induction es as [|e es IH]; intros before; [done|]. cbn [mask_findings]. rewrite IH.
  by destruct e.
Qed.

(** Expressions that neither load the conntrack state nor decide. *)
Definition plain (e : Expr) : Prop := match e with Ct | Verdict _ => False | _ => True end.

(** The chains the builders jump to. *)
Definition module_chains : list string :=
  ["bogon"; "portscan"; "icmpflood-over"; "tcprst-over"; "synflood-over"; "sshbrute"; "sshbrute-over";
   forwardListsChainName].

Section Ok.
Context `{Host}.

Record ok_exprs (T : list string) (c : string) (es : list Expr) : Prop := {
  oe_masks : masks_after false es = [];
  oe_jumps : jump_targets es ⊆ T;
  oe_accept : existsb is_accept es = true → c ∉ module_chains }.

Definition ok_rule (T : list string) (r : Rule) : Prop := ok_exprs T (r_chain r) (r_exprs r).

(** A batch that jumps only to module chains it fills itself. *)
Definition closed (b : list Cmd) : Prop :=
  ∃ T, T ⊆ module_chains ∧ Forall (ok_rule T) (rules_of b) ∧ T ⊆ map r_chain (rules_of b).

Lemma ok_plain T c m es : Forall plain m → ok_exprs T c es → ok_exprs T c (m ++ es).
Proof.
  intros Hm [H1 H2 H3]. induction Hm as [|e m He Hm [I1 I2 I3]]; [done|].
  destruct e; try done; split; cbn; auto.
Qed.

Lemma ok_nil T c : ok_exprs T c [].
Proof. split; [done|set_solver|done]. Qed.

Lemma ok_only_plain T c m : Forall plain m → ok_exprs T c m.
Proof. intros Hm. rewrite <- (app_nil_r m). apply ok_plain; [done|apply ok_nil]. Qed.

Lemma ok_verdict T c v :
  match v with VerdictAccept => c ∉ module_chains | VerdictJump t => t ∈ T | _ => True end →
  ok_exprs T c [Verdict v].
Proof. destruct v; intros Hv; split; cbn; try done; set_solver. Qed.

Lemma ok_mono T T' r : T ⊆ T' → ok_rule T r → ok_rule T' r.
Proof. intros HT [H1 H2 H3]. split; [done|set_solver|done]. Qed.

Lemma closed_app a b : closed a → closed b → closed (a ++ b).
Proof.
  intros (T & HT & Ha & Hc) (T' & HT' & Hb & Hc'). exists (T ++ T'). rewrite rules_of_app, map_app.
  split; [set_solver|]. split; [|set_solver]. apply Forall_app.
  split; (eapply Forall_impl; [eassumption|]; intros r; apply ok_mono; set_solver).
Qed.

Lemma closed_nil : closed [].
Proof. exists []. split; [set_solver|]. split; [constructor|set_solver]. Qed.

Lemma closed_when w b : closed b → closed (when w b).
Proof. destruct w; [done|]. intros _. apply closed_nil. Qed.

Lemma closed_flat_map {A} (f : A → list Cmd) l : (∀ x, x ∈ l → closed (f x)) → closed (flat_map f l).
Proof.
  induction l as [|x l IH]; intros Hf; [apply closed_nil|]. apply closed_app; [apply Hf; by left|].
  apply IH. intros y Hy. apply Hf. by right.
Qed.

(** Rules without jumps. *)
Lemma closed_rules b : Forall (ok_rule []) (rules_of b) → closed b.
Proof. intros Hb. exists []. split; [set_solver|]. split; [done|set_solver]. Qed.

(** Rules that jump to one chain and fill it. *)
Lemma closed_to t b :
  t ∈ module_chains → Forall (ok_rule [t]) (rules_of b) → t ∈ map r_chain (rules_of b) → closed b.
Proof. intros Ht Hb Hc. exists [t]. split; [set_solver|]. split; [done|set_solver]. Qed.

Lemma ok_well_built T rules :
  T ⊆ module_chains → Forall (ok_rule T) rules → T ⊆ map r_chain rules → well_built rules [].
Proof.
  intros HT Hb Hc. rewrite Forall_forall in Hb. split.
  - apply Forall_forall. intros r Hr. rewrite mask_findings_after. apply Hb. done.
  - intros t (r & Hr & Ht). apply Hc. by apply (Hb r Hr).
  - intros t (r & Hr & Ht) (r' & Hr' & <- & Hacc). exfalso.
    apply (oe_accept _ _ _ (Hb r' Hr') Hacc), HT. by apply (Hb r Hr).
Qed.

(** *** Matches *)

Lemma net_exprs_plain masked pos op p : Forall plain (net_exprs masked pos op p).
Proof. destruct masked; by repeat constructor. Qed.

Lemma cidrMatchOp_plain e pos op m : cidrMatchOp e pos op = Some m → Forall plain m.
Proof. rewrite cidrMatchOp_net. destruct (entry_net e); [|done]. intros [= <-]. apply net_exprs_plain. Qed.

Lemma ipv4SourceMatch_plain e m : ipv4SourceMatch e = Some m → Forall plain m.
Proof.
  rewrite ipv4SourceMatch_net. destruct (entry_net e); [|done]. destruct (Is4 _); [|done].
  intros [= <-]. apply net_exprs_plain.
Qed.

Lemma blocklistMatch_plain e m : blocklistMatch e = Some m → Forall plain m.
Proof.
  unfold blocklistMatch. destruct (ParseIP e).
  - intros [= <-]. rewrite hostMatch_net. apply net_exprs_plain.
  - rewrite cidrDropMatch_net. destruct (ParseNetwork e); [|done]. intros [= <-]. apply net_exprs_plain.
Qed.

Lemma buildPortExprs_plain spec : Forall plain (buildPortExprs spec).
Proof. unfold buildPortExprs, matchPortEq. repeat case_match; by repeat constructor. Qed.

Lemma logExprs_plain prefix n sink : Forall plain (logExprs prefix n sink).
Proof. unfold logExprs. destruct (nflog sink); by repeat constructor. Qed.

Lemma mask_of_states bits : 1 <= bits <= 15 → mask_finding (ctStateMask bits) = None.
Proof.
  intros Hb. unfold mask_finding, ctStateMask.
  assert (NativeEndian_Uint32 (NativeEndian_PutUint32 bits) = bits) as E.
  { unfold NativeEndian_Uint32, NativeEndian_PutUint32. destruct little_endian; rewrite ?rev_involutive;
      apply (be_val_be_bytes 4); cbn; lia. }
  assert (zlen (NativeEndian_PutUint32 bits) = 4) as L
    by (unfold NativeEndian_PutUint32, zlen; by destruct little_endian).
  rewrite L, E. cbn [negb Z.eqb Pos.eqb].
  assert (bits ∈ [1; 2; 3; 4; 5; 6; 7; 8; 9; 10; 11; 12; 13; 14; 15]) as Hin by (rewrite !elem_of_cons; lia).
  clear E L Hb. revert bits Hin. apply Forall_forall. by repeat constructor.
Qed.

Lemma ct_plain_ok T c bits es :
  1 <= bits <= 15 → masks_after true es = [] → ok_exprs T c es →
  ok_exprs T c ([Ct; Bitwise 4 (ctStateMask bits) ctStateNoMatch; Cmp CmpNeq ctStateNoMatch] ++ es).
Proof.
  intros Hb Hes [_ H2 H3]. split; cbn; [|done|done]. by rewrite mask_of_states.
Qed.
End Ok.

(** *** Builders *)

Section Builders.
Context `{Host} `{NftConn} (sink : logSink) (opts : FirewallOptions).

Lemma Forall_rules_cons (P : Rule → Prop) r b : P r → Forall P (rules_of b) → Forall P (rules_of (AddRule r :: b)).
Proof. intros. by constructor. Qed.

Lemma Forall_rules_app (P : Rule → Prop) a b :
  Forall P (rules_of a) → Forall P (rules_of b) → Forall P (rules_of (a ++ b)).
Proof. intros. rewrite rules_of_app. by apply Forall_app. Qed.

Lemma logged_ok T c m lg tag act :
  Forall plain m → ok_exprs T c act → Forall (ok_rule T) (rules_of (addLogged sink c m lg tag act)).
Proof.
  intros Hm Ha. unfold addLogged. apply Forall_rules_app.
  - destruct (lg_enabled lg); [|constructor]. apply Forall_singleton, ok_only_plain, Forall_app.
    split; [done|apply logExprs_plain].
  - apply Forall_singleton. by apply ok_plain.
Qed.

Lemma closed_accept c m :
  Forall plain m → c ∉ module_chains → closed [rule c (m ++ [Verdict VerdictAccept])].
Proof. intros Hm Hc. apply closed_rules, Forall_singleton. by apply ok_plain, ok_verdict. Qed.

Lemma closed_drop c m : Forall plain m → closed [rule c (m ++ [Verdict VerdictDrop])].
Proof. intros Hm. apply closed_rules, Forall_singleton. by apply ok_plain, ok_verdict. Qed.

Lemma over_rate_closed c m r name lg :
  name ∈ module_chains → (∀ f, Forall plain (m f)) →
  closed (addOverRateChain sink name lg ++ addPerSourceRateLimit c m r name).
Proof.
  intros Hn Hm. apply (closed_to name); [done| |].
  - apply Forall_rules_app.
    + unfold addOverRateChain. cbn [app]. apply Forall_rules_app.
      * destruct (lg_enabled lg); [|constructor]. apply Forall_singleton, ok_only_plain, logExprs_plain.
      * apply Forall_singleton. by apply (ok_verdict [name] name VerdictDrop).
    + unfold addPerSourceRateLimit. rewrite rules_of_flat_map. apply Forall_flat_map, Forall_forall. intros f _.
      cbv zeta. destruct (AddSet_err _); [constructor|]. cbn [rules_of omap list_omap rule]. apply Forall_singleton.
      unfold ok_rule, rateExprs. cbn [r_chain r_exprs].
      assert (∀ a p e v, [Meta NFPROTO; Cmp CmpEq [a]] ++ m f ++ [p; e; v] =
                         ([Meta NFPROTO; Cmp CmpEq [a]] ++ m f ++ [p; e]) ++ [v]) as -> by (intros; by rewrite <- !app_assoc).
      apply ok_plain; [|apply ok_verdict; set_solver].
      apply Forall_app. split; [by repeat constructor|]. apply Forall_app. split; [done|by repeat constructor].
  - unfold addOverRateChain. rewrite rules_of_app, map_app, elem_of_app. left.
    rewrite !rules_of_app, !map_app, !elem_of_app. right. right. cbn. set_solver.
Qed.

Lemma established_ok T c : c ∉ module_chains → Forall (ok_rule T) (rules_of (addEstablishedAccept c)).
Proof.
  intros Hc. apply Forall_singleton. apply ct_plain_ok; [done|done|].
  by apply (ok_plain _ _ [Counter] [Verdict VerdictAccept]), ok_verdict; [repeat constructor|].
Qed.

Lemma established_closed c : c ∉ module_chains → closed (addEstablishedAccept c).
Proof. intros Hc. by apply closed_rules, established_ok. Qed.

Lemma icmp_types_closed c proto l : c ∉ module_chains → closed (flat_map (addICMPTypeAccept c proto) l).
Proof.
  intros Hc. apply closed_flat_map. intros typ _.
  by apply (closed_accept c [Meta L4PROTO; Cmp CmpEq [proto]; Payload TransportHeader 0 1; Cmp CmpEq [typ]]);
    [repeat constructor|].
Qed.

Lemma portscan_closed c : closed (addPortScanPrevention sink c opts).
Proof.
  apply (closed_to "portscan"); [set_solver| |].
  - unfold addPortScanPrevention. apply Forall_rules_app; [constructor|].
    apply Forall_rules_app; [destruct (PortScanLog opts); [|constructor];
      apply Forall_singleton, ok_only_plain, logExprs_plain|].
    apply Forall_rules_app; [by apply Forall_singleton, ok_verdict|].
    unfold rule. rewrite (rules_of_map (λ combo : Z * Z,
      mkRule c (tcpFlagsMatch combo.2 combo.1 ++ [Verdict (VerdictJump "portscan")]) "")).
    apply Forall_map, Forall_forall. intros combo _. apply ok_plain; [by repeat constructor|].
    apply ok_verdict. set_solver.
  - unfold addPortScanPrevention. rewrite !rules_of_app, !map_app, !elem_of_app. right. right. left. cbn. set_solver.
Qed.

Lemma invalid_closed c : closed (addInvalidPacketDrop sink c opts).
Proof.
  apply closed_rules. unfold addInvalidPacketDrop, addFiltered, addLogged. apply Forall_rules_app.
  - destruct (lg_enabled _); [|constructor]. apply Forall_singleton. apply ct_plain_ok; [done| |].
    + unfold logExprs. by destruct (nflog sink).
    + apply ok_only_plain, logExprs_plain.
  - apply Forall_singleton. apply ct_plain_ok; [done|done|by apply ok_verdict].
Qed.

Lemma fragments_closed c : closed (addFragmentDrop sink c opts).
Proof. apply closed_rules, logged_ok; [by repeat constructor|by apply ok_verdict]. Qed.

Lemma bogon_closed c exempt rules : c ∉ module_chains → closed (addBogonFilter sink c opts exempt rules).
Proof.
  intros Hc. assert (∀ T es, Forall plain es → ok_exprs T "bogon" (es ++ [Verdict VerdictReturn])) as Hret
    by (intros; by apply ok_plain, ok_verdict).
  apply (closed_to "bogon"); [set_solver| |].
  - unfold addBogonFilter. apply Forall_rules_app; [constructor|].
    assert (∀ l, Forall (ok_rule ["bogon"]) (rules_of (flat_map (λ cidr, option_list (ipv4SourceMatch cidr)
      (λ m, [rule "bogon" (m ++ [Verdict VerdictReturn])])) l))) as H1.
    { intros l. rewrite rules_of_flat_map. apply Forall_flat_map, Forall_forall. intros e _.
      destruct (ipv4SourceMatch e) as [m|] eqn:E; [|constructor]. apply Forall_singleton, Hret.
      by eapply ipv4SourceMatch_plain. }
    assert (∀ proto l, Forall (ok_rule ["bogon"]) (rules_of (flat_map (bogon_source_returns proto) l))) as H2.
    { intros proto l. rewrite rules_of_flat_map. apply Forall_flat_map, Forall_forall. intros r _.
      unfold bogon_source_returns. destruct (negb _); [constructor|].
      rewrite rules_of_flat_map. apply Forall_flat_map, Forall_forall. intros e _.
      destruct (ipv4SourceMatch e) as [m|] eqn:E; [|constructor]. apply Forall_singleton. unfold ok_rule. cbn [r_chain r_exprs].
      assert (∀ a b c d : list Expr, a ++ b ++ c ++ d = (a ++ b ++ c) ++ d) as -> by (intros; by rewrite <- !app_assoc).
      apply Hret, Forall_app. split; [by eapply ipv4SourceMatch_plain|]. apply Forall_app.
      split; [by repeat constructor|apply buildPortExprs_plain]. }
    apply Forall_rules_app; [apply H1|]. apply Forall_rules_app; [apply H2|]. apply Forall_rules_app; [apply H2|].
    apply Forall_rules_app.
    + rewrite rules_of_flat_map. apply Forall_flat_map, Forall_forall. intros e _.
      destruct (ipv4SourceMatch e) as [m|] eqn:E; [|constructor].
      apply logged_ok; [by eapply ipv4SourceMatch_plain|by apply ok_verdict].
    + apply Forall_singleton. apply (ok_plain _ _ [_; _; _; _]); [by repeat constructor|]. apply ok_verdict. set_solver.
  - unfold addBogonFilter. rewrite !rules_of_app, !map_app, !elem_of_app. right. right. right. right. left.
    unfold BogonRanges. cbn [flat_map]. rewrite rules_of_app, map_app, elem_of_app. left.
    destruct (ipv4SourceMatch "0.0.0.0/8") eqn:E; [|by vm_compute in E]. cbn [option_list].
    unfold addFiltered, addLogged. rewrite rules_of_app, map_app, elem_of_app. right. apply list_elem_of_here.
Qed.

Lemma ssh_closed c rules : closed (addSSHBruteForce sink c rules opts).
Proof.
  unfold addSSHBruteForce. cbv zeta. apply closed_app; [by apply closed_rules|]. rewrite app_assoc.
  apply closed_app; [apply over_rate_closed; [set_solver|by intros]|].
  apply (closed_to "sshbrute"); [set_solver| |by apply list_elem_of_here].
  apply Forall_rules_app; [by apply Forall_singleton, ok_verdict|].
  unfold rule. rewrite (rules_of_map (λ port, mkRule c ([Meta L4PROTO; Cmp CmpEq [IPPROTO_TCP]] ++ buildPortExprs port ++
    [Ct; Bitwise 4 (ctStateMask ctStateNew) ctStateNoMatch; Cmp CmpNeq ctStateNoMatch;
     Verdict (VerdictJump "sshbrute")]) "")).
  apply Forall_map, Forall_forall. intros port _. apply ok_plain; [by repeat constructor|].
  apply ok_plain; [apply buildPortExprs_plain|].
  apply (ct_plain_ok _ _ _ [Verdict (VerdictJump "sshbrute")]); [done|done|]. apply ok_verdict. set_solver.
Qed.

Lemma connlimit_closed c : closed (addConnectionLimit c opts).
Proof.
  unfold addConnectionLimit. cbv zeta. apply closed_flat_map. intros f _. destruct (AddSet_err _); [apply closed_nil|].
  apply closed_rules, Forall_singleton. apply (ok_plain _ _ [_; _; _; _]); [by repeat constructor|by apply ok_verdict].
Qed.

Lemma cidr_accept_closed c cidr : c ∉ module_chains → closed (addCIDRAccept c cidr).
Proof.
  intros Hc. unfold addCIDRAccept. cbv zeta. destruct (IsListComment cidr); [apply closed_nil|].
  destruct (parseIPNet _) as [n|]; [|apply closed_nil].
  destruct (To4 (IP n));
    [apply (closed_accept c [_; _; _; _; _]); [by repeat constructor|done]..].
Qed.

Lemma blocklist_closed c e : closed (addBlocklistRule sink c e opts).
Proof.
  unfold addBlocklistRule. destruct (IsListComment e); [apply closed_nil|]. cbv zeta.
  destruct (blocklistMatch e) as [m|] eqn:E; [|apply closed_nil].
  apply closed_rules, logged_ok; [by eapply blocklistMatch_plain|by apply ok_verdict].
Qed.

Lemma allowlist_closed c e : c ∉ module_chains → closed (addAllowlistRule c e).
Proof.
  intros Hc. unfold addAllowlistRule. destruct (IsListComment e); [apply closed_nil|].
  destruct (ParseIP e); [|by apply cidr_accept_closed]. apply closed_accept; [|done].
  rewrite hostMatch_net. apply net_exprs_plain.
Qed.

Lemma port_rule_ok T c proto r m : Forall plain m → c ∉ module_chains → ok_rule T (port_rule c proto r m).
Proof.
  intros Hm Hc. unfold ok_rule, port_rule. cbn [r_chain r_exprs]. apply ok_plain; [done|].
  apply ok_plain; [by repeat constructor|]. apply ok_plain; [apply buildPortExprs_plain|].
  by apply (ok_plain _ _ [Counter]), ok_verdict; [repeat constructor|].
Qed.

Lemma portAcceptRules_ok T c proto r : c ∉ module_chains → Forall (ok_rule T) (portAcceptRules c proto r).
Proof.
  intros Hc. rewrite portAcceptRules_entries. destruct (bool_decide _).
  - by apply Forall_singleton, port_rule_ok.
  - apply Forall_flat_map, Forall_forall. intros s _. destruct (cidrMatch s posSrcAddr) as [m|] eqn:E; [|constructor].
    apply Forall_singleton, port_rule_ok; [by eapply cidrMatchOp_plain|done].
Qed.

Lemma port_accept_closed c proto r : c ∉ module_chains → closed (addPortAccept c proto r).
Proof.
  intros Hc. apply closed_rules. unfold addPortAccept. rewrite (rules_of_map (λ r, r)), map_id.
  by apply portAcceptRules_ok.
Qed.

Lemma forwarding_closed l : closed (addForwardingRules l).
Proof.
  apply closed_rules. unfold addForwardingRules. apply Forall_rules_app; [constructor|].
  induction l as [|r l IH]; [constructor|]. apply Forall_rules_cons; [|exact IH].
  apply ok_only_plain. by repeat constructor.
Qed.

Lemma final_closed c : closed (addFinalLog sink c opts).
Proof. apply closed_rules, Forall_singleton, ok_only_plain, logExprs_plain. Qed.
End Builders.

(** *** The forward chain and the feeds *)

Section Lists.
Context `{Host} `{NftConn} (sink : logSink) (opts : FirewallOptions).

Lemma cidr_rules_ok T c pos l post v :
  Forall plain post → match v with VerdictAccept => c ∉ module_chains | VerdictJump t => t ∈ T | _ => True end →
  Forall (ok_rule T) (rules_of (flat_map (λ e, option_list (cidrMatch e pos) (λ m, [rule c ((m ++ post) ++ [Verdict v])])) l)).
Proof.
  intros Hp Hv. rewrite rules_of_flat_map. apply Forall_flat_map, Forall_forall. intros e _.
  destruct (cidrMatch e pos) as [m|] eqn:E; [|constructor]. apply Forall_singleton.
  apply ok_plain; [|by apply ok_verdict]. apply Forall_app. split; [by eapply cidrMatchOp_plain|done].
Qed.

Lemma no_post c pos v l :
  flat_map (λ e, option_list (cidrMatch e pos) (λ m, [rule c (m ++ [Verdict v])])) l =
  flat_map (λ e, option_list (cidrMatch e pos) (λ m, [rule c ((m ++ []) ++ [Verdict v])])) l.
Proof. apply flat_map_ext. intros e. destruct (cidrMatch e pos); cbn; by rewrite ?app_nil_r. Qed.

Lemma lists_chain_ok T rules cidrs : Forall (ok_rule T) (rules_of (lists_chain rules cidrs)).
Proof.
  unfold lists_chain. cbv zeta. rewrite (map_omap_option_list (λ e, cidrMatch e posSrcAddr)), !no_post.
  apply Forall_rules_app; [by apply cidr_rules_ok|].
  apply Forall_rules_app; apply cidr_rules_ok; try done. by repeat constructor.
Qed.

Lemma lists_jumps_ok c routing cidrs : Forall (ok_rule [forwardListsChainName]) (rules_of (lists_jumps c routing cidrs)).
Proof.
  unfold lists_jumps. destruct (negb _).
  - apply Forall_singleton, ok_verdict. set_solver.
  - rewrite no_post. apply cidr_rules_ok; [done|]. set_solver.
Qed.

Lemma forward_rule_ok T c proto v4 v6 ipv6 r :
  c ∉ module_chains → Forall (ok_rule T) (forward_rule c proto v4 v6 ipv6 r).
Proof.
  intros Hc. pose proof (portAcceptRules_ok T c proto r Hc) as Hall. unfold forward_rule.
  destruct (negb _); [constructor|]. apply Forall_app. split.
  - apply Forall_flat_map. eapply Forall_impl; [exact Hall|]. intros k Hk.
    destruct (ruleFamily _); [|constructor]. destruct (_ && _); [constructor|]. by apply Forall_singleton.
  - apply Forall_flat_map, Forall_forall. intros [on fam] _. destruct on; cbn [negb]; [|constructor].
    apply Forall_flat_map. eapply Forall_impl; [exact Hall|]. intros k Hk.
    destruct (ruleFamily _) eqn:E; [constructor|]. apply Forall_singleton. unfold ok_rule. cbn [r_chain r_exprs].
    unfold forwardFamilyPin. rewrite E. apply ok_plain; [by repeat constructor|done].
Qed.

Lemma bridge_deny_ok T c cidr : Forall (ok_rule T) (rules_of (bridge_deny c cidr)).
Proof.
  unfold bridge_deny, cidrMatch, cidrMatchNegated. rewrite !cidrMatchOp_net.
  destruct (entry_net cidr) as [p|]; cbn [fmap option_fmap option_map]; [|constructor].
  apply Forall_singleton. unfold ok_rule, rule. cbn [r_chain r_exprs]. apply ok_plain.
  - apply Forall_app. split; [apply net_exprs_plain|]. rewrite withoutFamilyTest_net.
    destruct (negb _); by repeat constructor.
  - by apply (ok_plain _ _ [Counter]), ok_verdict; [repeat constructor|].
Qed.

Lemma exceptions_ok T c routing cidrs :
  c ∉ module_chains → Forall (ok_rule T) (rules_of (addForwardExceptions c (forward_exceptions routing cidrs))).
Proof.
  intros Hc. unfold addForwardExceptions, rule.
  rewrite (rules_of_map (λ m, mkRule c (m ++ [Verdict VerdictAccept]) "")). apply Forall_map.
  unfold forward_exceptions. destruct (negb _); [|constructor]. unfold forwardExceptionMatches.
  apply Forall_flat_map, Forall_forall. intros cidr _. apply Forall_forall. intros m Hm.
  apply list_elem_of_omap in Hm as (pos & _ & E). apply ok_plain; [by eapply cidrMatchOp_plain|by apply ok_verdict].
Qed.

Lemma buildForwardChain_ok rules docker routing cidrs ipv6 :
  let '(b, fwd) := buildForwardChain forwardChainName rules docker routing cidrs ipv6 in
  Forall (ok_rule (option_list fwd (λ c, [c]))) (rules_of b).
Proof.
  unfold buildForwardChain. cbv zeta. destruct (_ && _); [constructor|].
  assert (forwardChainName ∉ module_chains) as Hc by other_chain.
  destruct (addForwardLists _ _ _ _) as [lists fwd] eqn:E.
  apply Forall_rules_app; [by apply established_ok|].
  assert (Forall (ok_rule (option_list fwd (λ c, [c]))) (rules_of lists)) as Hl.
  { unfold addForwardLists in E. destruct (_ && _) in E; injection E as <- <-; [constructor|].
    rewrite rules_of_AddChain. apply Forall_rules_app; [apply lists_chain_ok|apply lists_jumps_ok]. }
  apply Forall_rules_app; [done|]. apply Forall_rules_app; [|by apply exceptions_ok].
  unfold addForwardPortRules. destruct (negb _); [constructor|]. destruct (cidrFamilies cidrs) as [v4 v6].
  destruct (_ && _); [constructor|]. apply Forall_rules_app.
  - rewrite (rules_of_map (λ r, r)), map_id. apply Forall_app. split; apply Forall_flat_map, Forall_forall; intros r _;
      by apply forward_rule_ok.
  - rewrite rules_of_flat_map. apply Forall_flat_map, Forall_forall. intros cidr _. apply bridge_deny_ok.
Qed.

(** The chain the forward chain jumps to has a rule. *)
Lemma lists_filled rules routing cidrs b c :
  addForwardLists forwardChainName rules routing cidrs = (b, Some c) →
  c ∈ map r_chain (rules_of b) ∨ Feeds rules ≠ [].
Proof.
  unfold addForwardLists. destruct (bool_decide (Feeds rules = [])) eqn:Ef.
  - rewrite andb_true_r. destruct (omap _ (Blocklist rules)) as [|m ms] eqn:Eb; [done|].
    rewrite bool_decide_false by done. intros [= <- <-]. left. unfold lists_chain. cbv zeta. rewrite Eb.
    cbn [app]. rewrite rules_of_AddChain, !rules_of_app, !map_app, !elem_of_app.
    left. right. left. apply list_elem_of_here.
  - apply bool_decide_eq_false in Ef. by right.
Qed.

Lemma feed_rules_ok T fwd id f : Forall (ok_rule T) (rules_of (feed_rules sink inputChainName opts fwd id f)).
Proof.
  unfold feed_rules. cbv zeta. apply Forall_rules_app.
  - apply logged_ok; [by repeat constructor|]. by apply (ok_plain _ _ [Counter]), ok_verdict; [repeat constructor|].
  - destruct fwd as [c|]; [|constructor]. apply Forall_singleton.
    apply (ok_plain _ _ [_; _; _; _; _] [Verdict VerdictDrop]); [by repeat constructor|by apply ok_verdict].
Qed.
End Lists.

(** *** Everything an apply queues *)

Section Table.
Context `{Host} `{NftConn} (sink : logSink) (opts : FirewallOptions).

Lemma input_not_module : inputChainName ∉ module_chains.
Proof. other_chain. Qed.

Local Ltac close :=
  first [apply closed_when|apply input_not_module|apply closed_nil|apply portscan_closed|apply invalid_closed
        |apply fragments_closed|apply bogon_closed|apply ssh_closed|apply connlimit_closed|apply cidr_accept_closed
        |apply blocklist_closed|apply allowlist_closed|apply port_accept_closed|apply forwarding_closed
        |apply final_closed|apply icmp_types_closed|apply established_closed|apply over_rate_closed].

Lemma family_closed c fam k :
  match k with VerdictAccept => c ∉ module_chains | VerdictJump _ => False | _ => True end →
  closed (addFamilyVerdict c fam k).
Proof.
  intros Hk. apply closed_rules, Forall_singleton. apply (ok_plain _ _ [_; _]); [by repeat constructor|].
  apply ok_verdict. by destruct k.
Qed.

Lemma echo_closed c lg r :
  closed (addOverRateChain sink "icmpflood-over" lg ++ addPerSourceRateLimit c echoMatch r "icmpflood-over").
Proof.
  apply over_rate_closed; [set_solver|]. intros f. unfold echoMatch. by destruct (_ =? _); repeat constructor.
Qed.

Lemma early_closed ipv6 : closed (early_rules sink opts ipv6).
Proof.
  pose proof input_not_module as Hin. unfold early_rules, ipv6_disposition, addICMPRules. repeat apply closed_app.
  - by apply (closed_accept _ [_; _]); [repeat constructor|].
  - destruct (String.eqb _ _); [by apply family_closed|]. destruct (String.eqb _ _); [by apply family_closed|close].
  - apply closed_when, echo_closed.
  - apply closed_when. apply over_rate_closed; [set_solver|]. by repeat constructor.
  - by close.
  - destruct (negb _); by close.
Qed.

Lemma module_closed rules cidrs : closed (module_rules sink opts rules cidrs).
Proof.
  pose proof input_not_module as Hin. unfold module_rules.
  repeat apply closed_app; apply closed_when; try (by close).
  - apply over_rate_closed; [set_solver|]. by repeat constructor.
  - by apply (closed_drop _ [_; _]); repeat constructor.
  - by apply (closed_drop _ [_; _]); repeat constructor.
  - by apply (closed_drop _ [_; _]); repeat constructor.
Qed.

Lemma list_closed rules cidrs : closed (list_rules sink opts rules cidrs).
Proof.
  pose proof input_not_module. unfold list_rules. repeat apply closed_app; apply closed_flat_map; intros; by close.
Qed.

Lemma port_closed rules ipv6 : closed (port_rules opts rules ipv6).
Proof.
  pose proof input_not_module. unfold port_rules, addEchoAccepts. repeat apply closed_app.
  - by close.
  - destruct (negb _); by close.
  - apply closed_flat_map. intros r _. destruct (FiltersHost r); by close.
  - apply closed_flat_map. intros r _. destruct (FiltersHost r); by close.
  - destruct (bool_decide _); close.
Qed.
End Table.

(** ** The table of an apply *)

(** What [m.built] holds when the second check reads it: every rule queued through
    netlink, the last one included; the custom rules are nft's. *)
Definition built_rules (sink : logSink) (opts : FirewallOptions) (queued : list Cmd) : list Rule :=
  rules_of queued ++ rules_of (when (LogBlocked opts) (addFinalLog sink inputChainName opts)).

Section Built.
Context `{Host} `{NftConn} (sink : logSink) (detected : list string).
Context (rules : Rules) (opts : FirewallOptions) (net : NetworkSettings) (feeds : FeedContents)
  (queued : list Cmd) (bytes : Z) (cidrs : list string).
Context (Hq : ruleset sink detected rules opts net feeds = Some (queued, bytes, cidrs)).

Let fwd := buildForwardChain forwardChainName rules (Docker net) (Routing net) cidrs (IPv6_Mode (IPv6 net)).
Let feed := flat_map (λ id, flat_map (λ f, rules_of (feed_rules sink inputChainName opts fwd.2 id f)) addrFamilies)
  (FeedRuleOrder (Feeds rules)).

(** The queue, with the forward chain and the feeds in front. *)
Lemma queued_rules :
  rules_of queued ≡ₚ
    rules_of (early_rules sink opts (IPv6 net) ++ module_rules sink opts rules cidrs ++
              list_rules sink opts rules cidrs ++ port_rules opts rules (IPv6 net)) ++ rules_of fwd.1 ++ feed.
Proof using Hq.
  destruct (ruleset_parts sink detected rules opts net feeds queued bytes cidrs Hq) as (cs & n & Hf & _ & ->).
  rewrite !rules_of_app, (addFeeds_rules _ _ _ _ _ _ _ _ Hf).
  assert (rules_of (base_commands (Routing net)) = []) as -> by done. cbn [app]. fold fwd feed.
  rewrite <- !app_assoc. f_equiv. rewrite (app_assoc (rules_of fwd.1)). solve_Permutation.
Qed.

(** The chain of the lists has a rule whenever the forward chain jumps to it: an
    entry of the blocklist, or a rule of a feed. *)
Lemma lists_chain_created c : fwd.2 = Some c → c ∈ map r_chain (rules_of fwd.1 ++ feed).
Proof.
  intros E. pose proof (buildForwardChain_fwd _ _ _ _ _ _ E) as ->. rewrite map_app, elem_of_app.
  revert E. unfold feed. generalize (eq_refl fwd). unfold fwd at 1, buildForwardChain. cbv zeta.
  destruct (_ && _); [by intros <-|]. destruct (addForwardLists _ _ _ _) as [b o] eqn:El.
  intros <-. cbn [fst snd]. intros ->. apply lists_filled in El as Hl. destruct Hl as [Hl|Hl].
  - left. rewrite !rules_of_app, !map_app, !elem_of_app. auto.
  - right. destruct (FeedRuleOrder (Feeds rules)) as [|id ids] eqn:Eo.
    { destruct Hl. apply Permutation_nil_r. by rewrite <- (FeedRuleOrder_Permutation (Feeds rules)), Eo. }
    cbn [flat_map]. unfold addrFamilies at 1. cbn [flat_map]. unfold feed_rules at 1. cbv zeta.
    rewrite !rules_of_app, !map_app, !elem_of_app. left. left. right. apply list_elem_of_here.
Qed.

Lemma feed_ok T : Forall (ok_rule T) feed.
Proof.
  apply Forall_flat_map, Forall_forall. intros id _. apply Forall_flat_map, Forall_forall. intros f _.
  apply feed_rules_ok.
Qed.

Lemma queued_well_built last : closed last → well_built (rules_of queued ++ rules_of last) [].
Proof using Hq.
  intros Hlast. pose proof queued_rules as Hqr. pose proof lists_chain_created as Hl.
  pose proof feed_ok as Hfeed. clearbody feed.
  pose (rest := (early_rules sink opts (IPv6 net) ++ module_rules sink opts rules cidrs ++
    list_rules sink opts rules cidrs ++ port_rules opts rules (IPv6 net)) ++ last).
  assert (closed rest) as (T & HT & Hr & Hc).
  { apply closed_app; [|done]. apply closed_app; [apply early_closed|]. apply closed_app; [apply module_closed|].
    apply closed_app; [apply list_closed|apply port_closed]. }
  pose proof (buildForwardChain_ok rules (Docker net) (Routing net) cidrs (IPv6_Mode (IPv6 net))) as Hf.
  fold fwd in Hf. rewrite (surjective_pairing fwd) in Hf.
  set (T' := option_list fwd.2 (λ c, [c])) in Hf.
  assert (T' ⊆ module_chains ∧ T' ⊆ map r_chain (rules_of fwd.1 ++ feed)) as [HT' Hc'].
  { unfold T'. destruct fwd.2 as [c|] eqn:E; cbn [option_list]; [|set_solver]. split.
    - apply buildForwardChain_fwd in E as ->. set_solver.
    - pose proof (Hl c eq_refl). set_solver. }
  assert (rules_of queued ++ rules_of last ≡ₚ rules_of rest ++ (rules_of fwd.1 ++ feed)) as Hp.
  { unfold rest. rewrite Hqr, (rules_of_app _ last). solve_Permutation. }
  apply (ok_well_built (T ++ T')); [set_solver| |].
  - rewrite Hp, !Forall_app. split_and!; (eapply Forall_impl; [eassumption || apply (Hfeed T')|]);
      intros r; apply ok_mono; set_solver.
  - rewrite Hp, map_app. set_solver.
Qed.

(** C10: the ruleset easywall builds passes its own check.  Whatever the rules, the
    options, the settings and the contents of the feeds are, on either byte order,
    the check in front of each of the two flushes of an apply has nothing to
    report about what is queued so far: every conntrack mask is spelt in the
    byte order of the machine, every chain that is jumped to is filled in the
    same transaction, and none of them accepts.  So the finding that degrades
    health never comes from a rule the builders produced. *)
Theorem built_table_has_no_findings :
  checkBuilt (rules_of queued) = [] ∧ checkBuilt (built_rules sink opts queued) = [].
Proof using Hq.
  split; apply CheckRules_spec.
  - rewrite <- (app_nil_r (rules_of queued)). by apply (queued_well_built []), closed_nil.
  - apply queued_well_built, closed_when, final_closed.
Qed.
End Built.

Lemma built_table_has_no_findings_witness :
  ∃ queued bytes cidrs,
    @ruleset amd64 netlink_conn kernel_log [] container_rules shipped_options container_networks (λ _, []) =
      Some (queued, bytes, cidrs) ∧
    (10 < length (rules_of queued))%nat ∧
    @checkBuilt amd64 (rules_of queued) = [] ∧
    @checkBuilt amd64 (built_rules kernel_log shipped_options queued) = [].
Proof.
  do 3 eexists. split; [vm_compute; reflexivity|]. split; [apply Nat.ltb_lt; vm_compute; reflexivity|].
  eapply (@built_table_has_no_findings amd64 netlink_conn kernel_log [] container_rules shipped_options
    container_networks (λ _, [])). vm_compute. reflexivity.
Defined.
