(* ===== verification/Diff.v ===== *)
(** * What an apply would change

    [src/internal/shared/diff.go]: the rule diff the apply screen shows and
    [HasPendingChanges] is computed from, and the configuration drift.  A Go map
    is a [gmap]; the [seen] maps of the loops are [gset]s threaded through the
    recursion. *)
From S2P Require Import Prelude GoStrings Models RuleID FeedIDs Validate.

Local Open Scope Z_scope.

Inductive DeltaKind := DeltaAdded | DeltaRemoved | DeltaChanged.

Record RuleDelta := mkRuleDelta {
  Delta_Set : string; Delta_Kind : DeltaKind; Delta_Key : string;
  Delta_Label : string; Delta_From : string; Delta_To : string }.

Definition added (set key label : string) := mkRuleDelta set DeltaAdded key label "" "".
Definition removed (set key label : string) := mkRuleDelta set DeltaRemoved key label "" "".
Definition changed (set key label from to : string) :=
  mkRuleDelta set DeltaChanged key label from to.

(** ** Ports *)

Definition join_mark (detail m : string) : string :=
  if String.eqb detail "" then m else detail +:+ " " +:+ m.

(** The sources of a rule that are addresses, trimmed. *)
Definition source_entries (l : list string) : list string :=
  map TrimSpace (filter (λ s, IsListComment s = false) l).

(** [portDetail] *)
Definition portDetail (r : PortRule) : string :=
  let marks := (if SSH r then ["(ssh)"] else []) ++
               (if negb (String.eqb (Scope r) "") && negb (String.eqb (Scope r) ScopeHost)
                then ["(" +:+ Scope r +:+ ")"] else []) in
  let detail := foldl join_mark (Description r) marks in
  match source_entries (Sources r) with
  | [] => detail
  | sources =>
      let from := "from " +:+ Join sources ", " in
      if String.eqb detail "" then from else detail +:+ " — " +:+ from
  end.

Definition index_port (m : gmap string string) (r : PortRule) : gmap string string :=
  match m !! Port r with
  | Some prev => <[Port r := prev +:+ " | " +:+ portDetail r]> m
  | None => <[Port r := portDetail r]> m
  end.

(** [indexPorts] *)
Definition indexPorts (rules : list PortRule) : gmap string string :=
  foldl index_port ∅ rules.

(** The first loop of [diffPorts]: what arrives or changes. *)
Fixpoint diffPorts_staged (set : string) (cur next : gmap string string)
    (seen : gset string) (l : list PortRule) : list RuleDelta :=
  match l with
  | [] => []
  | r :: l =>
      if bool_decide (Port r ∈ seen) then diffPorts_staged set cur next seen l
      else
        let to := default "" (next !! Port r) in
        (match cur !! Port r with
         | None => [added set (Port r) to]
         | Some before => if String.eqb before to then []
                          else [changed set (Port r) to before to]
         end) ++ diffPorts_staged set cur next ({[Port r]} ∪ seen) l
  end.

(** Its second loop: what leaves. *)
Fixpoint diffPorts_current (set : string) (cur next : gmap string string)
    (seen : gset string) (l : list PortRule) : list RuleDelta :=
  match l with
  | [] => []
  | r :: l =>
      if bool_decide (Port r ∈ seen) then diffPorts_current set cur next seen l
      else
        (match next !! Port r with
         | Some _ => []
         | None => [removed set (Port r) (default "" (cur !! Port r))]
         end) ++ diffPorts_current set cur next ({[Port r]} ∪ seen) l
  end.

(** [diffPorts] *)
Definition diffPorts (set : string) (current staged : list PortRule) : list RuleDelta :=
  let cur := indexPorts current in
  let next := indexPorts staged in
  diffPorts_staged set cur next ∅ staged ++ diffPorts_current set cur next ∅ current.

(** ** Address lists and feeds *)

Fixpoint listEntries_from (seen : gset string) (lines : list string) : list string :=
  match lines with
  | [] => []
  | l :: lines =>
      if IsListComment l then listEntries_from seen lines
      else
        let e := TrimSpace l in
        if bool_decide (e ∈ seen) then listEntries_from seen lines
        else e :: listEntries_from ({[e]} ∪ seen) lines
  end.

(** [listEntries], [listEntrySet] *)
Definition listEntries (lines : list string) : list string := listEntries_from ∅ lines.
Definition listEntrySet (lines : list string) : gset string :=
  list_to_set (listEntries lines).

(** [diffList] *)
Definition diffList (set : string) (current staged : list string) : list RuleDelta :=
  let cur := listEntrySet current in
  let next := listEntrySet staged in
  map (λ e, added set e "") (filter (λ e, e ∉ cur) (listEntries staged)) ++
  map (λ e, removed set e "") (filter (λ e, e ∉ next) (listEntries current)).

(** [diffFeeds] *)
Definition label_feed (d : RuleDelta) : RuleDelta :=
  let name := FeedDisplayName (Delta_Key d) in
  if String.eqb name (Delta_Key d) then d
  else mkRuleDelta (Delta_Set d) (Delta_Kind d) (Delta_Key d) name (Delta_From d) (Delta_To d).
Definition diffFeeds (current staged : list string) : list RuleDelta :=
  map label_feed (diffList "feeds" current staged).

(** ** Forwarding *)

Definition forwardID (r : ForwardingRule) : string :=
  Itoa (SourcePort r) +:+ "/" +:+ Protocol r.
Definition forwardText (r : ForwardingRule) : string :=
  Itoa (SourcePort r) +:+ "->" +:+ Itoa (DestPort r) +:+ "/" +:+ Protocol r.

(** [indexForwards]: the first rule of an id wins. *)
Definition index_forward (m : gmap string ForwardingRule) (r : ForwardingRule) :=
  match m !! forwardID r with
  | Some _ => m
  | None => <[forwardID r := r]> m
  end.
Definition indexForwards (rules : list ForwardingRule) : gmap string ForwardingRule :=
  foldl index_forward ∅ rules.

Fixpoint diffForwarding_staged (cur : gmap string ForwardingRule)
    (seen : gset string) (l : list ForwardingRule) : list RuleDelta :=
  match l with
  | [] => []
  | r :: l =>
      let id := forwardID r in
      if bool_decide (id ∈ seen) then diffForwarding_staged cur seen l
      else
        (match cur !! id with
         | None => [added "forwarding" (forwardText r) ""]
         | Some before =>
             if DestPort before =? DestPort r then []
             else [changed "forwarding" id "" (forwardText before) (forwardText r)]
         end) ++ diffForwarding_staged cur ({[id]} ∪ seen) l
  end.

Fixpoint diffForwarding_current (next : gmap string ForwardingRule)
    (seen : gset string) (l : list ForwardingRule) : list RuleDelta :=
  match l with
  | [] => []
  | r :: l =>
      let id := forwardID r in
      if bool_decide (id ∈ seen) then diffForwarding_current next seen l
      else
        (match next !! id with
         | Some _ => []
         | None => [removed "forwarding" (forwardText r) ""]
         end) ++ diffForwarding_current next ({[id]} ∪ seen) l
  end.

(** [diffForwarding] *)
Definition diffForwarding (current staged : list ForwardingRule) : list RuleDelta :=
  diffForwarding_staged (indexForwards current) ∅ staged ++
  diffForwarding_current (indexForwards staged) ∅ current.

(** ** Custom rules *)

(** [customLines] *)
Definition customLines (lines : list string) : list string :=
  map TrimSpace (filter (λ l, IsListComment l = false) lines).

Definition custom_key (i : nat) : string := "#" +:+ Itoa (Z.of_nat (S i)).

(** The two loops of [diffCustom] walk the sequences in step. *)
Fixpoint diffCustom_from (i : nat) (cur next : list string) : list RuleDelta :=
  match next, cur with
  | n :: next, [] => added "custom" (custom_key i) n :: diffCustom_from (S i) [] next
  | n :: next, c :: cur =>
      (if String.eqb c n then [] else [changed "custom" (custom_key i) "" c n]) ++
      diffCustom_from (S i) cur next
  | [], cur => imap (λ k c, removed "custom" (custom_key (i + k)) c) cur
  end.
Definition diffCustom (current staged : list string) : list RuleDelta :=
  diffCustom_from 0 (customLines current) (customLines staged).

(** [DiffRules] *)
Definition DiffRules (current staged : Rules) : list RuleDelta :=
  diffPorts "tcp" (TCP current) (TCP staged) ++
  diffPorts "udp" (UDP current) (UDP staged) ++
  diffList "blocklist" (Blocklist current) (Blocklist staged) ++
  diffList "allowlist" (Allowlist current) (Allowlist staged) ++
  diffFeeds (Feeds current) (Feeds staged) ++
  diffForwarding (Forwarding current) (Forwarding staged) ++
  diffCustom (Custom current) (Custom staged).

(** ** Specification: what the diff distinguishes

    [view r] is what [DiffRules] knows of a rule set: per port the details of
    every rule that lists it, the address lists and feeds as sets, one
    destination per incoming port and protocol, and the custom rules as a
    sequence. *)
Record RulesView := mkRulesView {
  view_tcp : gmap string string; view_udp : gmap string string;
  view_block : gset string; view_allow : gset string; view_feeds : gset string;
  view_forward : gmap string Z; view_custom : list string }.

Definition view (r : Rules) : RulesView := mkRulesView
  (indexPorts (TCP r)) (indexPorts (UDP r))
  (listEntrySet (Blocklist r)) (listEntrySet (Allowlist r)) (listEntrySet (Feeds r))
  (DestPort <$> indexForwards (Forwarding r)) (customLines (Custom r)).

(** Index maps hold exactly the keys of the list. *)
Lemma indexPorts_dom_from m l p :
  is_Some (foldl index_port m l !! p) ↔ is_Some (m !! p) ∨ p ∈ map Port l.
Proof.
  revert m. induction l as [|r l IH]; intros m; simpl; [set_solver|].
  rewrite IH, elem_of_cons. unfold index_port.
  destruct (m !! Port r) as [prev|] eqn:E; rewrite lookup_insert_is_Some'; [|naive_solver].
  destruct (decide (p = Port r)); naive_solver.
Qed.

Lemma indexPorts_dom l p : is_Some (indexPorts l !! p) ↔ p ∈ map Port l.
Proof.
  unfold indexPorts. rewrite indexPorts_dom_from, lookup_empty.
  split; [intros [[? [=]]|?]; done|by right].
Qed.

Lemma indexForwards_dom_from m l id :
  is_Some (foldl index_forward m l !! id) ↔ is_Some (m !! id) ∨ id ∈ map forwardID l.
Proof.
  revert m. induction l as [|r l IH]; intros m; simpl; [set_solver|].
  rewrite IH, elem_of_cons. unfold index_forward.
  destruct (m !! forwardID r) as [prev|] eqn:E; [|rewrite lookup_insert_is_Some'; naive_solver].
  split; [naive_solver|]. intros [?|[->|?]]; eauto.
Qed.

Lemma indexForwards_dom l id : is_Some (indexForwards l !! id) ↔ id ∈ map forwardID l.
Proof.
  unfold indexForwards. rewrite indexForwards_dom_from, lookup_empty.
  split; [intros [[? [=]]|?]; done|by right].
Qed.

(** A key already indexed keeps its rule. *)
Lemma indexForwards_keep m l id r :
  m !! id = Some r → foldl index_forward m l !! id = Some r.
Proof.
  revert m. induction l as [|r' l IH]; intros m Hm; simpl; [done|].
  apply IH. unfold index_forward. destruct (m !! forwardID r') eqn:E; [done|].
  rewrite lookup_insert_ne; [done|]. intros <-. congruence.
Qed.

Lemma diffPorts_staged_nil set cur next seen l :
  diffPorts_staged set cur next seen l = [] ↔
  ∀ p, p ∈ map Port l → p ∉ seen → cur !! p = Some (default "" (next !! p)).
Proof.
  revert seen. induction l as [|r l IH]; intros seen; simpl; [set_solver|].
  case_bool_decide as Hs.
  - rewrite IH. split; intros H p; [intros [->|?]%elem_of_cons|]; set_solver.
  - rewrite app_nil, IH. split.
    + intros [H1 H2] p [->|Hp]%elem_of_cons Hns.
      * destruct (cur !! Port r) as [before|]; [|done].
        destruct (String.eqb_spec before (default "" (next !! Port r))); naive_solver.
      * destruct (decide (p = Port r)) as [->|]; [|apply H2; set_solver].
        destruct (cur !! Port r) as [before|]; [|done].
        destruct (String.eqb_spec before (default "" (next !! Port r))); naive_solver.
    + intros H. split; [|intros p Hp Hns; apply H; set_solver].
      rewrite (H (Port r)) by set_solver. by rewrite String.eqb_refl.
Qed.

Lemma diffPorts_current_nil set cur next seen l :
  diffPorts_current set cur next seen l = [] ↔
  ∀ p, p ∈ map Port l → p ∉ seen → is_Some (next !! p).
Proof.
  revert seen. induction l as [|r l IH]; intros seen; simpl; [set_solver|].
  case_bool_decide as Hs.
  - rewrite IH. split; intros H p; [intros [->|?]%elem_of_cons|]; set_solver.
  - rewrite app_nil, IH. split.
    + intros [H1 H2] p [->|Hp]%elem_of_cons Hns.
      * destruct (next !! Port r); [done|naive_solver].
      * destruct (decide (p = Port r)) as [->|]; [|apply H2; set_solver].
        destruct (next !! Port r); [done|naive_solver].
    + intros H. split; [|intros p Hp Hns; apply H; set_solver].
      destruct (H (Port r)) as [? ->]; set_solver.
Qed.

Lemma diffPorts_nil set current staged :
  diffPorts set current staged = [] ↔ indexPorts current = indexPorts staged.
Proof.
  unfold diffPorts. rewrite app_nil, diffPorts_staged_nil, diffPorts_current_nil.
  split.
  - intros [Hs Hc]. apply map_eq. intros p.
    destruct (indexPorts staged !! p) as [d|] eqn:E.
    + rewrite Hs, E; [done| |set_solver]. apply indexPorts_dom. eauto.
    + destruct (indexPorts current !! p) as [d|] eqn:E'; [|done].
      destruct (Hc p) as [? ?]; [apply indexPorts_dom; eauto|set_solver|congruence].
  - intros Heq. rewrite Heq. split; intros p Hp _.
    + apply indexPorts_dom in Hp as [d Hd]. by rewrite Hd.
    + rewrite <- Heq. by apply indexPorts_dom.
Qed.

Lemma diffList_nil set current staged :
  diffList set current staged = [] ↔ listEntrySet current = listEntrySet staged.
Proof.
  unfold diffList, listEntrySet. rewrite app_nil, !map_nil_iff, !filter_nil_iff.
  setoid_rewrite elem_of_list_to_set. split.
  - intros [Hs Hc]. apply set_eq. intros e. rewrite !elem_of_list_to_set.
    split; intros He; apply dec_stable; naive_solver.
  - intros Heq. rewrite set_eq in Heq. setoid_rewrite elem_of_list_to_set in Heq.
    naive_solver.
Qed.

Lemma diffFeeds_nil current staged :
  diffFeeds current staged = [] ↔ listEntrySet current = listEntrySet staged.
Proof. unfold diffFeeds. by rewrite map_nil_iff, diffList_nil. Qed.

(** The staged loop of the forwarding diff looks at the first rule of each id,
    which is the one [indexForwards] keeps. *)
Lemma diffForwarding_staged_nil cur m seen l :
  (∀ id, id ∈ seen ↔ is_Some (m !! id)) →
  diffForwarding_staged cur seen l = [] ↔
  ∀ id, id ∈ map forwardID l → id ∉ seen →
    DestPort <$> cur !! id = DestPort <$> foldl index_forward m l !! id.
Proof.
  revert m seen. induction l as [|r l IH]; intros m seen Hm; simpl; [set_solver|].
  case_bool_decide as Hs.
  - assert (index_forward m r = m) as ->.
    { unfold index_forward. apply Hm in Hs as [? ->]. done. }
    rewrite (IH m) by done. split.
    + intros H id [->|?]%elem_of_cons ?; [done|auto].
    + intros H id ? ?. apply H; [by right|done].
  - assert (m !! forwardID r = None) as Hnone.
    { apply eq_None_not_Some. by rewrite <- Hm. }
    assert (index_forward m r = <[forwardID r := r]> m) as ->.
    { unfold index_forward. by rewrite Hnone. }
    rewrite app_nil, (IH (<[forwardID r := r]> m)).
    2: { intros id. rewrite lookup_insert_is_Some', <- Hm. set_solver. }
    assert (foldl index_forward (<[forwardID r := r]> m) l !! forwardID r = Some r) as Hr.
    { apply indexForwards_keep, lookup_insert_eq. }
    assert ((match cur !! forwardID r with
             | Some before => if DestPort before =? DestPort r then []
                 else [changed "forwarding" (forwardID r) "" (forwardText before) (forwardText r)]
             | None => [added "forwarding" (forwardText r) ""] end) = [] ↔
            DestPort <$> cur !! forwardID r = Some (DestPort r)) as ->.
    { destruct (cur !! forwardID r) as [b|]; simpl; [|naive_solver].
      destruct (DestPort b =? DestPort r) eqn:E; breflect; split; congruence. }
    split.
    + intros [H1 H2] id Hid Hns. destruct (decide (id = forwardID r)) as [->|].
      * by rewrite Hr.
      * apply H2; set_solver.
    + intros H. split; [rewrite H by set_solver; by rewrite Hr|].
      intros id Hid Hns. apply H; set_solver.
Qed.

Lemma diffForwarding_current_nil next seen l :
  diffForwarding_current next seen l = [] ↔
  ∀ id, id ∈ map forwardID l → id ∉ seen → is_Some (next !! id).
Proof.
  revert seen. induction l as [|r l IH]; intros seen; simpl; [set_solver|].
  case_bool_decide as Hs.
  - rewrite IH. split; intros H id; [intros [->|?]%elem_of_cons|]; set_solver.
  - rewrite app_nil, IH. split.
    + intros [H1 H2] id Hid Hns. destruct (decide (id = forwardID r)) as [->|].
      * destruct (next !! forwardID r); [done|naive_solver].
      * apply H2; set_solver.
    + intros H. split; [|intros id Hid Hns; apply H; set_solver].
      destruct (H (forwardID r)) as [? ->]; set_solver.
Qed.

Lemma diffForwarding_nil current staged :
  diffForwarding current staged = [] ↔
  DestPort <$> indexForwards current = DestPort <$> indexForwards staged.
Proof.
  unfold diffForwarding. rewrite app_nil, diffForwarding_current_nil.
  rewrite (diffForwarding_staged_nil _ ∅).
  2: { intros id. rewrite lookup_empty. split; [set_solver|by intros [? [=]]]. }
  fold (indexForwards staged).
  split.
  - intros [Hs Hc]. apply map_eq. intros id. rewrite !lookup_fmap.
    destruct (indexForwards staged !! id) as [d|] eqn:E.
    + rewrite Hs, E; [done| |set_solver]. apply indexForwards_dom. eauto.
    + destruct (indexForwards current !! id) as [d|] eqn:E'; [|done].
      destruct (Hc id) as [? ?]; [apply indexForwards_dom; eauto|set_solver|congruence].
  - intros Heq. split; intros id Hid _.
    + by rewrite <- !lookup_fmap, Heq.
    + apply indexForwards_dom in Hid as [d Hd].
      apply (f_equal (λ m, m !! id)) in Heq. rewrite !lookup_fmap, Hd in Heq.
      destruct (indexForwards staged !! id); [done|naive_solver].
Qed.

Lemma diffCustom_nil_from i cur next : diffCustom_from i cur next = [] ↔ cur = next.
Proof.
  revert i cur. induction next as [|n next IH]; intros i cur.
  - destruct cur; naive_solver.
  - destruct cur as [|c cur]; simpl; [naive_solver|].
    rewrite app_nil, IH. destruct (String.eqb_spec c n); naive_solver.
Qed.

Lemma DiffRules_nil current staged : DiffRules current staged = [] ↔ view current = view staged.
Proof.
  unfold DiffRules, view. rewrite !app_nil, !diffPorts_nil, !diffList_nil, diffFeeds_nil,
    diffForwarding_nil. unfold diffCustom. rewrite diffCustom_nil_from.
  split; [intros (? & ? & ? & ? & ? & ? & ?); congruence|]. by intros [=].
Qed.

(** ** Configuration drift *)

(** The leaves [structDeltas] meets by reflection. *)
Inductive leaf := LBool (b : bool) | LInt (n : Z) | LStr (s : string) | LSlice (l : list string).

#[global] Instance leaf_eq_dec : EqDecision leaf.
Proof. solve_decision. Defined.

Record ConfigDelta := mkConfigDelta { CD_Key : string; CD_From : string; CD_To : string }.

(** The walk over [FirewallOptions], named by its toml tags. *)
Definition firewall_leaves (o : FirewallOptions) : list (string * leaf) := [
  ("ssh_brute_force", LBool (SSHBruteForce o));
  ("ssh_brute_force_log", LBool (SSHBruteForceLog o));
  ("ssh_brute_force_connection_limit", LInt (SSHBruteForceConnectionLimit o));
  ("ssh_brute_force_log_limit", LInt (SSHBruteForceLogLimit o));
  ("icmp_allow_echo_request", LBool (ICMPAllowEchoRequest o));
  ("icmp_flood", LBool (ICMPFlood o));
  ("icmp_flood_log", LBool (ICMPFloodLog o));
  ("icmp_flood_connection_limit", LInt (ICMPFloodConnectionLimit o));
  ("icmp_flood_log_limit", LInt (ICMPFloodLogLimit o));
  ("syn_flood", LBool (SYNFlood o));
  ("syn_flood_log", LBool (SYNFloodLog o));
  ("syn_flood_limit", LInt (SYNFloodLimit o));
  ("port_scan", LBool (PortScan o));
  ("port_scan_log", LBool (PortScanLog o));
  ("drop_invalid_packets", LBool (InvalidPackets o));
  ("drop_invalid_packets_log", LBool (InvalidPacketsLog o));
  ("drop_fragments", LBool (Fragments o));
  ("drop_fragments_log", LBool (FragmentsLog o));
  ("bogon_filter", LBool (Bogons o));
  ("bogon_filter_log", LBool (BogonsLog o));
  ("connection_limit_per_ip", LBool (ConnectionLimit o));
  ("connection_limit_max", LInt (ConnectionLimitMax o));
  ("tcp_rst_flood", LBool (TCPRSTFlood o));
  ("tcp_rst_flood_log", LBool (TCPRSTFloodLog o));
  ("tcp_rst_flood_limit", LInt (TCPRSTFloodLimit o));
  ("drop_broadcast", LBool (DropBroadcast o));
  ("drop_multicast", LBool (DropMulticast o));
  ("drop_anycast", LBool (DropAnycast o));
  ("log_blocked_connections", LBool (LogBlocked o));
  ("log_blocked_connections_limit", LInt (LogBlockedLimit o));
  ("log_blocklist_connections", LBool (LogBlocklist o));
  ("log_blocklist_connections_limit", LInt (LogBlocklistLimit o));
  ("log_feed_connections", LBool (LogFeed o));
  ("log_feed_connections_limit", LInt (LogFeedLimit o)) ].

(** The walk over [NetworkSettings]; [prefix + "." + name] for the nested
    structs. *)
Definition network_leaves (n : NetworkSettings) : list (string * leaf) := [
  ("ipv6.mode", LStr (IPv6_Mode (IPv6 n)));
  ("ipv6.enabled", LBool (IPv6_Enabled (IPv6 n)));
  ("ipv6.icmp_allow_router_advertisement", LBool (ICMPAllowRouterAdvertisement (IPv6 n)));
  ("ipv6.icmp_allow_neighbor_advertisement", LBool (ICMPAllowNeighborAdvertisement (IPv6 n)));
  ("docker.enabled", LBool (Docker_Enabled (Docker n)));
  ("docker.allow_bridge_networks", LBool (AllowBridgeNetworks (Docker n)));
  ("docker.custom_networks", LSlice (CustomNetworks (Docker n)));
  ("docker.published_ports", LStr (PublishedPorts (Docker n)));
  ("routing.mode", LStr (Routing_Mode (Routing n)));
  ("routing.networks", LSlice (Routing_Networks (Routing n))) ].

(** [skippedConfigKeys] *)
Definition skippedConfigKeys : list string := ["ipv6.enabled"].

(** [formatValue] *)
Definition formatValue (v : leaf) : string :=
  match v with
  | LBool b => if b then "on" else "off"
  | LInt n => Itoa n
  | LStr s => s
  | LSlice [] => "none"
  | LSlice l => Join l ", "
  end.

(** [leafChanged]: a Go slice is a list, so the nil and the empty slice are
    already one value and [reflect.DeepEqual] is equality. *)
Definition leafChanged (b a : leaf) : bool := bool_decide (b ≠ a).

(** [structDeltas] over the leaves of two values of one type. *)
Fixpoint structDeltas (before after : list (string * leaf)) : list ConfigDelta :=
  match before, after with
  | (name, b) :: before, (_, a) :: after =>
      (if bool_decide (name ∈ skippedConfigKeys) then []
       else if leafChanged b a then [mkConfigDelta name (formatValue b) (formatValue a)] else [])
      ++ structDeltas before after
  | _, _ => []
  end.

(** [DiffConfig] *)
Definition DiffConfig (applied live : AppliedConfig) : list ConfigDelta :=
  structDeltas (firewall_leaves (Applied_Firewall applied)) (firewall_leaves (Applied_Firewall live)) ++
  structDeltas (network_leaves (Applied_Network applied)) (network_leaves (Applied_Network live)).

(** A configuration without the one key the drift ignores. *)
Definition drop_legacy (c : AppliedConfig) : AppliedConfig :=
  let n := Applied_Network c in
  let v := IPv6 n in
  mkAppliedConfig (Applied_Firewall c)
    (mkNetworkSettings
       (mkIPv6Config (IPv6_Mode v) false (ICMPAllowRouterAdvertisement v)
                     (ICMPAllowNeighborAdvertisement v))
       (Docker n) (Routing n)).

Lemma structDeltas_nil_cons name b a before after :
  structDeltas ((name, b) :: before) ((name, a) :: after) = [] ↔
  (name ∈ skippedConfigKeys ∨ b = a) ∧ structDeltas before after = [].
Proof.
  simpl. rewrite app_nil. unfold leafChanged.
  repeat case_bool_decide; naive_solver (auto using dec_stable).
Qed.

(** Peel one leaf off the walk. *)
Ltac peel H :=
  let Hs := fresh "Hs" in let Hx := fresh "Hx" in
  apply structDeltas_nil_cons in H as [[Hs|Hx] H];
    [try (exfalso; apply list_elem_of_singleton in Hs; discriminate Hs)|].

Lemma structDeltas_refl l : structDeltas l l = [].
Proof.
  induction l as [|[name v] l IH]; [done|].
  apply structDeltas_nil_cons. split; [by right|done].
Qed.

Lemma firewall_leaves_inj o o' :
  structDeltas (firewall_leaves o) (firewall_leaves o') = [] ↔ o = o'.
Proof.
  split; [|intros ->; apply structDeltas_refl].
  unfold firewall_leaves. intros H. repeat peel H. destruct o, o'. by simplify_eq/=.
Qed.

Lemma network_leaves_inj n n' :
  structDeltas (network_leaves n) (network_leaves n') = [] ↔
  IPv6_Mode (IPv6 n) = IPv6_Mode (IPv6 n') ∧
  ICMPAllowRouterAdvertisement (IPv6 n) = ICMPAllowRouterAdvertisement (IPv6 n') ∧
  ICMPAllowNeighborAdvertisement (IPv6 n) = ICMPAllowNeighborAdvertisement (IPv6 n') ∧
  Docker n = Docker n' ∧ Routing n = Routing n'.
Proof.
  split.
  - unfold network_leaves. intros H. repeat peel H;
      destruct n as [[] [] []], n' as [[] [] []]; by simplify_eq/=.
  - intros (Hm & Hr & Hn & Hd & Hro). unfold network_leaves. rewrite Hm, Hr, Hn, Hd, Hro.
    repeat (apply structDeltas_nil_cons; split;
            [first [right; reflexivity|left; unfold skippedConfigKeys; set_solver]|]). done.
Qed.

Lemma DiffConfig_nil applied live :
  DiffConfig applied live = [] ↔ drop_legacy applied = drop_legacy live.
Proof.
  unfold DiffConfig. rewrite app_nil, firewall_leaves_inj, network_leaves_inj.
  destruct applied as [f [[] ? ?]], live as [f' [[] ? ?]]. unfold drop_legacy. simpl.
  naive_solver.
Qed.

(** ** Properties *)

(** The rule diff is empty exactly when the two rule sets agree on
    everything the preview reports: the details of every port, the address
    lists and feeds as sets, the destination of every redirected port and the
    sequence of custom rules.  So "nothing pending" is independent of comments,
    blank lines, the order of ports and addresses, and repeated list entries,
    and no other difference of these is hidden. *)
Theorem DiffRules_empty_iff_same_view current staged :
  DiffRules current staged = [] ↔ view current = view staged.
Proof. apply DiffRules_nil. Qed.

(** The configuration drift is empty exactly when the applied and the live
    configuration are equal in every option and network setting but the
    pre-2.5.0 spelling [ipv6.enabled]. *)
Theorem DiffConfig_empty_iff_same_config applied live :
  DiffConfig applied live = [] ↔ drop_legacy applied = drop_legacy live.
Proof. apply DiffConfig_nil. Qed.

Lemma CutByte_app sep a b :
  sep ∉ bytes a → CutByte sep (a +:+ String sep b) = Some (a, b).
Proof.
  induction a as [|c a IH]; simpl; [by rewrite Ascii.eqb_refl|].
  rewrite not_elem_of_cons. intros [Hc Ha].
  destruct (Ascii.eqb_spec c sep); [congruence|]. by rewrite IH.
Qed.

Lemma slash_not_in_N x s : "/"%char ∉ bytes s → "/"%char ∉ bytes (pretty_N_go x s).
Proof.
  revert s. induction (N.lt_wf_0 x) as [x _ IH]; intros s Hs.
  destruct (decide (x = 0%N)) as [->|]; [by rewrite pretty_N_go_0|].
  rewrite pretty_N_go_step by lia. apply IH; [apply N.div_lt; lia|].
  simpl. apply not_elem_of_cons. split; [|done].
  unfold pretty_N_char. by repeat case_match.
Qed.

Lemma slash_not_in_Itoa n : "/"%char ∉ bytes (Itoa n).
Proof.
  assert (∀ x : N, "/"%char ∉ bytes (pretty x)) as HN.
  { intros x. unfold pretty, pretty_N. case_decide; [|apply slash_not_in_N].
    - simpl. by rewrite not_elem_of_cons, elem_of_nil; split; [|intros []].
    - apply not_elem_of_nil. }
  unfold Itoa, pretty, pretty_Z. destruct n; [|apply HN|].
  - simpl. by rewrite not_elem_of_cons, elem_of_nil; split; [|intros []].
  - simpl. apply not_elem_of_cons. split; [done|apply HN].
Qed.

(** [forwardID] identifies a redirect by its incoming side: two redirects
    share the key exactly when they have the same port and protocol. *)
Theorem forwardID_injective r r' :
  forwardID r = forwardID r' ↔ SourcePort r = SourcePort r' ∧ Protocol r = Protocol r'.
Proof.
  split; [|intros [H1 H2]; unfold forwardID; by rewrite H1, H2].
  assert (∀ f, CutByte "/"%char (forwardID f) = Some (Itoa (SourcePort f), Protocol f)) as Hcut.
  { intros f. apply CutByte_app, slash_not_in_Itoa. }
  intros H. apply (f_equal (CutByte "/"%char)) in H. rewrite !Hcut in H.
  injection H as H1 ?. split; [|done]. by apply (inj pretty) in H1.
Qed.

(** ** What the details of a port do not distinguish *)

(** Port 22 open to everyone, described as "from 10.0.0.0/8", and port 22
    restricted to 10.0.0.0/8 with no description. *)
Definition open_described : PortRule := mkPortRule "" "22" "from 10.0.0.0/8" false "" [] "".
Definition restricted : PortRule := mkPortRule "" "22" "" false "" ["10.0.0.0/8"] "".

(** The details of a port are one string, so a description can spell the
    same text as a restriction: lifting the source restriction of a port while
    describing it as "from 10.0.0.0/8" is a change of the firewall with an empty
    preview and nothing pending. *)
Theorem portDetail_hides_lifted_restriction :
  ValidateRules (mkRules [restricted] [] [] [] [] [] []) = Ok tt ∧
  ValidateRules (mkRules [open_described] [] [] [] [] [] []) = Ok tt ∧
  source_entries (Sources restricted) ≠ source_entries (Sources open_described) ∧
  DiffRules (mkRules [restricted] [] [] [] [] [] [])
            (mkRules [open_described] [] [] [] [] [] []) = [].
Proof. vm_compute. split_and!; done. Qed.
