(* ===== verification/AuditDetail.v ===== *)
(** * What an audit entry says changed

    [src/internal/shared/audit_detail.go]: the detail of the entries a save
    writes. *)
From S2P Require Import Prelude GoStrings Models Diff.

(** [maxDetailItems] *)
Definition maxDetailItems : nat := 6.

(** [joinCapped] *)
Definition joinCapped (items : list string) : string :=
  if (length items <=? maxDetailItems)%nat then Join items ", "
  else Join (take maxDetailItems items) ", " +:+ " and " +:+
       Itoa (Z.of_nat (length items - maxDetailItems)) +:+ " more".

(** [plural] *)
Definition plural (unit : string) (n : nat) : string :=
  if (n =? 1)%nat then unit else unit +:+ "s".

(** [missingFrom]: the items of [a] that are not in [b]. *)
Definition missingFrom (a b : list string) : list string := filter (λ v, v ∉ b) a.

(** [describeListChange] *)
Definition describeListChange (before after : list string) : string :=
  let added := missingFrom after before in
  let removed := missingFrom before after in
  let parts := (if decide (added = []) then [] else ["added " +:+ joinCapped added]) ++
               (if decide (removed = []) then [] else ["removed " +:+ joinCapped removed]) in
  match parts with [] => "no change" | _ => Join parts ", " end.

(** [describeCountChange] *)
Definition describeCountChange (before after : nat) (unit : string) : string :=
  let n k := Itoa (Z.of_nat k) in
  if (before <? after)%nat then
    n (after - before)%nat +:+ " " +:+ plural unit (after - before) +:+
      " added (" +:+ n after +:+ " total)"
  else if (after <? before)%nat then
    n (before - after)%nat +:+ " " +:+ plural unit (before - after) +:+
      " removed (" +:+ n after +:+ " total)"
  else n after +:+ " " +:+ plural unit after +:+ ", edited in place".

(** [DescribeRuleChange] *)
Definition DescribeRuleChange (ruleType : string) (before after : Rules) : string :=
  if String.eqb ruleType "blocklist" then describeListChange (Blocklist before) (Blocklist after)
  else if String.eqb ruleType "allowlist" then describeListChange (Allowlist before) (Allowlist after)
  else if String.eqb ruleType "feeds" then describeListChange (Feeds before) (Feeds after)
  else if String.eqb ruleType "tcp" then
    describeCountChange (length (TCP before)) (length (TCP after)) "port"
  else if String.eqb ruleType "udp" then
    describeCountChange (length (UDP before)) (length (UDP after)) "port"
  else if String.eqb ruleType "forwarding" then
    describeCountChange (length (Forwarding before)) (length (Forwarding after)) "forward"
  else if String.eqb ruleType "custom" then
    describeCountChange (length (Custom before)) (length (Custom after)) "rule"
  else "".

(** [sort.Strings]: byte order. *)
Definition string_le (a b : string) : Prop := String.leb a b = true.
#[global] Instance string_le_dec a b : Decision (string_le a b).
Proof. unfold string_le. apply _. Defined.

(** The leaves of [SystemSettings]. *)
Definition system_leaves (a : AcceptanceConfig) : list (string * leaf) := [
  ("acceptance.enabled", LBool (Enabled a)); ("acceptance.duration", LInt (Duration a)) ].

(** [DescribeStructChange] *)
Definition DescribeStructChange (before after : list (string * leaf)) : string :=
  match map CD_Key (structDeltas before after) with
  | [] => "no change"
  | keys => "changed " +:+ joinCapped (merge_sort string_le keys)
  end.

(** ** Properties *)

Lemma missingFrom_nil a b : missingFrom a b = [] ↔ ∀ x, x ∈ a → x ∈ b.
Proof.
  unfold missingFrom. rewrite filter_nil_iff. split.
  - intros H x Hx. destruct (decide (x ∈ b)); [done|]. by destruct (H x).
  - intros H x Hx Hn. auto.
Qed.

(** The entry of a list save says "no change" exactly when no entry came or
    went. *)
Theorem describeListChange_no_change before after :
  describeListChange before after = "no change" ↔ ∀ x, x ∈ before ↔ x ∈ after.
Proof.
  unfold describeListChange. cbv zeta.
  assert ((∀ x, x ∈ before ↔ x ∈ after) ↔
    missingFrom after before = [] ∧ missingFrom before after = []) as ->.
  { rewrite !missingFrom_nil. naive_solver. }
  destruct (decide (missingFrom after before = [])), (decide (missingFrom before after = []));
    simpl; split; try tauto; done.
Qed.

Example describe_ex :
  DescribeRuleChange "blocklist" emptyRules
    (mkRules [] [] ["a";"b";"c";"d";"e";"f";"g"] [] [] [] []) =
  "added a, b, c, d, e, f and 1 more".
Proof. reflexivity. Qed.
