(* ===== verification/Acceptance.v ===== *)
(** * The acceptance window

    [src/internal/core/acceptance.go]: the controller that decides whether an
    apply is confirmed.  Every method of the source runs under one mutex, so a
    method is one atomic transition of the record below; [Wait] is two (it
    blocks in a [select] with the lock released and then takes it to read the
    outcome), and so is [CancelForShutdown] (it sets [stopping] and then calls
    [cancel], each under the lock).  The current time is an argument, in
    nanoseconds.

    The two channels are their observable state: [acceptCh] is [None] when nil
    and otherwise whether its one buffered slot is full; [cancelCh] is [None]
    when nil and otherwise whether it is closed.  [Wait] captures the channels
    before it blocks; [Start] is the only method that replaces them and does
    nothing while a window is pending, so the captured channels are the current
    ones. *)
From S2P Require Import Prelude GoStrings Models.

Local Open Scope Z_scope.

Definition ReasonTimeout : string := "timeout".
Definition ReasonOperator : string := "cancelled by operator".
Definition ReasonPanic : string := "panic mode".
Definition ReasonCoreStopped : string := "core stopped".

Record Acceptance := mkAcceptance {
  status : AcceptanceStatus;
  acceptCh : option bool;
  cancelCh : option bool;
  cancelled : bool;
  accepted : bool;
  duration : Z;
  deadline : Time;
  stopping : bool;
  reason : string }.

#[global] Instance Acceptance_eq_dec : EqDecision Acceptance.
Proof. solve_decision. Defined.

(** [time.Now().Before(t)]; the zero time is in the past. *)
Definition Before (now : Z) (t : Time) : bool :=
  match t with Some t => now <? t | None => false end.

(** ** Operations *)

Definition NewAcceptance (d : Z) : Acceptance :=
  mkAcceptance AcceptanceIdle None None false false d None false "".

(** [Start]: idempotent on a pending window; a stopping core opens its window
    already cancelled. *)
Definition Start (now d : Z) (a : Acceptance) : Acceptance :=
  if bool_decide (status a = AcceptancePending) then a
  else
    let dur := if 0 <? d then d else duration a in
    mkAcceptance AcceptancePending (Some false) (Some (stopping a)) (stopping a) false
      dur (Some (now + dur)) (stopping a)
      (if stopping a then ReasonCoreStopped else ReasonTimeout).

(** [Remaining] *)
Definition Remaining (now : Z) (a : Acceptance) : Z :=
  if bool_decide (status a = AcceptancePending) then
    match deadline a with
    | Some t => if 0 <? t - now then t - now else 0
    | None => 0
    end
  else 0.

(** The [select] of [Wait] has a case that can proceed: a closed [cancelCh], a
    token in [acceptCh], or a timer armed from the deadline that has fired. *)
Definition Wait_ready (now : Z) (a : Acceptance) : bool :=
  bool_decide (cancelCh a = Some true) || bool_decide (acceptCh a = Some true) ||
  negb (Before now (deadline a)).

(** What [Wait] does after it wakes: the outcome is what [accepted] says. *)
Definition Wait_finish (a : Acceptance) : bool * Acceptance :=
  (accepted a,
   mkAcceptance (if accepted a then AcceptanceAccepted else AcceptanceRolledBack)
     (acceptCh a) (cancelCh a) (cancelled a) (accepted a) (duration a) (deadline a)
     (stopping a) (reason a)).

(** [cancel] *)
Definition cancel (now : Z) (r : string) (a : Acceptance) : bool * Acceptance :=
  if negb (bool_decide (status a = AcceptancePending)) || cancelled a || accepted a ||
     bool_decide (cancelCh a = None) || negb (Before now (deadline a))
  then (false, a)
  else (true,
    mkAcceptance (status a) (acceptCh a) (Some true) true (accepted a) (duration a)
      (deadline a) (stopping a) (if String.eqb r "" then reason a else r)).

Definition Cancel (now : Z) := cancel now "".
Definition CancelByOperator (now : Z) := cancel now ReasonOperator.
Definition CancelForPanic (now : Z) := cancel now ReasonPanic.

(** The first half of [CancelForShutdown]; the second is
    [cancel now ReasonCoreStopped]. *)
Definition setStopping (a : Acceptance) : Acceptance :=
  mkAcceptance (status a) (acceptCh a) (cancelCh a) (cancelled a) (accepted a)
    (duration a) (deadline a) true (reason a).

Definition CancelForShutdown (now : Z) (a : Acceptance) : Acceptance :=
  snd (cancel now ReasonCoreStopped (setStopping a)).

(** [RecordRolledBack] *)
Definition RecordRolledBack (r : string) (a : Acceptance) : Acceptance :=
  mkAcceptance AcceptanceRolledBack (acceptCh a) (cancelCh a) (cancelled a) (accepted a)
    (duration a) (deadline a) (stopping a) r.

(** [Accept]: the send on [acceptCh] never blocks. *)
Definition Accept (now : Z) (a : Acceptance) : bool * Acceptance :=
  if negb (bool_decide (status a = AcceptancePending)) || cancelled a ||
     negb (Before now (deadline a))
  then (false, a)
  else (true,
    mkAcceptance (status a) ((λ _, true) <$> acceptCh a) (cancelCh a) (cancelled a) true
      (duration a) (deadline a) (stopping a) (reason a)).

(** [Reset] *)
Definition Reset (a : Acceptance) : Acceptance :=
  mkAcceptance AcceptanceIdle (acceptCh a) (cancelCh a) (cancelled a) (accepted a)
    (duration a) (deadline a) (stopping a) (reason a).

(** ** The transition system

    Every call another goroutine can make, with time passing between calls. *)
Inductive op :=
| OpStart (d : Z) | OpAccept | OpCancel (r : string) | OpStopping | OpReset
| OpRecord (r : string) | OpFinish | OpTick (dt : nat).

(** One call at a time: the state and the clock after it, and its answer. *)
Definition call (o : op) (now : Z) (a : Acceptance) : Z * Acceptance * bool :=
  match o with
  | OpStart d => (now, Start now d a, true)
  | OpAccept => let '(b, a) := Accept now a in (now, a, b)
  | OpCancel r => let '(b, a) := cancel now r a in (now, a, b)
  | OpStopping => (now, setStopping a, true)
  | OpReset => (now, Reset a, true)
  | OpRecord r => (now, RecordRolledBack r a, true)
  | OpFinish => let '(b, a) := Wait_finish a in (now, a, b)
  | OpTick dt => (now + Z.of_nat dt, a, true)
  end.

Inductive reachable : Z → Acceptance → Prop :=
| reach_new now d : reachable now (NewAcceptance d)
| reach_call o now a now' a' b :
    reachable now a → call o now a = (now', a', b) → reachable now' a'.

(** The well-formedness of a controller: a window cannot be both accepted and
    cancelled, and a pending one has its channels and its deadline, with each
    channel signalled exactly when its flag is set. *)
Record wf (a : Acceptance) : Prop := {
  wf_excl : accepted a = true → cancelled a = true → False;
  wf_accept : status a = AcceptancePending → acceptCh a = Some (accepted a);
  wf_cancel : status a = AcceptancePending → cancelCh a = Some (cancelled a);
  wf_deadline : status a = AcceptancePending → is_Some (deadline a) }.

Lemma wf_new d : wf (NewAcceptance d).
Proof. by split. Qed.

Lemma wf_call o now a now' a' b : call o now a = (now', a', b) → wf a → wf a'.
Proof.
  intros H [He Ha Hc Hd]. destruct o; simpl in H.
  - simplify_eq. unfold Start. case_bool_decide; [by split|].
    split; simpl; eauto; by intros.
  - unfold Accept in H. destruct (_ || _ || _) eqn:E; simplify_eq; [by split|].
    apply orb_false_iff in E as [E _]. breflect.
    split; simpl; [congruence| |done|done]. intros ?. by rewrite Ha.
  - unfold cancel in H. destruct (_ || _ || _ || _ || _) eqn:E; simplify_eq; [by split|].
    breflect. split; simpl; try done. congruence.
  - simplify_eq. by split.
  - simplify_eq. by split.
  - simplify_eq. by split.
  - simplify_eq. split; simpl; try done; by destruct (accepted a).
  - simplify_eq. by split.
Qed.

Lemma wf_reachable now a : reachable now a → wf a.
Proof. induction 1; [apply wf_new|by eapply wf_call]. Qed.
#[export] Hint Resolve wf_reachable : core.

(** ** The abstract window

    What the controller promises: an open window is decided by the first
    confirmation or cancellation that arrives before its deadline, and by the
    timeout when none does. *)
Inductive verdict := VAccepted | VCancelled (r : string) | VTimeout.

#[global] Instance verdict_eq_dec : EqDecision verdict.
Proof. solve_decision. Defined.

(** The calls other goroutines can make while the window's owner is in [Wait]:
    the owner alone calls [Reset], and the apply slot it holds excludes the
    callers of [RecordRolledBack] and of another [Wait]. *)
Definition window_op (o : op) : Prop :=
  match o with
  | OpAccept | OpCancel _ | OpStopping | OpTick _ | OpStart _ => True
  | OpReset | OpRecord _ | OpFinish => False
  end.

Fixpoint first_decision (dl now : Z) (ops : list op) : verdict :=
  match ops with
  | [] => VTimeout
  | OpTick dt :: ops => first_decision dl (now + Z.of_nat dt) ops
  | OpAccept :: ops => if now <? dl then VAccepted else first_decision dl now ops
  | OpCancel r :: ops => if now <? dl then VCancelled r else first_decision dl now ops
  | _ :: ops => first_decision dl now ops
  end.

Fixpoint run_ops (ops : list op) (now : Z) (a : Acceptance) : Z * Acceptance :=
  match ops with
  | [] => (now, a)
  | o :: ops => let '(now, a, _) := call o now a in run_ops ops now a
  end.

(** The state of a window in terms of its verdict so far. *)
Definition window_state (dl : Z) (v : verdict) (a : Acceptance) : Prop :=
  status a = AcceptancePending ∧ deadline a = Some dl ∧
  acceptCh a = Some (accepted a) ∧ cancelCh a = Some (cancelled a) ∧
  match v with
  | VAccepted => accepted a = true ∧ cancelled a = false
  | VCancelled r =>
      accepted a = false ∧ cancelled a = true ∧
      reason a = (if String.eqb r "" then ReasonTimeout else r)
  | VTimeout => accepted a = false ∧ cancelled a = false ∧ reason a = ReasonTimeout
  end.

(** A decided window keeps its decision under every call. *)
Lemma window_decided dl v ops now a now' a' :
  v ≠ VTimeout → Forall window_op ops → window_state dl v a →
  run_ops ops now a = (now', a') → window_state dl v a'.
Proof.
  intros Hv Hops. revert now a. induction Hops as [|o ops Ho _ IH]; intros now a Hw Hr.
  { by simplify_eq/=. }
  simpl in Hr. destruct (call o now a) as [[now1 a1] b] eqn:Hc.
  apply (IH now1 a1); [|done]. clear IH Hr.
  destruct Hw as (Hs & Hd & Hac & Hcc & Hdec).
  destruct o; try done; simpl in Hc.
  - unfold Start in Hc. rewrite Hs in Hc. by simplify_eq/=.
  - unfold Accept in Hc. destruct (_ || _ || _) eqn:E; simplify_eq/=; [done|].
    breflect. destruct v; destruct_and?; [|congruence|done].
    unfold window_state. simpl. by rewrite Hac.
  - unfold cancel in Hc. destruct (_ || _ || _ || _ || _) eqn:E; simplify_eq/=; [done|].
    breflect. destruct v; destruct_and?; congruence.
  - by simplify_eq/=.
  - by simplify_eq/=.
Qed.

(** An undecided window follows the abstract one. *)
Lemma window_run dl ops now a now' a' :
  Forall window_op ops → window_state dl VTimeout a →
  run_ops ops now a = (now', a') → window_state dl (first_decision dl now ops) a'.
Proof.
  intros Hops. revert now a. induction Hops as [|o ops Ho Hops IH]; intros now a Hw Hr.
  { by simplify_eq/=. }
  simpl in Hr. destruct (call o now a) as [[now1 a1] b] eqn:Hc.
  pose proof Hw as (Hs & Hd & Hac & Hcc & Ha & Hcn & Hre).
  destruct o; try done; simpl in Hc |- *.
  - unfold Start in Hc. rewrite Hs in Hc. simplify_eq/=. by apply (IH now1 a1).
  - unfold Accept in Hc. rewrite Hs, Hcn, Hd in Hc. simpl in Hc.
    destruct (now <? dl); simplify_eq/=; [|by apply (IH now1 a1)].
    eapply window_decided; [|done| |done]; [done|].
    unfold window_state. simpl. rewrite Hac, Hcc, Hcn. done.
  - unfold cancel in Hc. rewrite Hs, Hcn, Ha, Hd, Hcc in Hc. simpl in Hc.
    destruct (now <? dl); simplify_eq/=; [|by apply (IH now1 a1)].
    eapply window_decided; [|done| |done]; [done|].
    unfold window_state. simpl. rewrite Hre. split_and!; congruence.
  - simplify_eq/=. by apply (IH now1 (setStopping a)).
  - simplify_eq/=. by apply (IH (now + Z.of_nat dt) a1).
Qed.

Lemma Start_window now d a :
  status a ≠ AcceptancePending → stopping a = false →
  window_state (now + if 0 <? d then d else duration a) VTimeout (Start now d a).
Proof.
  intros Hs Hst. unfold Start. rewrite bool_decide_eq_false_2 by done.
  by rewrite Hst.
Qed.

(** ** Properties *)

(** C8: the window refines its abstract specification.  Whatever sequence of
    confirmations, cancellations, shutdown marks, repeated starts and delays
    other goroutines interleave, [Wait] answers true exactly when the first
    confirmation or cancellation before the deadline was a confirmation; the
    status then says so, and on a rollback the reason is the one of the
    cancellation that ended the window, or the timeout when none did. *)
Theorem Wait_returns_first_decision now d a ops now' a' :
  status a ≠ AcceptancePending → stopping a = false →
  Forall window_op ops → run_ops ops now (Start now d a) = (now', a') →
  let dl := now + (if 0 <? d then d else duration a) in
  let v := first_decision dl now ops in
  let '(answer, a'') := Wait_finish a' in
  answer = bool_decide (v = VAccepted) ∧
  status a'' = (if answer then AcceptanceAccepted else AcceptanceRolledBack) ∧
  (v = VTimeout → reason a'' = ReasonTimeout) ∧
  (∀ r, v = VCancelled r → r ≠ "" → reason a'' = r).
Proof.
  intros Hs Hst Hops Hrun dl v.
  pose proof (window_run dl ops now _ now' a' Hops (Start_window now d a Hs Hst) Hrun) as Hw.
  fold v in Hw. destruct Hw as (_ & _ & _ & _ & Hdec). unfold Wait_finish. simpl.
  destruct v as [|r|]; simpl in *.
  - destruct Hdec as [-> _]. done.
  - destruct Hdec as (-> & _ & Hre). split_and!; try done.
    intros r' [= <-] Hne. rewrite Hre. by destruct (String.eqb_spec r "").
  - destruct Hdec as (-> & _ & Hre). done.
Qed.

Lemma Wait_returns_first_decision_witness :
  fst (Wait_finish (snd (run_ops [OpTick 5; OpCancel ReasonOperator; OpAccept] 0
                          (Start 0 10 (NewAcceptance 3))))) = false.
Proof.
  pose proof (Wait_returns_first_decision 0 10 (NewAcceptance 3)
    [OpTick 5; OpCancel ReasonOperator; OpAccept] _ _
    ltac:(discriminate) eq_refl ltac:(repeat constructor) eq_refl) as H.
  simpl in H |- *. exact (proj1 H).
Defined.

(** C40: an open window ends.  The [select] in [Wait] has a ready case as soon as
    the window is decided and in any case once its deadline has passed, and
    before that it blocks; so the window closes no later than the deadline. *)
Theorem Wait_wakes_by_deadline now d a ops now' a' :
  status a ≠ AcceptancePending → stopping a = false →
  Forall window_op ops → run_ops ops now (Start now d a) = (now', a') →
  let dl := now + (if 0 <? d then d else duration a) in
  Wait_ready now' a' = true ↔ (first_decision dl now ops ≠ VTimeout ∨ dl <= now').
Proof.
  intros Hs Hst Hops Hrun dl.
  pose proof (window_run dl ops now _ now' a' Hops (Start_window now d a Hs Hst) Hrun)
    as (_ & Hd & Hac & Hcc & Hdec).
  unfold Wait_ready. rewrite Hd, Hac, Hcc. simpl.
  destruct (first_decision dl now ops); simpl in Hdec.
  - destruct Hdec as [-> ->]. simpl. naive_solver.
  - destruct Hdec as (-> & -> & _). simpl. naive_solver.
  - destruct Hdec as (-> & -> & _). simpl.
    rewrite negb_true_iff, Z.ltb_ge. naive_solver.
Qed.

Lemma Wait_wakes_by_deadline_witness :
  Wait_ready 10 (snd (run_ops [OpTick 10] 0 (Start 0 10 (NewAcceptance 3)))) = true ↔
  (first_decision 10 0 [OpTick 10] ≠ VTimeout ∨ 10 <= 10).
Proof.
  exact (Wait_wakes_by_deadline 0 10 (NewAcceptance 3) [OpTick 10] 10 _
    ltac:(discriminate) eq_refl ltac:(repeat constructor) eq_refl).
Defined.

(** An answer is a promise.  A confirmation that was
    answered "accepted" cannot be undone by a cancellation and a cancellation
    that was answered "cancelled" cannot be undone by a confirmation: after
    either, the opposite call answers false for the rest of the window, and
    neither is answered after the deadline or with no window open. *)
Theorem answers_are_final now a r :
  (fst (Accept now a) = true → ∀ now', fst (cancel now' r (snd (Accept now a))) = false) ∧
  (fst (cancel now r a) = true → ∀ now', fst (Accept now' (snd (cancel now r a))) = false) ∧
  (status a ≠ AcceptancePending ∨ Before now (deadline a) = false →
     fst (Accept now a) = false ∧ fst (cancel now r a) = false).
Proof.
  unfold Accept, cancel. split_and!.
  - destruct (_ || _ || _) eqn:E; [done|]. intros _ now'. simpl.
    by rewrite !orb_true_r.
  - destruct (_ || _ || _ || _ || _) eqn:E; [done|]. intros _ now'. simpl.
    by rewrite !orb_true_r.
  - intros [Hs|Hb].
    + by rewrite !(bool_decide_eq_false_2 _ Hs).
    + rewrite Hb. by rewrite !orb_true_r.
Qed.

Lemma answers_are_final_witness :
  fst (cancel 5 ReasonPanic (snd (Accept 4 (Start 0 10 (NewAcceptance 3))))) = false.
Proof.
  exact (proj1 (answers_are_final 4 (Start 0 10 (NewAcceptance 3)) ReasonPanic) eq_refl 5).
Defined.

(** Shutdown latches.  Once [CancelForShutdown] has run, a window that opens
    later opens cancelled: [Wait] wakes at once and answers false, no
    confirmation is taken, and the reason recorded is the core stopping. *)
Theorem shutdown_cancels_later_windows now t d a ops now' a' :
  status a ≠ AcceptancePending → Forall window_op ops →
  run_ops ops t (Start t d (CancelForShutdown now a)) = (now', a') →
  Wait_ready now' a' = true ∧ fst (Wait_finish a') = false ∧
  fst (Accept now' a') = false ∧ reason a' = ReasonCoreStopped.
Proof.
  intros Hs Hops Hrun.
  assert (CancelForShutdown now a = setStopping a) as Hc.
  { unfold CancelForShutdown, cancel. simpl. by rewrite (bool_decide_eq_false_2 _ Hs). }
  rewrite Hc in Hrun.
  assert (window_state (t + if 0 <? d then d else duration a) (VCancelled ReasonCoreStopped)
            (Start t d (setStopping a))) as Hw.
  { unfold Start. simpl. rewrite (bool_decide_eq_false_2 _ Hs). done. }
  eapply window_decided in Hw as (Hst & Hd & Hac & Hcc & Ha & Hcn & Hre); [|done|done|done].
  unfold Wait_ready, Accept, Wait_finish. rewrite Hcc, Ha, Hcn, Hre. simpl.
  by rewrite orb_true_r.
Qed.

Lemma shutdown_cancels_later_windows_witness :
  fst (Wait_finish (snd (run_ops [OpAccept] 7 (Start 7 10 (CancelForShutdown 5 (NewAcceptance 3))))))
  = false.
Proof.
  exact (proj1 (proj2 (shutdown_cancels_later_windows 5 7 10 (NewAcceptance 3) [OpAccept] _ _
    ltac:(discriminate) ltac:(repeat constructor) eq_refl))).
Defined.

(** The remaining time is never negative, is zero without an open window,
    and otherwise never exceeds what is left until the deadline the timer fires
    at. *)
Theorem Remaining_bounds now a :
  reachable now a →
  0 <= Remaining now a ∧
  (status a ≠ AcceptancePending → Remaining now a = 0) ∧
  (status a = AcceptancePending →
     ∃ t, deadline a = Some t ∧ Remaining now a = Z.max 0 (t - now) ∧
          (Remaining now a = 0 ↔ Before now (deadline a) = false)).
Proof.
  intros Hr. unfold Remaining. split_and!.
  - repeat case_match; breflect; lia.
  - intros Hs. by rewrite bool_decide_eq_false_2.
  - intros Hs. rewrite bool_decide_eq_true_2 by done.
    destruct (wf_deadline _ (wf_reachable _ _ Hr) Hs) as [t ->]. exists t.
    split; [done|]. simpl. rewrite Z.ltb_ge.
    destruct (0 <? t - now) eqn:E; breflect; split; lia.
Qed.

Lemma Remaining_bounds_witness : 0 <= Remaining 3 (NewAcceptance 5).
Proof. exact (proj1 (Remaining_bounds 3 (NewAcceptance 5) (reach_new 3 5))). Defined.
