(* ===== verification/RulesStore.v ===== *)
(** * The rules store

    [src/internal/core/rules.go], the store: one file holding three rule sets.
    Every exported method takes the store's mutex for its whole
    read-modify-write, so it is one function from the file to the file.  The
    outcome of each system call is an argument: whether the read succeeds and at
    which step of temp-write-close-rename the write fails.

    The file holds the typed document: [encoding/json] writes and reads back
    what the process stores in it (lists, where Go's nil and empty slices are
    one value).  A payload that arrives as JSON is what it decodes to at each of
    the three types [SaveStaged] decodes at. *)
From S2P Require Import Prelude GoStrings Models RuleID FeedIDs Validate Diff.

Local Open Scope Z_scope.

(** What is at the store's path. *)
Inductive RulesFile := RFMissing | RFGarbage | RFDoc (s : RulesState).

#[global] Instance RulesFile_eq_dec : EqDecision RulesFile.
Proof. solve_decision. Defined.

(** Where [save] stops. *)
Inductive save_io := SaveOk | SaveCreate | SaveWrite | SaveClose | SaveRename.

Record StoreIO := mkStoreIO { read_ok : bool; write_io : save_io }.
Definition io_ok : StoreIO := mkStoreIO true SaveOk.

Inductive StoreError :=
| ErrRead                          (* os.ReadFile failed *)
| ErrParse                         (* json.Unmarshal of the file failed *)
| ErrSave (stage : save_io)
| ErrDecode                        (* the payload is not of the rule type *)
| ErrUnknownType (ruleType : string)
| ErrInvalid (e : ValidationError)
| ErrUnreachable                   (* stat failed with something but ENOENT *)
| ErrBackfill (e : StoreError)
| ErrDraws.                        (* the model's list of random draws ran out *)

Abbreviation store A := (result StoreError A).

(** [RulesStore.getState] *)
Definition getState (io : StoreIO) (f : RulesFile) : store RulesState :=
  if read_ok io then
    match f with
    | RFMissing => Err ErrRead
    | RFGarbage => Err ErrParse
    | RFDoc s => Ok s
    end
  else Err ErrRead.

(** [RulesStore.save]: the temporary file is renamed over the path as the last
    step, so a failure at any step leaves the path as it was. *)
Definition save (io : StoreIO) (s : RulesState) (f : RulesFile) : store unit * RulesFile :=
  match write_io io with
  | SaveOk => (Ok tt, RFDoc s)
  | stage => (Err (ErrSave stage), f)
  end.

(** Read, compute, write: the shape of every mutation. *)
Definition modify (io : StoreIO) (g : RulesState → store RulesState) (f : RulesFile)
    : store unit * RulesFile :=
  match getState io f with
  | Err e => (Err e, f)
  | Ok s =>
      match g s with
      | Err e => (Err e, f)
      | Ok s' => save io s' f
      end
  end.

Definition set_Current (r : Rules) (s : RulesState) := mkRulesState r (Staged s) (Backup s).
Definition set_Staged (r : Rules) (s : RulesState) := mkRulesState (Current s) r (Backup s).
Definition set_Backup (r : Rules) (s : RulesState) := mkRulesState (Current s) (Staged s) r.

(** [GetState], [BackupCurrent], [PromoteStaged], [Rollback] *)
Definition GetState := getState.
Definition BackupCurrent (io : StoreIO) : RulesFile → store unit * RulesFile :=
  modify io (λ s, Ok (set_Backup (Current s) s)).
Definition PromoteStaged (io : StoreIO) : RulesFile → store unit * RulesFile :=
  modify io (λ s, Ok (set_Current (Staged s) s)).
Definition Rollback (io : StoreIO) : RulesFile → store unit * RulesFile :=
  modify io (λ s, Ok (set_Current (Backup s) s)).

(** [HasPendingChanges] *)
Definition HasPendingChanges (io : StoreIO) (f : RulesFile) : store bool :=
  let? s := getState io f in
  Ok (bool_decide (DiffRules (Current s) (Staged s) ≠ [])).

(** What a JSON payload decodes to as [[]PortRule], [[]string] and
    [[]ForwardingRule]. *)
Record Payload := mkPayload {
  as_ports : option (list PortRule);
  as_strings : option (list string);
  as_forwards : option (list ForwardingRule) }.

Definition decoded {A} (o : option A) : store A :=
  match o with Some a => Ok a | None => Err ErrDecode end.

(** The switch of [SaveStaged]. *)
Definition put_list (ruleType : string) (p : Payload) (r : Rules) : store Rules :=
  if String.eqb ruleType "tcp" then
    let? v := decoded (as_ports p) in
    Ok (mkRules v (UDP r) (Blocklist r) (Allowlist r) (Forwarding r) (Custom r) (Feeds r))
  else if String.eqb ruleType "udp" then
    let? v := decoded (as_ports p) in
    Ok (mkRules (TCP r) v (Blocklist r) (Allowlist r) (Forwarding r) (Custom r) (Feeds r))
  else if String.eqb ruleType "blocklist" then
    let? v := decoded (as_strings p) in
    Ok (mkRules (TCP r) (UDP r) v (Allowlist r) (Forwarding r) (Custom r) (Feeds r))
  else if String.eqb ruleType "allowlist" then
    let? v := decoded (as_strings p) in
    Ok (mkRules (TCP r) (UDP r) (Blocklist r) v (Forwarding r) (Custom r) (Feeds r))
  else if String.eqb ruleType "feeds" then
    let? v := decoded (as_strings p) in
    Ok (mkRules (TCP r) (UDP r) (Blocklist r) (Allowlist r) (Forwarding r) (Custom r) v)
  else if String.eqb ruleType "forwarding" then
    let? v := decoded (as_forwards p) in
    Ok (mkRules (TCP r) (UDP r) (Blocklist r) (Allowlist r) v (Custom r) (Feeds r))
  else if String.eqb ruleType "custom" then
    let? v := decoded (as_strings p) in
    Ok (mkRules (TCP r) (UDP r) (Blocklist r) (Allowlist r) (Forwarding r) v (Feeds r))
  else Err (ErrUnknownType ruleType).

(** Ids first, validation second: the tail every write path shares. *)
Definition ensured (draws : list Draw) (r : Rules) : store (Rules * bool * list Draw) :=
  match EnsureRuleIDs r draws with Some x => Ok x | None => Err ErrDraws end.

Definition storable (draws : list Draw) (r : Rules) : store Rules :=
  let? (r', _, _) := ensured draws r in
  let? _ := rmap_err ErrInvalid (ValidateRules r') in
  Ok r'.

(** [SaveStaged] *)
Definition SaveStaged (io : StoreIO) (draws : list Draw) (ruleType : string) (p : Payload)
    : RulesFile → store unit * RulesFile :=
  modify io (λ s,
    let? r := put_list ruleType p (Staged s) in
    let? r' := storable draws r in
    Ok (set_Staged r' s)).

(** [ExportStaged] *)
Definition ExportStaged (io : StoreIO) (f : RulesFile) : store Rules :=
  let? s := getState io f in Ok (Staged s).

(** [ImportRules]: decoding, ids and validation come before the file is read. *)
Definition ImportRules (io : StoreIO) (draws : list Draw) (data : option Rules) (f : RulesFile)
    : store unit * RulesFile :=
  match (let? r := decoded data in storable draws r) with
  | Err e => (Err e, f)
  | Ok r' => modify io (λ s, Ok (set_Staged r' s)) f
  end.

(** [emptyState] *)
Definition emptyState : RulesState := mkRulesState emptyRules emptyRules emptyRules.

(** The body of [backfillIDs]: all three sets are repaired, whichever changed. *)
Definition backfill (draws : list Draw) (s : RulesState) : store (RulesState * bool) :=
  let? (cur, c1, ds1) := ensured draws (Current s) in
  let? (stg, c2, ds2) := ensured ds1 (Staged s) in
  let? (bak, c3, _) := ensured ds2 (Backup s) in
  Ok (mkRulesState cur stg bak, c3 || (c2 || c1)).

(** [backfillIDs] *)
Definition backfillIDs (io : StoreIO) (draws : list Draw) (f : RulesFile)
    : store unit * RulesFile :=
  match getState io f with
  | Err e => (Err (ErrBackfill e), f)
  | Ok s =>
      match backfill draws s with
      | Err e => (Err (ErrBackfill e), f)
      | Ok (_, false) => (Ok tt, f)
      | Ok (s', true) =>
          let '(r, f') := save io s' f in (rmap_err ErrBackfill r, f')
      end
  end.

(** [NewRulesStore]: [stat_ok] is whether [os.Stat] answers at all, a missing
    file aside; [io0] is the I/O of the first write, [io] of the backfill. *)
Definition NewRulesStore (stat_ok : bool) (io0 io : StoreIO) (draws : list Draw) (f : RulesFile)
    : store unit * RulesFile :=
  if negb stat_ok then (Err ErrUnreachable, f)
  else match f with
       | RFMissing =>
           match save io0 emptyState f with
           | (Ok _, f') => backfillIDs io draws f'
           | (Err e, f') => (Err e, f')
           end
       | _ => backfillIDs io draws f
       end.

(** ** Lemmas *)

Lemma save_Ok io s f u f' : save io s f = (Ok u, f') → f' = RFDoc s.
Proof. unfold save. destruct (write_io io); naive_solver. Qed.

Lemma save_Err io s f e f' : save io s f = (Err e, f') → f' = f.
Proof. unfold save. destruct (write_io io); naive_solver. Qed.

(** A mutation that fails leaves the file alone; one that succeeds writes what
    it computed from the document it read. *)
Lemma modify_Err io g f e f' : modify io g f = (Err e, f') → f' = f.
Proof.
  unfold modify. destruct (getState io f); [|naive_solver].
  destruct (g a); [apply save_Err|naive_solver].
Qed.

Lemma modify_Ok io g f u f' :
  modify io g f = (Ok u, f') → ∃ s s', f = RFDoc s ∧ g s = Ok s' ∧ f' = RFDoc s'.
Proof.
  unfold modify, getState. destruct (read_ok io); [|done].
  destruct f as [| |s]; try done. destruct (g s) as [s'|] eqn:E; [|done].
  intros ->%save_Ok. eauto.
Qed.

Lemma modify_io_ok g s s' : g s = Ok s' → modify io_ok g (RFDoc s) = (Ok tt, RFDoc s').
Proof. intros H. unfold modify. simpl. by rewrite H. Qed.

Lemma storable_Ok draws r r' :
  storable draws r = Ok r' → ValidRules r' ∧ ids_ok r' ∧ same_but_ids r r'.
Proof.
  unfold storable, ensured. destruct (EnsureRuleIDs r draws) as [[[r1 ch] ds]|] eqn:E; [|done].
  simpl. destruct (ValidateRules r1) as [[]|] eqn:V; [|done]. intros [= <-].
  apply ValidateRules_spec in V. by apply EnsureRuleIDs_spec in E as [? ?].
Qed.

Lemma storable_id draws r : ValidRules r → ids_ok r → storable draws r = Ok r.
Proof.
  intros HV Hid. unfold storable, ensured. rewrite EnsureRuleIDs_id by done. simpl.
  apply ValidateRules_spec in HV. by rewrite HV.
Qed.

Lemma ensured_Ok draws r r' c ds :
  ensured draws r = Ok (r', c, ds) →
  ids_ok r' ∧ same_but_ids r r' ∧ (c = false → r' = r).
Proof.
  unfold ensured. destruct (EnsureRuleIDs r draws) as [[[r1 ch] ds1]|] eqn:E; [|done].
  intros [= -> -> ->]. pose proof (EnsureRuleIDs_spec _ _ _ _ _ E) as [? ?].
  split_and!; [done|done|]. intros ->. by eapply EnsureRuleIDs_changed.
Qed.

Lemma ensured_id draws r : ids_ok r → ensured draws r = Ok (r, false, draws).
Proof. intros H. unfold ensured. by rewrite EnsureRuleIDs_id. Qed.

(** All three sets have good ids. *)
Definition state_ids_ok (s : RulesState) : Prop :=
  ids_ok (Current s) ∧ ids_ok (Staged s) ∧ ids_ok (Backup s).

Lemma backfill_Ok draws s s' c :
  backfill draws s = Ok (s', c) →
  state_ids_ok s' ∧ same_but_ids (Current s) (Current s') ∧
  same_but_ids (Staged s) (Staged s') ∧ same_but_ids (Backup s) (Backup s') ∧
  (c = false → s' = s).
Proof.
  unfold backfill. destruct (ensured draws (Current s)) as [[[cur c1] ds1]|] eqn:E1; [|done].
  simpl. destruct (ensured ds1 (Staged s)) as [[[stg c2] ds2]|] eqn:E2; [|done].
  simpl. destruct (ensured ds2 (Backup s)) as [[[bak c3] ds3]|] eqn:E3; [|done].
  simpl. intros [= <- <-].
  apply ensured_Ok in E1 as (? & ? & Hcur). apply ensured_Ok in E2 as (? & ? & Hstg).
  apply ensured_Ok in E3 as (? & ? & Hbak). split_and!; try done.
  intros Hc. breflect. destruct s; simpl in *. by rewrite Hcur, Hstg, Hbak.
Qed.

Lemma backfill_id draws s : state_ids_ok s → backfill draws s = Ok (s, false).
Proof.
  intros (H1 & H2 & H3). unfold backfill.
  rewrite ensured_id by done. simpl. rewrite ensured_id by done. simpl.
  rewrite ensured_id by done. simpl. by destruct s.
Qed.

Lemma NewRulesStore_doc io0 io draws s :
  NewRulesStore true io0 io draws (RFDoc s) = backfillIDs io draws (RFDoc s).
Proof. done. Qed.

(** ** Properties *)

(** Saving one list touches only the staged set, and only with something
    storable.  On success the applied and the backup set are as before, and the
    staged set is the previous one with that list replaced, up to the ids that
    were missing, malformed or repeated, and is a valid rule set with good ids.
    On any error, whichever step failed, the file is as before. *)
Theorem SaveStaged_stages_only_valid_rules io draws ty p s res f' :
  SaveStaged io draws ty p (RFDoc s) = (res, f') →
  match res with
  | Err _ => f' = RFDoc s
  | Ok _ => ∃ r r', put_list ty p (Staged s) = Ok r ∧ f' = RFDoc (set_Staged r' s) ∧
              same_but_ids r r' ∧ ids_ok r' ∧ ValidRules r'
  end.
Proof.
  intros H. destruct res as [u|e]; [|by eapply modify_Err].
  apply modify_Ok in H as (s1 & s2 & [= <-] & Hg & ->).
  destruct (put_list ty p (Staged s)) as [r|] eqn:Hp; [|done]. simpl in Hg.
  destruct (storable draws r) as [r'|] eqn:Ha; [|done]. simpl in Hg.
  injection Hg as <-. apply storable_Ok in Ha as (? & ? & ?). eauto 10.
Qed.

Lemma SaveStaged_stages_only_valid_rules_witness :
  ∃ f', SaveStaged io_ok [draw_a] "tcp" (mkPayload (Some [port_rule "" "443"]) None None)
          (RFDoc emptyState) = (Ok tt, f') ∧
  ∃ r r', put_list "tcp" (mkPayload (Some [port_rule "" "443"]) None None)
            (Staged emptyState) = Ok r ∧
          f' = RFDoc (set_Staged r' emptyState) ∧ ValidRules r'.
Proof.
  eexists. split; [vm_compute; reflexivity|].
  destruct (SaveStaged_stages_only_valid_rules io_ok [draw_a] "tcp"
    (mkPayload (Some [port_rule "" "443"]) None None) emptyState (Ok tt)
    (RFDoc (mkRulesState emptyRules (mkRules [port_rule "010203040506" "443"] [] [] [] [] [] [])
              emptyRules)) ltac:(vm_compute; reflexivity))
    as (r & r' & H1 & H2 & _ & _ & H3).
  exists r, r'. exact (conj H1 (conj H2 H3)).
Defined.

(** Export and import round-trip.  A staged set that was stored through the
    store's own write paths, exported and imported on the same or on another
    installation, is staged there exactly as it was, ids included, and the
    applied and backup sets of that installation are not touched. *)
Theorem import_of_export_restores_staged s r draws t :
  ExportStaged io_ok (RFDoc s) = Ok r → ValidRules r → ids_ok r →
  ImportRules io_ok draws (Some r) (RFDoc t) =
    (Ok tt, RFDoc (mkRulesState (Current t) (Staged s) (Backup t))).
Proof.
  intros Hex HV Hid. injection Hex as <-. unfold ImportRules. simpl.
  rewrite storable_id by done. by apply modify_io_ok.
Qed.

Lemma import_of_export_restores_staged_witness :
  ImportRules io_ok [] (Some emptyRules) (RFDoc emptyState) =
    (Ok tt, RFDoc (mkRulesState emptyRules emptyRules emptyRules)).
Proof.
  apply (import_of_export_restores_staged emptyState emptyRules [] emptyState eq_refl).
  - apply ValidateRules_spec. reflexivity.
  - split; constructor.
Defined.

(** Opening the store gives every rule an id once.  When it succeeds on a
    file that holds a document, all three sets have well-formed, distinct ids
    and nothing but ids changed; a second start changes nothing, so an id
    survives restarts.  When it fails the file is as before. *)
Theorem NewRulesStore_backfills_once io0 io draws s res f' :
  NewRulesStore true io0 io draws (RFDoc s) = (res, f') →
  match res with
  | Err _ => f' = RFDoc s
  | Ok _ => ∃ s', f' = RFDoc s' ∧ state_ids_ok s' ∧
      same_but_ids (Current s) (Current s') ∧ same_but_ids (Staged s) (Staged s') ∧
      same_but_ids (Backup s) (Backup s') ∧
      ∀ io0' io' draws', read_ok io' = true →
        NewRulesStore true io0' io' draws' (RFDoc s') = (Ok tt, RFDoc s')
  end.
Proof.
  rewrite NewRulesStore_doc.
  unfold backfillIDs, getState. destruct (read_ok io); [|intros ?; by simplify_eq].
  destruct (backfill draws s) as [[s' c]|] eqn:Hb; [|intros ?; by simplify_eq].
  apply backfill_Ok in Hb as (Hok & H1 & H2 & H3 & Hc).
  assert (∀ io0' io' draws', read_ok io' = true →
        NewRulesStore true io0' io' draws' (RFDoc s') = (Ok tt, RFDoc s')) as Hagain.
  { intros io0' io' draws' Hr. rewrite NewRulesStore_doc.
    unfold backfillIDs, getState. by rewrite Hr, backfill_id. }
  destruct c.
  - destruct (save io s' (RFDoc s)) as [r f1] eqn:Hs. intros ?; simplify_eq.
    destruct r; simpl; [apply save_Ok in Hs as ->; by eauto 10|by apply save_Err in Hs].
  - intros ?; simplify_eq. rewrite Hc in * by done. eauto 10.
Qed.

Lemma NewRulesStore_backfills_once_witness :
  ∃ s', RFDoc emptyState = RFDoc s' ∧ state_ids_ok s'.
Proof.
  destruct (NewRulesStore_backfills_once io_ok io_ok [] emptyState (Ok tt) (RFDoc emptyState)
              ltac:(vm_compute; reflexivity)) as (s' & H & Hok & _).
  exists s'. exact (conj H Hok).
Defined.

(** The three states do what their names say.  Backing up, promoting and
    rolling back puts the enforced set back exactly and keeps the operator's
    staged edits. *)
Theorem backup_promote_rollback s :
  ∃ f1 f2, BackupCurrent io_ok (RFDoc s) = (Ok tt, f1) ∧
    PromoteStaged io_ok f1 = (Ok tt, f2) ∧
    GetState io_ok f2 = Ok (mkRulesState (Staged s) (Staged s) (Current s)) ∧
    Rollback io_ok f2 = (Ok tt, RFDoc (mkRulesState (Current s) (Staged s) (Current s))).
Proof. by do 2 eexists. Qed.
