(* ===== verification/AuditLog.v ===== *)
(** * The audit log

    [src/internal/core/rules.go], [WriteAuditLog] and [rotateAuditLogIfLarge]:
    an append-only file of one JSON object per line, cut down to its newest half
    once it grows past a bound.  The file is its bytes.  The encoded entry and
    the encoded rotation marker are arguments: [encoding/json] writes an object
    on one line, which is the hypothesis [no_newline] where it matters. *)
From S2P Require Import Prelude GoStrings Models.

Local Open Scope Z_scope.

Definition newline : ascii := mkbyte 10.
Definition no_newline (l : list ascii) : Prop := newline ∉ l.

(** The rest of [l] after its first newline; [l] itself when it has none. *)
Fixpoint after_newline (l : list ascii) : option (list ascii) :=
  match l with
  | [] => None
  | c :: l => if Ascii.eqb c newline then Some l else after_newline l
  end.
Definition from_line_start (l : list ascii) : list ascii := default l (after_newline l).

Section log.
(** [auditLogMaxBytes], and the encoded [audit_rotated] entry for the number
    of bytes dropped. *)
Context (maxBytes : nat) (marker : nat → list ascii).

(** [rotateAuditLogIfLarge]; [io] is whether every system call of a rotation
    succeeds, any failure leaving the file as it was. *)
Definition rotateAuditLogIfLarge (io : bool) (file : list ascii) : list ascii :=
  let size := length file in
  if (size <? maxBytes)%nat || negb io then file
  else
    let keep := (maxBytes / 2)%nat in
    let tail := from_line_start (drop (size - keep) file) in
    tail ++ marker (size - length tail) ++ [newline].

(** [WriteAuditLog]: rotate, then append one line; [io] of the append. *)
Definition WriteAuditLog (io_rotate io : bool) (line file : list ascii) : list ascii :=
  let file := rotateAuditLogIfLarge io_rotate file in
  if io then file ++ line ++ [newline] else file.

(** A log of whole lines. *)
Definition of_lines (ls : list (list ascii)) : list ascii :=
  concat (map (λ l, l ++ [newline]) ls).

Lemma after_newline_app l r : no_newline l → after_newline (l ++ newline :: r) = Some r.
Proof using.
  unfold no_newline. induction l as [|c l IH]; simpl.
  - done.
  - rewrite not_elem_of_cons. intros [Hc Hl].
    destruct (Ascii.eqb_spec c newline); [congruence|]. auto.
Qed.

(** Cutting a log of whole lines anywhere and going to the next line start
    leaves whole lines, the newest ones. *)
Lemma cut_lines n ls :
  Forall no_newline ls →
  ∃ ls', ls' `suffix_of` ls ∧ from_line_start (drop n (of_lines ls)) = of_lines ls'.
Proof using.
  intros HF. revert n. induction HF as [|l ls Hl HF IH]; intros n.
  { exists []. split; [done|]. unfold of_lines. simpl. by rewrite drop_nil. }
  unfold of_lines in *. simpl. rewrite <- (app_assoc l [newline]). simpl.
  destruct (decide (n ≤ length l)%nat) as [Hn|Hn].
  - exists ls. split; [by apply suffix_cons_r|].
    rewrite drop_app_le by done. unfold from_line_start.
    rewrite after_newline_app; [done|].
    unfold no_newline in *. intros Hin. apply Hl.
    rewrite <- (take_drop n l). apply elem_of_app. by right.
  - destruct (IH (n - length l - 1)%nat) as (ls' & Hs & He). exists ls'.
    split; [by apply suffix_cons_r|]. rewrite drop_app_ge by lia.
    replace (n - length l)%nat with (S (n - length l - 1))%nat by lia. done.
Qed.

Lemma of_lines_app ls ls' : of_lines (ls ++ ls') = of_lines ls ++ of_lines ls'.
Proof using. unfold of_lines. by rewrite map_app, concat_app. Qed.

Lemma of_lines_one l : of_lines [l] = l ++ [newline].
Proof using. unfold of_lines. simpl. by rewrite app_nil_r. Qed.

Lemma from_line_start_length l : (length (from_line_start l) ≤ length l)%nat.
Proof using.
  unfold from_line_start. induction l as [|c l IH]; simpl; [done|].
  destruct (Ascii.eqb c newline); simpl; [lia|].
  destruct (after_newline l); simpl in *; lia.
Qed.

(** The log never holds a torn entry.  Writing to a log of whole lines
    leaves a log of whole lines: either everything that was there and the new
    entry, or, after a rotation, a run of the newest entries, the rotation
    marker and the new entry; and if the append itself fails, the same without
    the new entry. *)
Theorem WriteAuditLog_keeps_whole_lines io_rotate io line ls :
  Forall no_newline ls → no_newline line → (∀ n, no_newline (marker n)) →
  ∃ kept mid, WriteAuditLog io_rotate io line (of_lines ls) =
      of_lines (kept ++ mid ++ (if io then [line] else [])) ∧
    kept `suffix_of` ls ∧ Forall no_newline (kept ++ mid) ∧
    ((mid = [] ∧ kept = ls) ∨ ∃ n, mid = [marker n]).
Proof using.
  intros HF Hline Hmark. unfold WriteAuditLog, rotateAuditLogIfLarge.
  destruct (_ || _) eqn:E.
  - exists ls, []. simpl. rewrite app_nil_r. split; [|auto].
    rewrite of_lines_app. destruct io; simpl; [by rewrite of_lines_one|by rewrite app_nil_r].
  - destruct (cut_lines (length (of_lines ls) - maxBytes / 2) ls HF) as (kept & Hs & ->).
    exists kept, [marker (length (of_lines ls) - length (of_lines kept))].
    split; [|split; [done|split; [|eauto]]].
    + rewrite !of_lines_app, of_lines_one.
      destruct io; simpl; rewrite ?of_lines_one, ?app_nil_r, <- ?app_assoc; done.
    + apply Forall_app. split; [|by repeat constructor].
      destruct Hs as [pre ->]. by apply Forall_app in HF as [_ ?].
Qed.

(** The log is bounded.  As long as rotations work, a write never leaves a
    file longer than the bound plus one entry, or half the bound plus the
    marker and one entry. *)
Theorem WriteAuditLog_bounded io line file m :
  (∀ n, (length (marker n) ≤ m)%nat) →
  (length (WriteAuditLog true io line file) ≤
     Nat.max maxBytes (maxBytes / 2 + m + 1) + length line + 1)%nat.
Proof using.
  intros Hm. unfold WriteAuditLog, rotateAuditLogIfLarge. cbn [negb]. rewrite orb_false_r.
  assert (length (if (length file <? maxBytes)%nat then file
      else from_line_start (drop (length file - maxBytes / 2) file) ++
           marker (length file - length (from_line_start
             (drop (length file - maxBytes / 2) file))) ++ [newline])
    ≤ Nat.max maxBytes (maxBytes / 2 + m + 1))%nat as Hrot.
  { destruct (length file <? maxBytes)%nat eqn:E.
    - apply Nat.ltb_lt in E. lia.
    - rewrite !length_app. cbn [length].
      pose proof (from_line_start_length (drop (length file - maxBytes / 2) file)) as Hl.
      rewrite length_drop in Hl.
      specialize (Hm (length file - length (from_line_start
        (drop (length file - maxBytes / 2) file)))%nat). lia. }
  cbv zeta. destruct io; [|lia]. rewrite length_app, (length_app line). cbn [length]. lia.
Qed.
End log.

Lemma WriteAuditLog_keeps_whole_lines_witness :
  ∃ kept mid, WriteAuditLog 4 (λ _, ["m"%char]) true true ["b"%char]
      (of_lines [["a"%char]; ["a"%char]; ["a"%char]]) = of_lines (kept ++ mid ++ [["b"%char]]) ∧
    kept `suffix_of` [["a"%char]; ["a"%char]; ["a"%char]].
Proof.
  destruct (WriteAuditLog_keeps_whole_lines 4 (λ _, ["m"%char]) true true ["b"%char]
    [["a"%char]; ["a"%char]; ["a"%char]]) as (kept & mid & H & Hs & _).
  - repeat constructor; apply (bool_decide_unpack _); vm_compute; exact I.
  - apply (bool_decide_unpack _); vm_compute; exact I.
  - intros n. apply (bool_decide_unpack _); vm_compute; exact I.
  - exists kept, mid. exact (conj H Hs).
Defined.

Lemma WriteAuditLog_bounded_witness :
  (length (WriteAuditLog 4 (λ _, ["m"%char]) true true ["b"%char] (repeat "x"%char 100)) ≤ 6)%nat.
Proof.
  exact (WriteAuditLog_bounded 4 (λ _, ["m"%char]) true ["b"%char] (repeat "x"%char 100) 1
           (λ _, le_n 1)).
Defined.
