(* ===== verification/Usage.v ===== *)
(** * Usage counters

    [src/internal/core/usage.go]: what each rule has carried, booked as deltas
    against a persisted baseline.  Counters are 64-bit: additions wrap at
    [2 ^ 64].  The map iterations of the source touch each key once and
    independently, so they are folds over finite maps. *)
From S2P Require Import Prelude GoStrings Models RuleID.

Local Open Scope Z_scope.

(** [RuleCounter], the two fields [Collect] reads. *)
Record RuleCounter := mkRuleCounter { C_Packets : Z; C_Bytes : Z }.

Record RuleUsage := mkRuleUsage {
  Packets : Z; Bytes : Z; FirstSeen : Time; LastSeen : Time;
  KernelPackets : Z; KernelBytes : Z }.

Definition zeroUsage : RuleUsage := mkRuleUsage 0 0 None None 0 0.

Record UsageResult := mkUsageResult {
  Usage : gmap string RuleUsage;
  CollectedAt : Time }.

Definition wrap64 (n : Z) : Z := n mod 2 ^ 64.

(** [IsReservedRuleID] *)
Definition IsReservedRuleID (id : string) : bool := HasPrefix id "_".

(** The delta since the baseline; a counter below it has restarted. *)
Definition delta (kernel baseline : Z) : Z :=
  if baseline <=? kernel then kernel - baseline else kernel.

(** The body of [Collect]'s first loop. *)
Definition book (now : Z) (entry : RuleUsage) (kernel : RuleCounter) : RuleUsage :=
  let dp := delta (C_Packets kernel) (KernelPackets entry) in
  let db := delta (C_Bytes kernel) (KernelBytes entry) in
  if 0 <? dp then
    mkRuleUsage (wrap64 (Packets entry + dp)) (wrap64 (Bytes entry + db))
      (match FirstSeen entry with None => Some now | t => t end) (Some now)
      (C_Packets kernel) (C_Bytes kernel)
  else
    mkRuleUsage (Packets entry) (Bytes entry) (FirstSeen entry) (LastSeen entry)
      (C_Packets kernel) (C_Bytes kernel).

Definition book_all (now : Z) (live : gset string) (counters : gmap string RuleCounter)
    (usage : gmap string RuleUsage) : gmap string RuleUsage :=
  map_fold (λ id kernel u,
    if bool_decide (id ∈ live)
    then <[id := book now (default zeroUsage (u !! id)) kernel]> u else u) usage counters.

(** The second loop: forget reserved ids and ids the rules no longer name. *)
Definition prune (live : gset string) (usage : gmap string RuleUsage) : gmap string RuleUsage :=
  filter (λ x, IsReservedRuleID (fst x) = false ∧ fst x ∈ live) usage.

(** [UsageStore.Collect], from the record read to the record written. *)
Definition Collect (now : Z) (counters : gmap string RuleCounter) (live : gset string)
    (res : UsageResult) : UsageResult :=
  mkUsageResult (prune live (book_all now live counters (Usage res))) (Some now).

(** [UsageStore.ResetBaselines] *)
Definition reset_baseline (entry : RuleUsage) : RuleUsage :=
  mkRuleUsage (Packets entry) (Bytes entry) (FirstSeen entry) (LastSeen entry) 0 0.
Definition ResetBaselines (res : UsageResult) : UsageResult :=
  mkUsageResult (reset_baseline <$> Usage res) (CollectedAt res).

(** [liveRuleIDs]: the ids of the applied and the staged rules. *)
Definition liveRuleIDs (s : RulesState) : gset string :=
  list_to_set (filter (λ id, id ≠ "") (port_ids (Current s) ++ port_ids (Staged s))).

(** What is at the path of [usage.json]. *)
Inductive UsageFile := UFMissing | UFGarbage | UFDoc (r : UsageResult).

(** [UsageStore.read]: a missing file is an empty record and so is one that does
    not parse; only an I/O error is an error. *)
Definition read_usage (io : bool) (f : UsageFile) : option UsageResult :=
  if io then
    match f with
    | UFDoc r => Some r
    | UFMissing | UFGarbage => Some (mkUsageResult ∅ None)
    end
  else match f with UFMissing => Some (mkUsageResult ∅ None) | _ => None end.

(** [UsageStore.write]: atomic. *)
Definition write_usage (io : bool) (r : UsageResult) (f : UsageFile) : UsageFile :=
  if io then UFDoc r else f.

(** ** Lemmas *)

Lemma book_all_lookup now live counters usage id :
  book_all now live counters usage !! id =
  match counters !! id with
  | Some k => if bool_decide (id ∈ live)
              then Some (book now (default zeroUsage (usage !! id)) k) else usage !! id
  | None => usage !! id
  end.
Proof.
  unfold book_all. revert id.
  apply (map_fold_weak_ind (λ r m, ∀ id, r !! id = match m !! id with
    | Some k => if bool_decide (id ∈ live)
                then Some (book now (default zeroUsage (usage !! id)) k) else usage !! id
    | None => usage !! id end)).
  { intros id. by rewrite lookup_empty. }
  intros i k m r Hi IH id. destruct (decide (i = id)) as [<-|Hne].
  - rewrite lookup_insert_eq. case_bool_decide; [rewrite lookup_insert_eq|];
      rewrite IH, Hi; done.
  - rewrite (lookup_insert_ne m) by done.
    case_bool_decide; [rewrite lookup_insert_ne by done|]; apply IH.
Qed.

Lemma prune_lookup live u id :
  prune live u !! id =
  if IsReservedRuleID id || negb (bool_decide (id ∈ live)) then None else u !! id.
Proof.
  unfold prune. apply option_eq. intros x. rewrite map_lookup_filter_Some. simpl.
  destruct (IsReservedRuleID id); [|case_bool_decide]; simpl; split; try done; intros; destruct_and?; done.
Qed.

(** What [Collect] leaves for one id. *)
Lemma Collect_lookup now counters live res id :
  Usage (Collect now counters live res) !! id =
  if IsReservedRuleID id || negb (bool_decide (id ∈ live)) then None
  else match counters !! id with
       | Some k => Some (book now (default zeroUsage (Usage res !! id)) k)
       | None => Usage res !! id
       end.
Proof.
  unfold Collect. simpl. rewrite prune_lookup, book_all_lookup.
  destruct (IsReservedRuleID id); [done|]. by case_bool_decide; destruct (counters !! id).
Qed.

Lemma delta_le k b : 0 <= b → 0 <= k → 0 <= delta k b <= k.
Proof. unfold delta. destruct (b <=? k) eqn:E; breflect; lia. Qed.

Lemma delta_self k : delta k k = 0.
Proof. unfold delta. rewrite Z.leb_refl. lia. Qed.

Lemma delta_grow k b n : 0 <= b → 0 <= n → delta (k + n) b <= delta k b + n.
Proof.
  intros ? ?. unfold delta. destruct (b <=? k) eqn:E1, (b <=? k + n) eqn:E2; breflect; lia.
Qed.

Lemma delta_zero b : 0 <= b → delta 0 b = 0.
Proof. intros ?. unfold delta. destruct (b <=? 0) eqn:E; breflect; lia. Qed.

(** Booking adds the delta, as long as the total fits. *)
Lemma book_Packets now e k :
  0 <= Packets e → 0 <= KernelPackets e → 0 <= C_Packets k →
  Packets e + delta (C_Packets k) (KernelPackets e) < 2 ^ 64 →
  Packets (book now e k) = Packets e + delta (C_Packets k) (KernelPackets e).
Proof.
  intros H1 H2 H3 H4. pose proof (delta_le _ _ H2 H3). unfold book.
  destruct (0 <? _) eqn:E; breflect; simpl; [|lia].
  unfold wrap64. rewrite Z.mod_small; lia.
Qed.

Lemma book_baseline now e k : KernelPackets (book now e k) = C_Packets k.
Proof. unfold book. by destruct (0 <? _). Qed.

(** ** The life of one counter

    [us_total] is what really crossed the rule, [us_kernel] what its counter in
    the kernel shows, [us_usage] the stored record.  A table write is what the
    code does around [nft.Apply]: collect, rebuild, reset the baselines. *)
Record ustate := mkUstate { us_usage : UsageResult; us_kernel : Z; us_total : Z }.

Definition entry_of (id : string) (s : ustate) : RuleUsage :=
  default zeroUsage (Usage (us_usage s) !! id).

Section counter.
Context (id : string).
Hypothesis id_not_reserved : IsReservedRuleID id = false.

(** A reading of the kernel for a rule set that names the rule: what it shows
    for this id is the kernel's counter, whatever it shows for others. *)
Definition reads (s : ustate) (counters : gmap string RuleCounter) (live : gset string) : Prop :=
  id ∈ live ∧ C_Packets <$> counters !! id = Some (us_kernel s).

Inductive ustep : ustate → ustate → Prop :=
| ustep_traffic s n :
    0 <= n → us_total s + n < 2 ^ 64 →
    ustep s (mkUstate (us_usage s) (us_kernel s + n) (us_total s + n))
| ustep_collect s now counters live :
    reads s counters live →
    ustep s (mkUstate (Collect now counters live (us_usage s)) (us_kernel s) (us_total s))
| ustep_apply s now counters live :
    reads s counters live →
    ustep s (mkUstate (ResetBaselines (Collect now counters live (us_usage s))) 0 (us_total s))
| ustep_absent s now counters live :
    (** panic mode, no table: the id is live and shows no counter *)
    id ∈ live → counters !! id = None →
    ustep s (mkUstate (Collect now counters live (us_usage s)) (us_kernel s) (us_total s)).

(** A flush by hand: the counter restarts and nothing resets the baseline. *)
Inductive uflush : ustate → ustate → Prop :=
| uflush_hand s : uflush s (mkUstate (us_usage s) 0 (us_total s)).

Definition ustep_any (s s' : ustate) : Prop := ustep s s' ∨ uflush s s'.

Lemma entry_collect s now counters live :
  reads s counters live →
  ∃ k, C_Packets k = us_kernel s ∧
    entry_of id (mkUstate (Collect now counters live (us_usage s)) (us_kernel s) (us_total s))
    = book now (entry_of id s) k.
Proof using id_not_reserved.
  intros [Hl Hk]. destruct (counters !! id) as [k|] eqn:E; [|done].
  exists k. split; [naive_solver|]. unfold entry_of. cbn [us_usage].
  rewrite Collect_lookup, id_not_reserved, bool_decide_eq_true_2, E by done. done.
Qed.

Lemma entry_absent s now counters live :
  id ∈ live → counters !! id = None →
  entry_of id (mkUstate (Collect now counters live (us_usage s)) (us_kernel s) (us_total s))
  = entry_of id s.
Proof using id_not_reserved.
  intros Hl E. unfold entry_of. cbn [us_usage].
  by rewrite Collect_lookup, id_not_reserved, bool_decide_eq_true_2, E by done.
Qed.

Lemma entry_reset r k t :
  entry_of id (mkUstate (ResetBaselines r) k t) = reset_baseline (entry_of id (mkUstate r k t)).
Proof using. unfold entry_of. simpl. rewrite lookup_fmap. by destruct (Usage r !! id). Qed.

(** Exact accounting. *)
Definition exact (s : ustate) : Prop :=
  let e := entry_of id s in
  0 <= Packets e ∧ 0 <= KernelPackets e <= us_kernel s ∧ us_total s < 2 ^ 64 ∧
  Packets e + (us_kernel s - KernelPackets e) = us_total s.

Lemma exact_step s s' : ustep s s' → exact s → exact s'.
Proof using id_not_reserved.
  intros Hstep (H1 & H2 & H3 & H4). destruct Hstep.
  - unfold exact, entry_of in *. cbn [us_kernel us_total us_usage] in *. lia.
  - destruct (entry_collect s now counters live) as (k & Hk & He); [done|].
    unfold exact. rewrite He. cbn [us_kernel us_total]. rewrite book_baseline, Hk.
    assert (delta (C_Packets k) (KernelPackets (entry_of id s)) =
            us_kernel s - KernelPackets (entry_of id s)) as Hd.
    { unfold delta. rewrite Hk. destruct (_ <=? _) eqn:E; breflect; lia. }
    rewrite book_Packets, Hd; lia.
  - destruct (entry_collect s now counters live) as (k & Hk & He); [done|].
    unfold exact. rewrite entry_reset. cbn [us_kernel us_total].
    assert (delta (C_Packets k) (KernelPackets (entry_of id s)) =
            us_kernel s - KernelPackets (entry_of id s)) as Hd.
    { unfold delta. rewrite Hk. destruct (_ <=? _) eqn:E; breflect; lia. }
    unfold entry_of in *. cbn [us_usage] in *. rewrite He.
    unfold reset_baseline. cbn [Packets KernelPackets]. rewrite book_Packets by lia. lia.
  - unfold exact. rewrite entry_absent by done. done.
Qed.

(** With hand flushes: never more than what crossed. *)
Definition at_most (s : ustate) : Prop :=
  let e := entry_of id s in
  0 <= Packets e ∧ 0 <= KernelPackets e ∧ 0 <= us_kernel s ∧ us_total s < 2 ^ 64 ∧
  Packets e + delta (us_kernel s) (KernelPackets e) <= us_total s.

Lemma at_most_step s s' : ustep_any s s' → at_most s → at_most s'.
Proof using id_not_reserved.
  intros Hstep (H1 & H2 & H3 & H4 & H5). pose proof (delta_le _ _ H2 H3) as Hdl.
  destruct Hstep as [Hstep|Hstep]; destruct Hstep.
  - unfold at_most, entry_of in *. cbn [us_kernel us_total us_usage] in *.
    match goal with H : 0 <= n |- _ => pose proof (delta_grow (us_kernel s) _ n H2 H) end. lia.
  - destruct (entry_collect s now counters live) as (k & Hk & He); [done|].
    unfold at_most. rewrite He. cbn [us_kernel us_total]. rewrite book_baseline, Hk, delta_self.
    rewrite <- Hk in H3, H5, Hdl. rewrite book_Packets by lia. lia.
  - destruct (entry_collect s now counters live) as (k & Hk & He); [done|].
    unfold at_most. rewrite entry_reset. unfold entry_of in *. cbn [us_kernel us_total us_usage] in *.
    rewrite He. unfold reset_baseline. cbn [Packets KernelPackets].
    unfold entry_of in *. rewrite <- Hk in H3, H5, Hdl.
    rewrite delta_self, book_Packets by lia. lia.
  - unfold at_most. rewrite entry_absent by done. done.
  - unfold at_most, entry_of in *. cbn [us_kernel us_total us_usage] in *.
    rewrite delta_zero by lia. lia.
Qed.
End counter.

(** A machine that has carried nothing and stored nothing. *)
Definition ustart : ustate := mkUstate (mkUsageResult ∅ None) 0 0.

(** ** Properties *)

(** No packet is lost or counted twice.  Through any sequence of traffic,
    periodic collects, applies, collects that find no table, and restarts of the
    daemon (which change nothing here: the baseline is in the file), what is
    stored for a rule plus what its kernel counter shows beyond the baseline is
    exactly what crossed the rule; so right after a collect the stored total is
    the true one. *)
Theorem usage_accounting_is_exact id s :
  IsReservedRuleID id = false → rtc (ustep id) ustart s →
  Packets (entry_of id s) + (us_kernel s - KernelPackets (entry_of id s)) = us_total s ∧
  ∀ now counters live, reads id s counters live →
    Packets (default zeroUsage (Usage (Collect now counters live (us_usage s)) !! id)) = us_total s.
Proof.
  intros Hid Hs.
  assert (exact id s) as He.
  { revert Hs. apply (rtc_ind_r (exact id)).
    - unfold exact, entry_of. cbn [ustart us_usage us_kernel us_total Usage].
      rewrite lookup_empty. simpl. lia.
    - intros ? ? _ Hst. by apply exact_step. }
  split; [apply He|]. intros now counters live Hr.
  pose proof (exact_step id Hid _ _ (ustep_collect id s now counters live Hr) He) as (_ & _ & _ & H).
  destruct (entry_collect id Hid s now counters live Hr) as (k & Hk & Heq).
  rewrite Heq, book_baseline, Hk in H. unfold entry_of in Heq at 1. cbn [us_usage] in Heq.
  rewrite Heq. cbn [us_kernel us_total] in H. lia.
Qed.

Lemma usage_accounting_is_exact_witness :
  let s := mkUstate (mkUsageResult ∅ None) 3 3 in
  Packets (entry_of "0123456789ab" s) + (us_kernel s - KernelPackets (entry_of "0123456789ab" s)) = 3.
Proof.
  refine (proj1 (usage_accounting_is_exact "0123456789ab" (mkUstate (mkUsageResult ∅ None) 3 3) eq_refl _)).
  apply rtc_once. apply (ustep_traffic "0123456789ab" ustart 3); vm_compute; [discriminate|reflexivity].
Defined.

(** A counter that restarts behind the daemon's back, such as
    [nft flush ruleset] typed by hand, can lose traffic and never invents any:
    the stored total never exceeds what crossed the rule. *)
Theorem usage_never_overcounts id s :
  IsReservedRuleID id = false → rtc (ustep_any id) ustart s →
  0 <= Packets (entry_of id s) <= us_total s.
Proof.
  intros Hid Hs. assert (at_most id s) as (H1 & H2 & H3 & _ & H5).
  { revert Hs. apply (rtc_ind_r (at_most id)).
    - unfold at_most, entry_of. cbn [ustart us_usage us_kernel us_total Usage].
      rewrite lookup_empty. simpl. rewrite delta_zero; lia.
    - intros ? ? _ Hst. by apply at_most_step. }
  pose proof (delta_le _ _ H2 H3). lia.
Qed.

Lemma usage_never_overcounts_witness :
  0 <= Packets (entry_of "0123456789ab" (mkUstate (mkUsageResult ∅ None) 0 0)) <= 0.
Proof.
  refine (usage_never_overcounts "0123456789ab" (mkUstate (mkUsageResult ∅ None) 0 0) eq_refl _).
  apply rtc_once. right. exact (uflush_hand ustart).
Defined.

(** Liveness comes from the rules, never from the kernel.  A collect keeps
    the whole record of a rule the rules still name when the kernel shows no
    counter for it (panic mode deletes the table), forgets a rule the rules no
    longer name, and never stores one of easywall's own reserved ids. *)
Theorem Collect_liveness now counters live res id :
  (id ∈ live → IsReservedRuleID id = false → counters !! id = None →
     Usage (Collect now counters live res) !! id = Usage res !! id) ∧
  (id ∉ live → Usage (Collect now counters live res) !! id = None) ∧
  (IsReservedRuleID id = true → Usage (Collect now counters live res) !! id = None).
Proof.
  rewrite Collect_lookup. split_and!.
  - intros Hl Hr Hn. by rewrite Hr, bool_decide_eq_true_2, Hn by done.
  - intros Hl. rewrite bool_decide_eq_false_2 by done. by rewrite orb_true_r.
  - by intros ->.
Qed.
