(* ===== verification/Kernel.v ===== *)
(** * The kernel table

    What [src/internal/core/nftables.go] and [nftables_feeds.go] leave in the
    kernel: the outcomes of [ApplyWithFeeds] and of [Reset].  A table is the
    value of the inputs its chains were built from; every netlink flush is one
    transaction, whose outcome is an argument.  Both methods hold the manager's
    mutex throughout, so each is one step. *)
From S2P Require Import Prelude GoStrings GoNet Models FeedIDs Validate.

Local Open Scope Z_scope.

(** [FeedContents]: the prefixes of each feed. *)
Abbreviation FeedContents := (gmap string (list prefix)).

(** Table [inet easywall] when it has its chains. *)
Record Table := mkTable {
  t_rules : Rules;
  t_opts : FirewallOptions;
  t_nets : NetworkSettings;
  t_feeds : FeedContents;
  t_custom : bool;      (* the custom rules were appended *)
  t_finallog : bool }.  (* the log of what the policy drops was appended *)

Inductive Kernel :=
| NoTable
| EmptyTable            (* the table with no chains: filters nothing *)
| Filtering (t : Table).

(** [Enforcing]: the input chain of a table [ApplyWithFeeds] wrote is never
    empty (it starts with the loopback accept). *)
Definition Enforcing (conn_ok list_ok : bool) (k : Kernel) : bool :=
  conn_ok && list_ok && match k with Filtering _ => true | _ => false end.

(** The outcome of a flush of the whole ruleset: committed; refused or never
    sent; or the answers overflowed the receive buffer, which says nothing of
    whether the batch was committed. *)
Inductive flush_io := FlushOk | FlushRefused | FlushOverflow (committed : bool).

Record NftIO := mkNftIO {
  nft_conn : bool;       (* m.conn is not nil *)
  nft_addFeeds : bool;   (* addFeeds returns no error *)
  nft_flush : flush_io;
  nft_customs : bool;    (* the nft subprocess succeeds *)
  nft_logflush : bool;   (* the flush of the final log succeeds *)
  nft_del : bool;        (* Reset: the kernel carries the deletion out *)
  nft_add : bool }.      (* Reset: the flush of the new table succeeds *)

Definition nft_ok : NftIO := mkNftIO true true FlushOk true true true true.

Inductive NftError :=
| ErrRefusing (e : ValidationError)
| ErrNoConn
| ErrAddFeeds
| ErrNothingWritten      (* tagged errNothingWritten *)
| ErrReceiveOverflow
| ErrCustomRules
| ErrFinalLog
| ErrResetFlush.

(** [errors.Is(err, errNothingWritten)] *)
Definition is_errNothingWritten (r : result NftError unit) : bool :=
  match r with Err ErrNothingWritten => true | _ => false end.

(** A mode that is not one of the known ones means the strict one. *)
Definition normalised (n : NetworkSettings) : NetworkSettings :=
  mkNetworkSettings
    (mkIPv6Config (if IPv6Mode_Valid (IPv6_Mode (IPv6 n)) then IPv6_Mode (IPv6 n) else IPv6Filter)
       (IPv6_Enabled (IPv6 n)) (ICMPAllowRouterAdvertisement (IPv6 n))
       (ICMPAllowNeighborAdvertisement (IPv6 n)))
    (Docker n)
    (mkRoutingConfig
       (if RoutingMode_Valid (Routing_Mode (Routing n)) then Routing_Mode (Routing n) else RoutingClosed)
       (Routing_Networks (Routing n))).

(** [ApplyWithFeeds], up to the first flush: the refusals that leave the kernel
    alone, and the configuration the builders are given. *)
Definition ApplyWithFeeds_guards (io : NftIO) (r : Rules) (nets : NetworkSettings)
    : result NftError NetworkSettings :=
  let? _ := rmap_err ErrRefusing (ValidateRules r) in
  check (nft_conn io) ErrNoConn ;?
  check (nft_addFeeds io) ErrAddFeeds ;?
  Ok (normalised nets).

(** [ApplyWithFeeds], from the first flush on: the ruleset in one transaction,
    then the custom rules, then the final log in a flush of its own. *)
Definition ApplyWithFeeds_commit (io : NftIO) (r : Rules) (opts : FirewallOptions)
    (nets : NetworkSettings) (feeds : FeedContents) (k : Kernel)
    : result NftError unit * Kernel :=
  let table c l := Filtering (mkTable r opts nets feeds c l) in
  match nft_flush io with
  | FlushRefused => (Err ErrNothingWritten, k)
  | FlushOverflow false => (Err ErrReceiveOverflow, k)
  | FlushOverflow true => (Err ErrReceiveOverflow, table false false)
  | FlushOk =>
      if negb (bool_decide (Custom r = [])) && negb (nft_customs io)
      then (Err ErrCustomRules, table false false)
      else if LogBlocked opts && negb (nft_logflush io)
      then (Err ErrFinalLog, table true false)
      else (Ok tt, table true (LogBlocked opts))
  end.

Definition ApplyWithFeeds (io : NftIO) (s : RulesState) (opts : FirewallOptions)
    (nets : NetworkSettings) (feeds : FeedContents) (k : Kernel)
    : result NftError unit * Kernel :=
  match ApplyWithFeeds_guards io (Current s) nets with
  | Err e => (Err e, k)
  | Ok nets => ApplyWithFeeds_commit io (Current s) opts nets feeds k
  end.

(** [reset]: the error of the deletion is ignored; adding the table to a kernel
    that still has one changes nothing. *)
Definition nft_reset (io : NftIO) (k : Kernel) : result NftError unit * Kernel :=
  if negb (nft_conn io) then (Err ErrNoConn, k)
  else
    let k := if nft_del io then NoTable else k in
    if nft_add io
    then (Ok tt, match k with NoTable => EmptyTable | _ => k end)
    else (Err ErrResetFlush, k).

(** ** Lemmas *)

Definition live (k : Kernel) : bool := match k with Filtering _ => true | _ => false end.

(** The table [ApplyWithFeeds] was asked for, whole. *)
Definition wanted (r : Rules) (opts : FirewallOptions) (nets : NetworkSettings)
    (feeds : FeedContents) : Table :=
  mkTable r opts (normalised nets) feeds true (LogBlocked opts).

Lemma ApplyWithFeeds_Ok io s opts nets feeds k u k' :
  ApplyWithFeeds io s opts nets feeds k = (Ok u, k') →
  ValidRules (Current s) ∧ k' = Filtering (wanted (Current s) opts nets feeds).
Proof.
  unfold ApplyWithFeeds, ApplyWithFeeds_guards. intros H.
  destruct (ValidateRules (Current s)) as [[]|] eqn:V; [|done]. apply ValidateRules_spec in V.
  simpl in H. destruct (nft_conn io); [|done]. simpl in H.
  destruct (nft_addFeeds io); [|done]. simpl in H.
  unfold ApplyWithFeeds_commit in H. by destruct (nft_flush io) as [| |[]]; cases.
Qed.

Lemma ApplyWithFeeds_nft_ok s opts nets feeds k :
  ValidRules (Current s) →
  ApplyWithFeeds nft_ok s opts nets feeds k =
  (Ok tt, Filtering (wanted (Current s) opts nets feeds)).
Proof.
  intros V%ValidateRules_spec. unfold ApplyWithFeeds, ApplyWithFeeds_guards.
  rewrite V. simpl. unfold ApplyWithFeeds_commit. simpl. by rewrite !andb_false_r.
Qed.

(** A tagged error, and every refusal before the flush, is an untouched kernel. *)
Lemma ApplyWithFeeds_nothing_written io s opts nets feeds k r k' :
  ApplyWithFeeds io s opts nets feeds k = (r, k') → is_errNothingWritten r = true → k' = k.
Proof.
  unfold ApplyWithFeeds, ApplyWithFeeds_commit. intros H Hr.
  destruct (ApplyWithFeeds_guards _ _ _); [|naive_solver].
  destruct (nft_flush io) as [| |[]]; simplify_eq/=; cases.
Qed.

Lemma nft_reset_Ok io k u k' :
  nft_reset io k = (Ok u, k') → nft_del io = true → live k' = false.
Proof. unfold nft_reset. intros H Hd. rewrite Hd in H. cases. Qed.

Lemma nft_reset_live io k k' r : nft_reset io k = (r, k') → k' = k ∨ live k' = false.
Proof. unfold nft_reset. intros. cases; auto. Qed.
