(* ===== verification/World.v ===== *)
(** * The daemon's world

    The state the firewall cycle of [src/internal/core] works on, split into
    what survives a crash of the process ([Disk]), what does not ([Mem]) and the
    kernel; the atomic actions ([cmd]) the code is made of, each a critical
    section or a system call of the source; and programs over them.  A program
    is what one goroutine runs; other goroutines run between any two of its
    actions. *)
From S2P Require Import Prelude GoStrings GoNet Models RuleID FeedIDs Validate Diff Acceptance.
From S2P Require Import RulesStore Usage Kernel.

Local Open Scope Z_scope.

(** ** State *)

(** The live configuration ([Config]): what the settings pages write. *)
Record LiveCfg := mkLiveCfg {
  cfg_firewall : FirewallOptions;
  cfg_network : NetworkSettings;
  cfg_acceptance : AcceptanceConfig }.

(** A change of the live configuration: a save of one section, or a reload,
    which replaces every section. *)
Inductive CfgSection :=
| SecFirewall (o : FirewallOptions)
| SecNetwork (n : NetworkSettings)
| SecAcceptance (a : AcceptanceConfig)
| SecAll (c : LiveCfg).

Definition change_cfg (s : CfgSection) (c : LiveCfg) : LiveCfg :=
  match s with
  | SecFirewall o => mkLiveCfg o (cfg_network c) (cfg_acceptance c)
  | SecNetwork n => mkLiveCfg (cfg_firewall c) n (cfg_acceptance c)
  | SecAcceptance a => mkLiveCfg (cfg_firewall c) (cfg_network c) a
  | SecAll c => c
  end.

(** The unconfirmed marker, with the configuration it carries. *)
Inductive UnconfirmedMarker := NoMarker | Marker (before : AppliedConfigResult).

(** What is at the path of [applied-config.json] and of [feeds.json]. *)
Inductive AppliedFile := AFMissing | AFGarbage | AFDoc (c : AppliedConfig).
Inductive FeedsFile := FFMissing | FFGarbage | FFDoc (m : FeedContents).

Record Disk := mkDisk {
  d_rules : RulesFile;
  d_unconfirmed : UnconfirmedMarker;
  d_panic : bool;                 (* the panic marker exists *)
  d_applied : AppliedFile;
  d_lastApply : Time;
  d_usage : UsageFile;
  d_feeds : FeedsFile;
  d_audit : list AuditLogEntry }.  (* newest first *)

Record Mem := mkMem {
  m_acceptance : Acceptance;
  m_applying : bool;              (* the apply slot *)
  m_panicMu : bool;               (* panicMu is held *)
  m_lastApply : Time;
  m_cfg : LiveCfg;
  m_bootBridges : list string;
  m_feeds : option FeedContents;  (* the feed store's cache, once loaded *)
  m_now : Z }.

Record World := mkWorld { disk : Disk; mem : Mem; kernel : Kernel }.

Definition upd_disk (f : Disk → Disk) (w : World) : World := mkWorld (f (disk w)) (mem w) (kernel w).
Definition upd_mem (f : Mem → Mem) (w : World) : World := mkWorld (disk w) (f (mem w)) (kernel w).
Definition set_kernel (k : Kernel) (w : World) : World := mkWorld (disk w) (mem w) k.

Definition set_rules x := upd_disk (λ d, mkDisk x (d_unconfirmed d) (d_panic d) (d_applied d)
  (d_lastApply d) (d_usage d) (d_feeds d) (d_audit d)).
Definition set_unconfirmed x := upd_disk (λ d, mkDisk (d_rules d) x (d_panic d) (d_applied d)
  (d_lastApply d) (d_usage d) (d_feeds d) (d_audit d)).
Definition set_panic x := upd_disk (λ d, mkDisk (d_rules d) (d_unconfirmed d) x (d_applied d)
  (d_lastApply d) (d_usage d) (d_feeds d) (d_audit d)).
Definition set_applied x := upd_disk (λ d, mkDisk (d_rules d) (d_unconfirmed d) (d_panic d) x
  (d_lastApply d) (d_usage d) (d_feeds d) (d_audit d)).
Definition set_lastApplyFile x := upd_disk (λ d, mkDisk (d_rules d) (d_unconfirmed d) (d_panic d)
  (d_applied d) x (d_usage d) (d_feeds d) (d_audit d)).
Definition set_usage x := upd_disk (λ d, mkDisk (d_rules d) (d_unconfirmed d) (d_panic d)
  (d_applied d) (d_lastApply d) x (d_feeds d) (d_audit d)).
Definition add_audit e := upd_disk (λ d, mkDisk (d_rules d) (d_unconfirmed d) (d_panic d)
  (d_applied d) (d_lastApply d) (d_usage d) (d_feeds d) (e :: d_audit d)).

Definition set_acceptance x := upd_mem (λ m, mkMem x (m_applying m) (m_panicMu m) (m_lastApply m)
  (m_cfg m) (m_bootBridges m) (m_feeds m) (m_now m)).
Definition set_applying x := upd_mem (λ m, mkMem (m_acceptance m) x (m_panicMu m) (m_lastApply m)
  (m_cfg m) (m_bootBridges m) (m_feeds m) (m_now m)).
Definition set_panicMu x := upd_mem (λ m, mkMem (m_acceptance m) (m_applying m) x (m_lastApply m)
  (m_cfg m) (m_bootBridges m) (m_feeds m) (m_now m)).
Definition set_lastApplyMem x := upd_mem (λ m, mkMem (m_acceptance m) (m_applying m) (m_panicMu m) x
  (m_cfg m) (m_bootBridges m) (m_feeds m) (m_now m)).
Definition set_cfg x := upd_mem (λ m, mkMem (m_acceptance m) (m_applying m) (m_panicMu m)
  (m_lastApply m) x (m_bootBridges m) (m_feeds m) (m_now m)).
Definition set_bridges x := upd_mem (λ m, mkMem (m_acceptance m) (m_applying m) (m_panicMu m)
  (m_lastApply m) (m_cfg m) x (m_feeds m) (m_now m)).
Definition set_feedCache x := upd_mem (λ m, mkMem (m_acceptance m) (m_applying m) (m_panicMu m)
  (m_lastApply m) (m_cfg m) (m_bootBridges m) x (m_now m)).
Definition set_now x := upd_mem (λ m, mkMem (m_acceptance m) (m_applying m) (m_panicMu m)
  (m_lastApply m) (m_cfg m) (m_bootBridges m) (m_feeds m) x).

(** ** Outcomes of the outside world *)

Record IO := mkIO {
  io_store : StoreIO;                            (* the rules file *)
  io_good : bool;                                (* any other file operation *)
  io_nft : NftIO;
  io_counters : option (gmap string RuleCounter); (* RuleCounters *)
  io_usage_read : bool;
  io_bridges : list string;                      (* detectDockerBridges *)
  io_findings : list string }.                   (* LastFindings *)

(** ** Actions *)

Inductive cmd :=
(* files *)
| CPanicState                                    (* os.Stat of the panic marker *)
| CEngagePanic | CClearPanic
| CAudit (e : AuditLogEntry)
| CGetState | CBackupCurrent | CPromoteStaged | CRollback
| CSaveStaged (draws : list Draw) (ruleType : string) (p : Payload)
| CImportRules (draws : list Draw) (data : option Rules)
| CAppliedConfig | CWriteAppliedConfig (c : AppliedConfig)
| CMarkUnconfirmed (before : AppliedConfigResult) | CClearUnconfirmed
| CStatUnconfirmed | CReadUnconfirmed
| CWriteLastApply (t : Z)
| CUsageCollect (counters : gmap string RuleCounter) (live : gset string)
| CUsageResetBaselines
(* the kernel *)
| CRuleCounters
| CSnapshot
| CApplyWithFeeds (s : RulesState) (opts : FirewallOptions) (nets : NetworkSettings)
    (feeds : FeedContents)
| CReset
| CLastFindings
| CEnforcing
(* memory *)
| CFirewallOptions | CNetworkSettings | CAcceptanceEnabled | CAcceptanceDuration
| CSystemSettings | CSaveCfg (s : CfgSection)
| CFeedContents (ids : list string)
| CAccStart (d : Z) | CAccStatus | CAccReason | CAccRemaining | CAccReset | CAccWait
| CAccRecordRolledBack (r : string)
| CAccAccept | CAccCancel (r : string) | CAccStopping
| CLastApply | CSetLastApply (t : Z)
| CSetBootBridges
| CBeginApply | CEndApply
| CLockPanicMu | CUnlockPanicMu
| CNow | CSleep (d : Z).

Inductive StatResult := StatAbsent | StatPresent | StatError.

(** What each action answers. *)
Definition answer (c : cmd) : Type :=
  match c with
  | CPanicState => bool * bool                   (* engaged, known *)
  | CEngagePanic | CClearPanic | CMarkUnconfirmed _ => bool  (* no error *)
  | CGetState => store RulesState
  | CBackupCurrent | CPromoteStaged | CRollback => store unit
  | CSaveStaged _ _ _ | CImportRules _ _ => store unit
  | CAppliedConfig | CReadUnconfirmed => AppliedConfigResult
  | CStatUnconfirmed => StatResult
  | CRuleCounters => option (gmap string RuleCounter)
  | CApplyWithFeeds _ _ _ _ | CReset => result NftError unit
  | CLastFindings => list string
  | CEnforcing => bool
  | CFirewallOptions => FirewallOptions
  | CNetworkSettings => NetworkSettings
  | CAcceptanceEnabled => bool
  | CSystemSettings => AcceptanceConfig
  | CSaveCfg _ => bool                           (* the file was written *)
  | CAcceptanceDuration => Z
  | CFeedContents _ => FeedContents
  | CAccStatus => AcceptanceStatus
  | CAccReason => string
  | CAccRemaining => Z
  | CAccWait | CAccAccept | CAccCancel _ => bool
  | CLastApply => Time
  | CBeginApply => bool
  | CNow => Z
  | _ => unit
  end.

(** [PanicState]: the marker, whether that is known. *)
Definition PanicState (stat_ok : bool) (d : Disk) : bool * bool :=
  if stat_ok then (d_panic d, true) else (true, false).

(** [readAppliedConfig] and [appliedConfig]: a read that fails, like a file that
    does not parse, is "not recorded". *)
Definition readAppliedConfig (io : bool) (f : AppliedFile) : result unit AppliedConfigResult :=
  match f with
  | AFMissing => Ok None
  | AFGarbage => Err tt
  | AFDoc c => if io then Ok (Some c) else Err tt
  end.
Definition appliedConfig_of (io : bool) (f : AppliedFile) : AppliedConfigResult :=
  match readAppliedConfig io f with Ok r => r | Err _ => None end.

(** [FeedStore.load]: once; an unreadable file is an error, a garbled one is no
    copies. *)
Definition feeds_load (io : bool) (f : FeedsFile) (cache : option FeedContents)
    : option FeedContents :=
  match cache with
  | Some m => Some m
  | None =>
      match f with
      | FFMissing => Some ∅
      | FFGarbage => if io then Some ∅ else None
      | FFDoc m => if io then Some m else None
      end
  end.

(** [FeedStore.Contents] *)
Definition feeds_Contents (ids : list string) (m : FeedContents) : FeedContents :=
  filter (λ x, fst x ∈ ids) m.

(** [UsageStore.Collect] and [ResetBaselines] on the file. *)
Definition usage_update (read_ok write_ok : bool) (f : UsageResult → UsageResult) (u : UsageFile)
    : UsageFile :=
  match read_usage read_ok u with
  | Some r => write_usage write_ok (f r) u
  | None => u
  end.

(** [Wait] can return. *)
Definition enabled (c : cmd) (w : World) : bool :=
  match c with
  | CAccWait => Wait_ready (m_now (mem w)) (m_acceptance (mem w))
  | CLockPanicMu => negb (m_panicMu (mem w))
  | _ => true
  end.

Definition on_rules (op : RulesFile → store unit * RulesFile) (w : World) : store unit * World :=
  let '(r, f) := op (d_rules (disk w)) in (r, set_rules f w).
Definition on_acc {A} (op : Acceptance → A * Acceptance) (w : World) : A * World :=
  let '(r, a) := op (m_acceptance (mem w)) in (r, set_acceptance a w).
Definition on_kernel (op : Kernel → result NftError unit * Kernel) (w : World)
    : result NftError unit * World :=
  let '(r, k) := op (kernel w) in (r, set_kernel k w).

(** The effect of an action, given what the outside world answers. *)
Definition exec (io : IO) (c : cmd) (w : World) : answer c * World :=
  let acc := m_acceptance (mem w) in
  let now := m_now (mem w) in
  match c return answer c * World with
  | CPanicState => (PanicState (io_good io) (disk w), w)
  | CEngagePanic => (io_good io, if io_good io then set_panic true w else w)
  | CClearPanic => (io_good io, if io_good io then set_panic false w else w)
  | CAudit e => (tt, if io_good io then add_audit e w else w)
  | CGetState => (GetState (io_store io) (d_rules (disk w)), w)
  | CBackupCurrent => on_rules (BackupCurrent (io_store io)) w
  | CPromoteStaged => on_rules (PromoteStaged (io_store io)) w
  | CRollback => on_rules (Rollback (io_store io)) w
  | CSaveStaged draws t p => on_rules (SaveStaged (io_store io) draws t p) w
  | CImportRules draws data => on_rules (ImportRules (io_store io) draws data) w
  | CAppliedConfig => (appliedConfig_of (io_good io) (d_applied (disk w)), w)
  | CWriteAppliedConfig c => (tt, if io_good io then set_applied (AFDoc c) w else w)
  | CMarkUnconfirmed before => (io_good io, if io_good io then set_unconfirmed (Marker before) w else w)
  | CClearUnconfirmed => (tt, if io_good io then set_unconfirmed NoMarker w else w)
  | CStatUnconfirmed =>
      (if io_good io
       then match d_unconfirmed (disk w) with NoMarker => StatAbsent | Marker _ => StatPresent end
       else StatError, w)
  | CReadUnconfirmed =>
      (if io_good io
       then match d_unconfirmed (disk w) with NoMarker => None | Marker b => b end else None, w)
  | CWriteLastApply t =>   (* RFC 3339, to the second *)
      (tt, if io_good io then set_lastApplyFile (Some (t / 1000000000 * 1000000000)) w else w)
  | CUsageCollect counters live =>
      (tt, set_usage (usage_update (io_usage_read io) (io_good io) (Collect now counters live)
             (d_usage (disk w))) w)
  | CUsageResetBaselines =>
      (tt, set_usage (usage_update (io_usage_read io) (io_good io) ResetBaselines
             (d_usage (disk w))) w)
  | CRuleCounters => (io_counters io, w)
  | CSnapshot => (tt, w)
  | CApplyWithFeeds s opts nets feeds =>
      on_kernel (ApplyWithFeeds (io_nft io) s opts nets feeds) w
  | CReset => on_kernel (nft_reset (io_nft io)) w
  | CLastFindings => (io_findings io, w)
  | CEnforcing => (Enforcing (nft_conn (io_nft io)) (io_good io) (kernel w), w)
  | CFirewallOptions => (cfg_firewall (m_cfg (mem w)), w)
  | CNetworkSettings => (cfg_network (m_cfg (mem w)), w)
  | CAcceptanceEnabled => (Enabled (cfg_acceptance (m_cfg (mem w))), w)
  | CAcceptanceDuration => (Duration (cfg_acceptance (m_cfg (mem w))) * 1000000000, w)
  | CSystemSettings => (cfg_acceptance (m_cfg (mem w)), w)
  | CSaveCfg s =>   (* the memory is changed before the file is written *)
      (io_good io, set_cfg (change_cfg s (m_cfg (mem w))) w)
  | CFeedContents ids =>
      match feeds_load (io_good io) (d_feeds (disk w)) (m_feeds (mem w)) with
      | Some m => (feeds_Contents ids m, set_feedCache (Some m) w)
      | None => (∅, w)
      end
  | CAccStart d => (tt, set_acceptance (Start now d acc) w)
  | CAccStatus => (status acc, w)
  | CAccReason => (reason acc, w)
  | CAccRemaining => (Remaining now acc, w)
  | CAccReset => (tt, set_acceptance (Reset acc) w)
  | CAccWait => on_acc Wait_finish w
  | CAccRecordRolledBack r => (tt, set_acceptance (RecordRolledBack r acc) w)
  | CAccAccept => on_acc (Accept now) w
  | CAccCancel r => on_acc (cancel now r) w
  | CAccStopping => (tt, set_acceptance (setStopping acc) w)
  | CLastApply => (m_lastApply (mem w), w)
  | CSetLastApply t => (tt, set_lastApplyMem (Some t) w)
  | CSetBootBridges => (tt, set_bridges (io_bridges io) w)
  | CBeginApply => if m_applying (mem w) then (false, w) else (true, set_applying true w)
  | CEndApply => (tt, set_applying false w)
  | CLockPanicMu => (tt, set_panicMu true w)
  | CUnlockPanicMu => (tt, set_panicMu false w)
  | CNow => (now, w)
  | CSleep d => (tt, set_now (now + d) w)
  end.

(** ** Programs *)

Inductive prog (A : Type) : Type :=
| Ret' (a : A)
| Act (c : cmd) (k : answer c → prog A).
Arguments Ret' {A} a.
Arguments Act {A} c k.

#[global] Instance prog_ret : MRet prog := @Ret'.
#[global] Instance prog_bind : MBind prog :=
  fix go A B (f : A → prog B) (p : prog A) : prog B :=
    match p with
    | Ret' a => f a
    | Act c k => Act c (λ b, go A B f (k b))
    end.

Definition call (c : cmd) : prog (answer c) := Act c Ret'.

(** One goroutine alone: the outcomes are consumed one per action; [None] when
    they run out or an action that blocks is not enabled. *)
Fixpoint run {A} (p : prog A) (ios : list IO) (w : World) : option (A * World) :=
  match p with
  | Ret' a => Some (a, w)
  | Act c k =>
      match ios with
      | [] => None
      | io :: ios =>
          if enabled c w then let '(b, w') := exec io c w in run (k b) ios w' else None
      end
  end.
