(* ===== verification/Firewall.v ===== *)
(** * The apply cycle

    [src/internal/core/firewall.go], [restore.go], [unconfirmed.go],
    [panicmode.go] and [appliedconfig.go]: backup, promote, write, wait, and
    commit or roll back; the restore at boot and after panic mode; panic mode
    itself.  Each function is the program of the actions it performs, in its
    order; log lines that only reach the journal are left out. *)
From S2P Require Import Prelude GoStrings Models RuleID Validate Diff Acceptance RulesStore.
From S2P Require Import Usage Kernel World.

Local Open Scope Z_scope.

(** The errors the cycle returns. *)
Inductive FwError :=
| ErrApplyInProgress
| ErrPanicEngaged
| ErrGetRules (e : StoreError)
| ErrBackupRules (e : StoreError)
| ErrMarkUnconfirmed
| ErrPromoteRules (e : StoreError)
| ErrReread (e : StoreError)
| ErrApplyNft (e : NftError)
| ErrReadMarker
| ErrRevert (e : StoreError)
| ErrRestoreRules (e : NftError)
| ErrEngage
| ErrTearDown (e : NftError)
| ErrEndPanic.

(** [err.Error()]: the texts come from the operating system and from wrapped
    errors. *)
Class ErrorText := {
  StoreErrorText : StoreError → string;
  NftErrorText : NftError → string;
  FwErrorText : FwError → string }.

Section firewall.
Context `{!ErrorText}.

(** ** Helpers *)

(** [WriteAuditLog] with the rule type every entry of the cycle has. *)
Definition WriteAudit (action detail user : string) : prog unit :=
  call (CAudit (mkAudit action "all" detail user)).

(** [PanicEngaged]: unknown counts as engaged. *)
Definition PanicEngaged : prog bool :=
  s ← call CPanicState; mret (fst s).

(** [liveRuleIDs] is a read of the rules; [CollectUsage] gives up on the first
    error and [collectUsageBeforeWrite] swallows it. *)
Definition collectUsageBeforeWrite : prog unit :=
  counters ← call CRuleCounters;
  match counters with
  | None => mret tt
  | Some counters =>
      st ← call CGetState;
      match st with
      | Err _ => mret tt
      | Ok state => call (CUsageCollect counters (liveRuleIDs state))
      end
  end.

Definition resetUsageBaselines : prog unit := call CUsageResetBaselines.

(** [feedContents] *)
Definition feedContents (r : Rules) : prog FeedContents :=
  if bool_decide (Feeds r = []) then mret ∅ else call (CFeedContents (Feeds r)).

Definition appliedConfig : prog AppliedConfigResult := call CAppliedConfig.

Definition recordAppliedConfig (opts : FirewallOptions) (nets : NetworkSettings) : prog unit :=
  call (CWriteAppliedConfig (mkAppliedConfig opts nets)).

(** [configToRestore] *)
Definition configToRestore (before : AppliedConfigResult)
    : prog (FirewallOptions * NetworkSettings) :=
  match before with
  | Some c => mret (Applied_Firewall c, Applied_Network c)
  | None => opts ← call CFirewallOptions; nets ← call CNetworkSettings; mret (opts, nets)
  end.

(** [everConfigured] *)
Definition everConfigured (state : RulesState) : prog bool :=
  if negb (IsEmpty (Current state)) then mret true
  else t ← call CLastApply; mret (bool_decide (t ≠ None)).

(** [setLastApply] *)
Definition setLastApply : prog unit :=
  t ← call CNow; call (CSetLastApply t);; call (CWriteLastApply t).

(** [auditBuildFindings] *)
Definition auditBuildFindings (findings : list string) (user : string) : prog unit :=
  match findings with
  | [] => mret tt
  | f :: rest =>
      WriteAudit "health_degraded"
        (if bool_decide (rest = []) then f
         else (f +:+ " (and " +:+ Itoa (Z.of_nat (length rest)) +:+ " more; see the journal)")) user
  end.

(** [panicLandedDuringWrite] *)
Definition panicLandedDuringWrite (engaged : bool) (requested situation user : string)
    : prog bool :=
  if negb engaged then mret false
  else
    collectUsageBeforeWrite;;
    r ← call CReset;
    match r with
    | Err e =>
        WriteAudit "boot_enforce_failed"
          (situation +:+ "; the table could not be torn down (" +:+ NftErrorText e +:+
           "), so this machine may still be filtering while panic mode is recorded") user
    | Ok _ => WriteAudit requested (situation +:+ "; the table was taken down again") user
    end;;
    mret true.

(** ** Rolling back *)

(** [rollback], the rules file: reverted whatever panic mode says; the marker
    goes only with a revert that worked. *)
Definition rollback_file : prog (store unit) :=
  r ← call CRollback;
  match r with
  | Ok _ => call CClearUnconfirmed;; mret r
  | Err _ => mret r
  end.

(** [rollback], the first apply of an installation: not filtering is what it
    goes back to. *)
Definition rollback_first (user : string)
    : prog (result NftError unit * FirewallOptions * NetworkSettings) :=
  opts ← call CFirewallOptions;
  nets ← call CNetworkSettings;
  r ← call CReset;
  match r with
  | Ok _ =>
      WriteAudit "boot_not_configured"
        ("the first apply was not confirmed; the table was taken down and " +:+
         "this host is not filtering — open the interface and apply again") user
  | Err e =>
      WriteAudit "boot_enforce_failed"
        ("the first apply was not confirmed and the table could not be taken down (" +:+
         NftErrorText e +:+ "), so this host is filtering an empty rule set at policy " +:+
         "drop — run `nft delete table inet easywall`") user
  end;;
  mret (r, opts, nets).

(** [rollback], every later one: the previous rules with the previous
    configuration. *)
Definition rollback_previous (previous : RulesState) (before : AppliedConfigResult)
    : prog (result NftError unit * FirewallOptions * NetworkSettings) :=
  cfg ← configToRestore before;
  feeds ← feedContents (Current previous);
  r ← call (CApplyWithFeeds previous (fst cfg) (snd cfg) feeds);
  mret (r, fst cfg, snd cfg).

(** [rollback], the kernel half.  It answers the failures it adds. *)
Definition rollback_kernel (previous : RulesState) (before : AppliedConfigResult) (user : string)
    : prog (list string) :=
  collectUsageBeforeWrite;;
  configured ← everConfigured previous;
  w ← (if negb configured then rollback_first user else rollback_previous previous before);
  let '(applyErr, opts, nets) := w in
  (if negb (is_errNothingWritten applyErr) then resetUsageBaselines else mret tt);;
  now ← call CPanicState;
  tornDownAgain ← panicLandedDuringWrite (fst now && snd now) "rollback_skipped"
    "panic mode was engaged while the previous rules were being written back" user;
  match applyErr with
  | Ok _ =>
      (if negb tornDownAgain then recordAppliedConfig opts nets else mret tt);; mret []
  | Err e =>
      mret (if (configured : bool) then ["nftables: " +:+ NftErrorText e] else [])
  end.

(** [rollback] *)
Definition rollback (panicPath : string) (previous : RulesState) (before : AppliedConfigResult)
    (user : string) : prog unit :=
  revert ← rollback_file;
  state ← call CPanicState;
  let failures := match revert with
                  | Ok _ => [] | Err e => ["rules file: " +:+ StoreErrorText e] end in
  more ← (if fst state && snd state then
            WriteAudit "rollback_skipped"
              ("panic mode is engaged (" +:+ panicPath +:+ "): " +:+
               match revert with
               | Ok _ => "the stored rules were reverted to the set in force before this apply"
               | Err e => "the stored rules could not be reverted (" +:+ StoreErrorText e +:+
                   "), so Current still holds the set this apply promoted"
               end +:+
               ", and nothing was written to the kernel — the table is in whatever " +:+
               "state panic mode left it") user;;
            mret []
          else rollback_kernel previous before user);
  let failures := failures ++ more in
  if bool_decide (failures = []) then mret tt
  else WriteAudit "rollback_failed" (Join failures "; ") user.

(** ** Applying *)

(** [apply], from the outcome of the window on. *)
Definition apply_finish (path : string) (user : string) (state : RulesState)
    (opts : FirewallOptions) (nets : NetworkSettings) (acceptanceOn : bool)
    (before : AppliedConfigResult) : prog (result FwError unit) :=
  findings ← call CLastFindings;
  auditBuildFindings findings user;;
  recordAppliedConfig opts nets;;
  if negb acceptanceOn then
    WriteAudit "apply_started" "acceptance window disabled — applied without confirmation" user;;
    setLastApply;;
    WriteAudit "apply_accepted" "no confirmation required" user;;
    mret (Ok tt)
  else
    ok ← call CAccWait;
    if negb ok then
      reason ← call CAccReason;
      WriteAudit "apply_rolledback" reason user;;
      rollback path state before user;;
      mret (Ok tt)
    else
      call CClearUnconfirmed;;
      setLastApply;;
      WriteAudit "apply_accepted" "" user;;
      mret (Ok tt).

(** [apply], the kernel write and the marker check after it. *)
Definition apply_write (path : string) (user : string) (state updated : RulesState)
    (opts : FirewallOptions) (nets : NetworkSettings) (acceptanceOn : bool)
    (before : AppliedConfigResult) : prog (result FwError unit) :=
  feeds ← feedContents (Current updated);
  r ← call (CApplyWithFeeds updated opts nets feeds);
  match r with
  | Err e =>
      call CAccReset;;
      WriteAudit "apply_failed" (NftErrorText e) user;;
      engaged ← PanicEngaged;
      panicLandedDuringWrite engaged "apply_refused_panic"
        ("panic mode was engaged while a failing apply was writing, and rules can " +:+
         "reach the kernel before nft.Apply reports an error") user;;
      rollback path state before user;;
      mret (Err (ErrApplyNft e))
  | Ok _ =>
      resetUsageBaselines;;
      engaged ← PanicEngaged;
      landed ← panicLandedDuringWrite engaged "apply_refused_panic"
        "panic mode was engaged while this apply was being written" user;
      if (landed : bool) then
        call CAccReset;;
        rollback path state before user;;
        mret (Err ErrPanicEngaged)
      else apply_finish path user state opts nets acceptanceOn before
  end.

(** [apply], the window: opened before the kernel write, and on every way out
    after that a window still pending is reset.  [Start] never returns an
    error, so the branch that handles one is not reached. *)
Definition apply_window (path : string) (user : string) (state updated : RulesState)
    (opts : FirewallOptions) (nets : NetworkSettings) (acceptanceOn : bool)
    (before : AppliedConfigResult) : prog (result FwError unit) :=
  if acceptanceOn then
    WriteAudit "apply_started" "" user;;
    d ← call CAcceptanceDuration;
    call (CAccStart d);;
    r ← apply_write path user state updated opts nets acceptanceOn before;
    st ← call CAccStatus;
    (if bool_decide (st = AcceptancePending) then call CAccReset else mret tt);;
    mret r
  else apply_write path user state updated opts nets acceptanceOn before.

(** [apply], the promote and the window after it. *)
Definition apply_promote (path : string) (user : string) (state : RulesState)
    (opts : FirewallOptions) (nets : NetworkSettings) (acceptanceOn : bool)
    (before : AppliedConfigResult) : prog (result FwError unit) :=
  r ← call CPromoteStaged;
  match r with
  | Err e =>
      call CClearUnconfirmed;;
      WriteAudit "apply_failed"
        ("the staged rules could not be promoted, so nothing was applied: " +:+
         StoreErrorText e) user;;
      mret (Err (ErrPromoteRules e))
  | Ok _ =>
      st ← call CGetState;
      match st with
      | Err e =>
          WriteAudit "apply_failed"
            ("the rules could not be re-read after promoting them; nothing reached the " +:+
             "kernel, and the stored rules now hold the set this apply was trying: " +:+
             StoreErrorText e) user;;
          mret (Err (ErrReread e))
      | Ok updated => apply_window path user state updated opts nets acceptanceOn before
      end
  end.

(** [apply], the marker: before the promote when a window will judge it. *)
Definition apply_mark (path : string) (user : string) (state : RulesState)
    (opts : FirewallOptions) (nets : NetworkSettings) (acceptanceOn : bool)
    (before : AppliedConfigResult) : prog (result FwError unit) :=
  marked ← (if acceptanceOn then call (CMarkUnconfirmed before) else mret true);
  if negb (marked : bool) then
    WriteAudit "apply_failed"
      ("the apply could not be marked unconfirmed, so nothing was applied: " +:+
       FwErrorText ErrMarkUnconfirmed) user;;
    mret (Err ErrMarkUnconfirmed)
  else apply_promote path user state opts nets acceptanceOn before.

(** [apply] *)
Definition apply (path : string) (user : string) : prog (result FwError unit) :=
  engaged ← PanicEngaged;
  if (engaged : bool) then
    WriteAudit "apply_refused_panic"
      "an apply was refused because panic mode is engaged at the console" user;;
    mret (Err ErrPanicEngaged)
  else
    collectUsageBeforeWrite;;
    st ← call CGetState;
    match st with
    | Err e =>
        WriteAudit "apply_failed" (StoreErrorText e) user;;
        mret (Err (ErrGetRules e))
    | Ok state =>
        r ← call CBackupCurrent;
        match r with
        | Err e =>
            WriteAudit "apply_failed"
              ("the current rules could not be backed up, so nothing was applied: " +:+
               StoreErrorText e) user;;
            mret (Err (ErrBackupRules e))
        | Ok _ =>
            call CSnapshot;;
            opts ← call CFirewallOptions;
            nets ← call CNetworkSettings;
            acceptanceOn ← call CAcceptanceEnabled;
            before ← appliedConfig;
            apply_mark path user state opts nets acceptanceOn before
        end
    end.

(** [Apply] *)
Definition Apply (path : string) (user : string) : prog (result FwError unit) :=
  began ← call CBeginApply;
  if negb (began : bool) then mret (Err ErrApplyInProgress)
  else
    r ← apply path user;
    call CEndApply;;
    mret r.

(** The apply of the socket command [APPLY_RULES]: refused before the slot when
    panic mode is engaged, then [Apply] on a goroutine of its own. *)
Definition CmdApplyRules (path : string) : prog (result FwError unit) :=
  engaged ← PanicEngaged;
  if (engaged : bool) then mret (Err ErrPanicEngaged) else Apply path "web".

(** ** Restoring *)

(** [waitForApplySlot]: a poll every 50 ms.  The fuel bounds the polls; see
    [waitForApplySlot_polls]. *)
Fixpoint poll_slot (fuel : nat) (deadline : Z) : prog bool :=
  match fuel with
  | O => mret false
  | S fuel =>
      began ← call CBeginApply;
      if (began : bool) then mret true
      else
        now ← call CNow;
        if deadline <? now then mret false
        else call (CSleep 50000000);; poll_slot fuel deadline
  end.

Definition slot_polls (d : Z) : nat := Z.to_nat (d / 50000000 + 2).
Definition waitForApplySlot (d : Z) : prog bool :=
  now ← call CNow; poll_slot (slot_polls d) (now + d).

Definition restoreSlotWait : Z := 5000000000.

(** [revertUnconfirmed] *)
Definition revertUnconfirmed : prog (result FwError (AppliedConfigResult * bool)) :=
  st ← call CStatUnconfirmed;
  match st with
  | StatAbsent => mret (Ok (None, false))
  | StatError => mret (Err ErrReadMarker)
  | StatPresent =>
      before ← call CReadUnconfirmed;
      r ← call CRollback;
      match r with
      | Err e => mret (Err (ErrRevert e))
      | Ok _ =>
          call CClearUnconfirmed;;
          call (CAccRecordRolledBack ReasonCoreStopped);;
          WriteAudit "apply_rolledback" ReasonCoreStopped "core";;
          mret (Ok (before, true))
      end
  end.

(** The configuration a restore enforces: what the marker recorded, then what
    was last applied, then what is configured. *)
Definition restore_config (before : AppliedConfigResult) (reverted : bool)
    : prog (FirewallOptions * NetworkSettings) :=
  opts ← call CFirewallOptions;
  nets ← call CNetworkSettings;
  if reverted then configToRestore before
  else
    applied ← appliedConfig;
    match applied with
    | Some c => mret (Applied_Firewall c, Applied_Network c)
    | None => mret (opts, nets)
    end.

(** [RestoreCurrent], the kernel write and what follows it. *)
Definition restore_write (reason : string) (state : RulesState) (before : AppliedConfigResult)
    (reverted : bool) : prog (result FwError unit) :=
  call CSetBootBridges;;
  collectUsageBeforeWrite;;
  cfg ← restore_config before reverted;
  feeds ← feedContents (Current state);
  r ← call (CApplyWithFeeds state (fst cfg) (snd cfg) feeds);
  match r with
  | Err e =>
      WriteAudit "boot_enforce_failed" (reason +:+ ": " +:+ NftErrorText e) "core";;
      engaged ← PanicEngaged;
      panicLandedDuringWrite engaged "boot_enforce_failed"
        (reason +:+ ": panic mode was engaged while a failing restore was writing, " +:+
         "and rules can reach the kernel before nft.Apply reports an error") "core";;
      mret (Err (ErrRestoreRules e))
  | Ok _ =>
      resetUsageBaselines;;
      engaged ← PanicEngaged;
      landed ← panicLandedDuringWrite engaged "boot_enforce_failed"
        (reason +:+ ": panic mode was engaged while the rules were being restored") "core";
      if (landed : bool) then mret (Ok tt)
      else
        recordAppliedConfig (fst cfg) (snd cfg);;
        WriteAudit "boot_enforced" reason "core";;
        mret (Ok tt)
  end.

(** [RestoreCurrent], the stored rules: an installation nothing was ever applied
    on is left alone. *)
Definition restore_stored (reason : string) (before : AppliedConfigResult) (reverted : bool)
    : prog (result FwError unit) :=
  st ← call CGetState;
  match st with
  | Err e =>
      WriteAudit "boot_enforce_failed" (reason +:+ ": " +:+ StoreErrorText e) "core";;
      mret (Err (ErrGetRules e))
  | Ok state =>
      configured ← everConfigured state;
      if negb (configured : bool) then
        WriteAudit "boot_not_configured" reason "core";;
        call CAcceptanceEnabled;;
        mret (Ok tt)
      else restore_write reason state before reverted
  end.

(** [RestoreCurrent], once it holds the slot. *)
Definition restore_held (reason : string) : prog (result FwError unit) :=
  engaged ← PanicEngaged;
  if (engaged : bool) then mret (Ok tt)
  else
    rv ← revertUnconfirmed;
    match rv with
    | Err e =>
        WriteAudit "boot_enforce_failed" (reason +:+ ": " +:+ FwErrorText e) "core";;
        mret (Err e)
    | Ok (before, reverted) => restore_stored reason before reverted
    end.

(** [RestoreCurrent] *)
Definition RestoreCurrent (reason : string) : prog (result FwError unit) :=
  engaged ← PanicEngaged;
  if (engaged : bool) then mret (Ok tt)
  else
    began ← waitForApplySlot restoreSlotWait;
    if negb (began : bool) then mret (Err ErrApplyInProgress)
    else
      r ← restore_held reason;
      call CEndApply;;
      mret r.

(** ** Panic mode *)

(** [CancelAcceptance] *)
Definition CancelAcceptance : prog unit := call (CAccCancel ReasonPanic);; mret tt.

(** [Panic], with [panicMu] held. *)
Definition panic_held (user : string) : prog (result FwError unit) :=
  engaged ← call CEngagePanic;
  if negb (engaged : bool) then mret (Err ErrEngage)
  else
    WriteAudit "panic_engaged" "the firewall was taken down from the console" user;;
    CancelAcceptance;;
    collectUsageBeforeWrite;;
    r ← call CReset;
    match r with
    | Err e => mret (Err (ErrTearDown e))
    | Ok _ => mret (Ok tt)
    end.

(** [Panic] *)
Definition Panic (user : string) : prog (result FwError unit) :=
  call CLockPanicMu;;
  r ← panic_held user;
  call CUnlockPanicMu;;
  mret r.

Record ResumeResult := mkResumeResult { WasEngaged : bool; Restored : bool }.

(** [Resume], with [panicMu] held. *)
Definition resume_held (user : string) : prog (ResumeResult * result FwError unit) :=
  s ← call CPanicState;
  let was := fst s || negb (snd s) in
  cleared ← call CClearPanic;
  if negb (cleared : bool) then mret (mkResumeResult was false, Err ErrEndPanic)
  else
    (if was then WriteAudit "panic_resumed" "panic mode was ended from the console" user
     else mret tt);;
    st ← call CGetState;
    configured ← match st with Ok state => everConfigured state | Err _ => mret false end;
    r ← RestoreCurrent "panic mode ended";
    match r with
    | Err ErrApplyInProgress =>
        WriteAudit "resume_restore_skipped"
          ("an apply held the slot; the stored rules were not restored — resume again " +:+
           "once it finishes") user
    | _ => mret tt
    end;;
    mret (mkResumeResult was (match r with Ok _ => (configured : bool) | Err _ => false end), r).

(** [Resume] *)
Definition Resume (user : string) : prog (ResumeResult * result FwError unit) :=
  call CLockPanicMu;;
  r ← resume_held user;
  call CUnlockPanicMu;;
  mret r.

(** ** The window, from other goroutines *)

Definition FwAccept : prog bool := call CAccAccept.
Definition FwRollback : prog bool := call (CAccCancel ReasonOperator).
Definition ShutdownAcceptance : prog unit :=
  call CAccStopping;; call (CAccCancel ReasonCoreStopped);; mret tt.

(** ** Status *)

Record FirewallStatus := mkFirewallStatus {
  Active : bool; StatusAcceptance : AcceptanceStatus; HasPending : bool; LastApply : Time;
  StatusPanic : bool; AcceptanceRemaining : Z; AcceptanceReason : string;
  AcceptanceEnabled : bool }.

(** [Status]; the network list of [unknownBridges] is left out. *)
Definition Status : prog FirewallStatus :=
  st ← call CGetState;
  let pending := match st with
                 | Ok s => bool_decide (DiffRules (Current s) (Staged s) ≠ []) | Err _ => false end in
  snapshot ← appliedConfig;
  pending ← match snapshot with
            | Some c =>
                opts ← call CFirewallOptions;
                nets ← call CNetworkSettings;
                mret (pending || bool_decide (DiffConfig c (mkAppliedConfig opts nets) ≠ []))
            | None => mret pending
            end;
  last ← call CLastApply;
  active ← call CEnforcing;
  accStatus ← call CAccStatus;
  d ← call CAccRemaining;
  let remaining := if 0 <? d then (d + 1000000000 - 1) / 1000000000 else 0 in
  reason ← (if bool_decide (accStatus = AcceptanceRolledBack) then call CAccReason else mret "");
  panic ← PanicEngaged;
  on ← call CAcceptanceEnabled;
  mret (mkFirewallStatus active accStatus pending last panic remaining reason on).

End firewall.
