(* ===== verification/FeedStore.v ===== *)
(** * The stored feeds

    [src/internal/core/feedstore.go]: the core's own copy of every feed, its
    cache, and the two questions the interface asks of it.  The store is the
    file and the cache filled from it; the outcome of each file operation is an
    argument. *)
From S2P Require Import Prelude GoStrings GoNet NetBytes Models FeedIDs Validate Reach PacketLog FeedRanges Nft Matchers.
From S2P Require Import Diff Acceptance RulesStore Usage Kernel World NetString.

Local Open Scope Z_scope.

(** ** Records *)

Record storedFeed := mkStoredFeed {
  sf_Prefixes : list string;
  sf_Entries : Z;
  sf_Dropped : Z;
  sf_ChangedAt : Time;
  sf_CheckedAt : Time }.

(** The zero value a failed lookup returns. *)
Definition noFeed : storedFeed := mkStoredFeed [] 0 0 None None.

Definition with_prefixes (ps : list string) (f : storedFeed) : storedFeed :=
  mkStoredFeed ps (sf_Entries f) (sf_Dropped f) (sf_ChangedAt f) (sf_CheckedAt f).
Definition with_checked (t : Time) (f : storedFeed) : storedFeed :=
  mkStoredFeed (sf_Prefixes f) (sf_Entries f) (sf_Dropped f) (sf_ChangedAt f) t.

Record cachedFeed := mkCachedFeed {
  cf_rec : storedFeed;
  cf_prefixes : list prefix;
  cf_ranges4 : list addrRange;
  cf_ranges6 : list addrRange }.

Definition prefixStrings (ps : list prefix) : list string := map Prefix_String ps.

(** A line that does not parse is skipped. *)
Definition newCachedFeed (rec : storedFeed) : cachedFeed :=
  let ps := omap ParsePrefix (sf_Prefixes rec) in
  let '(r4, r6) := splitFamilies (mergeRanges ps) in
  mkCachedFeed (with_prefixes [] rec) ps r4 r6.

(** What is at the path of feeds.json. *)
Inductive StoreFile := SfMissing | SfGarbage | SfDoc (recs : gmap string storedFeed).

(** [FeedStore]; [fs_feeds] is [None] until it is loaded. *)
Record FeedStore := mkFeedStore { fs_file : StoreFile; fs_feeds : option (gmap string cachedFeed) }.

Definition NewFeedStore (file : StoreFile) : FeedStore := mkFeedStore file None.

(** ** Reading *)

(** [load]: once; an unreadable file is an error, a garbled one is no copies. *)
Definition load (read : bool) (s : FeedStore) : option (gmap string cachedFeed) * FeedStore :=
  match fs_feeds s with
  | Some m => (Some m, s)
  | None =>
      let fill recs := let m := newCachedFeed <$> recs in (Some m, mkFeedStore (fs_file s) (Some m)) in
      match fs_file s with
      | SfMissing => fill ∅
      | SfGarbage => if read then fill ∅ else (None, s)
      | SfDoc recs => if read then fill recs else (None, s)
      end
  end.

Definition Contents (read : bool) (ids : list string) (s : FeedStore) : option FeedContents * FeedStore :=
  let '(m, s) := load read s in
  (match m with Some m => Some (cf_prefixes <$> filter (λ x, fst x ∈ ids) m) | None => None end, s).

Definition All (read : bool) (s : FeedStore) : option (gmap string storedFeed) * FeedStore :=
  let '(m, s) := load read s in (match m with Some m => Some (cf_rec <$> m) | None => None end, s).

(** The record as [Get] returns it and [write] stores it. *)
Definition full_record (c : cachedFeed) : storedFeed := with_prefixes (prefixStrings (cf_prefixes c)) (cf_rec c).

(** [Get]: an error; the record, and whether there is one. *)
Definition Get (read : bool) (id : string) (s : FeedStore) : option (storedFeed * bool) * FeedStore :=
  let '(m, s) := load read s in
  (match m with
   | Some m => Some match m !! id with Some c => (full_record c, true) | None => (noFeed, false) end
   | None => None
   end, s).

(** ** Writing *)

(** [write], the file: replaced by a rename, so whole or not at all. *)
Definition write (ok : bool) (feeds : gmap string cachedFeed) (file : StoreFile) : bool * StoreFile :=
  if ok then (true, SfDoc (full_record <$> feeds)) else (false, file).

(** Whether only [checked_at] moved. *)
Definition only_checked (id : string) (f : storedFeed) (keep : list string) (m : gmap string cachedFeed) : bool :=
  match m !! id with
  | None => false
  | Some c =>
      (sf_Entries (cf_rec c) =? sf_Entries f) && (sf_Dropped (cf_rec c) =? sf_Dropped f) &&
      bool_decide (sf_ChangedAt (cf_rec c) = sf_ChangedAt f) &&
      bool_decide (prefixStrings (cf_prefixes c) = sf_Prefixes f) &&
      forallb (λ x, bool_decide (fst x ∈ keep)) (map_to_list m)
  end.

Definition check_off (t : Time) (c : cachedFeed) : cachedFeed :=
  mkCachedFeed (with_checked t (cf_rec c)) (cf_prefixes c) (cf_ranges4 c) (cf_ranges6 c).

(** [Put]: whether it returned without an error. *)
Definition Put (read wr : bool) (id : string) (f : storedFeed) (keep : list string) (s : FeedStore) : bool * FeedStore :=
  match load read s with
  | (None, s) => (false, s)
  | (Some m, s) =>
      if only_checked id f keep m
      then (true, mkFeedStore (fs_file s) (Some (alter (check_off (sf_CheckedAt f)) id m)))
      else
        let next := filter (λ x, fst x ∈ keep) (<[id := newCachedFeed f]> m) in
        let '(ok, file) := write wr next (fs_file s) in
        if ok then (true, mkFeedStore file (Some next)) else (false, s)
  end.

(** ** Questions *)

(** [overlapsAny]: [sort.Search] halves as [lower_bound] does. *)
Definition overlapsAny (rs : list addrRange) (r : addrRange) : bool :=
  let i := lower_bound (λ x, bool_decide (Compare (r_to x) (r_from r) = Lt)) (S (length rs)) 0 (length rs) rs in
  match rs !! i with
  | Some x => negb (bool_decide (Compare (r_from x) (r_to r) = Gt))
  | None => false
  end.

Definition family (c : cachedFeed) (a : addr) : list addrRange := if Is4 a then cf_ranges4 c else cf_ranges6 c.

(** [FeedStore.Contains]; [None] is the invalid address. *)
Definition FeedStore_Contains (read : bool) (id : string) (a : option addr) (s : FeedStore) : bool * FeedStore :=
  let '(m, s) := load read s in
  (match default ∅ m !! id, a with
   | Some c, Some a => overlapsAny (family c a) (mkRange a a)
   | _, _ => false
   end, s).

(** The addresses an entry of the allowlist names, [None] for a comment. *)
Definition entry_range (e : string) : option addrRange :=
  let e := TrimSpace e in
  match ParseAddr e with
  | Some a => let a := Unmap a in Some (mkRange a a)
  | None => (λ p, mkRange (p_addr p) (lastAddr p)) <$> ParseNetwork e
  end.

Definition entry_overlaps (c : cachedFeed) (e : string) : bool :=
  match entry_range e with Some r => overlapsAny (family c (r_from r)) r | None => false end.

Definition AllowlistOverlap (read : bool) (id : string) (allowlist : list string) (s : FeedStore) : Z * FeedStore :=
  let '(m, s) := load read s in
  (match default ∅ m !! id with
   | Some c => zlen (filter (λ e, entry_overlaps c e = true) allowlist)
   | None => 0
   end, s).

(** ** What the cache holds *)

(** A prefix of a feed: in range, and its length fits its family. *)
Definition feed_prefix (p : prefix) : Prop := prefix_ok p ∧ IsValid p = true.

Record cached_ok (c : cachedFeed) : Prop := {
  co_prefixes : Forall feed_prefix (cf_prefixes c);
  co_ranges : splitFamilies (mergeRanges (cf_prefixes c)) = (cf_ranges4 c, cf_ranges6 c);
  co_rec : sf_Prefixes (cf_rec c) = [] }.

Lemma ParsePrefix_ok s p : ParsePrefix s = Some p → feed_prefix p.
Proof.
  unfold ParsePrefix. destruct (CutLastByte "/" s) as [[a m]|]; [|done].
  destruct (ParseAddr a) as [ip|] eqn:E; [|done]. cbv zeta.
  destruct (negb (is_empty (Zone ip))) eqn:Ez; [done|]. cbn [orb]. destruct m as [|c m]; [done|].
  destruct (match m with EmptyString => _ | _ => _ end); [done|].
  destruct (Atoi _) as [n|]; [|done]. destruct ((n <? 0) || _) eqn:En; [done|]. intros [= <-].
  apply orb_false_iff in En as [H1 H2]. apply Z.ltb_ge in H1, H2. apply ParseAddr_range in E.
  split; [split; [done|]|].
  - cbn. by destruct (Zone ip).
  - unfold IsValid. cbn [p_bits p_addr]. apply andb_true_iff. split; by apply Z.leb_le.
Qed.

Lemma newCachedFeed_ok rec : cached_ok (newCachedFeed rec).
Proof.
  unfold newCachedFeed. destruct (splitFamilies _) as [r4 r6] eqn:E. split; [|done..]. cbn [cf_prefixes].
  apply Forall_forall. intros p (s & _ & Hs)%list_elem_of_omap. by eapply ParsePrefix_ok.
Qed.

Lemma newCachedFeed_prefixes rec : cf_prefixes (newCachedFeed rec) = omap ParsePrefix (sf_Prefixes rec).
Proof. unfold newCachedFeed. by destruct (splitFamilies _). Qed.

Lemma newCachedFeed_rec rec : cf_rec (newCachedFeed rec) = with_prefixes [] rec.
Proof. unfold newCachedFeed. by destruct (splitFamilies _). Qed.

(** Every copy of the cache is parsed and merged. *)
Definition store_ok (s : FeedStore) : Prop :=
  match fs_feeds s with Some m => map_Forall (λ _, cached_ok) m | None => True end.

Lemma store_ok_new file : store_ok (NewFeedStore file).
Proof. done. Qed.

(** Loading fills the cache from the file and changes nothing else. *)
Definition file_feeds (file : StoreFile) : gmap string cachedFeed :=
  match file with SfDoc recs => newCachedFeed <$> recs | _ => ∅ end.

Lemma load_cases read s m s' :
  load read s = (m, s') →
  fs_file s' = fs_file s ∧
  (m = None ∧ s' = s ∧ read = false ∨
   ∃ c, m = Some c ∧ fs_feeds s' = Some c ∧ (fs_feeds s = Some c ∨ fs_feeds s = None ∧ c = file_feeds (fs_file s))).
Proof.
  unfold load. destruct (fs_feeds s) as [c|] eqn:Ec.
  - intros [= <- <-]. split; [done|]. right. exists c. auto.
  - destruct (fs_file s) as [| |recs] eqn:Ef; [| |]; try destruct read; intros [= <- <-]; cbn; rewrite ?Ef;
      (split; [done|]); first [by left|right; eexists; rewrite ?fmap_empty; by eauto].
Qed.

Lemma file_feeds_ok file : map_Forall (λ _, cached_ok) (file_feeds file).
Proof.
  destruct file; try apply map_Forall_empty. intros id c Hc. apply lookup_fmap_Some in Hc as (rec & <- & _).
  apply newCachedFeed_ok.
Qed.

Lemma load_ok read s m s' :
  store_ok s → load read s = (m, s') → store_ok s' ∧ map_Forall (λ _, cached_ok) (default ∅ m).
Proof.
  intros Hs H. apply load_cases in H as (_ & [(-> & -> & _)|(c & -> & Hc & Hor)]); [split; [done|apply map_Forall_empty]|].
  unfold store_ok in *. rewrite Hc. cbn. destruct Hor as [Hor|[_ ->]]; [by rewrite Hor in Hs|]. split; apply file_feeds_ok.
Qed.

(** ** The questions answer what the kernel would *)

Lemma StronglySorted_nth {A} (R : relation A) l i j x y :
  StronglySorted R l → l !! i = Some x → l !! j = Some y → (i < j)%nat → R x y.
Proof.
  intros Hs. revert i j. induction Hs as [|z l Hs IH Hall]; intros [|i] [|j] Hx Hy Hij; simpl in *; try done; try lia.
  - injection Hx as <-. rewrite Forall_forall in Hall. by apply Hall, (list_elem_of_lookup_2 _ j).
  - eapply IH; eauto. lia.
Qed.

Lemma overlapsAny_spec rs r :
  Normal rs → range_ok r →
  overlapsAny rs r = true ↔ ∃ a, addr_ok a ∧ in_range r a ∧ Covers rs a.
Proof.
  intros [Hok Hs] [Hrf Hrt Hfam Hord]. unfold overlapsAny. rewrite Forall_forall in Hok.
  assert (∀ x, x ∈ rs → bool_decide (Compare (r_to x) (r_from r) = Lt) = true ↔ key (r_to x) < key (r_from r)) as Hless.
  { intros x Hx. destruct (Hok x Hx). rewrite bool_decide_eq_true, Compare_key by done. apply Z.compare_lt_iff. }
  destruct (lower_bound_spec (λ x, bool_decide (Compare (r_to x) (r_from r) = Lt)) (S (length rs)) 0 (length rs) rs)
    as [Hlo Hhi]; [lia|lia| |lia| |].
  { intros i j x y Hij Hx Hy Hl. apply Hless; [by eapply list_elem_of_lookup_2|].
    apply Hless in Hl; [|by eapply list_elem_of_lookup_2].
    pose proof (StronglySorted_nth _ _ _ _ _ _ Hs Hx Hy Hij) as Ha. unfold apart in Ha.
    destruct (Hok y (list_elem_of_lookup_2 _ _ _ Hy)). lia. }
  { intros k x Hk Hx. apply lookup_lt_Some in Hx. lia. }
  set (i := lower_bound _ _ _ _ _) in *. destruct (rs !! i) as [x|] eqn:Ex.
  - pose proof (list_elem_of_lookup_2 _ _ _ Ex) as Hin. destruct (Hok x Hin) as [Xf Xt Xfam Xord].
    assert (key (r_from r) <= key (r_to x)) as Hge.
    { apply Z.nlt_ge. rewrite <- Hless by done. by rewrite (Hhi i x). }
    rewrite negb_true_iff, Compare_gt, Z.ltb_ge by done. split.
    + intros Hle. destruct (Z.le_gt_cases (key (r_from x)) (key (r_from r))).
      * exists (r_from r). split; [done|]. split; [split; lia|]. apply Exists_exists. exists x. split; [done|split; lia].
      * exists (r_from x). split; [done|]. split; [split; lia|]. apply Exists_exists. exists x. split; [done|split; lia].
    + intros (a & _ & [Ha1 Ha2] & (y & Hy & [Hy1 Hy2])%Exists_exists).
      apply list_elem_of_lookup in Hy as [j Hj]. destruct (decide (j < i)%nat) as [Hji|Hji].
      { specialize (Hlo j y Hji Hj). cbn in Hlo. apply Hless in Hlo; [lia|by eapply list_elem_of_lookup_2]. }
      destruct (decide (i = j)) as [->|]; [assert (x = y) as -> by congruence; lia|].
      pose proof (StronglySorted_nth _ _ _ _ _ _ Hs Ex Hj ltac:(lia)) as Hap. unfold apart in Hap. lia.
  - split; [done|]. intros (a & _ & [Ha1 Ha2] & (y & Hy & [Hy1 Hy2])%Exists_exists).
    apply list_elem_of_lookup in Hy as [j Hj]. apply lookup_ge_None in Ex. pose proof (lookup_lt_Some _ _ _ Hj).
    specialize (Hlo j y ltac:(lia) Hj). cbn in Hlo. apply Hless in Hlo; [lia|by eapply list_elem_of_lookup_2].
Qed.

Lemma feed_prefixes_ok ps : Forall feed_prefix ps → Forall prefix_ok ps.
Proof. intros H. eapply Forall_impl; [exact H|]. by intros p []. Qed.

(** What a copy names. *)
Definition names (ps : list prefix) (a : addr) : Prop := ∃ p, p ∈ ps ∧ Contains p a = true.

Lemma family_spec c b :
  cached_ok c →
  Normal (family c b) ∧ ∀ a, addr_ok a → Is4 a = Is4 b → Covers (family c b) a ↔ names (cf_prefixes c) a.
Proof.
  intros [Hp Hr _]. destruct (mergeRanges_spec (cf_prefixes c)) as [Hn Hc]; [by apply feed_prefixes_ok|].
  destruct (splitFamilies_spec _ _ _ Hn Hr) as (E & _ & _). split.
  - rewrite E in Hn. apply Normal_app in Hn as [N4 N6]. unfold family. by destruct (Is4 b).
  - intros a Ha Hab. unfold family. rewrite <- Hab.
    rewrite <- (splitFamilies_covers _ _ _ a Hn Ha Hr), Hc by done. unfold names. rewrite Forall_forall in Hp.
    split; [by intros (p & ? & _ & ?); eauto|]. intros (p & Hin & ?). exists p. split; [done|]. split; [by apply Hp|done].
Qed.

(** The page that warns of a lockout asks the stored copy of a feed, and gets
    the answer of the kernel: an address is in the copy exactly when a lookup in
    the interval set that an apply or a refresh fills from that copy finds it. *)
Theorem FeedStore_Contains_is_the_kernels read id a s c m s' :
  store_ok s → addr_ok a → load read s = (Some m, s') → m !! id = Some c →
  (FeedStore_Contains read id (Some a) s).1 =
  in_interval_set (feed_elements (negb (Is4 a)) (cf_prefixes c)) (AsSlice a).
Proof.
  intros Hs Ha Hl Hc. destruct (load_ok _ _ _ _ Hs Hl) as [_ Hm]. cbn in Hm.
  pose proof (map_Forall_lookup_1 _ _ _ _ Hm Hc) as Hok. assert ((FeedStore_Contains read id (Some a) s).1 = overlapsAny (family c a) (mkRange a a)) as ->
    by (unfold FeedStore_Contains; rewrite Hl; cbn; by rewrite Hc).
  destruct (family_spec c a Hok) as [Hn Hcov]. apply eq_iff_eq_true.
  rewrite overlapsAny_spec by (done || (split; cbn; done || lia)).
  rewrite feed_elements_lookup by (done || apply feed_prefixes_ok, Hok).
  destruct Hok as [Hp _ _]. rewrite Forall_forall in Hp. split.
  - intros (b & Hb & [H1 H2] & Hx). cbn in H1, H2. assert (b = a) as -> by (apply key_inj; [done..|lia]).
    apply Hcov in Hx as (p & Hin & ?); [|done..]. exists p. split; [done|]. split; [by apply Hp|done].
  - intros (p & Hin & _ & Hp'). exists a. split; [done|]. split; [split; cbn; lia|]. apply Hcov; [done..|]. by exists p.
Qed.

(** *** The allowlist *)

(** The addresses an entry of the allowlist lets through. *)
Definition entry_names (e : string) (a : addr) : Prop :=
  match ParseAddr (TrimSpace e) with
  | Some b => a = Unmap b
  | None => match ParseNetwork (TrimSpace e) with Some p => Contains p a = true | None => False end
  end.

Lemma entry_range_spec e r :
  "%"%char ∉ bytes e → entry_range e = Some r →
  range_ok r ∧ ∀ a, addr_ok a → in_range r a ↔ entry_names e a.
Proof.
  intros Hpct. unfold entry_range, entry_names. cbv zeta. destruct (ParseAddr (TrimSpace e)) as [b|] eqn:Eb.
  - intros [= <-]. assert (addr_ok (Unmap b)) as Hb.
    { apply Unmap_ok. split; [by eapply ParseAddr_range|]. apply (ParseAddr_zone _ _ Eb). by intros ?%TrimSpace_bytes. }
    split; [split; cbn; done || lia|]. intros a Ha. unfold in_range. cbn. split.
    + intros ?. apply key_inj; [done..|lia].
    + intros ->. lia.
  - destruct (ParseNetwork (TrimSpace e)) as [p|] eqn:Ep; [|done]. intros [= <-].
    apply ParseNetwork_ok in Ep as [Hp Hb Hm _].
    assert (IsValid p = true) as Hv by (unfold IsValid; apply andb_true_iff; split; apply Z.leb_le; lia).
    assert (mkRange (p_addr p) (lastAddr p) = range_of p) as ->.
    { unfold range_of, Masked. cbn. by rewrite Hm. }
    split; [by apply range_of_ok|]. intros a Ha. by apply range_of_contains.
Qed.

Lemma entry_overlaps_spec c e :
  cached_ok c → "%"%char ∉ bytes e →
  entry_overlaps c e = true ↔ ∃ a, addr_ok a ∧ entry_names e a ∧ names (cf_prefixes c) a.
Proof.
  intros Hc He. unfold entry_overlaps. destruct (entry_range e) as [r|] eqn:Er.
  - destruct (entry_range_spec e r He Er) as [Hr Hin]. destruct (family_spec c (r_from r) Hc) as [Hn Hcov].
    rewrite overlapsAny_spec by done.
    assert (∀ a, addr_ok a → in_range r a → Is4 a = Is4 (r_from r)) as Hfam.
    { intros a Ha [H1 H2]. destruct Hr. by apply (key_family _ (r_to r)). }
    split; intros (a & Ha & H1 & H2); exists a; (split; [done|]).
    + split; [by apply Hin|]. apply Hcov; auto.
    + apply Hin in H1; [|done]. split; [done|]. apply Hcov; auto.
  - split; [done|]. intros (a & _ & Hn & _). revert Er Hn. unfold entry_range, entry_names. cbv zeta.
    destruct (ParseAddr _); [done|]. by destruct (ParseNetwork _).
Qed.

(** The note in a feed's row.  The number of allowlist entries a feed overlaps
    is the number of those that name an address the copy names too; comments and
    entries of the other family count for nothing. *)
Theorem AllowlistOverlap_counts read id allowlist s c m s' (P : string → Prop) `{!∀ e, Decision (P e)} :
  store_ok s → load read s = (Some m, s') → m !! id = Some c →
  Forall (λ e, "%"%char ∉ bytes e) allowlist →
  (∀ e, P e ↔ ∃ a, addr_ok a ∧ entry_names e a ∧ names (cf_prefixes c) a) →
  (AllowlistOverlap read id allowlist s).1 = zlen (filter P allowlist).
Proof.
  intros Hs Hl Hc He HP. destruct (load_ok _ _ _ _ Hs Hl) as [_ Hm]. cbn in Hm.
  pose proof (map_Forall_lookup_1 _ _ _ _ Hm Hc) as Hok. unfold AllowlistOverlap. rewrite Hl. cbn. rewrite Hc. cbn.
  f_equal. induction He as [|e l He Hl' IH]; [done|].
  pose proof (entry_overlaps_spec c e Hok He) as Hspec. rewrite <- HP in Hspec.
  destruct (decide (P e)) as [Hp|Hp].
  - rewrite !filter_cons_True by tauto. by rewrite IH.
  - rewrite !filter_cons_False by tauto. done.
Qed.

(** ** What a restart reads *)

(** A copy, apart from when it was last checked. *)
Definition unchecked : cachedFeed → cachedFeed := check_off None.

Definition synced (s : FeedStore) : Prop :=
  match fs_feeds s with
  | Some m => unchecked <$> m = unchecked <$> file_feeds (fs_file s)
  | None => True
  end.

Lemma parse_prefixStrings ps : Forall feed_prefix ps → omap ParsePrefix (prefixStrings ps) = ps.
Proof.
  induction 1 as [|p ps [Hp Hv] _ IH]; [done|]. unfold prefixStrings in *. cbn [map omap list_omap].
  by rewrite ParsePrefix_String, IH.
Qed.

(** A copy that is stored is read back whole. *)
Lemma newCachedFeed_full c : cached_ok c → newCachedFeed (full_record c) = c.
Proof.
  intros [Hp Hr Hrec]. destruct c as [rec ps r4 r6]. cbn [cf_prefixes cf_ranges4 cf_ranges6 cf_rec] in *.
  unfold newCachedFeed, full_record. cbn [cf_prefixes cf_rec with_prefixes sf_Prefixes].
  rewrite parse_prefixStrings, Hr by done. f_equal. destruct rec. cbn in *. by subst.
Qed.

Lemma file_feeds_full m : map_Forall (λ _, cached_ok) m → file_feeds (SfDoc (full_record <$> m)) = m.
Proof.
  intros Hm. cbn. apply map_eq. intros id. rewrite !lookup_fmap. destruct (m !! id) as [c|] eqn:E; [|done].
  change (Some (newCachedFeed (full_record c)) = Some c). rewrite newCachedFeed_full; [done|].
  exact (map_Forall_lookup_1 _ _ _ _ Hm E).
Qed.

Lemma check_off_ok t c : cached_ok c → cached_ok (check_off t c).
Proof. by intros [? ? ?]; split. Qed.

Lemma check_off_unchecked t c : unchecked (check_off t c) = unchecked c.
Proof. by destruct c as [[]]. Qed.

Lemma Put_ok read wr id f keep s ok s' :
  store_ok s → synced s → Put read wr id f keep s = (ok, s') → store_ok s' ∧ synced s'.
Proof.
  intros Hs Hy. unfold Put. destruct (load read s) as [m s1] eqn:El.
  destruct (load_ok _ _ _ _ Hs El) as [Hs1 Hm]. apply load_cases in El as (Ef & Hcase).
  assert (synced s1) as Hy1.
  { destruct Hcase as [(_ & -> & _)|(c & _ & Hc & Hor)]; [done|]. unfold synced in *. rewrite Hc, Ef.
    destruct Hor as [Hor|[_ ->]]; [by rewrite Hor in Hy|done]. }
  destruct m as [m|]; [|by intros [= <- <-]]. cbn in Hm. destruct (only_checked id f keep m).
  - intros [= <- <-]. split; cbn.
    + intros id' c [(<- & c1 & Hc & ->)|[_ Hc]]%lookup_alter_Some; [apply check_off_ok|]; exact (map_Forall_lookup_1 _ _ _ _ Hm Hc).
    + destruct Hcase as [(? & _)|(c & [= <-] & Hc & _)]; [done|]. unfold synced in Hy1. rewrite Hc in Hy1.
      rewrite <- Hy1. apply map_eq. intros id'. rewrite !lookup_fmap. destruct (decide (id' = id)) as [->|].
      * rewrite lookup_alter_eq. destruct (_ !! id); cbn; [by rewrite check_off_unchecked|done].
      * by rewrite lookup_alter_ne.
  - destruct wr; cbn [write]; intros [= <- <-]; [|done].
    assert (map_Forall (λ _, cached_ok) (filter (λ x, x.1 ∈ keep) (<[id:=newCachedFeed f]> m))) as Hn.
    { intros id' c [Hc _]%map_lookup_filter_Some. revert id' c Hc.
      apply map_Forall_insert_2; [apply newCachedFeed_ok|done]. }
    split; [done|]. unfold synced. cbn [fs_feeds fs_file]. by rewrite file_feeds_full.
Qed.

(** ** What [Put] leaves *)

(** What the next read finds. *)
Definition store_feeds (s : FeedStore) : gmap string cachedFeed :=
  match fs_feeds s with Some m => m | None => file_feeds (fs_file s) end.

Lemma load_view read s m s' :
  load read s = (m, s') →
  fs_file s' = fs_file s ∧ store_feeds s' = store_feeds s ∧ (∀ c, m = Some c → c = store_feeds s).
Proof.
  intros (Ef & [(-> & -> & _)|(c & -> & Hc & Hor)])%load_cases; [by split_and!|]. unfold store_feeds. rewrite Hc.
  destruct Hor as [->|[-> ->]]; split_and!; naive_solver.
Qed.

Lemma store_feeds_ok s : store_ok s → map_Forall (λ _, cached_ok) (store_feeds s).
Proof. unfold store_ok, store_feeds. destruct (fs_feeds s); [done|]. intros _. apply file_feeds_ok. Qed.

Lemma Put_refused read wr id f keep s s' :
  Put read wr id f keep s = (false, s') → fs_file s' = fs_file s ∧ store_feeds s' = store_feeds s.
Proof.
  unfold Put. destruct (load read s) as [[m|] s1] eqn:El; apply load_view in El as (E1 & E2 & _); [|by intros [= <-]].
  destruct (only_checked _ _ _ _); [done|]. destruct wr; cbn [write]; [done|]. by intros [= <-].
Qed.

(** When only [checked_at] moved, the copy in the cache becomes the one that would
    have been written. *)
Lemma only_checked_spec id f keep m :
  map_Forall (λ _, cached_ok) m → only_checked id f keep m = true →
  alter (check_off (sf_CheckedAt f)) id m = filter (λ x, x.1 ∈ keep) (<[id := newCachedFeed f]> m).
Proof.
  intros Hm. unfold only_checked. destruct (m !! id) as [c|] eqn:Ec; [|done].
  rewrite !andb_true_iff, !bool_decide_eq_true, !Z.eqb_eq. intros [[[[E1 E2] E3] E4] Hkeep].
  rewrite forallb_forall in Hkeep.
  assert (∀ id' c', m !! id' = Some c' → id' ∈ keep) as Hk.
  { intros id' c' Hc'. specialize (Hkeep (id', c')). rewrite <- list_elem_of_In, elem_of_map_to_list in Hkeep.
    exact (bool_decide_eq_true_1 _ (Hkeep Hc')). }
  pose proof (map_Forall_lookup_1 _ _ _ _ Hm Ec) as [Hp Hr Hrec].
  assert (newCachedFeed f = check_off (sf_CheckedAt f) c) as Hnew.
  { unfold newCachedFeed. rewrite <- E4, parse_prefixStrings, Hr by done. unfold check_off, with_prefixes, with_checked.
    rewrite Hrec. by rewrite <- E1, <- E2, <- E3. }
  apply map_eq. intros id'. rewrite map_lookup_filter. destruct (decide (id' = id)) as [->|Hne].
  - rewrite lookup_alter_eq, lookup_insert_eq, Ec. cbn. rewrite <- Hnew. case_guard as Hn; [done|]. destruct Hn. by eapply Hk.
  - rewrite lookup_alter_ne, lookup_insert_ne by done. destruct (m !! id') as [c'|] eqn:E'; [|done]. cbn.
    case_guard as Hn; [done|]. destruct Hn. by eapply Hk.
Qed.

(** The store after a [Put]: the new copy, and the old ones that are kept. *)
Lemma Put_stored read wr id f keep s s' :
  store_ok s → Put read wr id f keep s = (true, s') →
  store_feeds s' = filter (λ x, x.1 ∈ keep) (<[id := newCachedFeed f]> (store_feeds s)).
Proof.
  intros Hs. unfold Put. destruct (load read s) as [[m|] s1] eqn:El; [|done].
  destruct (load_ok _ _ _ _ Hs El) as [_ Hm]. cbn in Hm. apply load_view in El as (_ & _ & Ec).
  specialize (Ec m eq_refl) as ->. destruct (only_checked _ _ _ _) eqn:Eo.
  - intros [= <-]. cbn. by apply only_checked_spec.
  - destruct wr; cbn [write]; [|done]. by intros [= <-].
Qed.

(** ** The life of a store *)

(** A store over some file, after any calls of its methods. *)
Inductive store_reach : FeedStore → Prop :=
| reach_new file : store_reach (NewFeedStore file)
| reach_load read s : store_reach s → store_reach (load read s).2
| reach_put read wr id f keep s : store_reach s → store_reach (Put read wr id f keep s).2.

Lemma store_reach_inv s : store_reach s → store_ok s ∧ synced s.
Proof.
  induction 1 as [file|read s _ [Hs Hy]|read wr id f keep s _ [Hs Hy]]; [done| |].
  - destruct (load read s) as [m s'] eqn:El. split; [by eapply load_ok|].
    apply load_cases in El as (Ef & [(_ & -> & _)|(c & _ & Hc & Hor)]); [done|]. unfold synced in *. cbn. rewrite Hc, Ef.
    destruct Hor as [Hor|[_ ->]]; [by rewrite Hor in Hy|done].
  - destruct (Put read wr id f keep s) as [ok s'] eqn:E. by eapply Put_ok.
Qed.

(** A restart loses nothing.  Whatever has been read and written, the prefixes an
    apply gets from the running store are those it would get from a store opened
    on the file, and the records agree in everything but when a feed was last
    checked, which is the one thing that is kept in memory only. *)
Theorem feed_store_survives_restart s read ids out :
  store_reach s → (Contents read ids s).1 = Some out →
  (Contents true ids (NewFeedStore (fs_file s))).1 = Some out ∧
  ∀ recs fresh, (All read s).1 = Some recs → (All true (NewFeedStore (fs_file s))).1 = Some fresh →
    with_checked None <$> recs = with_checked None <$> fresh.
Proof.
  intros [Hs Hy]%store_reach_inv. unfold Contents, All.
  destruct (load read s) as [m s1] eqn:E1, (load true (NewFeedStore (fs_file s))) as [m2 s2] eqn:E2.
  apply load_cases in E2 as (_ & [(_ & _ & ?)|(c2 & -> & _ & [[=]|[_ ->]])]); [done|].
  apply load_cases in E1 as (_ & [(-> & _)|(c & -> & _ & Hor)]); [done|]. cbn [fst fs_file NewFeedStore].
  assert (unchecked <$> c = unchecked <$> file_feeds (fs_file s)) as Heq.
  { unfold synced in Hy. destruct Hor as [Hor|[_ ->]]; [by rewrite Hor in Hy|done]. }
  intros [= <-]. split.
  - f_equal. assert (∀ m : gmap string cachedFeed, cf_prefixes <$> filter (λ x, x.1 ∈ ids) m =
      filter (λ x, x.1 ∈ ids) (cf_prefixes <$> (unchecked <$> m))) as H.
    { intros m. apply map_eq. intros id. rewrite lookup_fmap, !map_lookup_filter, !lookup_fmap.
      destruct (m !! id) as [x|]; [|done]. cbn. by case_guard. }
    by rewrite !H, Heq.
  - intros recs fresh [= <-] [= <-].
    assert (∀ m : gmap string cachedFeed, with_checked None <$> (cf_rec <$> m) = cf_rec <$> (unchecked <$> m)) as H.
    { intros m. by rewrite <- !map_fmap_compose. }
    by rewrite !H, Heq.
Qed.

Definition example_feed : storedFeed := mkStoredFeed ["1.2.3.0/24"; "2a00::/29"] 2 1 (Some 5) (Some 5).
Definition example_store : FeedStore := (Put true true "dshield" example_feed ["dshield"] (NewFeedStore SfMissing)).2.

Lemma feed_store_survives_restart_witness :
  store_reach example_store ∧
  ∃ out, (Contents true ["dshield"] example_store).1 = Some out ∧
         out !! "dshield" = Some [Prefix (Addr4 0x01020300) 24; Prefix (Addr6 (0x2a00 * 2 ^ 112) "") 29] ∧
         (Contents true ["dshield"] (NewFeedStore (fs_file example_store))).1 = Some out.
Proof.
  assert (store_reach example_store) as Hr by (apply reach_put, reach_new).
  split; [exact Hr|]. eexists. split; [reflexivity|]. split; [vm_compute; reflexivity|].
  exact (proj1 (feed_store_survives_restart example_store true ["dshield"] _ Hr eq_refl)).
Defined.

Lemma FeedStore_Contains_is_the_kernels_witness :
  ∃ m s' c, load true example_store = (Some m, s') ∧ m !! "dshield" = Some c ∧
    (FeedStore_Contains true "dshield" (Some (Addr4 0x010203ff)) example_store).1 =
    in_interval_set (feed_elements false (cf_prefixes c)) (AsSlice (Addr4 0x010203ff)).
Proof.
  do 3 eexists. split; [reflexivity|]. split; [vm_compute; reflexivity|].
  eapply (FeedStore_Contains_is_the_kernels true "dshield" (Addr4 0x010203ff) example_store).
  - apply (proj1 (store_reach_inv example_store (reach_put _ _ _ _ _ _ (reach_new _)))).
  - split; [vm_compute; split; congruence|reflexivity].
  - reflexivity.
  - vm_compute. reflexivity.
Defined.

(** ** The world's store *)

(** What the world of the apply cycle keeps of the file and of the cache. *)
Definition abs_file (f : StoreFile) : FeedsFile :=
  match f with
  | SfMissing => FFMissing
  | SfGarbage => FFGarbage
  | SfDoc recs => FFDoc (cf_prefixes <$> (newCachedFeed <$> recs))
  end.

Definition abs_cache (m : option (gmap string cachedFeed)) : option FeedContents :=
  match m with Some m => Some (cf_prefixes <$> m) | None => None end.

(** The apply cycle's model of the feeds is an abstraction of the store: reading
    the prefixes of some feeds through the file, its records and its cache is
    reading the map of prefixes the cycle works on, errors included. *)
Theorem Contents_refines_the_world read ids s :
  (Contents read ids s).1 =
  match feeds_load read (abs_file (fs_file s)) (abs_cache (fs_feeds s)) with
  | Some m => Some (feeds_Contents ids m)
  | None => None
  end.
Proof.
  assert (∀ m : gmap string cachedFeed, cf_prefixes <$> filter (λ x, x.1 ∈ ids) m = feeds_Contents ids (cf_prefixes <$> m)) as H.
  { intros m. unfold feeds_Contents. apply map_eq. intros id. rewrite lookup_fmap, !map_lookup_filter, !lookup_fmap.
    destruct (m !! id) as [x|]; [|done]. cbn. by case_guard. }
  unfold Contents, load. destruct (fs_feeds s) as [m|]; [cbn; by rewrite H|].
  destruct (fs_file s) as [| |recs]; [|destruct read|destruct read]; cbn; by rewrite ?H, ?fmap_empty.
Qed.
