(* ===== verification/FeedUpdate.v ===== *)
(** * Feed updates

    [src/internal/core/feeds.go] and [ReplaceFeedSet] of
    [src/internal/core/nftables_feeds.go]: what the core keeps of a list the web
    process sends, when it refuses it, and what it writes to the kernel and to
    the store.  [UpdateFeed] holds the apply slot from its check on, so it is one
    step; what other goroutines and the system answer on the way is its input. *)
From S2P Require Import Prelude GoStrings GoNet NetBytes Models FeedIDs Validate Reach PacketLog FeedRanges Nft Matchers Builders.
From S2P Require Import Diff Acceptance RulesStore Usage Kernel World NetString FeedStore.

Local Open Scope Z_scope.

(** ** What may be in a feed *)

Definition must (s : string) : prefix := default (Prefix (Addr4 0) 0) (ParsePrefix s).

Definition nonGlobalV4 : list prefix :=
  map must ["0.0.0.0/8"; "10.0.0.0/8"; "100.64.0.0/10"; "127.0.0.0/8"; "169.254.0.0/16"; "172.16.0.0/12";
            "192.168.0.0/16"; "224.0.0.0/3"].
Definition globalV6 : prefix := must "2000::/3".
Definition docV6 : prefix := must "2001:db8::/32".

(** [netip.Prefix.Overlaps] *)
Definition Overlaps (p o : prefix) : bool :=
  if negb (IsValid p) || negb (IsValid o) then false
  else if bool_decide (p = o) then true
  else if negb (Bool.eqb (Is4 (p_addr p)) (Is4 (p_addr o))) then false
  else
    let minBits := if p_bits p <? p_bits o then p_bits p else p_bits o in
    if minBits =? 0 then true
    else bool_decide (mask_addr (p_addr p) minBits = mask_addr (p_addr o) minBits).

Definition isGlobal (p : prefix) : bool :=
  if Is6 (p_addr p)
  then (p_bits globalV6 <=? p_bits p) && Contains globalV6 (p_addr p) && negb (Overlaps docV6 p)
  else forallb (λ n, negb (Overlaps n p)) nonGlobalV4.

Definition entirelyNonGlobal (p : prefix) : bool :=
  if Is6 (p_addr p)
  then if negb (Overlaps globalV6 p) then true
       else (p_bits docV6 <=? p_bits p) && Contains docV6 (p_addr p)
  else existsb (λ n, (p_bits n <=? p_bits p) && Contains n (p_addr p)) nonGlobalV4.

(** [feedPrefix]; [PrefixFrom] drops a zone, and the caller then refuses it. *)
Definition feedPrefix (e : string) : option prefix :=
  match ParseAddr e with
  | Some a => let a := Unmap a in if is_empty (Zone a) then Some (Prefix a (BitLen a)) else None
  | None =>
      match ParsePrefix e with
      | None => None
      | Some p =>
          if Is4In6 (p_addr p) then
            if p_bits p <? 96 then None
            else Some (Masked (Unmap (p_addr p)) (p_bits p - 96))
          else Some (Masked (p_addr p) (p_bits p))
      end
  end.

Definition FeedMaxEntries : Z := 100000.
Definition FeedShrinkPercent : Z := 70.
Definition FeedMaxBits (id : string) : Z * Z := if IsCountryFeedID id then (4, 16) else (8, 16).

Inductive EntryError :=
| TooManyEntries (n : Z)
| BadEntry (i : Z)
| TooBroad (p : prefix) (maxV4 maxV6 : Z).

(** [err.Error()] *)
Definition EntryErrorText (e : EntryError) : string :=
  match e with
  | TooManyEntries n => Itoa n +:+ " entries; a feed may hold at most " +:+ Itoa FeedMaxEntries
  | BadEntry i => "entry " +:+ Itoa i +:+ " is not an address or a prefix"
  | TooBroad p v4 v6 =>
      Prefix_String p +:+ " is broader than /" +:+ Itoa v4 +:+ " (IPv4) or /" +:+ Itoa v6 +:+ " (IPv6)"
  end.

(** The comparison [kept] is sorted by. *)
Definition prefix_le (a b : prefix) : Prop :=
  match Compare (p_addr a) (p_addr b) with Lt => True | Gt => False | Eq => p_bits a <= p_bits b end.

#[global] Instance prefix_le_dec a b : Decision (prefix_le a b).
Proof. unfold prefix_le. destruct (Compare _ _); apply _. Defined.

(** The loop of [validateFeedEntries].  The set [seen] always holds exactly the
    prefixes of [kept]. *)
Fixpoint keep_entries (maxV4 maxV6 : Z) (i : Z) (entries : list string) (kept : list prefix) (dropped : Z)
    : result EntryError (list prefix * Z) :=
  match entries with
  | [] => Ok (kept, dropped)
  | e :: entries =>
      match feedPrefix (TrimSpace e) with
      | None => Err (BadEntry (i + 1))
      | Some p =>
          if entirelyNonGlobal p then keep_entries maxV4 maxV6 (i + 1) entries kept (dropped + 1)
          else if (Is4 (p_addr p) && (p_bits p <? maxV4)) || (Is6 (p_addr p) && (p_bits p <? maxV6))
          then Err (TooBroad p maxV4 maxV6)
          else if negb (isGlobal p) then keep_entries maxV4 maxV6 (i + 1) entries kept (dropped + 1)
          else keep_entries maxV4 maxV6 (i + 1) entries
                 (if bool_decide (p ∈ kept) then kept else kept ++ [p]) dropped
      end
  end.

Definition validateFeedEntries (id : string) (entries : list string) : result EntryError (list prefix * Z) :=
  let '(maxV4, maxV6) := FeedMaxBits id in
  if FeedMaxEntries <? zlen entries then Err (TooManyEntries (zlen entries))
  else
    let? r := keep_entries maxV4 maxV6 0 entries [] 0 in
    Ok (merge_sort prefix_le (fst r), snd r).

Example validateFeedEntries_ex :
  validateFeedEntries "dshield" ["8.8.8.0/24"; "10.0.0.0/8"; "224.0.0.0/3"; "::ffff:1.1.1.1"; " 8.8.8.0/24"; "2001:db8::1"; "1.1.1.1"] =
  Ok ([Prefix (Addr4 0x01010101) 32; Prefix (Addr4 0x08080800) 24], 3) ∧
  validateFeedEntries "dshield" ["8.8.8.0/24"; "0.0.0.0/0"] = Err (TooBroad (Prefix (Addr4 0) 0) 8 16).
Proof. split; vm_compute; reflexivity. Qed.

(** ** Private addresses *)

(** The addresses no feed may hold. *)
Definition non_global (a : addr) : bool :=
  if Is6 a then negb (Contains globalV6 a) || Contains docV6 a
  else existsb (λ n, Contains n a) nonGlobalV4.

Lemma shiftr_shorter w m b x y :
  0 <= m <= b → b <= w → Z.shiftr x (w - b) = Z.shiftr y (w - b) → Z.shiftr x (w - m) = Z.shiftr y (w - m).
Proof.
  intros Hm Hb H. replace (w - m) with ((w - b) + (b - m)) by lia.
  rewrite <- !Z.shiftr_shiftr by lia. by rewrite H.
Qed.

(** Two prefixes that share an address overlap. *)
Lemma Overlaps_common p o a :
  IsValid p = true → IsValid o = true → Zone (p_addr p) = "" → Zone (p_addr o) = "" →
  Contains p a = true → Contains o a = true → Overlaps p o = true.
Proof.
  intros Vp Vo Zp Zo Hp Ho. unfold Overlaps. rewrite Vp, Vo. cbn [negb orb]. case_bool_decide; [done|].
  unfold IsValid in Vp, Vo. breflect. unfold Contains in Hp, Ho.
  destruct p as [[x|x zx] bp], o as [[y|y zy] bo], a as [v|v z]; cbn [p_addr p_bits Is4 Is6 negb Bool.eqb BitLen Zone] in *;
    try done; cbv zeta; breflect; subst;
    (destruct (Z.ltb_spec bp bo); (destruct (_ =? 0); [done|]); apply bool_decide_eq_true; cbn [mask_addr]; f_equal;
     (apply mask_bits_eq_iff; [lia|]);
     (etrans; [(eapply shiftr_shorter; [| |eassumption]; lia)|symmetry; (eapply shiftr_shorter; [| |eassumption]; lia)])).
Qed.

(** A prefix inside another names only its addresses. *)
Lemma Contains_inside g p a :
  0 <= p_bits g <= p_bits p → p_bits p <= BitLen (p_addr p) → Contains g (p_addr p) = true → Contains p a = true →
  Contains g a = true.
Proof.
  intros Hb Hl Hg Hp. unfold Contains in *.
  destruct g as [[x|x zx] bg], p as [[y|y zy] bp], a as [v|v z]; cbn [p_addr p_bits BitLen] in *; try done; breflect;
    [|apply andb_true_iff; split; [done|]]; apply Z.eqb_eq; (etrans; [eassumption|]);
    (eapply shiftr_shorter; [| |eassumption]; lia).
Qed.

Lemma nonGlobalV4_valid n : n ∈ nonGlobalV4 → IsValid n = true ∧ Zone (p_addr n) = "" ∧ 0 <= p_bits n ∧ Is4 (p_addr n) = true.
Proof.
  intros Hn. assert (Forall (λ n, IsValid n = true ∧ Zone (p_addr n) = "" ∧ 0 <= p_bits n ∧ Is4 (p_addr n) = true) nonGlobalV4) as H.
  { repeat constructor; vm_compute; congruence. }
  rewrite Forall_forall in H. by apply H.
Qed.

(** A prefix of the wire: valid and without a zone. *)
Definition wire_prefix (p : prefix) : Prop := IsValid p = true ∧ Zone (p_addr p) = "".

Lemma Contains_self p : Zone (p_addr p) = "" → Contains p (p_addr p) = true.
Proof. intros Hz. unfold Contains. destruct p as [[x|x z] b]; cbn in *; subst; by rewrite ?Z.eqb_refl. Qed.

(** What [isGlobal] lets through names no address that is not global. *)
Lemma isGlobal_safe p a : wire_prefix p → isGlobal p = true → Contains p a = true → non_global a = false.
Proof.
  intros [Hv Hz] Hg Ha. unfold isGlobal, non_global in *.
  assert (Is6 a = Is6 (p_addr p)) as Hfam by (unfold Contains in Ha; destruct (p_addr p), a; done).
  rewrite Hfam. pose proof Hv as Hb. unfold IsValid in Hb. breflect. destruct (Is6 (p_addr p)) eqn:E6; breflect.
  - rewrite orb_false_iff, negb_false_iff. split.
    + eapply Contains_inside; [|exact H0|done|done]. split; [by vm_compute|done].
    + apply not_true_iff_false. intros Hd. assert (Overlaps docV6 p = true); [|congruence].
      by apply (Overlaps_common _ _ a).
  - apply not_true_iff_false. rewrite existsb_exists. intros (n & Hn & Hc). rewrite forallb_forall in Hg.
    specialize (Hg n Hn). apply negb_true_iff in Hg. apply list_elem_of_In, nonGlobalV4_valid in Hn as (? & ? & _).
    by rewrite (Overlaps_common n p a) in Hg.
Qed.

(** What is wholly non-global is not global. *)
Lemma entirelyNonGlobal_not_global p : wire_prefix p → entirelyNonGlobal p = true → isGlobal p = false.
Proof.
  intros [Hv Hz] He. apply not_true_iff_false. intros Hg. pose proof (Contains_self p Hz) as Hc.
  pose proof (isGlobal_safe p (p_addr p) (conj Hv Hz) Hg Hc) as Hn.
  unfold entirelyNonGlobal, non_global in *. destruct (Is6 (p_addr p)).
  - apply orb_false_iff in Hn as [Hn1 Hn2]. apply negb_false_iff in Hn1.
    rewrite (Overlaps_common globalV6 p (p_addr p)) in He by done. cbn [negb] in He. breflect. congruence.
  - apply existsb_exists in He as (n & Hin & Hb). breflect. apply not_true_iff_false in Hn. apply Hn.
    apply existsb_exists. eauto.
Qed.

(** ** What the entries become *)

Lemma mask_not_mapped a b : 0 <= b <= BitLen a → Is4In6 a = false → Is4In6 (mask_addr a b) = false.
Proof.
  intros Hb. destruct a as [n|n z]; [done|]. cbn in Hb. cbn [mask_addr]. intros H4.
  destruct (Z.lt_ge_cases b 96); [by apply short_mask_not_mapped; lia|].
  unfold Is4In6 in *. unfold mask_bits. apply Z.eqb_neq in H4. apply Z.eqb_neq. intros E. apply H4. rewrite <- E.
  replace 32 with ((128 - b) + (b - 96)) by lia. rewrite <- !Z.shiftr_shiftr by lia. f_equal.
  by rewrite Z.shiftr_shiftl_l, Z.sub_diag, Z.shiftl_0_r by lia.
Qed.

Lemma feedPrefix_ok e p : feedPrefix e = Some p → net_ok p.
Proof.
  unfold feedPrefix. destruct (ParseAddr e) as [a|] eqn:E.
  - cbv zeta. destruct (is_empty (Zone (Unmap a))) eqn:Ez; [|done]. intros [= <-].
    apply ParseAddr_range in E. split; cbn [p_addr p_bits].
    + split; [|by destruct (Zone (Unmap a))]. unfold Unmap. destruct a as [n|n z]; [done|].
      destruct (Is4In6 _); cbn in *; [apply Z.mod_pos_bound|]; lia.
    + by destruct (Unmap a).
    + apply full_mask.
    + apply Unmap_not_mapped.
  - clear E. destruct (ParsePrefix e) as [p'|] eqn:E; [|done]. apply ParsePrefix_ok in E as [Hp Hv].
    unfold IsValid in Hv. apply andb_true_iff in Hv as [Hb1%Z.leb_le Hb2%Z.leb_le]. unfold prefix_ok in Hp. destruct (Is4In6 (p_addr p')) eqn:H4.
    + destruct (Z.ltb_spec (p_bits p') 96) as [|H96]; [done|]. intros [= <-]. pose proof (Unmap_ok _ Hp) as Hu.
      destruct p' as [[v|v z] b]; [done|]. cbn [p_addr p_bits] in *. unfold Unmap in *. rewrite H4 in *.
      cbn in Hb2, H96 |- *. split; cbn [Masked p_addr p_bits mask_addr].
      * apply (mask_addr_ok (Addr4 _) (b - 96)); [done|cbn; lia].
      * cbn. lia.
      * by rewrite mask_bits_idemp by lia.
      * done.
    + intros [= <-]. split; cbn [Masked p_addr p_bits].
      * by apply mask_addr_ok.
      * by rewrite BitLen_mask.
      * by apply mask_addr_idemp.
      * by apply mask_not_mapped.
Qed.

Lemma net_ok_wire p : net_ok p → wire_prefix p.
Proof.
  intros [[_ Hz] Hb _ _]. split; [|done]. unfold IsValid. apply andb_true_iff. split; apply Z.leb_le; lia.
Qed.

(** ** What is kept of a list *)

Definition entry_prefix (e : string) : option prefix := feedPrefix (TrimSpace e).

(** An entry that is global. *)
Definition global_entry (e : string) : bool :=
  match entry_prefix e with Some p => isGlobal p | None => false end.

(** An entry the update is not refused for. *)
Definition entry_ok (id : string) (e : string) : Prop :=
  ∃ p, entry_prefix e = Some p ∧
    (entirelyNonGlobal p = true ∨ (if Is4 (p_addr p) then (FeedMaxBits id).1 else (FeedMaxBits id).2) <= p_bits p).

Definition narrow (maxV4 maxV6 : Z) (p : prefix) : Prop :=
  (if Is4 (p_addr p) then maxV4 else maxV6) <= p_bits p.

Lemma narrow_spec maxV4 maxV6 p :
  (Is4 (p_addr p) && (p_bits p <? maxV4)) || (Is6 (p_addr p) && (p_bits p <? maxV6)) = false ↔ narrow maxV4 maxV6 p.
Proof.
  unfold narrow, Is4. destruct (Is6 (p_addr p)); cbn; [|rewrite orb_false_r]; apply Z.ltb_ge.
Qed.

Record kept_from (maxV4 maxV6 : Z) (entries : list string) (kept0 kept : list prefix) (dropped0 dropped : Z) : Prop := {
  kf_ok : Forall (λ e, ∃ p, entry_prefix e = Some p ∧ (entirelyNonGlobal p = true ∨ narrow maxV4 maxV6 p)) entries;
  kf_kept : ∀ p, p ∈ kept ↔ p ∈ kept0 ∨ isGlobal p = true ∧ ∃ e, e ∈ entries ∧ entry_prefix e = Some p;
  kf_nodup : NoDup kept0 → NoDup kept;
  kf_dropped : dropped = dropped0 + zlen (filter (λ e, global_entry e = false) entries) }.

Lemma zlen_cons {A} (x : A) l : zlen (x :: l) = 1 + zlen l.
Proof. unfold zlen. cbn [length]. lia. Qed.

Lemma keep_entries_spec maxV4 maxV6 i entries kept0 dropped0 :
  match keep_entries maxV4 maxV6 i entries kept0 dropped0 with
  | Ok (kept, dropped) => kept_from maxV4 maxV6 entries kept0 kept dropped0 dropped
  | Err _ => ¬ Forall (λ e, ∃ p, entry_prefix e = Some p ∧ (entirelyNonGlobal p = true ∨ narrow maxV4 maxV6 p)) entries
  end.
Proof.
  revert i kept0 dropped0. induction entries as [|e entries IH]; intros i kept0 dropped0; cbn [keep_entries].
  { split; [constructor| |done|by rewrite Z.add_0_r]. intros p. split; [by left|].
    by intros [?|(_ & e & ?%not_elem_of_nil & _)]. }
  fold (entry_prefix e). destruct (entry_prefix e) as [p|] eqn:Ep.
  2:{ intros (p & ? & _)%Forall_cons_1%proj1. congruence. }
  pose proof (net_ok_wire p (feedPrefix_ok _ _ Ep)) as Hw.
  assert (∀ i kept1 dropped1,
    (entirelyNonGlobal p = true ∨ narrow maxV4 maxV6 p) →
    (∀ q, q ∈ kept1 ↔ q ∈ kept0 ∨ q = p ∧ isGlobal p = true) → (NoDup kept0 → NoDup kept1) →
    dropped1 = dropped0 + (if isGlobal p then 0 else 1) →
    match keep_entries maxV4 maxV6 i entries kept1 dropped1 with
    | Ok (kept, dropped) => kept_from maxV4 maxV6 (e :: entries) kept0 kept dropped0 dropped
    | Err _ => ¬ Forall (λ e, ∃ p, entry_prefix e = Some p ∧ (entirelyNonGlobal p = true ∨ narrow maxV4 maxV6 p)) (e :: entries)
    end) as Hstep.
  { intros j kept1 dropped1 Hok Hk Hn Hd. specialize (IH j kept1 dropped1).
    destruct (keep_entries _ _ _ _ _ _) as [[kept dropped]|]; [|intros H; apply IH; by apply Forall_cons in H as [_ ?]].
    destruct IH as [H1 H2 H3 H4]. split.
    - constructor; [by exists p|done].
    - intros q. rewrite H2, Hk. setoid_rewrite elem_of_cons. split.
      + intros [[?|[-> ?]]|(? & e' & ? & ?)]; [by left|right..]; split; try done; eexists; eauto.
      + intros [?|(Hg & e' & [->|?] & Hq)]; [by left; left| |right; eauto].
        rewrite Ep in Hq. injection Hq as ->. left. by right.
    - auto.
    - rewrite H4, Hd. unfold global_entry. destruct (isGlobal p) eqn:Eg.
      + rewrite filter_cons_False; [lia|]. by rewrite Ep, Eg.
      + rewrite filter_cons_True by by rewrite Ep. rewrite zlen_cons. lia. }
  destruct (entirelyNonGlobal p) eqn:En.
  { pose proof (entirelyNonGlobal_not_global p Hw En) as Eg. apply Hstep; [by left| |done|by rewrite Eg].
    intros q. rewrite Eg. naive_solver. }
  destruct ((Is4 (p_addr p) && _) || _) eqn:Eb.
  { intros (q & Hq & Hor)%Forall_cons_1%proj1. rewrite Ep in Hq. injection Hq as <-.
    destruct Hor as [|Hna%narrow_spec]; congruence. }
  apply narrow_spec in Eb. destruct (isGlobal p) eqn:Eg; cbn [negb].
  - apply Hstep; [by right| | |lia].
    + intros q. case_bool_decide as Hin; [naive_solver|]. rewrite elem_of_app, list_elem_of_singleton. naive_solver.
    + intros Hnd. case_bool_decide; [done|]. apply NoDup_app. split; [done|]. split; [|apply NoDup_singleton].
      intros q Hq ->%list_elem_of_singleton. done.
  - apply Hstep; [by right| |done|lia]. intros q. naive_solver.
Qed.

(** The lists the core accepts, and what it keeps of them: the global prefixes,
    each once and in one order, and how many entries it dropped. *)
Definition acceptable (id : string) (entries : list string) : Prop :=
  zlen entries <= FeedMaxEntries ∧ Forall (entry_ok id) entries.

Record keeps (id : string) (entries : list string) (kept : list prefix) (dropped : Z) : Prop := {
  kp_kept : ∀ p, p ∈ kept ↔ isGlobal p = true ∧ ∃ e, e ∈ entries ∧ entry_prefix e = Some p;
  kp_nodup : NoDup kept;
  kp_sorted : Sorted prefix_le kept;
  kp_dropped : dropped = zlen (filter (λ e, global_entry e = false) entries) }.

#[global] Instance prefix_le_total : Total prefix_le.
Proof.
  intros a b. unfold prefix_le. destruct (p_addr a) as [m|m z], (p_addr b) as [n|n z']; cbn; [|by left|by right|].
  - rewrite (Z.compare_antisym m n). destruct (m ?= n); cbn; auto. lia.
  - rewrite (Z.compare_antisym m n), (String.compare_antisym z' z).
    destruct (m ?= n); cbn; auto. destruct (String.compare z z'); cbn; auto. lia.
Qed.

Lemma validateFeedEntries_spec id entries :
  match validateFeedEntries id entries with
  | Ok (kept, dropped) => acceptable id entries ∧ keeps id entries kept dropped
  | Err _ => ¬ acceptable id entries
  end.
Proof.
  unfold validateFeedEntries, acceptable. destruct (FeedMaxBits id) as [v4 v6] eqn:Em.
  destruct (Z.ltb_spec FeedMaxEntries (zlen entries)); [intros [? _]; lia|].
  pose proof (keep_entries_spec v4 v6 0 entries [] 0) as Hk.
  assert (∀ e, entry_ok id e ↔ ∃ p, entry_prefix e = Some p ∧ (entirelyNonGlobal p = true ∨ narrow v4 v6 p)) as Hiff.
  { intros e. unfold entry_ok, narrow. by rewrite Em. }
  destruct (keep_entries _ _ _ _ _ _) as [[kept dropped]|]; cbn [rbind fst snd].
  - destruct Hk as [H1 H2 H3 H4]. split; [split; [done|]|].
    + eapply Forall_impl; [exact H1|]. cbv beta. intros x. by rewrite Hiff.
    + pose proof (merge_sort_Permutation prefix_le kept) as Hp. split.
      * intros p. rewrite Hp, H2. split; [by intros [?%not_elem_of_nil|?]|by right].
      * rewrite Hp. apply H3, NoDup_nil_2.
      * apply Sorted_merge_sort, _.
      * by rewrite H4, Z.add_0_l.
  - intros [_ Hall]. apply Hk. eapply Forall_impl; [exact Hall|]. cbv beta. intros x. by rewrite Hiff.
Qed.

Lemma keeps_net_ok id entries kept dropped : keeps id entries kept dropped → Forall net_ok kept.
Proof.
  intros [Hk _ _ _]. apply Forall_forall. intros p (_ & e & _ & He)%Hk. by eapply feedPrefix_ok.
Qed.

(** *** One list for one set of prefixes *)

Definition key_le (a b : prefix) : Prop :=
  key (p_addr a) < key (p_addr b) ∨ key (p_addr a) = key (p_addr b) ∧ p_bits a <= p_bits b.

#[global] Instance key_le_trans : Transitive key_le.
Proof. intros a b c. unfold key_le. lia. Qed.

Lemma prefix_le_key a b : net_ok a → net_ok b → prefix_le a b → key_le a b.
Proof.
  intros Ha Hb. unfold prefix_le, key_le. rewrite Compare_key by (by apply no_addr).
  destruct (Z.compare_spec (key (p_addr a)) (key (p_addr b))); [by right|by left|done].
Qed.

Lemma Sorted_key_le l : Forall net_ok l → Sorted prefix_le l → StronglySorted key_le l.
Proof.
  intros Hl Hs. apply Sorted_StronglySorted; [apply _|].
  induction Hs as [|a l Hs IH Hd]; [constructor|]. apply Forall_cons in Hl as [Ha Hl]. constructor; [auto|].
  destruct Hd as [|b l Hd]; constructor. apply Forall_cons in Hl as [Hb _]. by apply prefix_le_key.
Qed.

Lemma keeps_unique id entries kept dropped id' entries' kept' dropped' :
  keeps id entries kept dropped → keeps id' entries' kept' dropped' →
  (∀ p, p ∈ kept ↔ p ∈ kept') → kept = kept'.
Proof.
  intros H1 H2 Hiff. pose proof (keeps_net_ok _ _ _ _ H1) as N1. pose proof (keeps_net_ok _ _ _ _ H2) as N2.
  apply (StronglySorted_unique_strong key_le).
  - intros x y Hx Hy Hxy Hyx. rewrite Forall_forall in N1, N2. specialize (N1 x Hx). specialize (N2 y Hy).
    unfold key_le in *. assert (p_addr x = p_addr y) as E.
    { apply key_inj; [apply N1|apply N2|lia]. }
    destruct x, y. cbn in *. f_equal; [done|lia].
  - apply Sorted_key_le; [done|apply H1].
  - apply Sorted_key_le; [done|apply H2].
  - apply NoDup_Permutation; [apply H1|apply H2|done].
Qed.

(** ** The kernel's sets *)

(** The element sets of the table and what is queued on the connection. *)
Record KernelSets := mkKernelSets { ks_sets : gmap string (list SetElement); ks_queue : list Cmd }.

(** nf_tables' reading of a message: a set that is not there refuses the batch. *)
Definition run_cmd (m : option (gmap string (list SetElement))) (c : Cmd) : option (gmap string (list SetElement)) :=
  match m with
  | None => None
  | Some m =>
      match c with
      | FlushSet s => match m !! s with Some _ => Some (<[s := []]> m) | None => None end
      | SetAddElements s els => match m !! s with Some old => Some (<[s := old ++ els]> m) | None => None end
      | AddSet s => Some (<[ss_name s := default [] (m !! ss_name s)]> m)
      | DelTable => Some ∅
      | AddTable | AddChain _ _ | AddRule _ => Some m
      end
  end.

(** A batch is one transaction. *)
Definition run_batch (cs : list Cmd) (m : gmap string (list SetElement)) : option (gmap string (list SetElement)) :=
  foldl run_cmd (Some m) cs.

(** [Flush]: the queue is empty afterwards, whatever the outcome. *)
Definition flush (io : flush_io) (k : KernelSets) : bool * KernelSets :=
  match run_batch (ks_queue k) (ks_sets k) with
  | None => (false, mkKernelSets (ks_sets k) [])
  | Some m =>
      match io with
      | FlushOk => (true, mkKernelSets m [])
      | FlushRefused => (false, mkKernelSets (ks_sets k) [])
      | FlushOverflow committed => (false, mkKernelSets (if committed then m else ks_sets k) [])
      end
  end.

(** The loop of [ReplaceFeedSet]: what it queues, and whether it got to its end. *)
Fixpoint replace_cmds `{NftConn} (id : string) (v4 v6 : list addrRange) (fs : list addrFamily) : list Cmd * bool :=
  match fs with
  | [] => ([], true)
  | f :: fs =>
      let is6 := af_nfproto f =? NFPROTO_IPV6 in
      let set := feedSetName id is6 in
      let '(els, ok) := addFeedElements set (feed_range_calls set is6 (if is6 then v6 else v4)) in
      if negb ok then (FlushSet set :: els, false)
      else let '(rest, ok) := replace_cmds id v4 v6 fs in (FlushSet set :: els ++ rest, ok)
  end.

Definition ReplaceFeedSet `{NftConn} (conn : bool) (io : flush_io) (id : string) (v4 v6 : list addrRange)
    (k : KernelSets) : bool * KernelSets :=
  if negb conn then (false, k)
  else
    let '(cs, ok) := replace_cmds id v4 v6 addrFamilies in
    let k := mkKernelSets (ks_sets k) (ks_queue k ++ cs) in
    if negb ok then (false, k) else flush io k.

(** ** [UpdateFeed] *)

Record UpdateFeedPayload := mkUpdateFeedPayload { uf_ID : string; uf_Entries : list string; uf_NotModified : bool }.
Record UpdateFeedResult := mkUpdateFeedResult {
  ur_Before : Z; ur_After : Z; ur_Dropped : Z; ur_Changed : bool; ur_Loaded : bool }.

(** [shrinkWatch] *)
Record shrinkWatch := mkShrinkWatch { sw_since : Z; sw_seen : Z }.

Definition shrinkAcceptAfter : Z := 24 * 3600 * 1000000000.
Definition shrinkAcceptSeen : Z := 3.

Definition shrinks (before after : Z) : bool := after * 100 <? before * FeedShrinkPercent.

(** [feedIDs]: each id once, in the order it is first met. *)
Definition feedIDs (state : RulesState) : list string :=
  foldl (λ ids id, if bool_decide (id ∈ ids) then ids else ids ++ [id]) []
    (Feeds (Current state) ++ Feeds (Staged state) ++ Feeds (Backup state)).

Inductive FeedError :=
| FePanicEngaged
| FeApplyInProgress
| FeNotAFeed
| FeGetRules (e : StoreError)
| FeNotSwitchedOn (id : string)
| FeLoad                              (* the store could not be read *)
| FeNoCopy (id : string)              (* a 304 without a stored copy *)
| FeRefused (id reason : string)
| FeShrank
| FeKernel (id : string)
| FeStore.                            (* the store could not be written *)

(** What is answered on the way. *)
Record FeedIO := mkFeedIO {
  fi_panic : bool;         (* PanicEngaged, before the slot *)
  fi_slot : bool;          (* beginApply *)
  fi_panicHeld : bool;     (* PanicEngaged, under the slot *)
  fi_state : store RulesState;
  fi_read : bool;          (* feeds.json can be read *)
  fi_now : Z;
  fi_conn : bool;          (* the netlink connection exists *)
  fi_flush : flush_io;
  fi_text : string;        (* the text of the flush's error *)
  fi_panicAfter : bool;    (* PanicEngaged, after a refused flush *)
  fi_write : bool }.       (* feeds.json can be written *)

Record FeedWorld := mkFeedWorld {
  fw_store : FeedStore;
  fw_shrink : gmap string shrinkWatch;
  fw_sets : KernelSets;
  fw_audit : list AuditLogEntry }.    (* newest first *)

Definition set_fstore s w := mkFeedWorld s (fw_shrink w) (fw_sets w) (fw_audit w).
Definition set_shrink m w := mkFeedWorld (fw_store w) m (fw_sets w) (fw_audit w).
Definition set_ksets k w := mkFeedWorld (fw_store w) (fw_shrink w) k (fw_audit w).
Definition add_entry e w := mkFeedWorld (fw_store w) (fw_shrink w) (fw_sets w) (e :: fw_audit w).

Definition auditFeedRefused (id reason user : string) : FeedWorld → FeedWorld :=
  add_entry (mkAudit "feed_refused" "feeds" (if String.eqb id "" then reason else id +:+ ": " +:+ reason) user).

(** [time.Time.Format(time.RFC3339)] in UTC, for the years the clock shows. *)
Definition civil (days : Z) : Z * Z * Z :=
  let z := days + 719468 in
  let era := z / 146097 in
  let doe := z mod 146097 in
  let yoe := (doe - doe / 1460 + doe / 36524 - doe / 146096) / 365 in
  let doy := doe - (365 * yoe + yoe / 4 - yoe / 100) in
  let mp := (5 * doy + 2) / 153 in
  let m := if mp <? 10 then mp + 3 else mp - 9 in
  (yoe + era * 400 + (if m <=? 2 then 1 else 0), m, doy - (153 * mp + 2) / 5 + 1).

Definition pad (n : nat) (v : Z) : string :=
  let s := Itoa v in of_bytes (replicate (n - String.length s) "0"%char) +:+ s.

Definition RFC3339 (ns : Z) : string :=
  let s := ns / 1000000000 in
  let '(y, m, d) := civil (s / 86400) in
  let t := s mod 86400 in
  pad 4 y +:+ "-" +:+ pad 2 m +:+ "-" +:+ pad 2 d +:+ "T" +:+ pad 2 (t / 3600) +:+ ":" +:+
  pad 2 (t / 60 mod 60) +:+ ":" +:+ pad 2 (t mod 60) +:+ "Z".

Example rfc3339_ex :
  map RFC3339 [0; 1789992003999999999; 951782400000000000] =
  ["1970-01-01T00:00:00Z"; "2026-09-21T12:00:03Z"; "2000-02-29T00:00:00Z"].
Proof. vm_compute. reflexivity. Qed.

Section UpdateFeed.
Context `{NftConn} (io : FeedIO) (p : UpdateFeedPayload) (user : string).

Let id := uf_ID p.

(** A 304: [checked_at] moves and nothing else. *)
Definition update_304 (state : RulesState) (stored : storedFeed) (had : bool) (w : FeedWorld)
    : result FeedError UpdateFeedResult * FeedWorld :=
  if negb had then (Err (FeNoCopy id), w)
  else
    let '(ok, s) := Put (fi_read io) (fi_write io) id (with_checked (Some (fi_now io)) stored) (feedIDs state) (fw_store w) in
    let w := set_shrink (delete id (fw_shrink w)) (set_fstore s w) in
    (if ok then Ok (mkUpdateFeedResult (sf_Entries stored) (sf_Entries stored) (sf_Dropped stored) false false)
     else Err FeStore, w).

(** Step 6: [Err] is a refusal, the watch it leaves in place; [Ok (Some w)] a shrink
    that is accepted after the refusals [w] counts. *)
Definition shrink_guard (stored : storedFeed) (had inCurrent : bool) (n : Z) (m : gmap string shrinkWatch)
    : result shrinkWatch (option shrinkWatch) :=
  if had && inCurrent && negb (IsCountryFeedID id) && shrinks (sf_Entries stored) n then
    let w := default (mkShrinkWatch 0 0) (m !! id) in
    let w := mkShrinkWatch (if sw_seen w =? 0 then fi_now io else sw_since w) (sw_seen w + 1) in
    if (sw_seen w <? shrinkAcceptSeen) || (fi_now io - sw_since w <? shrinkAcceptAfter) then Err w
    else Ok (Some w)
  else Ok None.

(** Step 7 and what follows it: the file, the watch, the audit log. *)
Definition update_store (state : RulesState) (stored : storedFeed) (had : bool) (kept : list prefix) (dropped : Z)
    (taken : option shrinkWatch) (loaded : bool) (w : FeedWorld) : result FeedError UpdateFeedResult * FeedWorld :=
  let changed := negb had || negb (bool_decide (sf_Prefixes stored = prefixStrings kept)) in
  let next := mkStoredFeed (prefixStrings kept) (zlen kept) dropped
                (if changed then Some (fi_now io) else sf_ChangedAt stored) (Some (fi_now io)) in
  let '(ok, s) := Put (fi_read io) (fi_write io) id next (feedIDs state) (fw_store w) in
  if negb ok then (Err FeStore, set_fstore s w)
  else
    let w := set_fstore s w in
    let w := match taken with
             | None => w
             | Some t =>
                 add_entry (mkAudit "feed_shrink_accepted" "feeds"
                   (id +:+ ": " +:+ Itoa (zlen kept) +:+ " entries replace " +:+ Itoa (sf_Entries stored) +:+
                    " after " +:+ Itoa (sw_seen t - 1) +:+ " refusals since " +:+ RFC3339 (sw_since t)) user) w
             end in
    let w := set_shrink (delete id (fw_shrink w)) w in
    let w := if changed
             then add_entry (mkAudit "feed_updated" "feeds"
                    (id +:+ ": " +:+ Itoa (sf_Entries stored) +:+ " → " +:+ Itoa (zlen kept) +:+ " entries, " +:+
                     Itoa dropped +:+ " not globally routable dropped" +:+ (if loaded then ", loaded" else "")) user) w
             else w in
    (Ok (mkUpdateFeedResult (sf_Entries stored) (zlen kept) dropped changed loaded), w).

(** Step 8: a live feed's sets. *)
Definition update_load (state : RulesState) (stored : storedFeed) (had : bool) (kept : list prefix) (dropped : Z)
    (taken : option shrinkWatch) (w : FeedWorld) : result FeedError UpdateFeedResult * FeedWorld :=
  if bool_decide (id ∈ Feeds (Current state)) then
    let '(v4, v6) := splitFamilies (mergeRanges kept) in
    let '(ok, k) := ReplaceFeedSet (fi_conn io) (fi_flush io) id v4 v6 (fw_sets w) in
    let w := set_ksets k w in
    if (ok : bool) then update_store state stored had kept dropped taken true w
    else if fi_panicAfter io then (Err FePanicEngaged, w)
    else (Err (FeKernel id), auditFeedRefused id ("the kernel refused the new copy: " +:+ fi_text io) user w)
  else update_store state stored had kept dropped taken false w.

(** A new version whose entries were accepted. *)
Definition update_kept (state : RulesState) (stored : storedFeed) (had : bool) (kept : list prefix) (dropped : Z)
    (w : FeedWorld) : result FeedError UpdateFeedResult * FeedWorld :=
  if bool_decide (kept = []) then
    let reason := "no entry is globally routable (" +:+ Itoa dropped +:+ " dropped)" in
    (Err (FeRefused id reason), auditFeedRefused id reason user w)
  else
    match shrink_guard stored had (bool_decide (id ∈ Feeds (Current state))) (zlen kept) (fw_shrink w) with
    | Err watch =>
        let w := set_shrink (<[id := watch]> (fw_shrink w)) w in
        (Err FeShrank,
         auditFeedRefused id (Itoa (zlen kept) +:+ " entries is under " +:+ Itoa FeedShrinkPercent +:+ " % of the " +:+
                              Itoa (sf_Entries stored) +:+ " stored") user w)
    | Ok taken => update_load state stored had kept dropped taken w
    end.

(** From the apply slot on. *)
Definition update_held (v : result EntryError (list prefix * Z)) (w : FeedWorld)
    : result FeedError UpdateFeedResult * FeedWorld :=
  if negb (KnownFeedID id) then (Err FeNotAFeed, auditFeedRefused "" "an id that is not a feed" user w)
  else
    match fi_state io with
    | Err e => (Err (FeGetRules e), w)
    | Ok state =>
        if negb (bool_decide (id ∈ Feeds (Current state))) && negb (bool_decide (id ∈ Feeds (Staged state)))
        then (Err (FeNotSwitchedOn id), w)
        else
          let '(got, s) := Get (fi_read io) id (fw_store w) in
          let w := set_fstore s w in
          match got with
          | None => (Err FeLoad, w)
          | Some (stored, had) =>
              if uf_NotModified p then update_304 state stored had w
              else
                match v with
                | Err e => (Err (FeRefused id (EntryErrorText e)), auditFeedRefused id (EntryErrorText e) user w)
                | Ok (kept, dropped) => update_kept state stored had kept dropped w
                end
          end
    end.

Definition UpdateFeed (w : FeedWorld) : result FeedError UpdateFeedResult * FeedWorld :=
  if fi_panic io then (Err FePanicEngaged, w)
  else
    let v := if uf_NotModified p then Ok ([], 0) else validateFeedEntries id (uf_Entries p) in
    if negb (fi_slot io) then (Err FeApplyInProgress, w)
    else if fi_panicHeld io then (Err FePanicEngaged, w)
    else update_held v w.
End UpdateFeed.

(** ** What a batch leaves in the sets *)

Section Sets.
Context `{NftConn}.

Lemma addFeedElements_ok set calls cs :
  addFeedElements set calls = (cs, true) → cs = map (SetAddElements set) calls.
Proof.
  revert cs. induction calls as [|els calls IH]; intros cs; cbn; [by intros [= <-]|].
  destruct (SetAddElements_err els); [done|]. destruct (addFeedElements set calls) as [cs' ok].
  intros [= <- ->]. cbn. f_equal. by apply IH.
Qed.

Lemma run_none cs : foldl run_cmd None cs = None.
Proof. by induction cs. Qed.

Lemma run_batch_app a b m : run_batch (a ++ b) m = match run_batch a m with Some m => run_batch b m | None => None end.
Proof. unfold run_batch. rewrite foldl_app. destruct (foldl run_cmd (Some m) a); [done|apply run_none]. Qed.

Lemma run_adds set calls old m :
  m !! set = Some old → run_batch (map (SetAddElements set) calls) m = Some (<[set := old ++ concat calls]> m).
Proof.
  revert old m. induction calls as [|els calls IH]; intros old m Hm; unfold run_batch in *; cbn [map foldl run_cmd].
  - cbn. by rewrite app_nil_r, insert_id.
  - rewrite Hm. rewrite (IH (old ++ els)) by apply lookup_insert_eq.
    cbn [concat]. by rewrite insert_insert_eq, <- app_assoc.
Qed.

(** One family: the set is flushed and filled. *)
Lemma run_family set calls els m m' :
  addFeedElements set calls = (els, true) → run_batch (FlushSet set :: els) m = Some m' →
  m' = <[set := concat calls]> m.
Proof.
  intros ->%addFeedElements_ok Hr. change (FlushSet set :: ?l) with ([FlushSet set] ++ l) in Hr.
  rewrite run_batch_app in Hr. unfold run_batch at 1 in Hr. cbn in Hr. destruct (m !! set); [|done].
  rewrite (run_adds set calls []) in Hr by apply lookup_insert_eq. injection Hr as <-.
  by rewrite insert_insert_eq.
Qed.

Lemma bytes_append a b : bytes (a +:+ b) = bytes a ++ bytes b.
Proof.
  induction a as [|c a IH]; [done|]. change (String c a +:+ b) with (String c (a +:+ b)).
  change (c :: bytes (a +:+ b) = c :: bytes a ++ bytes b). by rewrite IH.
Qed.

Lemma feedSetName_inj id id' v6 v6' : feedSetName id v6 = feedSetName id' v6' → id = id' ∧ v6 = v6'.
Proof.
  assert (∀ i (b : bool), bytes (feedSetName i b) = bytes "feed-" ++ bytes i ++ bytes (if b then "-v6" else "-v4")) as Hb.
  { intros i b. unfold feedSetName. destruct b; by rewrite !bytes_append. }
  intros E%(f_equal bytes). rewrite !Hb in E. apply (inj (app _)) in E.
  apply app_inj_2 in E as [E1 E2]; [|by destruct v6, v6']. split; [by apply bytes_inj|]. by destruct v6, v6'.
Qed.

(** What [addFeeds] or a refresh puts into the set of one family. *)
Definition family_elements (v6 : bool) (r4 r6 : list addrRange) : list SetElement :=
  flat_map rangeElements (chunks_of v6 (if v6 then r6 else r4)).

Lemma feed_range_calls_concat set v6 rs : concat (feed_range_calls set v6 rs) = flat_map rangeElements (chunks_of v6 rs).
Proof. unfold feed_range_calls. by rewrite <- flat_map_concat_map. Qed.

(** A refresh that the kernel takes replaces the two sets of its feed, whole, and
    touches no other. *)
Lemma replace_cmds_run id v4 v6 cs m m' :
  replace_cmds id v4 v6 addrFamilies = (cs, true) → run_batch cs m = Some m' →
  m' = <[feedSetName id true := family_elements true v4 v6]>
         (<[feedSetName id false := family_elements false v4 v6]> m).
Proof.
  unfold addrFamilies. cbn [replace_cmds]. cbv zeta.
  change (af_nfproto (mkAddrFamily "ipv4" NFPROTO_IPV4 12 4) =? NFPROTO_IPV6) with false.
  change (af_nfproto (mkAddrFamily "ipv6" NFPROTO_IPV6 8 16) =? NFPROTO_IPV6) with true.
  destruct (addFeedElements (feedSetName id false) _) as [els4 []] eqn:E4; cbn [negb]; [|done].
  destruct (addFeedElements (feedSetName id true) _) as [els6 []] eqn:E6; cbn [negb]; [|done].
  intros [= <-]. rewrite app_nil_r.
  rewrite app_comm_cons, run_batch_app. destruct (run_batch _ m) as [m1|] eqn:R4; [|done]. intros R6.
  apply (run_family _ _ _ _ _ E4) in R4 as ->. apply (run_family _ _ _ _ _ E6) in R6 as ->.
  by rewrite !feed_range_calls_concat.
Qed.

Lemma ReplaceFeedSet_ok conn io id v4 v6 k k' :
  ks_queue k = [] → ReplaceFeedSet conn io id v4 v6 k = (true, k') →
  ks_queue k' = [] ∧
  ks_sets k' = <[feedSetName id true := family_elements true v4 v6]>
                 (<[feedSetName id false := family_elements false v4 v6]> (ks_sets k)).
Proof.
  intros Hq. unfold ReplaceFeedSet. destruct conn; [|done]. cbn [negb].
  destruct (replace_cmds id v4 v6 addrFamilies) as [cs []] eqn:E; [|done]. cbn [negb]. rewrite Hq. cbn [app].
  unfold flush. cbn [ks_queue ks_sets]. destruct (run_batch cs (ks_sets k)) as [m|] eqn:R; [|done].
  destruct io; try done. intros [= <-]. split; [done|]. by apply (replace_cmds_run id v4 v6 cs).
Qed.

(** One that is refused changes nothing, unless the kernel's answer to a committed
    batch was lost. *)
Lemma ReplaceFeedSet_refused conn io id v4 v6 k k' :
  io ≠ FlushOverflow true → ReplaceFeedSet conn io id v4 v6 k = (false, k') → ks_sets k' = ks_sets k.
Proof.
  intros Hio. unfold ReplaceFeedSet. destruct conn; [|by intros [= <-]]. cbn [negb].
  destruct (replace_cmds id v4 v6 addrFamilies) as [cs []]; [|by intros [= <-]]. cbn [negb]. unfold flush.
  cbn [ks_queue ks_sets]. destruct (run_batch _ _); [|by intros [= <-]].
  destruct io as [| |[]]; naive_solver.
Qed.
End Sets.

(** ** What an update leaves behind *)

Section Outcome.
Context `{NftConn} (io : FeedIO) (p : UpdateFeedPayload) (user : string).

Let id := uf_ID p.

(** What the next apply, the next refresh and the kernel go by. *)
Definition same_feeds (w w' : FeedWorld) : Prop :=
  fs_file (fw_store w') = fs_file (fw_store w) ∧ store_feeds (fw_store w') = store_feeds (fw_store w) ∧
  ks_sets (fw_sets w') = ks_sets (fw_sets w).

Lemma same_feeds_refl w : same_feeds w w.
Proof. done. Qed.

Lemma same_feeds_entry e w w' : same_feeds w w' → same_feeds w (add_entry e w').
Proof. done. Qed.

Lemma same_feeds_refused i r u w w' : same_feeds w w' → same_feeds w (auditFeedRefused i r u w').
Proof. done. Qed.

Lemma update_store_refused state stored had kept dropped taken loaded w e w' :
  update_store io p user state stored had kept dropped taken loaded w = (Err e, w') →
  e = FeStore ∧ fs_file (fw_store w') = fs_file (fw_store w) ∧ store_feeds (fw_store w') = store_feeds (fw_store w).
Proof.
  unfold update_store. destruct (Put _ _ _ _ _ _) as [[] s] eqn:Ep; cbn [negb]; [done|]. intros [= <- <-].
  apply Put_refused in Ep. done.
Qed.

Lemma update_load_refused state stored had kept dropped taken w e w' :
  fi_flush io ≠ FlushOverflow true →
  update_load io p user state stored had kept dropped taken w = (Err e, w') →
  fs_file (fw_store w') = fs_file (fw_store w) ∧ store_feeds (fw_store w') = store_feeds (fw_store w) ∧
  (e = FeStore ∨ ks_sets (fw_sets w') = ks_sets (fw_sets w)).
Proof.
  intros Hio. unfold update_load. case_bool_decide.
  - destruct (splitFamilies _) as [v4 v6]. destruct (ReplaceFeedSet _ _ _ _ _ _) as [[] k] eqn:Ek.
    + intros (-> & H1 & H2)%update_store_refused. auto.
    + apply ReplaceFeedSet_refused in Ek; [|done]. destruct (fi_panicAfter io); intros [= <- <-]; cbn; auto.
  - intros (-> & H1 & H2)%update_store_refused. auto.
Qed.

Lemma update_held_refused v w e w' :
  fi_flush io ≠ FlushOverflow true →
  update_held io p user v w = (Err e, w') →
  fs_file (fw_store w') = fs_file (fw_store w) ∧ store_feeds (fw_store w') = store_feeds (fw_store w) ∧
  (e = FeStore ∨ ks_sets (fw_sets w') = ks_sets (fw_sets w)).
Proof.
  intros Hio. unfold update_held. destruct (KnownFeedID (uf_ID p)); cbn [negb]; [|intros [= <- <-]; by auto].
  destruct (fi_state io) as [state|]; [|intros [= <- <-]; by auto].
  destruct (negb _ && negb _); [intros [= <- <-]; by auto|].
  destruct (Get (fi_read io) (uf_ID p) (fw_store w)) as [got s] eqn:Eg.
  assert (fs_file s = fs_file (fw_store w) ∧ store_feeds s = store_feeds (fw_store w)) as [Hs1 Hs2].
  { unfold Get in Eg. destruct (load _ _) as [m s1] eqn:El. injection Eg as <- <-. apply load_view in El. naive_solver. }
  destruct got as [[stored had]|]; [|intros [= <- <-]; by auto].
  destruct (uf_NotModified p).
  { unfold update_304. destruct had; [|intros [= <- <-]; by auto]. cbn [negb].
    destruct (Put _ _ _ _ _ _) as [[] s2] eqn:Ep; [done|]. intros [= <- <-]. apply Put_refused in Ep as [E1 E2].
    cbn in *. rewrite E1, E2. auto. }
  destruct v as [[kept dropped]|]; [|intros [= <- <-]; by auto].
  unfold update_kept. case_bool_decide; [intros [= <- <-]; by auto|].
  destruct (shrink_guard _ _ _ _ _ _) as [taken|watch]; [|intros [= <- <-]; by auto].
  intros (E1 & E2 & E3)%update_load_refused; [|done]. cbn in *. by rewrite E1, E2.
Qed.

(** C28: a refused update changes nothing.  Whatever the reason (panic mode, an apply in
    progress, an id that is not known or not switched on, an entry that does not
    parse or is too broad, no global entry left, a list that shrank, a batch the
    kernel refused), the file, the copies an apply reads and the sets in the kernel
    are what they were.  The exceptions are a file that cannot be written, where the
    sets already hold the new copy, and a committed batch whose answer overflowed
    the receive buffer. *)
Theorem refused_update_changes_nothing w e w' :
  UpdateFeed io p user w = (Err e, w') → fi_flush io ≠ FlushOverflow true →
  fs_file (fw_store w') = fs_file (fw_store w) ∧ store_feeds (fw_store w') = store_feeds (fw_store w) ∧
  (e = FeStore ∨ ks_sets (fw_sets w') = ks_sets (fw_sets w)).
Proof.
  unfold UpdateFeed. destruct (fi_panic io); [intros [= <- <-]; by auto|]. cbv zeta.
  destruct (fi_slot io); cbn [negb]; [|intros [= <- <-]; by auto].
  destruct (fi_panicHeld io); [intros [= <- <-]; by auto|]. intros Hu Hio. by eapply update_held_refused.
Qed.
End Outcome.

(** *** An accepted version *)

Lemma feedIDs_spec state i :
  i ∈ feedIDs state ↔ i ∈ Feeds (Current state) ∨ i ∈ Feeds (Staged state) ∨ i ∈ Feeds (Backup state).
Proof.
  unfold feedIDs. rewrite <- !elem_of_app. generalize (Feeds (Current state) ++ Feeds (Staged state) ++ Feeds (Backup state)).
  assert (∀ l ids, i ∈ foldl (λ ids id, if bool_decide (id ∈ ids) then ids else ids ++ [id]) ids l ↔ i ∈ ids ∨ i ∈ l) as H.
  { induction l as [|x l IH]; intros ids; cbn [foldl]; [split; [by left|by intros [?|?%not_elem_of_nil]]|].
    rewrite IH, elem_of_cons. case_bool_decide; [naive_solver|]. rewrite elem_of_app, list_elem_of_singleton. naive_solver. }
  intros l. rewrite H. split; [by intros [?%not_elem_of_nil|?]|by right].
Qed.

(** The sets of a feed in the kernel hold exactly the addresses of some prefixes. *)
Definition sets_hold (k : KernelSets) (i : string) (ps : list prefix) : Prop :=
  ∀ a, addr_ok a →
    ∃ els, ks_sets k !! feedSetName i (negb (Is4 a)) = Some els ∧
           (in_interval_set els (AsSlice a) = true ↔ names ps a).

Lemma set_of_kept `{NftConn} conn io i kept v4 v6 k k' :
  Forall net_ok kept → splitFamilies (mergeRanges kept) = (v4, v6) → ks_queue k = [] →
  ReplaceFeedSet conn io i v4 v6 k = (true, k') → sets_hold k' i kept.
Proof.
  intros Hk Es Hq Hr a Ha. apply ReplaceFeedSet_ok in Hr as [_ ->]; [|done].
  exists (feed_elements (negb (Is4 a)) kept). split.
  - unfold feed_elements. rewrite Es. destruct (Is4 a); cbn [negb]; [|by rewrite lookup_insert_eq].
    rewrite lookup_insert_ne by (by intros [_ ?]%feedSetName_inj). by rewrite lookup_insert_eq.
  - rewrite feed_elements_lookup; [|eapply Forall_impl; [exact Hk|]; by intros ? []|done].
    rewrite Forall_forall in Hk. unfold names. split; [naive_solver|]. intros (q & Hq' & Hc).
    exists q. split; [done|]. split; [|done]. by apply net_ok_wire, Hk.
Qed.

Section Accepted.
Context `{NftConn} (io : FeedIO) (p : UpdateFeedPayload) (user : string).

Let id := uf_ID p.

(** The copy stored for the feed. *)
Definition stored_copy (w : FeedWorld) (kept : list prefix) (dropped : Z) : Prop :=
  ∃ c, store_feeds (fw_store w) !! uf_ID p = Some c ∧ cf_prefixes c = kept ∧
       sf_Entries (cf_rec c) = zlen kept ∧ sf_Dropped (cf_rec c) = dropped.

Lemma update_store_accepted state stored had kept dropped taken loaded w r w' :
  store_ok (fw_store w) → Forall net_ok kept → uf_ID p ∈ feedIDs state →
  update_store io p user state stored had kept dropped taken loaded w = (Ok r, w') →
  stored_copy w' kept dropped ∧ fw_sets w' = fw_sets w ∧ ur_Loaded r = loaded ∧
  (∀ i, i ≠ uf_ID p → i ∈ feedIDs state → store_feeds (fw_store w') !! i = store_feeds (fw_store w) !! i).
Proof.
  intros Hs Hk Hin. unfold update_store. set (next := mkStoredFeed _ _ _ _ _).
  destruct (Put _ _ _ _ _ _) as [[] s] eqn:Ep; cbn [negb]; [|done].
  assert (omap ParsePrefix (prefixStrings kept) = kept) as Hps.
  { apply parse_prefixStrings. eapply Forall_impl; [exact Hk|]. intros q Hq. split; [apply Hq|by apply net_ok_wire]. }
  apply Put_stored in Ep; [|done]. intros Hr.
  unfold stored_copy. assert (fw_store w' = s ∧ fw_sets w' = fw_sets w ∧ ur_Loaded r = loaded) as (-> & -> & ->).
  { destruct taken, (negb had || _); by injection Hr as <- <-. }
  split; [|split; [done|]; split; [done|]].
  - exists (newCachedFeed next). rewrite Ep, map_lookup_filter, lookup_insert_eq. cbn [mbind option_bind].
    split; [case_guard; done|]. rewrite newCachedFeed_prefixes, newCachedFeed_rec. done.
  - intros i Hne Hi. rewrite Ep, map_lookup_filter, lookup_insert_ne by done.
    destruct (store_feeds (fw_store w) !! i); [|done]. cbn. by case_guard.
Qed.

(** An accepted version is what is enforced, and it cannot lock anyone out of a
    private network.  When an update is accepted, the core has read every entry
    itself; what it stores are the global prefixes of the list, each once and in
    order, and nothing else; if the feed is in force, a lookup in its sets finds
    exactly the addresses of those prefixes from then on, and so no address of a
    private, loopback, link-local, multicast or documentation range of IPv6, and no
    other feed's copy has changed. *)
Theorem accepted_update_is_enforced w r w' :
  store_ok (fw_store w) → ks_queue (fw_sets w) = [] → uf_NotModified p = false →
  UpdateFeed io p user w = (Ok r, w') →
  ∃ kept dropped,
    acceptable (uf_ID p) (uf_Entries p) ∧ keeps (uf_ID p) (uf_Entries p) kept dropped ∧
    stored_copy w' kept dropped ∧
    (ur_Loaded r = true → sets_hold (fw_sets w') (uf_ID p) kept) ∧
    (∀ a, addr_ok a → names kept a → non_global a = false) ∧
    (∀ state, fi_state io = Ok state → (ur_Loaded r = true ↔ uf_ID p ∈ Feeds (Current state)) ∧
       ∀ i, i ≠ uf_ID p → i ∈ feedIDs state → store_feeds (fw_store w') !! i = store_feeds (fw_store w) !! i).
Proof.
  intros Hs Hq Hnm. unfold UpdateFeed. destruct (fi_panic io); [done|]. cbv zeta. rewrite Hnm.
  destruct (fi_slot io); cbn [negb]; [|done]. destruct (fi_panicHeld io); [done|]. unfold update_held.
  destruct (KnownFeedID (uf_ID p)); cbn [negb]; [|done]. destruct (fi_state io) as [state|] eqn:Est; [|done].
  destruct (negb _ && negb _) eqn:Esw; [done|].
  destruct (Get (fi_read io) (uf_ID p) (fw_store w)) as [got s] eqn:Eg.
  assert (store_feeds s = store_feeds (fw_store w) ∧ store_ok s) as [Hv Hs'].
  { unfold Get in Eg. destruct (load _ _) as [m s1] eqn:El. injection Eg as <- <-. split; [by apply load_view in El as (_ & ? & _)|].
    by eapply load_ok. }
  destruct got as [[stored had]|]; [|done]. rewrite Hnm.
  pose proof (validateFeedEntries_spec (uf_ID p) (uf_Entries p)) as Hval.
  destruct (validateFeedEntries _ _) as [[kept dropped]|]; [|done]. destruct Hval as [Hacc Hkeeps].
  pose proof (keeps_net_ok _ _ _ _ Hkeeps) as Hok.
  unfold update_kept. cbv zeta. destruct (bool_decide (kept = [])); [by intros [=]|].
  destruct (shrink_guard _ _ _ _ _ _) as [taken|]; [|by intros [=]].
  assert (uf_ID p ∈ feedIDs state) as Hin.
  { apply feedIDs_spec. apply andb_false_iff in Esw as [E%negb_false_iff|E%negb_false_iff];
      apply bool_decide_eq_true_1 in E; auto. }
  assert (∀ a, addr_ok a → names kept a → non_global a = false) as Hglob.
  { intros a Ha (q & Hq' & Hc). apply (isGlobal_safe q); [|by apply (kp_kept _ _ _ _ Hkeeps)|done].
    rewrite Forall_forall in Hok. by apply net_ok_wire, Hok. }
  unfold update_load. case_bool_decide as Hcur.
  - destruct (splitFamilies _) as [v4 v6] eqn:Es. destruct (ReplaceFeedSet _ _ _ _ _ _) as [[] k] eqn:Ek.
    2:{ by destruct (fi_panicAfter io). }
    intros Hr. apply update_store_accepted in Hr as (H1 & H2 & H3 & H4); [|done..].
    exists kept, dropped. split_and!; try done.
    + intros _. rewrite H2. cbn. by eapply set_of_kept.
    + intros st' [= <-]. split; [by rewrite H3|]. intros i Hne Hi. rewrite H4 by done. by rewrite <- Hv.
  - intros Hr. apply update_store_accepted in Hr as (H1 & H2 & H3 & H4); [|done..].
    exists kept, dropped. split_and!; try done.
    + by rewrite H3.
    + intros st' [= <-]. split; [by rewrite H3|]. intros i Hne Hi. rewrite H4 by done. by rewrite <- Hv.
Qed.
End Accepted.

(** ** When a live list may shrink *)

Section Shrink.
Context `{NftConn}.

(** A call of [UpdateFeed] that has returned: the feed, the clock it read and its
    answer. *)
Record FeedEvent := mkFeedEvent {
  fe_id : string; fe_now : Z; fe_answer : result FeedError UpdateFeedResult }.

(** The updates of one process, newest first.  Between two of them the sets, the
    store and the log may change in any way. *)
Inductive feed_runs : list FeedEvent → FeedWorld → Prop :=
| runs_start store sets log : feed_runs [] (mkFeedWorld store ∅ sets log)
| runs_between l w store sets log : feed_runs l w → feed_runs l (mkFeedWorld store (fw_shrink w) sets log)
| runs_update l w io p user r w' :
    feed_runs l w → UpdateFeed io p user w = (r, w') →
    feed_runs (mkFeedEvent (uf_ID p) (fi_now io) r :: l) w'.

Definition refused_shrink (i : string) (e : FeedEvent) : Prop := fe_id e = i ∧ fe_answer e = Err FeShrank.
#[global] Instance refused_shrink_dec i e : Decision (refused_shrink i e).
Proof.
  unfold refused_shrink. apply and_dec; [apply _|].
  destruct (fe_answer e) as [|[]]; (right; discriminate) || (left; reflexivity).
Defined.

Definition accepted_event (i : string) (e : FeedEvent) : Prop := fe_id e = i ∧ ∃ r, fe_answer e = Ok r.

(** What the watch of a feed remembers. *)
Definition watched (i : string) (l : list FeedEvent) (w : shrinkWatch) : Prop :=
  ∃ recent older,
    l = recent ++ mkFeedEvent i (sw_since w) (Err FeShrank) :: older ∧
    Forall (λ e, ¬ accepted_event i e) recent ∧
    sw_seen w = 1 + zlen (filter (refused_shrink i) recent).

Definition watches_ok (l : list FeedEvent) (m : gmap string shrinkWatch) : Prop :=
  ∀ i w, m !! i = Some w → watched i l w.

Lemma watched_seen i l w : watched i l w → 1 <= sw_seen w.
Proof. intros (recent & older & _ & _ & ->). unfold zlen. lia. Qed.

(** An answer that is neither an acceptance nor a refusal of a shrink is nothing to
    the watches. *)
Lemma watched_other i l w e :
  watched i l w → ¬ accepted_event i e → ¬ refused_shrink i e → watched i (e :: l) w.
Proof.
  intros (recent & older & -> & Hr & Hs) Ha Hn. exists (e :: recent), older.
  split; [done|]. split; [by constructor|]. by rewrite filter_cons_False.
Qed.

Lemma watched_again i l w t :
  watched i l w → watched i (mkFeedEvent i t (Err FeShrank) :: l) (mkShrinkWatch (sw_since w) (sw_seen w + 1)).
Proof.
  intros (recent & older & -> & Hr & Hs). exists (mkFeedEvent i t (Err FeShrank) :: recent), older.
  split; [done|]. split.
  - constructor; [|done]. by intros [_ [r ?]].
  - rewrite filter_cons_True by done. rewrite zlen_cons. cbn [sw_seen]. lia.
Qed.

Lemma watched_first i l t : watched i (mkFeedEvent i t (Err FeShrank) :: l) (mkShrinkWatch t 1).
Proof. exists [], l. by split_and!. Qed.

(** What one update does to the watches. *)
Lemma update_watches io p user w r w' :
  UpdateFeed io p user w = (r, w') →
  (∀ i, i ≠ uf_ID p → fw_shrink w' !! i = fw_shrink w !! i) ∧
  match r with
  | Ok _ => fw_shrink w' !! uf_ID p = None
  | Err FeShrank =>
      let old := default (mkShrinkWatch 0 0) (fw_shrink w !! uf_ID p) in
      fw_shrink w' !! uf_ID p =
        Some (mkShrinkWatch (if sw_seen old =? 0 then fi_now io else sw_since old) (sw_seen old + 1))
  | Err _ => fw_shrink w' !! uf_ID p = fw_shrink w !! uf_ID p ∨ fw_shrink w' !! uf_ID p = None
  end.
Proof.
  assert (∀ state stored had kept dropped taken loaded w r w',
    update_store io p user state stored had kept dropped taken loaded w = (r, w') →
    (∀ i, i ≠ uf_ID p → fw_shrink w' !! i = fw_shrink w !! i) ∧
    match r with
    | Ok _ => fw_shrink w' !! uf_ID p = None
    | Err e => e ≠ FeShrank ∧ fw_shrink w' = fw_shrink w
    end) as Hstore.
  { intros state stored had kept dropped taken loaded w0 r0 w0'. unfold update_store.
    destruct (Put _ _ _ _ _ _) as [[] s]; cbn [negb]; [|by intros [= <- <-]].
    destruct taken, (negb had || _); intros [= <- <-]; cbn;
      (split; [intros i ?; by rewrite lookup_delete_ne|apply lookup_delete_eq]). }
  unfold UpdateFeed. destruct (fi_panic io); [intros [= <- <-]; by auto|]. cbv zeta.
  destruct (fi_slot io); cbn [negb]; [|intros [= <- <-]; by auto].
  destruct (fi_panicHeld io); [intros [= <- <-]; by auto|]. unfold update_held.
  destruct (KnownFeedID (uf_ID p)); cbn [negb]; [|intros [= <- <-]; by auto].
  destruct (fi_state io) as [state|]; [|intros [= <- <-]; by auto].
  destruct (negb _ && negb _); [intros [= <- <-]; by auto|].
  destruct (Get _ _ _) as [[[stored had]|] s]; [|intros [= <- <-]; by auto].
  destruct (uf_NotModified p).
  { unfold update_304. destruct had; cbn [negb]; [|intros [= <- <-]; by auto].
    destruct (Put _ _ _ _ _ _) as [[] s2]; intros [= <- <-]; cbn;
      (split; [intros i ?; by rewrite lookup_delete_ne|]); [|right]; apply lookup_delete_eq. }
  destruct (validateFeedEntries _ _) as [[kept dropped]|]; [|intros [= <- <-]; by auto].
  unfold update_kept. cbv zeta. destruct (bool_decide (kept = [])); [intros [= <- <-]; by auto|].
  destruct (shrink_guard _ _ _ _ _ _) as [taken|watch] eqn:Eg.
  - unfold update_load. destruct (bool_decide (uf_ID p ∈ Feeds (Current state))).
    + destruct (splitFamilies _) as [v4 v6]. destruct (ReplaceFeedSet _ _ _ _ _ _) as [[] k].
      * intros [H1 H2]%Hstore. split; [done|]. destruct r as [|e]; [done|]. destruct H2 as [He ->]. destruct e; (by left) || done.
      * destruct (fi_panicAfter io); intros [= <- <-]; by auto.
    + intros [H1 H2]%Hstore. split; [done|]. destruct r as [|e]; [done|]. destruct H2 as [He ->]. destruct e; (by left) || done.
  - intros [= <- <-]. cbn. split; [intros i ?; by rewrite lookup_insert_ne|].
    rewrite lookup_insert_eq. unfold shrink_guard in Eg. destruct (_ && _) in Eg; [|done].
    destruct (_ || _) in Eg; [|done]. by injection Eg as <-.
Qed.

Lemma feed_runs_watches l w : feed_runs l w → watches_ok l (fw_shrink w).
Proof.
  induction 1 as [store sets log|l w store sets log _ IH|l w io p user r w' _ IH Hu]; [|done|].
  { intros i w Hi. cbn in Hi. by rewrite lookup_empty in Hi. }
  intros i x Hx. apply update_watches in Hu as [Hne Hr]. destruct (decide (i = uf_ID p)) as [->|Hi].
  - destruct r as [r|e]; [congruence|]. assert (e = FeShrank ∨ e ≠ FeShrank) as [->|He] by (destruct e; (by left) || (by right)).
    { cbv zeta in Hr. rewrite Hx in Hr. injection Hr as ->.
      destruct (fw_shrink w !! uf_ID p) as [o|] eqn:Eo.
      - change (default _ (Some o)) with o. pose proof (watched_seen _ _ _ (IH _ _ Eo)). destruct (Z.eqb_spec (sw_seen o) 0); [lia|]. by apply watched_again, IH.
      - apply (watched_first (uf_ID p) l (fi_now io)). }
    assert (fw_shrink w !! uf_ID p = Some x) as Eo by (destruct e; try done; destruct Hr; congruence).
    apply watched_other; [by apply IH| |].
    + by intros [_ [? ?]].
    + intros [_ [= ->]]. done.
  - rewrite Hne in Hx by done. apply watched_other; [by apply IH| |]; intros [E _]; cbn in E; by subst.
Qed.

(** A truncated download cannot replace a live list.  A version with less than 70 %
    of the entries stored for a feed that is in force is accepted only when the same
    process has refused two shrinks of it before, the first of them a day ago or
    more, and has accepted nothing for that feed since. *)
Theorem shrink_is_accepted_after_a_day l w io p user r w' c state :
  feed_runs l w → UpdateFeed io p user w = (Ok r, w') → uf_NotModified p = false →
  fi_state io = Ok state → uf_ID p ∈ Feeds (Current state) → IsCountryFeedID (uf_ID p) = false →
  store_feeds (fw_store w) !! uf_ID p = Some c → shrinks (sf_Entries (cf_rec c)) (ur_After r) = true →
  ∃ recent older t,
    l = recent ++ mkFeedEvent (uf_ID p) t (Err FeShrank) :: older ∧
    Forall (λ e, ¬ accepted_event (uf_ID p) e) recent ∧
    1 <= zlen (filter (refused_shrink (uf_ID p)) recent) ∧
    shrinkAcceptAfter <= fi_now io - t.
Proof.
  intros Hl%feed_runs_watches Hu Hnm Est Hcur Hcc Hc Hsh. revert Hu. unfold UpdateFeed.
  destruct (fi_panic io); [done|]. cbv zeta. rewrite Hnm. destruct (fi_slot io); cbn [negb]; [|done].
  destruct (fi_panicHeld io); [done|]. unfold update_held. destruct (KnownFeedID (uf_ID p)); cbn [negb]; [|done].
  rewrite Est. destruct (negb _ && negb _); [done|].
  destruct (Get (fi_read io) (uf_ID p) (fw_store w)) as [[[stored had]|] s] eqn:Eg; [|done].
  assert (stored = full_record c ∧ had = true) as [-> ->].
  { unfold Get in Eg. destruct (load _ _) as [[m|] s1] eqn:El; [|done]. apply load_view in El as (_ & _ & Em).
    rewrite (Em m eq_refl), Hc in Eg. by injection Eg as <- <- <-. }
  rewrite Hnm. destruct (validateFeedEntries _ _) as [[kept dropped]|]; [|done].
  unfold update_kept. cbv zeta. destruct (bool_decide (kept = [])); [by intros [=]|].
  destruct (shrink_guard _ _ _ _ _ _) as [taken|] eqn:Es; [|by intros [=]]. intros Hu.
  assert (ur_After r = zlen kept) as Haft.
  { revert Hu. unfold update_load. rewrite bool_decide_true by done. destruct (splitFamilies _) as [v4 v6].
    destruct (ReplaceFeedSet _ _ _ _ _ _) as [[] k]; [|by destruct (fi_panicAfter io)]. unfold update_store.
    destruct (Put _ _ _ _ _ _) as [[] s2]; cbn [negb]; [|done]. by intros [= <- _]. }
  revert Es. unfold shrink_guard. rewrite bool_decide_true, Hcc by done. cbn [andb negb sf_Entries full_record with_prefixes].
  change (fw_shrink (set_fstore s w)) with (fw_shrink w).
  rewrite Haft in Hsh. change (sf_Entries (full_record c)) with (sf_Entries (cf_rec c)). rewrite Hsh.
  destruct (_ || _) eqn:Eo; [done|]. intros _. apply orb_false_iff in Eo as [E1%Z.ltb_ge E2%Z.ltb_ge].
  destruct (fw_shrink w !! uf_ID p) as [o|] eqn:Eo.
  - change (default _ (Some o)) with o in *. cbn [sw_seen sw_since] in E1, E2. pose proof (Hl _ _ Eo) as Ho.
    pose proof (watched_seen _ _ _ Ho). destruct (Z.eqb_spec (sw_seen o) 0); [lia|].
    destruct Ho as (recent & older & -> & Hr & Hs). exists recent, older, (sw_since o). split_and!; try done.
    unfold shrinkAcceptSeen in E1. lia.
  - exfalso. cbn in E1. unfold shrinkAcceptSeen in E1. lia.
Qed.
End Shrink.

(** ** [Feeds] *)

(** [FeedStatus] *)
Record FeedStatus := mkFeedStatus {
  st_ID : string;
  st_Stored : bool;
  st_Entries : Z;
  st_Dropped : Z;
  st_ChangedAt : Time;
  st_CheckedAt : Time;
  st_InKernel : bool;
  st_Packets : Z;
  st_CountersRead : bool;
  st_AllowlistOverlap : Z;
  st_ContainsAddr : bool }.

Inductive FeedsError := FsInvalidAddress | FsGetRules (e : StoreError) | FsLoad.

(** [slices.Compact] *)
Fixpoint Compact (l : list string) : list string :=
  match l with
  | [] => []
  | x :: l => match l with
              | y :: _ => if String.eqb x y then Compact l else x :: Compact l
              | [] => [x]
              end
  end.

Definition feed_status (a : option addr) (state : RulesState) (counters : option (gmap string RuleCounter))
    (stored : gmap string storedFeed) (s : FeedStore) (id : string) : FeedStatus :=
  let rec := default noFeed (stored !! id) in
  mkFeedStatus id (bool_decide (is_Some (stored !! id))) (sf_Entries rec) (sf_Dropped rec)
    (sf_ChangedAt rec) (sf_CheckedAt rec) (bool_decide (id ∈ Feeds (Current state)))
    (match counters with
     | Some m => C_Packets (default (mkRuleCounter 0 0) (m !! feedCounterID id))
     | None => 0
     end)
    (bool_decide (counters ≠ None))
    (AllowlistOverlap true id (Allowlist (Staged state)) s).1
    (FeedStore_Contains true id a s).1.

(** [Firewall.Feeds]: an empty address is none. *)
Definition GetFeeds (read : bool) (addr : string) (rules : store RulesState)
    (counters : option (gmap string RuleCounter)) (s : FeedStore) : result FeedsError (list FeedStatus) * FeedStore :=
  let parsed := if is_empty addr then Ok None
                else match ParseAddr addr with Some a => Ok (Some (WithoutZone (Unmap a))) | None => Err FsInvalidAddress end in
  match parsed with
  | Err e => (Err e, s)
  | Ok a =>
      match rules with
      | Err e => (Err (FsGetRules e), s)
      | Ok state =>
          let '(all, s) := All read s in
          match all with
          | None => (Err FsLoad, s)
          | Some stored =>
              let ids := Compact (merge_sort String.le
                           (Feeds (Current state) ++ Feeds (Staged state) ++ map fst (map_to_list stored))) in
              (Ok (map (feed_status a state counters stored s) ids), s)
          end
      end
  end.

Lemma elem_of_Compact x l : x ∈ Compact l ↔ x ∈ l.
Proof.
  induction l as [|y l IH]; [done|]. cbn [Compact]. destruct l as [|z l]; [done|].
  destruct (String.eqb_spec y z) as [->|Hne]; [|by rewrite !(elem_of_cons _ x y), IH].
  rewrite IH, (elem_of_cons (z :: l)). split; [by right|]. intros [->|?]; [apply list_elem_of_here|done].
Qed.

(** Of a sorted list, every element once. *)
Lemma NoDup_Compact l : StronglySorted String.le l → NoDup (Compact l).
Proof.
  induction 1 as [|x l Hs IH Hx]; [constructor|]. cbn [Compact]. destruct l as [|y l]; [apply NoDup_singleton|].
  destruct (String.eqb_spec x y) as [->|Hne]; [done|]. constructor; [|done]. rewrite elem_of_Compact.
  intros Hin. apply Hne. rewrite Forall_forall in Hx. apply (anti_symm String.le); [apply Hx; by left|].
  apply StronglySorted_inv in Hs as [_ Hy]. rewrite Forall_forall in Hy.
  apply elem_of_cons in Hin as [->|Hin]; [done|by apply Hy].
Qed.

Lemma query_addr_ok s a : ParseAddr s = Some a → addr_ok (WithoutZone (Unmap a)).
Proof.
  intros E%ParseAddr_range. unfold addr_ok. split; [|by destruct (Unmap a)].
  unfold Unmap. destruct a as [n|n z]; [done|]. destruct (Is4In6 _); cbn in *; [apply Z.mod_pos_bound|]; lia.
Qed.

(** The feeds page leaves nothing out and repeats nothing: one row for every feed that
    is switched on, staged or stored.  And it tells the truth about the address it is
    asked for: a row says the feed holds it exactly when one of the stored prefixes
    contains it. *)
Theorem feeds_page_is_complete read query state counters s sts s' :
  store_ok s → GetFeeds read query (Ok state) counters s = (Ok sts, s') →
  NoDup (map st_ID sts) ∧
  (∀ id, id ∈ map st_ID sts ↔
     id ∈ Feeds (Current state) ∨ id ∈ Feeds (Staged state) ∨ is_Some (store_feeds s !! id)) ∧
  (∀ st, st ∈ sts →
     (st_InKernel st = true ↔ st_ID st ∈ Feeds (Current state)) ∧
     ∀ a, is_empty query = false → ParseAddr query = Some a →
       st_ContainsAddr st = true ↔
       ∃ c, store_feeds s !! st_ID st = Some c ∧ names (cf_prefixes c) (WithoutZone (Unmap a))).
Proof.
  intros Hs. unfold GetFeeds. cbv zeta. set (parsed := if is_empty query then _ else _).
  destruct parsed as [a|] eqn:Ea; [|done]. unfold All. destruct (load read s) as [m s1] eqn:El.
  destruct (load_ok _ _ _ _ Hs El) as [Hs1 _]. pose proof El as El'. apply load_view in El as (_ & Ev & Em).
  destruct m as [m|]; [|done]. specialize (Em m eq_refl) as ->. set (ids := merge_sort String.le _).
  intros [= <- <-].
  assert (map st_ID (map (feed_status a state counters (cf_rec <$> store_feeds s) s1) (Compact ids)) = Compact ids) as ->.
  { rewrite map_map. apply map_id. }
  split; [|split].
  - apply NoDup_Compact. apply Sorted_StronglySorted; [apply _|]. apply Sorted_merge_sort, _.
  - intros id. rewrite elem_of_Compact. unfold ids. rewrite merge_sort_Permutation, !elem_of_app.
    do 2 f_equiv. rewrite list_elem_of_fmap. split.
    + intros ([i rec] & -> & Hin%elem_of_map_to_list). apply lookup_fmap_Some in Hin as (c & _ & Hc). by exists c.
    + intros [c Hc]. exists (id, cf_rec c). split; [done|]. apply elem_of_map_to_list. by rewrite lookup_fmap, Hc.
  - intros st (id & -> & _)%list_elem_of_fmap. split; [apply bool_decide_eq_true|].
    intros b Hq Hb. unfold parsed in Ea. rewrite Hq, Hb in Ea. injection Ea as <-. unfold feed_status. cbv zeta. cbn [st_ContainsAddr st_ID].
    pose proof (query_addr_ok _ _ Hb) as Hok. unfold FeedStore_Contains.
    destruct (load true s1) as [m2 s2] eqn:E2. pose proof E2 as E2'. apply load_cases in E2 as (_ & [(_ & _ & ?)|(c2 & -> & _)]); [done|].
    apply load_view in E2' as (_ & _ & Ec2). specialize (Ec2 c2 eq_refl) as ->. rewrite Ev. cbn [default from_option fst].
    change (Datatypes.id (store_feeds s)) with (store_feeds s).
    destruct (store_feeds s !! id) as [c|] eqn:Ec; [|split; [done|by intros (? & ? & _)]].
    pose proof (map_Forall_lookup_1 _ _ _ _ (store_feeds_ok _ Hs) Ec) as Hc.
    destruct (family_spec c (WithoutZone (Unmap b)) Hc) as [Hn Hcov].
    rewrite overlapsAny_spec by (done || (split; cbn; done || lia)). split.
    + intros (x & Hx & [H1 H2] & Hin). cbn in H1, H2.
      assert (x = WithoutZone (Unmap b)) as -> by (apply key_inj; [done..|lia]). exists c. split; [done|]. by apply Hcov.
    + intros (c' & [= <-] & Hnm). eexists. split; [done|]. split; [split; cbn; lia|]. by apply Hcov.
Qed.

(** ** Concrete updates *)

Definition quiet_conn : NftConn := {| AddSet_err := λ _, false; SetAddElements_err := λ _, false |}.
Definition dshield_rules : Rules := mkRules [] [] [] [] [] [] ["dshield"].
Definition dshield_state : RulesState := mkRulesState dshield_rules dshield_rules dshield_rules.

Definition dshield_io (now : Z) (fl : flush_io) : FeedIO :=
  mkFeedIO false true false (Ok dshield_state) true now true fl "" false true.
Definition dshield_world : FeedWorld :=
  mkFeedWorld (NewFeedStore SfMissing) ∅
    (mkKernelSets (<["feed-dshield-v4" := []]> (<["feed-dshield-v6" := []]> ∅)) []) [].

Definition dshield_update (entries : list string) (t : Z) : FeedWorld → result FeedError UpdateFeedResult * FeedWorld :=
  @UpdateFeed quiet_conn (dshield_io t FlushOk) (mkUpdateFeedPayload "dshield" entries false) "web".

Definition day : Z := 24 * 3600 * 1000000000.
Definition three : list string := ["1.2.3.0/24"; "10.0.0.0/8"; "5.6.7.8"; "2a00::/29"].
Definition one : list string := ["1.2.3.0/24"].

(** A load, three shrinks and the acceptance of the third. *)
Definition after_load : FeedWorld := (dshield_update three 0 dshield_world).2.
Definition after_one : FeedWorld := (dshield_update one day after_load).2.
Definition after_two : FeedWorld := (dshield_update one (day + 5) after_one).2.

Example updates_ex :
  (dshield_update three 0 dshield_world).1 = Ok (mkUpdateFeedResult 0 3 1 true true) ∧
  (dshield_update one day after_load).1 = Err FeShrank ∧
  (dshield_update one (day + 5) after_one).1 = Err FeShrank ∧
  (dshield_update one (day + 9) after_two).1 = Err FeShrank ∧
  (dshield_update one (2 * day) after_two).1 = Ok (mkUpdateFeedResult 3 1 0 true true).
Proof. split_and!; vm_compute; reflexivity. Qed.

Lemma accepted_update_is_enforced_witness :
  ∃ r w', dshield_update three 0 dshield_world = (Ok r, w') ∧
    ∃ kept dropped, keeps "dshield" three kept dropped ∧ sets_hold (fw_sets w') "dshield" kept.
Proof.
  do 2 eexists. split; [vm_compute; reflexivity|].
  edestruct (@accepted_update_is_enforced quiet_conn (dshield_io 0 FlushOk) (mkUpdateFeedPayload "dshield" three false)
    "web" dshield_world) as (kept & dropped & _ & H2 & _ & H4 & _).
  - apply store_ok_new.
  - reflexivity.
  - reflexivity.
  - vm_compute. reflexivity.
  - exists kept, dropped. split; [exact H2|]. apply H4. reflexivity.
Defined.

Lemma refused_update_changes_nothing_witness :
  ∃ e w', dshield_update ["8.8.8.8"; "0.0.0.0/0"] 0 dshield_world = (Err e, w') ∧
    e = FeRefused "dshield" "0.0.0.0/0 is broader than /8 (IPv4) or /16 (IPv6)" ∧
    store_feeds (fw_store w') = store_feeds (fw_store dshield_world).
Proof.
  do 2 eexists. split; [vm_compute; reflexivity|]. split; [reflexivity|].
  eapply (@refused_update_changes_nothing quiet_conn (dshield_io 0 FlushOk)
    (mkUpdateFeedPayload "dshield" ["8.8.8.8"; "0.0.0.0/0"] false) "web" dshield_world).
  - vm_compute. reflexivity.
  - discriminate.
Defined.

Lemma shrink_is_accepted_after_a_day_witness :
  ∃ r w', dshield_update one (2 * day) after_two = (Ok r, w') ∧
    ∃ l recent older t,
      l = recent ++ mkFeedEvent "dshield" t (Err FeShrank) :: older ∧
      1 <= zlen (filter (refused_shrink "dshield") recent) ∧ shrinkAcceptAfter <= 2 * day - t.
Proof.
  do 2 eexists. split; [vm_compute; reflexivity|].
  edestruct (@shrink_is_accepted_after_a_day quiet_conn
    [mkFeedEvent "dshield" (day + 5) (dshield_update one (day + 5) after_one).1;
     mkFeedEvent "dshield" day (dshield_update one day after_load).1;
     mkFeedEvent "dshield" 0 (dshield_update three 0 dshield_world).1]
    after_two (dshield_io (2 * day) FlushOk) (mkUpdateFeedPayload "dshield" one false) "web")
    as (recent & older & t & H1 & _ & H3 & H4); cycle -1.
  - do 4 eexists. split; [exact H1|]. split; [exact H3|exact H4].
  - apply (runs_update _ after_one (dshield_io (day + 5) FlushOk) (mkUpdateFeedPayload "dshield" one false) "web");
      [|apply surjective_pairing].
    apply (runs_update _ after_load (dshield_io day FlushOk) (mkUpdateFeedPayload "dshield" one false) "web");
      [|apply surjective_pairing].
    apply (runs_update _ dshield_world (dshield_io 0 FlushOk) (mkUpdateFeedPayload "dshield" three false) "web");
      [|apply surjective_pairing].
    apply runs_start.
  - vm_compute. reflexivity.
  - reflexivity.
  - reflexivity.
  - by left.
  - vm_compute. reflexivity.
  - vm_compute. reflexivity.
  - vm_compute. reflexivity.
Defined.

(** An update can be refused with its version already in force.  When the kernel's
    answer to a committed batch overflows the receive buffer, [ReplaceFeedSet]
    returns an error, the update is reported and recorded as refused by the kernel
    and the store keeps the old copy, but the sets hold the new one: packets from
    the prefix that was only in the old version get through. *)
Theorem overflowed_refresh_is_refused_and_loaded :
  let update entries fl := @UpdateFeed quiet_conn (dshield_io day fl) (mkUpdateFeedPayload "dshield" entries false) "web" in
  let w' := (update ["1.2.3.0/24"; "2a00::/29"; "7.7.7.7"] (FlushOverflow true) after_load).2 in
  (update ["1.2.3.0/24"; "2a00::/29"; "7.7.7.7"] (FlushOverflow true) after_load).1 = Err (FeKernel "dshield") ∧
  store_feeds (fw_store w') !! "dshield" = store_feeds (fw_store after_load) !! "dshield" ∧
  let enforced w a := in_interval_set (default [] (ks_sets (fw_sets w) !! "feed-dshield-v4")) (AsSlice a) in
  enforced after_load (Addr4 0x05060708) = true ∧ enforced w' (Addr4 0x05060708) = false ∧
  enforced w' (Addr4 0x07070707) = true.
Proof. cbv zeta. split_and!; vm_compute; reflexivity. Qed.

Lemma feeds_page_is_complete_witness :
  ∃ sts s', GetFeeds true "5.6.7.8" (Ok dshield_state) None (fw_store after_load) = (Ok sts, s') ∧
    map st_ContainsAddr sts = [true] ∧ NoDup (map st_ID sts).
Proof.
  do 2 eexists. split; [vm_compute; reflexivity|]. split; [reflexivity|].
  eapply (feeds_page_is_complete true "5.6.7.8" dshield_state None (fw_store after_load)).
  - apply (proj1 (store_reach_inv _ (reach_put true true "dshield"
      (mkStoredFeed ["1.2.3.0/24"; "5.6.7.8/32"; "2a00::/29"] 3 1 (Some 0) (Some 0)) ["dshield"] _ (reach_new SfMissing)))).
  - vm_compute. reflexivity.
Defined.
