(* ===== verification/Dispatch.v ===== *)
(** * The commands that save

    The cases of [dispatch] in [src/internal/core/daemon.go] that change the
    staged rules or the configuration, as programs: what each reads, stores and
    writes into the audit log.  The case of APPLY_RULES is in [Firewall]; the
    others only read, or call the operation of [Firewall] they are named
    after. *)
From S2P Require Import Prelude GoStrings Models RuleID Validate Diff AuditDetail.
From S2P Require Import Settings RulesStore World Firewall.

Local Open Scope Z_scope.

(** The state a failed read leaves in [before] and [after]. *)
Definition state_or_zero (r : store RulesState) : RulesState :=
  match r with Ok s => s | Err _ => mkRulesState emptyRules emptyRules emptyRules end.

(** SAVE_RULES *)
Definition CmdSaveRules (draws : list Draw) (ruleType : string) (p : Payload) : prog (store unit) :=
  before ← call CGetState;
  r ← call (CSaveStaged draws ruleType p);
  match r with
  | Err e => mret (Err e)
  | Ok _ =>
      after ← call CGetState;
      call (CAudit (mkAudit "rules_saved" ruleType
        (DescribeRuleChange ruleType (Staged (state_or_zero before)) (Staged (state_or_zero after)))
        "web"));;
      mret (Ok tt)
  end.

(** The detail of an import. *)
Definition import_detail (r : Rules) : string :=
  let n {A} (l : list A) := Itoa (Z.of_nat (length l)) in
  n (TCP r) +:+ " tcp, " +:+ n (UDP r) +:+ " udp, " +:+ n (Blocklist r) +:+ " blocklist, " +:+
  n (Allowlist r) +:+ " allowlist".

(** IMPORT_RULES; [checked] is whether [nft --check] passed every custom rule. *)
Definition CmdImportRules (draws : list Draw) (data : option Rules) (checked : bool)
    : prog (option (store unit)) :=
  match data with
  | None => mret None
  | Some incoming =>
      if checked then
        r ← call (CImportRules draws data);
        match r with
        | Err e => mret (Some (Err e))
        | Ok _ =>
            call (CAudit (mkAudit "rules_imported" "all" (import_detail incoming) "web"));;
            mret (Some (Ok tt))
        end
      else mret None
  end.

(** The end of the three saves: [saveLocked]'s error, or the audit entry. *)
Definition save_section (s : CfgSection) (action detail : string) : prog (cfg unit) :=
  ok ← call (CSaveCfg s);
  if negb (ok : bool) then mret (Err Settings.ErrSave)
  else call (CAudit (mkAudit action "" detail "web"));; mret (Ok tt).

(** SAVE_OPTIONS *)
Definition CmdSaveOptions (o : FirewallOptions) : prog (cfg unit) :=
  before ← call CFirewallOptions;
  match options_guard o with
  | Err e => mret (Err e)
  | Ok _ => save_section (SecFirewall o) "options_saved"
              (DescribeStructChange (firewall_leaves before) (firewall_leaves o))
  end.

(** SAVE_SETTINGS *)
Definition CmdSaveSettings (s : NetworkSettings) : prog (cfg unit) :=
  before ← call CNetworkSettings;
  match network_guards s with
  | Err e => mret (Err e)
  | Ok (v, r) => save_section (SecNetwork (mkNetworkSettings v (Docker s) r)) "settings_saved"
                   (DescribeStructChange (network_leaves before) (network_leaves s))
  end.

(** SAVE_SYSTEM *)
Definition CmdSaveSystem (a : AcceptanceConfig) : prog (cfg unit) :=
  before ← call CSystemSettings;
  if ValidAcceptanceDuration (Duration a)
  then save_section (SecAcceptance a) "system_saved"
         (DescribeStructChange (system_leaves before) (system_leaves a))
  else mret (Err (ErrDuration (Duration a))).

(** SIGHUP: the sections of a file that loads and validates. *)
Definition on_SIGHUP (fresh : cfg LiveCfg) : prog unit :=
  match fresh with
  | Ok c => call (CSaveCfg (SecAll c));; mret tt
  | Err _ => mret tt
  end.
