(* ===== verification/Interleaving.v ===== *)
(** * Goroutines, crashes and protocols

    The daemon as a transition system: a world, history variables, and the
    programs of the goroutines that have not finished.  A step runs one action
    of one goroutine, starts the handler of a request, lets time pass, or kills
    the process (with or without the machine going down) and starts it again.

    A [Protocol] is an invariant argument for that system: which actions need
    the apply slot or [panicMu], what the holder of each relies on, and what
    holds whenever each is free.  [protocol_sound] turns a proof that every
    handler keeps to a protocol into a property of every reachable state. *)
From S2P Require Import Prelude GoStrings Models RuleID Validate Diff Acceptance RulesStore.
From S2P Require Import Usage Kernel World Firewall.
From S2P Require Import Settings Dispatch.

Local Open Scope Z_scope.

(** ** The system *)

Inductive request :=
| RqApply | RqRestore (reason : string) | RqPanic (user : string) | RqResume (user : string)
| RqAccept | RqCancel | RqShutdown | RqStatus | RqCollect
| RqSaveRules (draws : list Draw) (ruleType : string) (p : Payload)
| RqImport (draws : list Draw) (data : option Rules) (checked : bool)
| RqSaveOptions (o : FirewallOptions) | RqSaveSettings (s : NetworkSettings)
| RqSaveSystem (a : AcceptanceConfig) | RqReload (fresh : cfg LiveCfg).

Definition discard {A} (p : prog A) : prog unit := p ≫= λ _, mret tt.

Definition handler `{ET : !ErrorText} (path : string) (rq : request) : prog unit :=
  match rq with
  | RqApply => discard (CmdApplyRules path)
  | RqRestore reason => discard (RestoreCurrent reason)
  | RqPanic user => discard (Panic user)
  | RqResume user => discard (Resume user)
  | RqAccept => discard FwAccept
  | RqCancel => discard FwRollback
  | RqShutdown => ShutdownAcceptance
  | RqStatus => discard Status
  | RqCollect => collectUsageBeforeWrite
  | RqSaveRules draws t p => discard (CmdSaveRules draws t p)
  | RqImport draws data checked => discard (CmdImportRules draws data checked)
  | RqSaveOptions o => discard (CmdSaveOptions o)
  | RqSaveSettings s => discard (CmdSaveSettings s)
  | RqSaveSystem a => discard (CmdSaveSystem a)
  | RqReload fresh => on_SIGHUP fresh
  end.

(** The process starts again: memory is what [NewFirewall] builds, with the
    last-apply time read from its file and the configuration [c] that was in
    [easywall.toml] (which may have been edited meanwhile); the kernel keeps its
    table unless the machine went down.  The rules file is as it was: [NewRulesStore] rewrites it
    only when an id is missing ([RulesStore]). *)
Definition restart (reboot : bool) (c : LiveCfg) (w : World) : World :=
  mkWorld (disk w)
    (mkMem (NewAcceptance (Duration (cfg_acceptance c) * 1000000000)) false false
       (d_lastApply (disk w)) c [] None (m_now (mem w)))
    (if reboot then NoTable else kernel w).

Inductive event :=
| EvSpawn (rq : request)
| EvStep (i : nat) (io : IO)
| EvTick (dt : N)
| EvCrash (reboot : bool) (c : LiveCfg).

(** History variables: how each action and each crash changes them, from the
    world before it. *)
Record History := mkHistory {
  hist : Type;
  h_act : IO → cmd → World → hist → hist;
  h_crash : bool → World → hist → hist }.

Record Sys (H : History) := mkSys {
  s_world : World;
  s_hist : hist H;
  s_threads : list (prog unit) }.
Arguments mkSys {H} _ _ _.
Arguments s_world {H} _.
Arguments s_hist {H} _.
Arguments s_threads {H} _.

Definition tick (dt : N) (w : World) : World := set_now (m_now (mem w) + Z.of_N dt) w.

Section system.
Context `{ET : !ErrorText} (path : string) (H : History).

Definition sys_step (e : event) (s : Sys H) : option (Sys H) :=
  match e with
  | EvSpawn rq => Some (mkSys (s_world s) (s_hist s) (s_threads s ++ [handler path rq]))
  | EvStep i io =>
      match s_threads s !! i with
      | Some (Act c k) =>
          if enabled c (s_world s) then
            let '(b, w') := exec io c (s_world s) in
            Some (mkSys w' (h_act H io c (s_world s) (s_hist s)) (<[i := k b]> (s_threads s)))
          else None
      | _ => None
      end
  | EvTick dt => Some (mkSys (tick dt (s_world s)) (s_hist s) (s_threads s))
  | EvCrash reboot c =>
      Some (mkSys (restart reboot c (s_world s)) (h_crash H reboot (s_world s) (s_hist s)) [])
  end.

Fixpoint sys_run (es : list event) (s : Sys H) : option (Sys H) :=
  match es with
  | [] => Some s
  | e :: es => match sys_step e s with Some s' => sys_run es s' | None => None end
  end.

(** The state a schedule that can be followed ends in. *)
Definition follows (es : list event) (s : Sys H) : bool :=
  match sys_run es s with Some _ => true | None => false end.
Definition final (es : list event) (s : Sys H) : Sys H := default s (sys_run es s).

Lemma final_run es s : follows es s = true → sys_run es s = Some (final es s).
Proof. unfold follows, final. by destruct (sys_run es s). Qed.
End system.

(** ** Protocols *)

Class Protocol (H : History) := {
  needs_slot : cmd → bool;
  needs_panicMu : cmd → bool;
  Inv : World → hist H → Prop;       (** holds always *)
  SlotFree : World → hist H → Prop;  (** holds whenever the slot is free *)
  MuFree : World → hist H → Prop;    (** holds whenever [panicMu] is free *)
  SlotRely : World → hist H → World → hist H → Prop;
  MuRely : World → hist H → World → hist H → Prop }.

(** What the rest of the development promises of a protocol: the actions that do
    not need a lock respect what its holder relies on, and time and crashes
    keep the invariants. *)
Class ProtocolLaws (H : History) `{!Protocol H} : Prop := {
  slot_refl w h : SlotRely w h w h;
  slot_trans w h w1 h1 w2 h2 : SlotRely w h w1 h1 → SlotRely w1 h1 w2 h2 → SlotRely w h w2 h2;
  mu_refl w h : MuRely w h w h;
  mu_trans w h w1 h1 w2 h2 : MuRely w h w1 h1 → MuRely w1 h1 w2 h2 → MuRely w h w2 h2;
  slot_act io c w h : needs_slot c = false → SlotRely w h (snd (exec io c w)) (h_act H io c w h);
  mu_act io c w h : needs_panicMu c = false → MuRely w h (snd (exec io c w)) (h_act H io c w h);
  slot_free_stable w h w' h' : SlotFree w h → SlotRely w h w' h' → SlotFree w' h';
  mu_free_stable w h w' h' : MuFree w h → MuRely w h w' h' → MuFree w' h';
  slot_tick dt w h : SlotRely w h (tick dt w) h;
  mu_tick dt w h : MuRely w h (tick dt w) h;
  inv_tick dt w h : Inv w h → Inv (tick dt w) h;
  inv_act io c w h : needs_slot c = false → needs_panicMu c = false → Inv w h →
    Inv (snd (exec io c w)) (h_act H io c w h);
  crash_keeps reboot c w h : Inv w h →
    (m_applying (mem w) = false → SlotFree w h) → (m_panicMu (mem w) = false → MuFree w h) →
    let w' := restart reboot c w in let h' := h_crash H reboot w h in
    Inv w' h' ∧ SlotFree w' h' ∧ MuFree w' h';
  needs_begin : needs_slot CBeginApply = false ∧ needs_panicMu CBeginApply = false;
  needs_lock : needs_slot CLockPanicMu = false ∧ needs_panicMu CLockPanicMu = false;
  needs_clock d : needs_slot CNow = false ∧ needs_panicMu CNow = false ∧
    needs_slot (CSleep d) = false ∧ needs_panicMu (CSleep d) = false;
  needs_end : needs_slot CEndApply = true;
  needs_unlock : needs_panicMu CUnlockPanicMu = true }.

(** What a goroutine holds. *)
Record Held := mkHeld { h_slot : bool; h_mu : bool }.
Definition nothing : Held := mkHeld false false.

Section protocol.
Context {H : History} `{!Protocol H}.

Definition Rely (o : Held) (w : World) (h : hist H) (w' : World) (h' : hist H) : Prop :=
  (h_slot o = true → SlotRely w h w' h') ∧ (h_mu o = true → MuRely w h w' h').

Definition allowed (o : Held) (c : cmd) : Prop :=
  (needs_slot c = true → h_slot o = true) ∧ (needs_panicMu c = true → h_mu o = true) ∧
  (c = CBeginApply → h_slot o = false) ∧ (c = CLockPanicMu → h_mu o = false).

(** What the goroutine holds after an action. *)
Definition held_after (o : Held) (w : World) (c : cmd) : Held :=
  match c with
  | CBeginApply => if m_applying (mem w) then o else mkHeld true (h_mu o)
  | CEndApply => mkHeld false (h_mu o)
  | CLockPanicMu => mkHeld (h_slot o) true
  | CUnlockPanicMu => mkHeld (h_slot o) false
  | _ => o
  end.

(** What an action must establish, and what it may assume, about the locks. *)
Definition gains (w : World) (h : hist H) (w' : World) (c : cmd) (Q : Prop) : Prop :=
  match c with
  | CBeginApply => (m_applying (mem w) = false → SlotFree w' h) → Q
  | CLockPanicMu => MuFree w' h → Q
  | CEndApply => SlotFree w' h ∧ Q
  | CUnlockPanicMu => MuFree w' h ∧ Q
  | _ => Q
  end.

(** A program keeps to the protocol and ends in [Q]: at every action, whatever
    the other goroutines did since the last one. *)
Fixpoint wp {A} (o : Held) (p : prog A) (Q : A → Held → World → hist H → Prop)
    (w : World) (h : hist H) : Prop :=
  match p with
  | Ret' a => Q a o w h
  | Act c k =>
      allowed o c ∧
      ∀ io w1 h1, Rely o w h w1 h1 → Inv w1 h1 → enabled c w1 = true →
        let w2 := snd (exec io c w1) in let h2 := h_act H io c w1 h1 in
        gains w1 h2 w2 c
          (Inv w2 h2 ∧ wp (held_after o w1 c) (k (fst (exec io c w1))) Q w2 h2)
  end.

(** A handler: it may start at any time and ends holding nothing. *)
Definition keeps {A} (p : prog A) : Prop :=
  ∀ w h, wp nothing p (λ _ o _ _, o = nothing) w h.
End protocol.

(** ** Rules *)

#[local] Set Default Proof Using "All".

Section rules.
Context {H : History} `{!Protocol H} `{!ProtocolLaws H}.
Implicit Types (w : World) (h : hist H) (o : Held).

Lemma Rely_refl o w h : Rely o w h w h.
Proof. split; intros _; [apply slot_refl|apply mu_refl]. Qed.

Lemma Rely_trans o w h w1 h1 w2 h2 : Rely o w h w1 h1 → Rely o w1 h1 w2 h2 → Rely o w h w2 h2.
Proof.
  intros [Ha Hb] [Hc Hd]. split; intros Ho.
  - by eapply slot_trans; [apply Ha|apply Hc].
  - by eapply mu_trans; [apply Hb|apply Hd].
Qed.

Lemma wp_ret {A} o (a : A) (Q : A → Held → World → hist H → Prop) w h :
  Q a o w h → wp o (mret a) Q w h.
Proof. done. Qed.

Lemma gains_mono w h w' c (P Q : Prop) : (P → Q) → gains w h w' c P → gains w h w' c Q.
Proof. destruct c; simpl; tauto. Qed.

Lemma wp_mono {A} o p (Q Q' : A → Held → World → hist H → Prop) w h :
  (∀ a o w h, Q a o w h → Q' a o w h) → wp o p Q w h → wp o p Q' w h.
Proof.
  intros HQ. revert o w h. induction p as [a|c k IH]; intros o w h; simpl; [apply HQ|].
  intros [Hal Hk]. split; [done|]. intros io w1 h1 Hr Hi He.
  eapply gains_mono; [|by apply Hk]. intros [? ?]. split; [done|]. by apply IH.
Qed.

Lemma wp_bind {A B} o (p : prog A) (f : A → prog B) Q w h :
  wp o p (λ a o w h, wp o (f a) Q w h) w h → wp o (p ≫= f) Q w h.
Proof.
  revert o w h. induction p as [a|c k IH]; intros o w h; simpl; [done|].
  intros [Hal Hk]. split; [done|]. intros io w1 h1 Hr Hi He.
  eapply gains_mono; [|by apply Hk]. intros [? ?]. split; [done|]. by apply IH.
Qed.

Lemma wp_call {A} o c (k : answer c → prog A) Q w h :
  wp o (Act c k) Q w h → wp o (call c ≫= k) Q w h.
Proof. done. Qed.

(** What the others do before the next action can be done beforehand. *)
Lemma wp_rely {A} o (c : cmd) (k : answer c → prog A) Q w h w' h' :
  Rely o w h w' h' → wp o (Act c k) Q w h → wp o (Act c k) Q w' h'.
Proof.
  intros Hr [Hal Hk]. split; [done|]. intros io w1 h1 Hr1. apply Hk. by eapply Rely_trans.
Qed.

(** An action that needs no lock and takes none. *)
Definition plain (c : cmd) : bool :=
  negb (needs_slot c) && negb (needs_panicMu c) &&
  match c with CBeginApply | CLockPanicMu | CEndApply | CUnlockPanicMu => false | _ => true end.

Lemma plain_step io c w h o :
  plain c = true → Inv w h →
  Inv (snd (exec io c w)) (h_act H io c w h) ∧
  Rely o w h (snd (exec io c w)) (h_act H io c w h).
Proof.
  unfold plain. intros Hp Hi. breflect. split; [by apply inv_act|].
  split; intros _; [by apply slot_act|by apply mu_act].
Qed.

Lemma plain_allowed o c : plain c = true → allowed o c.
Proof.
  unfold plain. intros Hp. breflect. split_and!; try congruence; by intros ->.
Qed.

Lemma gains_plain w h w' c (Q : Prop) : plain c = true → gains w h w' c Q ↔ Q.
Proof. unfold plain. intros Hp. breflect. by destruct c. Qed.

Lemma held_plain o w c : plain c = true → held_after o w c = o.
Proof. unfold plain. intros Hp. breflect. by destruct c. Qed.

(** The rule for such an action: the state after it is one the holder's rely
    allows. *)
Lemma wp_plain {A} o c (k : answer c → prog A) Q w h :
  plain c = true →
  (∀ b w' h', Rely o w h w' h' → wp o (k b) Q w' h') → wp o (Act c k) Q w h.
Proof.
  intros Hp Hk. split; [by apply plain_allowed|]. intros io w1 h1 Hr Hi He.
  apply gains_plain; [done|]. rewrite held_plain by done.
  destruct (plain_step io c w1 h1 o Hp Hi) as [Hi' Hr']. split; [done|].
  apply Hk. by eapply Rely_trans.
Qed.

(** A program of such actions only. *)
Fixpoint plain_prog {A} (p : prog A) : Prop :=
  match p with
  | Ret' _ => True
  | Act c k => plain c = true ∧ ∀ b, plain_prog (k b)
  end.

Lemma plain_prog_bind {A B} (p : prog A) (f : A → prog B) :
  plain_prog p → (∀ a, plain_prog (f a)) → plain_prog (p ≫= f).
Proof.
  intros Hp Hf. induction p as [a|c k IH]; simpl in *; [apply Hf|].
  destruct Hp as [? Hp]. split; [done|]. intros b. apply IH, Hp.
Qed.

Lemma wp_plain_prog {A} o (p : prog A) Q w h :
  plain_prog p → (∀ a w' h', Rely o w h w' h' → Q a o w' h') → wp o p Q w h.
Proof.
  revert w h. induction p as [a|c k IH]; intros w h Hp HQ; simpl in Hp.
  { apply HQ, Rely_refl. }
  destruct Hp as [Hc Hp]. apply wp_plain; [done|]. intros b w' h' Hr.
  apply IH; [apply Hp|]. intros a w'' h'' Hr'. apply HQ. by eapply Rely_trans.
Qed.

Lemma wp_plain_bind {A B} o (p : prog A) (f : A → prog B) Q w h :
  plain_prog p → (∀ a w' h', Rely o w h w' h' → wp o (f a) Q w' h') → wp o (p ≫= f) Q w h.
Proof. intros Hp Hf. apply wp_bind. by apply wp_plain_prog. Qed.

Lemma plain_keeps {A} (p : prog A) : plain_prog p → keeps p.
Proof. intros Hp w h. by apply wp_plain_prog. Qed.

(** Taking and giving back the locks. *)
Lemma wp_begin {A} o (k : bool → prog A) Q w h :
  h_slot o = false →
  (∀ w' h', Rely o w h w' h' → wp o (k false) Q w' h') →
  (∀ w' h', Rely o w h w' h' → SlotFree w' h' → wp (mkHeld true (h_mu o)) (k true) Q w' h') →
  wp o (Act CBeginApply k) Q w h.
Proof.
  intros Ho Hf Ht. destruct needs_begin as [N1 N2]. split; [split_and!; congruence|].
  intros io w1 h1 Hr Hi _ w2 h2 Hsf. subst w2 h2.
  assert (Rely o w h (snd (exec io CBeginApply w1)) (h_act H io CBeginApply w1 h1)) as Hr'.
  { eapply Rely_trans; [done|]. split; intros _; [by apply slot_act|by apply mu_act]. }
  split; [by apply inv_act|]. revert Hsf Hr'. cbn [exec held_after].
  destruct (m_applying (mem w1)); cbn [fst snd]; intros Hsf Hr'; [by apply Hf|].
  apply Ht; [done|]. by apply Hsf.
Qed.

Lemma wp_end {A} o (k : unit → prog A) Q w h :
  h_slot o = true → needs_panicMu CEndApply = false →
  (∀ io w1 h1, Rely o w h w1 h1 → Inv w1 h1 →
     let w2 := set_applying false w1 in let h2 := h_act H io CEndApply w1 h1 in
     SlotFree w2 h2 ∧ Inv w2 h2 ∧
     ((h_mu o = true → MuRely w h w2 h2) → wp (mkHeld false (h_mu o)) (k tt) Q w2 h2)) →
  wp o (Act CEndApply k) Q w h.
Proof.
  intros Ho Nm Hk. split; [split_and!; congruence|]. intros io w1 h1 Hr Hi _.
  destruct (Hk io w1 h1 Hr Hi) as (Hsf & Hi' & Hw). split; [done|]. split; [done|]. apply Hw.
  intros Hm. destruct Hr as [_ Hr]. eapply mu_trans; [by apply Hr|].
  by apply (mu_act io CEndApply).
Qed.

Lemma wp_lock {A} o (k : unit → prog A) Q w h :
  h_mu o = false →
  (∀ w' h', Rely o w h w' h' → MuFree w' h' → wp (mkHeld (h_slot o) true) (k tt) Q w' h') →
  wp o (Act CLockPanicMu k) Q w h.
Proof.
  intros Ho Hk. destruct needs_lock as [N1 N2]. split; [split_and!; congruence|].
  intros io w1 h1 Hr Hi _ w2 h2 Hmf. subst w2 h2. split; [by apply inv_act|]. apply Hk; [|done].
  eapply Rely_trans; [done|].
  split; intros _; [by apply (slot_act io CLockPanicMu)|by apply (mu_act io CLockPanicMu)].
Qed.

Lemma wp_unlock {A} o (k : unit → prog A) Q w h :
  h_mu o = true → needs_slot CUnlockPanicMu = false →
  (∀ io w1 h1, Rely o w h w1 h1 → Inv w1 h1 →
     let w2 := set_panicMu false w1 in let h2 := h_act H io CUnlockPanicMu w1 h1 in
     MuFree w2 h2 ∧ Inv w2 h2 ∧ wp (mkHeld (h_slot o) false) (k tt) Q w2 h2) →
  wp o (Act CUnlockPanicMu k) Q w h.
Proof.
  intros Ho Nm Hk. split; [split_and!; congruence|]. intros io w1 h1 Hr Hi _.
  by apply (Hk io w1 h1 Hr Hi).
Qed.

Lemma wp_poll_slot o fuel d (Q : bool → Held → World → hist H → Prop) w h :
  h_slot o = false →
  (∀ w' h', Rely o w h w' h' → Q false o w' h') →
  (∀ w' h', Rely o w h w' h' → SlotFree w' h' → Q true (mkHeld true (h_mu o)) w' h') →
  wp o (poll_slot fuel d) Q w h.
Proof.
  intros Ho. revert w h. induction fuel as [|fuel IH]; intros w h Hf Ht; cbn [poll_slot].
  { apply wp_ret, Hf, Rely_refl. }
  destruct (needs_clock 50000000) as (N1 & N2 & N3 & N4).
  apply wp_call, wp_begin; [done| |intros w' h' Hr Hs; by apply wp_ret, Ht].
  intros w1 h1 Hr1. apply wp_call, wp_plain; [unfold plain; by rewrite N1, N2|].
  intros now w2 h2 Hr2. destruct (d <? now).
  { apply wp_ret, Hf. by eapply Rely_trans. }
  apply wp_call, wp_plain; [unfold plain; by rewrite N3, N4|]. intros _ w3 h3 Hr3.
  assert (Rely o w h w3 h3) as Hr.
  { eapply Rely_trans; [done|]. by eapply Rely_trans. }
  apply IH; intros w4 h4 Hr4; [apply Hf|apply Ht]; by eapply Rely_trans.
Qed.

Lemma wp_waitForApplySlot o d (Q : bool → Held → World → hist H → Prop) w h :
  h_slot o = false →
  (∀ w' h', Rely o w h w' h' → Q false o w' h') →
  (∀ w' h', Rely o w h w' h' → SlotFree w' h' → Q true (mkHeld true (h_mu o)) w' h') →
  wp o (waitForApplySlot d) Q w h.
Proof.
  intros Ho Hf Ht. destruct (needs_clock d) as (N1 & N2 & _).
  apply wp_call, wp_plain; [unfold plain; by rewrite N1, N2|]. intros now w1 h1 Hr.
  apply wp_poll_slot; [done|..]; intros; [apply Hf|apply Ht]; try done; by eapply Rely_trans.
Qed.

(** A program that never touches [panicMu] keeps what its holder relies on. *)
Fixpoint no_mu {A} (p : prog A) : Prop :=
  match p with
  | Ret' _ => True
  | Act c k => needs_panicMu c = false ∧ c ≠ CLockPanicMu ∧ c ≠ CUnlockPanicMu ∧ ∀ b, no_mu (k b)
  end.

Lemma no_mu_bind {A B} (p : prog A) (f : A → prog B) :
  no_mu p → (∀ a, no_mu (f a)) → no_mu (p ≫= f).
Proof.
  intros Hp Hf. induction p as [a|c k IH]; simpl in *; [apply Hf|].
  destruct Hp as (? & ? & ? & Hp). split_and!; try done. intros b. apply IH, Hp.
Qed.

Lemma held_no_mu o w c :
  c ≠ CLockPanicMu → c ≠ CUnlockPanicMu → h_mu (held_after o w c) = h_mu o.
Proof. intros. destruct c; try done. simpl. by destruct (m_applying (mem w)). Qed.

Lemma wp_mu_frame {A} o (p : prog A) Q w h :
  no_mu p → h_mu o = true → wp o p Q w h →
  wp o p (λ a o' w' h', Q a o' w' h' ∧ MuRely w h w' h') w h.
Proof.
  intros Hn Ho Hw. assert (∀ w0 h0, MuRely w0 h0 w h →
    wp o p (λ a o' w' h', Q a o' w' h' ∧ MuRely w0 h0 w' h') w h) as Hg;
    [|apply Hg, mu_refl].
  revert o w h Ho Hw Hn. induction p as [a|c k IH]; intros o w h Ho Hw Hn w0 h0 Hr0; simpl in *.
  { done. }
  destruct Hn as (N1 & N2 & N3 & Hn). destruct Hw as [Hal Hk]. split; [done|].
  intros io w1 h1 Hr Hi He. eapply gains_mono; [|by apply Hk]. intros [Hi' Hw]. split; [done|].
  apply IH; [by rewrite held_no_mu|done|apply Hn|].
  eapply mu_trans; [done|]. destruct Hr as [_ Hr]. eapply mu_trans; [by apply Hr|].
  by apply mu_act.
Qed.

(** ** Soundness *)

(** The goroutines and what each holds: at most one holds each lock, and the
    world knows whether one does. *)
Definition holds_at (f : Held → bool) (os : list Held) (i : nat) : Prop :=
  f <$> os !! i = Some true.

Record sys_ok (s : Sys H) (os : list Held) : Prop := {
  ok_inv : Inv (s_world s) (s_hist s);
  ok_len : length os = length (s_threads s);
  ok_wp i p o : s_threads s !! i = Some p → os !! i = Some o →
    wp o p (λ _ o _ _, o = nothing) (s_world s) (s_hist s);
  ok_slot i j : holds_at h_slot os i → holds_at h_slot os j → i = j;
  ok_mu i j : holds_at h_mu os i → holds_at h_mu os j → i = j;
  ok_slot_held i : holds_at h_slot os i → m_applying (mem (s_world s)) = true;
  ok_mu_held i : holds_at h_mu os i → m_panicMu (mem (s_world s)) = true;
  ok_slot_free : m_applying (mem (s_world s)) = false → SlotFree (s_world s) (s_hist s);
  ok_mu_free : m_panicMu (mem (s_world s)) = false → MuFree (s_world s) (s_hist s) }.

Lemma exec_applying io c w :
  m_applying (mem (snd (exec io c w))) =
  match c with CBeginApply => true | CEndApply => false | _ => m_applying (mem w) end.
Proof.
  destruct c; try done; simpl;
    unfold on_rules, on_acc, on_kernel; repeat case_match; simplify_eq; done.
Qed.

Lemma exec_panicMu io c w :
  m_panicMu (mem (snd (exec io c w))) =
  match c with CLockPanicMu => true | CUnlockPanicMu => false | _ => m_panicMu (mem w) end.
Proof.
  destruct c; try done; simpl;
    unfold on_rules, on_acc, on_kernel; repeat case_match; simplify_eq; done.
Qed.

Lemma holds_at_insert f os i j o' :
  (i < length os)%nat →
  holds_at f (<[i := o']> os) j ↔ (i = j ∧ f o' = true) ∨ (i ≠ j ∧ holds_at f os j).
Proof.
  intros Hi. unfold holds_at. destruct (decide (i = j)) as [<-|Hne].
  - rewrite list_lookup_insert_eq by done. simpl. intuition congruence.
  - rewrite list_lookup_insert_ne by done. intuition congruence.
Qed.

Lemma holds_at_self f os i o : os !! i = Some o → holds_at f os i ↔ f o = true.
Proof. intros Ho. unfold holds_at. rewrite Ho. simpl. split; congruence. Qed.


(** What the goroutine that runs an action knows of its locks. *)
Definition locks_ok (o : Held) (w : World) : Prop :=
  (h_slot o = true → m_applying (mem w) = true) ∧ (h_mu o = true → m_panicMu (mem w) = true).

(** A lock the goroutine holds after an action it held before, or nobody did. *)
Lemma held_slot_origin o c w :
  h_slot (held_after o w c) = true → h_slot o = true ∨ m_applying (mem w) = false.
Proof. destruct c; simpl; auto; [destruct (m_applying (mem w)); auto|done]. Qed.

Lemma held_mu_origin o c w :
  enabled c w = true → h_mu (held_after o w c) = true → h_mu o = true ∨ m_panicMu (mem w) = false.
Proof.
  destruct c; simpl; auto; [destruct (m_applying (mem w)); auto| |done].
  intros ?%negb_true_iff. auto.
Qed.

Lemma locks_ok_after io o c w :
  locks_ok o w → locks_ok (held_after o w c) (snd (exec io c w)).
Proof.
  intros [Hs Hm]. unfold locks_ok. rewrite exec_applying, exec_panicMu.
  destruct c; simpl; try done. by destruct (m_applying (mem w)) eqn:E; simpl.
Qed.

Lemma free_slot_not_needed o c w :
  allowed o c → locks_ok o w → m_applying (mem w) = false → needs_slot c = false.
Proof.
  intros (Ha & _) [Hs _] E. destruct (needs_slot c) eqn:N; [|done].
  rewrite Hs in E by auto. done.
Qed.

Lemma free_mu_not_needed o c w :
  allowed o c → locks_ok o w → m_panicMu (mem w) = false → needs_panicMu c = false.
Proof.
  intros (_ & Ha & _) [_ Hs] E. destruct (needs_panicMu c) eqn:N; [|done].
  rewrite Hs in E by auto. done.
Qed.

(** One action keeps the invariants of both locks. *)
Lemma action_free io o c k w h (Q : unit → Held → World → hist H → Prop) :
  locks_ok o w → Inv w h → enabled c w = true →
  (m_applying (mem w) = false → SlotFree w h) → (m_panicMu (mem w) = false → MuFree w h) →
  wp o (Act c k) Q w h →
  let w' := snd (exec io c w) in let h' := h_act H io c w h in
  Inv w' h' ∧ wp (held_after o w c) (k (fst (exec io c w))) Q w' h' ∧
  (m_applying (mem w') = false → SlotFree w' h') ∧ (m_panicMu (mem w') = false → MuFree w' h').
Proof.
  intros Hl Hi He Hsf Hmf [Hal Hk] w' h'.
  specialize (Hk io w h (Rely_refl o w h) Hi He). fold w' h' in Hk.
  assert (m_applying (mem w) = false → SlotFree w' h') as Hs.
  { intros E. eapply slot_free_stable; [by apply Hsf|]. apply slot_act.
    by eapply free_slot_not_needed. }
  assert (m_panicMu (mem w) = false → MuFree w' h') as Hm.
  { intros E. eapply mu_free_stable; [by apply Hmf|]. apply mu_act.
    by eapply free_mu_not_needed. }
  pose proof (exec_applying io c w) as Ea. pose proof (exec_panicMu io c w) as Em.
  fold w' in Ea, Em. rewrite Ea, Em. clear Ea Em.
  destruct c; simpl in Hk;
    first [ destruct Hk as [? [? ?]]; by auto
          | destruct (Hk Hs); by auto
          | apply negb_true_iff in He; destruct (Hk (Hm He)); by auto
          | destruct Hk; by auto ].
Qed.

(** The others see an action of a goroutine that cannot hold what they hold. *)
Lemma others_rely io o oj c w h :
  allowed o c → (h_slot o = true → h_slot oj = true → False) →
  (h_mu o = true → h_mu oj = true → False) →
  Rely oj w h (snd (exec io c w)) (h_act H io c w h).
Proof.
  intros (Ha & Hb & _) Hs Hm. split; intros E.
  - apply slot_act. destruct (needs_slot c); [exfalso; eauto|done].
  - apply mu_act. destruct (needs_panicMu c); [exfalso; eauto|done].
Qed.

Lemma wp_moved (p : prog unit) o w h w' h' :
  Rely o w h w' h' →
  wp o p (λ _ o _ _, o = nothing) w h → wp o p (λ _ o _ _, o = nothing) w' h'.
Proof. destruct p; [done|]. apply wp_rely. Qed.

Lemma sys_ok_step path `{ET : !ErrorText} (s s' : Sys H) os i io :
  sys_ok s os → sys_step path H (EvStep i io) s = Some s' → ∃ os', sys_ok s' os'.
Proof.
  intros [Hi Hlen Hwp Hs Hm Hsh Hmh Hsf Hmf] Hst. simpl in Hst.
  destruct (s_threads s !! i) as [[|c k]|] eqn:Ht; [done| |done].
  destruct (enabled c (s_world s)) eqn:He; [|done].
  destruct (exec io c (s_world s)) as [b w'] eqn:Hx. simplify_eq.
  assert (i < length os)%nat as Hlt by (rewrite Hlen; by eapply lookup_lt_Some).
  destruct (os !! i) as [o|] eqn:Ho; [|apply lookup_ge_None in Ho; lia].
  assert (locks_ok o (s_world s)) as Hl.
  { split; intros E; [apply (Hsh i)|apply (Hmh i)]; by eapply holds_at_self. }
  pose proof (Hwp i _ o Ht Ho) as Hw. pose proof Hw as [Hal _].
  destruct (action_free io o c k _ _ _ Hl Hi He Hsf Hmf Hw) as (Hi' & Hw' & Hsf' & Hmf').
  rewrite Hx in *. cbn [fst snd] in *.
  pose proof (locks_ok_after io o c _ Hl) as [Hl1 Hl2]. rewrite Hx in Hl1, Hl2. cbn [snd] in *.
  exists (<[i := held_after o (s_world s) c]> os). split; simpl; auto.
  - by rewrite !length_insert.
  - intros j p oj. destruct (decide (i = j)) as [<-|Hne].
    + rewrite !list_lookup_insert_eq by (done || by rewrite <- Hlen). by intros [= <-] [= <-].
    + rewrite !list_lookup_insert_ne by done. intros Hpj Hoj.
      eapply wp_moved; [|by apply (Hwp j)].
      replace w' with (snd (exec io c (s_world s))) by by rewrite Hx.
      apply (others_rely io o); [done| |]; intros E1 E2; apply Hne.
      * apply Hs; by eapply holds_at_self.
      * apply Hm; by eapply holds_at_self.
  - intros a b0. rewrite !holds_at_insert by done.
    intros [[<- Ha]|[? Ha]] [[<- Hb]|[? Hb]]; auto; exfalso.
    + destruct (held_slot_origin _ _ _ Ha) as [E|E]; [|rewrite (Hsh b0) in E; done].
      assert (i = b0); [|done]. apply Hs; [by eapply holds_at_self|done].
    + destruct (held_slot_origin _ _ _ Hb) as [E|E]; [|rewrite (Hsh a) in E; done].
      assert (i = a); [|done]. apply Hs; [by eapply holds_at_self|done].
  - intros a b0. rewrite !holds_at_insert by done.
    intros [[<- Ha]|[? Ha]] [[<- Hb]|[? Hb]]; auto; exfalso.
    + destruct (held_mu_origin _ _ _ He Ha) as [E|E]; [|rewrite (Hmh b0) in E; done].
      assert (i = b0); [|done]. apply Hm; [by eapply holds_at_self|done].
    + destruct (held_mu_origin _ _ _ He Hb) as [E|E]; [|rewrite (Hmh a) in E; done].
      assert (i = a); [|done]. apply Hm; [by eapply holds_at_self|done].
  - intros j. rewrite holds_at_insert by done. intros [[<- E]|[Hne E]]; [auto|].
    replace w' with (snd (exec io c (s_world s))) by by rewrite Hx. rewrite exec_applying.
    destruct c; try done; try by apply (Hsh j). exfalso. apply Hne, Hs; [|done].
    eapply holds_at_self; [done|]. apply Hal, needs_end.
  - intros j. rewrite holds_at_insert by done. intros [[<- E]|[Hne E]]; [auto|].
    replace w' with (snd (exec io c (s_world s))) by by rewrite Hx. rewrite exec_panicMu.
    destruct c; try done; try by apply (Hmh j). exfalso. apply Hne, Hm; [|done].
    eapply holds_at_self; [done|]. apply Hal, needs_unlock.
Qed.

Lemma sys_ok_tick (s : Sys H) os dt :
  sys_ok s os → sys_ok (mkSys (tick dt (s_world s)) (s_hist s) (s_threads s)) os.
Proof.
  intros [Hi Hlen Hwp Hs Hm Hsh Hmh Hsf Hmf]. split; simpl; auto.
  - by apply inv_tick.
  - intros i p o Hp Ho. eapply wp_moved; [|by apply (Hwp i)].
    split; intros _; [apply slot_tick|apply mu_tick].
  - intros E. eapply slot_free_stable; [by apply Hsf|apply slot_tick].
  - intros E. eapply mu_free_stable; [by apply Hmf|apply mu_tick].
Qed.

Lemma holds_at_spawn f os i : f nothing = false → holds_at f (os ++ [nothing]) i → holds_at f os i.
Proof.
  unfold holds_at. intros Hf. destruct (decide (i < length os)%nat).
  - by rewrite lookup_app_l.
  - rewrite lookup_app_r by lia. destruct (i - length os)%nat; simpl; [by rewrite Hf|done].
Qed.

Lemma sys_ok_spawn (s : Sys H) os p :
  keeps p → sys_ok s os →
  sys_ok (mkSys (s_world s) (s_hist s) (s_threads s ++ [p])) (os ++ [nothing]).
Proof.
  intros Hp [Hi Hlen Hwp Hs Hm Hsh Hmh Hsf Hmf]. split; simpl; auto.
  - by rewrite !length_app, Hlen.
  - intros i q o. rewrite !lookup_app, Hlen.
    destruct (s_threads s !! i) eqn:E1, (os !! i) eqn:E2; simplify_eq.
    + intros [= <-] [= <-]. by apply (Hwp i).
    + apply lookup_lt_Some in E1. apply lookup_ge_None in E2. lia.
    + apply lookup_ge_None in E1. apply lookup_lt_Some in E2. lia.
    + destruct (i - length (s_threads s))%nat; [|done]. simpl. intros [= <-] [= <-]. apply Hp.
  - intros i j ?%holds_at_spawn ?%holds_at_spawn; auto.
  - intros i j ?%holds_at_spawn ?%holds_at_spawn; auto.
  - intros i ?%holds_at_spawn; eauto.
  - intros i ?%holds_at_spawn; eauto.
Qed.

Lemma sys_ok_idle w h :
  Inv w h → SlotFree w h → MuFree w h → sys_ok (mkSys w h []) [].
Proof. intros. split; simpl; auto; intros i; unfold holds_at; rewrite lookup_nil; done. Qed.

(** Every handler keeping to the protocol, every reachable state satisfies its
    invariant, and the invariant of each lock that is free. *)
Theorem protocol_sound path `{ET : !ErrorText} es w h (s : Sys H) :
  (∀ rq, keeps (handler path rq)) →
  Inv w h → SlotFree w h → MuFree w h →
  sys_run path H es (mkSys w h []) = Some s →
  Inv (s_world s) (s_hist s) ∧
  (m_applying (mem (s_world s)) = false → SlotFree (s_world s) (s_hist s)) ∧
  (m_panicMu (mem (s_world s)) = false → MuFree (s_world s) (s_hist s)).
Proof.
  intros Hk Hi Hsf Hmf Hrun.
  assert (∃ os, sys_ok s os) as [os []]; [|by auto].
  assert (∃ os, sys_ok (mkSys w h []) os) as Hok by (eexists; by apply sys_ok_idle).
  clear Hi Hsf Hmf. revert Hrun Hok. generalize (mkSys w h []) as s0.
  induction es as [|e es IH]; intros s0 Hrun [os Hok]; simpl in Hrun; [simplify_eq; eauto|].
  destruct (sys_step path H e s0) as [s1|] eqn:Hst; [|done].
  apply (IH s1 Hrun). destruct e as [rq|i io|dt|reboot].
  - simplify_eq/=. eexists. by apply sys_ok_spawn.
  - by eapply sys_ok_step.
  - simplify_eq/=. eexists. by eapply sys_ok_tick.
  - simplify_eq/=. exists []. destruct Hok as [Hi _ _ _ _ _ _ Hsf Hmf].
    destruct (crash_keeps reboot c _ _ Hi Hsf Hmf) as (? & ? & ?). by apply sys_ok_idle.
Qed.
End rules.

(** ** Automation *)

(** [plain_prog] for the programs of the cycle, with the lemmas of the database
    [plain] for those that have a name. *)
Create HintDb plain discriminated.

Ltac plain_solve :=
  repeat match goal with
  | |- plain_prog (mbind _ _) => apply plain_prog_bind; [|intros ?]
  | |- plain_prog (call _) => split; [reflexivity|intros ?; exact I]
  | |- plain_prog (mret _) => exact I
  | |- plain_prog (Ret' _) => exact I
  | |- plain_prog (match ?x with _ => _ end) => destruct x
  | |- plain_prog _ => solve [eauto with plain nocore]
  | |- plain_prog ?p => progress (let q := eval hnf in p in change (plain_prog q))
  | |- plain_prog (Act _ _) => split; [reflexivity|intros ?]
  end.

(** The same for [no_mu]. *)
Ltac no_mu_solve :=
  repeat match goal with
  | |- no_mu (mbind _ _) => apply no_mu_bind; [|intros ?]
  | |- no_mu (mret _) => exact I
  | |- no_mu (Ret' _) => exact I
  | |- no_mu (match ?x with _ => _ end) => destruct x
  | |- no_mu _ => solve [eauto with plain nocore]
  | |- no_mu ?p => progress (let q := eval hnf in p in change (no_mu q))
  | |- no_mu (Act _ _) => split_and!; [reflexivity|discriminate|discriminate|intros ?]
  end.
