(* ===== verification/Scenarios.v ===== *)
(** * Concrete worlds

    A configured machine, the schedules of complete cycles on it, and the texts
    of errors: what the witnesses of the later files evaluate. *)
From S2P Require Import Prelude GoStrings Models RuleID Validate Diff Acceptance RulesStore.
From S2P Require Import Usage Kernel World Firewall Interleaving.

Local Open Scope Z_scope.

#[global] Instance plain_text : ErrorText :=
  {| StoreErrorText _ := "store error"; NftErrorText _ := "nft error"; FwErrorText _ := "error" |}.

Definition rules_with (port id : string) : Rules :=
  mkRules [mkPortRule id port "" false "" [] ""] [] [] [] [] [] [].
Definition ssh_only : Rules := rules_with "22" "0123456789ab".
Definition web_only : Rules := rules_with "443" "0123456789ac".

Definition options_off : FirewallOptions :=
  mkFirewallOptions false false 5 60 true false false 10 60 false false 100 false false
    false false false false false false false 100 false false 100 false false false
    false 60 false 60 false 60.
Definition networks_plain : NetworkSettings :=
  mkNetworkSettings (mkIPv6Config IPv6Filter true true true)
    (mkDockerConfig false false [] PublishedPortsOpen) (mkRoutingConfig RoutingClosed []).
Definition config_plain : AppliedConfig := mkAppliedConfig options_off networks_plain.

Definition cfg_window (on : bool) : LiveCfg :=
  mkLiveCfg options_off networks_plain (mkAcceptanceConfig on 60).

Definition table_of (r : Rules) : Kernel := Filtering (wanted r options_off networks_plain ∅).

(** [ssh_only] confirmed and enforced, [web_only] staged. *)
Definition configured (on : bool) : World :=
  mkWorld
    (mkDisk (RFDoc (mkRulesState ssh_only web_only ssh_only)) NoMarker false
       (AFDoc config_plain) (Some 0) UFMissing FFMissing [])
    (mkMem (NewAcceptance 60000000000) false false (Some 0) (cfg_window on) [] None 1000)
    (table_of ssh_only).

Definition io_fine : IO := mkIO io_ok true nft_ok (Some ∅) true [] [].
(** The disk is full: nothing can be saved. *)
Definition io_full : IO := mkIO (mkStoreIO true SaveWrite) false nft_ok (Some ∅) true [] [].
(** Only the rules file cannot be saved. *)
Definition io_rules_full : IO := mkIO (mkStoreIO true SaveWrite) true nft_ok (Some ∅) true [] [].

Definition steps (n : nat) (i : nat) : list event := replicate n (EvStep i io_fine).
