(* ===== verification/SaveRuns.v ===== *)
(** * Saving is not enforcing

    The commands that save run to their end, whatever fails on the way, without
    touching anything an apply, a rollback or a restore goes by. *)
From S2P Require Import Prelude GoStrings Models RuleID Validate Diff AuditDetail Settings.
From S2P Require Import Acceptance RulesStore Usage Kernel World Firewall Dispatch Interleaving.
From S2P Require Import Scenarios.

Local Open Scope Z_scope.

(** The requests that save. *)
Definition is_save (rq : request) : bool :=
  match rq with
  | RqSaveRules _ _ _ | RqImport _ _ _ | RqSaveOptions _ | RqSaveSettings _ | RqSaveSystem _
  | RqReload _ => true
  | _ => false
  end.

(** What is enforced, and what says so. *)
Definition enforced (w : World) :=
  (kernel w, d_unconfirmed (disk w), d_panic (disk w), d_applied (disk w), d_lastApply (disk w),
   d_usage (disk w), (m_acceptance (mem w), m_applying (mem w), m_lastApply (mem w))).

(** The actions of a save. *)
Definition saving (c : cmd) : bool :=
  match c with
  | CGetState | CSaveStaged _ _ _ | CImportRules _ _ | CAudit _ | CFirewallOptions
  | CNetworkSettings | CSystemSettings | CSaveCfg _ => true
  | _ => false
  end.

Fixpoint only (P : cmd → bool) {A} (p : prog A) : Prop :=
  match p with
  | Ret' _ => True
  | Act c k => P c = true ∧ ∀ b, only P (k b)
  end.

Lemma only_bind P {A B} (p : prog A) (k : A → prog B) :
  only P p → (∀ a, only P (k a)) → only P (p ≫= k).
Proof. induction p as [|c k' IH]; [by intros; apply H0|]. intros [? ?] ?. split; [done|]. auto. Qed.

Lemma handler_saving `{ET : !ErrorText} path rq : is_save rq = true → only saving (handler path rq).
Proof.
  destruct rq as [| | | | | | | | |draws t p|draws data ck|o|s|a|fr]; intros H; try done;
    cbn [handler].
  - unfold discard, CmdSaveRules. do 2 (split; [done|intros ?]).
    match goal with b : answer (CSaveStaged _ _ _) |- _ => destruct b end; [|done].
    by do 2 (split; [done|intros ?]).
  - unfold discard, CmdImportRules. destruct data as [r|]; [|done]. destruct ck; [|done].
    split; [done|intros b]. destruct b; [|done]. by split; [done|intros ?].
  - unfold discard, CmdSaveOptions, save_section. split; [done|intros b].
    destruct (options_guard o); [|done]. split; [done|intros ok]. destruct ok; [|done].
    by split; [done|intros ?].
  - unfold discard, CmdSaveSettings, save_section. split; [done|intros b].
    destruct (network_guards s) as [[]|]; [|done]. split; [done|intros ok]. destruct ok; [|done].
    by split; [done|intros ?].
  - unfold discard, CmdSaveSystem, save_section. split; [done|intros b].
    destruct (ValidAcceptanceDuration _); [|done]. split; [done|intros ok]. destruct ok; [|done].
    by split; [done|intros ?].
  - unfold on_SIGHUP. destruct fr; [|done]. by split; [done|intros ?].
Qed.

(** What a save may leave in the rules file. *)
Definition staged_only (s s' : RulesState) : Prop :=
  ∃ st, s' = set_Staged st s ∧ (st = Staged s ∨ ValidRules st).

Lemma staged_only_refl s : staged_only s s.
Proof. exists (Staged s). split; [by destruct s|auto]. Qed.

Lemma staged_only_trans s s' s'' : staged_only s s' → staged_only s' s'' → staged_only s s''.
Proof.
  intros (st & -> & H1) (st' & -> & H2). exists st'. split; [done|]. simpl in H2.
  destruct H2 as [->|]; auto.
Qed.

Lemma modify_staged_only io g s res f' :
  (∀ s', g s = Ok s' → staged_only s s') →
  modify io g (RFDoc s) = (res, f') → ∃ s', f' = RFDoc s' ∧ staged_only s s'.
Proof.
  intros Hg H. destruct res as [u|e].
  - apply modify_Ok in H as (s1 & s2 & [= <-] & Hs & ->). eauto.
  - apply modify_Err in H as ->. eauto using staged_only_refl.
Qed.

Lemma SaveStaged_staged io draws t p s res f' :
  SaveStaged io draws t p (RFDoc s) = (res, f') → ∃ s', f' = RFDoc s' ∧ staged_only s s'.
Proof.
  apply modify_staged_only. intros s'. destruct (put_list t p (Staged s)) as [r|]; [|done]. simpl.
  destruct (storable draws r) as [r'|] eqn:E; [|done]. intros [= <-].
  apply storable_Ok in E as (? & ? & ?). exists r'. auto.
Qed.

Lemma ImportRules_staged io draws data s res f' :
  ImportRules io draws data (RFDoc s) = (res, f') → ∃ s', f' = RFDoc s' ∧ staged_only s s'.
Proof.
  unfold ImportRules. destruct (let? r := decoded data in storable draws r) as [r'|] eqn:E.
  - apply rbind_Ok in E as (r & _ & E). apply storable_Ok in E as (? & ? & ?).
    apply modify_staged_only. intros s' [= <-]. exists r'. auto.
  - intros [= <- <-]. eauto using staged_only_refl.
Qed.

Lemma exec_saving io c w s :
  saving c = true → d_rules (disk w) = RFDoc s →
  enforced (snd (exec io c w)) = enforced w ∧
  ∃ s', d_rules (disk (snd (exec io c w))) = RFDoc s' ∧ staged_only s s'.
Proof.
  intros Hc Hs. destruct c; try discriminate Hc; cbn [exec snd];
    try (split; [done|]; exists s; by split; [|apply staged_only_refl]).
  - destruct (io_good io); (split; [done|]; exists s; by split; [|apply staged_only_refl]).
  - unfold on_rules. rewrite Hs. destruct (SaveStaged _ _ _ _ _) as [r f] eqn:E.
    split; [done|]. by apply SaveStaged_staged in E.
  - unfold on_rules. rewrite Hs. destruct (ImportRules _ _ _ _) as [r f] eqn:E.
    split; [done|]. by apply ImportRules_staged in E.
Qed.

Lemma run_saving {A} (p : prog A) ios w a w' s :
  only saving p → d_rules (disk w) = RFDoc s → run p ios w = Some (a, w') →
  enforced w' = enforced w ∧ ∃ s', d_rules (disk w') = RFDoc s' ∧ staged_only s s'.
Proof.
  revert ios w s. induction p as [a'|c k IH]; simpl; intros ios w s Ho Hs H.
  - injection H as -> ->. eauto using staged_only_refl.
  - destruct ios as [|io ios]; [done|]. destruct Ho as [Hc Ho].
    destruct (enabled c w); [|done].
    pose proof (exec_saving io c w s Hc Hs) as [He (s1 & Hs1 & H1)].
    destruct (exec io c w) as [b w1]. simpl in *.
    destruct (IH b ios w1 s1 (Ho b) Hs1 H) as [He' (s2 & Hs2 & H2)].
    split; [congruence|]. eauto using staged_only_trans.
Qed.

(** C37: saving is not enforcing.  A save of rules, options or settings, an import
    or a reload, run to its end with any outcome of any file operation, changes
    nothing of what is enforced or of what an apply, a rollback or a restore
    goes by: the kernel, the markers, the recorded configuration, the window
    and, in the rules file, everything but the staged set, which becomes at most
    another valid one. *)
Theorem saves_do_not_enforce `{ET : !ErrorText} path rq ios w w' s :
  is_save rq = true → d_rules (disk w) = RFDoc s →
  run (handler path rq) ios w = Some (tt, w') →
  enforced w' = enforced w ∧
  ∃ st, d_rules (disk w') = RFDoc (set_Staged st s) ∧ (st = Staged s ∨ ValidRules st).
Proof.
  intros Hq Hs H. apply (run_saving _ _ _ _ _ s) in H as (? & s' & ? & st & -> & ?);
    [by eauto|by apply handler_saving|done].
Qed.

(** A new port, saved while [ssh_only] is enforced. *)
Definition save_https : request :=
  RqSaveRules [draw_a] "tcp" (mkPayload (Some [port_rule "" "443"]) None None).

Lemma saves_do_not_enforce_witness :
  ∃ w', run (handler "panic" save_https) (replicate 4 io_fine) (configured true) = Some (tt, w') ∧
        kernel w' = kernel (configured true).
Proof.
  destruct (run (handler "panic" save_https) (replicate 4 io_fine) (configured true))
    as [[[] w']|] eqn:E; [|by vm_compute in E].
  exists w'. split; [done|].
  destruct (saves_do_not_enforce "panic" save_https (replicate 4 io_fine) (configured true) w'
    (mkRulesState ssh_only web_only ssh_only) eq_refl eq_refl E) as [He _].
  by injection He.
Defined.
