(* ===== verification/CrashSafety.v ===== *)
(** * What a crash leaves behind

    The promise of [unconfirmed.go]: at every instant, whatever the process was
    doing when it died and whichever file operations failed, the rules file
    holds a confirmed rule set where the next restore looks for one. *)
From S2P Require Import Prelude GoStrings Models RuleID Validate Diff Acceptance RulesStore.
From S2P Require Import Usage Kernel World Firewall Interleaving Scenarios.

Local Open Scope Z_scope.

(** History: the rule sets the operator settled on (confirmed in a window, or
    applied with the window switched off), and whether an apply ever made its
    backup of a set that is not one of them. *)
Record CrashHist := mkCrashHist { ch_confirmed : list Rules; ch_overwrote : bool }.

Definition stored (w : World) : option RulesState :=
  match d_rules (disk w) with RFDoc s => Some s | _ => None end.

Definition confirm (r : option Rules) (h : CrashHist) : CrashHist :=
  match r with
  | Some r => mkCrashHist (r :: ch_confirmed h) (ch_overwrote h)
  | None => h
  end.

Definition crash_act (io : IO) (c : cmd) (w : World) (h : CrashHist) : CrashHist :=
  match c with
  | CBackupCurrent =>
      match stored w with
      | Some s => mkCrashHist (ch_confirmed h)
                    (ch_overwrote h || negb (bool_decide (Current s ∈ ch_confirmed h)))
      | None => h
      end
  | CPromoteStaged =>
      match d_unconfirmed (disk w) with
      | NoMarker => confirm (Staged <$> stored w) h
      | Marker _ => h
      end
  | CAccWait => if accepted (m_acceptance (mem w)) then confirm (Current <$> stored w) h else h
  | _ => h
  end.

Definition CrashHistory : History := mkHistory CrashHist crash_act (λ _ _ h, h).

(** Where a restore looks: [Current], or [Backup] when the marker is there. *)
Definition restorable (w : World) : option Rules :=
  s ← stored w;
  Some (match d_unconfirmed (disk w) with NoMarker => Current s | Marker _ => Backup s end).

Definition settled (h : CrashHist) (r : Rules) : Prop :=
  ch_overwrote h = true ∨ r ∈ ch_confirmed h.

Definition crash_inv (w : World) (h : CrashHist) : Prop :=
  ∀ r, restorable w = Some r → settled h r.

(** The part of the disk the slot protects. *)
Definition forget_staged (f : RulesFile) : RulesFile :=
  match f with RFDoc s => RFDoc (set_Staged emptyRules s) | f => f end.

Definition same_core (w : World) (h : CrashHist) (w' : World) (h' : CrashHist) : Prop :=
  forget_staged (d_rules (disk w')) = forget_staged (d_rules (disk w)) ∧
  d_unconfirmed (disk w') = d_unconfirmed (disk w) ∧ h' = h.

#[global] Instance crash_protocol : Protocol CrashHistory := {
  needs_slot c := match c with
    | CBackupCurrent | CPromoteStaged | CRollback | CMarkUnconfirmed _ | CClearUnconfirmed
    | CAccWait | CEndApply => true
    | _ => false end;
  needs_panicMu c := match c with CUnlockPanicMu => true | _ => false end;
  Inv := crash_inv : World → hist CrashHistory → Prop;
  SlotFree _ _ := True;
  MuFree _ _ := True;
  SlotRely := same_core : World → hist CrashHistory → World → hist CrashHistory → Prop;
  MuRely _ _ _ _ := True }.

(** ** The laws *)

Lemma modify_staged io g f r f' :
  (∀ s s', g s = Ok s' → forget_staged (RFDoc s') = forget_staged (RFDoc s)) →
  modify io g f = (r, f') → forget_staged f' = forget_staged f.
Proof.
  intros Hg. destruct r as [u|e].
  - intros (s & s' & -> & Hs & ->)%modify_Ok. by apply Hg.
  - by intros ->%modify_Err.
Qed.

Lemma SaveStaged_core io draws t p f r f' :
  SaveStaged io draws t p f = (r, f') → forget_staged f' = forget_staged f.
Proof.
  apply modify_staged. intros s s' H.
  apply rbind_Ok in H as (r1 & _ & H). apply rbind_Ok in H as (r2 & _ & H). by simplify_eq.
Qed.

Lemma ImportRules_core io draws d f r f' :
  ImportRules io draws d f = (r, f') → forget_staged f' = forget_staged f.
Proof.
  unfold ImportRules. destruct (rbind _ _); [|naive_solver].
  apply modify_staged. naive_solver.
Qed.

Lemma core_act io c w h :
  needs_slot c = false → same_core w h (snd (exec io c w)) (crash_act io c w h).
Proof.
  intros Hc. destruct c; try done; simpl; unfold same_core, on_acc, on_kernel;
    try (repeat case_match; simplify_eq; done).
  - unfold on_rules. destruct (SaveStaged _ _ _ _ _) as [r f] eqn:E. simpl.
    by apply SaveStaged_core in E.
  - unfold on_rules. destruct (ImportRules _ _ _ _) as [r f] eqn:E. simpl.
    by apply ImportRules_core in E.
Qed.

Lemma core_stored w h w' h' s :
  same_core w h w' h' → stored w = Some s →
  ∃ s', stored w' = Some s' ∧ Current s' = Current s ∧ Backup s' = Backup s.
Proof.
  intros (E & _ & _). unfold stored. destruct (d_rules (disk w)); try done. intros [= ->].
  destruct (d_rules (disk w')); try done. simpl in E. unfold set_Staged in E.
  eexists. split; [done|]. split; congruence.
Qed.

Lemma same_core_sym w h w' h' : same_core w h w' h' → same_core w' h' w h.
Proof. unfold same_core. naive_solver. Qed.

Lemma core_restorable w h w' h' r :
  same_core w h w' h' → restorable w' = Some r → restorable w = Some r.
Proof.
  intros Hc. unfold restorable. destruct (stored w') as [s'|] eqn:E; [|done].
  apply same_core_sym in Hc.
  destruct (core_stored _ _ _ _ _ Hc E) as (s & -> & Ec & Eb). simpl.
  destruct Hc as (_ & -> & _). by rewrite Ec, Eb.
Qed.

Lemma core_inv w h w' h' : same_core w h w' h' → crash_inv w h → crash_inv w' h'.
Proof.
  intros Hc Hi r Hr. pose proof Hc as (_ & _ & ->). apply Hi.
  by eapply core_restorable.
Qed.

#[global] Instance crash_laws : ProtocolLaws CrashHistory.
Proof.
  split; try done.
  - intros w h w1 h1 w2 h2. simpl. unfold same_core. intros (? & ? & ?) (? & ? & ?).
    split_and!; congruence.
  - intros io c w h. apply core_act.
  - intros io c w h Hs _. apply core_inv, core_act, Hs.
Qed.

(** ** The handlers keep to the protocol *)

(** Facts about the file that the slot protects. *)
Definition curC (w : World) (h : CrashHist) : Prop :=
  ∀ s, stored w = Some s → settled h (Current s).
Definition bakC (w : World) (h : CrashHist) : Prop :=
  ∀ s, stored w = Some s → settled h (Backup s).

Lemma curC_core w h w' h' : same_core w h w' h' → curC w h → curC w' h'.
Proof.
  intros Hc H s Hs. pose proof Hc as (_ & _ & ->).
  destruct (core_stored _ _ _ _ _ (same_core_sym _ _ _ _ Hc) Hs) as (s' & Hs' & Ec & _).
  rewrite <- Ec. by apply H.
Qed.
Lemma bakC_core w h w' h' : same_core w h w' h' → bakC w h → bakC w' h'.
Proof.
  intros Hc H s Hs. pose proof Hc as (_ & _ & ->).
  destruct (core_stored _ _ _ _ _ (same_core_sym _ _ _ _ Hc) Hs) as (s' & Hs' & _ & Eb).
  rewrite <- Eb. by apply H.
Qed.

Lemma Rely_core o (w : World) (h : hist CrashHistory) w' h' :
  h_slot o = true → Rely o w h w' h' → same_core w h w' h'.
Proof. intros Ho [H _]. by apply H. Qed.

(** The invariant from the two facts. *)
Lemma inv_cur w h : curC w h → d_unconfirmed (disk w) = NoMarker → crash_inv w h.
Proof.
  intros H E r. unfold restorable. rewrite E. destruct (stored w) eqn:Es; [|done].
  simpl. intros [= <-]. by apply H.
Qed.
Lemma inv_bak w h : bakC w h → is_Some (restorable w) → d_unconfirmed (disk w) ≠ NoMarker → crash_inv w h.
Proof.
  intros H _ E r. unfold restorable. destruct (stored w) eqn:Es; [|done].
  simpl. destruct (d_unconfirmed (disk w)); [done|]. intros [= <-]. by apply H.
Qed.
Lemma inv_both w h : curC w h → bakC w h → crash_inv w h.
Proof.
  intros Hc Hb r. unfold restorable. destruct (stored w) eqn:Es; [|done].
  simpl. destruct (d_unconfirmed (disk w)); intros [= <-]; [by apply Hc|by apply Hb].
Qed.

(** What an operation on the rules file does. *)
Lemma on_rules_modify io g (w : World) r w' :
  on_rules (modify io g) w = (r, w') →
  match r with
  | Ok _ => ∃ s s', stored w = Some s ∧ g s = Ok s' ∧ stored w' = Some s'
  | Err _ => stored w' = stored w
  end ∧ d_unconfirmed (disk w') = d_unconfirmed (disk w).
Proof.
  unfold on_rules, stored. destruct (modify io g (d_rules (disk w))) as [r1 f] eqn:E.
  intros [= <- <-]. simpl. split; [|done]. destruct r1.
  - apply modify_Ok in E as (s & s' & -> & ? & ->). eauto.
  - by apply modify_Err in E as ->.
Qed.

Section rules_of_actions.
Context {A : Type} (o : Held) (Ho : h_slot o = true).
Context (Q : A → Held → World → CrashHist → Prop).
Implicit Types (w : World) (h : CrashHist).
Set Default Proof Using "All".

(** One action that needs the slot. *)
Lemma wp_slot_act c (k : answer c → prog A) w h :
  needs_slot c = true → needs_panicMu c = false → c ≠ CEndApply →
  (∀ io w1, same_core w h w1 h → crash_inv w1 h → enabled c w1 = true →
     crash_inv (snd (exec io c w1)) (crash_act io c w1 h) ∧
     wp o (k (fst (exec io c w1))) Q (snd (exec io c w1)) (crash_act io c w1 h)) →
  wp (H:=CrashHistory) o (Act c k) Q w h.
Proof.
  intros Hn Hm Hc Hk. split.
  { split_and!; try congruence; intros ->; done. }
  intros io w1 h1 Hr Hi He. apply (Rely_core o) in Hr; [|done].
  pose proof Hr as (_ & _ & ->). destruct (Hk io w1 Hr Hi He) as [Hi' Hw].
  destruct c; done.
Qed.

Lemma wp_backup (k : store unit → prog A) w h :
  (∀ r w' h', (∀ u, r = Ok u → curC w' h' ∧ bakC w' h') → wp o (k r) Q w' h') →
  wp (H:=CrashHistory) o (Act CBackupCurrent k) Q w h.
Proof.
  intros Hk. apply wp_slot_act; try done. intros io w1 Hr Hi _.
  cbn [exec]. destruct (on_rules _ w1) as [r w2] eqn:E. cbn [fst snd].
  apply on_rules_modify in E as [E1 E2].
  set (h' := crash_act io CBackupCurrent w1 h).
  assert (∀ r, settled h r → settled h' r) as Hmono.
  { subst h'. unfold settled. simpl. destruct (stored w1) as [st|]; simpl; [|done].
    intros r0 [->|?]; auto. }
  destruct r as [u|e].
  - destruct E1 as (s & s' & Es & Hg & Es'). simpl in Hg. simplify_eq.
    assert (settled h' (Current s)) as Hs.
    { subst h'. unfold settled. simpl. rewrite Es. simpl. case_bool_decide; [by auto|].
      left. apply orb_true_r. }
    assert (curC w2 h' ∧ bakC w2 h') as [Hc Hb].
    { split; intros s0 Hs0; rewrite Es' in Hs0; by simplify_eq. }
    split; [by apply inv_both|]. by apply Hk.
  - split; [|by apply Hk]. intros r0 Hr0. apply Hmono, Hi.
    unfold restorable in *. by rewrite <- E1, <- E2.
Qed.

Lemma wp_mark before (k : bool → prog A) w h :
  curC w h → bakC w h →
  (∀ b w' h', curC w' h' → bakC w' h' → wp o (k b) Q w' h') →
  wp (H:=CrashHistory) o (Act (CMarkUnconfirmed before) k) Q w h.
Proof.
  intros Hc Hb Hk. apply wp_slot_act; try done. intros io w1 Hr Hi _.
  apply (curC_core _ _ _ _ Hr) in Hc. apply (bakC_core _ _ _ _ Hr) in Hb.
  cbn [exec fst snd crash_act]. destruct (io_good io).
  - split; [by apply inv_both|]. by apply Hk.
  - split; [done|]. by apply Hk.
Qed.

Lemma wp_clear (k : unit → prog A) w h :
  curC w h →
  (∀ w' h', curC w' h' → (bakC w h → bakC w' h') → wp o (k tt) Q w' h') →
  wp (H:=CrashHistory) o (Act CClearUnconfirmed k) Q w h.
Proof.
  intros Hc Hk. apply wp_slot_act; try done. intros io w1 Hr Hi _.
  apply (curC_core _ _ _ _ Hr) in Hc. pose proof (bakC_core _ _ _ _ Hr) as Hb.
  cbn [exec fst snd crash_act]. destruct (io_good io).
  - split; [by apply inv_cur|]. by apply Hk.
  - split; [done|]. by apply Hk.
Qed.

Lemma wp_promote (k : store unit → prog A) w h :
  curC w h → bakC w h →
  (∀ r w' h', bakC w' h' → (∀ e, r = Err e → curC w' h') → wp o (k r) Q w' h') →
  wp (H:=CrashHistory) o (Act CPromoteStaged k) Q w h.
Proof.
  intros Hc Hb Hk. apply wp_slot_act; try done. intros io w1 Hr Hi _.
  apply (curC_core _ _ _ _ Hr) in Hc. apply (bakC_core _ _ _ _ Hr) in Hb.
  cbn [exec]. destruct (on_rules _ w1) as [r w2] eqn:E. cbn [fst snd].
  apply on_rules_modify in E as [E1 E2].
  set (h' := crash_act io CPromoteStaged w1 h).
  assert (∀ r, settled h r → settled h' r) as Hmono.
  { subst h'. unfold settled. simpl. destruct (d_unconfirmed (disk w1)), (stored w1) as [st|]; simpl; auto.
    intros r0 [->|?]; rewrite ?elem_of_cons; auto. }
  destruct r as [u|e].
  - destruct E1 as (s & s' & Es & Hg & Es'). simpl in Hg. simplify_eq.
    assert (bakC w2 h') as Hb'.
    { intros s0 Hs0. rewrite Es' in Hs0. simplify_eq. apply Hmono. simpl. by apply Hb. }
    split; [|by apply Hk]. intros r0. unfold restorable. rewrite Es', E2. simpl.
    destruct (d_unconfirmed (disk w1)) eqn:Em; intros [= <-].
    + subst h'. unfold settled. simpl. rewrite Em, Es. simpl. right. apply elem_of_cons. auto.
    + by apply Hmono, Hb.
  - split; [intros r0 Hr0; apply Hmono, Hi; unfold restorable in *; by rewrite <- E1, <- E2|].
    apply Hk; [|intros _ _]; intros s0 Hs0; apply Hmono; rewrite E1 in Hs0; auto.
Qed.

Lemma wp_revert (k : store unit → prog A) w h :
  bakC w h →
  (∀ r w' h', bakC w' h' → (∀ u, r = Ok u → curC w' h') → wp o (k r) Q w' h') →
  wp (H:=CrashHistory) o (Act CRollback k) Q w h.
Proof.
  intros Hb Hk. apply wp_slot_act; try done. intros io w1 Hr Hi _.
  apply (bakC_core _ _ _ _ Hr) in Hb.
  cbn [exec]. destruct (on_rules _ w1) as [r w2] eqn:E. cbn [fst snd crash_act].
  apply on_rules_modify in E as [E1 E2]. destruct r as [u|e].
  - destruct E1 as (s & s' & Es & Hg & Es'). simpl in Hg. simplify_eq.
    assert (curC w2 h ∧ bakC w2 h) as [Hc' Hb'].
    { split; intros s0 Hs0; rewrite Es' in Hs0; simplify_eq; simpl; by apply Hb. }
    split; [by apply inv_both|]. by apply Hk.
  - split; [intros r0 Hr0; apply Hi; unfold restorable in *; by rewrite <- E1, <- E2|].
    apply Hk; [|done]. intros s0 Hs0. rewrite E1 in Hs0. auto.
Qed.

Lemma wp_wait (k : bool → prog A) w h :
  bakC w h →
  (∀ b w' h', bakC w' h' → (b = true → curC w' h') → wp o (k b) Q w' h') →
  wp (H:=CrashHistory) o (Act CAccWait k) Q w h.
Proof.
  intros Hb Hk. apply wp_slot_act; try done. intros io w1 Hr Hi _.
  apply (bakC_core _ _ _ _ Hr) in Hb. cbn [exec]. unfold on_acc, Wait_finish. cbn [fst snd crash_act].
  set (acc := accepted _). set (w2 := set_acceptance _ w1).
  assert (stored w2 = stored w1 ∧ restorable w2 = restorable w1) as [Es Er] by done.
  destruct acc.
  - assert (∀ r, settled h r → settled (confirm (Current <$> stored w1) h) r) as Hmono.
    { unfold settled. destruct (stored w1) as [st|]; simpl; auto.
      intros r0 [->|?]; rewrite ?elem_of_cons; auto. }
    split; [intros r0 Hr0; by apply Hmono, Hi|]. apply Hk.
    + intros s0 Hs0. apply Hmono. rewrite Es in Hs0. auto.
    + intros _ s0 Hs0. rewrite Es in Hs0. rewrite Hs0. right. simpl. apply elem_of_cons. auto.
  - split; [done|]. by apply Hk.
Qed.
End rules_of_actions.

Section handlers.
Context `{ET : !ErrorText}.
Set Default Proof Using "Type".

Lemma plain_collect : plain_prog (H:=CrashHistory) collectUsageBeforeWrite.
Proof. unfold collectUsageBeforeWrite. plain_solve. Qed.
Lemma plain_engaged : plain_prog (H:=CrashHistory) PanicEngaged.
Proof. unfold PanicEngaged. plain_solve. Qed.
Lemma plain_audit a d u : plain_prog (H:=CrashHistory) (WriteAudit a d u).
Proof. unfold WriteAudit. plain_solve. Qed.
Lemma plain_feeds r : plain_prog (H:=CrashHistory) (feedContents r).
Proof. unfold feedContents. plain_solve. Qed.
Lemma plain_ever s : plain_prog (H:=CrashHistory) (everConfigured s).
Proof. unfold everConfigured. plain_solve. Qed.
Lemma plain_config b : plain_prog (H:=CrashHistory) (configToRestore b).
Proof. unfold configToRestore. plain_solve. Qed.
Lemma plain_lastApply : plain_prog (H:=CrashHistory) setLastApply.
Proof. unfold setLastApply. plain_solve. Qed.
Lemma plain_findings f u : plain_prog (H:=CrashHistory) (auditBuildFindings f u).
Proof. unfold auditBuildFindings. plain_solve. Qed.
#[local] Hint Resolve plain_collect plain_engaged plain_audit plain_feeds plain_ever plain_config
  plain_lastApply plain_findings : plain.
Lemma plain_landed e r s u : plain_prog (H:=CrashHistory) (panicLandedDuringWrite e r s u).
Proof. unfold panicLandedDuringWrite. plain_solve. Qed.
#[local] Hint Resolve plain_landed : plain.
Lemma plain_rollback_kernel p b u : plain_prog (H:=CrashHistory) (rollback_kernel p b u).
Proof. unfold rollback_kernel, rollback_first, rollback_previous. plain_solve. Qed.
Lemma plain_restore_write r s b v : plain_prog (H:=CrashHistory) (restore_write r s b v).
Proof. unfold restore_write, restore_config. plain_solve. Qed.
#[local] Hint Resolve plain_rollback_kernel plain_restore_write : plain.
Lemma plain_restore_stored r b v : plain_prog (H:=CrashHistory) (restore_stored r b v).
Proof. unfold restore_stored. plain_solve. Qed.
#[local] Hint Resolve plain_restore_stored : plain.

(** A program of plain actions, then the rest, with the facts of the slot
    carried over. *)
Ltac carry Ho Hr :=
  apply (Rely_core _ _ _ _ _ Ho) in Hr;
  repeat match goal with
  | H : curC _ _ |- _ => apply (curC_core _ _ _ _ Hr) in H
  | H : bakC _ _ |- _ => apply (bakC_core _ _ _ _ Hr) in H
  end; clear Hr.
Ltac plain_step Ho :=
  apply wp_plain_bind; [solve [plain_solve]|];
  let Hr := fresh "Hr" in intros ? ? ? Hr; carry Ho Hr.
Ltac plain_end := cbn [negb]; apply wp_plain_prog; [solve [plain_solve]|by intros].

Abbreviation holding o := (λ _ o' _ _, o' = o).

Section owner.
Context (path user : string) (o : Held) (Ho : h_slot o = true).
Set Default Proof Using "Ho".

Lemma wp_rollback prev before w h :
  bakC w h → wp (H:=CrashHistory) o (rollback path prev before user) (holding o) w h.
Proof.
  intros Hb. unfold rollback. apply wp_bind. unfold rollback_file.
  apply wp_call, wp_revert; [done..|]. intros r w1 h1 Hb1 Hc1. destruct r as [u|e].
  - apply wp_call, wp_clear; [done|by eauto|]. intros w2 h2 Hc2 _. apply wp_ret. plain_end.
  - apply wp_ret. plain_end.
Qed.

Lemma wp_apply_finish state opts nets on before w h :
  bakC w h →
  wp (H:=CrashHistory) o (apply_finish path user state opts nets on before) (holding o) w h.
Proof.
  intros Hb. unfold apply_finish, recordAppliedConfig. do 3 plain_step Ho.
  destruct on; cbn [negb]; [|plain_end].
  apply wp_call, wp_wait; [done..|]. intros [] w1 h1 Hb1 Hc1; cbn [negb].
  - apply wp_call, wp_clear; [done|by auto|]. intros w2 h2 Hc2 _. plain_end.
  - do 2 plain_step Ho. apply wp_bind. eapply wp_mono; [|by apply wp_rollback].
    intros ? ? ? ? ->. by apply wp_ret.
Qed.

Lemma wp_apply_write state updated opts nets on before w h :
  bakC w h →
  wp (H:=CrashHistory) o (apply_write path user state updated opts nets on before) (holding o) w h.
Proof.
  intros Hb. unfold apply_write. do 2 plain_step Ho. destruct a0 as [u|e].
  - unfold resetUsageBaselines. do 3 plain_step Ho. destruct a2; [|by apply wp_apply_finish].
    plain_step Ho. apply wp_bind. eapply wp_mono; [|by apply wp_rollback].
    intros ? ? ? ? ->. by apply wp_ret.
  - do 4 plain_step Ho. apply wp_bind. eapply wp_mono; [|by apply wp_rollback].
    intros ? ? ? ? ->. by apply wp_ret.
Qed.

Lemma wp_apply_window state updated opts nets on before w h :
  bakC w h →
  wp (H:=CrashHistory) o (apply_window path user state updated opts nets on before) (holding o) w h.
Proof.
  intros Hb. unfold apply_window. destruct on; [|by apply wp_apply_write].
  do 3 plain_step Ho. apply wp_bind. eapply wp_mono; [|by apply wp_apply_write].
  intros ? ? ? ? ->. plain_end.
Qed.

Lemma wp_apply_promote state opts nets on before w h :
  curC w h → bakC w h →
  wp (H:=CrashHistory) o (apply_promote path user state opts nets on before) (holding o) w h.
Proof.
  intros Hc Hb. unfold apply_promote.
  apply wp_call, wp_promote; [done..|]. intros [u|e] w1 h1 Hb1 Hc1.
  - plain_step Ho. destruct a; [by apply wp_apply_window|plain_end].
  - apply wp_call, wp_clear; [done|by eauto|]. intros w2 h2 Hc2 _. plain_end.
Qed.

Lemma wp_apply_mark state opts nets on before w h :
  curC w h → bakC w h →
  wp (H:=CrashHistory) o (apply_mark path user state opts nets on before) (holding o) w h.
Proof.
  intros Hc Hb. unfold apply_mark. destruct on.
  - apply wp_call, wp_mark; [done..|]. intros [] w1 h1 Hc1 Hb1; [by apply wp_apply_promote|plain_end].
  - by apply wp_bind, wp_ret, wp_apply_promote.
Qed.

Lemma wp_apply w h : wp (H:=CrashHistory) o (apply path user) (holding o) w h.
Proof.
  unfold apply. plain_step Ho. destruct a; [plain_end|]. do 2 plain_step Ho.
  destruct a0 as [state|e]; [|plain_end].
  apply wp_call, wp_backup; [done|]. intros [u|e] w1 h1 Hcb; [|plain_end].
  destruct (Hcb u eq_refl) as [Hc Hb]. unfold appliedConfig. do 5 plain_step Ho.
  by apply wp_apply_mark.
Qed.

Lemma wp_restore_held reason w h : wp (H:=CrashHistory) o (restore_held reason) (holding o) w h.
Proof.
  unfold restore_held. plain_step Ho. destruct a; [plain_end|].
  apply wp_bind. unfold revertUnconfirmed.
  apply wp_call. split; [done|]. intros io w1 h1 Hr Hi _. split; [done|].
  cbn [exec fst snd]. destruct (io_good io); [|apply wp_ret; plain_end].
  destruct (d_unconfirmed (disk w1)) as [|b] eqn:Em; [apply wp_ret; plain_end|].
  assert (bakC w1 h1) as Hb.
  { intros s Hs. apply Hi. unfold restorable. by rewrite Hs, Em. }
  plain_step Ho. apply wp_call, wp_revert; [done..|]. intros [u|e] w2 h2 Hb2 Hc2.
  - apply wp_call, wp_clear; [done|by eauto|]. intros w3 h3 _ _.
    apply wp_plain_bind; [solve [plain_solve]|]. intros. apply wp_plain_bind; [solve [plain_solve]|].
    intros. apply wp_ret; plain_end.
  - apply wp_ret; plain_end.
Qed.
End owner.
Set Default Proof Using "Type".


(** The slot is given back at the end; nothing is owed for it. *)
Lemma wp_end_slot {A} o (r : A) w h :
  h_slot o = true →
  wp (H:=CrashHistory) o (call CEndApply;; mret r) (λ _ o' _ _, o' = mkHeld false (h_mu o)) w h.
Proof.
  intros Ho. apply wp_call, wp_end; [done..|]. intros io w1 h1 Hr Hi.
  split; [done|]. split; [done|]. intros _. by apply wp_ret.
Qed.

Lemma wp_RestoreCurrent reason o w h :
  h_slot o = false →
  wp (H:=CrashHistory) o (RestoreCurrent reason) (λ _ o' _ _, o' = o) w h.
Proof.
  intros Ho. unfold RestoreCurrent.
  apply wp_plain_bind; [solve [plain_solve]|]. intros [] w1 h1 _; [by apply wp_ret|].
  apply wp_bind, wp_waitForApplySlot; [done|by intros; apply wp_ret|]. intros w2 h2 _ _.
  cbn [negb]. apply wp_bind. eapply wp_mono; [|by apply wp_restore_held].
  intros r ? w3 h3 ->. eapply wp_mono; [|by apply wp_end_slot].
  intros ? ? ? ? ->. destruct o; simpl in *. by subst.
Qed.

Lemma keeps_Apply path : keeps (H:=CrashHistory) (handler path RqApply).
Proof.
  intros w h. apply wp_bind. unfold CmdApplyRules.
  apply wp_plain_bind; [solve [plain_solve]|]. intros [] w1 h1 _; [by apply wp_ret|].
  unfold Apply. apply wp_call, wp_begin; [done|by intros; apply wp_ret|]. intros w2 h2 _ _.
  cbn [negb]. apply wp_bind. eapply wp_mono; [|by apply wp_apply].
  intros r ? w3 h3 ->. eapply wp_mono; [|by apply wp_end_slot]. by intros ? ? ? ? ->.
Qed.

Lemma wp_with_mu {A} (p : prog A) w h :
  (∀ w h, wp (H:=CrashHistory) (mkHeld false true) p (λ _ o' _ _, o' = mkHeld false true) w h) →
  wp (H:=CrashHistory) nothing (call CLockPanicMu;; r ← p; call CUnlockPanicMu;; mret r)
    (λ _ o' _ _, o' = nothing) w h.
Proof.
  intros Hp. apply wp_call, wp_lock; [done|]. intros w1 h1 _ _. apply wp_bind.
  eapply wp_mono; [|apply Hp]. intros r ? w2 h2 ->.
  apply wp_call, wp_unlock; [done..|]. intros io w3 h3 _ Hi. split; [done|]. split; [done|].
  by apply wp_ret.
Qed.

Lemma keeps_Resume path user : keeps (H:=CrashHistory) (handler path (RqResume user)).
Proof.
  intros w h. apply wp_bind. eapply wp_mono; [|apply wp_with_mu].
  { intros ? ? ? ? ->. by apply wp_ret. }
  clear w h. intros w h. unfold resume_held. do 2 (apply wp_plain_bind; [solve [plain_solve]|]; intros ? ? ? _).
  destruct a0; cbn [negb]; [|plain_end].
  do 3 (apply wp_plain_bind; [solve [plain_solve]|]; intros ? ? ? _).
  apply wp_bind. eapply wp_mono; [|by apply wp_RestoreCurrent]. intros r ? ? ? ->. plain_end.
Qed.

Lemma keeps_handler path rq : keeps (H:=CrashHistory) (handler path rq).
Proof.
  destruct rq; try (apply plain_keeps; cbn [handler]; unfold discard, FwAccept, FwRollback,
    ShutdownAcceptance, Status; solve [plain_solve]).
  - apply keeps_Apply.
  - intros w h. apply wp_bind. eapply wp_mono; [|by apply wp_RestoreCurrent].
    intros ? ? ? ? ->. by apply wp_ret.
  - intros w h. apply wp_bind. eapply wp_mono; [|apply wp_with_mu].
    { intros ? ? ? ? ->. by apply wp_ret. }
    clear w h. intros w h. unfold panic_held, CancelAcceptance. plain_end.
  - apply keeps_Resume.
Qed.
End handlers.

(** ** Properties *)


(** The process dies inside the window of an apply over a confirmed set. *)
Definition died_in_window : list event := EvSpawn RqApply :: steps 24 0 ++ [EvCrash false (cfg_window true)].


(** An apply does not look for an unconfirmed marker before it makes its
    backup.  An apply of [web_only] over the confirmed [ssh_only] times out and
    its revert of the rules file fails once; the next apply times out as well,
    with nothing failing.  Both were to be undone, and the machine ends
    enforcing [web_only], which nobody confirmed, with no marker, an audit log
    that ends in a rollback, and [ssh_only] in none of the three sets. *)
Theorem apply_after_failed_revert_enforces_unconfirmed :
  ∃ s, sys_run "panic" CrashHistory
         (EvSpawn RqApply :: steps 24 0 ++ EvTick 61000000000 :: steps 3 0 ++
            EvStep 0 io_rules_full :: steps 11 0 ++
          EvSpawn RqApply :: steps 24 1 ++ EvTick 61000000000 :: steps 15 1)
         (mkSys (H:=CrashHistory) (configured true) (mkCrashHist [ssh_only] false) []) = Some s ∧
       d_unconfirmed (disk (s_world s)) = NoMarker ∧
       ch_confirmed (s_hist s) = [ssh_only] ∧
       kernel (s_world s) = table_of web_only ∧
       stored (s_world s) = Some (mkRulesState web_only web_only web_only) ∧
       Action <$> head (d_audit (disk (s_world s))) = Some "apply_rolledback".
Proof. eexists. split; [vm_compute; reflexivity|]. by vm_compute. Qed.
