(* ===== verification/KernelTruth.v ===== *)
(** * Panic mode is obeyed, and the record matches the kernel

    Two promises about the kernel, over the same system: once no apply, restore,
    panic or resume is running, a panic marker on disk means the kernel filters
    nothing ([panicLandedDuringWrite]'s reason to exist); and what the kernel
    filters is the stored [Current] with the recorded configuration, which is
    what [Status] compares against. *)
From S2P Require Import Prelude GoStrings Models RuleID Validate Diff Acceptance RulesStore.
From S2P Require Import Usage Kernel World Firewall Interleaving Scenarios CrashSafety.

Local Open Scope Z_scope.

(** History: a kernel write whose marker check is still to come; a panic marker
    whose teardown is still to come; the last kernel write failed, or an apply
    was undone after the process died; and an operation that answers these
    questions failed (the marker's stat, the teardown, a read or a revert of the
    rules file, the record of the configuration). *)
Record TruthHist := mkTruthHist {
  th_unchecked : bool; th_panicking : bool; th_behind : bool; th_fault : bool }.

Definition set_fault (b : bool) (h : TruthHist) : TruthHist :=
  mkTruthHist (th_unchecked h) (th_panicking h) (th_behind h) (th_fault h || b).

Definition failed {E A} (r : result E A) : bool := match r with Ok _ => false | Err _ => true end.

Definition truth_act (io : IO) (c : cmd) (w : World) (h : TruthHist) : TruthHist :=
  match c with
  | CPanicState =>
      if negb (io_good io) then set_fault true h
      else if d_panic (disk w) then h
      else mkTruthHist false (th_panicking h) (th_behind h) (th_fault h)
  | CEngagePanic =>
      if io_good io then mkTruthHist (th_unchecked h) true (th_behind h) (th_fault h) else h
  | CReset =>
      if failed (fst (nft_reset (io_nft io) (kernel w))) || negb (nft_del (io_nft io))
      then set_fault true h
      else mkTruthHist false false false (th_fault h)
  | CApplyWithFeeds s o n f =>
      mkTruthHist true (th_panicking h)
        (failed (fst (ApplyWithFeeds (io_nft io) s o n f (kernel w)))) (th_fault h)
  | CGetState => set_fault (failed (GetState (io_store io) (d_rules (disk w)))) h
  | CRollback => set_fault (failed (fst (Rollback (io_store io) (d_rules (disk w))))) h
  | CWriteAppliedConfig _ => set_fault (negb (io_good io)) h
  | CAccRecordRolledBack _ =>
      mkTruthHist (th_unchecked h) (th_panicking h) true (th_fault h)
  | _ => h
  end.

(** A killed process leaves whatever it was doing half done; after a reboot the
    kernel starts with no table. *)
Definition truth_crash (reboot : bool) (w : World) (h : TruthHist) : TruthHist :=
  if reboot then mkTruthHist false false false (th_fault h)
  else mkTruthHist false false (th_behind h || m_applying (mem w))
         (th_fault h || th_unchecked h || th_panicking h).

Definition TruthHistory : History := mkHistory TruthHist truth_act truth_crash.

(** ** The facts *)

Definition okU (h : TruthHist) : Prop := th_fault h = true ∨ th_unchecked h = false.
Definition okP (h : TruthHist) : Prop := th_fault h = true ∨ th_panicking h = false.

(** Whatever the kernel filters satisfies [P], teardowns and failures aside. *)
Definition kern (P : Table → Prop) (w : World) (h : TruthHist) : Prop :=
  th_fault h = true ∨ th_behind h = true ∨ th_panicking h = true ∨
  ∀ t, kernel w = Filtering t → P t.

(** The stored rules and the recorded configuration describe a table. *)
Definition describes (w : World) (t : Table) : Prop :=
  ∃ s c, stored w = Some s ∧ d_applied (disk w) = AFDoc c ∧
    t_rules t = Current s ∧ t_opts t = Applied_Firewall c ∧
    t_nets t = normalised (Applied_Network c).

Definition truth_inv (w : World) (h : TruthHist) : Prop :=
  th_fault h = true ∨ (d_panic (disk w) = true → live (kernel w) = true →
    th_unchecked h = true ∨ th_panicking h = true).

Definition core_eq (w w' : World) : Prop :=
  forget_staged (d_rules (disk w')) = forget_staged (d_rules (disk w)) ∧
  d_applied (disk w') = d_applied (disk w).

Definition kern_rely (w : World) (h : TruthHist) (w' : World) (h' : TruthHist) : Prop :=
  th_fault h' = true ∨ live (kernel w') = false ∨
  (kernel w' = kernel w ∧ (th_behind h = true → th_behind h' = true) ∧
   (th_panicking h = true → th_panicking h' = true)).

Definition truth_rely (w : World) (h : TruthHist) (w' : World) (h' : TruthHist) : Prop :=
  core_eq w w' ∧ (th_fault h = true → th_fault h' = true) ∧ (okU h → okU h') ∧
  kern_rely w h w' h'.

#[global] Instance truth_protocol : Protocol TruthHistory := {
  needs_slot c := match c with
    | CBackupCurrent | CPromoteStaged | CRollback | CApplyWithFeeds _ _ _ _
    | CWriteAppliedConfig _ | CAccRecordRolledBack _ | CEndApply => true
    | _ => false end;
  needs_panicMu c := match c with CEngagePanic | CUnlockPanicMu => true | _ => false end;
  Inv := truth_inv : World → hist TruthHistory → Prop;
  SlotFree := (λ w h, okU h ∧ kern (describes w) w h) : World → hist TruthHistory → Prop;
  MuFree := (λ _ h, okP h) : World → hist TruthHistory → Prop;
  SlotRely := truth_rely : World → hist TruthHistory → World → hist TruthHistory → Prop;
  MuRely := (λ _ h _ h', okP h → okP h') : World → hist TruthHistory → World → hist TruthHistory → Prop }.

(** ** The laws *)

Lemma core_eq_refl w : core_eq w w.
Proof. done. Qed.

Lemma fault_mono io c w h : th_fault h = true → th_fault (truth_act io c w h) = true.
Proof. intros E. destruct c; simpl; rewrite ?E; repeat case_match; simpl; rewrite ?E; done. Qed.

Lemma unplugged io c w h :
  needs_slot c = false → truth_rely w h (snd (exec io c w)) (truth_act io c w h).
Proof.
  intros Hc. unfold truth_rely. split_and!.
  - destruct c; try done; simpl; unfold core_eq, on_acc, on_kernel;
      try (repeat case_match; simplify_eq; done).
    + unfold on_rules. destruct (SaveStaged _ _ _ _ _) as [r f] eqn:E. simpl.
      by apply SaveStaged_core in E.
    + unfold on_rules. destruct (ImportRules _ _ _ _) as [r f] eqn:E. simpl.
      by apply ImportRules_core in E.
  - apply fault_mono.
  - unfold okU. intros [E|E]; [left; by apply fault_mono|].
    destruct c; simpl in *; rewrite ?E; repeat case_match; simpl; rewrite ?E; auto.
  - destruct c; try (right; right; simpl; unfold on_rules, on_acc;
      repeat case_match; simplify_eq; simpl; by split_and!).
    simpl. unfold on_kernel. destruct (nft_reset _ _) as [r k] eqn:E. simpl.
    destruct (_ || _) eqn:F; [left; simpl; apply orb_true_r|].
    right; left. apply orb_false_iff in F as [F1 F2]. destruct r; [|done].
    eapply nft_reset_Ok; [done|]. by apply negb_false_iff.
Qed.

Lemma core_eq_stored w w' s :
  core_eq w w' → stored w = Some s →
  ∃ s', stored w' = Some s' ∧ Current s' = Current s ∧ Backup s' = Backup s.
Proof.
  intros [E _] Hs. eapply (core_stored (mkWorld (disk w) (mem w) (kernel w)) (mkCrashHist [] false)
    (set_unconfirmed (d_unconfirmed (disk w)) w') (mkCrashHist [] false)); [|done]. by split_and!.
Qed.

Lemma describes_core w w' t : core_eq w w' → describes w t → describes w' t.
Proof.
  intros Hc (s & c & Hs & Ha & H1 & H2 & H3).
  destruct (core_eq_stored _ _ _ Hc Hs) as (s' & Hs' & Ec & _). destruct Hc as [_ Ea].
  exists s', c. split_and!; congruence.
Qed.

Lemma kern_stable P w h w' h' :
  (th_fault h = true → th_fault h' = true) → kern_rely w h w' h' → kern P w h → kern P w' h'.
Proof.
  unfold kern. intros Hf [Hr|[Hr|(Hk & Hb & Hp)]] H; [by auto| |].
  - right; right; right. intros t E. by rewrite E in Hr.
  - rewrite Hk. destruct H as [?|[?|[?|?]]]; auto.
Qed.

Lemma kern_mono P P' w h : (∀ t, P t → P' t) → kern P w h → kern P' w h.
Proof. unfold kern. intros HP [?|[?|[?|H]]]; auto. right; right; right. eauto. Qed.

Lemma rely_trans w h w1 h1 w2 h2 :
  truth_rely w h w1 h1 → truth_rely w1 h1 w2 h2 → truth_rely w h w2 h2.
Proof.
  intros ([Ha Hb] & Hf & Hu & Hk) ([Ha' Hb'] & Hf' & Hu' & Hk').
  split_and!; [split; congruence|by auto|by auto|].
  destruct Hk' as [?|[?|(E & Hbe & Hp)]]; [by left|by right; left|].
  destruct Hk as [?|[?|(E1 & Hbe1 & Hp1)]]; [by left; auto|right; left; congruence|].
  right; right. split_and!; [congruence|by auto..].
Qed.

Lemma okP_act io c w h : needs_panicMu c = false → okP h → okP (truth_act io c w h).
Proof.
  unfold okP. intros Hc [E|E]; [left; by apply fault_mono|].
  destruct c; simpl in *; try done; rewrite ?E; repeat case_match; simpl; rewrite ?E; auto.
Qed.

(** The invariant survives every action: a marker is written and a table is
    written under their flags, and the flags go with a marker seen absent or a
    table taken down. *)
Lemma truth_inv_act io c w h : truth_inv w h → truth_inv (snd (exec io c w)) (truth_act io c w h).
Proof.
  intros [E|Hi]; [left; by apply fault_mono|].
  destruct c; try by right.
  all: try (right; simpl; unfold on_rules, on_acc in *; repeat case_match; simplify_eq; simpl; by auto).
  simpl. unfold on_kernel. destruct (nft_reset _ _) as [r k] eqn:E. simpl.
  destruct (_ || _) eqn:F; [left; simpl; apply orb_true_r|].
  apply orb_false_iff in F as [F1 F2]. destruct r; [|done].
  right. simpl. intros _. erewrite nft_reset_Ok; [done|done|]. by apply negb_false_iff.
Qed.

#[global] Instance truth_laws : ProtocolLaws TruthHistory.
Proof.
  split; try done.
  - intros w h. split_and!; try done. right; right. by split_and!.
  - apply rely_trans.
  - by intros w h ?.
  - intros ? ? ? ? ? ? H1 H2 ?. by apply H2, H1.
  - apply unplugged.
  - intros io c w h Hc Hp. by apply okP_act.
  - intros w h w' h' [Hu Hk] (Hc & Hf & Hu' & Hr). split; [by auto|].
    eapply kern_mono; [by intros t; apply describes_core|]. by eapply kern_stable.
  - intros w h w' h' H1 H2. by apply H2.
  - intros dt w h. split_and!; try done. right; right. by split_and!.
  - by intros dt w h ?.
  - intros io c w h _ _. apply truth_inv_act.
  - intros reboot c w h Hi Hs Hm. unfold restart, h_crash. simpl. destruct reboot; simpl.
    + split_and!; try by right. by right; right; right.
    + split_and!; [|by right| |by right].
      * destruct Hi as [E|Hi]; [left; simpl; by rewrite E|].
        destruct (th_unchecked h) eqn:Eu; [left; simpl; by rewrite ?orb_true_r|].
        destruct (th_panicking h) eqn:Ep; [left; simpl; by rewrite ?orb_true_r|].
        right. simpl. intros H1 H2. by destruct (Hi H1 H2).
      * destruct (m_applying (mem w)) eqn:Ea; [right; left; simpl; by rewrite ?orb_true_r|].
        destruct (Hs eq_refl) as [_ Hk]. unfold kern in *. simpl.
        destruct Hk as [->|[->|[->|Hk]]]; simpl; rewrite ?orb_true_r; auto.
Qed.

(** ** Rules of the actions *)

Definition curF (r : Rules) (w : World) (h : TruthHist) : Prop :=
  th_fault h = true ∨ ∃ s, stored w = Some s ∧ Current s = r.
Definition bakF (r : Rules) (w : World) (h : TruthHist) : Prop :=
  th_fault h = true ∨ ∃ s, stored w = Some s ∧ Backup s = r.
Definition appF (c : AppliedConfig) (w : World) (h : TruthHist) : Prop :=
  th_fault h = true ∨ d_applied (disk w) = AFDoc c.
Definition truthful (w : World) (h : TruthHist) : Prop := kern (describes w) w h.
(** Nothing is claimed of the table: it is down, or a failure is on record. *)
Definition anyK (w : World) (h : TruthHist) : Prop := kern (λ _, False) w h.

Lemma anyK_kern P w h : anyK w h → kern P w h.
Proof. by apply kern_mono. Qed.

Lemma curF_core r w h w' h' :
  core_eq w w' → (th_fault h = true → th_fault h' = true) → curF r w h → curF r w' h'.
Proof.
  intros Hc Hf [?|(s & Hs & <-)]; [left; auto|].
  destruct (core_eq_stored _ _ _ Hc Hs) as (s' & ? & ? & _). right. eauto.
Qed.
Lemma bakF_core r w h w' h' :
  core_eq w w' → (th_fault h = true → th_fault h' = true) → bakF r w h → bakF r w' h'.
Proof.
  intros Hc Hf [?|(s & Hs & <-)]; [left; auto|].
  destruct (core_eq_stored _ _ _ Hc Hs) as (s' & ? & _ & ?). right. eauto.
Qed.
Lemma curF_stable r w h w' h' : truth_rely w h w' h' → curF r w h → curF r w' h'.
Proof. intros (Hc & Hf & _). by apply curF_core. Qed.
Lemma bakF_stable r w h w' h' : truth_rely w h w' h' → bakF r w h → bakF r w' h'.
Proof. intros (Hc & Hf & _). by apply bakF_core. Qed.
Lemma appF_stable c w h w' h' : truth_rely w h w' h' → appF c w h → appF c w' h'.
Proof. intros ([_ Hc] & Hf & _) [?|?]; [left; auto|right; congruence]. Qed.
Lemma kernF_stable P w h w' h' : truth_rely w h w' h' → kern P w h → kern P w' h'.
Proof. intros (_ & Hf & _ & Hk). by apply kern_stable. Qed.
Lemma truthful_stable w h w' h' : truth_rely w h w' h' → truthful w h → truthful w' h'.
Proof.
  intros Hr H. unfold truthful. pose proof Hr as (Hc & _).
  eapply kern_mono; [by intros t; apply describes_core|]. by eapply kernF_stable.
Qed.
Lemma okU_stable w h w' h' : truth_rely w h w' h' → okU h → okU h'.
Proof. by intros (_ & _ & H & _). Qed.

(** The record of a table that was written. *)
Lemma truthful_intro r c w h :
  curF r w h → appF c w h →
  kern (λ t, t_rules t = r ∧ t_opts t = Applied_Firewall c ∧ t_nets t = normalised (Applied_Network c))
    w h → truthful w h.
Proof.
  intros [?|(s & Hs & <-)]; [by left|]. intros [?|Ha]; [by left|].
  apply kern_mono. intros t (H1 & H2 & H3). exists s, c. by split_and!.
Qed.

Lemma Rely_truth o (w : World) (h : hist TruthHistory) w' h' :
  h_slot o = true → Rely o w h w' h' → truth_rely w h w' h'.
Proof. intros Ho [H _]. by apply H. Qed.

(** What an action on the rules file keeps. *)
Definition but_rules (w : World) (h : TruthHist) (w' : World) (h' : TruthHist) : Prop :=
  (∀ P, kern P w h → kern P w' h') ∧ (okU h → okU h') ∧ (th_fault h = true → th_fault h' = true).

Lemma on_rules_kern io g w r w' h :
  on_rules (modify io g) w = (r, w') → (∀ P, kern P w h → kern P w' h).
Proof. unfold on_rules. destruct (modify _ _ _). intros [= <- <-]. done. Qed.

Section rules_of_actions.
Context {A : Type} (o : Held) (Ho : h_slot o = true).
Context (Q : A → Held → World → TruthHist → Prop).
Implicit Types (w : World) (h : TruthHist).
Set Default Proof Using "All".

Lemma wp_slot c (k : answer c → prog A) w h :
  needs_slot c = true → needs_panicMu c = false → c ≠ CEndApply →
  (∀ io w1 h1, truth_rely w h w1 h1 → truth_inv w1 h1 →
     wp o (k (fst (exec io c w1))) Q (snd (exec io c w1)) (truth_act io c w1 h1)) →
  wp (H:=TruthHistory) o (Act c k) Q w h.
Proof.
  intros Hn Hm Hc Hk. split.
  { split_and!; try congruence; intros ->; done. }
  intros io w1 h1 Hr Hi He. apply (Rely_truth o) in Hr; [|done].
  pose proof (truth_inv_act io c w1 h1 Hi). pose proof (Hk io w1 h1 Hr Hi).
  destruct c; done.
Qed.

Lemma wp_get (k : store RulesState → prog A) w h :
  (∀ s w' h', truth_rely w h w' h' → curF (Current s) w' h' → wp o (k (Ok s)) Q w' h') →
  (∀ e w' h', th_fault h' = true → wp o (k (Err e)) Q w' h') →
  wp (H:=TruthHistory) o (Act CGetState k) Q w h.
Proof.
  intros Hok Herr. split; [done|]. intros io w1 h1 Hr Hi _. split; [by apply truth_inv_act|].
  apply (Rely_truth o) in Hr; [|done]. cbn [exec fst snd].
  assert (truth_rely w h w1 (truth_act io CGetState w1 h1)) as Hr'.
  { eapply rely_trans; [done|]. by apply (unplugged io CGetState). }
  revert Hr'. cbn [h_act TruthHistory truth_act].
  destruct (GetState (io_store io) (d_rules (disk w1))) as [s|e] eqn:E; intros Hr'.
  - apply Hok; [done|]. right. unfold GetState, getState in E. unfold stored.
    destruct (read_ok _); [|done]. destruct (d_rules (disk w1)); try done. simplify_eq. eauto.
  - apply Herr. apply orb_true_r.
Qed.

Lemma wp_backup' r (k : store unit → prog A) w h :
  curF r w h → truthful w h →
  (∀ res w' h', but_rules w h w' h' → curF r w' h' → truthful w' h' →
     (∀ u, res = Ok u → bakF r w' h') → wp o (k res) Q w' h') →
  wp (H:=TruthHistory) o (Act CBackupCurrent k) Q w h.
Proof.
  intros Hc Ht Hk. apply wp_slot; try done. intros io w1 h1 Hr Hi.
  apply (curF_stable _ _ _ _ _ Hr) in Hc. apply (truthful_stable _ _ _ _ Hr) in Ht.
  cbn [exec truth_act]. destruct (on_rules _ w1) as [res w2] eqn:E. cbn [fst snd].
  pose proof (on_rules_modify _ _ _ _ _ E) as [E1 _].
  assert (d_applied (disk w2) = d_applied (disk w1)) as Ea.
  { unfold on_rules in E. destruct (BackupCurrent _ _). by simplify_eq. }
  assert (∀ s, stored w1 = Some s → ∃ s', stored w2 = Some s' ∧ Current s' = Current s) as Es.
  { intros s Hs. destruct res; [|rewrite E1; eauto].
    destruct E1 as (s1 & s2 & H1 & H2 & H3). simpl in H2. simplify_eq. eauto. }
  apply Hk.
  - destruct Hr as (_ & Hf & Hu & Hkr). split_and!; auto. intros P HP.
    by eapply on_rules_kern, kern_stable.
  - destruct Hc as [?|(s & Hs & <-)]; [by left|]. destruct (Es s Hs) as (s' & ? & ?). right. eauto.
  - unfold truthful. eapply (on_rules_kern _ _ _ _ _ _ E), kern_mono; [|done].
    intros t (s & c & Hs & Ha & H1 & H2). destruct (Es s Hs) as (s' & ? & ?).
    exists s', c. split_and!; naive_solver congruence.
  - intros u ->. destruct E1 as (s1 & s2 & H1 & H2 & H3). simpl in H2. simplify_eq.
    destruct Hc as [?|(s & Hs & <-)]; [by left|]. simplify_eq. right. eauto.
Qed.

Lemma wp_promote' r (k : store unit → prog A) w h :
  bakF r w h → truthful w h →
  (∀ u w' h', but_rules w h w' h' → bakF r w' h' → wp o (k (Ok u)) Q w' h') →
  (∀ e w' h', truth_rely w h w' h' → wp o (k (Err e)) Q w' h') →
  wp (H:=TruthHistory) o (Act CPromoteStaged k) Q w h.
Proof.
  intros Hb Ht Hok Herr. apply wp_slot; try done. intros io w1 h1 Hr Hi.
  apply (bakF_stable _ _ _ _ _ Hr) in Hb.
  cbn [exec truth_act]. destruct (on_rules _ w1) as [res w2] eqn:E. cbn [fst snd].
  pose proof (on_rules_modify _ _ _ _ _ E) as [E1 _]. destruct res as [u|e].
  - apply Hok.
    + destruct Hr as (_ & Hf & Hu & Hkr). split_and!; auto. intros P HP.
      by eapply on_rules_kern, kern_stable.
    + destruct E1 as (s1 & s2 & H1 & H2 & H3). simpl in H2. simplify_eq.
      destruct Hb as [?|(s & Hs & <-)]; [by left|]. simplify_eq. right. eauto.
  - apply Herr. eapply rely_trans; [done|].
    unfold on_rules in E. destruct (PromoteStaged _ _) as [r1 f] eqn:Ep. simplify_eq.
    apply modify_Err in Ep as ->. split_and!; try done. right; right. by split_and!.
Qed.

Lemma wp_revert' r (k : store unit → prog A) w h :
  bakF r w h →
  (∀ u w' h', but_rules w h w' h' → curF r w' h' → wp o (k (Ok u)) Q w' h') →
  (∀ e w' h', th_fault h' = true → wp o (k (Err e)) Q w' h') →
  wp (H:=TruthHistory) o (Act CRollback k) Q w h.
Proof.
  intros Hb Hok Herr. apply wp_slot; try done. intros io w1 h1 Hr Hi.
  apply (bakF_stable _ _ _ _ _ Hr) in Hb.
  cbn [exec truth_act]. destruct (on_rules _ w1) as [res w2] eqn:E. cbn [fst snd].
  pose proof (on_rules_modify _ _ _ _ _ E) as [E1 _].
  assert (fst (Rollback (io_store io) (d_rules (disk w1))) = res) as Eres.
  { unfold on_rules in E. destruct (Rollback _ _). by simplify_eq. }
  rewrite Eres. destruct res as [u|e]; [|apply Herr; apply orb_true_r].
  destruct Hr as (_ & Hf & Hu & Hkr). unfold set_fault. simpl. rewrite orb_false_r.
  apply Hok.
  - split_and!; auto. intros P HP. by eapply (on_rules_kern _ _ _ _ _ h1), kern_stable.
  - destruct E1 as (s1 & s2 & H1 & H2 & H3). simpl in H2. simplify_eq.
    destruct Hb as [?|(s & Hs & <-)]; [by left|]. simplify_eq. right. eauto.
Qed.

(** Two facts about the files that an action elsewhere keeps. *)
Lemma wp_write rs opts nets feeds (k : result NftError unit → prog A) w h :
  (∀ u w' h', core_eq w w' → (th_fault h = true → th_fault h' = true) →
     kern (λ t, t_rules t = Current rs ∧ t_opts t = opts ∧ t_nets t = normalised nets) w' h' →
     wp o (k (Ok u)) Q w' h') →
  (∀ e w' h', core_eq w w' → (th_fault h = true → th_fault h' = true) → anyK w' h' →
     wp o (k (Err e)) Q w' h') →
  wp (H:=TruthHistory) o (Act (CApplyWithFeeds rs opts nets feeds) k) Q w h.
Proof.
  intros Hok Herr. apply wp_slot; try done. intros io w1 h1 (Hc & Hf & _) Hi.
  cbn [exec truth_act]. unfold on_kernel.
  destruct (ApplyWithFeeds _ _ _ _ _ _) as [res k1] eqn:E. cbn [fst snd].
  assert (core_eq w (set_kernel k1 w1)) as Hc' by apply Hc.
  destruct res as [u|e].
  - apply Hok; [done|done|]. right; right; right. simpl. intros t ->.
    apply ApplyWithFeeds_Ok in E as [_ E]. by simplify_eq.
  - apply Herr; [done|done|]. right; left. done.
Qed.

Lemma wp_check (k : bool * bool → prog A) w h :
  (∀ e known w' h', truth_rely w h w' h' → (e = false ∨ known = false → okU h') →
     (e = true → okU h → anyK w' h') →
     wp o (k (e, known)) Q w' h') →
  wp (H:=TruthHistory) o (Act CPanicState k) Q w h.
Proof.
  intros Hk. split; [done|]. intros io w1 h1 Hr Hi _. split; [by apply truth_inv_act|].
  apply (Rely_truth o) in Hr; [|done].
  assert (truth_rely w h w1 (truth_act io CPanicState w1 h1)) as Hr'.
  { eapply rely_trans; [done|]. by apply (unplugged io CPanicState). }
  revert Hr'. cbn [exec fst snd h_act TruthHistory truth_act]. unfold PanicState.
  destruct (io_good io); cbn [negb]; intros Hr'.
  - apply Hk; [done| |].
    + intros [E|?]; [|done]. rewrite E. by right.
    + intros E Hu. rewrite E. destruct Hr as (_ & _ & Hu' & _).
      destruct Hi as [?|Hi]; [by left|]. destruct (Hu' Hu) as [?|Hn]; [by left|].
      destruct (live (kernel w1)) eqn:El.
      * destruct (Hi E eq_refl) as [?|?]; [congruence|]. by right; right; left.
      * right; right; right. intros t Et. by rewrite Et in El.
  - apply Hk; [done| |]; intros; left; apply orb_true_r.
Qed.

Lemma wp_down (k : result NftError unit → prog A) w h :
  (∀ r w' h', truth_rely w h w' h' → okU h' → okP h' → anyK w' h' → wp o (k r) Q w' h') →
  wp (H:=TruthHistory) o (Act CReset k) Q w h.
Proof.
  intros Hk. split; [done|]. intros io w1 h1 Hr Hi _. split; [by apply truth_inv_act|].
  apply (Rely_truth o) in Hr; [|done].
  assert (truth_rely w h (snd (exec io CReset w1)) (truth_act io CReset w1 h1)) as Hr'.
  { eapply rely_trans; [done|]. by apply (unplugged io CReset). }
  apply Hk; [done|..]; clear Hr'; cbn [exec fst snd h_act TruthHistory truth_act]; unfold on_kernel;
    destruct (nft_reset _ _) as [r k1] eqn:E; cbn [fst snd];
    destruct (_ || _) eqn:F; try (left; simpl; apply orb_true_r); try by right.
  apply orb_false_iff in F as [F1 F2]. destruct r; [|done]. right; right; right. simpl.
  intros t ->. eapply (nft_reset_Ok) in E; [done|]. by apply negb_false_iff.
Qed.

Lemma wp_record c (k : unit → prog A) w h :
  (∀ w' h', (∀ r, curF r w h → curF r w' h') → (∀ r, bakF r w h → bakF r w' h') →
     (okU h → okU h') → (∀ P, kern P w h → kern P w' h') → appF c w' h' → wp o (k tt) Q w' h') →
  wp (H:=TruthHistory) o (Act (CWriteAppliedConfig c) k) Q w h.
Proof.
  intros Hk. apply wp_slot; try done. intros io w1 h1 Hr Hi.
  cbn [exec fst snd truth_act].
  assert (∀ r, curF r w h → curF r w1 h1) as H1 by (intros r; by apply curF_stable).
  assert (∀ r, bakF r w h → bakF r w1 h1) as H1' by (intros r; by apply bakF_stable).
  assert (okU h → okU h1) as H2 by (by apply Hr).
  assert (∀ P, kern P w h → kern P w1 h1) as H3 by (intros P; by apply kernF_stable).
  destruct (io_good io).
  - unfold set_fault. simpl. rewrite orb_false_r. apply Hk; auto. by right.
  - assert (th_fault (set_fault (negb false) h1) = true) as F by apply orb_true_r.
    apply Hk; intros; by left.
Qed.

Lemma wp_undone r (k : unit → prog A) w h :
  (∀ w' h', (∀ r, curF r w h → curF r w' h') → (okU h → okU h') → anyK w' h' → wp o (k tt) Q w' h') →
  wp (H:=TruthHistory) o (Act (CAccRecordRolledBack r) k) Q w h.
Proof.
  intros Hk. apply wp_slot; try done. intros io w1 h1 Hr Hi. cbn [exec fst snd truth_act].
  apply Hk.
  - intros r0 Hc. by apply (curF_stable _ _ _ _ _ Hr) in Hc.
  - intros Hu. by apply (okU_stable _ _ _ _ Hr) in Hu.
  - by right; left.
Qed.
End rules_of_actions.

(** ** The programs *)

Section handlers.
Context `{ET : !ErrorText}.
Set Default Proof Using "Type".

Lemma tplain_collect : plain_prog (H:=TruthHistory) collectUsageBeforeWrite.
Proof. unfold collectUsageBeforeWrite. plain_solve. Qed.
Lemma tplain_engaged : plain_prog (H:=TruthHistory) PanicEngaged.
Proof. unfold PanicEngaged. plain_solve. Qed.
Lemma tplain_audit a d u : plain_prog (H:=TruthHistory) (WriteAudit a d u).
Proof. unfold WriteAudit. plain_solve. Qed.
Lemma tplain_feeds r : plain_prog (H:=TruthHistory) (feedContents r).
Proof. unfold feedContents. plain_solve. Qed.
Lemma tplain_ever s : plain_prog (H:=TruthHistory) (everConfigured s).
Proof. unfold everConfigured. plain_solve. Qed.
Lemma tplain_config b : plain_prog (H:=TruthHistory) (configToRestore b).
Proof. unfold configToRestore. plain_solve. Qed.
Lemma tplain_lastApply : plain_prog (H:=TruthHistory) setLastApply.
Proof. unfold setLastApply. plain_solve. Qed.
Lemma tplain_findings f u : plain_prog (H:=TruthHistory) (auditBuildFindings f u).
Proof. unfold auditBuildFindings, WriteAudit. plain_solve. Qed.
#[local] Hint Resolve tplain_collect tplain_engaged tplain_audit tplain_feeds tplain_ever
  tplain_config tplain_lastApply tplain_findings : plain.
Lemma tplain_restore_config b r : plain_prog (H:=TruthHistory) (restore_config b r).
Proof. unfold restore_config. plain_solve. Qed.
#[local] Hint Resolve tplain_restore_config : plain.

(** Carry every fact over what the others did. *)
Ltac carry Ho Hr :=
  apply (Rely_truth _ _ _ _ _ Ho) in Hr;
  repeat match goal with
  | H : curF _ _ _ |- _ => apply (curF_stable _ _ _ _ _ Hr) in H
  | H : bakF _ _ _ |- _ => apply (bakF_stable _ _ _ _ _ Hr) in H
  | H : appF _ _ _ |- _ => apply (appF_stable _ _ _ _ _ Hr) in H
  | H : kern _ _ _ |- _ => apply (kernF_stable _ _ _ _ _ Hr) in H
  | H : anyK _ _ |- _ => apply (kernF_stable _ _ _ _ _ Hr) in H
  | H : truthful _ _ |- _ => apply (truthful_stable _ _ _ _ Hr) in H
  | H : okU _ |- _ => apply (okU_stable _ _ _ _ Hr) in H
  end; clear Hr.
Ltac plain_step Ho :=
  apply wp_plain_bind; [solve [plain_solve]|];
  let Hr := fresh "Hr" in intros ? ? ? Hr; carry Ho Hr.
Ltac plain_end Ho :=
  cbn [negb]; apply wp_plain_prog; [solve [plain_solve]|];
  let Hr := fresh "Hr" in intros ? ? ? Hr; carry Ho Hr.

(** How a holder of the slot ends: ready to give it back. *)
Abbreviation ready o := (λ _ o' w' h', o' = o ∧ okU h' ∧ truthful w' h').

Section owner.
Context (path user : string) (o : Held) (Ho : h_slot o = true).
Set Default Proof Using "Ho".

Lemma wp_landed e req sit u Q w h :
  (e = false → okU h) →
  (∀ w' h', truth_rely w h w' h' → okU h' → (e = true → anyK w' h') → Q e o w' h') →
  wp (H:=TruthHistory) o (panicLandedDuringWrite e req sit u) Q w h.
Proof.
  intros Hu HQ. unfold panicLandedDuringWrite. destruct e; cbn [negb]; last first.
  { apply wp_ret, HQ; auto; [|done]. split_and!; try done. right; right. by split_and!. }
  apply wp_plain_bind; [solve [plain_solve]|]. intros _ w1 h1 Hr1.
  apply wp_call, wp_down; [done|]. intros r w2 h2 Hr2 Hu2 _ Hk2.
  apply wp_plain_bind; [destruct r; solve [plain_solve]|]. intros _ w3 h3 Hr3. apply wp_ret.
  apply (Rely_truth o) in Hr1; [|done]. apply (Rely_truth o) in Hr3; [|done].
  apply HQ.
  - eapply rely_trans; [done|]. by eapply rely_trans.
  - by eapply okU_stable.
  - intros _. by eapply kernF_stable.
Qed.

(** The table a write was asked for. *)
Definition asked (r : Rules) (opts : FirewallOptions) (nets : NetworkSettings) (t : Table) : Prop :=
  t_rules t = r ∧ t_opts t = opts ∧ t_nets t = normalised nets.

Lemma wp_rollback_write prev before (b : bool) Q w h :
  curF (Current prev) w h → okU h →
  (∀ r opts nets w' h', curF (Current prev) w' h' →
     kern (asked (Current prev) opts nets) w' h' → (failed r = true → anyK w' h') →
     Q (r, opts, nets) o w' h') →
  wp (H:=TruthHistory) o
    (if negb b then rollback_first user else rollback_previous prev before) Q w h.
Proof.
  intros Hc Hu HQ. destruct b; cbn [negb].
  - unfold rollback_previous. do 2 plain_step Ho.
    apply wp_call, wp_write; [done|..].
    + intros u w1 h1 Hco Hf Hk. apply wp_ret, HQ; [by eapply curF_core|done|done].
    + intros e w1 h1 Hco Hf Hk. apply wp_ret, HQ; [by eapply curF_core|by apply anyK_kern|done].
  - unfold rollback_first. do 2 plain_step Ho.
    apply wp_call, wp_down; [done|]. intros r w1 h1 Hr Hu1 _ Hk1.
    apply (curF_stable _ _ _ _ _ Hr) in Hc. clear Hr.
    apply wp_plain_bind; [destruct r; solve [plain_solve]|].
    intros _ w2 h2 Hr. carry Ho Hr. apply wp_ret, HQ; [done|by apply anyK_kern|done].
Qed.

Lemma wp_rollback_kernel prev before w h :
  curF (Current prev) w h → okU h →
  wp (H:=TruthHistory) o (rollback_kernel prev before user) (ready o) w h.
Proof.
  intros Hc Hu. unfold rollback_kernel. do 2 plain_step Ho.
  apply wp_bind, wp_rollback_write; [done..|]. intros r opts nets w1 h1 Hc1 Hk1 Hf1.
  apply wp_plain_bind; [destruct (is_errNothingWritten r); solve [plain_solve]|].
  intros _ w2 h2 Hr. apply (Rely_truth _ _ _ _ _ Ho) in Hr.
  assert (failed r = true → anyK w2 h2) as Hf2 by (intros F; by eapply kernF_stable, Hf1).
  apply (curF_stable _ _ _ _ _ Hr) in Hc1. apply (kernF_stable _ _ _ _ _ Hr) in Hk1. clear Hr.
  apply wp_call, wp_check; [done|]. intros e known w3 h3 Hr Hu3 _.
  apply wp_bind, wp_landed; [cbn [fst snd]; intros [?|?]%andb_false_iff; auto|].
  intros w4 h4 Hr4 Hu4 Hl4. pose proof (rely_trans _ _ _ _ _ _ Hr Hr4) as Hr5. clear Hr Hr4.
  apply (curF_stable _ _ _ _ _ Hr5) in Hc1. apply (kernF_stable _ _ _ _ _ Hr5) in Hk1.
  assert (failed r = true → anyK w4 h4) as Hf4 by (intros F; by eapply kernF_stable, Hf2).
  destruct r as [u|er].
  - destruct (fst (e, known) && snd (e, known)) eqn:El; cbn [negb].
    + apply wp_bind, wp_ret, wp_ret. split_and!; [done|done|]. by apply anyK_kern, Hl4.
    + apply wp_call, wp_record; [done|]. intros w5 h5 Hc5 _ Hu5 Hk5 Ha5. apply wp_ret.
      split_and!; [done|by auto|]. eapply truthful_intro; [by apply Hc5|done|]. by apply Hk5.
  - apply wp_ret. split_and!; [done|done|]. by apply anyK_kern, Hf4.
Qed.

Lemma wp_rollback' prev before w h :
  bakF (Current prev) w h → okU h →
  wp (H:=TruthHistory) o (rollback path prev before user) (ready o) w h.
Proof.
  intros Hb Hu. unfold rollback.
  assert (wp (H:=TruthHistory) o rollback_file
    (λ _ o' w' h', o' = o ∧ curF (Current prev) w' h' ∧ okU h') w h) as Hfile.
  { unfold rollback_file. apply wp_call, (wp_revert' o Ho _ (Current prev)); [done|..].
    - intros u w1 h1 (Hk & Hu1 & Hf) Hc1. specialize (Hu1 Hu). plain_end Ho. done.
    - intros e w1 h1 Hf. apply wp_ret. split_and!; [done|by left|by left]. }
  apply wp_bind. eapply wp_mono; [|exact Hfile]. intros revert ? w1 h1 (-> & Hc1 & Hu1).
  apply wp_call, wp_check; [done|]. intros e known w2 h2 Hr Hu2 Hk2.
  apply (curF_stable _ _ _ _ _ Hr) in Hc1. pose proof (okU_stable _ _ _ _ Hr Hu1) as Hu3.
  cbn [fst snd]. apply wp_bind. destruct (e && known) eqn:El.
  - apply andb_true_iff in El as [-> ->]. specialize (Hk2 eq_refl Hu1). plain_step Ho. apply wp_ret.
    plain_end Ho. split_and!; [done|done|]. by apply anyK_kern.
  - eapply wp_mono; [|by apply wp_rollback_kernel]. intros more ? w3 h3 (-> & Hu4 & Ht).
    apply wp_plain_prog; [case_bool_decide; solve [plain_solve]|]. intros _ w4 h4 Hr4.
    carry Ho Hr4. done.
Qed.

Lemma wp_then_ret {A} (p : prog unit) (r : A) w h :
  wp (H:=TruthHistory) o p (ready o) w h →
  wp (H:=TruthHistory) o (p;; mret r) (ready o) w h.
Proof. intros Hp. apply wp_bind. eapply wp_mono; [|exact Hp]. intros. by apply wp_ret. Qed.

Lemma wp_apply_finish' state cur opts nets on before w h :
  curF cur w h → bakF (Current state) w h → okU h → kern (asked cur opts nets) w h →
  wp (H:=TruthHistory) o (apply_finish path user state opts nets on before) (ready o) w h.
Proof.
  intros Hc Hb Hu Hk. unfold apply_finish. do 2 plain_step Ho.
  apply wp_call, wp_record; [done|]. intros w1 h1 Hc1 Hb1 Hu1 Hk1 Ha1.
  apply Hc1 in Hc. apply Hb1 in Hb. apply Hu1 in Hu. apply Hk1 in Hk. clear Hc1 Hb1 Hu1 Hk1.
  assert (truthful w1 h1) as Ht by (by eapply truthful_intro).
  destruct on; cbn [negb]; [|by plain_end Ho].
  plain_step Ho. destruct a1; cbn [negb]; [by plain_end Ho|].
  do 2 plain_step Ho. by apply wp_then_ret, wp_rollback'.
Qed.

Lemma wp_apply_write' state updated opts nets on before w h :
  curF (Current updated) w h → bakF (Current state) w h →
  wp (H:=TruthHistory) o (apply_write path user state updated opts nets on before) (ready o) w h.
Proof.
  intros Hc Hb. unfold apply_write. plain_step Ho.
  apply wp_call, wp_write; [done|..].
  - intros u w1 h1 Hco Hf Hk. apply (curF_core _ _ _ _ _ Hco Hf) in Hc.
    apply (bakF_core _ _ _ _ _ Hco Hf) in Hb. plain_step Ho.
    apply wp_bind, wp_bind, wp_check; [done|]. intros e known w2 h2 Hr Hu2 _. apply wp_ret, wp_bind.
    apply wp_landed; [by cbn; auto|]. intros w3 h3 Hr3 Hu3 Hl3. cbn [fst] in *.
    pose proof (rely_trans _ _ _ _ _ _ Hr Hr3) as Hr4. clear Hr Hr3.
    apply (curF_stable _ _ _ _ _ Hr4) in Hc. apply (bakF_stable _ _ _ _ _ Hr4) in Hb.
    apply (kernF_stable _ _ _ _ _ Hr4) in Hk. clear Hr4 Hl3.
    destruct e; [|by eapply wp_apply_finish'].
    plain_step Ho. by apply wp_then_ret, wp_rollback'.
  - intros e w1 h1 Hco Hf Hk. apply (bakF_core _ _ _ _ _ Hco Hf) in Hb. do 2 plain_step Ho.
    apply wp_bind, wp_bind, wp_check; [done|]. intros en known w2 h2 Hr Hu2 _. apply wp_ret, wp_bind.
    apply wp_landed; [by cbn; auto|]. intros w3 h3 Hr3 Hu3 _.
    pose proof (rely_trans _ _ _ _ _ _ Hr Hr3) as Hr4. clear Hr Hr3.
    apply (bakF_stable _ _ _ _ _ Hr4) in Hb. by apply wp_then_ret, wp_rollback'.
Qed.

Lemma wp_apply_window' state updated opts nets on before w h :
  curF (Current updated) w h → bakF (Current state) w h →
  wp (H:=TruthHistory) o (apply_window path user state updated opts nets on before) (ready o) w h.
Proof.
  intros Hc Hb. unfold apply_window. destruct on; [|by apply wp_apply_write'].
  do 3 plain_step Ho. apply wp_bind. eapply wp_mono; [|by apply wp_apply_write'].
  intros r ? w1 h1 (-> & Hu & Ht). by plain_end Ho.
Qed.

Lemma wp_apply_promote' state opts nets on before w h :
  bakF (Current state) w h → okU h → truthful w h →
  wp (H:=TruthHistory) o (apply_promote path user state opts nets on before) (ready o) w h.
Proof.
  intros Hb Hu Ht. unfold apply_promote.
  apply wp_call, (wp_promote' o Ho _ (Current state)); [done..| |].
  - intros u w1 h1 (_ & Hu1 & _) Hb1. apply wp_call, wp_get; [done| |].
    + intros s w2 h2 Hr Hc. apply (bakF_stable _ _ _ _ _ Hr) in Hb1. by apply wp_apply_window'.
    + intros e w2 h2 Hf. assert (okU h2) as Hu2 by by left. assert (truthful w2 h2) as Ht2 by by left.
      by plain_end Ho.
  - intros e w1 h1 Hr. apply (okU_stable _ _ _ _ Hr) in Hu.
    apply (truthful_stable _ _ _ _ Hr) in Ht. by plain_end Ho.
Qed.

Lemma wp_apply_mark' state opts nets on before w h :
  bakF (Current state) w h → okU h → truthful w h →
  wp (H:=TruthHistory) o (apply_mark path user state opts nets on before) (ready o) w h.
Proof.
  intros Hb Hu Ht. unfold apply_mark.
  apply wp_plain_bind; [destruct on; solve [plain_solve]|]. intros b w1 h1 Hr. carry Ho Hr.
  destruct b; [by apply wp_apply_promote'|by plain_end Ho].
Qed.

Lemma wp_apply' w h :
  okU h → truthful w h → wp (H:=TruthHistory) o (apply path user) (ready o) w h.
Proof.
  intros Hu Ht. unfold apply. plain_step Ho. destruct a; [by plain_end Ho|]. plain_step Ho.
  apply wp_call, wp_get; [done| |].
  - intros s w1 h1 Hr Hc. apply (okU_stable _ _ _ _ Hr) in Hu.
    apply (truthful_stable _ _ _ _ Hr) in Ht. clear Hr.
    apply wp_call, (wp_backup' o Ho _ (Current s)); [done..|].
    intros [u|e] w2 h2 (_ & Hu2 & _) Hc2 Ht2 Hb2; apply Hu2 in Hu; [|by plain_end Ho].
    specialize (Hb2 u eq_refl). unfold appliedConfig. do 5 plain_step Ho. by apply wp_apply_mark'.
  - intros e w1 h1 Hf. assert (okU h1) as Hu2 by by left. assert (truthful w1 h1) as Ht2 by by left.
    by plain_end Ho.
Qed.

(** Restoring. *)
Lemma wp_restore_write' reason state before reverted w h :
  curF (Current state) w h →
  wp (H:=TruthHistory) o (restore_write reason state before reverted) (ready o) w h.
Proof.
  intros Hc. unfold restore_write. do 4 plain_step Ho. apply wp_call, wp_write; [done|..].
  - intros u w1 h1 Hco Hf Hk. apply (curF_core _ _ _ _ _ Hco Hf) in Hc. plain_step Ho.
    apply wp_bind, wp_bind, wp_check; [done|]. intros e known w2 h2 Hr Hu2 _. apply wp_ret, wp_bind.
    apply wp_landed; [by cbn; auto|]. intros w3 h3 Hr3 Hu3 Hl3. cbn [fst] in *.
    pose proof (rely_trans _ _ _ _ _ _ Hr Hr3) as Hr4. clear Hr Hr3.
    apply (curF_stable _ _ _ _ _ Hr4) in Hc. apply (kernF_stable _ _ _ _ _ Hr4) in Hk. clear Hr4.
    destruct e.
    { apply wp_ret. split_and!; [done|done|]. by apply anyK_kern, Hl3. }
    apply wp_call, wp_record; [done|]. intros w4 h4 Hc4 _ Hu4 Hk4 Ha4.
    assert (okU h4) as Hu by auto.
    assert (truthful w4 h4) as Ht by (eapply truthful_intro; [by apply Hc4|done|by apply Hk4]).
    by plain_end Ho.
  - intros e w1 h1 Hco Hf Hk. plain_step Ho.
    apply wp_bind, wp_bind, wp_check; [done|]. intros en known w2 h2 Hr Hu2 _. apply wp_ret, wp_bind.
    apply wp_landed; [by cbn; auto|]. intros w3 h3 Hr3 Hu3 _.
    pose proof (rely_trans _ _ _ _ _ _ Hr Hr3) as Hr4. apply (kernF_stable _ _ _ _ _ Hr4) in Hk.
    apply wp_ret. split_and!; [done|done|]. by apply anyK_kern.
Qed.

Lemma wp_restore_stored' reason before reverted w h :
  okU h → truthful w h →
  wp (H:=TruthHistory) o (restore_stored reason before reverted) (ready o) w h.
Proof.
  intros Hu Ht. unfold restore_stored. apply wp_call, wp_get; [done| |].
  - intros s w1 h1 Hr Hc. apply (okU_stable _ _ _ _ Hr) in Hu.
    apply (truthful_stable _ _ _ _ Hr) in Ht. clear Hr. plain_step Ho.
    destruct a; cbn [negb]; [by apply wp_restore_write'|by plain_end Ho].
  - intros e w1 h1 Hf. assert (okU h1) as Hu2 by by left. assert (truthful w1 h1) as Ht2 by by left.
    by plain_end Ho.
Qed.

Lemma wp_revertUnconfirmed' w h :
  okU h → truthful w h → wp (H:=TruthHistory) o revertUnconfirmed (ready o) w h.
Proof.
  intros Hu Ht. unfold revertUnconfirmed. plain_step Ho. destruct a; [by apply wp_ret| |by apply wp_ret].
  plain_step Ho. apply wp_call. apply (wp_slot o Ho); try done. intros io w1 h1 Hr Hi.
  apply (okU_stable _ _ _ _ Hr) in Hu. clear Hr Ht.
  cbn [exec truth_act]. destruct (on_rules _ w1) as [r w2] eqn:E. cbn [fst snd].
  assert (fst (Rollback (io_store io) (d_rules (disk w1))) = r) as ->.
  { unfold on_rules in E. destruct (Rollback _ _). by simplify_eq. }
  assert (okU (set_fault (failed r) h1)) as Hu1.
  { destruct Hu as [F|F]; [left; simpl; by rewrite F|by right]. }
  destruct r as [u|e]; [|apply wp_ret; split_and!; [done|done|left; apply orb_true_r]].
  plain_step Ho. apply wp_call, wp_undone; [done|]. intros w3 h3 _ Hu3 Hk3. apply Hu3 in Hu1.
  plain_end Ho. split_and!; [done|done|by apply anyK_kern].
Qed.

Lemma wp_restore_held' reason w h :
  okU h → truthful w h → wp (H:=TruthHistory) o (restore_held reason) (ready o) w h.
Proof.
  intros Hu Ht. unfold restore_held. plain_step Ho. destruct a; [by apply wp_ret|].
  apply wp_bind. eapply wp_mono; [|by apply wp_revertUnconfirmed'].
  intros [[before reverted]|e] ? w1 h1 (-> & Hu1 & Ht1); [by apply wp_restore_stored'|].
  by plain_end Ho.
Qed.
End owner.
Set Default Proof Using "Type".

(** The slot is given back. *)
Lemma wp_give_back {A} o (r : A) w h :
  h_slot o = true → okU h → truthful w h →
  wp (H:=TruthHistory) o (call CEndApply;; mret r) (λ _ o' _ _, o' = mkHeld false (h_mu o)) w h.
Proof.
  intros Ho Hu Ht. apply wp_call, wp_end; [done..|]. intros io w1 h1 Hr Hi.
  apply (Rely_truth o) in Hr; [|done]. apply (okU_stable _ _ _ _ Hr) in Hu.
  apply (truthful_stable _ _ _ _ Hr) in Ht.
  split; [by split|]. split; [done|]. intros _. by apply wp_ret.
Qed.

Lemma wp_RestoreCurrent' reason o w h :
  h_slot o = false →
  wp (H:=TruthHistory) o (RestoreCurrent reason) (λ _ o' _ _, o' = o) w h.
Proof.
  intros Ho. unfold RestoreCurrent.
  apply wp_plain_bind; [solve [plain_solve]|]. intros [] w1 h1 _; [by apply wp_ret|].
  apply wp_bind, wp_waitForApplySlot; [done|by intros; apply wp_ret|]. intros w2 h2 _ [Hu Ht].
  cbn [negb]. apply wp_bind. eapply wp_mono; [|by apply wp_restore_held'].
  intros r ? w3 h3 (-> & Hu3 & Ht3). eapply wp_mono; [|by apply wp_give_back].
  intros ? ? ? ? ->. destruct o; simpl in *. by subst.
Qed.

Lemma keeps_Apply' path : keeps (H:=TruthHistory) (handler path RqApply).
Proof.
  intros w h. apply wp_bind. unfold CmdApplyRules.
  apply wp_plain_bind; [solve [plain_solve]|]. intros [] w1 h1 _; [by apply wp_ret|].
  unfold Apply. apply wp_call, wp_begin; [done|by intros; apply wp_ret|]. intros w2 h2 _ [Hu Ht].
  cbn [negb]. apply wp_bind. eapply wp_mono; [|by apply wp_apply'].
  intros r ? w3 h3 (-> & Hu3 & Ht3). eapply wp_mono; [|by apply wp_give_back]. by intros ? ? ? ? ->.
Qed.

Lemma wp_under_mu {A} (p : prog A) w h :
  (∀ w h, okP h → wp (H:=TruthHistory) (mkHeld false true) p
     (λ _ o' _ h', o' = mkHeld false true ∧ okP h') w h) →
  wp (H:=TruthHistory) nothing (call CLockPanicMu;; r ← p; call CUnlockPanicMu;; mret r)
    (λ _ o' _ _, o' = nothing) w h.
Proof.
  intros Hp. apply wp_call, wp_lock; [done|]. intros w1 h1 _ Hok. apply wp_bind.
  eapply wp_mono; [|by apply Hp]. intros r ? w2 h2 (-> & Hok2).
  apply wp_call, wp_unlock; [done..|]. intros io w3 h3 [_ Hr] Hi.
  split; [by apply Hr|]. split; [done|]. by apply wp_ret.
Qed.

Lemma wp_panic_held user w h :
  okP h → wp (H:=TruthHistory) (mkHeld false true) (panic_held user)
    (λ _ o' _ h', o' = mkHeld false true ∧ okP h') w h.
Proof.
  intros Hok. unfold panic_held, CancelAcceptance. apply wp_call.
  split; [done|]. intros io w1 h1 [_ Hr] Hi _. specialize (Hr eq_refl Hok).
  split; [by apply truth_inv_act|]. cbn [exec fst snd held_after h_act TruthHistory truth_act].
  destruct (io_good io); cbn [negb]; [|by apply wp_ret].
  do 3 (apply wp_plain_bind; [solve [plain_solve]|]; intros ? ? ? _).
  apply wp_call. split; [done|]. intros io2 w2 h2 _ Hi2 _. split; [by apply truth_inv_act|].
  cbn [exec]. unfold on_kernel. destruct (nft_reset _ _) as [r k1] eqn:E.
  cbn [fst snd held_after h_act TruthHistory truth_act]. rewrite E. cbn [fst].
  assert (okP (if failed r || negb (nft_del (io_nft io2)) then set_fault true h2
               else mkTruthHist false false false (th_fault h2))) as Hok2.
  { destruct (_ || _); [left; apply orb_true_r|by right]. }
  destruct r; by apply wp_ret.
Qed.

Lemma no_mu_poll fuel d : no_mu (H:=TruthHistory) (poll_slot fuel d).
Proof.
  induction fuel as [|fuel IH]; [done|]. cbn [poll_slot]. no_mu_solve.
Qed.
Lemma no_mu_collect : no_mu (H:=TruthHistory) collectUsageBeforeWrite.
Proof. unfold collectUsageBeforeWrite. no_mu_solve. Qed.
#[local] Hint Resolve no_mu_poll no_mu_collect : plain.

Lemma no_mu_RestoreCurrent reason : no_mu (H:=TruthHistory) (RestoreCurrent reason).
Proof.
  unfold RestoreCurrent, waitForApplySlot, restore_held, revertUnconfirmed, restore_stored,
    restore_write, restore_config, panicLandedDuringWrite. no_mu_solve.
Qed.

Lemma wp_mu_plain {A B} (p : prog A) (f : A → prog B) Q w h :
  plain_prog (H:=TruthHistory) p → okP h →
  (∀ a w' h', okP h' → wp (H:=TruthHistory) (mkHeld false true) (f a) Q w' h') →
  wp (H:=TruthHistory) (mkHeld false true) (p ≫= f) Q w h.
Proof.
  intros Hp Hok Hf. apply wp_plain_bind; [done|]. intros a w' h' [_ Hr]. by apply Hf, Hr.
Qed.

Lemma wp_resume_held user w h :
  okP h → wp (H:=TruthHistory) (mkHeld false true) (resume_held user)
    (λ _ o' _ h', o' = mkHeld false true ∧ okP h') w h.
Proof.
  intros Hok. unfold resume_held.
  apply wp_mu_plain; [solve [plain_solve]|done|]. intros st w1 h1 Hok1.
  apply wp_mu_plain; [solve [plain_solve]|done|]. intros [] w2 h2 Hok2; cbn [negb]; [|by apply wp_ret].
  apply wp_mu_plain; [destruct (fst st || negb (snd st)); solve [plain_solve]|done|]. intros _ w3 h3 Hok3.
  apply wp_mu_plain; [solve [plain_solve]|done|]. intros rs w4 h4 Hok4.
  apply wp_mu_plain; [destruct rs; solve [plain_solve]|done|]. intros c w5 h5 Hok5.
  apply wp_bind. eapply wp_mono; [|apply wp_mu_frame; [apply no_mu_RestoreCurrent|done|];
    by apply wp_RestoreCurrent'].
  intros r ? w6 h6 [-> Hr]. apply Hr in Hok5.
  apply wp_mu_plain; [destruct r as [|[]]; solve [plain_solve]|done|]. intros _ w7 h7 Hok7.
  by apply wp_ret.
Qed.

Lemma keeps_handler' path rq : keeps (H:=TruthHistory) (handler path rq).
Proof.
  destruct rq; try (apply plain_keeps; cbn [handler]; unfold discard, FwAccept, FwRollback,
    ShutdownAcceptance, Status; solve [plain_solve]).
  - apply keeps_Apply'.
  - intros w h. apply wp_bind. eapply wp_mono; [|by apply wp_RestoreCurrent'].
    intros ? ? ? ? ->. by apply wp_ret.
  - intros w h. apply wp_bind. eapply wp_mono; [|apply wp_under_mu, wp_panic_held].
    intros ? ? ? ? ->. by apply wp_ret.
  - intros w h. apply wp_bind. eapply wp_mono; [|apply wp_under_mu, wp_resume_held].
    intros ? ? ? ? ->. by apply wp_ret.
Qed.
End handlers.

(** ** Properties *)

(** A machine that starts clean: nothing pending a check, and the record true. *)
Definition clean : TruthHist := mkTruthHist false false false false.
Definition starts_clean (w : World) : Prop :=
  (d_panic (disk w) = true → live (kernel w) = true → False) ∧
  ∀ t, kernel w = Filtering t → describes w t.

Lemma starts_clean_ok w :
  starts_clean w → truth_inv w clean ∧ (okU clean ∧ kern (describes w) w clean) ∧ okP clean.
Proof.
  intros [H1 H2]. split_and!; try by right.
  - right. intros ? ?. by destruct H1.
  - by right; right; right.
Qed.

(** C5: panic mode is authoritative.  In every state the daemon can reach, under
    any interleaving with applies, rollbacks, restores and resumes that are
    writing the kernel at the same time, once no such operation and no panic or
    resume is running, a panic marker on disk means that the kernel filters
    nothing; provided the marker could be read and the teardowns succeeded, and
    no process was killed between a write and its check. *)
Theorem panic_mode_is_obeyed `{ET : !ErrorText} path es w (s : Sys TruthHistory) :
  starts_clean w →
  sys_run path TruthHistory es (mkSys (H:=TruthHistory) w clean []) = Some s →
  m_applying (mem (s_world s)) = false → m_panicMu (mem (s_world s)) = false →
  th_fault (s_hist s) = false →
  d_panic (disk (s_world s)) = true → live (kernel (s_world s)) = false.
Proof.
  intros (Hi & Hs & Hm)%starts_clean_ok Hrun Ha Hp Hf Hpanic.
  destruct (protocol_sound (H:=TruthHistory) path es w clean s (keeps_handler' path) Hi Hs Hm Hrun)
    as (Hi' & Hs' & Hm').
  destruct (live _) eqn:El; [|done]. exfalso.
  destruct (Hs' Ha) as [[?|Hu] _]; [congruence|]. destruct (Hm' Hp) as [?|Hn]; [congruence|].
  destruct Hi' as [?|Hi']; [congruence|]. destruct (Hi' Hpanic El); congruence.
Qed.

(** An apply is inside its window when the console panics; both finish. *)
Definition panic_in_window : list event :=
  EvSpawn RqApply :: steps 24 0 ++ EvSpawn (RqPanic "root") :: steps 9 1 ++ steps 9 0.

Definition demo (es : list event) : Sys TruthHistory :=
  final "panic" TruthHistory es (mkSys (H:=TruthHistory) (configured true) clean []).

Lemma demo_run es :
  follows "panic" TruthHistory es (mkSys (H:=TruthHistory) (configured true) clean []) = true →
  sys_run "panic" TruthHistory es (mkSys (H:=TruthHistory) (configured true) clean [])
  = Some (demo es).
Proof. apply final_run. Qed.

Lemma configured_clean on : starts_clean (configured on).
Proof.
  split; [done|]. intros t [= <-]. eexists _, _. by split_and!.
Qed.

Lemma panic_mode_is_obeyed_witness :
  let s := demo panic_in_window in
  s_threads s = [mret tt; mret tt] ∧ Current <$> stored (s_world s) = Some ssh_only ∧
  live (kernel (s_world s)) = false.
Proof.
  split; [vm_compute; reflexivity|]. split; [vm_compute; reflexivity|].
  apply (panic_mode_is_obeyed "panic" panic_in_window (configured true));
    [apply configured_clean|apply demo_run; vm_compute; reflexivity|vm_compute; reflexivity..].
Defined.

(** C2: the record matches the kernel.  Whenever no operation that changes the
    kernel is running, the table the kernel filters with was built from the
    stored [Current] with exactly the recorded configuration, whatever sequence
    of applies, timeouts, cancellations, failed and refused writes, rollbacks,
    restores, panics, resumes and reboots led there; unless the last write to
    the kernel failed (or an apply was undone after its process was killed), or
    a file operation this rests on failed. *)
Theorem recorded_state_matches_kernel `{ET : !ErrorText} path es w (s : Sys TruthHistory) t :
  starts_clean w →
  sys_run path TruthHistory es (mkSys (H:=TruthHistory) w clean []) = Some s →
  m_applying (mem (s_world s)) = false → m_panicMu (mem (s_world s)) = false →
  th_fault (s_hist s) = false → th_behind (s_hist s) = false →
  kernel (s_world s) = Filtering t → describes (s_world s) t.
Proof.
  intros (Hi & Hs & Hm)%starts_clean_ok Hrun Ha Hp Hf Hb Hk.
  destruct (protocol_sound (H:=TruthHistory) path es w clean s (keeps_handler' path) Hi Hs Hm Hrun)
    as (_ & Hs' & Hm').
  destruct (Hs' Ha) as [_ [?|[?|[?|H]]]]; [congruence|congruence| |by apply H].
  destruct (Hm' Hp) as [?|?]; congruence.
Qed.

(** The window of an apply runs out. *)
Definition timed_out : list event :=
  EvSpawn RqApply :: steps 24 0 ++ EvTick 61000000000 :: steps 15 0.

Lemma recorded_state_matches_kernel_witness :
  let s := demo timed_out in
  kernel (s_world s) = table_of ssh_only ∧
  describes (s_world s) (wanted ssh_only options_off networks_plain ∅).
Proof.
  split; [vm_compute; reflexivity|].
  apply (recorded_state_matches_kernel "panic" timed_out (configured true));
    [apply configured_clean|apply demo_run; vm_compute; reflexivity|vm_compute; reflexivity..].
Defined.

(** A killed first apply is not undone.  On an installation that never
    applied anything, the process dies inside the window of the first apply and
    is started again (the machine stays up).  The restore reverts the rules file
    and clears the marker, and then, with nothing ever applied, leaves the kernel
    alone: the unconfirmed set stays in force while the log says this host is
    not configured. *)
Theorem killed_first_apply_stays_in_force :
  let w0 := mkWorld
    (mkDisk (RFDoc (mkRulesState emptyRules web_only emptyRules)) NoMarker false AFMissing None
       UFMissing FFMissing [])
    (mkMem (NewAcceptance 60000000000) false false None (cfg_window true) [] None 1000) NoTable in
  let es := EvSpawn RqApply :: steps 24 0 ++ EvCrash false (cfg_window true) ::
            EvSpawn (RqRestore "daemon start") :: steps 15 0 in
  let s := final "panic" TruthHistory es (mkSys (H:=TruthHistory) w0 clean []) in
  follows "panic" TruthHistory es (mkSys (H:=TruthHistory) w0 clean []) = true ∧
  s_threads s = [mret tt] ∧
  stored (s_world s) = Some (mkRulesState emptyRules web_only emptyRules) ∧
  d_unconfirmed (disk (s_world s)) = NoMarker ∧
  kernel (s_world s) = table_of web_only ∧
  map Action (d_audit (disk (s_world s))) =
    ["boot_not_configured"; "apply_rolledback"; "apply_started"].
Proof. split_and!; vm_compute; reflexivity. Qed.
