(* ===== verification/CycleRuns.v ===== *)
(** * Whole cycles

    What one apply, one restore and one refused request do from beginning to end
    when nothing fails and nothing else writes: the functional behaviour of the
    programs of [Firewall], with whatever the operator does to the window while
    the apply waits in it. *)
From S2P Require Import Prelude GoStrings Models RuleID Validate Diff Acceptance RulesStore.
From S2P Require Import Usage Kernel World Firewall Interleaving Scenarios CrashSafety.

Local Open Scope Z_scope.

(** The calls other goroutines make on the window while its owner waits. *)
Definition at_wait (ops : list op) (w : World) : World :=
  let '(now, a) := run_ops ops (m_now (mem w)) (m_acceptance (mem w)) in
  set_now now (set_acceptance a w).

(** One program, every action answered by [io]. *)
Fixpoint quiet {A} (io : IO) (ops : list op) (p : prog A) (w : World) : option (A * World) :=
  match p with
  | Ret' a => Some (a, w)
  | Act c k =>
      let w := match c with CAccWait => at_wait ops w | _ => w end in
      if enabled c w then let '(b, w') := exec io c w in quiet io ops (k b) w' else None
  end.

(** ** Symbolic execution *)

Definition ends {A} (io : IO) (ops : list op) (p : prog A) (w : World) (Q : A → World → Prop) : Prop :=
  ∃ a w', quiet io ops p w = Some (a, w') ∧ Q a w'.

Lemma ends_ret {A} io ops (a : A) w (Q : A → World → Prop) : Q a w → ends io ops (Ret' a) w Q.
Proof. intros. by exists a, w. Qed.

Lemma ends_step {A} io ops c (k : answer c → prog A) w b w' Q :
  match c with CAccWait => False | _ => True end →
  exec io c w = (b, w') → enabled c w = true →
  ends io ops (k b) w' Q → ends io ops (Act c k) w Q.
Proof. unfold ends. intros Hc He Hen. simpl. destruct c; rewrite ?Hen, ?He; done. Qed.

Lemma ends_wait {A} io ops (k : bool → prog A) w now a b a' Q :
  run_ops ops (m_now (mem w)) (m_acceptance (mem w)) = (now, a) →
  Wait_ready now a = true → Wait_finish a = (b, a') →
  ends io ops (k b) (set_acceptance a' (set_now now w)) Q →
  ends io ops (Act CAccWait k) w Q.
Proof.
  unfold ends. intros Hr Hw Hf. cbn [quiet enabled exec]. unfold at_wait. rewrite Hr.
  cbn -[Wait_ready Wait_finish]. rewrite Hw. unfold on_acc. cbn -[Wait_finish]. by rewrite Hf.
Qed.

Lemma ends_write {A} ops s o n f (k : result NftError unit → prog A) w Q :
  ValidateRules (Current s) = Ok tt →
  ends io_fine ops (k (Ok tt)) (set_kernel (Filtering (wanted (Current s) o n f)) w) Q →
  ends io_fine ops (Act (CApplyWithFeeds s o n f) k) w Q.
Proof.
  intros V%ValidateRules_spec. apply ends_step; [done| |done].
  cbn [exec]. unfold on_kernel. cbn. by rewrite ApplyWithFeeds_nft_ok.
Qed.

Lemma ends_feeds {A} io ops ids (k : FeedContents → prog A) w Q :
  (∀ f fc, ends io ops (k f) (set_feedCache fc w) Q) →
  ends io ops (Act (CFeedContents ids) k) w Q.
Proof.
  intros Hk. cbn. destruct (feeds_load (io_good io) (d_feeds (disk w)) (m_feeds (mem w))) as [m|] eqn:E.
  - eapply ends_step; [done|cbn [exec]; by rewrite E|done|apply Hk].
  - eapply ends_step; [done|cbn [exec]; by rewrite E|done|].
    replace w with (set_feedCache (m_feeds (mem w)) w) at 1 by (by destruct w as [? [] ?]). apply Hk.
Qed.

Lemma everConfigured_nonempty st : IsEmpty (Current st) = false → everConfigured st = mret true.
Proof. unfold everConfigured. by intros ->. Qed.
Lemma everConfigured_empty st :
  IsEmpty (Current st) = true →
  everConfigured st = (t ← call CLastApply; mret (bool_decide (t ≠ None))).
Proof. unfold everConfigured. by intros ->. Qed.

Lemma feedContents_cases r :
  feedContents r = mret ∅ ∨ feedContents r = call (CFeedContents (Feeds r)).
Proof. unfold feedContents. case_bool_decide; auto. Qed.

Ltac qhead :=
  lazymatch goal with |- ends ?io ?ops ?p ?w ?Q =>
    let p' := eval hnf in p in change (ends io ops p' w Q) end.
Ltac qeval t := eval cbv -[Z.mul Z.div ValidateRules Collect ResetBaselines liveRuleIDs usage_update
  feeds_load feeds_Contents at_wait run_ops Start Wait_ready Wait_finish normalised IsEmpty
  LogBlocked bool_decide Reset status reason StoreErrorText NftErrorText FwErrorText String.append
  Join ApplyWithFeeds RecordRolledBack wanted Remaining Enforcing] in t.
Ltac qworld :=
  lazymatch goal with |- ends ?io ?ops ?p ?w ?Q =>
    let w' := qeval w in change (ends io ops p w' Q) end.
(** One action. *)
Ltac qstep :=
  qhead;
  lazymatch goal with
  | |- ends ?io ?ops (Act (CFeedContents ?ids) ?k) ?w ?Q =>
      refine (ends_feeds io ops ids k w Q _); intros ? ?; qworld
  | |- ends ?io ?ops (Act ?c ?k) ?w ?Q =>
      let x := qeval constr:(exec io c w) in
      lazymatch x with (?b, ?w') =>
        refine (ends_step io ops c k w b w' Q I _ eq_refl _); [reflexivity|] end
  | |- ends _ _ (Ret' _) _ _ => apply ends_ret
  end.
(** A write of valid rules, the wait, and the two ways of [feedContents]. *)
Ltac qwrite V :=
  qhead;
  lazymatch goal with |- ends io_fine ?ops (Act (CApplyWithFeeds ?s ?o ?n ?f) ?k) ?w ?Q =>
    refine (ends_write ops s o n f k w Q V _); qworld end.
Ltac qwait H1 H2 H3 :=
  qhead;
  lazymatch goal with |- ends ?io ?ops (Act CAccWait ?k) ?w ?Q =>
    refine (ends_wait io ops k w _ _ _ _ Q H1 H2 H3 _); qworld end.
Ltac qfeeds r :=
  cbn [Current]; destruct (feedContents_cases r) as [->| ->]; [|qstep].

(** The state of a machine between two cycles. *)
Record idle_world := mkIdle {
  i_cur : Rules; i_stg : Rules; i_bak : Rules;
  i_applied : AppliedConfig; i_lastFile : Time; i_usage : UsageFile; i_feeds : FeedsFile;
  i_audit : list AuditLogEntry;
  i_acc : Acceptance; i_last : Time; i_fw : FirewallOptions; i_net : NetworkSettings;
  i_accept : AcceptanceConfig; i_bridges : list string; i_cache : option FeedContents; i_now : Z;
  i_kernel : Kernel }.

Definition idle (x : idle_world) : World :=
  mkWorld
    (mkDisk (RFDoc (mkRulesState (i_cur x) (i_stg x) (i_bak x))) NoMarker false
       (AFDoc (i_applied x)) (i_lastFile x) (i_usage x) (i_feeds x) (i_audit x))
    (mkMem (i_acc x) false false (i_last x) (mkLiveCfg (i_fw x) (i_net x) (i_accept x))
       (i_bridges x) (i_cache x) (i_now x))
    (i_kernel x).

Ltac proj := cbn [i_cur i_stg i_bak i_applied i_lastFile i_usage i_feeds i_audit i_acc i_last i_fw
  i_net i_accept i_bridges i_cache i_now i_kernel Enabled Duration] in *.

(** The window the apply opens, and what the calls on it leave. *)
Definition opened (x : idle_world) : Acceptance :=
  Start (i_now x) (Duration (i_accept x) * 1000000000) (i_acc x).
Definition window_end (x : idle_world) : Z :=
  let d := Duration (i_accept x) * 1000000000 in
  i_now x + if 0 <? d then d else duration (i_acc x).

Definition committed (x : idle_world) (now : Z) (w : World) : Prop :=
  stored w = Some (mkRulesState (i_stg x) (i_stg x) (i_cur x)) ∧
  (∃ f, kernel w = Filtering (wanted (i_stg x) (i_fw x) (i_net x) f)) ∧
  d_applied (disk w) = AFDoc (mkAppliedConfig (i_fw x) (i_net x)) ∧
  m_lastApply (mem w) = Some now ∧
  status (m_acceptance (mem w)) = AcceptanceAccepted.

Definition undone (x : idle_world) (why : string) (w : World) : Prop :=
  stored w = Some (mkRulesState (i_cur x) (i_stg x) (i_cur x)) ∧
  (∃ f, kernel w = Filtering (wanted (i_cur x) (Applied_Firewall (i_applied x))
                                (Applied_Network (i_applied x)) f)) ∧
  d_applied (disk w) = AFDoc (i_applied x) ∧
  m_lastApply (mem w) = i_last x ∧
  status (m_acceptance (mem w)) = AcceptanceRolledBack ∧
  Detail <$> head (d_audit (disk w)) = Some why.

(** The machine is idle again. *)
Definition rested (w : World) : Prop :=
  m_applying (mem w) = false ∧ d_unconfirmed (disk w) = NoMarker ∧ d_panic (disk w) = false.

Section cycle.
Context `{ET : !ErrorText} (path user : string) (x : idle_world) (ops : list op).
Context (Hcur : ValidateRules (i_cur x) = Ok tt) (Hstg : ValidateRules (i_stg x) = Ok tt).
Context (Hever : IsEmpty (i_cur x) = false ∨ i_last x ≠ None).
Context (Hon : Enabled (i_accept x) = true).
Context (now : Z) (a : Acceptance).
Context (Hops : run_ops ops (i_now x) (opened x) = (now, a)) (Hready : Wait_ready now a = true).
Set Default Proof Using "All".

Lemma apply_accepted_run :
  accepted a = true →
  ends io_fine ops (Apply path user) (idle x) (λ r w, r = Ok tt ∧ rested w ∧ committed x now w).
Proof.
  intros Ha. destruct x as [cur stg bak app lf us fd au acc last fw net [on d] br fc t k].
  unfold opened, committed, idle in *. proj. subst on.
  destruct (Wait_finish a) as [b a'] eqn:Hf.
  pose proof Hf as Hf'. unfold Wait_finish in Hf'. rewrite Ha in Hf'. simplify_eq.
  repeat qstep. unfold apply_write.
  qfeeds stg; (qwrite Hstg; repeat qstep; qwait Hops Hready Hf; repeat qstep;
    split_and!; try done; eauto).
Qed.

Lemma apply_undone_run :
  accepted a = false →
  ends io_fine ops (Apply path user) (idle x) (λ r w, r = Ok tt ∧ rested w ∧ undone x (reason a) w).
Proof.
  intros Ha. destruct x as [cur stg bak app lf us fd au acc last fw net [on d] br fc t k].
  unfold opened, undone, idle in *. proj. subst on.
  destruct (Wait_finish a) as [b a'] eqn:Hf.
  pose proof Hf as Hf'. unfold Wait_finish in Hf'. rewrite Ha in Hf'. simplify_eq.
  repeat qstep. unfold apply_write.
  qfeeds stg; qwrite Hstg; repeat qstep; qwait Hops Hready Hf; repeat qstep;
    (destruct (IsEmpty cur) eqn:He;
     [destruct last; [|by destruct Hever]; rewrite everConfigured_empty by done
     |rewrite everConfigured_nonempty by done]); repeat qstep; unfold rollback_previous;
    qfeeds cur; (qwrite Hcur; repeat qstep; split_and!; try done; [by eauto|by destruct app]).
Qed.
End cycle.

(** ** Properties *)

(** C6: an apply does what its window decided.  On a machine that was configured
    before, with valid rules and nothing failing, an apply ends committed when
    the first confirmation or cancellation before the deadline is a
    confirmation: the staged rules are [Current] and in the kernel with the live
    configuration, recorded, dated.  In every other case, timeout included, it
    ends undone: the rules that were in force are [Current] again and in the
    kernel with the configuration they had, the staged edit is kept, and the
    audit log names the reason.  Either way the slot is free and no marker is
    left. *)
Theorem apply_follows_its_window `{ET : !ErrorText} path user x ops now a :
  ValidRules (i_cur x) → ValidRules (i_stg x) →
  (IsEmpty (i_cur x) = false ∨ i_last x ≠ None) →
  Enabled (i_accept x) = true → stopping (i_acc x) = false →
  status (i_acc x) ≠ AcceptancePending → Forall window_op ops →
  run_ops ops (i_now x) (opened x) = (now, a) → Wait_ready now a = true →
  ∃ w, quiet io_fine ops (Apply path user) (idle x) = Some (Ok tt, w) ∧ rested w ∧
    match first_decision (window_end x) (i_now x) ops with
    | VAccepted => committed x now w
    | VCancelled r => undone x (if String.eqb r "" then ReasonTimeout else r) w
    | VTimeout => undone x ReasonTimeout w
    end.
Proof.
  intros V1%ValidateRules_spec V2%ValidateRules_spec He Hon Hst Hs Hops Hrun Hready.
  pose proof (window_run _ ops _ _ _ _ Hops
    (Start_window (i_now x) (Duration (i_accept x) * 1000000000) (i_acc x) Hs Hst) Hrun) as Hw.
  fold (window_end x) in Hw. destruct Hw as (_ & _ & _ & _ & Hv).
  assert (∀ P, ends io_fine ops (Apply path user) (idle x) (λ r w, r = Ok tt ∧ P w) →
    ∃ w, quiet io_fine ops (Apply path user) (idle x) = Some (Ok tt, w) ∧ P w) as Hends.
  { intros P (? & w & Hq & -> & HP). eauto. }
  destruct (first_decision _ _ _).
  - destruct Hv as [Ha _]. apply Hends. by eapply apply_accepted_run.
  - destruct Hv as (Ha & _ & <-). apply Hends. by eapply apply_undone_run.
  - destruct Hv as (Ha & _ & <-). apply Hends. by eapply apply_undone_run.
Qed.

(** [ssh_only] in force, [web_only] staged, a window of sixty seconds. *)
Definition office : idle_world :=
  mkIdle ssh_only web_only ssh_only config_plain (Some 0) UFMissing FFMissing []
    (NewAcceptance 60000000000) (Some 0) options_off networks_plain
    (mkAcceptanceConfig true 60) [] None 1000 (table_of ssh_only).

Lemma ssh_only_valid : ValidRules ssh_only.
Proof. apply ValidateRules_spec. vm_compute. reflexivity. Qed.
Lemma web_only_valid : ValidRules web_only.
Proof. apply ValidateRules_spec. vm_compute. reflexivity. Qed.

Lemma apply_follows_its_window_witness :
  ∃ w, quiet io_fine [OpTick 5; OpCancel ReasonOperator] (Apply "panic" "web") (idle office)
       = Some (Ok tt, w) ∧ rested w ∧ undone office ReasonOperator w.
Proof.
  refine (apply_follows_its_window "panic" "web" office [OpTick 5; OpCancel ReasonOperator] 1005
    _ ssh_only_valid web_only_valid (or_introl eq_refl) eq_refl eq_refl _ _ _ _).
  - discriminate.
  - repeat constructor.
  - vm_compute. reflexivity.
  - vm_compute. reflexivity.
Defined.

