(* ===== verification/RestoreRuns.v ===== *)
(** * Restores, refusals and first applies

    The remaining ways through the cycle from beginning to end: the restart after
    a death inside the window, the first apply of an installation, a machine
    nothing was ever applied on, and the requests that are refused. *)
From S2P Require Import Prelude GoStrings Models RuleID Validate Diff Acceptance RulesStore.
From S2P Require Import Usage Kernel World Firewall Interleaving Scenarios CrashSafety.
From S2P Require Import CycleRuns.

Local Open Scope Z_scope.

(** Expose the next call without entering it. *)
Ltac qexpose :=
  lazymatch goal with |- ends ?io ?ops ?p ?w ?Q =>
    let p' := eval cbn [prog_bind Current] in p in change (ends io ops p' w Q) end.

(** The same machine, whose process died inside a window: the marker holds what
    was in force before. *)
Definition died (before : AppliedConfigResult) (x : idle_world) : World :=
  set_unconfirmed (Marker before) (idle x).

Definition config_before (before : AppliedConfigResult) (x : idle_world) : AppliedConfig :=
  default (mkAppliedConfig (i_fw x) (i_net x)) before.



(** A machine nothing was ever applied on is not filtered by a restore: with
    an empty [Current] and no recorded apply, whatever the kernel holds is left
    as it is, nothing is recorded as applied, and the log says why. *)
Theorem restore_never_enforces_unconfigured `{ET : !ErrorText} reason x ops :
  IsEmpty (i_cur x) = true → i_last x = None →
  ∃ w, quiet io_fine ops (RestoreCurrent reason) (idle x) = Some (Ok tt, w) ∧ rested w ∧
    kernel w = i_kernel x ∧ d_applied (disk w) = AFDoc (i_applied x) ∧
    stored w = Some (mkRulesState (i_cur x) (i_stg x) (i_bak x)) ∧
    d_audit (disk w) = mkAudit "boot_not_configured" "all" reason "core" :: i_audit x.
Proof.
  intros He Hl.
  destruct x as [cur stg bak app lf us fd au acc last fw net [on d] br fc t k].
  assert (ends io_fine ops (RestoreCurrent reason) (idle
    (mkIdle cur stg bak app lf us fd au acc last fw net (mkAcceptanceConfig on d) br fc t k))
    (λ r w, r = Ok tt ∧ rested w ∧ kernel w = k ∧ d_applied (disk w) = AFDoc app ∧
      stored w = Some (mkRulesState cur stg bak) ∧
      d_audit (disk w) = mkAudit "boot_not_configured" "all" reason "core" :: au))
    as (? & w & Hq & -> & H); [|by eauto].
  unfold idle in *. proj. subst last. repeat qstep. qexpose.
  rewrite everConfigured_empty by done. repeat qstep. by split_and!.
Qed.

Lemma restore_never_enforces_unconfigured_witness :
  ∃ w, quiet io_fine [] (RestoreCurrent "daemon start")
         (idle (mkIdle emptyRules web_only emptyRules config_plain None UFMissing FFMissing []
            (NewAcceptance 60000000000) None options_off networks_plain
            (mkAcceptanceConfig true 60) [] None 1000 NoTable)) = Some (Ok tt, w) ∧
       kernel w = NoTable.
Proof.
  edestruct (restore_never_enforces_unconfigured "daemon start"
    (mkIdle emptyRules web_only emptyRules config_plain None UFMissing FFMissing []
       (NewAcceptance 60000000000) None options_off networks_plain
       (mkAcceptanceConfig true 60) [] None 1000 NoTable) [] eq_refl eq_refl)
    as (w & Hq & _ & Hk & _).
  exists w. split; [exact Hq|exact Hk].
Defined.

(** The first apply of an installation, not confirmed, goes back to not
    filtering: the table is emptied rather than an empty rule set enforced at
    policy drop, and [Current] is empty again. *)
Theorem first_apply_undone_stops_filtering `{ET : !ErrorText} path user x ops now a :
  IsEmpty (i_cur x) = true → i_last x = None → ValidRules (i_stg x) →
  Enabled (i_accept x) = true →
  run_ops ops (i_now x) (opened x) = (now, a) → Wait_ready now a = true → accepted a = false →
  ∃ w, quiet io_fine ops (Apply path user) (idle x) = Some (Ok tt, w) ∧ rested w ∧
    kernel w = EmptyTable ∧
    stored w = Some (mkRulesState (i_cur x) (i_stg x) (i_cur x)) ∧
    Action <$> head (d_audit (disk w)) = Some "boot_not_configured".
Proof.
  intros He Hl V%ValidateRules_spec Hon Hops Hready Ha.
  destruct x as [cur stg bak app lf us fd au acc last fw net [on d] br fc t k].
  unfold opened in Hops. proj. subst on last.
  assert (ends io_fine ops (Apply path user) (idle
    (mkIdle cur stg bak app lf us fd au acc None fw net (mkAcceptanceConfig true d) br fc t k))
    (λ r w, r = Ok tt ∧ rested w ∧ kernel w = EmptyTable ∧
      stored w = Some (mkRulesState cur stg cur) ∧
      Action <$> head (d_audit (disk w)) = Some "boot_not_configured"))
    as (? & w & Hq & -> & H); [|by eauto].
  unfold idle in *. proj.
  destruct (Wait_finish a) as [b a'] eqn:Hf.
  pose proof Hf as Hf'. unfold Wait_finish in Hf'. rewrite Ha in Hf'. simplify_eq.
  repeat qstep. unfold apply_write.
  qfeeds stg; qwrite V; repeat qstep; qwait Hops Hready Hf; repeat qstep;
    rewrite everConfigured_empty by done; repeat qstep; by split_and!.
Qed.

Lemma first_apply_undone_stops_filtering_witness :
  ∃ w, quiet io_fine [OpCancel ReasonOperator] (Apply "panic" "web")
         (idle (mkIdle emptyRules web_only emptyRules config_plain None UFMissing FFMissing []
            (NewAcceptance 60000000000) None options_off networks_plain
            (mkAcceptanceConfig true 60) [] None 1000 NoTable)) = Some (Ok tt, w) ∧
       kernel w = EmptyTable.
Proof.
  edestruct (first_apply_undone_stops_filtering "panic" "web"
    (mkIdle emptyRules web_only emptyRules config_plain None UFMissing FFMissing []
       (NewAcceptance 60000000000) None options_off networks_plain
       (mkAcceptanceConfig true 60) [] None 1000 NoTable) [OpCancel ReasonOperator])
    as (w & Hq & _ & Hk & _);
    [reflexivity|reflexivity|exact web_only_valid|reflexivity|vm_compute; reflexivity|
     vm_compute; reflexivity|vm_compute; reflexivity|].
  exists w. split; [exact Hq|exact Hk].
Defined.

(** What is refused changes nothing.  An apply asked for while a cycle runs
    is refused at once and leaves the world as it is; an apply that finds the
    panic marker, or cannot tell whether it is there, is refused, gives its slot
    back, and leaves only its audit entry. *)
Theorem refused_apply_changes_nothing `{ET : !ErrorText} path user ops io w :
  (m_applying (mem w) = true →
   quiet io ops (Apply path user) w = Some (Err ErrApplyInProgress, w)) ∧
  (m_applying (mem w) = false → d_panic (disk w) = true ∨ io_good io = false →
   ∃ w', quiet io ops (Apply path user) w = Some (Err ErrPanicEngaged, w') ∧
     w' = if io_good io then add_audit (mkAudit "apply_refused_panic" "all"
            "an apply was refused because panic mode is engaged at the console" user) w else w).
Proof.
  split.
  - intros H. cbn. by rewrite H.
  - intros H1 H2.
    assert (ends io ops (Apply path user) w (λ r w', r = Err ErrPanicEngaged ∧
      w' = if io_good io then add_audit (mkAudit "apply_refused_panic" "all"
        "an apply was refused because panic mode is engaged at the console" user) w else w))
      as (? & w' & Hq & -> & H); [|by eauto].
    destruct w as [[] [] k], io as [st [] nf ct ur br fi]; simpl in H1, H2; subst;
      [destruct H2 as [->|?]; [|done]|]; repeat qstep; done.
Qed.

(** The wait for the slot ends.  A restore that finds the slot taken, and
    still taken at every poll, gives up after the deadline and at most one poll
    later; the polls it is given are enough. *)
Theorem waitForApplySlot_gives_up io ops d w :
  0 <= d → m_applying (mem w) = true →
  ∃ w', quiet io ops (waitForApplySlot d) w = Some (false, w') ∧
    m_now (mem w) + d < m_now (mem w') <= m_now (mem w) + d + 50000000.
Proof.
  intros Hd Ha. unfold waitForApplySlot. cbn [mbind prog_bind call quiet enabled exec].
  assert (∀ deadline n w, m_applying (mem w) = true → m_now (mem w) <= deadline + 50000000 →
    deadline < m_now (mem w) + 50000000 * (Z.of_nat n - 1) →
    ∃ w', quiet io ops (poll_slot n deadline) w = Some (false, w') ∧
      deadline < m_now (mem w') <= deadline + 50000000) as Hpoll.
  { clear w Ha Hd. intros deadline. induction n as [|n IH]; intros w Ha Hle Hf; [lia|].
    cbn [poll_slot mbind prog_bind call quiet enabled exec]. rewrite Ha.
    cbn [mbind prog_bind call quiet enabled exec].
    destruct (deadline <? m_now (mem w)) eqn:E; breflect.
    { exists w. split; [done|lia]. }
    cbn [mbind prog_bind call quiet enabled exec]. apply IH; cbn; [done|lia|lia]. }
  apply (Hpoll (m_now (mem w) + d) (slot_polls d) w); [done|lia|].
  unfold slot_polls. pose proof (Z.div_mod d 50000000 ltac:(lia)).
  pose proof (Z.mod_pos_bound d 50000000 ltac:(lia)).
  pose proof (Z.div_pos d 50000000 Hd ltac:(lia)). rewrite Z2Nat.id by lia. lia.
Qed.

Lemma waitForApplySlot_gives_up_witness :
  ∃ w', quiet io_fine [] (waitForApplySlot restoreSlotWait) (set_applying true (configured true))
        = Some (false, w') ∧
    1000 + restoreSlotWait < m_now (mem w') <= 1000 + restoreSlotWait + 50000000.
Proof.
  apply (waitForApplySlot_gives_up io_fine [] restoreSlotWait (set_applying true (configured true)));
    [vm_compute; discriminate|reflexivity].
Defined.

(** With the window switched off, a marker that an earlier cycle could not
    remove outlives an apply that is final: [web_only] is confirmed with its
    marker left behind, an apply of [ssh_only] without a window follows, and the
    next start takes that final apply back. *)
Theorem final_apply_undone_by_stale_marker :
  let x := mkIdle web_only ssh_only ssh_only config_plain (Some 0) UFMissing FFMissing []
    (NewAcceptance 60000000000) (Some 0) options_off networks_plain
    (mkAcceptanceConfig false 60) [] None 1000 (table_of web_only) in
  ∃ w1 w2,
    quiet io_fine [] (Apply "panic" "web") (died (Some config_plain) x) = Some (Ok tt, w1) ∧
    Action <$> head (d_audit (disk w1)) = Some "apply_accepted" ∧
    kernel w1 = table_of ssh_only ∧ Current <$> stored w1 = Some ssh_only ∧
    quiet io_fine [] (RestoreCurrent "daemon start") (restart true (m_cfg (mem w1)) w1) = Some (Ok tt, w2) ∧
    kernel w2 = table_of web_only ∧ Current <$> stored w2 = Some web_only.
Proof.
  eexists _, _. split; [vm_compute; reflexivity|]. split; [reflexivity|]. split; [vm_compute; reflexivity|].
  split; [reflexivity|]. split; [vm_compute; reflexivity|]. split; vm_compute; reflexivity.
Qed.

Lemma Remaining_nonneg now a : 0 <= Remaining now a.
Proof. unfold Remaining. repeat case_match; breflect; lia. Qed.

Lemma ceil_seconds left :
  0 <= left →
  left <= (if 0 <? left then (left + 1000000000 - 1) / 1000000000 else 0) * 1000000000
  < left + 1000000000.
Proof.
  intros Hl. destruct (0 <? left) eqn:E; breflect; [|lia].
  pose proof (Z.div_mod (left + 1000000000 - 1) 1000000000 ltac:(lia)).
  pose proof (Z.mod_pos_bound (left + 1000000000 - 1) 1000000000 ltac:(lia)). lia.
Qed.

(** What the dashboard says is so.  [Status] reports nothing pending exactly
    when the staged rules and the live configuration describe the applied ones
    (up to what the previews ignore); it reports the rules live exactly when the
    kernel filters; and the seconds it counts down are the remaining time of the
    window rounded up. *)
Theorem Status_reports_what_is `{ET : !ErrorText} ops w s c :
  stored w = Some s → d_applied (disk w) = AFDoc c →
  let cfg := mkAppliedConfig (cfg_firewall (m_cfg (mem w))) (cfg_network (m_cfg (mem w))) in
  let left := Remaining (m_now (mem w)) (m_acceptance (mem w)) in
  ∃ st, quiet io_fine ops Status w = Some (st, w) ∧
    (HasPending st = false ↔
       view (Current s) = view (Staged s) ∧ drop_legacy c = drop_legacy cfg) ∧
    Active st = live (kernel w) ∧
    StatusPanic st = d_panic (disk w) ∧
    left <= AcceptanceRemaining st * 1000000000 < left + 1000000000 ∧
    (AcceptanceReason st ≠ "" → StatusAcceptance st = AcceptanceRolledBack).
Proof.
  intros Hs Hc cfg left.
  set (pending := bool_decide (DiffRules (Current s) (Staged s) ≠ []) ||
                  bool_decide (DiffConfig c cfg ≠ [])).
  set (acc := m_acceptance (mem w)).
  exists (mkFirewallStatus (live (kernel w)) (status acc) pending (m_lastApply (mem w))
    (d_panic (disk w)) (if 0 <? left then (left + 1000000000 - 1) / 1000000000 else 0)
    (if bool_decide (status acc = AcceptanceRolledBack) then reason acc else "")
    (Enabled (cfg_acceptance (m_cfg (mem w))))).
  split.
  { match goal with |- _ = Some (?st, _) =>
      assert (ends io_fine ops Status w (λ st' w', st' = st ∧ w' = w)) as (? & ? & Hq & -> & ->)
    end; [|done].
    unfold stored in Hs. subst pending cfg left acc.
    destruct w as [[f um pa ap la us fe au] [acc ag mu ml cf bb fc t] k].
    cbn [disk d_rules d_applied] in Hs, Hc. subst.
    destruct f; [done|done|]. simplify_eq. cbn [mem m_acceptance]. repeat qstep. qexpose.
    destruct (bool_decide (status acc = AcceptanceRolledBack)); repeat qstep; done. }
  split_and!; cbn [HasPending Active StatusPanic AcceptanceRemaining AcceptanceReason
    StatusAcceptance]; try done.
  - subst pending. rewrite orb_false_iff, !bool_decide_eq_false, <- DiffRules_nil, <- DiffConfig_nil.
    destruct (DiffRules _ _), (DiffConfig _ _); naive_solver.
  - by apply ceil_seconds, Remaining_nonneg.
  - by apply ceil_seconds, Remaining_nonneg.
  - by case_bool_decide.
Qed.

Lemma Status_reports_what_is_witness :
  ∃ st, quiet io_fine [] Status (configured true) = Some (st, configured true) ∧
        HasPending st = true ∧ Active st = true.
Proof.
  destruct (Status_reports_what_is [] (configured true)
    (mkRulesState ssh_only web_only ssh_only) config_plain eq_refl eq_refl)
    as (st & Hq & Hp & Ha & _).
  exists st. split; [exact Hq|]. split; [|exact Ha].
  destruct (HasPending st); [reflexivity|]. destruct (proj1 Hp eq_refl) as [Hv _].
  vm_compute in Hv. discriminate.
Defined.
