(* ===== verification/GoCrypto.v ===== *)
(** * Hashes and encodings

    The part of Go's [crypto/sha1], [crypto/sha256], [crypto/hmac],
    [encoding/base32] and [encoding/base64] the web process's sign-in uses.
    A byte is a [Z] in [0, 256), a [uint32] a [Z] in [0, 2^32).  Everything is
    executable, and the test vectors of RFC 3174, FIPS 180-4 and RFC 2202 are
    checked below. *)
From S2P Require Import Prelude GoStrings GoNet.

Local Open Scope Z_scope.

Definition byte_vals (s : string) : list Z := map byte_val (bytes s).
Definition val_byte (b : Z) : ascii := mkbyte (Z.to_nat b).
Definition string_of_vals (l : list Z) : string := of_bytes (map val_byte l).

Definition is_byte (b : Z) : Prop := 0 <= b < 256.

(** ** [uint32] arithmetic *)
Definition w32 (x : Z) : Z := x mod 2 ^ 32.
Definition add32 (a b : Z) : Z := w32 (a + b).
Definition not32 (a : Z) : Z := Z.lxor a (2 ^ 32 - 1).
Definition rotl32 (n x : Z) : Z := w32 (Z.lor (Z.shiftl x n) (Z.shiftr x (32 - n))).
Definition rotr32 (n x : Z) : Z := rotl32 (32 - n) x.

(** [binary.BigEndian.PutUint32] and [PutUint64]. *)
Fixpoint put_be (n : nat) (v : Z) : list Z :=
  match n with
  | O => []
  | S n => put_be n (v / 256) ++ [v mod 256]
  end.

Lemma length_put_be n v : length (put_be n v) = n.
Proof. revert v; induction n as [|n IH]; intros v; simpl; [done|]. rewrite length_app, IH. simpl. lia. Qed.

Lemma put_be_bytes n v : Forall is_byte (put_be n v).
Proof.
  revert v; induction n as [|n IH]; intros v; simpl; [done|].
  apply Forall_app; split; [apply IH|]. constructor; [|done].
  unfold is_byte. pose proof (Z.mod_pos_bound v 256 ltac:(lia)). lia.
Qed.

(** ** Merkle-Damgård padding: 64-byte blocks, a big-endian bit length *)
Definition md_pad (m : list Z) : list Z :=
  let n := Z.of_nat (length m) in
  m ++ [0x80] ++ replicate (Z.to_nat ((55 - n) mod 64)) 0 ++ put_be 8 (8 * n).

(** The [n]-element blocks of [l]; a short last block is kept as it is. *)
Fixpoint blocks_aux {A} (fuel n : nat) (l : list A) : list (list A) :=
  match fuel, l with
  | O, _ | _, [] => []
  | S fuel, _ => take n l :: blocks_aux fuel n (drop n l)
  end.
Definition blocks {A} (n : nat) (l : list A) : list (list A) := blocks_aux (length l) n l.

Definition words32 (block : list Z) : list Z := map be_val (blocks 4 block).

(** The message schedule: [n] more words, each from the sixteen before it.
    The list is kept last word first. *)
Fixpoint schedule (next : list Z → Z) (n : nat) (ws : list Z) : list Z :=
  match n with
  | O => ws
  | S n => schedule next n (next ws :: ws)
  end.

Definition at_ (l : list Z) (i : nat) : Z := nth i l 0.

(** ** SHA-1 *)
Definition sha1_next (ws : list Z) : Z :=
  rotl32 1 (Z.lxor (Z.lxor (at_ ws 2) (at_ ws 7)) (Z.lxor (at_ ws 13) (at_ ws 15))).

Definition sha1_fk (t : nat) (b c d : Z) : Z * Z :=
  if (t <? 20)%nat then (Z.lor (Z.land b c) (Z.land (not32 b) d), 0x5A827999)
  else if (t <? 40)%nat then (Z.lxor (Z.lxor b c) d, 0x6ED9EBA1)
  else if (t <? 60)%nat then (Z.lor (Z.lor (Z.land b c) (Z.land b d)) (Z.land c d), 0x8F1BBCDC)
  else (Z.lxor (Z.lxor b c) d, 0xCA62C1D6).

Definition sha1_round (h : Z * Z * Z * Z * Z) (tw : nat * Z) : Z * Z * Z * Z * Z :=
  let '(a, b, c, d, e) := h in
  let '(f, k) := sha1_fk tw.1 b c d in
  (add32 (add32 (add32 (add32 (rotl32 5 a) f) e) tw.2) k, a, rotl32 30 b, c, d).

Definition sha1_block (h : list Z) (block : list Z) : list Z :=
  let ws := reverse (schedule sha1_next 64 (reverse (words32 block))) in
  let '(a, b, c, d, e) :=
    foldl sha1_round (at_ h 0, at_ h 1, at_ h 2, at_ h 3, at_ h 4) (zip (seq 0 80) ws) in
  zip_with add32 h [a; b; c; d; e].

Definition sha1_init : list Z := [0x67452301; 0xEFCDAB89; 0x98BADCFE; 0x10325476; 0xC3D2E1F0].

Definition sha1 (m : list Z) : list Z :=
  flat_map (put_be 4) (foldl sha1_block sha1_init (blocks 64 (md_pad m))).

(** ** SHA-256 *)

(** The constants, as FIPS 180-4 defines them: the first 32 bits of the
    fractional parts of the cube roots of the first 64 primes, and of the
    square roots of the first eight. *)
Definition is_prime (p : Z) : bool := forallb (λ d, negb (p mod d =? 0)) (seqZ 2 (p - 2)).
Definition primes (n : Z) : list Z := List.filter is_prime (seqZ 2 (n - 1)).
Fixpoint cbrt (bits : nat) (x r : Z) : Z :=
  match bits with
  | O => r
  | S k => cbrt k x (if (r + 2 ^ Z.of_nat k) ^ 3 <=? x then r + 2 ^ Z.of_nat k else r)
  end.
Definition sha256_k : list Z := Eval vm_compute in map (λ p, cbrt 36 (p * 2 ^ 96) 0 mod 2 ^ 32) (primes 311).

Definition xor3 (a b c : Z) : Z := Z.lxor (Z.lxor a b) c.

Definition sha256_next (ws : list Z) : Z :=
  let v1 := at_ ws 1 in
  let v2 := at_ ws 14 in
  let t1 := xor3 (rotr32 17 v1) (rotr32 19 v1) (Z.shiftr v1 10) in
  let t2 := xor3 (rotr32 7 v2) (rotr32 18 v2) (Z.shiftr v2 3) in
  add32 (add32 (add32 t1 (at_ ws 6)) t2) (at_ ws 15).

Definition sha256_round (v : Z * Z * Z * Z * (Z * Z * Z * Z)) (kw : Z * Z) :
    Z * Z * Z * Z * (Z * Z * Z * Z) :=
  let '(a, b, c, d, (e, f, g, h)) := v in
  let t1 := add32 (add32 (add32 (add32 h (xor3 (rotr32 6 e) (rotr32 11 e) (rotr32 25 e)))
                                (Z.lxor (Z.land e f) (Z.land (not32 e) g))) kw.1) kw.2 in
  let t2 := add32 (xor3 (rotr32 2 a) (rotr32 13 a) (rotr32 22 a))
                  (xor3 (Z.land a b) (Z.land a c) (Z.land b c)) in
  (add32 t1 t2, a, b, c, (add32 d t1, e, f, g)).

Definition sha256_block (h : list Z) (block : list Z) : list Z :=
  let ws := reverse (schedule sha256_next 48 (reverse (words32 block))) in
  let '(a, b, c, d, (e, f, g, i)) :=
    foldl sha256_round (at_ h 0, at_ h 1, at_ h 2, at_ h 3, (at_ h 4, at_ h 5, at_ h 6, at_ h 7))
      (zip sha256_k ws) in
  zip_with add32 h [a; b; c; d; e; f; g; i].

Definition sha256_init : list Z := Eval vm_compute in map (λ p, Z.sqrt (p * 2 ^ 64) mod 2 ^ 32) (primes 19).

Definition sha256 (m : list Z) : list Z :=
  flat_map (put_be 4) (foldl sha256_block sha256_init (blocks 64 (md_pad m))).

(** ** HMAC over a hash with 64-byte blocks *)
Definition hmac (hash : list Z → list Z) (key m : list Z) : list Z :=
  let key := if (64 <? length key)%nat then hash key else key in
  let key := key ++ replicate (64 - length key) 0 in
  hash (map (Z.lxor 0x5c) key ++ hash (map (Z.lxor 0x36) key ++ m)).

(** The lengths of the digests, which [hotp] indexes into. *)
Lemma length_foldl_block (f : list Z → list Z → list Z) n bs h :
  (∀ h b, length h = n → length (f h b) = n) → length h = n → length (foldl f h bs) = n.
Proof. intros Hf. revert h; induction bs as [|b bs IH]; intros h Hh; simpl; [done|]. apply IH. auto. Qed.

Lemma length_flat_put_be n l : length (flat_map (put_be n) l) = (n * length l)%nat.
Proof. induction l; simpl; [lia|]. rewrite length_app, length_put_be. lia. Qed.

Lemma length_sha1 m : length (sha1 m) = 20%nat.
Proof.
  unfold sha1. rewrite length_flat_put_be, (length_foldl_block _ 5); [done| |done].
  intros h b Hh. unfold sha1_block. destruct (foldl _ _ _) as [[[[??]?]?]?].
  rewrite length_zip_with, Hh. done.
Qed.

Lemma sha1_bytes m : Forall is_byte (sha1 m).
Proof.
  unfold sha1. apply Forall_flat_map. apply Forall_true. intros w. apply put_be_bytes.
Qed.

(** ** base64 and base32, no padding *)
Definition bits_of (n : nat) (v : Z) : list bool :=
  map (λ i, Z.testbit v (Z.of_nat (n - 1 - i))) (seq 0 n).
Definition bits_val (l : list bool) : Z := foldl (λ a (b : bool), 2 * a + (if b then 1 else 0)) 0 l.

Definition base64_alphabet : list ascii :=
  bytes "ABCDEFGHIJKLMNOPQRSTUVWXYZabcdefghijklmnopqrstuvwxyz0123456789+/".
Definition base32_alphabet : list ascii := bytes "ABCDEFGHIJKLMNOPQRSTUVWXYZ234567".

(** [EncodeToString]: groups of [k] bits, the last one filled up with zeros. *)
Definition encode_bits (k : nat) (alphabet : list ascii) (l : list Z) : string :=
  of_bytes (map (λ g, nth (Z.to_nat (bits_val (g ++ replicate (k - length g) false))) alphabet "A"%char)
                (blocks k (flat_map (bits_of 8) l))).

Definition RawStdEncoding_EncodeToString (l : list Z) : string := encode_bits 6 base64_alphabet l.
Definition base32_EncodeToString (l : list Z) : string := encode_bits 5 base32_alphabet l.

Example sha1_abc : RawStdEncoding_EncodeToString (sha1 (byte_vals "abc")) = "qZk+NkcGgWq6PiVxeFDCbJzQ2J0"%string.
Proof. vm_compute. reflexivity. Qed.
Example sha256_abc :
  RawStdEncoding_EncodeToString (sha256 (byte_vals "abc")) = "ungWv48Bz+pBQUDeXa4iI7ADYaOWF3qctBD/YfIAFa0"%string.
Proof. vm_compute. reflexivity. Qed.
Example hmac_sha1_rfc2202 :
  RawStdEncoding_EncodeToString (hmac sha1 (byte_vals "Jefe") (byte_vals "what do ya want for nothing?"))
  = "7/zfauXrL6LSdBbV8YTfnCWafHk"%string.
Proof. vm_compute. reflexivity. Qed.
