(* ===== verification/GoRunes.v ===== *)
(** * Runes

    Go's [unicode/utf8] decoding, as [range] over a string performs it, the
    encoder, [strings.ToUpper], and base32 decoding: what the sign-in needs to
    read a code or a key a person typed.  The Unicode case table is a
    parameter, the one place the standard library's data is not spelled out. *)
From S2P Require Import Prelude GoStrings GoNet FeedIDs GoCrypto.

Local Open Scope Z_scope.

Definition RuneError : Z := 0xFFFD.

(** A continuation byte, in the range the first byte allows. *)
Definition in_range (lo hi : Z) (c : ascii) : bool := (lo <=? byte_val c) && (byte_val c <=? hi).
Definition cont (c : ascii) : bool := in_range 0x80 0xBF c.
Definition low6 (c : ascii) : Z := Z.land (byte_val c) 0x3F.

(** [utf8.DecodeRune] on a non-empty string: the rune and the rest.  A byte
    that does not start a valid encoding is one [RuneError]. *)
Definition decode_rune (c : ascii) (l : list ascii) : Z * list ascii :=
  let b := byte_val c in
  if b <? 0x80 then (b, l)
  else if in_range 0xC2 0xDF c then
    match l with
    | c1 :: r => if cont c1 then (Z.lor (Z.shiftl (Z.land b 0x1F) 6) (low6 c1), r) else (RuneError, l)
    | _ => (RuneError, l)
    end
  else if in_range 0xE0 0xEF c then
    let lo := if b =? 0xE0 then 0xA0 else 0x80 in
    let hi := if b =? 0xED then 0x9F else 0xBF in
    match l with
    | c1 :: c2 :: r =>
        if in_range lo hi c1 && cont c2
        then (Z.lor (Z.shiftl (Z.land b 0x0F) 12) (Z.lor (Z.shiftl (low6 c1) 6) (low6 c2)), r)
        else (RuneError, l)
    | _ => (RuneError, l)
    end
  else if in_range 0xF0 0xF4 c then
    let lo := if b =? 0xF0 then 0x90 else 0x80 in
    let hi := if b =? 0xF4 then 0x8F else 0xBF in
    match l with
    | c1 :: c2 :: c3 :: r =>
        if in_range lo hi c1 && cont c2 && cont c3
        then (Z.lor (Z.shiftl (Z.land b 0x07) 18)
                    (Z.lor (Z.shiftl (low6 c1) 12) (Z.lor (Z.shiftl (low6 c2) 6) (low6 c3))), r)
        else (RuneError, l)
    | _ => (RuneError, l)
    end
  else (RuneError, l).

(** [for _, r := range s]; at most one rune per byte. *)
Fixpoint runes_aux (fuel : nat) (l : list ascii) : list Z :=
  match fuel, l with
  | S fuel, c :: l => let '(r, l) := decode_rune c l in r :: runes_aux fuel l
  | _, _ => []
  end.
Definition runes (s : string) : list Z := runes_aux (length (bytes s)) (bytes s).

(** [utf8.AppendRune]: a surrogate or a value past U+10FFFF is [RuneError]. *)
Definition byte_of (z : Z) : ascii := mkbyte (Z.to_nat z).
Definition append_rune (r : Z) : list ascii :=
  let r := if (r <? 0) || (0x10FFFF <? r) || ((0xD800 <=? r) && (r <=? 0xDFFF)) then RuneError else r in
  let tail (n : Z) := byte_of (Z.lor 0x80 (Z.land (Z.shiftr r n) 0x3F)) in
  if r <=? 0x7F then [byte_of r]
  else if r <=? 0x7FF then [byte_of (Z.lor 0xC0 (Z.shiftr r 6)); tail 0]
  else if r <=? 0xFFFF then [byte_of (Z.lor 0xE0 (Z.shiftr r 12)); tail 6; tail 0]
  else [byte_of (Z.lor 0xF0 (Z.shiftr r 18)); tail 12; tail 6; tail 0].

Definition is_ascii (s : string) : bool := forallb (λ c, byte_val c <? 0x80) (bytes s).

(** [strings.ToUpper]: bytewise on an ASCII string, otherwise rune by rune
    through [unicode.ToUpper], the parameter [up]. *)
Definition ToUpperU (up : Z → Z) (s : string) : string :=
  if is_ascii s then ToUpper s else of_bytes (flat_map (λ r, append_rune (up r)) (runes s)).

(** A case table for examples: ASCII, and the two runes whose capitals are
    ASCII letters. *)
Definition up_sample (r : Z) : Z :=
  if (97 <=? r) && (r <=? 122) then r - 32
  else if r =? 0x131 then 73 else if r =? 0x17F then 83 else r.

Example runes_umlaut : runes "aäß" = [97; 0xE4; 0xDF].
Proof. vm_compute. reflexivity. Qed.
Example runes_invalid : runes (of_bytes (map mkbyte [0xC0; 0x41; 0xE2; 0x82]%nat)) = [RuneError; 0x41; RuneError; RuneError].
Proof. vm_compute. reflexivity. Qed.
Example upper_dotless : ToUpperU up_sample (of_bytes (append_rune 0x131)) = "I"%string.
Proof. vm_compute. reflexivity. Qed.

(** ** base32, no padding

    [base32.StdEncoding.WithPadding(NoPadding).DecodeString]: line breaks are
    dropped, any other byte outside the alphabet is an error, and a last
    quantum of 1, 3 or 6 symbols decodes to nothing. *)
Definition base32_val (c : ascii) : option Z :=
  (λ p, Z.of_nat p.1) <$> list_find (λ a, a = c) base32_alphabet.

Definition quantum_len (n : nat) : nat :=
  match n with
  | 8 => 5 | 7 => 4 | 5 => 3 | 4 => 2 | 2 => 1 | _ => 0
  end%nat.

Definition decode_quantum (g : list Z) : list Z :=
  take (quantum_len (length g)) (map bits_val (blocks 8 (flat_map (bits_of 5) g))).

Definition newline (c : ascii) : Prop := byte_val c = 10 ∨ byte_val c = 13.
#[global] Instance newline_dec c : Decision (newline c) := _.

Definition base32_DecodeString (s : string) : option (list Z) :=
  vs ← mapM base32_val (filter (λ c, ¬ newline c) (bytes s));
  Some (flat_map decode_quantum (blocks 8 vs)).

(** ** Decoding inverts encoding *)

Section blocks.
Context {A : Type} (n : nat).
Hypothesis n_pos : (0 < n)%nat.

Lemma blocks_aux_fuel f f' (l : list A) :
  (length l ≤ f)%nat → (length l ≤ f')%nat → blocks_aux f n l = blocks_aux f' n l.
Proof using n_pos.
  revert f' l; induction f as [|f IH]; intros f' l H H'.
  - destruct l; [|simpl in H; lia]. by destruct f'.
  - destruct l as [|x l]; [by destruct f'|]. destruct f' as [|f']; [simpl in H'; lia|]. simpl.
    f_equal. apply IH; rewrite length_drop; simpl in *; lia.
Qed.

Lemma blocks_app (a b : list A) : length a = n → blocks n (a ++ b) = a :: blocks n b.
Proof using n_pos.
  intros Ha. unfold blocks. destruct (a ++ b) as [|x l] eqn:E.
  - apply app_eq_nil in E as [-> ->]. simpl in Ha. lia.
  - pose proof (f_equal length E) as HE. rewrite length_app in HE. simpl in HE.
    simpl length. cbn [blocks_aux]. rewrite <- E. rewrite (take_app_length' a b n) by done.
    rewrite (drop_app_length' a b n) by done. f_equal. apply blocks_aux_fuel; lia.
Qed.
End blocks.

Lemma bits_of_val5 g : length g = 5%nat → bits_of 5 (bits_val g) = g.
Proof.
  intros H. do 5 (destruct g as [|[] g]; try discriminate H); destruct g; try discriminate H; reflexivity.
Qed.

Lemma bits_val_of8 b : is_byte b → bits_val (bits_of 8 b) = b.
Proof.
  intros H. assert (b ∈ map Z.of_nat (seq 0 256)) as Hin.
  { apply list_elem_of_fmap. exists (Z.to_nat b). split; [unfold is_byte in H; lia|].
    apply elem_of_seq. unfold is_byte in H. lia. }
  assert (Forall (λ b, bits_val (bits_of 8 b) = b) (map Z.of_nat (seq 0 256))) as HF.
  { apply (bool_decide_eq_true_1 _). vm_compute. reflexivity. }
  by apply (proj1 (Forall_forall _ _) HF).
Qed.

Lemma bits_val5_bound g : length g = 5%nat → 0 <= bits_val g < 32.
Proof.
  intros H. do 5 (destruct g as [|[] g]; try discriminate H); destruct g; try discriminate H; vm_compute; split; congruence.
Qed.

(** The 5-bit groups of a byte string and their values. *)
Definition groups5 (l : list Z) : list (list bool) :=
  map (λ g, g ++ replicate (5 - length g) false) (blocks 5 (flat_map (bits_of 8) l)).
Definition vals5 (l : list Z) : list Z := map bits_val (groups5 l).

Lemma bits8 b : ∃ a0 a1 a2 a3 a4 a5 a6 a7, bits_of 8 b = [a0; a1; a2; a3; a4; a5; a6; a7].
Proof. do 8 eexists. reflexivity. Qed.

Ltac expose_bits b := let H := fresh "Hb" in
  destruct (bits8 b) as (?&?&?&?&?&?&?&?&H).

(** Five bytes are one full quantum. *)
Lemma groups5_quantum b1 b2 b3 b4 b5 l :
  ∃ q, length q = 8%nat ∧ Forall (λ g, length g = 5%nat) q ∧
    concat q = flat_map (bits_of 8) [b1; b2; b3; b4; b5] ∧
    groups5 (b1 :: b2 :: b3 :: b4 :: b5 :: l) = q ++ groups5 l.
Proof.
  expose_bits b1. expose_bits b2. expose_bits b3. expose_bits b4. expose_bits b5.
  unfold groups5. cbn [flat_map]. rewrite Hb, Hb0, Hb1, Hb2, Hb3.
  set (t := flat_map _ l). cbn [app].
  match goal with |- context [blocks 5 (?a::?b::?c::?d::?e::?a1::?b1::?c1::?d1::?e1::?a2::?b2::?c2::?d2::?e2::
      ?a3::?b3::?c3::?d3::?e3::?a4::?b4::?c4::?d4::?e4::?a5::?b5::?c5::?d5::?e5::?a6::?b6::?c6::?d6::?e6::
      ?a7::?b7::?c7::?d7::?e7::t)] =>
    exists [[a;b;c;d;e];[a1;b1;c1;d1;e1];[a2;b2;c2;d2;e2];[a3;b3;c3;d3;e3];
            [a4;b4;c4;d4;e4];[a5;b5;c5;d5;e5];[a6;b6;c6;d6;e6];[a7;b7;c7;d7;e7]];
    change (a::b::c::d::e::a1::b1::c1::d1::e1::a2::b2::c2::d2::e2::
      a3::b3::c3::d3::e3::a4::b4::c4::d4::e4::a5::b5::c5::d5::e5::a6::b6::c6::d6::e6::
      a7::b7::c7::d7::e7::t) with
      ([a;b;c;d;e] ++ ([a1;b1;c1;d1;e1] ++ ([a2;b2;c2;d2;e2] ++ ([a3;b3;c3;d3;e3] ++ ([a4;b4;c4;d4;e4] ++
       ([a5;b5;c5;d5;e5] ++ ([a6;b6;c6;d6;e6] ++ ([a7;b7;c7;d7;e7] ++ t))))))))
  end.
  split; [done|]. split; [by repeat constructor|]. split; [done|].
  rewrite !blocks_app by (done || lia). done.
Qed.

Lemma decode_full_quantum (q : list (list bool)) bs :
  length q = 8%nat → Forall (λ g, length g = 5%nat) q → Forall is_byte bs → length bs = 5%nat →
  concat q = flat_map (bits_of 8) bs → decode_quantum (map bits_val q) = bs.
Proof.
  intros Hq Hg Hb Hl Hc. unfold decode_quantum. rewrite length_map, Hq.
  assert (flat_map (bits_of 5) (map bits_val q) = concat q) as ->.
  { clear Hq Hc. induction Hg as [|g q Hg _ IH]; [done|].
    cbn [map flat_map concat]. by rewrite IH, bits_of_val5. }
  rewrite Hc. clear Hc Hq Hg.
  do 5 (destruct bs as [|? bs]; [discriminate Hl|]). destruct bs; [|discriminate Hl].
  cbn [flat_map]. rewrite !blocks_app by (done || lia). cbn [app].
  repeat match goal with H : Forall is_byte (_ :: _) |- _ => apply Forall_cons in H as [? H] end.
  cbn [map take quantum_len blocks blocks_aux length]. by rewrite !bits_val_of8.
Qed.

(** The last, partial quantum. *)
Lemma decode_short l : Forall is_byte l → (length l < 5)%nat →
  flat_map decode_quantum (blocks 8 (vals5 l)) = l ∧ Forall (λ g, length g = 5%nat) (groups5 l).
Proof.
  intros Hl Hn. unfold vals5, groups5.
  destruct l as [|b1 l]; [by split|]. expose_bits b1.
  destruct l as [|b2 l]; [|expose_bits b2; destruct l as [|b3 l]; [|expose_bits b3;
    destruct l as [|b4 l]; [|expose_bits b4; destruct l; [|simpl in Hn; lia]]]];
  repeat match goal with H : Forall is_byte (_ :: _) |- _ => apply Forall_cons in H as [? H] end;
  cbn [flat_map]; repeat match goal with H : bits_of 8 ?b = _ |- _ => rewrite H end;
  (split; [|by repeat constructor]);
  cbn -[bits_val bits_of]; unfold decode_quantum; cbn -[bits_val bits_of];
  rewrite ?bits_of_val5 by done; cbn -[bits_val bits_of];
  repeat match goal with H : bits_of 8 ?b = ?x |- context [bits_val ?x] =>
    replace (bits_val x) with b by (rewrite <- H; symmetry; by apply bits_val_of8) end;
  done.
Qed.

Lemma vals5_decode l : Forall is_byte l →
  flat_map decode_quantum (blocks 8 (vals5 l)) = l ∧ Forall (λ g, length g = 5%nat) (groups5 l).
Proof.
  remember (length l) as n eqn:Hn. assert (length l ≤ n)%nat as Hle by lia. clear Hn.
  revert l Hle. induction n as [n IH] using lt_wf_ind. intros l Hle Hb.
  destruct (decide (length l < 5)%nat); [by apply decode_short|].
  do 5 (destruct l as [|? l]; [simpl in *; lia|]).
  destruct (groups5_quantum z z0 z1 z2 z3 l) as (q & Hq & Hg & Hc & HE).
  repeat match goal with H : Forall is_byte (_ :: _) |- _ => apply Forall_cons in H as [? H] end.
  simpl in Hle. edestruct (IH (length l)) as [IH1 IH2]; [lia|done|done|].
  unfold vals5. rewrite HE, map_app. split; [|by apply Forall_app].
  rewrite (blocks_app 8) by (rewrite ?length_map; lia). cbn [flat_map].
  fold (vals5 l). rewrite IH1.
  rewrite (decode_full_quantum q [z; z0; z1; z2; z3]) by (done || by rewrite !Forall_cons). done.
Qed.

Lemma base32_symbol v : 0 <= v < 32 →
  let c := nth (Z.to_nat v) base32_alphabet "A"%char in
  base32_val c = Some v ∧ ¬ newline c ∧ upper c = c ∧ byte_val c < 0x80 ∧ c ∉ [" "; "-"; "="]%char.
Proof.
  intros H. assert (v ∈ map Z.of_nat (seq 0 32)) as Hin.
  { apply list_elem_of_fmap. exists (Z.to_nat v). split; [lia|]. apply elem_of_seq. lia. }
  clear H. revert v Hin. apply Forall_forall. apply (bool_decide_eq_true_1 _). vm_compute. reflexivity.
Qed.
