(* ===== verification/GoJSON.v ===== *)
(** * JSON

    What [encoding/json.Unmarshal] does with a document: the scanner's
    grammar, the nesting it allows, and the strings with their escapes and
    their repair of bad UTF-8.  The result is the tree; what a Go type makes
    of a tree is the caller's ([field], [set_string]), as the decoder does it:
    a field is found by its name, exactly or with the case folded, a later
    one overwrites, [null] leaves what is there, a value of another kind is an
    error that is reported when the whole document has been decoded. *)
From S2P Require Import Prelude GoStrings GoNet GoCrypto GoRunes.

Local Open Scope Z_scope.

Inductive json :=
| JNull
| JBool (b : bool)
| JNumber (lit : string)
| JString (s : string)
| JArray (l : list json)
| JObject (l : list (string * json)).

(** ** The scanner *)

Definition is_ws (c : ascii) : bool := let b := byte_val c in (b =? 32) || (b =? 9) || (b =? 13) || (b =? 10).
Fixpoint skip_ws (l : list ascii) : list ascii :=
  match l with
  | c :: r => if is_ws c then skip_ws r else l
  | [] => []
  end.

Fixpoint digits_run (l : list ascii) : list ascii * list ascii :=
  match l with
  | c :: r => if is_digit c then let '(d, r) := digits_run r in (c :: d, r) else ([], l)
  | [] => ([], [])
  end.

(** One digit or more. *)
Definition digits1 (l : list ascii) : option (list ascii * list ascii) :=
  match digits_run l with ([], _) => None | x => Some x end.

(** The rest after the byte [c]. *)
Definition eat (c : ascii) (l : list ascii) : option (list ascii) :=
  match l with
  | x :: r => if Ascii.eqb x c then Some r else None
  | [] => None
  end.

Definition number_frac (l : list ascii) : option (list ascii * list ascii) :=
  match eat "." l with
  | Some r => '(d, r) ← digits1 r; Some ("."%char :: d, r)
  | None => Some ([], l)
  end.
Definition number_exp (l : list ascii) : option (list ascii * list ascii) :=
  match l with
  | c :: r =>
      if Ascii.eqb c "e" || Ascii.eqb c "E" then
        let '(s, r) := match r with
                       | c' :: r' => if Ascii.eqb c' "+" || Ascii.eqb c' "-" then ([c'], r') else ([], r)
                       | [] => ([], [])
                       end in
        '(d, r) ← digits1 r; Some (c :: s ++ d, r)
      else Some ([], l)
  | [] => Some ([], [])
  end.
Definition number (l : list ascii) : option (list ascii * list ascii) :=
  let '(m, l) := match eat "-" l with Some r => (["-"%char], r) | None => ([], l) end in
  '(i, r) ← match eat "0" l with
            | Some r => Some (["0"%char], r)
            | None => digits1 l
            end;
  '(f, r) ← number_frac r;
  '(e, r) ← number_exp r;
  Some (m ++ i ++ f ++ e, r).

Definition dquote : ascii := mkbyte 34.
Definition hex (c : ascii) : bool := match hex_digit c with Some _ => true | None => false end.

(** A string after its opening quote: what is between the quotes, and the rest. *)
Fixpoint string_body (l : list ascii) : option (list ascii * list ascii) :=
  match l with
  | [] => None
  | c :: r =>
      if Ascii.eqb c dquote then Some ([], r)
      else if Ascii.eqb c "\" then
        match r with
        | [] => None
        | e :: r =>
            if Ascii.eqb e "u" then
              match r with
              | h1 :: h2 :: h3 :: h4 :: r =>
                  if hex h1 && hex h2 && hex h3 && hex h4
                  then '(b, r) ← string_body r; Some (c :: e :: h1 :: h2 :: h3 :: h4 :: b, r)
                  else None
              | _ => None
              end
            else if existsb (Ascii.eqb e) (dquote :: bytes "bfnrt\/")
            then '(b, r) ← string_body r; Some (c :: e :: b, r)
            else None
        end
      else if byte_val c <? 0x20 then None
      else '(b, r) ← string_body r; Some (c :: b, r)
  end.

Definition is_surrogate (r : Z) : bool := (0xD800 <=? r) && (r <? 0xE000).
(** [utf16.DecodeRune] *)
Definition utf16_pair (r1 r2 : Z) : Z :=
  if (0xD800 <=? r1) && (r1 <? 0xDC00) && (0xDC00 <=? r2) && (r2 <? 0xE000)
  then Z.lor (Z.shiftl (r1 - 0xD800) 10) (r2 - 0xDC00) + 0x10000
  else RuneError.
Definition hex4 (h1 h2 h3 h4 : ascii) : Z :=
  let v c := default 0 (hex_digit c) in v h1 * 4096 + v h2 * 256 + v h3 * 16 + v h4.
(** [getu4] *)
Definition getu4 (l : list ascii) : option (Z * list ascii) :=
  match l with
  | a :: u :: h1 :: h2 :: h3 :: h4 :: r =>
      if Ascii.eqb a "\" && Ascii.eqb u "u" && hex h1 && hex h2 && hex h3 && hex h4 then Some (hex4 h1 h2 h3 h4, r) else None
  | _ => None
  end.
Definition escaped (e : ascii) : ascii :=
  if Ascii.eqb e "b" then mkbyte 8 else if Ascii.eqb e "f" then mkbyte 12 else if Ascii.eqb e "n" then mkbyte 10
  else if Ascii.eqb e "r" then mkbyte 13 else if Ascii.eqb e "t" then mkbyte 9 else e.

(** [unquote], on a body the scanner accepted; at most one step per byte. *)
Fixpoint unquote (fuel : nat) (l : list ascii) : list ascii :=
  match fuel, l with
  | S fuel, c :: r =>
      if Ascii.eqb c "\" then
        match getu4 l with
        | Some (rr, r) =>
            if is_surrogate rr then
              match getu4 r with
              | Some (rr1, r') =>
                  let dec := utf16_pair rr rr1 in
                  if dec =? RuneError then append_rune RuneError ++ unquote fuel r else append_rune dec ++ unquote fuel r'
              | None => append_rune RuneError ++ unquote fuel r
              end
            else append_rune rr ++ unquote fuel r
        | None =>
            match r with
            | e :: r => escaped e :: unquote fuel r
            | [] => []
            end
        end
      else if byte_val c <? 0x80 then c :: unquote fuel r
      else let '(x, r) := decode_rune c r in append_rune x ++ unquote fuel r
  | _, _ => []
  end.

Definition string_lit (l : list ascii) : option (string * list ascii) :=
  '(b, r) ← string_body l; Some (of_bytes (unquote (length b) b), r).

Definition maxNestingDepth : Z := 10000.

(** The three words. *)
Definition word_lit (l : list ascii) : option (json * list ascii) :=
  match starts_with (bytes "true") l, starts_with (bytes "false") l, starts_with (bytes "null") l with
  | Some r, _, _ => Some (JBool true, r)
  | _, Some r, _ => Some (JBool false, r)
  | _, _, Some r => Some (JNull, r)
  | _, _, _ => None
  end.
Definition scalar (l : list ascii) : option (json * list ascii) :=
  match eat dquote l with
  | Some r => '(s, r) ← string_lit r; Some (JString s, r)
  | None =>
      match word_lit l with
      | Some x => Some x
      | None => '(n, r) ← number l; Some (JNumber (of_bytes n), r)
      end
  end.

(** A value, the members of an object after its brace and the elements of an
    array after its bracket. *)
Fixpoint value (fuel : nat) (depth : Z) (l : list ascii) : option (json * list ascii) :=
  match fuel with
  | O => None
  | S fuel =>
      let l := skip_ws l in
      match eat "{" l, eat "[" l with
      | Some r, _ =>
          if maxNestingDepth <? depth + 1 then None
          else match eat "}" (skip_ws r) with
               | Some r => Some (JObject [], r)
               | None => '(ms, r) ← members fuel (depth + 1) r; Some (JObject ms, r)
               end
      | None, Some r =>
          if maxNestingDepth <? depth + 1 then None
          else match eat "]" (skip_ws r) with
               | Some r => Some (JArray [], r)
               | None => '(vs, r) ← elements fuel (depth + 1) r; Some (JArray vs, r)
               end
      | None, None => scalar l
      end
  end
with members (fuel : nat) (depth : Z) (l : list ascii) : option (list (string * json) * list ascii) :=
  match fuel with
  | O => None
  | S fuel =>
      r ← eat dquote (skip_ws l);
      '(k, r) ← string_lit r;
      r ← eat ":" (skip_ws r);
      '(v, r) ← value fuel depth r;
      match eat "," (skip_ws r) with
      | Some r => '(ms, r) ← members fuel depth r; Some ((k, v) :: ms, r)
      | None => r ← eat "}" (skip_ws r); Some ([(k, v)], r)
      end
  end
with elements (fuel : nat) (depth : Z) (l : list ascii) : option (list json * list ascii) :=
  match fuel with
  | O => None
  | S fuel =>
      '(v, r) ← value fuel depth l;
      match eat "," (skip_ws r) with
      | Some r => '(vs, r) ← elements fuel depth r; Some (v :: vs, r)
      | None => r ← eat "]" (skip_ws r); Some ([v], r)
      end
  end.

(** Two steps for each byte. *)
Definition parse_fuel (l : list ascii) : nat := S (2 * length l).

Definition parse_json (l : list ascii) : option json :=
  '(v, r) ← value (parse_fuel l) 0 l;
  match skip_ws r with [] => Some v | _ => None end.

(** ** Decoding into a struct *)

(** [foldName]: ASCII letters in upper case; the only other characters that
    fold to an ASCII one are the long s and the Kelvin sign. *)
Fixpoint fold_name (l : list ascii) : list ascii :=
  match l with
  | [] => []
  | a :: r =>
      match r with
      | b :: r' =>
          if (byte_val a =? 0xC5) && (byte_val b =? 0xBF) then "S"%char :: fold_name r'
          else match r' with
               | c :: r'' =>
                   if (byte_val a =? 0xE2) && (byte_val b =? 0x84) && (byte_val c =? 0xAA) then "K"%char :: fold_name r''
                   else FeedIDs.upper a :: fold_name r
               | [] => FeedIDs.upper a :: fold_name r
               end
      | [] => [FeedIDs.upper a]
      end
  end.
Definition is_field (name key : string) : bool := bool_decide (fold_name (bytes key) = fold_name (bytes name)).

(** Decoding [v] into a string that holds [old]; [None] is the error. *)
Definition set_string (old : string) (v : json) : option string :=
  match v with
  | JNull => Some old
  | JString s => Some s
  | _ => None
  end.

(** Decoding an array into a slice of strings: its length and the memory
    behind it, which an element that is [null] leaves as it was. *)
Record string_slice := mkSlice { sl_len : nat; sl_mem : list string }.
Definition slice_elements (s : string_slice) : list string := take (sl_len s) (sl_mem s).

Fixpoint set_elements (vs : list json) (mem : list string) : option (list string) :=
  match vs with
  | [] => Some mem
  | v :: vs =>
      x ← set_string (default "" (head mem)) v;
      rest ← set_elements vs (tail mem);
      Some (x :: rest)
  end.
Definition set_slice (old : string_slice) (v : json) : option string_slice :=
  match v with
  | JNull | JArray [] => Some (mkSlice 0 [])
  | JArray vs => mem ← set_elements vs (sl_mem old); Some (mkSlice (length vs) mem)
  | _ => None
  end.

Definition quoted (s : string) : list ascii := map (λ c, if Ascii.eqb c "'" then dquote else c) (bytes s).

Example parse_json_ex :
  map (λ s, parse_json (quoted s))
    ["{'cidr':'1.10.16.0/20', 'n':[1,-0.5e+3,true , null]} "; "{'a':1,}"; "[ ]"; "01"; "-"; "'\u0041\ud800x\n\/'"; "'a"; "{} x"; "{'a' 1}";
     "'\x'"] =
  [Some (JObject [("cidr", JString "1.10.16.0/20"); ("n", JArray [JNumber "1"; JNumber "-0.5e+3"; JBool true; JNull])]);
   None; Some (JArray []); None; None;
   Some (JString (of_bytes ("A"%char :: map mkbyte [0xEF; 0xBF; 0xBD]%nat ++ ["x"%char; mkbyte 10; "/"%char])));
   None; None; None; None].
Proof. vm_compute. reflexivity. Qed.

Example pair_ex : parse_json (quoted "'\ud83d\ude00'") = Some (JString (of_bytes (map mkbyte [0xF0; 0x9F; 0x98; 0x80]%nat))).
Proof. vm_compute. reflexivity. Qed.

(** ** Every byte is read once

    What is left of a value is shorter, so two steps for each byte are enough:
    the parser's answer is the same under any greater fuel. *)

Lemma skip_ws_length l : (length (skip_ws l) <= length l)%nat.
Proof. induction l as [|c l IH]; [done|]. cbn. destruct (is_ws c); cbn; lia. Qed.
Lemma eat_Some c l r : eat c l = Some r → l = c :: r.
Proof. destruct l as [|x l]; [done|]. cbn. destruct (Ascii.eqb_spec x c); [|done]. by intros [= ->]; subst. Qed.
Lemma eat_ws c l r : eat c (skip_ws l) = Some r → (length r < length l)%nat.
Proof. intros H%eat_Some. pose proof (skip_ws_length l) as HL. rewrite H in HL. cbn in HL. lia. Qed.

Lemma digits_run_length l : (length (digits_run l).2 <= length l)%nat.
Proof. induction l as [|c l IH]; [done|]. cbn. destruct (is_digit c); [|done]. destruct (digits_run l). cbn in *. lia. Qed.
Lemma digits1_length l d r : digits1 l = Some (d, r) → (length r < length l)%nat.
Proof.
  unfold digits1. destruct l as [|c l]; [done|]. cbn. destruct (is_digit c); [|done].
  pose proof (digits_run_length l). destruct (digits_run l). cbn in *. intros [= <- <-]. lia.
Qed.
Lemma number_frac_length l d r : number_frac l = Some (d, r) → (length r <= length l)%nat.
Proof.
  unfold number_frac. destruct (eat "." l) as [r0|] eqn:E; [|by intros [= <- <-]]. apply eat_Some in E as ->.
  destruct (digits1 r0) as [[d1 r1]|] eqn:E; [|done]. apply digits1_length in E. intros [= <- <-]. cbn. lia.
Qed.
Lemma number_exp_length l d r : number_exp l = Some (d, r) → (length r <= length l)%nat.
Proof.
  unfold number_exp. destruct l as [|c l]; [by intros [= <- <-]|]. destruct (_ || _); [|by intros [= <- <-]].
  set (sr := match l with [] => _ | _ => _ end). assert (length sr.2 <= length l)%nat as Hs.
  { unfold sr. destruct l as [|c' l]; [done|]. destruct (_ || _); cbn; lia. }
  destruct sr as [s r1]. cbn in Hs. destruct (digits1 r1) as [[d1 r2]|] eqn:E; [|done].
  apply digits1_length in E. intros [= <- <-]. cbn. lia.
Qed.
Lemma number_length l n r : number l = Some (n, r) → (length r < length l)%nat.
Proof.
  unfold number. set (ml := match eat "-" l with Some _ => _ | None => _ end). assert (length ml.2 <= length l)%nat as Hm.
  { unfold ml. destruct (eat "-" l) as [r0|] eqn:E; [|done]. apply eat_Some in E as ->. cbn. lia. }
  destruct ml as [m l1]. cbn in Hm. set (ir := match eat "0" l1 with Some _ => _ | None => _ end).
  assert (∀ i r0, ir = Some (i, r0) → (length r0 < length l1)%nat) as Hi.
  { unfold ir. intros i r0. destruct (eat "0" l1) as [r1|] eqn:E; [|apply digits1_length].
    apply eat_Some in E as ->. intros [= <- <-]. cbn. lia. }
  destruct ir as [[i r1]|]; [|done]. specialize (Hi i r1 eq_refl). cbn [mbind option_bind].
  destruct (number_frac r1) as [[f r2]|] eqn:Ef; [|done]. apply number_frac_length in Ef. cbn [mbind option_bind].
  destruct (number_exp r2) as [[e r3]|] eqn:Ee; [|done]. apply number_exp_length in Ee. intros [= <- <-]. lia.
Qed.

Lemma string_body_length l b r : string_body l = Some (b, r) → (length b + length r < length l)%nat.
Proof.
  remember (length l) as n eqn:Hn. revert l b r Hn. induction n as [n IH] using lt_wf_ind. intros [|c l] b r ->; [done|].
  cbn [string_body length] in *.
  assert (∀ l' b r, (length l' <= length l)%nat → string_body l' = Some (b, r) → (length b + length r < length l')%nat) as IH'
    by (intros; eapply IH; [|done..]; lia).
  assert (∀ k l', (length l' + k <= length l)%nat → ∀ pre : list ascii, (length pre <= S k)%nat →
     ('(b, r) ← string_body l'; Some (pre ++ b, r)) = Some (b, r) → (length b + length r < S (length l))%nat) as Hk.
  { intros k l' Hl pre Hp. destruct (string_body l') as [[b1 r1]|] eqn:E; [|done]. apply IH' in E; [|lia].
    intros [= <- <-]. rewrite length_app. lia. }
  destruct (Ascii.eqb c dquote); [intros [= <- <-]; cbn; lia|].
  destruct (Ascii.eqb c "\"); [|destruct (byte_val c <? 0x20); [done|]; apply (Hk 0%nat l ltac:(lia) [c]); cbn; lia].
  destruct l as [|e l1]; [done|]. destruct (Ascii.eqb e "u").
  - destruct l1 as [|h1 [|h2 [|h3 [|h4 l2]]]]; try done. destruct (_ && _); [|done].
    apply (Hk 5%nat l2 ltac:(cbn; lia) [c; e; h1; h2; h3; h4]). cbn. lia.
  - destruct (existsb _ _); [|done]. apply (Hk 1%nat l1 ltac:(cbn; lia) [c; e]). cbn. lia.
Qed.
Lemma string_lit_length l s r : string_lit l = Some (s, r) → (length r < length l)%nat.
Proof.
  unfold string_lit. destruct (string_body l) as [[b r1]|] eqn:E; [|done]. apply string_body_length in E. intros [= <- <-]. lia.
Qed.

Lemma scalar_length l v r : scalar l = Some (v, r) → (length r < length l)%nat.
Proof.
  unfold scalar. destruct (eat dquote l) as [r0|] eqn:E.
  { apply eat_Some in E as ->. destruct (string_lit r0) as [[s r1]|] eqn:E; [|done]. apply string_lit_length in E.
    intros [= <- <-]. cbn. lia. }
  destruct (word_lit l) as [x|] eqn:Ew.
  - intros [= ->]. revert Ew. unfold word_lit. repeat case_match; try done; intros [= <- <-];
      match goal with H : starts_with _ _ = Some _ |- _ => apply starts_with_Some in H as -> end; rewrite length_app; cbn; lia.
  - destruct (number l) as [[n r1]|] eqn:En; [|done]. apply number_length in En. by intros [= <- <-].
Qed.

Lemma parse_shrinks f :
  (∀ d l v r, value f d l = Some (v, r) → (length r < length l)%nat) ∧
  (∀ d l v r, members f d l = Some (v, r) → (length r < length l)%nat) ∧
  (∀ d l v r, elements f d l = Some (v, r) → (length r < length l)%nat).
Proof.
  induction f as [|f (IHv & IHm & IHe)]; [done|]. split_and!; intros d l v r; cbn [value members elements].
  - cbv zeta. pose proof (skip_ws_length l) as HL.
    destruct (eat "{" (skip_ws l)) as [r0|] eqn:E0; [|destruct (eat "[" (skip_ws l)) as [r0|] eqn:E1].
    + apply eat_ws in E0. destruct (_ <? _); [done|]. destruct (eat "}" (skip_ws r0)) as [r1|] eqn:E1.
      * apply eat_ws in E1. intros [= <- <-]. lia.
      * destruct (members f (d + 1) r0) as [[ms r1]|] eqn:Em; [|done]. apply IHm in Em. intros [= <- <-]. lia.
    + apply eat_ws in E1. destruct (_ <? _); [done|]. destruct (eat "]" (skip_ws r0)) as [r1|] eqn:E2.
      * apply eat_ws in E2. intros [= <- <-]. lia.
      * destruct (elements f (d + 1) r0) as [[ms r1]|] eqn:Em; [|done]. apply IHe in Em. intros [= <- <-]. lia.
    + intros H%scalar_length. lia.
  - destruct (eat dquote (skip_ws l)) as [r0|] eqn:E0; [|done]. apply eat_ws in E0. cbn [mbind option_bind].
    destruct (string_lit r0) as [[k r1]|] eqn:E1; [|done]. apply string_lit_length in E1. cbn [mbind option_bind].
    destruct (eat ":" (skip_ws r1)) as [r2|] eqn:E2; [|done]. apply eat_ws in E2. cbn [mbind option_bind].
    destruct (value f d r2) as [[x r3]|] eqn:E3; [|done]. apply IHv in E3. cbn [mbind option_bind].
    destruct (eat "," (skip_ws r3)) as [r4|] eqn:E4.
    + apply eat_ws in E4. destruct (members f d r4) as [[ms r5]|] eqn:E5; [|done]. apply IHm in E5. intros [= <- <-]. lia.
    + destruct (eat "}" (skip_ws r3)) as [r5|] eqn:E5; [|done]. apply eat_ws in E5. intros [= <- <-]. lia.
  - destruct (value f d l) as [[x r3]|] eqn:E3; [|done]. apply IHv in E3. cbn [mbind option_bind].
    destruct (eat "," (skip_ws r3)) as [r4|] eqn:E4.
    + apply eat_ws in E4. destruct (elements f d r4) as [[ms r5]|] eqn:E5; [|done]. apply IHe in E5. intros [= <- <-]. lia.
    + destruct (eat "]" (skip_ws r3)) as [r5|] eqn:E5; [|done]. apply eat_ws in E5. intros [= <- <-]. lia.
Qed.

Lemma parse_fuel_enough f :
  (∀ f' d l, (2 * length l + 1 <= f)%nat → (2 * length l + 1 <= f')%nat → value f d l = value f' d l) ∧
  (∀ f' d l, (2 * length l + 2 <= f)%nat → (2 * length l + 2 <= f')%nat → members f d l = members f' d l) ∧
  (∀ f' d l, (2 * length l + 2 <= f)%nat → (2 * length l + 2 <= f')%nat → elements f d l = elements f' d l).
Proof.
  induction f as [|f (IHv & IHm & IHe)]; [split_and!; intros; lia|]. split_and!; intros [|f'] d l Hf Hf'; try lia;
    cbn [value members elements].
  - cbv zeta. destruct (eat "{" (skip_ws l)) as [r0|] eqn:E0; [|destruct (eat "[" (skip_ws l)) as [r0|] eqn:E1; [|done]].
    + apply eat_ws in E0. by rewrite (IHm f') by lia.
    + apply eat_ws in E1. by rewrite (IHe f') by lia.
  - destruct (eat dquote (skip_ws l)) as [r0|] eqn:E0; [|done]. apply eat_ws in E0. cbn [mbind option_bind].
    destruct (string_lit r0) as [[k r1]|] eqn:E1; [|done]. apply string_lit_length in E1. cbn [mbind option_bind].
    destruct (eat ":" (skip_ws r1)) as [r2|] eqn:E2; [|done]. apply eat_ws in E2. cbn [mbind option_bind].
    rewrite (IHv f') by lia. destruct (value f' d r2) as [[x r3]|] eqn:E3; [|done].
    apply (proj1 (parse_shrinks f')) in E3. cbn [mbind option_bind].
    destruct (eat "," (skip_ws r3)) as [r4|] eqn:E4; [|done]. apply eat_ws in E4. by rewrite (IHm f') by lia.
  - rewrite (IHv f') by lia. destruct (value f' d l) as [[x r3]|] eqn:E3; [|done].
    apply (proj1 (parse_shrinks f')) in E3. cbn [mbind option_bind].
    destruct (eat "," (skip_ws r3)) as [r4|] eqn:E4; [|done]. apply eat_ws in E4. by rewrite (IHe f') by lia.
Qed.

Theorem json_parser_ends l f : (parse_fuel l <= f)%nat → value f 0 l = value (parse_fuel l) 0 l.
Proof. unfold parse_fuel. intros H. apply parse_fuel_enough; lia. Qed.
