(* ===== verification/FeedParse.v ===== *)
(** * Reading a downloaded list

    [src/internal/web/feed_parse.go]: the body of a feed or of a country's
    list, in one of the catalogue's four formats, becomes the entries that are
    offered to the core, with a count and a sample of the lines that were not
    entries.  JSON is [GoJSON]'s.

    What the web process calls an entry is what the core reads from it
    ([FeedUpdate]): the theorem below follows a line of the published list to
    the prefix the core keeps. *)
From S2P Require Import Prelude GoStrings GoNet NetBytes NetString FeedRanges Matchers FeedStore FeedUpdate GoCrypto GoRunes GoJSON.

Local Open Scope Z_scope.

(** ** An entry *)

(** [netip.Addr.Prefix] and [Prefix.IsSingleIP] *)
Definition Addr_Prefix (a : addr) (b : Z) : option prefix :=
  if (b <? 0) || (BitLen a <? b) then None else Some (Masked (WithoutZone a) b).
Definition IsSingleIP (p : prefix) : bool := (p_bits p =? BitLen (p_addr p)) && (0 <=? p_bits p).

Definition parseEntry (s : string) : option prefix :=
  if contains_any ["/"%char] s then
    match ParsePrefix s with
    | None => None
    | Some p =>
        let a := p_addr p in
        let bits := p_bits p in
        if Is4In6 a then
          if bits <? 96 then None else Addr_Prefix (Unmap a) (bits - 96)
        else Addr_Prefix a bits
    end
  else
    match ParseAddr s with
    | None => None
    | Some a =>
        if negb (is_empty (Zone a)) then None
        else let a := Unmap a in Some (Prefix a (BitLen a))
    end.

Definition canonicalEntry (p : prefix) : string :=
  if IsSingleIP p then Addr_String (p_addr p) else Prefix_String p.

(** ** The formats *)

(** What a line is: nothing, an entry, or neither. *)
Inductive line_reading := LSkip | LEntry (p : prefix) | LBad.
#[global] Instance line_reading_eq_dec : EqDecision line_reading.
Proof. solve_decision. Defined.
Definition reading (o : option prefix) : line_reading := match o with Some p => LEntry p | None => LBad end.

(** The text before the first byte of [chars]: [s[:strings.IndexAny(s, chars)]]. *)
Fixpoint before_any (chars : list ascii) (l : list ascii) : option (list ascii) :=
  match l with
  | [] => None
  | c :: l => if existsb (Ascii.eqb c) chars then Some [] else cons c <$> before_any chars l
  end.

Definition plainEntry (line : string) : line_reading :=
  let line := match before_any ["#"%char; ";"%char] (bytes line) with
              | Some pre => TrimSpace (of_bytes pre)
              | None => line
              end in
  if is_empty line then LSkip else reading (parseEntry line).

(** The Spamhaus record, field by field as they come. *)
Record spamhausRecord := mkSpamhausRecord { sh_CIDR : string; sh_Type : string }.
Definition set_record (r : spamhausRecord) (f : string * json) : option spamhausRecord :=
  if is_field "cidr" (fst f) then c ← set_string (sh_CIDR r) (snd f); Some (mkSpamhausRecord c (sh_Type r))
  else if is_field "type" (fst f) then t ← set_string (sh_Type r) (snd f); Some (mkSpamhausRecord (sh_CIDR r) t)
  else Some r.
Definition decode_struct {A} (set : A → string * json → option A) (old : A) (v : json) : option A :=
  match v with
  | JNull => Some old
  | JObject fs => foldl (λ r f, r ← r; set r f) (Some old) fs
  | _ => None
  end.

Definition spamhausEntry (line : string) : line_reading :=
  if is_empty line then LSkip
  else
    match v ← parse_json (bytes line); decode_struct set_record (mkSpamhausRecord "" "") v with
    | None => LBad
    | Some r =>
        if String.eqb (sh_Type r) "metadata" && is_empty (sh_CIDR r) then LSkip
        else reading (parseEntry (sh_CIDR r))
    end.

Definition dshieldEntry (line : string) : line_reading :=
  if is_empty line || HasPrefix line "#" then LSkip
  else
    match SplitByte (mkbyte 9) line with
    | f0 :: _ :: f2 :: _ =>
        match ParseAddr (TrimSpace f0) with
        | None => LBad
        | Some start =>
            if negb (is_empty (Zone start)) then LBad
            else
              match Atoi (TrimSpace f2) with
              | None => LBad
              | Some bits =>
                  match Addr_Prefix (Unmap start) bits with
                  | None => LBad
                  | Some p => if bool_decide (p_addr p = Unmap start) then LEntry p else LBad
                  end
              end
        end
    | _ => LBad
    end.

(** The document of ipverse: [{"prefixes":{"ipv4":[...],"ipv6":[...]}}]. *)
Record ipversePrefixes := mkIpversePrefixes { iv_IPv4 : string_slice; iv_IPv6 : string_slice }.
Definition set_prefixes (r : ipversePrefixes) (f : string * json) : option ipversePrefixes :=
  if is_field "ipv4" (fst f) then s ← set_slice (iv_IPv4 r) (snd f); Some (mkIpversePrefixes s (iv_IPv6 r))
  else if is_field "ipv6" (fst f) then s ← set_slice (iv_IPv6 r) (snd f); Some (mkIpversePrefixes (iv_IPv4 r) s)
  else Some r.
Definition set_document (r : ipversePrefixes) (f : string * json) : option ipversePrefixes :=
  if is_field "prefixes" (fst f) then decode_struct set_prefixes r (snd f) else Some r.

Definition LF : ascii := mkbyte 10.

Definition ipverseLines (body : list ascii) : list ascii :=
  match v ← parse_json body; decode_struct set_document (mkIpversePrefixes (mkSlice 0 []) (mkSlice 0 [])) v with
  | None => body
  | Some r => bytes (Join (slice_elements (iv_IPv4 r) ++ slice_elements (iv_IPv6 r)) (of_bytes [LF]))
  end.

(** ** A rejected line on the page *)

Definition feedSampleLines : nat := 5.
Definition feedSampleBytes : nat := 80.

(** The runes of a string, each with its bytes. *)
Fixpoint chunks (fuel : nat) (l : list ascii) : list (Z * list ascii) :=
  match fuel, l with
  | S fuel, c :: r =>
      let '(x, rest) := decode_rune c r in
      (x, take (length l - length rest) l) :: chunks fuel rest
  | _, _ => []
  end.
(** A byte that starts no valid encoding: [RuneError] of width one. *)
Definition bad_chunk (k : Z * list ascii) : bool := (fst k =? RuneError) && (length (snd k) =? 1)%nat.

(** [strings.ToValidUTF8]: a run of bad bytes is replaced once. *)
Fixpoint to_valid (replacement : list ascii) (invalid : bool) (ks : list (Z * list ascii)) : list ascii :=
  match ks with
  | [] => []
  | k :: ks =>
      if bad_chunk k then (if invalid then [] else replacement) ++ to_valid replacement true ks
      else snd k ++ to_valid replacement false ks
  end.
Definition ToValidUTF8 (l : list ascii) (replacement : list ascii) : list ascii :=
  to_valid replacement false (chunks (length l) l).

(** [strings.Map] with the mapping of [sampleLine]: a rune that is kept keeps
    its bytes. *)
Definition control_rune (r : Z) : bool := (r <? 0x20) || (r =? 0x7f).
Definition map_controls (l : list ascii) : list ascii :=
  flat_map (λ k, if control_rune (fst k) then ["?"%char] else snd k) (chunks (length l) l).

Definition sampleLine (s : list ascii) : list ascii :=
  let s := ToValidUTF8 s ["?"%char] in
  let s := if (feedSampleBytes <? length s)%nat then ToValidUTF8 (take feedSampleBytes s) [] else s in
  map_controls s.

(** ** The body *)

(** [bytes.Lines]: each with its newline. *)
Fixpoint Lines (l : list ascii) : list (list ascii) :=
  match l with
  | [] => []
  | c :: l =>
      if Ascii.eqb c LF then [c] :: Lines l
      else match Lines l with
           | x :: ls => (c :: x) :: ls
           | [] => [[c]]
           end
  end.

Record parse_state := mkParse { ps_seen : list prefix; ps_rejected : Z; ps_sample : list string }.
Definition read_line (entry : string → line_reading) (st : parse_state) (raw : list ascii) : parse_state :=
  let line := TrimSpace (of_bytes raw) in
  match entry line with
  | LSkip => st
  | LEntry p => mkParse (if bool_decide (p ∈ ps_seen st) then ps_seen st else p :: ps_seen st) (ps_rejected st) (ps_sample st)
  | LBad =>
      mkParse (ps_seen st) (ps_rejected st + 1)
        (if (length (ps_sample st) <? feedSampleLines)%nat
         then ps_sample st ++ [of_bytes (sampleLine (bytes line))] else ps_sample st)
  end.

Definition FeedFormatPlain : string := "plain".
Definition FeedFormatSpamhaus : string := "spamhaus-ndjson".
Definition FeedFormatDShield : string := "dshield".
Definition FeedFormatIPverse : string := "ipverse-json".

(** The switch: the reader of a line, and the body it reads. *)
Definition feed_reader (format : string) (body : list ascii) : option ((string → line_reading) * list ascii) :=
  if String.eqb format FeedFormatIPverse then Some (plainEntry, ipverseLines body)
  else if String.eqb format FeedFormatPlain then Some (plainEntry, body)
  else if String.eqb format FeedFormatSpamhaus then Some (spamhausEntry, body)
  else if String.eqb format FeedFormatDShield then Some (dshieldEntry, body)
  else None.

(** [None]: an unknown format.  The sort's result does not depend on the order
    in which the map is walked. *)
Definition parseFeed (format : string) (body : list ascii) : option (list string * Z * list string) :=
  match feed_reader format body with
  | None => None
  | Some (entry, body) =>
      let st := foldl (read_line entry) (mkParse [] 0 []) (Lines body) in
      Some (map canonicalEntry (merge_sort prefix_le (ps_seen st)), ps_rejected st, ps_sample st)
  end.

Definition body_of (ls : list string) : list ascii := flat_map (λ s, bytes s ++ [LF]) ls.

Example parseFeed_ex :
  parseFeed "plain" (body_of ["# a list"; "8.8.8.0/24 ; dns"; "::ffff:1.1.1.1"; ""; "8.8.8.9/24"; "0.0.0.0 example.com"; "fe80::1%eth0"]) =
    Some (["1.1.1.1"; "8.8.8.0/24"], 2, ["0.0.0.0 example.com"; "fe80::1%eth0"]) ∧
  parseFeed "dshield" (bytes "#" ++ body_of [""] ++
      flat_map (λ l, bytes (Join l (of_bytes [mkbyte 9])) ++ [LF]) [["5.6.7.0"; "5.6.7.255"; "24"]; ["5.6.7.1"; ""; "24"]; ["x"; "y"]]) =
    Some (["5.6.7.0/24"], 2, map (λ l, Join l "?") [["5.6.7.1"; ""; "24"]; ["x"; "y"]]) ∧
  parseFeed "spamhaus-ndjson" (quoted "{'cidr':'1.10.16.0/20','rir':'apnic'}" ++ [LF] ++ quoted "{'type':'metadata','records':2}" ++ [LF] ++
      quoted "{'CIDR':'2a00::/29'}") = Some (["1.10.16.0/20"; "2a00::/29"], 0, []) ∧
  parseFeed "ipverse-json" (quoted "{'prefixes':{'ipv4':['1.2.3.0/24','1.2.4.0/24'],'ipv6':['2a00::/29']}}") =
    Some (["1.2.3.0/24"; "1.2.4.0/24"; "2a00::/29"], 0, []) ∧
  parseFeed "ipverse-json" (bytes "<html>") = Some ([], 1, ["<html>"]) ∧ parseFeed "xml" [] = None.
Proof. vm_compute. done. Qed.

(** ** What is read is a network, and the core reads it back *)

Lemma Addr_Prefix_ok a b p : addr_ok a → Is4In6 a = false → Addr_Prefix a b = Some p → net_ok p.
Proof.
  intros Ha H4. unfold Addr_Prefix. destruct (_ || _) eqn:E; [done|]. breflect. intros [= <-].
  assert (WithoutZone a = a) as -> by (destruct Ha as [_ Hz]; destruct a; cbn in *; congruence).
  split; cbn [Masked p_addr p_bits].
  - apply mask_addr_ok; [done|lia].
  - rewrite BitLen_mask. lia.
  - apply mask_addr_idemp. lia.
  - apply mask_not_mapped; [lia|done].
Qed.

Lemma ParseAddr_ok s a : ParseAddr s = Some a → is_empty (Zone a) = true → addr_ok a.
Proof. intros H Hz. split; [by eapply ParseAddr_range|]. by destruct (Zone a). Qed.

Lemma single_ok a : addr_ok a → net_ok (Prefix (Unmap a) (BitLen (Unmap a))).
Proof.
  intros Ha. split; cbn [p_addr p_bits]; [by apply Unmap_ok| |apply full_mask|apply Unmap_not_mapped]. by destruct (Unmap a).
Qed.

Lemma parseEntry_ok s p : parseEntry s = Some p → net_ok p.
Proof.
  unfold parseEntry. destruct (contains_any _ _).
  - destruct (ParsePrefix s) as [q|] eqn:E; [|done]. apply ParsePrefix_ok in E as [Hq _]. cbv zeta.
    destruct (Is4In6 (p_addr q)) eqn:H4; [destruct (_ <? _); [done|]|]; apply Addr_Prefix_ok; try done.
    + by apply Unmap_ok.
    + apply Unmap_not_mapped.
  - destruct (ParseAddr s) as [a|] eqn:E; [|done]. destruct (is_empty (Zone a)) eqn:Ez; [|done].
    intros [= <-]. apply single_ok. by eapply ParseAddr_ok.
Qed.

Lemma dshieldEntry_ok l p : dshieldEntry l = LEntry p → net_ok p.
Proof.
  unfold dshieldEntry. destruct (_ || _); [done|]. destruct (SplitByte _ l) as [|f0 [|? [|f2 ?]]]; try done.
  destruct (ParseAddr _) as [a|] eqn:E; [|done]. destruct (is_empty (Zone a)) eqn:Ez; [|done]. cbn [negb].
  destruct (Atoi _) as [b|]; [|done]. destruct (Addr_Prefix _ b) as [q|] eqn:Eq; [|done].
  case_bool_decide; [|done]. intros [= <-]. eapply Addr_Prefix_ok; [|apply Unmap_not_mapped|exact Eq].
  apply Unmap_ok. by eapply ParseAddr_ok.
Qed.

Lemma reading_LEntry o p : reading o = LEntry p → o = Some p.
Proof. destruct o; [by intros [= ->]|done]. Qed.

Lemma reader_ok format body entry body' l p :
  feed_reader format body = Some (entry, body') → entry l = LEntry p → net_ok p.
Proof.
  unfold feed_reader. intros H He.
  assert (entry = plainEntry ∨ entry = spamhausEntry ∨ entry = dshieldEntry) as [->|[->| ->]].
  { repeat case_match; naive_solver. }
  - revert He. unfold plainEntry. set (x := match before_any _ _ with Some _ => _ | None => _ end).
    destruct (is_empty x); [done|]. intros He%reading_LEntry. by eapply parseEntry_ok.
  - revert He. unfold spamhausEntry. destruct (is_empty l); [done|]. destruct (_ ≫= _) as [r|]; [|done].
    destruct (_ && _); [done|]. intros He%reading_LEntry. by eapply parseEntry_ok.
  - by eapply dshieldEntry_ok.
Qed.

Lemma Prefix_String_split p : IsValid p = true → bytes (Prefix_String p) = bytes (Addr_String (p_addr p)) ++ "/"%char :: bytes (Itoa (p_bits p)).
Proof. intros Hv. unfold Prefix_String. rewrite Hv, !bytes_append. done. Qed.

Lemma Addr_String_word a : addr_ok a → word (Addr_String a) ∧ "%"%char ∉ bytes (Addr_String a).
Proof.
  intros Ha. pose proof (ParseAddr_String a Ha) as HP. destruct Ha as [_ Hz]. split.
  - apply chars_word. by eapply ParseAddr_chars.
  - by eapply ParseAddr_zone.
Qed.

Lemma Itoa_word n : 0 <= n <= 128 → word (Itoa n) ∧ "%"%char ∉ bytes (Itoa n).
Proof.
  intros Hn.
  assert (Forall (λ n, forallb word_byte (bytes (Itoa n)) && bool_decide ("%"%char ∉ bytes (Itoa n)) = true) (seqZ 0 129)) as HF.
  { apply Forall_forall. intros x Hx. apply elem_of_seqZ in Hx. revert x Hx.
    assert (forallb (λ n, forallb word_byte (bytes (Itoa n)) && bool_decide ("%"%char ∉ bytes (Itoa n))) (seqZ 0 129) = true) as HB
      by (vm_compute; reflexivity).
    intros x Hx. rewrite forallb_forall in HB. apply HB, list_elem_of_In, elem_of_seqZ. lia. }
  rewrite Forall_forall in HF. specialize (HF n ltac:(apply elem_of_seqZ; lia)). by breflect.
Qed.

(** The text of an entry has no space, and the core reads the prefix from it. *)
Lemma feedPrefix_canonical p : net_ok p → entry_prefix (canonicalEntry p) = Some p.
Proof.
  intros [Ha Hb Hm H4]. unfold entry_prefix, canonicalEntry. destruct (Addr_String_word _ Ha) as [Hw Hpct].
  unfold IsSingleIP. destruct (Z.eqb_spec (p_bits p) (BitLen (p_addr p))) as [E|E]; cbn [andb].
  - rewrite (proj2 (Z.leb_le _ _)) by lia. rewrite TrimSpace_word by done. unfold feedPrefix.
    rewrite ParseAddr_String by done. cbv zeta. rewrite Unmap_id by done. destruct Ha as [_ ->]. cbn [is_empty]. rewrite <- E. by destruct p.
  - assert (IsValid p = true) as Hv by (unfold IsValid; apply andb_true_iff; split; apply Z.leb_le; lia).
    assert (BitLen (p_addr p) <= 128) as H128 by by destruct (p_addr p).
    destruct (Itoa_word (p_bits p) ltac:(lia)) as [Hw' Hpct']. pose proof (Prefix_String_split p Hv) as HS.
    rewrite TrimSpace_word.
    2:{ unfold word. rewrite HS, forallb_app. cbn [forallb]. rewrite Hw, Hw'. done. }
    unfold feedPrefix. destruct (ParseAddr (Prefix_String p)) as [a|] eqn:EP.
    { assert ("/"%char ∈ bytes (Prefix_String p)) as Hin by (rewrite HS; set_solver).
      exfalso. revert Hin. eapply ParseAddr_slash; [exact EP|]. eapply ParseAddr_zone; [exact EP|]. rewrite HS. set_solver. }
    rewrite ParsePrefix_String, H4 by done. unfold Masked. rewrite Hm. by destruct p.
Qed.

(** ** The body *)

(** How each line of a body is read. *)
Definition line_readings (format : string) (body : list ascii) : list line_reading :=
  match feed_reader format body with
  | None => []
  | Some (entry, body) => map (λ raw, entry (TrimSpace (of_bytes raw))) (Lines body)
  end.
(** The prefixes a body names. *)
Definition named (format : string) (body : list ascii) (p : prefix) : Prop := LEntry p ∈ line_readings format body.

(** The lines that are not entries, as the page shows them. *)
Definition rejected_lines (format : string) (body : list ascii) : list string :=
  match feed_reader format body with
  | None => []
  | Some (entry, body) =>
      omap (λ raw, let line := TrimSpace (of_bytes raw) in
                   match entry line with LBad => Some (of_bytes (sampleLine (bytes line))) | _ => None end) (Lines body)
  end.

Lemma take_snoc_full {A} n (l : list A) x : take n l ++ (if (length (take n l) <? n)%nat then [x] else []) = take n (l ++ [x]).
Proof.
  destruct (Nat.ltb_spec (length (take n l)) n) as [H|H]; rewrite length_take in H.
  - rewrite (take_ge l), take_ge by (rewrite ?length_app; cbn; lia). done.
  - rewrite app_nil_r, take_app_le by lia. done.
Qed.

Lemma read_lines_spec entry ls :
  let st := foldl (read_line entry) (mkParse [] 0 []) ls in
  let bad := omap (λ raw, let line := TrimSpace (of_bytes raw) in
                          match entry line with LBad => Some (of_bytes (sampleLine (bytes line))) | _ => None end) ls in
  (∀ p, p ∈ ps_seen st ↔ LEntry p ∈ map (λ raw, entry (TrimSpace (of_bytes raw))) ls) ∧ NoDup (ps_seen st) ∧
  ps_rejected st = zlen bad ∧ ps_sample st = take feedSampleLines bad.
Proof.
  induction ls as [|raw ls (IH1 & IH2 & IH3 & IH4)] using rev_ind; cbv zeta.
  { split_and!; try done; [|apply NoDup_nil_2]. cbn. intros p. by rewrite !elem_of_nil. }
  cbv zeta in *. rewrite foldl_app, omap_app, map_app. cbn [foldl].
  set (st := foldl _ _ ls) in *. unfold read_line. cbv zeta. cbn [map omap list_omap].
  destruct (entry (TrimSpace (of_bytes raw))) as [|q|] eqn:E; rewrite ?app_nil_r.
  - split_and!; try done. intros p. rewrite IH1, elem_of_app, list_elem_of_singleton. naive_solver.
  - cbn [ps_seen ps_rejected ps_sample]. split_and!; [|case_bool_decide; [done|by constructor]|done|done].
    intros p. rewrite elem_of_app, list_elem_of_singleton, <- IH1. case_bool_decide; [|rewrite elem_of_cons]; naive_solver.
  - cbn [ps_seen ps_rejected ps_sample]. split_and!; [|done| |].
    + intros p. rewrite IH1, elem_of_app, list_elem_of_singleton. naive_solver.
    + rewrite IH3. unfold zlen. rewrite length_app. cbn. lia.
    + rewrite IH4. rewrite <- take_snoc_full. by destruct (_ <? _)%nat; rewrite ?app_nil_r.
Qed.

(** ** A sample is short, printable and whole *)

(** A chunk that decodes to its rune whatever follows. *)
Definition good (k : Z * list ascii) : Prop :=
  ∃ c r, snd k = c :: r ∧ bad_chunk k = false ∧ (∀ rest, decode_rune c (r ++ rest) = (fst k, rest)) ∧
    (r = [] ∧ fst k = byte_val c ∨ Forall (λ c, 0x80 <= byte_val c) (c :: r)).
(** What a string starts with: a good chunk, or a byte that is not one. *)
Definition chunk_of (k : Z * list ascii) : Prop := good k ∨ ∃ c, snd k = [c] ∧ bad_chunk k = true.

Lemma decode_chunk c l x rest :
  decode_rune c l = (x, rest) → ∃ r, l = r ++ rest ∧ chunk_of (x, c :: r).
Proof.
  unfold decode_rune. cbv zeta. intros H.
  assert (∀ l', (RuneError, l) = (x, l') → l' = rest → ∃ r, l = r ++ rest ∧ chunk_of (x, c :: r)) as Hbad.
  { intros l' [= <- <-] <-. exists []. split; [done|]. right. by exists c. }
  assert (∀ r, l = r ++ rest → r ≠ [] → (∀ rest, decode_rune c (r ++ rest) = (x, rest)) → 0x80 <= byte_val c →
    Forall (λ c, 0x80 <= byte_val c) r → ∃ r, l = r ++ rest ∧ chunk_of (x, c :: r)) as Hgood.
  { intros r -> Hr Hd Hc Hf. exists r. split; [done|]. left. exists c, r. split; [done|].
    split; [|split; [exact Hd|right; by constructor]]. unfold bad_chunk. destruct r; [done|]. by rewrite andb_false_r. }
  destruct (Z.ltb_spec (byte_val c) 0x80) as [Hlt|Hge].
  { injection H as <- <-. exists []. split; [done|]. left. exists c, []. split; [done|]. split_and!.
    - unfold bad_chunk. cbn [fst]. rewrite (proj2 (Z.eqb_neq (byte_val c) RuneError)) by (unfold RuneError; lia). done.
    - intros r. unfold decode_rune. cbv zeta. by rewrite (proj2 (Z.ltb_lt _ _)).
    - by left. }
  assert ((byte_val c <? 0x80) = false) as Hlow by (apply Z.ltb_ge; lia).
  assert (∀ lo hi d, in_range lo hi d = true → 0x80 <= lo → 0x80 <= byte_val d) as Hr
    by (unfold in_range; intros; breflect; lia).
  assert (∀ d, cont d = true → 0x80 <= byte_val d) as Hc by (intros d Hd; by eapply Hr).
  destruct (in_range 0xC2 0xDF c) eqn:E2; [|destruct (in_range 0xE0 0xEF c) eqn:E3; [|destruct (in_range 0xF0 0xF4 c) eqn:E4]].
  - destruct l as [|c1 r]; [by eapply Hbad; [exact H|]; injection H as _ <-|].
    destruct (cont c1) eqn:K; [|by eapply Hbad; [exact H|]; injection H as _ <-]. injection H as <- <-.
    apply (Hgood [c1]); [done|done| |done|by repeat constructor; auto].
    intros rest'. unfold decode_rune. cbv zeta. rewrite Hlow, E2. cbn [app]. by rewrite K.
  - destruct l as [|c1 [|c2 r]]; try (by eapply Hbad; [exact H|]; injection H as _ <-).
    destruct (_ && _) eqn:K; [|by eapply Hbad; [exact H|]; injection H as _ <-]. injection H as <- <-.
    apply (Hgood [c1; c2]); [done|done| |done|].
    + intros rest'. unfold decode_rune. cbv zeta. rewrite Hlow, E2, E3. cbn [app]. by rewrite K.
    + apply andb_true_iff in K as [K1 K2]. repeat constructor; [eapply Hr; [exact K1|case_match; lia]|auto].
  - destruct l as [|c1 [|c2 [|c3 r]]]; try (by eapply Hbad; [exact H|]; injection H as _ <-).
    destruct (_ && _) eqn:K; [|by eapply Hbad; [exact H|]; injection H as _ <-]. injection H as <- <-.
    apply (Hgood [c1; c2; c3]); [done|done| |done|].
    + intros rest'. unfold decode_rune. cbv zeta. rewrite Hlow, E2, E3, E4. cbn [app]. by rewrite K.
    + apply andb_true_iff in K as [[K1 K2]%andb_true_iff K3]. repeat constructor; [eapply Hr; [exact K1|case_match; lia]|auto..].
  - by eapply Hbad; [exact H|]; injection H as _ <-.
Qed.

Lemma chunks_spec f l : (length l <= f)%nat → Forall chunk_of (chunks f l) ∧ flat_map snd (chunks f l) = l.
Proof.
  revert l; induction f as [|f IH]; intros [|c l] Hf; try (by split; [constructor|]); cbn [length] in Hf; [lia|].
  cbn [chunks]. destruct (decode_rune c l) as [x rest] eqn:E. apply decode_chunk in E as (r & -> & Hk).
  rewrite !length_app in *. cbn [length]. rewrite length_app. destruct (IH rest ltac:(lia)) as [IH1 IH2].
  replace (take (S (length r + length rest) - length rest) (c :: r ++ rest)) with (c :: r)
    by (replace (S (length r + length rest) - length rest)%nat with (S (length r)) by lia; cbn [take]; by rewrite take_app_length).
  split; [by constructor|]. cbn [flat_map snd]. by rewrite IH2.
Qed.

Lemma chunks_good f ks : Forall good ks → (length (flat_map snd ks) <= f)%nat → chunks f (flat_map snd ks) = ks.
Proof.
  revert f; induction ks as [|k ks IH]; intros f Hk Hf; [by destruct f|]. apply Forall_cons in Hk as [(c & r & Er & _ & Hd & _) Hk].
  destruct k as [x bs]. cbn [fst snd] in *. subst bs. cbn [flat_map snd app] in *. cbn [length] in Hf. rewrite length_app in Hf.
  destruct f as [|f]; [lia|]. cbn [chunks]. rewrite Hd, IH by (done || lia). do 2 f_equal.
  cbn [length]. rewrite length_app. replace (S (length r + length (flat_map snd ks)) - length (flat_map snd ks))%nat with (S (length r)) by lia.
  cbn [take]. by rewrite take_app_length.
Qed.

(** Text all of whose runes are whole. *)
Definition whole (l : list ascii) : Prop := ∃ ks, Forall good ks ∧ l = flat_map snd ks.
Lemma whole_chunks l : whole l → Forall good (chunks (length l) l) ∧ flat_map snd (chunks (length l) l) = l.
Proof. intros (ks & Hk & ->). by rewrite chunks_good. Qed.

Lemma good_ascii c : byte_val c < 0x80 → good (byte_val c, [c]).
Proof.
  intros Hc. exists c, []. split; [done|]. split_and!; [|intros rest; unfold decode_rune; cbv zeta; by rewrite (proj2 (Z.ltb_lt _ _))|by left].
  unfold bad_chunk. cbn [fst]. rewrite (proj2 (Z.eqb_neq (byte_val c) RuneError)) by (unfold RuneError; lia). done.
Qed.

Lemma whole_app a b : whole a → whole b → whole (a ++ b).
Proof. intros (ks & Hk & ->) (ks' & Hk' & ->). exists (ks ++ ks'). split; [by apply Forall_app|]. by rewrite flat_map_app. Qed.

Lemma to_valid_whole rep inv ks :
  whole rep → Forall chunk_of ks → whole (to_valid rep inv ks) ∧
  (rep = [] → (length (to_valid rep inv ks) <= length (flat_map snd ks))%nat).
Proof.
  intros Hrep Hk. revert inv; induction Hk as [|k ks Hk Hks IH]; intros inv; [split; [by exists []|done]|]. cbn [to_valid flat_map].
  destruct Hk as [Hg|(c & Ec & Hb)].
  - pose proof Hg as (c & r & _ & -> & _). destruct (IH false) as [IH1 IH2]. split.
    + apply whole_app; [|done]. exists [k]. split; [by constructor|]. cbn. by rewrite app_nil_r.
    + intros Hr. rewrite !length_app. specialize (IH2 Hr). lia.
  - rewrite Hb. destruct (IH true) as [IH1 IH2]. split.
    + apply whole_app; [|done]. destruct inv; [by exists []|done].
    + intros ->. specialize (IH2 eq_refl). rewrite Ec. destruct inv; cbn; lia.
Qed.

(** No control character of ASCII. *)
Definition displayable (c : ascii) : Prop := 0x20 <= byte_val c ∧ byte_val c ≠ 0x7f.

Lemma map_controls_spec l : whole l →
  whole (map_controls l) ∧ (length (map_controls l) <= length l)%nat ∧ Forall displayable (map_controls l).
Proof.
  intros (ks & Hk & ->). unfold map_controls. rewrite chunks_good by done.
  set (f k := if control_rune (fst k) then ["?"%char] else snd k).
  induction Hk as [|k ks Hk _ (IH1 & IH2 & IH3)]; [split_and!; [by exists []|done|constructor]|]. cbn [flat_map].
  assert (whole (f k) ∧ (length (f k) <= length (snd k))%nat ∧ Forall displayable (f k)) as (H1 & H2 & H3).
  { pose proof Hk as (c & r & Er & _ & _ & Hc). unfold f. destruct (control_rune (fst k)) eqn:E.
    - split_and!; [|rewrite Er; cbn; lia|repeat constructor; done]. exists [(byte_val "?"%char, ["?"%char])].
      split; [|done]. repeat constructor. by apply good_ascii.
    - split_and!; [|done|].
      + exists [k]. split; [by constructor|]. cbn. by rewrite app_nil_r.
      + rewrite Er. destruct Hc as [[-> Ef]|Hc].
        * repeat constructor; rewrite Ef in E; unfold control_rune in E; breflect; lia.
        * eapply Forall_impl; [exact Hc|]. unfold displayable. cbv beta. lia. }
  split_and!; [by apply whole_app|rewrite !length_app; lia|by apply Forall_app].
Qed.

Lemma ToValidUTF8_whole l rep : whole rep → whole (ToValidUTF8 l rep) ∧ (rep = [] → (length (ToValidUTF8 l rep) <= length l)%nat).
Proof.
  intros Hr. unfold ToValidUTF8. destruct (chunks_spec (length l) l ltac:(lia)) as [Hk Hl].
  destruct (to_valid_whole rep false _ Hr Hk) as [H1 H2]. by rewrite Hl in H2.
Qed.

Lemma sampleLine_spec s :
  whole (sampleLine s) ∧ (length (sampleLine s) <= feedSampleBytes)%nat ∧ Forall displayable (sampleLine s).
Proof.
  unfold sampleLine. assert (whole ["?"%char]) as Hq.
  { exists [(byte_val "?"%char, ["?"%char])]. split; [|done]. repeat constructor. by apply good_ascii. }
  destruct (ToValidUTF8_whole s _ Hq) as [Hw _]. set (v := ToValidUTF8 s ["?"%char]) in *.
  set (w := if (_ <? _)%nat then _ else v). assert (whole w ∧ (length w <= feedSampleBytes)%nat) as [Hw' Hl].
  { unfold w. destruct (Nat.ltb_spec feedSampleBytes (length v)); [|done].
    destruct (ToValidUTF8_whole (take feedSampleBytes v) [] ltac:(by exists [])) as [H1 H2]. split; [done|].
    specialize (H2 eq_refl). rewrite length_take in H2. lia. }
  destruct (map_controls_spec w Hw') as (H1 & H2 & H3). split_and!; [done|lia|done].
Qed.

(** ** The whole list *)

Lemma length_rejected format body :
  zlen (rejected_lines format body) = zlen (filter (λ r, r = LBad) (line_readings format body)).
Proof.
  unfold rejected_lines, line_readings. destruct (feed_reader format body) as [[entry b]|]; [|done].
  unfold zlen. f_equal. induction (Lines b) as [|raw ls IH]; [done|]. cbn [omap list_omap map]. rewrite filter_cons.
  cbv zeta in *. destruct (entry _); [rewrite decide_False by done; exact IH..|].
  rewrite decide_True by done. cbn [length]. f_equal. exact IH.
Qed.

Lemma rejected_sample format body s : s ∈ rejected_lines format body →
  ∃ l, s = of_bytes l ∧ whole l ∧ (length l <= feedSampleBytes)%nat ∧ Forall displayable l.
Proof.
  unfold rejected_lines. destruct (feed_reader format body) as [[entry b]|]; [|by intros ?%not_elem_of_nil].
  intros (raw & _ & Hs)%list_elem_of_omap. cbv zeta in Hs. destruct (entry _); try done. injection Hs as <-.
  eexists. split; [done|]. apply sampleLine_spec.
Qed.

(** The prefixes a body names are networks. *)
Lemma named_ok format body p : named format body p → net_ok p.
Proof.
  unfold named, line_readings. destruct (feed_reader format body) as [[entry b]|] eqn:E; [|by intros ?%not_elem_of_nil].
  intros (raw & Hp & _)%list_elem_of_fmap. eapply reader_ok; [exact E|]. by symmetry.
Qed.

(** The entries, and what the core reads from them. *)
Lemma parseFeed_spec format body entries rejected sample :
  parseFeed format body = Some (entries, rejected, sample) →
  ∃ ps, entries = map canonicalEntry ps ∧ map entry_prefix entries = map Some ps ∧
     NoDup ps ∧ StronglySorted key_le ps ∧ ∀ p, p ∈ ps ↔ named format body p.
Proof.
  unfold parseFeed. intros H. pose proof (named_ok format body) as Hok. unfold named, line_readings in *.
  destruct (feed_reader format body) as [[entry b]|]; [|done].
  pose proof (read_lines_spec entry (Lines b)) as (H1 & H2 & _). cbv zeta in H1, H2.
  set (st := foldl _ _ _) in *. injection H as <- _ _. set (ps := merge_sort prefix_le (ps_seen st)).
  assert (ps ≡ₚ ps_seen st) as HP by apply merge_sort_Permutation.
  assert (∀ p, p ∈ ps ↔ LEntry p ∈ map (λ raw, entry (TrimSpace (of_bytes raw))) (Lines b)) as Hps
    by (intros p; by rewrite HP, H1).
  assert (Forall net_ok ps) as Hnet by (apply Forall_forall; intros p Hp; by apply Hok, Hps).
  exists ps. split_and!; [done| |by rewrite HP| |done].
  - rewrite map_map. apply map_ext_in. intros p Hp. apply list_elem_of_In in Hp. rewrite Forall_forall in Hnet.
    by apply feedPrefix_canonical, Hnet.
  - apply Sorted_key_le; [done|]. apply Sorted_merge_sort, _.
Qed.

Lemma parseFeed_rejected format body entries rejected sample :
  parseFeed format body = Some (entries, rejected, sample) →
  rejected = zlen (rejected_lines format body) ∧ sample = take feedSampleLines (rejected_lines format body).
Proof.
  unfold parseFeed, rejected_lines. destruct (feed_reader format body) as [[entry b]|]; [|done].
  pose proof (read_lines_spec entry (Lines b)) as (_ & _ & H3 & H4). cbv zeta in H3, H4.
  intros [= _ <- <-]. done.
Qed.


(** A list with a comment, a private network, an IPv4 address written in IPv6,
    a duplicate and a line that is not an entry. *)
Definition sample_body : list ascii :=
  body_of ["# a list"; "8.8.8.0/24 ; dns"; "::ffff:1.1.1.1"; "10.0.0.0/8"; "8.8.8.9/24"; "0.0.0.0 example.com"].

