(* ===== verification/FeedRunner.v ===== *)
(** * Fetching lists

    [src/internal/web/feeds.go] and [feed_state.go]: when a list is fetched,
    what is made of the answer, what is handed to the core and what is recorded
    of it, and the operator's own lists with their credentials.  The sources
    are the catalogue's ([src/internal/shared/feeds.go], [countries.go]).

    A refresh has three parts.  It begins when it claims its id, looks at the
    state and records the attempt; then it waits for the network, which takes
    up to half a minute and during which anything else may happen; and it ends
    by parsing, delivering to the core and recording the outcome.  Beginning
    and end are each one step here, the due test of a pass belongs to the
    beginning.  Times are nanoseconds since the epoch; the answers of the
    network and of the core, the parts of a parsed URL, the table of printable
    characters and the outcome of each write are arguments. *)
From S2P Require Import Prelude GoStrings GoNet NetBytes NetString Models FeedIDs FeedRanges Nft Matchers Builders Kernel FeedStore FeedUpdate.
From S2P Require Import GoCrypto GoRunes GoJSON.
From S2P Require Import FeedParse.

Local Open Scope Z_scope.

Definition Second : Z := 1000000000.
Definition Minute : Z := 60 * Second.
Definition Hour : Z := 60 * Minute.

(** ** Sources *)

Record feedSource := mkFeedSource {
  src_urls : list string; src_format : string; src_interval : Z; src_user : string; src_password : string }.

(** The rest of a catalogue row, by id. *)
Definition catalogue_source (id : string) : option feedSource :=
  let one url format hours := Some (mkFeedSource [url] format (hours * Hour) "" "") in
  if String.eqb id "spamhaus-drop" then
    Some (mkFeedSource ["https://www.spamhaus.org/drop/drop_v4.json"; "https://www.spamhaus.org/drop/drop_v6.json"]
            FeedFormatSpamhaus (12 * Hour) "" "")
  else if String.eqb id "dshield" then one "https://feeds.dshield.org/block.txt" FeedFormatDShield 1
  else if String.eqb id "blocklist-de-ssh" then one "https://lists.blocklist.de/lists/ssh.txt" FeedFormatPlain 1
  else if String.eqb id "blocklist-de-imap" then one "https://lists.blocklist.de/lists/imap.txt" FeedFormatPlain 1
  else if String.eqb id "cins" then one "https://cinsscore.com/list/ci-badguys.txt" FeedFormatPlain 1
  else if String.eqb id "et-compromised" then
    one "https://rules.emergingthreats.net/blockrules/compromised-ips.txt" FeedFormatPlain 1
  else if String.eqb id "blocklist-de" then one "https://lists.blocklist.de/lists/all.txt" FeedFormatPlain 1
  else if String.eqb id "ipsum-3" then
    one "https://raw.githubusercontent.com/stamparm/ipsum/master/levels/3.txt" FeedFormatPlain 24
  else if String.eqb id "hagezi-tif" then
    one "https://raw.githubusercontent.com/hagezi/dns-blocklists/main/ips/tif.txt" FeedFormatPlain 24
  else if String.eqb id "tor-exits" then one "https://check.torproject.org/torbulkexitlist" FeedFormatPlain 1
  else None.

Definition countryURLStem : string := "https://raw.githubusercontent.com/ipverse/country-ip-blocks/master/country/".
Definition CountryInterval : Z := 24 * Hour.
Definition country_source (cc : string) : feedSource :=
  mkFeedSource [countryURLStem +:+ cc +:+ "/aggregated.json"] FeedFormatIPverse CountryInterval "" "".
Definition OwnFeedInterval : Z := 24 * Hour.

(** ** The state *)

Record OwnFeed := mkOwnFeed { of_Name : string; of_URL : string; of_User : string; of_Password : string }.
Definition noOwn : OwnFeed := mkOwnFeed "" "" "" "".

Inductive FeedStatusKind := FeedNone | FeedNeverFetched | FeedUpdated | FeedUnchanged | FeedFailedCopy | FeedFailedNoCopy.

Inductive feedErr :=
| feedErrTimeout | feedErrUnreachable | feedErrTransfer | feedErrRedirected | feedErrHTTPStatus | feedErrRateLimited
| feedErrTooLarge | feedErrHTML | feedErrEmpty | feedErrRefused | feedErrShrank | feedErrCoreUnreachable | feedErrPanic.
#[global] Instance feedErr_eq_dec : EqDecision feedErr.
Proof. solve_decision. Defined.

Record feedFetchState := mkFetch {
  ff_ETag : string; ff_LastModified : string;
  ff_LastError : option feedErr; ff_HTTPStatus : Z; ff_Failures : Z;
  ff_LastAttempt : option Z;     (* none: the zero time *)
  ff_Status : FeedStatusKind; ff_Rejected : Z; ff_RejectedSample : list string; ff_ShrankFrom : Z; ff_ShrankTo : Z }.
Definition noFetch : feedFetchState := mkFetch "" "" None 0 0 None FeedNone 0 [] 0 0.

Record feedStateFile := mkStateFile {
  OffsetSeconds : Z; Fetch : gmap string feedFetchState; Own : list OwnFeed }.

Record pendingFeedUpdate := mkPending { pd_payload : UpdateFeedPayload; pd_next : feedFetchState; pd_at : Z }.

(** What the core says of its copy, as far as the runner looks: [feedStatus]'s
    [Stored] and [Entries]. *)
Record coreCopy := mkCoreCopy { cc_Stored : bool; cc_Entries : Z }.

(** A refresh that has begun: waiting for the network, or with an update held
    from an earlier one. *)
Inductive job :=
| JFetch (src : feedSource) (st : feedFetchState) (core : coreCopy)
| JDeliver (payload : UpdateFeedPayload) (next : feedFetchState) (core : coreCopy).

Record Runner := mkRunner {
  rn_st : feedStateFile;                    (* feedStore.st *)
  rn_file : option feedStateFile;           (* feed_fetch.json *)
  rn_inflight : gmap string job;
  rn_pending : gmap string pendingFeedUpdate;
  rn_firstSeen : gmap string Z }.

Definition with_st st r := mkRunner st (rn_file r) (rn_inflight r) (rn_pending r) (rn_firstSeen r).
Definition with_inflight m r := mkRunner (rn_st r) (rn_file r) m (rn_pending r) (rn_firstSeen r).
Definition with_pending m r := mkRunner (rn_st r) (rn_file r) (rn_inflight r) m (rn_firstSeen r).
Definition with_firstSeen m r := mkRunner (rn_st r) (rn_file r) (rn_inflight r) (rn_pending r) m.

(** [saveLocked]: the file is replaced or stays. *)
Definition saveLocked (io : bool) (r : Runner) : Runner :=
  if io then mkRunner (rn_st r) (Some (rn_st r)) (rn_inflight r) (rn_pending r) (rn_firstSeen r) else r.

(** [loadLocked] on first use; [drawn] is [randomFeedOffset]'s, [io] the
    outcome of the write that keeps it. *)
Definition loaded (f : option feedStateFile) (drawn : Z) : feedStateFile :=
  let st := default (mkStateFile 0 ∅ [noOwn; noOwn; noOwn]) f in
  if (OffsetSeconds st <=? 0) || (86400 <=? OffsetSeconds st) then mkStateFile drawn (Fetch st) (Own st) else st.
Definition restart (drawn : Z) (io : bool) (f : option feedStateFile) : Runner :=
  let redrawn := match f with None => true | Some st => (OffsetSeconds st <=? 0) || (86400 <=? OffsetSeconds st) end in
  let r := mkRunner (loaded f drawn) f ∅ ∅ ∅ in
  if redrawn then saveLocked io r else r.

Definition fetchState (id : string) (r : Runner) : feedFetchState := default noFetch (Fetch (rn_st r) !! id).
Definition setFetchState (io : bool) (id : string) (v : feedFetchState) (r : Runner) : Runner :=
  saveLocked io (with_st (mkStateFile (OffsetSeconds (rn_st r)) (<[id := v]> (Fetch (rn_st r))) (Own (rn_st r))) r).
Definition offset (r : Runner) : Z := OffsetSeconds (rn_st r) * Second.

(** [ownFeed n], [n] from 1: the slot, if it has a URL. *)
Definition slot (n : nat) (r : Runner) : OwnFeed := nth (n - 1) (Own (rn_st r)) noOwn.
Definition ownFeed (n : nat) (r : Runner) : option OwnFeed :=
  let f := slot n r in if is_empty (of_URL f) then None else Some f.

Definition source (id : string) (r : Runner) : option feedSource :=
  match catalogue_source id with
  | Some s => Some s
  | None =>
      match CountryCode id with
      | Some cc => Some (country_source cc)
      | None =>
          match find (λ n, String.eqb id (OwnFeedID n)) (seq 1 MaxOwnFeeds) with
          | None => None
          | Some n =>
              o ← ownFeed n r;
              Some (mkFeedSource [of_URL o] FeedFormatPlain OwnFeedInterval (of_User o) (of_Password o))
          end
      end
  end.

(** ** When *)

Definition zeroTime : Z := -62135596800 * Second.
Definition last_attempt (st : feedFetchState) : Z := default zeroTime (ff_LastAttempt st).

Definition feedRetryDelay (st : feedFetchState) (interval : Z) : Z :=
  if bool_decide (ff_LastError st = Some feedErrRateLimited) then interval
  else Z.min (Z.shiftl Hour (Z.min (ff_Failures st - 1) 5)) interval.

Definition nextFeedAttempt (st : feedFetchState) (interval : Z) : Z :=
  if 0 <? ff_Failures st then last_attempt st + feedRetryDelay st interval else last_attempt st + interval.

(** Go's division and remainder truncate. *)
Definition firstFeedSlot (seen interval off : Z) : Z :=
  let base := Z.rem off interval in
  let s := base + Z.quot (seen - base) interval * interval in
  if s <? seen then s + interval else s.

Definition due (id : string) (interval now : Z) (r : Runner) : bool * Runner :=
  match rn_pending r !! id with
  | Some p => (pd_at p <=? now, r)
  | None =>
      let st := fetchState id r in
      match ff_LastAttempt st with
      | Some _ => (nextFeedAttempt st interval <=? now, r)
      | None =>
          let r' := match rn_firstSeen r !! id with Some _ => r | None => with_firstSeen (<[id := now]> (rn_firstSeen r)) r end in
          (firstFeedSlot (default now (rn_firstSeen r !! id)) interval (offset r) <=? now, r')
      end
  end.

Definition dropSwitchedOff (on : list string) (r : Runner) : Runner :=
  with_pending (filter (λ p, p.1 ∈ on) (rn_pending r)) r.

Definition forget (id : string) (r : Runner) : Runner :=
  with_firstSeen (delete id (rn_firstSeen r)) (with_pending (delete id (rn_pending r)) r).

(** ** A refresh begins *)

(** The test of a switch-on: nothing to fetch, or not yet. *)
Definition held_back (onlyWithoutCopy : bool) (core : coreCopy) (st : feedFetchState) (interval now : Z) : bool :=
  onlyWithoutCopy && negb (bool_decide (ff_LastError st = Some feedErrShrank)) &&
  (cc_Stored core || (0 <? ff_Failures st) && (now <? nextFeedAttempt st interval)).

Definition with_attempt (now : Z) (st : feedFetchState) : feedFetchState :=
  mkFetch (ff_ETag st) (ff_LastModified st) (ff_LastError st) (ff_HTTPStatus st) (ff_Failures st) (Some now)
    (ff_Status st) (ff_Rejected st) (ff_RejectedSample st) (ff_ShrankFrom st) (ff_ShrankTo st).

(** [refresh] up to the network: nothing begins, an update that was held is
    about to be delivered, or a request is about to go out. *)
Definition refresh_begin (id : string) (only : bool) (core : coreCopy) (now : Z) (io : bool) (r : Runner) : Runner :=
  match rn_inflight r !! id with
  | Some _ => r
  | None =>
      match rn_pending r !! id with
      | Some p =>
          with_inflight (<[id := JDeliver (pd_payload p) (pd_next p) core]> (rn_inflight r))
            (with_pending (delete id (rn_pending r)) r)
      | None =>
          match source id r with
          | None => r
          | Some src =>
              let st := fetchState id r in
              if held_back only core st (src_interval src) now then r
              else
                let st := with_attempt now st in
                let r := setFetchState io id st r in
                with_inflight (<[id := JFetch src st core]> (rn_inflight r)) r
          end
      end
  end.

(** ** What the network answers *)

(** A transport error is a refused redirect, a timeout or another. *)
Inductive transport_error := TeRedirect | TeTimeout | TeOther.
Definition requestFailure (e : transport_error) (otherwise : feedErr) : feedErr :=
  match e with TeRedirect => feedErrRedirected | TeTimeout => feedErrTimeout | TeOther => otherwise end.

Inductive http_answer :=
| HNoAnswer (e : transport_error)
| HAnswer (status : Z) (media : string) (body : result transport_error (list ascii)) (etag lastModified : string).

Inductive fetched :=
| FNotModified
| FBody (body : list ascii) (etag lastModified : string)
| FFailure (reason : feedErr) (status : Z).

Definition feedMaxBody : Z := Z.shiftl 8 20.
(** [bytes.TrimLeft(body, " \t\r\n")] starts with '<' *)
Definition looks_html (b : list ascii) : bool := match skip_ws b with c :: _ => Ascii.eqb c "<" | [] => false end.

Definition readFeedResponse (conditional : bool) (a : http_answer) : fetched :=
  match a with
  | HNoAnswer e => FFailure (requestFailure e feedErrUnreachable) 0
  | HAnswer status media body etag lm =>
      if (status =? 304) && conditional then FNotModified
      else if status =? 429 then FFailure feedErrRateLimited 0
      else if negb (status =? 200) then FFailure feedErrHTTPStatus status
      else if String.eqb media "text/html" then FFailure feedErrHTML 0
      else
        match body with
        | Err e => FFailure (requestFailure e feedErrTransfer) 0
        | Ok b =>
            if feedMaxBody <? zlen b then FFailure feedErrTooLarge 0
            else if looks_html b then FFailure feedErrHTML 0
            else FBody b etag lm
        end
  end.

(** The validators a request carries: none unless it is conditional. *)
Definition validators (src : feedSource) (st : feedFetchState) (core : coreCopy) : option (string * string) :=
  if cc_Stored core && (length (src_urls src) =? 1)%nat then Some (ff_ETag st, ff_LastModified st) else None.

(** ** A refresh ends *)

Definition with_rejected (n : Z) (sample : list string) (st : feedFetchState) : feedFetchState :=
  mkFetch (ff_ETag st) (ff_LastModified st) (ff_LastError st) (ff_HTTPStatus st) (ff_Failures st) (ff_LastAttempt st)
    (ff_Status st) n sample (ff_ShrankFrom st) (ff_ShrankTo st).
Definition with_validators (etag lm : string) (st : feedFetchState) : feedFetchState :=
  mkFetch etag lm (ff_LastError st) (ff_HTTPStatus st) (ff_Failures st) (ff_LastAttempt st)
    (ff_Status st) (ff_Rejected st) (ff_RejectedSample st) (ff_ShrankFrom st) (ff_ShrankTo st).
Definition with_shrank (from to : Z) (st : feedFetchState) : feedFetchState :=
  mkFetch (ff_ETag st) (ff_LastModified st) (ff_LastError st) (ff_HTTPStatus st) (ff_Failures st) (ff_LastAttempt st)
    (ff_Status st) (ff_Rejected st) (ff_RejectedSample st) from to.

(** [fail] *)
Definition failed (reason : feedErr) (status : Z) (stored : bool) (st : feedFetchState) : feedFetchState :=
  mkFetch (ff_ETag st) (ff_LastModified st) (Some reason) status
    (if bool_decide (reason = feedErrPanic) then ff_Failures st else ff_Failures st + 1) (ff_LastAttempt st)
    (if stored then FeedFailedCopy else FeedFailedNoCopy) (ff_Rejected st) (ff_RejectedSample st) (ff_ShrankFrom st) (ff_ShrankTo st).
Definition fail (io : bool) (id : string) (st : feedFetchState) (reason : feedErr) (status : Z) (stored : bool) : Runner → Runner :=
  setFetchState io id (failed reason status stored st).

(** The loop over the URLs: a failure, a 304, or the entries. *)
Inductive loop_result :=
| LrFailure (reason : feedErr) (status : Z)
| LrNotModified (next : feedFetchState)
| LrEntries (entries : list string) (next : feedFetchState).

Fixpoint fetch_loop (single conditional : bool) (format : string) (st next : feedFetchState) (entries : list string)
    (answers : list http_answer) : loop_result :=
  match answers with
  | [] => LrEntries entries next
  | a :: answers =>
      match readFeedResponse conditional a with
      | FFailure reason status => LrFailure reason status
      | FNotModified => LrNotModified (with_rejected (ff_Rejected st) (ff_RejectedSample st) next)
      | FBody body etag lm =>
          let '(e, rejected, sample) := default ([], 0, []) (parseFeed format body) in
          let next := with_rejected (ff_Rejected next + rejected)
                        (ff_RejectedSample next ++ take (feedSampleLines - length (ff_RejectedSample next)) sample) next in
          let next := if single then with_validators etag lm next else with_validators "" "" next in
          fetch_loop single conditional format st next (entries ++ e) answers
      end
  end.

(** [slices.Sort] and [slices.Compact]. *)
Definition merged (single : bool) (entries : list string) : list string :=
  if single then entries else Compact (merge_sort String.le entries).

(** What the core's client returns: the result's [Changed], a command it did
    not send, or the text of an error. *)
Inductive core_answer := CaOk (changed : bool) | CaTooLarge | CaError (text : string).

Definition feedApplyRetry : Z := 5 * Minute.

(** [strings.Contains] *)
Fixpoint occurs (p l : list ascii) : bool :=
  match starts_with p l with
  | Some _ => true
  | None => match l with [] => false | _ :: l => occurs p l end
  end.
Definition StrContains (s sub : string) : bool := occurs (bytes sub) (bytes s).

Definition ErrApplyInProgressText : string := "an apply is already in progress".
Definition ErrPanicEngagedText : string := "panic mode is engaged".
Definition ErrFeedShrankText : string := "feed shrank below 70 % of the stored copy".

Definition delivered (changed : bool) (notModified stored : bool) (next : feedFetchState) : feedFetchState :=
  mkFetch (ff_ETag next) (ff_LastModified next) None 0 0 (ff_LastAttempt next)
    (if negb notModified && (changed || negb stored) then FeedUpdated else FeedUnchanged)
    (ff_Rejected next) (ff_RejectedSample next) 0 0.

Definition deliver (io : bool) (id : string) (payload : UpdateFeedPayload) (next : feedFetchState) (core : coreCopy)
    (ans : core_answer) (now : Z) (r : Runner) : Runner :=
  let stored := cc_Stored core in
  match ans with
  | CaOk changed => setFetchState io id (delivered changed (uf_NotModified payload) stored next) r
  | CaTooLarge => fail io id (fetchState id r) feedErrTooLarge 0 stored r
  | CaError text =>
      if StrContains text ErrApplyInProgressText
      then with_pending (<[id := mkPending payload next (now + feedApplyRetry)]> (rn_pending r)) r
      else if StrContains text ErrFeedShrankText
      then fail io id (with_shrank (cc_Entries core) (zlen (uf_Entries payload)) (fetchState id r)) feedErrShrank 0 true r
      else if StrContains text ErrPanicEngagedText then fail io id (fetchState id r) feedErrPanic 0 stored r
      else if HasPrefix text "core error: " then fail io id (fetchState id r) feedErrRefused 0 stored r
      else fail io id (fetchState id r) feedErrCoreUnreachable 0 stored r
  end.

(** What [refreshFrom] makes of the answers, one for each URL asked: a failure,
    with the state it is recorded in, or an update for the core. *)
Inductive offer :=
| OfFailure (st : feedFetchState) (reason : feedErr) (status : Z)
| OfUpdate (payload : UpdateFeedPayload) (next : feedFetchState).

Definition refresh_offer (id : string) (src : feedSource) (st : feedFetchState) (core : coreCopy) (answers : list http_answer) : offer :=
  let single := (length (src_urls src) =? 1)%nat in
  match fetch_loop single (cc_Stored core && single) (src_format src) st (with_rejected 0 [] st) []
          (take (length (src_urls src)) answers) with
  | LrFailure reason status => OfFailure st reason status
  | LrNotModified next => OfUpdate (mkUpdateFeedPayload id [] true) next
  | LrEntries entries next =>
      let entries := merged single entries in
      if bool_decide (entries = [])
      then OfFailure (with_rejected (ff_Rejected next) (ff_RejectedSample next) st) feedErrEmpty 0
      else if FeedMaxEntries <? zlen entries then OfFailure st feedErrTooLarge 0
      else OfUpdate (mkUpdateFeedPayload id entries false) next
  end.

Definition fetch_end (io : bool) (id : string) (src : feedSource) (st : feedFetchState) (core : coreCopy)
    (answers : list http_answer) (ans : core_answer) (now : Z) (r : Runner) : Runner :=
  match refresh_offer id src st core answers with
  | OfFailure st reason status => fail io id st reason status (cc_Stored core) r
  | OfUpdate payload next => deliver io id payload next core ans now r
  end.

Definition refresh_end (id : string) (answers : list http_answer) (ans : core_answer) (now : Z) (io : bool) (r : Runner) : Runner :=
  match rn_inflight r !! id with
  | None => r
  | Some j =>
      let r := match j with
               | JFetch src st core => fetch_end io id src st core answers ans now r
               | JDeliver payload next core => deliver io id payload next core ans now r
               end in
      with_inflight (delete id (rn_inflight r)) r
  end.

(** ** The row of the page *)

Definition feedStatusOf (st : feedFetchState) (stored coreRead : bool) : FeedStatusKind :=
  match ff_LastError st with
  | Some _ => if negb coreRead then ff_Status st else if stored then FeedFailedCopy else FeedFailedNoCopy
  | None =>
      match ff_Status st with
      | FeedUpdated | FeedUnchanged => ff_Status st
      | _ => if stored then FeedUnchanged else FeedNeverFetched
      end
  end.

(** ** The operator's own lists *)

(** The parts of a parsed URL the code looks at. *)
Record URL := mkURL { u_Scheme : string; u_User : bool; u_Host : string; u_Opaque : string; u_Hostname : string }.

Section Own.
Context (Parse : string → option URL) (IsPrint : Z → bool).

Definition validOwnFeedURL (raw : string) : bool :=
  if 2048 <? zlen (bytes raw) then false
  else
    match Parse raw with
    | None => false
    | Some u =>
        if u_User u || is_empty (u_Host u) || negb (is_empty (u_Opaque u)) then false
        else if String.eqb (u_Scheme u) "https" then true
        else if String.eqb (u_Scheme u) "http" then
          match ParseAddr (u_Hostname u) with Some a => IsLoopback a | None => false end
        else false
    end.

Definition sameOwnFeedHost (a b : string) : bool :=
  if is_empty a || is_empty b then false
  else
    match Parse a, Parse b with
    | Some ua, Some ub => String.eqb (u_Scheme ua) (u_Scheme ub) && String.eqb (u_Host ua) (u_Host ub)
    | _, _ => false
    end.

Definition printable (s : string) (max : Z) : bool :=
  if max <? zlen (bytes s) then false else forallb IsPrint (runes s).

Inductive OwnFeedError :=
  errOwnFeedSlot | errOwnFeedName | errOwnFeedURL | errOwnFeedLogin | errOwnFeedDemo | errOwnFeedPasswordAgain | errOwnFeedWrite.

Definition set_slot (n : nat) (f : OwnFeed) (r : Runner) : Runner :=
  with_st (mkStateFile (OffsetSeconds (rn_st r)) (Fetch (rn_st r)) (<[(n - 1)%nat := f]> (Own (rn_st r)))) r.
Definition drop_fetch (id : string) (r : Runner) : Runner :=
  with_st (mkStateFile (OffsetSeconds (rn_st r)) (delete id (Fetch (rn_st r))) (Own (rn_st r))) r.

(** The password that is kept with a form that passed the checks. *)
Definition kept_password (old f : OwnFeed) : option string :=
  if is_empty (of_User f) then Some ""
  else if is_empty (of_Password f) then
    if negb (is_empty (of_Password old)) && negb (sameOwnFeedHost (of_URL old) (of_URL f)) then None
    else Some (of_Password old)
  else Some (of_Password f).

Definition saveOwnFeed (demo : bool) (n : Z) (f : OwnFeed) (io : bool) (r : Runner) : option OwnFeedError * Runner :=
  if demo then (Some errOwnFeedDemo, r)
  else if (n <? 1) || (Z.of_nat MaxOwnFeeds <? n) then (Some errOwnFeedSlot, r)
  else
    let n := Z.to_nat n in
    let f := mkOwnFeed (TrimSpace (of_Name f)) (TrimSpace (of_URL f)) (TrimSpace (of_User f)) (of_Password f) in
    let id := OwnFeedID n in
    let written r := (if io then None else Some errOwnFeedWrite, saveLocked io r) in
    if is_empty (of_Name f) && is_empty (of_URL f) then written (forget id (drop_fetch id (set_slot n noOwn r)))
    else if is_empty (of_Name f) || negb (printable (of_Name f) 64) then (Some errOwnFeedName, r)
    else if negb (validOwnFeedURL (of_URL f)) then (Some errOwnFeedURL, r)
    else if negb (printable (of_User f) 256) || contains_any [":"%char] (of_User f) || negb (printable (of_Password f) 256)
    then (Some errOwnFeedLogin, r)
    else
      let old := slot n r in
      match kept_password old f with
      | None => (Some errOwnFeedPasswordAgain, r)
      | Some pw =>
          let f := mkOwnFeed (of_Name f) (of_URL f) (of_User f) pw in
          let r := if negb (String.eqb (of_URL f) (of_URL old)) || negb (String.eqb (of_User f) (of_User old))
                   then forget id (drop_fetch id r) else r in
          written (set_slot n f r)
      end.

(** ** The process *)

Inductive event :=
| TPass (id : string) (core : coreCopy) (io : bool)          (* a pass comes to [id] *)
| TSwitch (id : string) (core : coreCopy) (io : bool)        (* the feed was switched on *)
| TEnd (id : string) (answers : list http_answer) (ans : core_answer) (io : bool)
| TSave (n : Z) (f : OwnFeed) (io : bool)
| TDrop (on : list string)
| TRestart (drawn : Z) (io : bool).

(** What the history keeps: the requests with what was sent, and the edits
    that make a slot another list. *)
Inductive record :=
| LRequest (id : string) (at_ : Z) (scheduled : bool) (src : feedSource)
| LEdit (id : string).

Record proc := mkProc { pr_runner : Runner; pr_now : Z; pr_log : list record }.

(** The request a beginning sends, if it sends one. *)
Definition request_of (id : string) (scheduled : bool) (now : Z) (r r' : Runner) : list record :=
  match rn_inflight r !! id, rn_inflight r' !! id with
  | None, Some (JFetch src _ _) => [LRequest id now scheduled src]
  | _, _ => []
  end.

(** [pass]'s body for one id: resolved, due, refreshed. *)
Definition pass_one (id : string) (core : coreCopy) (now : Z) (io : bool) (r : Runner) : Runner :=
  match source id r with
  | None => r
  | Some src => let '(yes, r) := due id (src_interval src) now r in if yes then refresh_begin id false core now io r else r
  end.

Definition edits (n : Z) (old new : OwnFeed) : list record :=
  if negb (is_empty (of_URL new)) && String.eqb (of_URL new) (of_URL old) && String.eqb (of_User new) (of_User old) then [] else [LEdit (OwnFeedID (Z.to_nat n))].

(** One event, after the clock has moved on by [wait]. *)
Definition step (demo : bool) (s : proc) (x : N * event) : proc :=
  let now := pr_now s + Z.of_N x.1 in
  let r := pr_runner s in
  match x.2 with
  | TPass id core io =>
      let r' := pass_one id core now io r in mkProc r' now (request_of id true now r r' ++ pr_log s)
  | TSwitch id core io =>
      let r' := refresh_begin id true core now io r in mkProc r' now (request_of id false now r r' ++ pr_log s)
  | TEnd id answers ans io => mkProc (refresh_end id answers ans now io r) now (pr_log s)
  | TSave n f io =>
      let '(_, r') := saveOwnFeed demo n f io r in
      mkProc r' now (edits n (slot (Z.to_nat n) r) (slot (Z.to_nat n) r') ++ pr_log s)
  | TDrop on => mkProc (dropSwitchedOff on r) now (pr_log s)
  | TRestart drawn io => mkProc (restart drawn io (rn_file r)) now (pr_log s)
  end.

Definition run (demo : bool) (s : proc) (evs : list (N * event)) : proc := foldl (step demo) s evs.
End Own.

(** ** From the published list to the kernel *)

Definition entries_of (format : string) (body : list ascii) : list string := (default ([], 0, []) (parseFeed format body)).1.1.

Lemma entries_of_named format body p : (∃ e, e ∈ entries_of format body ∧ entry_prefix e = Some p) ↔ named format body p.
Proof.
  unfold entries_of. destruct (parseFeed format body) as [[[es rej] sample]|] eqn:E; cbn [default from_option id fst].
  - destruct (parseFeed_spec _ _ _ _ _ E) as (ps & -> & HE & _ & _ & Hps). rewrite <- Hps. split.
    + intros (e & (q & -> & Hq)%list_elem_of_fmap & He).
      assert (entry_prefix (canonicalEntry q) = Some q) as Hq'.
      { apply list_elem_of_lookup in Hq as [i Hi]. apply (f_equal (λ l, l !! i)) in HE.
        rewrite !list_lookup_fmap, Hi in HE. cbn in HE. by injection HE. }
      rewrite Hq' in He. by injection He as <-.
    + intros Hp. exists (canonicalEntry p). split; [by apply list_elem_of_fmap_2|].
      apply list_elem_of_lookup in Hp as [i Hi]. apply (f_equal (λ l, l !! i)) in HE.
      rewrite !list_lookup_fmap, Hi in HE. cbn in HE. by injection HE.
  - split; [by intros (e & ?%not_elem_of_nil & _)|]. unfold parseFeed, named, line_readings in *.
    destruct (feed_reader format body) as [[? ?]|]; [done|by intros ?%not_elem_of_nil].
Qed.

(** The bodies of a refresh every URL of which was read. *)
Definition bodies_of (conditional : bool) (answers : list http_answer) (bodies : list (list ascii)) : Prop :=
  Forall2 (λ a b, ∃ etag lm, readFeedResponse conditional a = FBody b etag lm) answers bodies.

Lemma fetch_loop_entries single conditional format st next es0 answers es next' :
  fetch_loop single conditional format st next es0 answers = LrEntries es next' →
  ∃ bodies, bodies_of conditional answers bodies ∧ es = es0 ++ concat (map (entries_of format) bodies) ∧
    ff_LastAttempt next' = ff_LastAttempt next.
Proof.
  revert next es0; induction answers as [|a answers IH]; intros next es0; cbn [fetch_loop].
  { intros [= <- <-]. exists []. split_and!; [constructor|cbn; by rewrite app_nil_r|done]. }
  destruct (readFeedResponse conditional a) as [|b etag lm|] eqn:E; [done| |done].
  destruct (default ([], 0, []) (parseFeed format b)) as [[e rej] sample] eqn:Ep.
  intros (bodies & HB & -> & HL)%IH. exists (b :: bodies). split_and!; [constructor; [by do 2 eexists|done]| |].
  - cbn [map concat]. unfold entries_of at 2. rewrite Ep. cbn [fst]. by rewrite app_assoc.
  - rewrite HL. by destruct single.
Qed.

Lemma merged_elem single es e : e ∈ merged single es ↔ e ∈ es.
Proof.
  unfold merged. destruct single; [done|]. rewrite elem_of_Compact. by rewrite (merge_sort_Permutation String.le es).
Qed.

Definition published (format : string) (bodies : list (list ascii)) (p : prefix) : Prop := ∃ b, b ∈ bodies ∧ named format b p.

Lemma merged_named single format bodies p :
  (∃ e, e ∈ merged single (concat (map (entries_of format) bodies)) ∧ entry_prefix e = Some p) ↔ published format bodies p.
Proof.
  unfold published. split.
  - intros (e & He & Hp). rewrite merged_elem in He. apply list_elem_of_In, in_concat in He as (es & Hes & He).
    apply list_elem_of_In in Hes, He. apply list_elem_of_fmap in Hes as (b & -> & Hb).
    exists b. split; [done|]. apply entries_of_named. by exists e.
  - intros (b & Hb & (e & He & Hp)%entries_of_named). exists e. rewrite merged_elem. split; [|done].
    apply list_elem_of_In, in_concat. exists (entries_of format b). rewrite <- !list_elem_of_In. split; [by apply list_elem_of_fmap_2|done].
Qed.

Lemma refresh_offer_entries id src st core answers payload next :
  refresh_offer id src st core answers = OfUpdate payload next → uf_NotModified payload = false →
  uf_ID payload = id ∧ zlen (uf_Entries payload) <= FeedMaxEntries ∧ uf_Entries payload ≠ [] ∧
  ∃ bodies, bodies_of (cc_Stored core && (length (src_urls src) =? 1)%nat) (take (length (src_urls src)) answers) bodies ∧
    ∀ p, (∃ e, e ∈ uf_Entries payload ∧ entry_prefix e = Some p) ↔ published (src_format src) bodies p.
Proof.
  unfold refresh_offer. destruct (fetch_loop _ _ _ _ _ _ _) as [|nx|es nx] eqn:E; [done|by intros [= <- <-]|].
  apply fetch_loop_entries in E as (bodies & HB & -> & _). cbn [app] in *. case_bool_decide; [done|].
  destruct (Z.ltb_spec FeedMaxEntries (zlen (merged (length (src_urls src) =? 1)%nat (concat (map (entries_of (src_format src)) bodies))))); [done|].
  intros [= <- <-] _. cbn [uf_ID uf_Entries]. split_and!; [done|done|done|]. exists bodies. split; [done|]. apply merged_named.
Qed.

(** C23: What a list publishes is what the kernel refuses.  Whatever the network
    sends for a feed's addresses, when the core accepts the update offered for
    it, the copy it stores is exactly the global prefixes the lines of the
    bodies name, each once and in order; if the feed is in force its sets then
    match exactly their addresses, none of which is private; and every other
    feed keeps its copy. *)
Theorem published_list_is_enforced `{NftConn} (io : FeedIO) user id src st core answers payload next w r w' :
  refresh_offer id src st core answers = OfUpdate payload next → uf_NotModified payload = false →
  store_ok (fw_store w) → ks_queue (fw_sets w) = [] →
  UpdateFeed io payload user w = (Ok r, w') →
  ∃ bodies kept dropped,
    bodies_of (cc_Stored core && (length (src_urls src) =? 1)%nat) (take (length (src_urls src)) answers) bodies ∧
    (∀ p, p ∈ kept ↔ isGlobal p = true ∧ published (src_format src) bodies p) ∧ NoDup kept ∧ StronglySorted key_le kept ∧
    stored_copy payload w' kept dropped ∧
    (ur_Loaded r = true → sets_hold (fw_sets w') id kept) ∧
    (∀ a, addr_ok a → names kept a → non_global a = false) ∧
    (∀ state, fi_state io = Ok state → (ur_Loaded r = true ↔ id ∈ Feeds (Current state)) ∧
       ∀ i, i ≠ id → i ∈ feedIDs state → store_feeds (fw_store w') !! i = store_feeds (fw_store w) !! i).
Proof.
  intros Ho Hnm Hs Hq HU. destruct (refresh_offer_entries _ _ _ _ _ _ _ Ho Hnm) as (<- & _ & _ & bodies & HB & HP).
  destruct (accepted_update_is_enforced io payload user w r w' Hs Hq Hnm HU) as (kept & dropped & _ & HK & HC & HL & HG & HF).
  exists bodies, kept, dropped. split_and!; [done| |apply HK|apply Sorted_key_le; [by eapply keeps_net_ok|apply HK]|done|done|done|done].
  intros p. rewrite (kp_kept _ _ _ _ HK), HP. done.
Qed.

(** ** Slots of the first pull *)

(** The first slot is the first time at or after the sighting that lies at this
    install's offset within an interval. *)
Lemma firstFeedSlot_spec seen interval off :
  0 < interval → 0 <= off → Z.rem off interval <= seen →
  seen <= firstFeedSlot seen interval off < seen + interval ∧
  (firstFeedSlot seen interval off - Z.rem off interval) mod interval = 0.
Proof.
  intros Hi Ho Hs. unfold firstFeedSlot. cbv zeta. set (b := Z.rem off interval) in *.
  pose proof (Z.quot_rem' (seen - b) interval) as HQ. pose proof (Z.rem_bound_pos (seen - b) interval ltac:(lia) Hi) as HR.
  set (q := Z.quot (seen - b) interval) in *.
  destruct (Z.ltb_spec (b + q * interval) seen).
  - split; [lia|]. replace (b + q * interval + interval - b) with ((q + 1) * interval) by lia. apply Z_mod_mult.
  - split; [lia|]. replace (b + q * interval - b) with (q * interval) by lia. apply Z_mod_mult.
Qed.

(** ** Requests are spaced *)

Definition attempt_of (j : job) : option Z :=
  match j with JFetch _ st _ => ff_LastAttempt st | JDeliver _ next _ => ff_LastAttempt next end.

(** The time of the last request for [id] since the feed became this list. *)
Fixpoint last_request (id : string) (l : list record) : option Z :=
  match l with
  | [] => None
  | LRequest i t _ _ :: l => if String.eqb i id then Some t else last_request id l
  | LEdit i :: l => if String.eqb i id then None else last_request id l
  end.

(** No scheduled request follows another within the hour. *)
Fixpoint spaced (l : list record) : Prop :=
  match l with
  | [] => True
  | LRequest id t scheduled _ :: l =>
      (scheduled = true → ∀ t0, last_request id l = Some t0 → t0 + Hour <= t) ∧ spaced l
  | LEdit _ :: l => spaced l
  end.

Lemma source_interval id r src : source id r = Some src → Hour <= src_interval src.
Proof.
  unfold source. destruct (catalogue_source id) as [s|] eqn:E.
  - intros [= <-]. revert E. unfold catalogue_source. cbv zeta.
    repeat match goal with |- context [String.eqb id ?x] => destruct (String.eqb id x); [by intros [= <-]|] end. done.
  - destruct (CountryCode id); [by intros [= <-]|]. destruct (find _ _) as [n|]; [|done].
    destruct (ownFeed n r) as [o|]; [|done]. by intros [= <-].
Qed.

Lemma nextFeedAttempt_hour st interval t0 :
  Hour <= interval → ff_LastAttempt st = Some t0 → t0 + Hour <= nextFeedAttempt st interval.
Proof.
  intros Hi Ht. unfold nextFeedAttempt, last_attempt. rewrite Ht. cbn [default from_option id].
  destruct (Z.ltb_spec 0 (ff_Failures st)); [|lia]. unfold feedRetryDelay. case_bool_decide; [lia|].
  assert (Hour <= Z.shiftl Hour (Z.min (ff_Failures st - 1) 5)); [|lia].
  rewrite Z.shiftl_mul_pow2 by lia. pose proof (Z.pow_pos_nonneg 2 (Z.min (ff_Failures st - 1) 5) ltac:(lia) ltac:(lia)).
  unfold Hour, Minute, Second. nia.
Qed.

(** What is known of a feed whose last request went out at [t0]: every record
    of its attempt is that request. *)
Record attempts_at (id : string) (t0 : Z) (r : Runner) : Prop := {
  aa_state : ff_LastAttempt (fetchState id r) = Some t0;
  aa_pending : ∀ p, rn_pending r !! id = Some p → ff_LastAttempt (pd_next p) = Some t0;
  aa_inflight : ∀ j, rn_inflight r !! id = Some j → attempt_of j = Some t0 }.
Definition runner_ok (r : Runner) (log : list record) : Prop :=
  (rn_file r = Some (rn_st r) ∧ length (Own (rn_st r)) = MaxOwnFeeds) ∧
  ∀ id t0, last_request id log = Some t0 → attempts_at id t0 r.

Lemma fetchState_set io id v r i : fetchState i (setFetchState io id v r) = if decide (i = id) then v else fetchState i r.
Proof.
  unfold fetchState, setFetchState, saveLocked. destruct io; cbn [rn_st with_st Fetch]; case_decide; subst;
    rewrite ?lookup_insert_eq, ?lookup_insert_ne by done; done.
Qed.
Lemma setFetchState_rest io id v r :
  rn_pending (setFetchState io id v r) = rn_pending r ∧ rn_inflight (setFetchState io id v r) = rn_inflight r ∧
  rn_firstSeen (setFetchState io id v r) = rn_firstSeen r ∧ Own (rn_st (setFetchState io id v r)) = Own (rn_st r) ∧
  (io = true → rn_file (setFetchState io id v r) = Some (rn_st (setFetchState io id v r))).
Proof. unfold setFetchState, saveLocked. by destruct io. Qed.

(** Recording an outcome keeps the attempt. *)
Lemma set_attempts id t0 v i io r :
  attempts_at i t0 r → (i = id → ff_LastAttempt v = Some t0) → attempts_at i t0 (setFetchState io id v r).
Proof.
  intros [H1 H2 H3] Hv. destruct (setFetchState_rest io id v r) as (Hp & Hi & _). split; rewrite ?Hp, ?Hi; [|done..].
  rewrite fetchState_set. case_decide; auto.
Qed.

Lemma deliver_attempts i t0 io id payload next core ans now r :
  attempts_at i t0 r → (i = id → ff_LastAttempt next = Some t0) → attempts_at i t0 (deliver io id payload next core ans now r).
Proof.
  intros HA Hn. unfold deliver, fail. destruct ans as [changed| |text]; [by apply set_attempts| |].
  - apply set_attempts; [done|]. intros <-. apply HA.
  - destruct (StrContains text ErrApplyInProgressText).
    { destruct HA as [H1 H2 H3]. split; [done| |done]. cbn. intros p. destruct (decide (i = id)) as [->|].
      - rewrite lookup_insert_eq. intros [= <-]. auto.
      - rewrite lookup_insert_ne by done. auto. }
    repeat case_match; apply set_attempts; try done; intros <-; apply HA.
Qed.

Lemma deliver_file io id payload next core ans now r :
  io = true → rn_file r = Some (rn_st r) → rn_file (deliver io id payload next core ans now r) = Some (rn_st (deliver io id payload next core ans now r)).
Proof.
  intros -> Hf. unfold deliver, fail. destruct ans as [| |text]; try done. destruct (StrContains text _); [done|]. by repeat case_match.
Qed.

Lemma deliver_own io id payload next core ans now r : Own (rn_st (deliver io id payload next core ans now r)) = Own (rn_st r).
Proof.
  unfold deliver, fail. destruct ans as [| |text]; [by destruct io..|]. destruct (StrContains text _); [done|].
  repeat case_match; by destruct io.
Qed.

Lemma refresh_offer_attempt id src st core answers payload next :
  refresh_offer id src st core answers = OfUpdate payload next → ff_LastAttempt next = ff_LastAttempt st.
Proof.
  unfold refresh_offer.
  assert (∀ single c fmt answers es0 nx0, ff_LastAttempt nx0 = ff_LastAttempt st →
    match fetch_loop single c fmt st nx0 es0 answers with
    | LrFailure _ _ => True | LrNotModified nx | LrEntries _ nx => ff_LastAttempt nx = ff_LastAttempt st end) as H.
  { intros single c fmt. clear. induction answers as [|a answers IH]; intros es0 nx0 Hnx; [done|]. cbn [fetch_loop].
    destruct (readFeedResponse c a); [done| |done]. destruct (default _ _) as [[? ?] ?]. apply IH. by destruct single. }
  specialize (H (length (src_urls src) =? 1)%nat (cc_Stored core && (length (src_urls src) =? 1)%nat) (src_format src)
    (take (length (src_urls src)) answers) [] (with_rejected 0 [] st) eq_refl).
  destruct (fetch_loop _ _ _ _ _ _ _); [done|by intros [= <- <-]|]. case_bool_decide; [done|]. destruct (_ <? _); [done|].
  by intros [= <- <-].
Qed.
Lemma refresh_offer_failure id src st core answers st' reason status :
  refresh_offer id src st core answers = OfFailure st' reason status → ff_LastAttempt st' = ff_LastAttempt st.
Proof.
  unfold refresh_offer. destruct (fetch_loop _ _ _ _ _ _ _); [by intros [= <- <- <-]|done|].
  case_bool_decide; [by intros [= <- <- <-]|]. destruct (_ <? _); [by intros [= <- <- <-]|done].
Qed.

Lemma refresh_end_ok id answers ans now r log :
  runner_ok r log → runner_ok (refresh_end id answers ans now true r) log.
Proof.
  intros [[Hf Hown] HA]. unfold refresh_end. destruct (rn_inflight r !! id) as [j|] eqn:Ej; [|done].
  set (r1 := match j with JFetch _ _ _ => _ | JDeliver _ _ _ => _ end).
  assert (Own (rn_st r1) = Own (rn_st r)) as Ho1.
  { unfold r1. destruct j; [unfold fetch_end; destruct (refresh_offer _ _ _ _ _); [done|]|]; apply deliver_own. }
  assert (rn_file r1 = Some (rn_st r1) ∧ ∀ i t0, attempts_at i t0 r → attempts_at i t0 r1) as [Hf1 HA1].
  { unfold r1. destruct j as [src st core|payload next core]; [unfold fetch_end; destruct (refresh_offer _ _ _ _ _) as [st' reason status|payload next] eqn:Eo|].
    - split; [by apply setFetchState_rest|]. intros i t0 Hi. apply set_attempts; [done|]. intros <-.
      apply refresh_offer_failure in Eo. cbn. rewrite Eo. by apply (aa_inflight _ _ _ Hi) in Ej.
    - split; [by apply deliver_file|]. intros i t0 Hi. apply deliver_attempts; [done|]. intros <-.
      rewrite (refresh_offer_attempt _ _ _ _ _ _ _ Eo). by apply (aa_inflight _ _ _ Hi) in Ej.
    - split; [by apply deliver_file|]. intros i t0 Hi. apply deliver_attempts; [done|]. intros <-.
      by apply (aa_inflight _ _ _ Hi) in Ej. }
  split; [split; [done|by cbn; rewrite Ho1]|]. intros i t0 Hl. destruct (HA1 i t0 (HA i t0 Hl)) as [H1 H2 H3]. split; [done|done|].
  cbn. intros j'. destruct (decide (i = id)) as [->|]; [by rewrite lookup_delete_eq|]. rewrite lookup_delete_ne by done. auto.
Qed.

(** A beginning either sends a request, recorded as it goes out, or leaves the
    attempts as they were. *)
Lemma refresh_begin_ok id only core now r log scheduled :
  runner_ok r log →
  let r' := refresh_begin id only core now true r in runner_ok r' (request_of id scheduled now r r' ++ log).
Proof.
  intros [Hf HA]. cbv zeta. unfold refresh_begin, request_of. destruct (rn_inflight r !! id) as [j|] eqn:Ej; [by split|].
  destruct (rn_pending r !! id) as [p|] eqn:Ep.
  { cbn [rn_inflight with_inflight]. rewrite lookup_insert_eq. cbn [app]. split; [done|]. intros i t0 Hl.
    destruct (HA i t0 Hl) as [H1 H2 H3]. split; [done| |].
    - cbn. intros q. destruct (decide (i = id)) as [->|]; [by rewrite lookup_delete_eq|]. rewrite lookup_delete_ne by done. auto.
    - cbn. intros j'. destruct (decide (i = id)) as [->|]; [|rewrite lookup_insert_ne by done; auto].
      rewrite lookup_insert_eq. intros [= <-]. cbn. auto. }
  destruct (source id r) as [src|] eqn:Es; [|by rewrite Ej]. cbv zeta.
  destruct (held_back _ _ _ _ _); [by rewrite Ej|]. cbn [rn_inflight with_inflight]. rewrite lookup_insert_eq. cbn [app].
  set (st := with_attempt now (fetchState id r)). destruct (setFetchState_rest true id st r) as (Hp & Hi & _ & _ & Hf').
  split; [split; [exact (Hf' eq_refl)|exact (proj2 Hf)]|]. intros i t0. cbn [last_request]. destruct (String.eqb_spec id i) as [<-|Hne].
  - intros [= <-]. split.
    + change (ff_LastAttempt (fetchState id (setFetchState true id st r)) = Some now). rewrite fetchState_set. by case_decide.
    + cbn [rn_pending with_inflight]. rewrite Hp, Ep. done.
    + cbn [rn_inflight with_inflight]. rewrite lookup_insert_eq. by intros j [= <-].
  - intros Hl. destruct (HA i t0 Hl) as [H1 H2 H3]. split.
    + change (ff_LastAttempt (fetchState i (setFetchState true id st r)) = Some t0). rewrite fetchState_set. by case_decide.
    + cbn [rn_pending with_inflight]. by rewrite Hp.
    + cbn [rn_inflight with_inflight]. rewrite Hi, lookup_insert_ne by done. done.
Qed.

Lemma due_keeps id interval now r log :
  runner_ok r log → runner_ok (due id interval now r).2 log ∧ rn_inflight (due id interval now r).2 = rn_inflight r ∧
  source id (due id interval now r).2 = source id r.
Proof.
  intros HR. unfold due. destruct (rn_pending r !! id); [done|]. destruct (ff_LastAttempt _); [done|].
  cbn [snd]. destruct (rn_firstSeen r !! id); [done|]. split; [|done]. destruct HR as [Hf HA]. split; [done|].
  intros i t0 Hl. by destruct (HA i t0 Hl).
Qed.

(** A request of a pass comes an hour after the last. *)
Lemma pass_spaced id core now r log src sched t s :
  runner_ok r log → In (LRequest id t sched s) (request_of id src now r (pass_one id core now true r)) →
  t = now ∧ ∀ t0, last_request id log = Some t0 → t0 + Hour <= now.
Proof.
  intros HR. unfold pass_one. destruct (source id r) as [sr|] eqn:Es.
  2:{ unfold request_of. by destruct (rn_inflight r !! id). }
  pose proof (due_keeps id (src_interval sr) now r log HR) as (HR' & Hi & _).
  destruct (due id (src_interval sr) now r) as [yes r1] eqn:Ed. cbn [snd] in *.
  destruct yes.
  2:{ unfold request_of. rewrite Hi. by destruct (rn_inflight r !! id). }
  unfold request_of, refresh_begin. rewrite Hi. destruct (rn_inflight r !! id) as [j|] eqn:Ej; [done|].
  unfold due in Ed. destruct (rn_pending r !! id) as [p|] eqn:Ep.
  { injection Ed as _ <-. rewrite Ep. cbn [rn_inflight with_inflight]. by rewrite lookup_insert_eq. }
  intros Hin. assert (t = now) as ->.
  { destruct (rn_inflight _ !! id) as [[]|] in Hin; [destruct Hin as [[=]|[]]; done|destruct Hin..]. }
  split; [done|]. intros t0 Hl. destruct (proj2 HR id t0 Hl) as [H1 _ _]. rewrite H1 in Ed. injection Ed as Hdue <-.
  apply Z.leb_le in Hdue. pose proof (nextFeedAttempt_hour _ _ _ (source_interval _ _ _ Es) H1). lia.
Qed.

(** ** The whole process *)

Lemma spaced_app l1 l2 : spaced (l1 ++ l2) → spaced l2.
Proof. induction l1 as [|[] l1 IH]; [done|..]; cbn; naive_solver. Qed.
Lemma spaced_cons l1 l2 : (∀ id t s src, In (LRequest id t s src) l1 → s = true → ∀ t0, last_request id l2 = Some t0 → t0 + Hour <= t) →
  (length l1 <= 1)%nat → spaced l2 → spaced (l1 ++ l2).
Proof.
  destruct l1 as [|x [|]]; [done| |cbn; lia]. intros H _ Hs. destruct x as [id t s src|id]; cbn; [|done]. split; [|done].
  intros Hs' t0. apply (H id t s src); [by left|done].
Qed.
Lemma request_of_one id sched now r r' : (length (request_of id sched now r r') <= 1)%nat.
Proof. unfold request_of. by repeat case_match; cbn; lia. Qed.
Lemma request_of_sched id now r r' i t s src : In (LRequest i t s src) (request_of id false now r r') → s = false.
Proof. unfold request_of. repeat case_match; cbn; naive_solver. Qed.

Definition io_of (e : event) : bool :=
  match e with TPass _ _ io | TSwitch _ _ io | TEnd _ _ _ io | TSave _ _ io | TRestart _ io => io | TDrop _ => true end.

Section Runs.
Context (Parse : string → option URL) (IsPrint : Z → bool).

Lemma fetchState_ext r r' i : Fetch (rn_st r') = Fetch (rn_st r) → fetchState i r' = fetchState i r.
Proof. unfold fetchState. by intros ->. Qed.

Lemma slot_set n f r : (1 <= n)%nat → (n <= length (Own (rn_st r)))%nat → slot n (set_slot n f r) = f.
Proof. intros H1 Hn. unfold slot, set_slot. cbn [rn_st with_st Own]. rewrite nth_lookup, list_lookup_insert_eq by lia. done. Qed.

(** What a save of a slot leaves: the slot and nothing else, or another list. *)
Lemma save_ok demo n f r log :
  runner_ok r log →
  let '(_, r') := saveOwnFeed Parse IsPrint demo n f true r in
  runner_ok r' (edits n (slot (Z.to_nat n) r) (slot (Z.to_nat n) r') ++ log).
Proof.
  intros HR. set (m := Z.to_nat n). set (id := OwnFeedID m). pose proof HR as [[Hf Hown] HA].
  assert (∀ r', runner_ok r' log → runner_ok r' (LEdit id :: log)) as Hedit0.
  { intros r' [Hf' HA']. split; [done|]. intros i t0. cbn. destruct (String.eqb_spec id i); [done|auto]. }
  assert (∀ r' o o', runner_ok r' log → runner_ok r' (edits n o o' ++ log)) as Hsame.
  { intros r' o o' Hr. unfold edits. destruct (_ && _); [done|]. by apply Hedit0. }
  unfold saveOwnFeed. destruct demo; [by apply Hsame|]. destruct (_ || _) eqn:En; [by apply Hsame|]. breflect.
  cbv zeta. cbn [of_Name of_URL of_User of_Password]. fold m. fold id.
  assert (1 <= m <= MaxOwnFeeds)%nat as Hm by (unfold m, MaxOwnFeeds in *; lia).
  set (f' := mkOwnFeed _ _ _ _).
  assert (∀ o, runner_ok (saveLocked true (forget id (drop_fetch id (set_slot m o r)))) (LEdit id :: log)) as Hother.
  { intros o. split; [split; [done|]|].
    - cbn. by rewrite length_insert.
    - intros i t0. cbn [last_request]. destruct (String.eqb_spec id i) as [|Hne]; [done|]. intros Hl. destruct (HA i t0 Hl) as [A1 A2 A3].
      split; [|cbn; by rewrite lookup_delete_ne|done]. unfold fetchState in *. cbn. by rewrite lookup_delete_ne. }
  assert (∀ o, slot m (saveLocked true (forget id (drop_fetch id (set_slot m o r)))) = o ∧ slot m (saveLocked true (set_slot m o r)) = o) as Hslot.
  { intros o. assert (slot m (set_slot m o r) = o) as Hsl by (apply slot_set; lia). by split. }
  destruct (is_empty _ && is_empty _).
  { unfold edits. rewrite (proj1 (Hslot noOwn)). cbn [of_URL noOwn is_empty negb andb app]. apply Hother. }
  destruct (_ || _); [by apply Hsame|]. destruct (negb _); [by apply Hsame|]. destruct (_ || _); [by apply Hsame|].
  destruct (kept_password _ _ _) as [pw|]; [|by apply Hsame]. set (g := mkOwnFeed (TrimSpace (of_Name f)) (TrimSpace (of_URL f)) (TrimSpace (of_User f)) pw).
  destruct (negb _ || negb _) eqn:Ech.
  - replace (set_slot m g (forget id (drop_fetch id r))) with (forget id (drop_fetch id (set_slot m g r))) by done.
    rewrite (proj1 (Hslot g)). unfold edits.
    assert (negb (is_empty (of_URL g)) && String.eqb (of_URL g) (of_URL (slot m r)) && String.eqb (of_User g) (of_User (slot m r)) = false) as ->.
    { cbn [of_URL of_User g]. revert Ech.
      destruct (String.eqb (TrimSpace (of_URL f)) _), (String.eqb (TrimSpace (of_User f)) _); cbn; rewrite ?andb_false_r; done. }
    apply Hother.
  - apply Hsame. split; [split; [done|]|].
    + cbn. by rewrite length_insert.
    + intros i t0 Hl. by destruct (HA i t0 Hl).
Qed.

Lemma drop_ok on r log : runner_ok r log → runner_ok (dropSwitchedOff on r) log.
Proof.
  intros [Hf HA]. split; [done|]. intros i t0 Hl. destruct (HA i t0 Hl) as [A1 A2 A3]. split; [done| |done].
  cbn. intros p [Hp _]%map_lookup_filter_Some. auto.
Qed.

(** A restart finds the attempts in the file. *)
Lemma restart_ok drawn r log : runner_ok r log → runner_ok (restart drawn true (rn_file r)) log.
Proof.
  intros [[Hf Hown] HA]. rewrite Hf. unfold restart, loaded. cbn [default from_option id].
  assert (∀ st', Fetch st' = Fetch (rn_st r) → Own st' = Own (rn_st r) → runner_ok (mkRunner st' (Some st') ∅ ∅ ∅) log) as H.
  { intros st' HF HO. split; [split; [done|by cbn; rewrite HO]|]. intros i t0 Hl. destruct (HA i t0 Hl) as [A1 _ _].
    split; [|done..]. unfold fetchState in *. cbn. by rewrite HF. }
  destruct (_ || _); by apply H.
Qed.

Lemma step_ok demo s x :
  io_of x.2 = true → runner_ok (pr_runner s) (pr_log s) → spaced (pr_log s) →
  runner_ok (pr_runner (step Parse IsPrint demo s x)) (pr_log (step Parse IsPrint demo s x)) ∧
  spaced (pr_log (step Parse IsPrint demo s x)).
Proof.
  destruct x as [wait e]. cbn [snd]. intros Hio HR HS. unfold step. cbn [fst snd]. set (now := pr_now s + Z.of_N wait).
  destruct e as [id core io|id core io|id answers ans io|n f io|on|drawn io]; cbn in Hio; subst; cbn [pr_runner pr_log].
  - assert (runner_ok (pass_one id core now true (pr_runner s))
      (request_of id true now (pr_runner s) (pass_one id core now true (pr_runner s)) ++ pr_log s)) as H1.
    { unfold pass_one. destruct (source id (pr_runner s)) as [src|]; [|unfold request_of; by destruct (rn_inflight (pr_runner s) !! id)].
      pose proof (due_keeps id (src_interval src) now _ _ HR) as (HR' & Hi & _).
      destruct (due id (src_interval src) now (pr_runner s)) as [yes r1]. cbn [snd] in *.
      assert (∀ r', request_of id true now (pr_runner s) r' = request_of id true now r1 r') as Hreq by (intros; unfold request_of; by rewrite Hi).
      rewrite Hreq. destruct yes; [by apply refresh_begin_ok|]. unfold request_of. by destruct (rn_inflight r1 !! id). }
    split; [done|]. apply spaced_cons; [|apply request_of_one|done]. intros i t sc src Hin _.
    assert (i = id) as -> by (revert Hin; unfold request_of; repeat case_match; cbn; naive_solver).
    by apply (pass_spaced id core now _ (pr_log s) true sc t src HR) in Hin as [-> ?].
  - split; [by apply refresh_begin_ok|]. apply spaced_cons; [|apply request_of_one|done].
    intros i t sc src Hin. apply request_of_sched in Hin. by subst.
  - split; [by apply refresh_end_ok|done].
  - pose proof (save_ok demo n f _ _ HR) as H1. destruct (saveOwnFeed _ _ _ _ _ _ _) as [e r']. cbn [pr_runner pr_log].
    split; [done|]. unfold edits. by destruct (_ && _).
  - split; [by apply drop_ok|done].
  - split; [by apply restart_ok|done].
Qed.

Lemma run_ok demo s evs :
  Forall (λ x, io_of x.2 = true) evs → runner_ok (pr_runner s) (pr_log s) → spaced (pr_log s) →
  runner_ok (pr_runner (run Parse IsPrint demo s evs)) (pr_log (run Parse IsPrint demo s evs)) ∧ spaced (pr_log (run Parse IsPrint demo s evs)).
Proof.
  unfold run. intros Hio. revert s. induction Hio as [|x evs Hx _ IH]; intros s HR HS; [done|]. cbn [foldl].
  destruct (step_ok demo s x Hx HR HS). by apply IH.
Qed.

(** C25: A publisher is asked at most once an hour.  Over any passes, switch-ons,
    deliveries, edits and restarts, a request of the schedule goes out at
    least an hour after the last one for the same list, whatever the network
    and the core answered, provided the state file can be written. *)
Theorem scheduled_requests_are_spaced demo drawn f0 now evs l1 id t src l2 t0 :
  (∀ st, f0 = Some st → length (Own st) = MaxOwnFeeds) → Forall (λ x, io_of x.2 = true) evs →
  pr_log (run Parse IsPrint demo (mkProc (restart drawn true f0) now []) evs) = l1 ++ LRequest id t true src :: l2 →
  last_request id l2 = Some t0 → t0 + Hour <= t.
Proof.
  intros H0 Hio Hlog Hlast. set (s0 := mkProc (restart drawn true f0) now []) in *.
  assert (runner_ok (pr_runner s0) (pr_log s0) ∧ spaced (pr_log s0)) as Hs0.
  { split; [|done]. split; [|done]. cbn. unfold restart, loaded. destruct f0 as [st|]; cbn [default from_option Datatypes.id].
    - specialize (H0 st eq_refl). by destruct (_ || _).
    - done. }
  destruct Hs0 as [HR0 HS0]. destruct (run_ok demo s0 evs Hio HR0 HS0) as [_ HS].
  rewrite Hlog in HS. apply spaced_app in HS. cbn in HS. by apply HS.
Qed.
End Runs.

(** ** Credentials stay with their host *)

(** Every operation but a save of a slot leaves the slots and the file, or
    writes the state to the file. *)
Definition keeps_slots (r r' : Runner) : Prop :=
  Own (rn_st r') = Own (rn_st r) ∧ ∀ st, rn_file r' = Some st → Own st = Own (rn_st r) ∨ rn_file r = Some st.
Lemma keeps_refl r : keeps_slots r r.
Proof. split; [done|]. by right. Qed.
Lemma keeps_trans a b c : keeps_slots a b → keeps_slots b c → keeps_slots a c.
Proof. intros [H1 H2] [H3 H4]. split; [congruence|]. intros st [H|H]%H4; [left; congruence|auto]. Qed.
Lemma keeps_set io id v r : keeps_slots r (setFetchState io id v r).
Proof. unfold setFetchState, saveLocked. split; destruct io; cbn; naive_solver. Qed.
Lemma keeps_deliver io id payload next core ans now r : keeps_slots r (deliver io id payload next core ans now r).
Proof.
  split; [apply deliver_own|]. unfold deliver, fail. intros st. destruct ans as [| |text]; [by intros []%keeps_set; auto..|].
  destruct (StrContains text _); [by right|]. repeat case_match; intros Hf; by apply keeps_set in Hf.
Qed.
Lemma keeps_begin id only core now io r : keeps_slots r (refresh_begin id only core now io r).
Proof.
  unfold refresh_begin. destruct (rn_inflight r !! id); [apply keeps_refl|]. destruct (rn_pending r !! id); [by apply (keeps_refl r)|].
  destruct (source id r); [|apply keeps_refl]. cbv zeta. destruct (held_back _ _ _ _ _); [apply keeps_refl|]. apply keeps_set.
Qed.
Lemma keeps_due id interval now r : keeps_slots r (due id interval now r).2.
Proof. unfold due. destruct (rn_pending r !! id); [apply keeps_refl|]. destruct (ff_LastAttempt _); [apply keeps_refl|]. destruct (rn_firstSeen r !! id); by apply (keeps_refl r). Qed.
Lemma keeps_pass id core now io r : keeps_slots r (pass_one id core now io r).
Proof.
  unfold pass_one. destruct (source id r) as [src|]; [|apply keeps_refl]. pose proof (keeps_due id (src_interval src) now r).
  destruct (due _ _ _ _) as [[] r1]; [|done]. eapply keeps_trans; [done|apply keeps_begin].
Qed.
Lemma keeps_end id answers ans now io r : keeps_slots r (refresh_end id answers ans now io r).
Proof.
  unfold refresh_end. destruct (rn_inflight r !! id) as [j|]; [|apply keeps_refl].
  destruct j; [unfold fetch_end; destruct (refresh_offer _ _ _ _ _); [apply keeps_set|apply keeps_deliver]|apply keeps_deliver].
Qed.

Lemma begin_source id only core now io r src st core' :
  rn_inflight (refresh_begin id only core now io r) !! id = Some (JFetch src st core') → rn_inflight r !! id = None → source id r = Some src.
Proof.
  unfold refresh_begin. intros H E. rewrite E in H. destruct (rn_pending r !! id); [cbn in H; by rewrite lookup_insert_eq in H|].
  destruct (source id r) as [s|]; [|congruence]. cbv zeta in H. destruct (held_back _ _ _ _ _); [congruence|].
  cbn in H. rewrite lookup_insert_eq in H. by injection H as <-.
Qed.
Lemma pass_source id core now io r src st core' :
  rn_inflight (pass_one id core now io r) !! id = Some (JFetch src st core') → rn_inflight r !! id = None → source id r = Some src.
Proof.
  unfold pass_one. destruct (source id r) as [s|] eqn:Es; [|congruence].
  assert (rn_inflight (due id (src_interval s) now r).2 = rn_inflight r ∧ source id (due id (src_interval s) now r).2 = source id r) as [Hi Hs].
  { unfold due. destruct (rn_pending r !! id); [done|]. destruct (ff_LastAttempt _); [done|]. by destruct (rn_firstSeen r !! id). }
  destruct (due _ _ _ _) as [[] r1]; cbn [snd] in *; [|congruence]. intros H E. rewrite <- Es, <- Hs. eapply begin_source; [exact H|by rewrite Hi].
Qed.
Section Passwords.
Context (Parse : string → option URL) (IsPrint : Z → bool) (demo : bool).

(** The same address, or one with the same scheme, host and port. *)
Definition same_host (a b : string) : Prop := a = b ∨ sameOwnFeedHost Parse a b = true.

Lemma same_host_trans a b c : same_host a b → sameOwnFeedHost Parse b c = true → same_host a c.
Proof.
  intros [->|H1] H2; right; [done|]. unfold sameOwnFeedHost in *.
  destruct (is_empty a); [done|]. destruct (is_empty b); [done|]. destruct (is_empty c); [done|].
  destruct (Parse a) as [ua|]; [|done]. destruct (Parse b) as [ub|]; [|done]. destruct (Parse c) as [uc|]; [|done].
  cbn in *. apply andb_true_iff in H1 as [E1%String.eqb_eq E2%String.eqb_eq], H2 as [E3%String.eqb_eq E4%String.eqb_eq].
  apply andb_true_iff. split; apply String.eqb_eq; congruence.
Qed.

(** The passwords of slot [n] that were there at the start or typed since, each
    with the address it was for. *)
Definition typed_for (f0 : option feedStateFile) (evs : list (N * event)) (n : nat) (pw url : string) : Prop :=
  (∃ st, f0 = Some st ∧ of_Password (nth (n - 1) (Own st) noOwn) = pw ∧ of_URL (nth (n - 1) (Own st) noOwn) = url) ∨
  (∃ w k f io, (w, TSave k f io) ∈ evs ∧ Z.to_nat k = n ∧ of_Password f = pw ∧ TrimSpace (of_URL f) = url).

Definition slots_ok (f0 : option feedStateFile) (evs : list (N * event)) (own : list OwnFeed) : Prop :=
  ∀ n, (1 <= n)%nat → let o := nth (n - 1) own noOwn in
    of_Password o ≠ "" → ∃ url, typed_for f0 evs n (of_Password o) url ∧ same_host url (of_URL o).

Definition creds_ok (f0 : option feedStateFile) (evs : list (N * event)) (s : proc) : Prop :=
  slots_ok f0 evs (Own (rn_st (pr_runner s))) ∧
  (∀ st, rn_file (pr_runner s) = Some st → slots_ok f0 evs (Own st)) ∧
  Forall (λ x, match x with
               | LRequest id _ _ src => src_password src ≠ "" →
                   ∃ n url, id = OwnFeedID n ∧ typed_for f0 evs n (src_password src) url ∧ Forall (same_host url) (src_urls src)
               | LEdit _ => True end) (pr_log s).

Lemma typed_more f0 evs x n pw url : typed_for f0 evs n pw url → typed_for f0 (evs ++ [x]) n pw url.
Proof. intros [H|(w & k & f & io & H & ?)]; [by left|]. right. exists w, k, f, io. split; [|done]. apply elem_of_app. by left. Qed.
Lemma slots_more f0 evs x own : slots_ok f0 evs own → slots_ok f0 (evs ++ [x]) own.
Proof. intros H n Hn o Ho. destruct (H n Hn Ho) as (url & ? & ?). exists url. split; [by apply typed_more|done]. Qed.

Lemma keeps_creds f0 evs x r r' now now' log l :
  keeps_slots r r' → creds_ok f0 evs (mkProc r now log) →
  Forall (λ x, match x with
               | LRequest id _ _ src => src_password src ≠ "" →
                   ∃ n url, id = OwnFeedID n ∧ typed_for f0 evs n (src_password src) url ∧ Forall (same_host url) (src_urls src)
               | LEdit _ => True end) l →
  creds_ok f0 (evs ++ [x]) (mkProc r' now' (l ++ log)).
Proof.
  intros [K1 K2] (H1 & H2 & H3) Hl. cbn in *. split_and!; cbn.
  - rewrite K1. by apply slots_more.
  - intros st [E|E]%K2; [rewrite E; by apply slots_more|]. by apply slots_more, H2.
  - apply Forall_app. split; [eapply Forall_impl; [exact Hl|]|eapply Forall_impl; [exact H3|]];
      intros [id t s src|id]; try done; intros Hs Hp; destruct (Hs Hp) as (n & url & ? & ? & ?); exists n, url;
      (split_and!; [done|by apply typed_more|done]).
Qed.

(** A request carries the credentials of the slot it is for. *)
Lemma source_creds f0 evs id r src :
  slots_ok f0 evs (Own (rn_st r)) → source id r = Some src → src_password src ≠ "" →
  ∃ n url, id = OwnFeedID n ∧ typed_for f0 evs n (src_password src) url ∧ Forall (same_host url) (src_urls src).
Proof.
  intros HS. unfold source. destruct (catalogue_source id) as [s|] eqn:E.
  { intros [= <-] Hp. exfalso. apply Hp. revert E. unfold catalogue_source. cbv zeta.
    repeat match goal with |- context [String.eqb id ?x] => destruct (String.eqb id x); [by intros [= <-]|] end. done. }
  destruct (CountryCode id); [by intros [= <-]|]. destruct (find _ _) as [n|] eqn:En; [|done].
  apply find_some in En as [Hn Hid%String.eqb_eq]. apply in_seq in Hn. unfold ownFeed. cbv zeta.
  destruct (is_empty _); [done|]. cbn [mbind option_bind]. intros [= <-] Hp. cbn [src_password src_urls] in *.
  destruct (HS n ltac:(lia) Hp) as (url & Ht & Hu). exists n, url. split_and!; [done|done|constructor; [exact Hu|constructor]].
Qed.

Lemma request_creds f0 evs id sched now r r' :
  slots_ok f0 evs (Own (rn_st r)) → (∀ src st core, rn_inflight r' !! id = Some (JFetch src st core) → rn_inflight r !! id = None → source id r = Some src) →
  Forall (λ x, match x with
               | LRequest id _ _ src => src_password src ≠ "" →
                   ∃ n url, id = OwnFeedID n ∧ typed_for f0 evs n (src_password src) url ∧ Forall (same_host url) (src_urls src)
               | LEdit _ => True end) (request_of id sched now r r').
Proof.
  intros HS Hsrc. unfold request_of. destruct (rn_inflight r !! id) as [|] eqn:E; [done|].
  destruct (rn_inflight r' !! id) as [[src st core|]|] eqn:E'; [|done..]. repeat constructor. by eapply source_creds, Hsrc.
Qed.

Lemma nth_slot n m (o : OwnFeed) own : (1 <= n)%nat → (1 <= m)%nat →
  nth (n - 1) (<[(m - 1)%nat := o]> own) noOwn = o ∧ n = m ∨ nth (n - 1) (<[(m - 1)%nat := o]> own) noOwn = nth (n - 1) own noOwn.
Proof.
  intros Hn Hm. rewrite !nth_lookup. destruct (decide (n = m)) as [->|Hne].
  - destruct (decide (m - 1 < length own)%nat); [left; by rewrite list_lookup_insert_eq|].
    right. by rewrite list_insert_ge by lia.
  - right. by rewrite list_lookup_insert_ne by lia.
Qed.

Lemma slots_set f0 evs own m o :
  (1 <= m)%nat → slots_ok f0 evs own → (of_Password o ≠ "" → ∃ url, typed_for f0 evs m (of_Password o) url ∧ same_host url (of_URL o)) →
  slots_ok f0 evs (<[(m - 1)%nat := o]> own).
Proof.
  intros Hm HS Ho n Hn. destruct (nth_slot n m o own Hn Hm) as [[E ->]|E]; rewrite E; [done|]. by apply HS.
Qed.

Lemma save_slots f0 evs w n f io r :
  slots_ok f0 evs (Own (rn_st r)) → (∀ st, rn_file r = Some st → slots_ok f0 evs (Own st)) →
  let r' := (saveOwnFeed Parse IsPrint demo n f io r).2 in
  slots_ok f0 (evs ++ [(w, TSave n f io)]) (Own (rn_st r')) ∧
  ∀ st, rn_file r' = Some st → slots_ok f0 (evs ++ [(w, TSave n f io)]) (Own st).
Proof.
  intros HS HF. cbv zeta. set (evs' := evs ++ _).
  assert (slots_ok f0 evs' (Own (rn_st r))) as HS' by by apply slots_more.
  assert (∀ st, rn_file r = Some st → slots_ok f0 evs' (Own st)) as HF' by (intros st Hst; by apply slots_more, HF).
  unfold saveOwnFeed. destruct demo; [done|]. destruct (_ || _) eqn:En; [done|]. breflect. cbv zeta. cbn [of_Name of_URL of_User of_Password].
  set (m := Z.to_nat n). assert (1 <= m)%nat as Hm by (unfold m; lia).
  assert (∀ r1 o, Own (rn_st r1) = <[(m - 1)%nat := o]> (Own (rn_st r)) → rn_file r1 = rn_file r →
    (of_Password o ≠ "" → ∃ url, typed_for f0 evs' m (of_Password o) url ∧ same_host url (of_URL o)) →
    slots_ok f0 evs' (Own (rn_st (saveLocked io r1))) ∧ ∀ st, rn_file (saveLocked io r1) = Some st → slots_ok f0 evs' (Own st)) as Hset.
  { intros r1 o H1 H2 Ho. assert (slots_ok f0 evs' (Own (rn_st r1))) as HO by (rewrite H1; by apply slots_set).
    unfold saveLocked. destruct io; cbn [rn_st rn_file]; [split; [done|]; by intros st [= <-]|]. rewrite H2. by split. }
  destruct (is_empty _ && is_empty _); [by eapply (Hset _ noOwn)|].
  destruct (_ || _); [done|]. destruct (negb _); [done|]. destruct (_ || _); [done|].
  set (g := mkOwnFeed (TrimSpace (of_Name f)) (TrimSpace (of_URL f)) (TrimSpace (of_User f)) (of_Password f)).
  destruct (kept_password _ _ g) as [pw|] eqn:Ek; [|done].
  apply (Hset _ (mkOwnFeed (TrimSpace (of_Name f)) (TrimSpace (of_URL f)) (TrimSpace (of_User f)) pw));
    [by destruct (_ || _)|by destruct (_ || _)|]. cbn [of_Password of_URL]. intros Hpw.
  revert Ek. unfold kept_password. cbn [of_User of_Password of_URL g]. destruct (is_empty (TrimSpace (of_User f))); [by intros [= <-]|].
  destruct (is_empty (of_Password f)) eqn:Ep.
  - destruct (_ && _) eqn:Eh; [done|]. intros [= <-]. assert (is_empty (of_Password (slot m r)) = false) as Hne by (by destruct (of_Password (slot m r))).
    rewrite Hne in Eh. cbn in Eh. apply negb_false_iff in Eh.
    destruct (HS' m Hm Hpw) as (url & Ht & Hu). exists url. split; [done|]. by eapply same_host_trans.
  - intros [= <-]. exists (TrimSpace (of_URL f)). split; [|by left]. right. exists w, n, f, io.
    split_and!; [apply elem_of_app; right; by left|done|done|done].
Qed.

Lemma creds_step f0 evs x s : creds_ok f0 evs s → creds_ok f0 (evs ++ [x]) (step Parse IsPrint demo s x).
Proof.
  intros HC. destruct x as [w e]. destruct s as [r now0 log]. pose proof HC as (H1 & H2 & H3). cbn in H1, H2, H3.
  unfold step. cbn [fst snd pr_now pr_runner pr_log]. set (now := now0 + Z.of_N w).
  destruct e as [id core io|id core io|id answers ans io|n f io|on|drawn io].
  - apply (keeps_creds f0 evs _ r _ now0); [apply keeps_pass|done|]. apply request_creds; [done|]. intros. by eapply pass_source.
  - apply (keeps_creds f0 evs _ r _ now0); [apply keeps_begin|done|]. apply request_creds; [done|]. intros. by eapply begin_source.
  - apply (keeps_creds f0 evs _ r _ now0 _ _ []); [apply keeps_end|done|done].
  - pose proof (save_slots f0 evs w n f io r H1 H2) as [S1 S2]. destruct (saveOwnFeed _ _ _ _ _ _ _) as [e r'] eqn:E. cbn [snd] in *.
    split_and!; cbn [pr_runner pr_log]; [done|done|]. apply Forall_app. split; [unfold edits; destruct (_ && _); by repeat constructor|].
    eapply Forall_impl; [exact H3|]. intros [id t s src|id]; [|done]. intros Hs Hp. destruct (Hs Hp) as (k & url & ? & ? & ?).
    exists k, url. split_and!; [done|by apply typed_more|done].
  - apply (keeps_creds f0 evs _ r _ now0 _ _ []); [|done|done]. split; [done|]. by right.
  - assert (Own (rn_st (restart drawn io (rn_file r))) = Own (loaded (rn_file r) drawn) ∧
      ∀ st, rn_file (restart drawn io (rn_file r)) = Some st → Own st = Own (loaded (rn_file r) drawn) ∨ rn_file r = Some st) as [K1 K2].
    { unfold restart. destruct (match rn_file r with None => _ | Some _ => _ end), io; cbn; split; try done; intros st Hst;
        try (by right); left; by injection Hst as <-. }
    assert (slots_ok f0 evs (Own (loaded (rn_file r) drawn))) as HL.
    { unfold loaded. destruct (rn_file r) as [st|] eqn:Ef; cbn [default from_option Datatypes.id].
      - specialize (H2 st eq_refl). by destruct (_ || _).
      - intros n Hn. cbn. destruct (n - 1)%nat as [|[|[|[]]]]; done. }
    split_and!; cbn [pr_runner pr_log].
    + rewrite K1. by apply slots_more.
    + intros st [E|E]%K2; [rewrite E; by apply slots_more|]. by apply slots_more, H2.
    + eapply Forall_impl; [exact H3|]. intros [id t s src|id]; [|done]. intros Hs Hp. destruct (Hs Hp) as (k & url & ? & ? & ?).
      exists k, url. split_and!; [done|by apply typed_more|done].
Qed.

(** C26: A password goes only where it was typed for.  Whatever is saved into the
    slots, with fields left empty or not, whatever is restarted and whichever
    writes fail, every request that carries a password carries one that was
    typed into that slot, or was there at the start, for the same scheme, host
    and port it is sent to; a catalogue list never carries one. *)
Theorem own_password_stays_with_its_host drawn io0 f0 now evs id t scheduled src :
  In (LRequest id t scheduled src) (pr_log (run Parse IsPrint demo (mkProc (restart drawn io0 f0) now []) evs)) →
  src_password src ≠ "" →
  ∃ n url, id = OwnFeedID n ∧ typed_for f0 evs n (src_password src) url ∧ Forall (same_host url) (src_urls src).
Proof.
  intros Hin Hp. assert (creds_ok f0 evs (run Parse IsPrint demo (mkProc (restart drawn io0 f0) now []) evs)) as (_ & _ & H).
  { clear Hin. induction evs as [|x evs IH] using rev_ind; [|unfold run in *; rewrite foldl_app; by apply creds_step].
    assert (∀ st, f0 = Some st → slots_ok f0 [] (Own st)) as H0.
    { intros st Hst n _ Hne. exists (of_URL (nth (n - 1) (Own st) noOwn)). split; [left; by exists st|by left]. }
    assert (slots_ok f0 [] (Own (loaded f0 drawn))) as HL.
    { unfold loaded. destruct f0 as [st|]; cbn [default from_option Datatypes.id]; [specialize (H0 st eq_refl); by destruct (_ || _)|].
      intros n Hn. cbn. destruct (n - 1)%nat as [|[|[|[]]]]; done. }
    split_and!; cbn [run foldl pr_runner pr_log]; [| |constructor].
    - unfold restart. by destruct (match f0 with None => _ | Some _ => _ end), io0.
    - unfold restart. intros st. destruct (match f0 with None => _ | Some _ => _ end), io0; cbn; intros Hst; try (by apply H0).
      by injection Hst as <-. }
  rewrite Forall_forall in H. by apply (H _ (proj2 (list_elem_of_In _ _) Hin)).
Qed.
End Passwords.

(** ** Runs *)

Definition parse_sample (s : string) : option URL :=
  if HasPrefix s "https://lists.example/" then Some (mkURL "https" false "lists.example" "" "lists.example")
  else if HasPrefix s "https://other.example/" then Some (mkURL "https" false "other.example" "" "other.example")
  else None.
Definition print_sample (r : Z) : bool := (32 <=? r) && negb (r =? 127).

Definition no_copy : coreCopy := mkCoreCopy false 0.
Definition a_copy : coreCopy := mkCoreCopy true 2.
Definition list_answer (etag : string) : http_answer := HAnswer 200 "text/plain" (Ok sample_body) etag "".
Definition seconds (n : N) : N := (n * 1000000000)%N.
Definition fresh : proc := mkProc (restart 1 true None) 0 [].

(** A first pull at its slot, which times out; a pass half an hour later that
    sends nothing; and one after the hour. *)
Definition hourly : list (N * event) :=
  [(seconds 1, TPass "dshield" no_copy true); (seconds 30, TEnd "dshield" [HNoAnswer TeTimeout] (CaOk true) true);
   (seconds 1800, TPass "dshield" no_copy true); (seconds 1770, TPass "dshield" no_copy true)].

Lemma scheduled_requests_are_spaced_witness :
  ∃ src, pr_log (run parse_sample print_sample false fresh hourly) =
    [LRequest "dshield" (3601 * Second) true src; LRequest "dshield" (1 * Second) true src] ∧ 1 * Second + Hour <= 3601 * Second.
Proof.
  exists (mkFeedSource ["https://feeds.dshield.org/block.txt"] "dshield" Hour "" "").
  assert (pr_log (run parse_sample print_sample false fresh hourly) =
    [] ++ LRequest "dshield" (3601 * Second) true (mkFeedSource ["https://feeds.dshield.org/block.txt"] "dshield" Hour "" "") ::
    [LRequest "dshield" (1 * Second) true (mkFeedSource ["https://feeds.dshield.org/block.txt"] "dshield" Hour "" "")]) as Hl
    by (vm_compute; reflexivity).
  split; [exact Hl|].
  apply (scheduled_requests_are_spaced parse_sample print_sample false 1 None 0 hourly _ _ _ _ _ (1 * Second)
    ltac:(intros st [=]) ltac:(repeat constructor) Hl). reflexivity.
Defined.

(** A slot with a password; the address moves on its host, the password field
    left empty; then to another host, which is refused without the password. *)
Definition own_list (url pw : string) : OwnFeed := mkOwnFeed "mine" url "me" pw.
Definition moving : list (N * event) :=
  [(0%N, TSave 1 (own_list " https://lists.example/a" "secret") true);
   (seconds 5, TSwitch "own-1" no_copy true); (seconds 1, TEnd "own-1" [list_answer "v1"] (CaOk true) true);
   (seconds 5, TSave 1 (own_list "https://lists.example/b" "") true);
   (seconds 5, TSave 1 (own_list "https://other.example/b" "") true); (seconds 5, TSwitch "own-1" no_copy true)].

Example moving_ex :
  map (λ x, match x with LRequest _ _ _ src => (src_urls src, src_password src) | LEdit _ => ([], "") end)
    (pr_log (run parse_sample print_sample false fresh moving)) =
  [(["https://lists.example/b"], "secret"); ([], ""); (["https://lists.example/a"], "secret"); ([], "")].
Proof. vm_compute. reflexivity. Qed.

Lemma own_password_stays_with_its_host_witness :
  ∃ n url, "own-1" = OwnFeedID n ∧ typed_for None moving n "secret" url ∧ Forall (same_host parse_sample url) ["https://lists.example/b"].
Proof.
  assert (In (LRequest "own-1" (21 * Second) false (mkFeedSource ["https://lists.example/b"] "plain" OwnFeedInterval "me" "secret"))
    (pr_log (run parse_sample print_sample false fresh moving))) as Hin by (vm_compute; by left).
  assert ("secret" ≠ "") as Hne by discriminate.
  exact (own_password_stays_with_its_host parse_sample print_sample false 1 true None 0 moving "own-1" (21 * Second) false
    (mkFeedSource ["https://lists.example/b"] "plain" OwnFeedInterval "me" "secret") Hin Hne).
Defined.

(** The address of a slot changes while the old list is being fetched.  The
    save forgets the old validators, and the end of the request puts them
    back: the first request to the new list asks whether the old one changed. *)
Definition edit_in_flight : list (N * event) :=
  [(0%N, TSave 1 (own_list "https://lists.example/a" "secret") true);
   (seconds 5, TSwitch "own-1" no_copy true);
   (seconds 5, TSave 1 (own_list "https://other.example/b" "other") true);
   (seconds 5, TEnd "own-1" [list_answer "v1"] (CaOk true) true);
   (seconds 90000, TPass "own-1" a_copy true)].

Lemma edited_list_keeps_old_validators :
  ∃ src st core, rn_inflight (pr_runner (run parse_sample print_sample false fresh edit_in_flight)) !! "own-1" = Some (JFetch src st core) ∧
    src_urls src = ["https://other.example/b"] ∧ validators src st core = Some ("v1", "").
Proof. do 3 eexists. split; [vm_compute; reflexivity|]. split; vm_compute; reflexivity. Qed.

(** The list the core already loads in [FeedUpdate]'s examples, as a publisher
    would send it. *)
Definition dshield_src : feedSource := mkFeedSource ["https://feeds.dshield.org/block.txt"] "dshield" Hour "" "".
Definition dshield_body : list ascii :=
  flat_map (λ l, bytes (Join l (of_bytes [mkbyte 9])) ++ [LF]) [["1.2.3.0"; "1.2.3.255"; "24"; "9"]; ["10.0.0.0"; "10.255.255.255"; "8"; "1"]].

Lemma published_list_is_enforced_witness :
  ∃ payload next r w',
    refresh_offer "dshield" dshield_src noFetch no_copy [HAnswer 200 "text/plain" (Ok dshield_body) "" ""] = OfUpdate payload next ∧
    @UpdateFeed quiet_conn (dshield_io 0 FlushOk) payload "web" dshield_world = (Ok r, w') ∧
    ∃ kept, sets_hold (fw_sets w') "dshield" kept ∧ (∀ a, addr_ok a → names kept a → non_global a = false).
Proof.
  assert (∃ payload next, refresh_offer "dshield" dshield_src noFetch no_copy [HAnswer 200 "text/plain" (Ok dshield_body) "" ""] = OfUpdate payload next ∧
    payload = mkUpdateFeedPayload "dshield" ["1.2.3.0/24"; "10.0.0.0/8"] false) as (payload & next & Ho & Hp)
    by (do 2 eexists; split; vm_compute; reflexivity).
  exists payload, next.
  assert (∃ r w', @UpdateFeed quiet_conn (dshield_io 0 FlushOk) payload "web" dshield_world = (Ok r, w') ∧ ur_Loaded r = true) as (r & w' & HU & HL)
    by (rewrite Hp; do 2 eexists; split; vm_compute; reflexivity).
  exists r, w'. split; [exact Ho|]. split; [exact HU|].
  destruct (@published_list_is_enforced quiet_conn (dshield_io 0 FlushOk) "web" "dshield" dshield_src noFetch no_copy
    [HAnswer 200 "text/plain" (Ok dshield_body) "" ""] payload next dshield_world r w' Ho ltac:(by rewrite Hp) (store_ok_new _) eq_refl HU)
    as (bodies & kept & dropped & _ & _ & _ & _ & _ & HS & HG & _).
  exists kept. split; [by apply HS|exact HG].
Defined.
