(* ===== verification/FeedCard.v ===== *)
(** * The switches of the feeds card

    [stagedFeeds] of [src/internal/web/handler_feeds.go] and [countriesNext] of
    [countries.go]: what a save of the feeds card and of the countries card
    stages, and when it is refused. *)
From S2P Require Import Prelude GoStrings GoNet FeedIDs Validate.

Local Open Scope Z_scope.

Definition ownFeedN (id : string) : nat :=
  default 0%nat (find (λ n, String.eqb id (OwnFeedID n)) (seq 1 MaxOwnFeeds)).

(** The rows of the catalogue whose verdict is deliberate ([shared/feeds.go]). *)
Definition deliberate (id : string) : bool := existsb (String.eqb id) ["blocklist-de"; "ipsum-3"; "hagezi-tif"; "tor-exits"].

Inductive refusal := save_error | feeds_refused_confirm | feeds_refused_unconfigured | feeds_error_too_many_countries.

(** The loop over what was staged; [want] is the map, as the list of its keys. *)
Fixpoint keep_staged (before want : list string) : list string * list string :=
  match before with
  | [] => ([], want)
  | id :: before =>
      if bool_decide (id ∈ want) || IsCountryFeedID id then
        let '(next, want) := keep_staged before (filter (λ x, x ≠ id) want) in (id :: next, want)
      else keep_staged before want
  end.

Fixpoint add_wanted (want confirmed : list string) (configured : nat → bool) (order : list string) : result refusal (list string) :=
  match order with
  | [] => Ok []
  | id :: order =>
      if negb (bool_decide (id ∈ want)) then add_wanted want confirmed configured order
      else if deliberate id && negb (bool_decide (id ∈ confirmed)) then Err feeds_refused_confirm
      else if (0 <? ownFeedN id)%nat && negb (configured (ownFeedN id)) then Err feeds_refused_unconfigured
      else let? next := add_wanted want confirmed configured order in Ok (id :: next)
  end.

Definition card_order : list string := map CF_ID FeedCatalogue ++ map OwnFeedID (seq 1 MaxOwnFeeds).

Definition stagedFeeds (before on confirmed : list string) (configured : nat → bool) : result refusal (list string) :=
  if negb (forallb KnownFeedID on) then Err save_error
  else
    let '(next, want) := keep_staged before (remove_dups on) in
    let? new := add_wanted want confirmed configured card_order in
    Ok (next ++ new).

(** One country switched on, or off: [remove] wins. *)
Definition countriesNext (before : list string) (add remove : string) : result refusal (list string) :=
  if negb (is_empty remove) && IsCountryFeedID remove then Ok (filter (λ id, id ≠ remove) before)
  else if is_empty remove && IsCountryFeedID add then
    if bool_decide (add ∈ before) then Ok before
    else if MaxCountries <=? Z.of_nat (length (filter (λ id, IsCountryFeedID id = true) before)) then Err feeds_error_too_many_countries
    else Ok (before ++ [add])
  else Err save_error.

(** ** What is staged *)

Lemma keep_staged_spec before want :
  let '(next, want') := keep_staged before want in
  (∀ x, x ∈ next ↔ x ∈ before ∧ (x ∈ want ∨ IsCountryFeedID x = true)) ∧
  (∀ x, x ∈ want' ↔ x ∈ want ∧ x ∉ before) ∧ next `sublist_of` before.
Proof.
  revert want; induction before as [|id before IH]; intros want; cbn [keep_staged].
  { split_and!; [set_solver|set_solver|constructor]. }
  destruct (bool_decide (id ∈ want)) eqn:E1; [|destruct (IsCountryFeedID id) eqn:E2]; cbn [orb].
  - apply bool_decide_eq_true_1 in E1. specialize (IH (filter (λ x, x ≠ id) want)). destruct (keep_staged before _) as [next w].
    destruct IH as (H1 & H2 & H3). split_and!.
    + intros x. rewrite !elem_of_cons, H1, list_elem_of_filter. destruct (decide (x = id)) as [->|]; naive_solver.
    + intros x. rewrite H2, elem_of_cons, list_elem_of_filter. naive_solver.
    + by constructor.
  - specialize (IH (filter (λ x, x ≠ id) want)). destruct (keep_staged before _) as [next w].
    destruct IH as (H1 & H2 & H3). split_and!.
    + intros x. rewrite !elem_of_cons, H1, list_elem_of_filter. destruct (decide (x = id)) as [->|]; naive_solver.
    + intros x. rewrite H2, elem_of_cons, list_elem_of_filter. naive_solver.
    + by constructor.
  - apply bool_decide_eq_false_1 in E1. specialize (IH want). destruct (keep_staged before want) as [next w].
    destruct IH as (H1 & H2 & H3). split_and!.
    + intros x. rewrite elem_of_cons, H1. destruct (decide (x = id)) as [->|]; [rewrite E2|]; naive_solver.
    + intros x. rewrite H2, elem_of_cons. destruct (decide (x = id)) as [->|]; naive_solver.
    + by constructor.
Qed.

Lemma add_wanted_spec want confirmed configured order new :
  add_wanted want confirmed configured order = Ok new →
  (∀ x, x ∈ new ↔ x ∈ order ∧ x ∈ want) ∧ new `sublist_of` order ∧
  ∀ x, x ∈ new → (deliberate x = true → x ∈ confirmed) ∧ ((0 < ownFeedN x)%nat → configured (ownFeedN x) = true).
Proof.
  revert new; induction order as [|id order IH]; intros new; cbn [add_wanted].
  { intros [= <-]. split_and!; [set_solver|constructor|by intros x ?%not_elem_of_nil]. }
  case_bool_decide as Hw; cbn [negb].
  - destruct (deliberate id && _) eqn:Ed; [done|]. destruct (_ && negb (configured _)) eqn:Eo; [done|].
    destruct (add_wanted want confirmed configured order) as [new'|]; [|done]. cbn [rbind]. intros [= <-].
    destruct (IH new' eq_refl) as (H1 & H2 & H3). split_and!.
    + intros x. rewrite !elem_of_cons, H1. naive_solver.
    + by constructor.
    + intros x [->|Hx]%elem_of_cons; [|by apply H3]. split.
      * intros Hd. rewrite Hd in Ed. cbn in Ed. apply negb_false_iff in Ed. by apply bool_decide_eq_true_1 in Ed.
      * intros Hn. rewrite (proj2 (Nat.ltb_lt _ _) Hn) in Eo. cbn in Eo. by apply negb_false_iff in Eo.
  - intros H. destruct (IH new H) as (H1 & H2 & H3). split_and!; [|by constructor|done].
    intros x. rewrite elem_of_cons, H1. naive_solver.
Qed.

Lemma card_order_spec x : x ∈ card_order ↔ KnownFeedID x = true ∧ IsCountryFeedID x = false.
Proof.
  assert (∀ y, y ∈ card_order → KnownFeedID y = true ∧ IsCountryFeedID y = false) as Hin.
  { apply Forall_forall. unfold card_order.
    assert (forallb (λ y, KnownFeedID y && negb (IsCountryFeedID y)) (map CF_ID FeedCatalogue ++ map OwnFeedID (seq 1 MaxOwnFeeds)) = true) as HB
      by (vm_compute; reflexivity).
    apply Forall_forall. intros y Hy. rewrite forallb_forall in HB. apply list_elem_of_In, HB in Hy. by breflect. }
  split; [apply Hin|]. intros [Hk Hc]. unfold card_order. apply elem_of_app. unfold KnownFeedID, CatalogueFeedByID in Hk.
  destruct (find _ FeedCatalogue) as [f|] eqn:Ef.
  - apply find_some in Ef as [Hf He%String.eqb_eq]. left. subst x. apply list_elem_of_fmap_2. by apply list_elem_of_In.
  - unfold IsCountryFeedID in Hc. destruct (CountryCode x); [done|]. cbn [fmap option_fmap option_map] in Hk. unfold IsOwnFeedID in Hk.
    apply existsb_exists in Hk as (n & Hn & ->%String.eqb_eq). right. apply list_elem_of_fmap_2. by apply list_elem_of_In.
Qed.

(** The card stages what was ticked and nothing by accident.  A save that is
    not refused stages, in the order they were switched on, the feeds of
    before that are still ticked and every country, and then the newly ticked
    ones in the card's order; a list known to block real visitors is only among
    the new ones with its own confirmation, an own list only with an address,
    and nothing the core would refuse is added. *)
Theorem card_switches_deliberately before on confirmed configured next :
  stagedFeeds before on confirmed configured = Ok next →
  ∃ kept new, next = kept ++ new ∧ kept `sublist_of` before ∧ new `sublist_of` card_order ∧
    (∀ x, x ∈ kept ↔ x ∈ before ∧ (x ∈ on ∨ IsCountryFeedID x = true)) ∧
    (∀ x, x ∈ new ↔ x ∈ on ∧ x ∉ before ∧ IsCountryFeedID x = false) ∧
    ∀ x, x ∈ new → KnownFeedID x = true ∧ (deliberate x = true → x ∈ confirmed) ∧
      ((0 < ownFeedN x)%nat → configured (ownFeedN x) = true).
Proof.
  unfold stagedFeeds. destruct (forallb KnownFeedID on) eqn:Ek; cbn [negb]; [|done]. rewrite forallb_forall in Ek.
  pose proof (keep_staged_spec before (remove_dups on)) as HK. destruct (keep_staged before _) as [kept want].
  destruct HK as (H1 & H2 & H3). destruct (add_wanted _ _ _ _) as [new|] eqn:Ea; [|done]. cbn [rbind]. intros [= <-].
  apply add_wanted_spec in Ea as (A1 & A2 & A3). exists kept, new. split_and!; [done|done|done| | |].
  - intros x. rewrite H1, elem_of_remove_dups. done.
  - intros x. rewrite A1, H2, elem_of_remove_dups, card_order_spec. split; [naive_solver|].
    intros (Ho & Hb & Hc). split_and!; try done. by apply Ek, list_elem_of_In.
  - intros x Hx. split; [|by apply A3]. apply A1 in Hx as [Hx _]. by apply card_order_spec in Hx as [? _].
Qed.

Lemma card_switches_deliberately_witness :
  ∃ next, stagedFeeds ["country-de"; "dshield"; "cins"] ["cins"; "tor-exits"; "own-2"] ["tor-exits"] (Nat.eqb 2) = Ok next ∧
    next = ["country-de"; "cins"; "tor-exits"; "own-2"] ∧ "tor-exits" ∈ next.
Proof.
  assert (stagedFeeds ["country-de"; "dshield"; "cins"] ["cins"; "tor-exits"; "own-2"] ["tor-exits"] (Nat.eqb 2) =
    Ok ["country-de"; "cins"; "tor-exits"; "own-2"]) as H by (vm_compute; reflexivity).
  eexists. split; [exact H|]. split; [done|].
  destruct (card_switches_deliberately _ _ _ _ _ H) as (kept & new & -> & _ & _ & _ & Hn & _).
  apply elem_of_app. right. apply Hn. split_and!; [by right; left|apply (bool_decide_unpack _); vm_compute; exact I|done].
Defined.

Example unconfirmed_list_is_refused :
  stagedFeeds [] ["tor-exits"] [] (λ _, true) = Err feeds_refused_confirm ∧
  stagedFeeds [] ["own-1"] [] (λ _, false) = Err feeds_refused_unconfigured ∧ stagedFeeds [] ["x"] [] (λ _, true) = Err save_error.
Proof. vm_compute. done. Qed.

(** ** The core takes what a card stages *)

(** What the core asks of the feeds of a rule set. *)
Definition feeds_taken (l : list string) : Prop := ∃ n, checkFeeds l ∅ 0 = Ok n ∧ n <= MaxCountries.

Lemma feeds_taken_spec l :
  feeds_taken l ↔ Forall (λ id, KnownFeedID id = true) l ∧ NoDup l ∧
    Z.of_nat (length (filter (λ id, IsCountryFeedID id = true) l)) <= MaxCountries.
Proof.
  unfold feeds_taken. setoid_rewrite checkFeeds_Ok. split.
  - intros (n & (H1 & H2 & _ & ->) & ?). split_and!; try done.
  - intros (H1 & H2 & H3). eexists. split; [split_and!; [done|done|set_solver|reflexivity]|lia].
Qed.

Lemma filter_length_sub {A} (P : A → Prop) `{∀ x, Decision (P x)} l k :
  l `sublist_of` k → (length (filter P l) <= length (filter P k))%nat.
Proof.
  induction 1 as [|x l k _ IH|x l k _ IH]; [done| |]; rewrite !filter_cons; destruct (decide (P x)); cbn; lia.
Qed.

Lemma stagedFeeds_taken before on confirmed configured next :
  feeds_taken before → stagedFeeds before on confirmed configured = Ok next → feeds_taken next.
Proof.
  rewrite !feeds_taken_spec. intros (H1 & H2 & H3) H.
  destruct (card_switches_deliberately _ _ _ _ _ H) as (kept & new & -> & Hk & Hn & _ & Hnew & Hknown).
  assert (NoDup card_order) as HO by (apply (bool_decide_unpack _); vm_compute; exact I).
  assert (filter (λ id, IsCountryFeedID id = true) new = []) as Hno.
  { apply elem_of_nil_inv. intros x [Hc (_ & _ & Hx)%Hnew]%list_elem_of_filter. congruence. }
  split_and!.
  - apply Forall_app. rewrite Forall_forall in H1. split; apply Forall_forall; [intros x Hx; by eapply H1, elem_of_sublist|]. intros x Hx. by apply Hknown.
  - apply NoDup_app. split_and!; [exact (sublist_NoDup _ _ H2 Hk)| |exact (sublist_NoDup _ _ HO Hn)].
    intros x Hx (_ & Hb & _)%Hnew. apply Hb. by eapply elem_of_sublist.
  - rewrite filter_app, Hno, app_nil_r. pose proof (filter_length_sub (λ id, IsCountryFeedID id = true) _ _ Hk). lia.
Qed.

Lemma countriesNext_taken before add remove next :
  feeds_taken before → countriesNext before add remove = Ok next → feeds_taken next.
Proof.
  rewrite !feeds_taken_spec. intros (H1 & H2 & H3). unfold countriesNext. destruct (negb (is_empty remove) && _).
  { intros [= <-]. pose proof (sublist_filter (λ id, id ≠ remove) before) as Hs. rewrite Forall_forall in H1. split_and!.
    - apply Forall_forall. intros x Hx. by eapply H1, elem_of_sublist.
    - by apply NoDup_filter.
    - pose proof (filter_length_sub (λ id, IsCountryFeedID id = true) _ _ Hs). lia. }
  destruct (is_empty remove && IsCountryFeedID add) eqn:E; [|done]. apply andb_true_iff in E as [_ Ec].
  case_bool_decide; [by intros [= <-]|]. destruct (Z.leb_spec MaxCountries (Z.of_nat (length (filter (λ id, IsCountryFeedID id = true) before)))) as [|Hlt]; [done|].
  intros [= <-]. split_and!.
  - apply Forall_app. split; [done|]. apply Forall_singleton. unfold KnownFeedID, CatalogueFeedByID. unfold IsCountryFeedID in Ec.
    destruct (find _ FeedCatalogue); [done|]. by destruct (CountryCode add).
  - apply NoDup_app. split_and!; [done| |apply NoDup_singleton]. intros x Hx ->%list_elem_of_singleton. done.
  - rewrite filter_app, length_app, filter_cons, decide_True by done. cbn. lia.
Qed.
