(* ===== verification/CountryTable.v ===== *)
(** * Which country an address is registered to

    [src/internal/web/countrytable.go]: the table behind the country column of
    the blocked page, built from ipverse's archive by one sweep over the
    sorted prefixes with a stack of the ones that are open, and asked by binary
    search.

    The three parallel slices of a family are one list of ranges.  The archive
    is what [archive/tar] hands over: the members in order, and how the reading
    ended. *)
From S2P Require Import Prelude GoStrings GoNet NetBytes NetString FeedIDs Matchers FeedRanges FeedStore FeedUpdate GoCrypto GoRunes GoJSON FeedParse.

Local Open Scope Z_scope.

(** ** The table *)

Record countryRange := mkRange { r_start : Z; r_end : Z; r_cc : Z }.
Record countryTable := mkTable { t_v4 : list countryRange; t_v6 : list countryRange; t_countries : Z }.

Definition max64 : Z := 2 ^ 64 - 1.

(** [addrKey]: an IPv4 address as a number, or the first 64 bits. *)
Definition addrKey (a : addr) : Z :=
  match a with Addr4 n => n | Addr6 n _ => Z.shiftr n 64 end.

(** [slices.BinarySearch] on the starts; a step for each halving. *)
Fixpoint search_from (fuel : nat) (rs : list countryRange) (k i j : Z) : Z :=
  match fuel with
  | O => i
  | S fuel =>
      if i <? j then
        let h := Z.shiftr (i + j) 1 in
        match rs !! Z.to_nat h with
        | Some r => if r_start r <? k then search_from fuel rs k (h + 1) j else search_from fuel rs k i h
        | None => i
        end
      else i
  end.
Definition BinarySearch (rs : list countryRange) (k : Z) : Z * bool :=
  let i := search_from (S (length rs)) rs k 0 (Z.of_nat (length rs)) in
  (i, match rs !! Z.to_nat i with Some r => r_start r =? k | None => false end).

(** [netip.Addr.IsGlobalUnicast] and [IsPrivate]; the zone does not matter but
    to the unspecified address of IPv6. *)
Definition is_multicast (a : addr) : bool :=
  match a with Addr4 n => Z.shiftr n 28 =? 0xE | Addr6 n _ => Z.shiftr n 120 =? 0xFF end.
Definition is_link_local (a : addr) : bool :=
  match a with Addr4 n => Z.shiftr n 16 =? 0xA9FE | Addr6 n _ => Z.shiftr n 118 =? 0x3FA end.
Definition IsGlobalUnicast (a : addr) : bool :=
  match a with
  | Addr4 n => negb (n =? 0) && negb (n =? 0xFFFFFFFF)
  | Addr6 n z => negb ((n =? 0) && is_empty z)
  end && negb (IsLoopback a) && negb (is_multicast a) && negb (is_link_local a).
Definition IsPrivate (a : addr) : bool :=
  match a with
  | Addr4 n => (Z.shiftr n 24 =? 10) || (Z.shiftr n 20 =? 0xAC1) || (Z.shiftr n 16 =? 0xC0A8)
  | Addr6 n _ => Z.shiftr n 121 =? 0x7E
  end.

Definition find_range (rs : list countryRange) (k : Z) : option countryRange :=
  let '(i, found) := BinarySearch rs k in
  let i := if found then i else i - 1 in
  if i <? 0 then None
  else match rs !! Z.to_nat i with Some r => if r_end r <? k then None else Some r | None => None end.

Definition lookup_country (t : option countryTable) (a : addr) : string :=
  let a := Unmap a in
  match t with
  | None => ""
  | Some t =>
      if negb (IsGlobalUnicast a) || IsPrivate a then ""
      else
        match find_range (if Is4 a then t_v4 t else t_v6 t) (addrKey a) with
        | Some r => default "" (CountryCodes !! Z.to_nat (r_cc r))
        | None => ""
        end
  end.

Definition ranges (t : option countryTable) : Z :=
  match t with None => 0 | Some t => Z.of_nat (length (t_v4 t)) + Z.of_nat (length (t_v6 t)) end.

(** ** Building it *)

Record countryPrefix := mkCP { cp_start : Z; cp_end : Z; cp_bits : Z; cp_cc : Z }.

Definition host_bits (p : prefix) : Z :=
  let width := if Is4 (p_addr p) then 32 else 64 in width - Z.min (p_bits p) width.
Definition prefixRange (p : prefix) : Z * Z :=
  let host := host_bits p in
  let start := addrKey (p_addr p) in
  if host =? 64 then (start, max64) else (start, Z.lor start (Z.shiftl 1 host - 1)).
Definition newCountryPrefix (p : prefix) (cc : Z) : countryPrefix :=
  let '(s, e) := prefixRange p in mkCP s e (p_bits p) cc.

(** The order of the sort: by start, the wider first, then by code. *)
Definition cp_le (a b : countryPrefix) : Prop :=
  cp_start a < cp_start b ∨ cp_start a = cp_start b ∧ (cp_bits a < cp_bits b ∨ cp_bits a = cp_bits b ∧ cp_cc a <= cp_cc b).
#[global] Instance cp_le_dec a b : Decision (cp_le a b).
Proof. unfold cp_le. apply _. Defined.
#[global] Instance cp_le_total : Total cp_le.
Proof. intros a b. unfold cp_le. lia. Qed.
#[global] Instance cp_le_trans : Transitive cp_le.
Proof. intros a b c. unfold cp_le. lia. Qed.

(** The sweep's state; the ranges, latest first. *)
Record sweep := mkSweep { sw_out : list countryRange; sw_stack : list countryPrefix; sw_next : Z; sw_done : bool }.

Definition add_range (s e cc : Z) (out : list countryRange) : list countryRange :=
  match out with
  | r :: out' => if (r_cc r =? cc) && ((r_end r + 1) mod 2 ^ 64 =? s) then mkRange (r_start r) e (r_cc r) :: out' else mkRange s e cc :: out
  | [] => [mkRange s e cc]
  end.

Definition pop (top : countryPrefix) (rest : list countryPrefix) (w : sweep) : sweep :=
  let out := if negb (sw_done w) && (sw_next w <=? cp_end top) then add_range (sw_next w) (cp_end top) (cp_cc top) (sw_out w) else sw_out w in
  if cp_end top =? max64 then mkSweep out rest (sw_next w) true else mkSweep out rest (cp_end top + 1) (sw_done w).

(** Close what ends before [limit]; with none, everything. *)
Fixpoint close (limit : option Z) (stack : list countryPrefix) (w : sweep) : sweep :=
  match stack with
  | [] => w
  | top :: rest =>
      if match limit with Some l => cp_end top <? l | None => true end then close limit rest (pop top rest w) else w
  end.

Definition sweep_step (w : sweep) (p : countryPrefix) : sweep :=
  let w := close (Some (cp_start p)) (sw_stack w) w in
  let out := match sw_stack w with
             | top :: _ => if sw_next w <? cp_start p then add_range (sw_next w) (cp_start p - 1) (cp_cc top) (sw_out w) else sw_out w
             | [] => sw_out w
             end in
  mkSweep out (p :: sw_stack w) (cp_start p) (sw_done w).

Definition buildCountryRanges (ps : list countryPrefix) : list countryRange :=
  let w := foldl sweep_step (mkSweep [] [] 0 false) (merge_sort cp_le ps) in
  rev (sw_out (close None (sw_stack w) w)).

(** [check] *)
Fixpoint check_from (prev : option Z) (rs : list countryRange) : bool :=
  match rs with
  | [] => true
  | r :: rs =>
      if (r_end r <? r_start r) || match prev with Some e => r_start r <=? e | None => false end then false
      else check_from (Some (r_end r)) rs
  end.
Definition check_ranges : list countryRange → bool := check_from None.

(** ** The archive *)

Definition countryArchiveMaxPrefixes : Z := Z.shiftl 1 19.
Definition countryFileMax : Z := Z.shiftl 2 20.
Definition FeedMaxBitsV4Country : Z := 4.
Definition FeedMaxBitsV6Country : Z := 16.

Inductive archive_error := AeArchive | AeEmpty | AeTooLong | AeUnsorted.
#[global] Instance archive_error_eq_dec : EqDecision archive_error.
Proof. solve_decision. Defined.

(** A member: its name, whether it is a regular file, the size its header
    gives, and what can be read of it. *)
Record member := mkMember { m_name : string; m_regular : bool; m_size : Z; m_body : list ascii }.
(** The reading ends at the end of the archive, or with an error; [a_exhausted]
    when it took all it may unpack. *)
Record archive := mkArchive { a_members : list member; a_eof : bool; a_exhausted : bool }.

(** The code of a member that matches [country/*/aggregated.json]. *)
Definition member_code (name : string) : option string :=
  match SplitByte "/" name with
  | [d; cc; f] => if String.eqb d "country" && String.eqb f "aggregated.json" then Some cc else None
  | _ => None
  end.
Definition code_index (cc : string) : option Z :=
  (λ x, Z.of_nat (fst x)) <$> list_find (λ c, c = cc) CountryCodes.

(** [json.Decoder.Decode]: the first value; what follows is not looked at. *)
Definition decode_first (l : list ascii) : option json := fst <$> value (parse_fuel l) 0 l.

Record reading_state := mkReading { rd_v4 : list countryPrefix; rd_v6 : list countryPrefix; rd_seen : list Z }.

Definition broad (p : prefix) : bool :=
  (p_bits p <? FeedMaxBitsV4Country) || Is6 (p_addr p) && (p_bits p <? FeedMaxBitsV6Country).

Fixpoint read_prefixes (cc : Z) (ss : list string) (st : reading_state) : result archive_error reading_state :=
  match ss with
  | [] => Ok st
  | s :: ss =>
      match parseEntry s with
      | None => read_prefixes cc ss st
      | Some p =>
          if broad p then read_prefixes cc ss st
          else if countryArchiveMaxPrefixes <=? Z.of_nat (length (rd_v4 st)) + Z.of_nat (length (rd_v6 st)) then Err AeTooLong
          else
            let seen := if bool_decide (cc ∈ rd_seen st) then rd_seen st else cc :: rd_seen st in
            read_prefixes cc ss
              (if Is4 (p_addr p) then mkReading (rd_v4 st ++ [newCountryPrefix p cc]) (rd_v6 st) seen
               else mkReading (rd_v4 st) (rd_v6 st ++ [newCountryPrefix p cc]) seen)
      end
  end.

Definition no_prefixes : ipversePrefixes := mkIpversePrefixes (mkSlice 0 []) (mkSlice 0 []).

Fixpoint read_members (ms : list member) (st : reading_state) : result archive_error reading_state :=
  match ms with
  | [] => Ok st
  | m :: ms =>
      match (if m_regular m then cc ← member_code (m_name m); code_index cc else None) with
      | None => read_members ms st
      | Some idx =>
          if countryFileMax <? m_size m then Err AeTooLong
          else
            match v ← decode_first (m_body m); decode_struct set_document no_prefixes v with
            | None => Err AeArchive
            | Some d =>
                let? st := read_prefixes idx (slice_elements (iv_IPv4 d) ++ slice_elements (iv_IPv6 d)) st in
                read_members ms st
            end
      end
  end.

Definition parseCountryArchive (a : archive) : result archive_error countryTable :=
  let? st := read_members (a_members a) (mkReading [] [] []) in
  if negb (a_eof a) then Err AeArchive
  else if a_exhausted a then Err AeTooLong
  else if bool_decide (rd_seen st = []) then Err AeEmpty
  else
    let t := mkTable (buildCountryRanges (rd_v4 st)) (buildCountryRanges (rd_v6 st)) (Z.of_nat (length (rd_seen st))) in
    if check_ranges (t_v4 t) && check_ranges (t_v6 t) then Ok t else Err AeUnsorted.

Definition country_file (cc : string) (v4 v6 : list string) : member :=
  let strs l := Join (map (λ s, "'" +:+ s +:+ "'") l) "," in
  mkMember ("country/" +:+ cc +:+ "/aggregated.json") true 100
    (quoted ("{'prefixes':{'ipv4':[" +:+ strs v4 +:+ "],'ipv6':[" +:+ strs v6 +:+ "]}}")).

(** Germany's /24 lies inside Singapore's /22. *)
Definition sample_archive : archive :=
  mkArchive [country_file "sg" ["123.100.240.0/22"; "0.0.0.0/0"] ["2400::/20"]; country_file "de" ["123.100.242.0/24"; "5.1.0.0/16"] []] true false.

Example parseCountryArchive_ex :
  match parseCountryArchive sample_archive with
  | Ok t =>
      length (t_v4 t) = 4%nat ∧ t_countries t = 2 ∧
      map (λ s, lookup_country (Some t) (default (Addr4 0) (ParseAddr s)))
        ["123.100.242.9"; "123.100.243.1"; "123.100.240.1"; "5.1.255.255"; "5.2.0.0"; "10.0.0.1"; "2400::1"; "::ffff:5.1.0.1"] =
      ["de"; "sg"; "sg"; "de"; ""; ""; "sg"; "de"]
  | Err _ => False
  end.
Proof. vm_compute. done. Qed.

(** ** The sweep *)

Definition covers (p : countryPrefix) (k : Z) : Prop := cp_start p <= k <= cp_end p.
#[global] Instance covers_dec p k : Decision (covers p k).
Proof. unfold covers. apply _. Defined.

(** The last prefix of a list that holds a key: in the order of the sort, the
    innermost. *)
Definition latest (l : list countryPrefix) (k : Z) : option countryPrefix :=
  foldl (λ acc p, if decide (covers p k) then Some p else acc) None l.
(** The range of the table that holds a key. *)
Fixpoint look (out : list countryRange) (k : Z) : option Z :=
  match out with
  | [] => None
  | r :: out => if decide (r_start r <= k <= r_end r) then Some (r_cc r) else look out k
  end.

(** The ranges emitted before [N], latest first: disjoint and in order. *)
Fixpoint out_ok (N : Z) (out : list countryRange) : Prop :=
  match out with
  | [] => True
  | r :: out => 0 <= r_start r <= r_end r ∧ r_end r < N ∧ out_ok (r_start r) out
  end.

(** The open prefixes, innermost first: each inside the next. *)
Fixpoint nested (stack : list countryPrefix) : Prop :=
  match stack with
  | p :: ((q :: _) as rest) => cp_end p <= cp_end q ∧ nested rest
  | _ => True
  end.
Definition innermost (stack : list countryPrefix) (k : Z) : option countryPrefix :=
  snd <$> list_find (λ p, k <= cp_end p) stack.

(** A prefix of a family of [w] bits as a block of keys. *)
Record cp_block (w : Z) (p : countryPrefix) : Prop := {
  cb_bits : 0 <= cp_bits p;
  cb_start : 0 <= cp_start p;
  cb_aligned : (2 ^ (w - Z.min (cp_bits p) w) | cp_start p);
  cb_end : cp_end p = cp_start p + 2 ^ (w - Z.min (cp_bits p) w) - 1;
  cb_fits : cp_end p < 2 ^ w }.

(** [next], or the end of the address space once it has been reached. *)
Definition emitted (w : sweep) : Z := if sw_done w then 2 ^ 64 else sw_next w.

Record sweep_ok (l : list countryPrefix) (w : sweep) : Prop := {
  so_next : 0 <= emitted w <= 2 ^ 64;
  so_out : out_ok (emitted w) (sw_out w);
  so_past : ∀ k, k < emitted w → look (sw_out w) k = cp_cc <$> latest l k;
  so_open : ∀ k, emitted w <= k → latest l k = innermost (sw_stack w) k;
  so_stack : Forall (λ p, p ∈ l ∧ cp_start p <= emitted w <= cp_end p + 1 ∧ cp_end p <= max64) (sw_stack w);
  so_nested : nested (sw_stack w) }.

Lemma latest_app l p k : latest (l ++ [p]) k = if decide (covers p k) then Some p else latest l k.
Proof. unfold latest. by rewrite foldl_app. Qed.

Lemma innermost_cons p stack k : innermost (p :: stack) k = if decide (k <= cp_end p) then Some p else innermost stack k.
Proof.
  unfold innermost. cbn [list_find]. destruct (decide (k <= cp_end p)); [done|].
  by destruct (list_find (λ p, k <= cp_end p) stack) as [[]|].
Qed.

Lemma nested_tail p stack : nested (p :: stack) → nested stack ∧ Forall (λ q, cp_end p <= cp_end q) stack.
Proof.
  revert p. induction stack as [|q stack IH]; intros p H; [by split|]. destruct H as [H1 H2].
  split; [done|]. constructor; [done|]. eapply Forall_impl; [apply (IH q H2)|]. cbn. lia.
Qed.

Lemma out_ok_low N out r : out_ok N out → r ∈ out → 0 <= r_start r <= r_end r ∧ r_end r < N.
Proof.
  revert N. induction out as [|x out IH]; intros N H Hr; [by apply not_elem_of_nil in Hr|]. destruct H as (H1 & H2 & H3).
  apply elem_of_cons in Hr as [->|Hr]; [done|]. specialize (IH _ H3 Hr). lia.
Qed.
Lemma out_ok_mono N M out : N <= M → out_ok N out → out_ok M out.
Proof. destruct out; [done|]. cbn. intros ? (? & ? & ?). split_and!; (lia || done). Qed.

Lemma look_in out k cc : look out k = Some cc → ∃ r, r ∈ out ∧ r_start r <= k <= r_end r ∧ r_cc r = cc.
Proof.
  induction out as [|x out IH]; [done|]. cbn [look]. destruct (decide _).
  - intros [= <-]. exists x. split_and!; [by left|lia..].
  - intros (r & ? & ?)%IH. exists r. split; [by right|done].
Qed.
Lemma look_None out k r : look out k = None → r ∈ out → ¬ r_start r <= k <= r_end r.
Proof.
  induction out as [|x out IH]; [by intros _ ?%not_elem_of_nil|]. cbn [look]. destruct (decide _); [done|].
  intros H [->|Hr]%elem_of_cons; [done|by apply IH].
Qed.
Lemma look_high N out k : out_ok N out → N <= k → look out k = None.
Proof.
  intros H Hk. destruct (look out k) as [cc|] eqn:E; [|done].
  apply look_in in E as (r & Hr & ? & _). pose proof (out_ok_low N out r H Hr). lia.
Qed.

(** Emitting a range, merged with the one before it or not. *)
Lemma add_range_ok s e cc out :
  0 <= s <= e → s <= max64 → out_ok s out →
  out_ok (e + 1) (add_range s e cc out) ∧
  ∀ k, look (add_range s e cc out) k = if decide (s <= k <= e) then Some cc else look out k.
Proof.
  unfold max64. intros Hs Hm H. destruct out as [|r out]; cbn [add_range].
  { split; [cbn; lia|done]. }
  destruct H as (H1 & H2 & H3). destruct (Z.eqb_spec (r_cc r) cc) as [Hc|Hc]; cbn [andb].
  - rewrite Z.mod_small by lia. destruct (Z.eqb_spec (r_end r + 1) s).
    + split; [cbn; split_and!; (lia || done)|]. intros k. cbn [look r_start r_end r_cc].
      repeat destruct (decide _); try done; try lia; by f_equal.
    + split; [cbn; split_and!; (lia || done)|done].
  - split; [cbn; split_and!; (lia || done)|done].
Qed.

(** ** One step of the sweep *)

(** Closing the innermost prefix emits what of it was not. *)
Lemma pop_ok l w top rest :
  sweep_ok l w → sw_stack w = top :: rest →
  sweep_ok l (pop top rest w) ∧ emitted (pop top rest w) = cp_end top + 1.
Proof.
  intros [Hn Ho Hp Hop Hs Hnest] E. rewrite E in *. apply Forall_cons in Hs as [(Hl & Hb & Hm) Hs].
  apply nested_tail in Hnest as [Hnest Hle]. unfold max64 in *.
  set (out := if negb (sw_done w) && (sw_next w <=? cp_end top) then add_range (sw_next w) (cp_end top) (cp_cc top) (sw_out w) else sw_out w).
  assert (out_ok (cp_end top + 1) out ∧ ∀ k, k < cp_end top + 1 → look out k = cp_cc <$> latest l k) as [H1 H2].
  { unfold out. clear out. unfold emitted in *. destruct (sw_done w) eqn:Ed; cbn [negb andb].
    - split; [eapply out_ok_mono; [|exact Ho]; lia|]. intros k Hk. apply Hp. lia.
    - destruct (Z.leb_spec (sw_next w) (cp_end top)).
      + destruct (add_range_ok (sw_next w) (cp_end top) (cp_cc top) (sw_out w)) as [A1 A2]; [lia|unfold max64; lia|done|].
        split; [done|]. intros k Hk. rewrite A2. destruct (decide _); [|apply Hp; lia].
        rewrite Hop, innermost_cons by lia. by rewrite decide_True by lia.
      + split; [eapply out_ok_mono; [|exact Ho]; lia|]. intros k Hk. apply Hp. lia. }
  assert (emitted (pop top rest w) = cp_end top + 1) as HE.
  { unfold pop, emitted, max64. destruct (Z.eqb_spec (cp_end top) (2 ^ 64 - 1)); cbn [sw_done sw_next]; [lia|].
    unfold emitted in Hb. destruct (sw_done w); [lia|done]. }
  split; [|done]. split; rewrite ?HE.
  - lia.
  - unfold pop. fold out. by destruct (_ =? _).
  - unfold pop. fold out. by destruct (_ =? _).
  - intros k Hk. rewrite Hop, innermost_cons by lia. rewrite decide_False by lia. unfold pop. by destruct (_ =? _).
  - assert (sw_stack (pop top rest w) = rest) as -> by (unfold pop; by destruct (_ =? _)).
    rewrite Forall_forall in Hs, Hle |- *. intros q Hq. specialize (Hs q Hq) as (? & ? & ?). specialize (Hle q Hq).
    unfold max64. split_and!; [done|lia..].
  - by assert (sw_stack (pop top rest w) = rest) as -> by (unfold pop; by destruct (_ =? _)).
Qed.

(** Closing up to a limit: what stays open reaches it. *)
Lemma close_ok l limit stack w :
  sweep_ok l w → sw_stack w = stack → (∀ m, limit = Some m → emitted w <= m) →
  let w' := close limit stack w in
  sweep_ok l w' ∧ (∀ m, limit = Some m → emitted w' <= m ∧ Forall (λ p, m <= cp_end p) (sw_stack w')) ∧
  (limit = None → sw_stack w' = []).
Proof.
  revert w. induction stack as [|top rest IH]; intros w Hw E Hm; cbn [close]; cbv zeta.
  { split; [done|]. rewrite E. split; [|done]. intros m Hl. split; [by apply Hm|done]. }
  destruct (pop_ok l w top rest Hw E) as [Hw' He].
  assert (sw_stack (pop top rest w) = rest) as Er by (unfold pop; by destruct (_ =? _)).
  destruct limit as [m|]; [|by apply IH].
  destruct (Z.ltb_spec (cp_end top) m).
  - apply IH; [done|done|]. intros ? [= <-]. lia.
  - split; [done|]. split; [|done]. intros ? [= <-]. split; [by apply Hm|]. rewrite E. constructor; [done|].
    destruct Hw as [_ _ _ _ _ Hn]. rewrite E in Hn. apply nested_tail in Hn as [_ Hn]. eapply Forall_impl; [exact Hn|]. cbn. lia.
Qed.

(** Blocks are nested or disjoint, and the sort puts the wider first. *)
Lemma blocks_nest w p q :
  0 <= w <= 64 → cp_block w p → cp_block w q → cp_le p q → cp_start q <= cp_end p → cp_end q <= cp_end p.
Proof.
  intros Hw [Pb Ps Pa Pe Pf] [Qb Qs Qa Qe Qf] Hle Hc. unfold cp_le in Hle.
  set (hp := w - Z.min (cp_bits p) w) in *. set (hq := w - Z.min (cp_bits q) w) in *.
  destruct (Z.le_gt_cases hq hp) as [Hh|Hh].
  - destruct Pa as [a Pa], Qa as [b Qa].
    assert (2 ^ hp = 2 ^ (hp - hq) * 2 ^ hq) as Hpow by (rewrite <- Z.pow_add_r by lia; f_equal; lia).
    pose proof (Z.pow_pos_nonneg 2 hq ltac:(lia) ltac:(lia)). pose proof (Z.pow_pos_nonneg 2 (hp - hq) ltac:(lia) ltac:(lia)).
    set (x := 2 ^ hq) in *. set (y := 2 ^ (hp - hq)) in *. assert (b < (a + 1) * y) by nia. nia.
  - destruct Hle as [Hlt|[He Hb]]; [|lia].
    destruct Pa as [a Pa], Qa as [b Qa].
    assert (2 ^ hq = 2 ^ (hq - hp) * 2 ^ hp) as Hpow by (rewrite <- Z.pow_add_r by lia; f_equal; lia).
    pose proof (Z.pow_pos_nonneg 2 hp ltac:(lia) ltac:(lia)). pose proof (Z.pow_pos_nonneg 2 (hq - hp) ltac:(lia) ltac:(lia)).
    set (x := 2 ^ hp) in *. set (y := 2 ^ (hq - hp)) in *. exfalso.
    assert (a < b * y) by nia. assert (b * y < a + 1) by nia. lia.
Qed.

Lemma sweep_step_ok w l p s :
  0 <= w <= 64 → Forall (cp_block w) l → cp_block w p → Forall (λ q, cp_le q p) l →
  sweep_ok l s → sw_done s = false → emitted s <= cp_start p →
  let s' := sweep_step s p in sweep_ok (l ++ [p]) s' ∧ sw_done s' = false ∧ emitted s' = cp_start p.
Proof.
  intros Hw Hl Hp Hle Hs Hd Hstart. cbv zeta. unfold sweep_step.
  destruct (close_ok l (Some (cp_start p)) (sw_stack s) s Hs eq_refl) as (Hs' & HL & _); [by intros ? [= <-]|].
  destruct (HL _ eq_refl) as [He Hopen]. clear HL. set (c := close _ _ _) in *.
  pose proof (Z.pow_pos_nonneg 2 (w - Z.min (cp_bits p) w) ltac:(lia) ltac:(lia)) as Hpos.
  assert (2 ^ w <= 2 ^ 64) as Hw64 by (apply Z.pow_le_mono_r; lia).
  pose proof (cb_end w p Hp) as Pe. pose proof (cb_fits w p Hp) as Pf. pose proof (cb_start w p Hp) as Ps.
  assert (sw_done c = false) as Hdc.
  { destruct (sw_done c) eqn:E; [|done]. unfold emitted in He. rewrite E in He. lia. }
  destruct Hs' as [Hn Ho Hpast Hop Hst Hnest].
  assert (emitted c = sw_next c) as Hem by (unfold emitted; by rewrite Hdc). rewrite Hem in *.
  set (out := match sw_stack c with top :: _ => if sw_next c <? cp_start p then add_range (sw_next c) (cp_start p - 1) (cp_cc top) (sw_out c) else sw_out c | [] => sw_out c end).
  assert (out_ok (cp_start p) out ∧ ∀ k, k < cp_start p → look out k = cp_cc <$> latest l k) as [H1 H2].
  { unfold out. clear out. destruct (sw_stack c) as [|top rest].
    - split; [exact (out_ok_mono _ _ _ He Ho)|]. intros k Hk. destruct (Z.lt_ge_cases k (sw_next c)); [by apply Hpast|].
      rewrite Hop by lia. by eapply look_high.
    - apply Forall_cons in Hopen as [Ht _]. destruct (Z.ltb_spec (sw_next c) (cp_start p)).
      + destruct (add_range_ok (sw_next c) (cp_start p - 1) (cp_cc top) (sw_out c)) as [A1 A2]; [lia|unfold max64; lia|done|].
        split; [by rewrite Z.sub_add in A1|]. intros k Hk. rewrite A2. destruct (decide _); [|apply Hpast; lia].
        rewrite Hop, innermost_cons by lia. by rewrite decide_True by lia.
      + split; [exact (out_ok_mono _ _ _ He Ho)|]. intros k Hk. apply Hpast. lia. }
  assert (∀ b, emitted (mkSweep b (p :: sw_stack c) (cp_start p) (sw_done c)) = cp_start p) as HE
    by (intros b; unfold emitted; cbn; by rewrite Hdc).
  split; [|split; [done|apply HE]]. split; rewrite ?HE; cbn [sw_out sw_stack].
  - lia.
  - done.
  - intros k Hk. rewrite latest_app, decide_False by (unfold covers; lia). by apply H2.
  - intros k Hk. rewrite latest_app, innermost_cons. rewrite Hop by lia. unfold covers.
    destruct (decide (k <= cp_end p)); [rewrite decide_True by lia|rewrite decide_False by lia]; done.
  - constructor.
    + unfold max64. split_and!; (lia || set_solver).
    + rewrite Forall_forall in Hst, Hopen |- *. intros q Hq. specialize (Hst q Hq) as (? & ? & ?). specialize (Hopen q Hq).
      split_and!; (lia || set_solver).
  - destruct (sw_stack c) as [|q rest] eqn:Eq; [done|]. split; [|done].
    apply Forall_cons in Hst as [(Hq & ? & ?) _]. apply Forall_cons in Hopen as [? _].
    rewrite Forall_forall in Hl, Hle. apply (blocks_nest w q p Hw (Hl q Hq) Hp (Hle q Hq)). lia.
Qed.

Lemma sweep_all w l :
  0 <= w <= 64 → Forall (cp_block w) l → StronglySorted cp_le l →
  let s := foldl sweep_step (mkSweep [] [] 0 false) l in
  sweep_ok l s ∧ sw_done s = false ∧ ∀ p, Forall (λ q, cp_le q p) l → 0 <= cp_start p → emitted s <= cp_start p.
Proof.
  intros Hw. induction l as [|p l IH] using rev_ind; intros Hl Hs; cbv zeta.
  { split_and!; [|done|done]. split; done. }
  apply Forall_app in Hl as [Hl [Hp _]%Forall_cons]. apply StronglySorted_app in Hs as (Hle & Hs & _).
  destruct (IH Hl Hs) as (H1 & H2 & H3). rewrite foldl_app. cbn [foldl].
  assert (Forall (λ q, cp_le q p) l) as Hq by (apply Forall_forall; intros q Hq; apply Hle; set_solver).
  destruct (sweep_step_ok w l p _ Hw Hl Hp Hq H1 H2 (H3 p Hq (cb_start w p Hp))) as (K1 & K2 & K3).
  split_and!; [done..|]. intros q Hall Hpos. rewrite K3. apply Forall_app in Hall as [_ [Hall _]%Forall_cons].
  unfold cp_le in Hall. lia.
Qed.

(** The innermost prefix that holds a key, whatever the order they came in. *)
Definition narrowest (ps : list countryPrefix) (k : Z) : option countryPrefix := latest (merge_sort cp_le ps) k.

Lemma buildCountryRanges_spec w ps :
  0 <= w <= 64 → Forall (cp_block w) ps →
  out_ok (2 ^ 64) (rev (buildCountryRanges ps)) ∧
  ∀ k, 0 <= k < 2 ^ w → look (rev (buildCountryRanges ps)) k = cp_cc <$> narrowest ps k.
Proof.
  intros Hw Hps. unfold buildCountryRanges, narrowest. rewrite rev_involutive. set (l := merge_sort cp_le ps).
  assert (Forall (cp_block w) l) as Hl by (unfold l; by rewrite merge_sort_Permutation).
  destruct (sweep_all w l Hw Hl (StronglySorted_merge_sort cp_le ps)) as (H1 & _ & _). set (s := foldl _ _ _) in *.
  destruct (close_ok l None (sw_stack s) s H1 eq_refl) as (H2 & _ & H3); [done|]. specialize (H3 eq_refl).
  destruct H2 as [Hn Ho Hp Hop _ _]. split; [by eapply out_ok_mono; [|exact Ho]; lia|]. intros k Hk.
  destruct (Z.lt_ge_cases k (emitted (close None (sw_stack s) s))) as [Hlt|Hge]; [by apply Hp|].
  rewrite Hop, H3 by done. by eapply look_high.
Qed.

(** ** The search *)

Definition before (a b : countryRange) : Prop := r_end a < r_start b.
(** What [check] asks of a table. *)
Definition table_ok (rs : list countryRange) : Prop := StronglySorted before rs ∧ Forall (λ r, 0 <= r_start r <= r_end r) rs.

Lemma out_ok_table N out : out_ok N out → table_ok (rev out).
Proof.
  revert N. induction out as [|r out IH]; intros N H; [by split; constructor|]. destruct H as (H1 & H2 & H3).
  destruct (IH _ H3) as [S1 S2]. cbn [rev]. split.
  - apply StronglySorted_app. split_and!; [|done|by repeat constructor].
    intros a b Ha%list_elem_of_In%in_rev%list_elem_of_In ->%list_elem_of_singleton. unfold before.
    pose proof (out_ok_low _ _ _ H3 Ha). lia.
  - apply Forall_app. split; [done|]. by apply Forall_singleton.
Qed.

Lemma check_table rs prev :
  table_ok rs → (∀ e, prev = Some e → Forall (λ r, e < r_start r) rs) → check_from prev rs = true.
Proof.
  intros [HS HF]. revert prev. induction HS as [|r rs HS IH Hr]; intros prev Hp; [done|].
  apply Forall_cons in HF as [H1 H2]. cbn [check_from]. destruct (Z.ltb_spec (r_end r) (r_start r)); [lia|]. cbn [orb].
  assert (match prev with Some e => r_start r <=? e | None => false end = false) as ->.
  { destruct prev as [e|]; [|done]. specialize (Hp e eq_refl). apply Forall_cons in Hp as [? _]. lia. }
  apply IH; [done|]. intros e [= <-]. done.
Qed.

Lemma sorted_lookup {A} (R : A → A → Prop) l i j x y :
  StronglySorted R l → (i < j)%nat → l !! i = Some x → l !! j = Some y → R x y.
Proof.
  intros HS. revert i j. induction HS as [|a l HS IH Ha]; intros i j Hij Hx Hy; [done|].
  destruct j as [|j]; [lia|]. destruct i as [|i]; cbn in *.
  - injection Hx as <-. rewrite Forall_forall in Ha. apply Ha. by eapply list_elem_of_lookup_2.
  - apply (IH i j); [lia|done..].
Qed.

Lemma table_order rs i j a b :
  table_ok rs → rs !! i = Some a → rs !! j = Some b → (i < j)%nat → r_end a < r_start b.
Proof. intros [HS _] Ha Hb Hij. by apply (sorted_lookup before rs i j). Qed.
Lemma table_range rs i a : table_ok rs → rs !! i = Some a → 0 <= r_start a <= r_end a.
Proof. intros [_ HF] Ha. rewrite Forall_forall in HF. apply HF. by eapply list_elem_of_lookup_2. Qed.

Lemma search_spec fuel rs k i j :
  table_ok rs → 0 <= i <= j → j <= Z.of_nat (length rs) → j - i < Z.of_nat fuel →
  (∀ n r, Z.of_nat n < i → rs !! n = Some r → r_start r < k) →
  (∀ n r, j <= Z.of_nat n → rs !! n = Some r → k <= r_start r) →
  let x := search_from fuel rs k i j in
  i <= x <= j ∧ (∀ n r, Z.of_nat n < x → rs !! n = Some r → r_start r < k) ∧
  (∀ n r, x <= Z.of_nat n → rs !! n = Some r → k <= r_start r).
Proof.
  intros Ht. revert i j. induction fuel as [|fuel IH]; intros i j Hi Hj Hf H1 H2; cbv zeta; [lia|]. cbn [search_from].
  destruct (Z.ltb_spec i j) as [Hlt|Hge]; [|by assert (j = i) as -> by lia].
  rewrite Z.shiftr_div_pow2 by done. change (2 ^ 1) with 2. set (h := (i + j) / 2).
  assert (i <= h < j) as Hh by (unfold h; pose proof (Z.div_mod (i + j) 2 ltac:(lia)); pose proof (Z.mod_pos_bound (i + j) 2 ltac:(lia)); lia).
  destruct (rs !! Z.to_nat h) as [m|] eqn:E; [|apply lookup_ge_None in E; lia].
  assert (∀ n r, Z.of_nat n <= h → rs !! n = Some r → r_start r <= r_start m) as Hdown.
  { intros n r Hn Hr. destruct (decide (n = Z.to_nat h)) as [->|Hne]; [assert (r = m) as -> by congruence; lia|].
    pose proof (table_order rs n (Z.to_nat h) r m Ht Hr E ltac:(lia)). pose proof (table_range rs n r Ht Hr). lia. }
  assert (∀ n r, h <= Z.of_nat n → rs !! n = Some r → r_start m <= r_start r) as Hup.
  { intros n r Hn Hr. destruct (decide (n = Z.to_nat h)) as [->|Hne]; [assert (r = m) as -> by congruence; lia|].
    pose proof (table_order rs (Z.to_nat h) n m r Ht E Hr ltac:(lia)). pose proof (table_range rs _ m Ht E). lia. }
  destruct (Z.ltb_spec (r_start m) k).
  - destruct (IH (h + 1) j) as (? & ? & ?); [lia..| |done|split_and!; [lia|lia|done|done]].
    intros n r Hn Hr. specialize (Hdown n r ltac:(lia) Hr). lia.
  - destruct (IH i h) as (? & ? & ?); [lia..|done| |split_and!; [lia|lia|done|done]].
    intros n r Hn Hr. specialize (Hup n r Hn Hr). lia.
Qed.

Lemma find_range_spec rs k :
  table_ok rs →
  match find_range rs k with
  | Some r => r ∈ rs ∧ r_start r <= k <= r_end r
  | None => ∀ r, r ∈ rs → ¬ r_start r <= k <= r_end r
  end.
Proof.
  intros Ht. unfold find_range, BinarySearch.
  destruct (search_spec (S (length rs)) rs k 0 (Z.of_nat (length rs)) Ht) as (Hx & Hlow & Hhigh); [lia..|lia| |].
  { intros n r Hn Hr. apply lookup_lt_Some in Hr. lia. }
  set (x := search_from _ _ _ _ _) in *.
  assert (∀ n r, rs !! n = Some r → x < Z.of_nat n → ¬ r_start r <= k <= r_end r) as Hafter.
  { intros n r Hr Hn. destruct (rs !! Z.to_nat x) as [m|] eqn:E.
    - pose proof (Hhigh (Z.to_nat x) m ltac:(lia) E). pose proof (table_order rs (Z.to_nat x) n m r Ht E Hr ltac:(lia)). pose proof (table_range rs _ m Ht E). lia.
    - apply lookup_ge_None in E. apply lookup_lt_Some in Hr. lia. }
  destruct (rs !! Z.to_nat x) as [m|] eqn:Em; [destruct (Z.eqb_spec (r_start m) k) as [Hk|Hk]|].
  { destruct (Z.ltb_spec x 0); [lia|]. rewrite Em. pose proof (table_range rs _ m Ht Em).
    destruct (Z.ltb_spec (r_end m) k); [lia|]. split; [by eapply list_elem_of_lookup_2|lia]. }
  all: assert (∀ n r, rs !! n = Some r → x <= Z.of_nat n → ¬ r_start r <= k <= r_end r) as Hfrom;
    [intros n r Hr Hn; destruct (decide (n = Z.to_nat x)) as [->|]; [|apply (Hafter n r Hr); lia];
     rewrite Em in Hr; try done; injection Hr as <-; pose proof (Hhigh (Z.to_nat x) m ltac:(lia) Em); lia|].
  all: destruct (Z.ltb_spec (x - 1) 0);
    [intros r (n & Hr)%list_elem_of_lookup; apply (Hfrom n r Hr); lia|].
  all: destruct (rs !! Z.to_nat (x - 1)) as [r|] eqn:Er; [|apply lookup_ge_None in Er; lia].
  all: pose proof (Hlow (Z.to_nat (x - 1)) r ltac:(lia) Er);
    destruct (Z.ltb_spec (r_end r) k); [|split; [by eapply list_elem_of_lookup_2|lia]].
  all: intros r' (n & Hr')%list_elem_of_lookup; destruct (Z.le_gt_cases x (Z.of_nat n)); [by apply (Hfrom n r' Hr')|];
    destruct (decide (n = Z.to_nat (x - 1))) as [->|]; [assert (r' = r) as -> by congruence; lia|];
    pose proof (table_order rs n (Z.to_nat (x - 1)) r' r Ht Hr' Er ltac:(lia)); lia.
Qed.

Lemma one_range rs k r r' :
  table_ok rs → r ∈ rs → r' ∈ rs → r_start r <= k <= r_end r → r_start r' <= k <= r_end r' → r = r'.
Proof.
  intros Ht (i & Hi)%list_elem_of_lookup (j & Hj)%list_elem_of_lookup H H'. destruct (decide (i = j)) as [->|Hne]; [congruence|].
  destruct (Nat.lt_ge_cases i j).
  - pose proof (table_order rs i j r r' Ht Hi Hj ltac:(lia)). lia.
  - pose proof (table_order rs j i r' r Ht Hj Hi ltac:(lia)). lia.
Qed.

(** The search finds the range the table has for a key. *)
Lemma find_range_look rs N k : out_ok N (rev rs) → r_cc <$> find_range rs k = look (rev rs) k.
Proof.
  intros HN. pose proof (out_ok_table _ _ HN) as Ht. rewrite rev_involutive in Ht.
  pose proof (find_range_spec rs k Ht) as H. assert (∀ r, r ∈ rs ↔ r ∈ rev rs) as Hrev.
  { intros r. by rewrite !list_elem_of_In, <- in_rev. }
  destruct (look (rev rs) k) as [cc|] eqn:E.
  - apply look_in in E as (r & Hr%Hrev & Hk & <-). destruct (find_range rs k) as [r'|]; [|by destruct (H r Hr)].
    destruct H as [H1 H2]. cbn. f_equal. by rewrite (one_range rs k r' r).
  - destruct (find_range rs k) as [r|]; [|done]. destruct H as [H1%Hrev H2]. by destruct (look_None _ _ _ E H1).
Qed.

(** ** The innermost is the narrowest *)

Lemma latest_spec l k :
  StronglySorted cp_le l →
  match latest l k with
  | Some p => p ∈ l ∧ covers p k ∧ ∀ q, q ∈ l → covers q k → cp_le q p
  | None => ∀ q, q ∈ l → ¬ covers q k
  end.
Proof.
  induction l as [|p l IH] using rev_ind; intros HS; [by intros q ?%not_elem_of_nil|].
  apply StronglySorted_app in HS as (Hle & HS & _). specialize (IH HS). rewrite latest_app.
  assert (∀ q, q ∈ l ++ [p] ↔ q ∈ l ∨ q = p) as Hin by set_solver. destruct (decide (covers p k)).
  - split_and!; [set_solver|done|]. intros q [Hq| ->]%Hin _; [apply Hle; set_solver|unfold cp_le; lia].
  - destruct (latest l k) as [m|].
    + destruct IH as (? & ? & H). split_and!; [set_solver|done|]. intros q [Hq| ->]%Hin Hc; [by apply H|done].
    + intros q [Hq| ->]%Hin; [by apply IH|done].
Qed.

(** The order in which a label prefers prefixes. *)
Definition narrower (a b : countryPrefix) : Prop := cp_bits a < cp_bits b ∨ cp_bits a = cp_bits b ∧ cp_cc a <= cp_cc b.

Lemma nested_narrower w p q k : 0 <= w <= 64 → cp_block w p → cp_block w q → covers p k → covers q k → cp_le q p → narrower q p.
Proof.
  intros Hw Hp Hq Cp Cq Hle. unfold covers in *. pose proof (blocks_nest w q p Hw Hq Hp Hle ltac:(lia)) as Hin.
  unfold narrower, cp_le in *. destruct Hle as [Hlt|[? ?]]; [|done]. left.
  destruct (Z.lt_ge_cases (cp_bits q) (cp_bits p)) as [|Hge]; [done|exfalso].
  pose proof (cb_end w p Hp). pose proof (cb_end w q Hq).
  pose proof (Z.pow_le_mono_r 2 (w - Z.min (cp_bits q) w) (w - Z.min (cp_bits p) w) ltac:(lia) ltac:(lia)). lia.
Qed.

Lemma narrowest_spec w ps k :
  0 <= w <= 64 → Forall (cp_block w) ps →
  match narrowest ps k with
  | Some p => p ∈ ps ∧ covers p k ∧ ∀ q, q ∈ ps → covers q k → narrower q p
  | None => ∀ q, q ∈ ps → ¬ covers q k
  end.
Proof.
  intros Hw Hps. unfold narrowest. pose proof (latest_spec (merge_sort cp_le ps) k (StronglySorted_merge_sort cp_le ps)) as H.
  assert (∀ q, q ∈ merge_sort cp_le ps ↔ q ∈ ps) as Hin by (intros q; by rewrite merge_sort_Permutation).
  rewrite Forall_forall in Hps. destruct (latest _ k) as [p|].
  - destruct H as (Hp%Hin & Hc & Hall). split_and!; [done..|]. intros q Hq Hcq.
    apply (nested_narrower w p q k); auto. by apply Hall; [apply Hin|].
  - intros q Hq%Hin. by apply H.
Qed.

(** ** Prefixes as blocks *)

(** The prefix a label goes by: of IPv6 at most the first 64 bits. *)
Definition labelled (p : prefix) : prefix := Prefix (p_addr p) (if Is4 (p_addr p) then p_bits p else Z.min (p_bits p) 64).

Lemma key_block w n v :
  0 <= n <= w → 0 <= v < 2 ^ w → mask_bits w n v = v →
  (2 ^ (w - n) | v) ∧ Z.lor v (Z.shiftl 1 (w - n) - 1) = v + 2 ^ (w - n) - 1 ∧ v + 2 ^ (w - n) - 1 < 2 ^ w ∧
  ∀ u, v <= u <= v + 2 ^ (w - n) - 1 ↔ Z.shiftr v (w - n) = Z.shiftr u (w - n).
Proof.
  intros Hn Hv Hm. pose proof (lor_host w n v Hn) as HL. pose proof (last_val_bounds w n v Hn Hv) as HB.
  unfold last_val in *. rewrite Hm in *. split_and!.
  - exists (Z.shiftr v (w - n)). rewrite <- Hm at 1. unfold mask_bits. by rewrite Z.shiftl_mul_pow2 by lia.
  - rewrite Z.shiftl_1_l, Z.sub_1_r, <- Z.ones_equiv, HL. lia.
  - lia.
  - intros u. pose proof (mask_range w n v u Hn) as HR. unfold last_val in HR. rewrite Hm in HR. rewrite <- HR. lia.
Qed.

Definition family_width (a : addr) : Z := if Is4 a then 32 else 64.

Lemma key_masked p :
  net_ok p → let w := family_width (p_addr p) in let n := Z.min (p_bits p) w in
  0 <= n <= w ∧ 0 <= addrKey (p_addr p) < 2 ^ w ∧ mask_bits w n (addrKey (p_addr p)) = addrKey (p_addr p).
Proof.
  intros [[Hv _] Hb Hm _]. destruct p as [[v|v z] n]; cbn in *.
  - injection Hm as Hm. rewrite Z.min_l by lia. done.
  - injection Hm as Hm. rewrite Z.shiftr_div_pow2 by lia. split_and!; [lia|lia| | |].
    + apply Z.div_pos; lia.
    + apply Z.div_lt_upper_bound; lia.
    + rewrite <- Hm at 2. unfold mask_bits. rewrite <- Z.shiftr_div_pow2, Z.shiftr_shiftr by lia.
      destruct (Z.le_gt_cases n 64).
      * rewrite Z.min_l by lia. replace (64 + (64 - n)) with (128 - n) by lia.
        rewrite <- (Z.shiftr_div_pow2 (Z.shiftl _ _)) by lia. rewrite Z.shiftr_shiftl_l by lia. f_equal. lia.
      * rewrite Z.min_r, Z.sub_diag, Z.add_0_r, Z.shiftl_0_r by lia. rewrite <- Z.shiftr_div_pow2 by lia.
        fold (mask_bits 128 n v). by rewrite Hm.
Qed.

Lemma newCountryPrefix_bits p cc : cp_bits (newCountryPrefix p cc) = p_bits p ∧ cp_cc (newCountryPrefix p cc) = cc.
Proof. unfold newCountryPrefix. by destruct (prefixRange p). Qed.

(** A prefix of the archive is a block, and holds the key of exactly the
    addresses it names. *)
Lemma newCountryPrefix_ok p cc :
  net_ok p → cp_block (family_width (p_addr p)) (newCountryPrefix p cc) ∧
  ∀ a, addr_ok a → Is4 a = Is4 (p_addr p) → covers (newCountryPrefix p cc) (addrKey a) ↔ Contains (labelled p) a = true.
Proof.
  intros Hp. destruct (key_masked p Hp) as (Hn & Hv & Hm). set (w := family_width (p_addr p)) in *.
  destruct (key_block w _ _ Hn Hv Hm) as (Ka & Kl & Kf & Kc).
  assert (host_bits p = w - Z.min (p_bits p) w) as Hh by done.
  set (n := Z.min (p_bits p) w) in *. set (v := addrKey (p_addr p)) in *.
  assert (newCountryPrefix p cc = mkCP v (v + 2 ^ (w - n) - 1) (p_bits p) cc) as ->.
  { unfold newCountryPrefix, prefixRange. rewrite Hh. fold v. destruct (Z.eqb_spec (w - n) 64) as [E|E]; [|by rewrite Kl].
    rewrite E in *. assert (w = 64) as Hw by (unfold w, family_width in *; destruct (Is4 (p_addr p)); lia).
    rewrite Hw in *. unfold max64. do 2 f_equal. lia. }
  split.
  { split; cbn [cp_bits cp_start cp_end]; [apply Hp|lia|done|done|done]. }
  intros a Ha H4. unfold covers. cbn [cp_start cp_end]. rewrite Kc. clear - Ha H4 Hp.
  destruct Hp as [[_ Hz] Hb _ _], Ha as [Hr Hza]. unfold v, n, w, family_width, labelled, Contains.
  destruct p as [[x|x zx] b], a as [y|y zy]; cbn in *; try done; subst.
  - rewrite Z.min_l by lia. by rewrite Z.eqb_eq.
  - rewrite !Z.shiftr_shiftr by lia. replace (64 + (64 - Z.min b 64)) with (128 - Z.min b 64) by lia. change (is_empty "") with true. by rewrite andb_true_l, Z.eqb_eq.
Qed.

(** ** The archive *)

(** What an archive lists: a prefix in the file of a country, by its index. *)
Definition document (m : member) : option ipversePrefixes := v ← decode_first (m_body m); decode_struct set_document no_prefixes v.
Definition member_index (m : member) : option Z := if m_regular m then cc ← member_code (m_name m); code_index cc else None.
Definition texts (d : ipversePrefixes) : list string := slice_elements (iv_IPv4 d) ++ slice_elements (iv_IPv6 d).
Definition listed (ms : list member) (p : prefix) (cc : Z) : Prop :=
  ∃ m d s, m ∈ ms ∧ member_index m = Some cc ∧ document m = Some d ∧ s ∈ texts d ∧ parseEntry s = Some p ∧ broad p = false.

(** The prefixes of a family that [L] lists. *)
Definition family_of (L : prefix → Z → Prop) (four : bool) (c : countryPrefix) : Prop :=
  ∃ p cc, L p cc ∧ Is4 (p_addr p) = four ∧ c = newCountryPrefix p cc.

(** What has been read so far of what [L] lists. *)
Record reads (L : prefix → Z → Prop) (st : reading_state) : Prop := {
  rs_v4 : ∀ c, c ∈ rd_v4 st ↔ family_of L true c;
  rs_v6 : ∀ c, c ∈ rd_v6 st ↔ family_of L false c;
  rs_seen : ∀ cc, cc ∈ rd_seen st ↔ ∃ p, L p cc;
  rs_nodup : NoDup (rd_seen st) }.

Lemma reads_equiv L L' st : (∀ p cc, L p cc ↔ L' p cc) → reads L st → reads L' st.
Proof. intros H [H1 H2 H3 H4]. split; [..|done]; intros c; rewrite ?H1, ?H2, ?H3; unfold family_of; by setoid_rewrite H. Qed.

Lemma family_add L (four : bool) (l : list countryPrefix) p cc :
  (∀ c, c ∈ l ↔ family_of L four c) → Is4 (p_addr p) = four →
  ∀ c, c ∈ l ++ [newCountryPrefix p cc] ↔ family_of (λ q cq, L q cq ∨ q = p ∧ cq = cc) four c.
Proof.
  intros H Hp c. rewrite elem_of_app, list_elem_of_singleton, H. split.
  - intros [(q & cq & ? & ? & ?)| ->]; [exists q, cq|exists p, cc]; split_and!; auto.
  - intros (q & cq & [?|[-> ->]] & ? & ->); [left; by exists q, cq|by right].
Qed.
Lemma family_skip L (four : bool) (l : list countryPrefix) p cc :
  (∀ c, c ∈ l ↔ family_of L four c) → Is4 (p_addr p) = negb four →
  ∀ c, c ∈ l ↔ family_of (λ q cq, L q cq ∨ q = p ∧ cq = cc) four c.
Proof.
  intros H Hp c. rewrite H. split.
  - intros (q & cq & ? & ? & ?). exists q, cq. auto.
  - intros (q & cq & [?|[-> ->]] & Hq & ->); [by exists q, cq|]. rewrite Hp in Hq. by destruct four.
Qed.

Lemma reads_add L st p cc :
  reads L st →
  reads (λ q cq, L q cq ∨ q = p ∧ cq = cc)
    (let seen := if bool_decide (cc ∈ rd_seen st) then rd_seen st else cc :: rd_seen st in
     if Is4 (p_addr p) then mkReading (rd_v4 st ++ [newCountryPrefix p cc]) (rd_v6 st) seen
     else mkReading (rd_v4 st) (rd_v6 st ++ [newCountryPrefix p cc]) seen).
Proof.
  intros [H1 H2 H3 H4]. cbv zeta.
  assert (∀ cq, cq ∈ (if bool_decide (cc ∈ rd_seen st) then rd_seen st else cc :: rd_seen st) ↔ (∃ q, L q cq ∨ q = p ∧ cq = cc)) as HS.
  { intros cq. transitivity (cq ∈ rd_seen st ∨ cq = cc).
    - case_bool_decide; [naive_solver|rewrite elem_of_cons; naive_solver].
    - rewrite H3. naive_solver. }
  assert (NoDup (if bool_decide (cc ∈ rd_seen st) then rd_seen st else cc :: rd_seen st)) as HN
    by (case_bool_decide; [done|by constructor]).
  destruct (Is4 (p_addr p)) eqn:E; split; cbn [rd_v4 rd_v6 rd_seen]; try done.
  - by apply family_add.
  - by apply family_skip.
  - by apply family_skip.
  - by apply family_add.
Qed.

Lemma read_prefixes_ok cc ss L st st' :
  reads L st → read_prefixes cc ss st = Ok st' →
  reads (λ q cq, L q cq ∨ cq = cc ∧ ∃ s, s ∈ ss ∧ parseEntry s = Some q ∧ broad q = false) st'.
Proof.
  revert L st. induction ss as [|s ss IH]; intros L st HR; cbn [read_prefixes].
  { intros [= <-]. eapply reads_equiv; [|exact HR]. intros p cq. set_solver. }
  assert (∀ q cq, (L q cq ∨ cq = cc ∧ ∃ x, x ∈ s :: ss ∧ parseEntry x = Some q ∧ broad q = false) ↔
    ((L q cq ∨ parseEntry s = Some q ∧ broad q = false ∧ cq = cc) ∨ cq = cc ∧ ∃ x, x ∈ ss ∧ parseEntry x = Some q ∧ broad q = false)) as HE.
  { intros q cq. setoid_rewrite elem_of_cons. naive_solver. }
  intros H. apply (reads_equiv _ _ st' (λ q cq, iff_sym (HE q cq))). clear HE.
  destruct (parseEntry s) as [p|] eqn:Ep; [destruct (broad p) eqn:Eb; [|destruct (_ <=? _); [done|]]|].
  - eapply IH; [|exact H]. eapply reads_equiv; [|exact HR]. intros q cq. cbv beta. split; [by left|].
    intros [?|(? & ? & ?)]; [done|congruence].
  - eapply IH; [|exact H]. eapply reads_equiv; [|apply (reads_add L st p cc HR)]. intros q cq. cbv beta.
    split; (intros [?|Hq]; [by left|right]).
    + by destruct Hq as [-> ->].
    + by destruct Hq as ([= ->] & _ & ->).
  - eapply IH; [|exact H]. eapply reads_equiv; [|exact HR]. intros q cq. cbv beta. split; [by left|]. by intros [?|[? _]].
Qed.

Lemma read_members_ok ms L st st' :
  reads L st → read_members ms st = Ok st' → reads (λ q cq, L q cq ∨ listed ms q cq) st'.
Proof.
  revert L st. induction ms as [|m ms IH]; intros L st HR; cbn [read_members].
  { intros [= <-]. eapply reads_equiv; [|exact HR]. intros p cq. unfold listed. set_solver. }
  assert (∀ q cq, (L q cq ∨ listed (m :: ms) q cq) ↔
    (L q cq ∨ member_index m = Some cq ∧ ∃ d s, document m = Some d ∧ s ∈ texts d ∧ parseEntry s = Some q ∧ broad q = false) ∨ listed ms q cq) as HE.
  { intros q cq. unfold listed. setoid_rewrite elem_of_cons. naive_solver. }
  intros H. apply (reads_equiv _ _ st' (λ q cq, iff_sym (HE q cq))). clear HE.
  fold (member_index m) in H. fold (document m) in H.
  destruct (member_index m) as [idx|] eqn:Ei; [|eapply IH; [|exact H]; eapply reads_equiv; [|exact HR]; intros q cq; cbv beta; split; [by left|by intros [?|[? _]]]].
  destruct (_ <? _); [done|]. destruct (document m) as [d|] eqn:Ed; [|done]. fold (texts d) in H.
  destruct (read_prefixes idx (texts d) st) as [st1|e] eqn:Er; [|done]. cbn in H.
  eapply IH; [|exact H]. eapply reads_equiv; [|eapply read_prefixes_ok; [exact HR|exact Er]]. intros q cq. cbv beta.
  split; (intros [?|(Hc & Hq)]; [by left|right]).
  - destruct Hq as (s & ? & ? & ?). split; [by rewrite Hc|]. by exists d, s.
  - injection Hc as <-. split; [done|]. destruct Hq as (d' & s & [= <-] & ? & ? & ?). by exists s.
Qed.

(** ** The label *)

Lemma addrKey_range a : addr_ok a → 0 <= addrKey a < 2 ^ family_width a.
Proof.
  intros [Hv _]. destruct a as [n|n z]; cbn in *; [done|]. rewrite Z.shiftr_div_pow2 by lia.
  split; [apply Z.div_pos; lia|apply Z.div_lt_upper_bound; lia].
Qed.

Lemma listed_net ms p cc : listed ms p cc → net_ok p.
Proof. intros (m & d & s & _ & _ & _ & _ & Hs & _). by apply parseEntry_ok in Hs. Qed.
Lemma listed_code ms p cc : listed ms p cc → ∃ c, CountryCodes !! Z.to_nat cc = Some c.
Proof.
  intros (m & d & s & _ & Hi & _). unfold member_index in Hi. destruct (m_regular m); [|done].
  destruct (member_code (m_name m)) as [c|]; [|done]. change (code_index c = Some cc) in Hi. unfold code_index in Hi.
  destruct (list_find (λ x, x = c) CountryCodes) as [[n x]|] eqn:E; [|done]. injection Hi as <-.
  apply list_find_Some in E as (E & _ & _). exists x. by rewrite Nat2Z.id.
Qed.

(** One family of the table, from what the archive lists of it. *)
Lemma family_label (L : prefix → Z → Prop) (four : bool) ps a :
  (∀ p cc, L p cc → net_ok p) → (∀ c, c ∈ ps ↔ family_of L four c) → addr_ok a → Is4 a = four →
  match find_range (buildCountryRanges ps) (addrKey a) with
  | None => ∀ p cc, L p cc → Contains (labelled p) a = false
  | Some r => ∃ p, L p (r_cc r) ∧ Contains (labelled p) a = true ∧
      ∀ q cq, L q cq → Contains (labelled q) a = true → p_bits q < p_bits p ∨ p_bits q = p_bits p ∧ cq <= r_cc r
  end.
Proof.
  intros HL Hps Ha H4. set (w := family_width a). assert (0 <= w <= 64) as Hw by (unfold w, family_width; by destruct (Is4 a)).
  assert (Forall (cp_block w) ps) as Hb.
  { apply Forall_forall. intros c (p & cc & Hp & Hf & ->)%Hps. destruct (newCountryPrefix_ok p cc (HL p cc Hp)) as [Hblk _].
    unfold w, family_width in *. by rewrite H4, <- Hf. }
  assert (∀ p cc, L p cc → Contains (labelled p) a = true →
    newCountryPrefix p cc ∈ ps ∧ covers (newCountryPrefix p cc) (addrKey a)) as Hcov.
  { intros p cc Hp Hc. assert (Is4 a = Is4 (p_addr p)) as Hf.
    { unfold Contains, labelled in Hc. by destruct p as [[] ?], a. }
    split; [apply Hps; exists p, cc; split_and!; [done|by rewrite <- Hf|done]|].
    by apply (newCountryPrefix_ok p cc (HL p cc Hp)). }
  destruct (buildCountryRanges_spec w ps Hw Hb) as [Hout Hlook].
  specialize (Hlook _ (addrKey_range a Ha)). rewrite <- (find_range_look _ _ _ Hout) in Hlook.
  pose proof (narrowest_spec w ps (addrKey a) Hw Hb) as HN.
  destruct (find_range _ _) as [r|], (narrowest ps (addrKey a)) as [c|]; try done; cbn in Hlook.
  - injection Hlook as Hcc. destruct HN as ((p & cc & Hp & Hf & ->)%Hps & Hc & Hall).
    destruct (newCountryPrefix_bits p cc) as [Eb Ec]. rewrite Ec in Hcc. subst cc. exists p. split_and!; [done| |].
    + apply (newCountryPrefix_ok p (r_cc r) (HL p _ Hp)); [done|by rewrite Hf|done].
    + intros q cq Hq HCq. destruct (Hcov q cq Hq HCq) as [Hin Hc']. specialize (Hall _ Hin Hc'). unfold narrower in Hall.
      destruct (newCountryPrefix_bits q cq) as [Eb' Ec']. by rewrite Eb, Ec, Eb', Ec' in Hall.
  - intros p cc Hp. destruct (Contains (labelled p) a) eqn:E; [|done]. destruct (Hcov p cc Hp E) as [Hin Hc]. by destruct (HN _ Hin).
Qed.

Lemma built_table_passes w ps : 0 <= w <= 64 → Forall (cp_block w) ps → check_ranges (buildCountryRanges ps) = true.
Proof.
  intros Hw Hb. destruct (buildCountryRanges_spec w ps Hw Hb) as [Hout _]. apply out_ok_table in Hout.
  rewrite rev_involutive in Hout. by apply check_table.
Qed.

Lemma family_blocks (L : prefix → Z → Prop) (four : bool) ps :
  (∀ p cc, L p cc → net_ok p) → (∀ c, c ∈ ps ↔ family_of L four c) → Forall (cp_block (if four then 32 else 64)) ps.
Proof.
  intros HL Hps. apply Forall_forall. intros c (p & cc & Hp & Hf & ->)%Hps.
  destruct (newCountryPrefix_ok p cc (HL p cc Hp)) as [Hb _]. unfold family_width in Hb. by rewrite Hf in Hb.
Qed.

(** What an archive that can be read comes to. *)
Lemma parseCountryArchive_ok ar :
  match parseCountryArchive ar with
  | Err e => e ≠ AeUnsorted
  | Ok t => ∃ st, reads (listed (a_members ar)) st ∧ rd_seen st ≠ [] ∧
      t = mkTable (buildCountryRanges (rd_v4 st)) (buildCountryRanges (rd_v6 st)) (Z.of_nat (length (rd_seen st)))
  end.
Proof.
  unfold parseCountryArchive. assert (reads (λ _ _, False) (mkReading [] [] [])) as H0.
  { split; [..|by constructor]; intros c; cbn; unfold family_of; split; [by intros ?%not_elem_of_nil|naive_solver|by intros ?%not_elem_of_nil|naive_solver|by intros ?%not_elem_of_nil|naive_solver]. }
  destruct (read_members (a_members ar) (mkReading [] [] [])) as [st|e] eqn:E; cbn.
  - pose proof (read_members_ok _ _ _ _ H0 E) as HR. apply (reads_equiv _ (listed (a_members ar))) in HR; [|naive_solver].
    destruct (a_eof ar); [|done]. cbn. destruct (a_exhausted ar); [done|]. case_bool_decide as Hs; [done|]. cbv zeta. cbn [t_v4 t_v6].
    pose proof (family_blocks _ true _ (listed_net (a_members ar)) (rs_v4 _ _ HR)) as B4.
    pose proof (family_blocks _ false _ (listed_net (a_members ar)) (rs_v6 _ _ HR)) as B6.
    rewrite (built_table_passes 32 _ ltac:(lia) B4), (built_table_passes 64 _ ltac:(lia) B6). by exists st.
  - intros ->. clear H0. revert E. generalize (mkReading [] [] []). induction (a_members ar) as [|m ms IH]; intros st; [done|].
    cbn [read_members]. fold (member_index m) (document m). destruct (member_index m); [|apply IH]. destruct (_ <? _); [done|].
    destruct (document m) as [d|]; [|done]. fold (texts d).
    destruct (read_prefixes z (texts d) st) as [st1|e] eqn:Er; cbn; [apply IH|]. intros [= ->]. revert st Er.
    induction (texts d) as [|s ss IHs]; intros st; [done|]. cbn [read_prefixes]. destruct (parseEntry s); [|apply IHs].
    destruct (broad p); [apply IHs|]. destruct (_ <=? _); [done|]. apply IHs.
Qed.

(** C27: The country shown is the one of the narrowest block.  An archive is
    either refused, and never because the sweep left its ranges out of order,
    or becomes a table that counts the countries it lists and names a public
    address by the narrowest listed prefix that holds it, the later country
    where two list the same one, and says nothing where none does; a private
    or special address has no label.  An IPv6 prefix longer than 64 bits holds
    its whole /64. *)
Theorem country_label_is_the_narrowest ar :
  match parseCountryArchive ar with
  | Err e => e ≠ AeUnsorted
  | Ok t =>
      (∃ ccs, NoDup ccs ∧ (∀ cc, cc ∈ ccs ↔ ∃ p, listed (a_members ar) p cc) ∧ t_countries t = Z.of_nat (length ccs)) ∧
      ∀ a, addr_ok a → let b := Unmap a in let label := lookup_country (Some t) a in
        if IsGlobalUnicast b && negb (IsPrivate b) then
          (label = "" ∧ ∀ p cc, listed (a_members ar) p cc → Contains (labelled p) b = false) ∨
          (∃ p cc, listed (a_members ar) p cc ∧ Contains (labelled p) b = true ∧ CountryCodes !! Z.to_nat cc = Some label ∧
             ∀ q cq, listed (a_members ar) q cq → Contains (labelled q) b = true →
               p_bits q < p_bits p ∨ p_bits q = p_bits p ∧ cq <= cc)
        else label = ""
  end.
Proof.
  pose proof (parseCountryArchive_ok ar) as H. destruct (parseCountryArchive ar) as [t|e]; [|done].
  destruct H as (st & [R4 R6 RS RN] & _ & ->). split; [by exists (rd_seen st)|].
  intros a Ha. cbv zeta. unfold lookup_country. pose proof (Unmap_ok a Ha) as Hb. set (b := Unmap a) in *. cbn [t_v4 t_v6].
  destruct (IsGlobalUnicast b) eqn:EG; cbn [negb andb orb]; [|done]. destruct (IsPrivate b); cbn [negb]; [done|].
  set (rs := if Is4 b then _ else _).
  pose proof (listed_net (a_members ar)) as HL.
  assert (match find_range rs (addrKey b) with
  | None => ∀ p cc, listed (a_members ar) p cc → Contains (labelled p) b = false
  | Some r => ∃ p, listed (a_members ar) p (r_cc r) ∧ Contains (labelled p) b = true ∧
      ∀ q cq, listed (a_members ar) q cq → Contains (labelled q) b = true → p_bits q < p_bits p ∨ p_bits q = p_bits p ∧ cq <= r_cc r
  end) as HF.
  { unfold rs. destruct (Is4 b) eqn:E4; [by apply (family_label _ true)|by apply (family_label _ false)]. }
  destruct (find_range rs (addrKey b)) as [r|]; [right|by left]. destruct HF as (p & Hp & Hc & Hn).
  exists p, (r_cc r). split_and!; [done..| |done]. by destruct (listed_code _ _ _ Hp) as [c ->].
Qed.

Definition sample_table : countryTable :=
  mkTable [mkRange 83951616 84017151 53; mkRange 2070212608 2070213119 190; mkRange 2070213120 2070213375 53;
           mkRange 2070213376 2070213631 190]
    [mkRange 2594073385365405696 2594090977551450111 190] 2.

(** 123.100.242.9 is in Germany's block inside Singapore's. *)
Lemma country_label_is_the_narrowest_witness :
  parseCountryArchive sample_archive = Ok sample_table ∧
  ∃ p, listed (a_members sample_archive) p 53 ∧ Contains (labelled p) (Addr4 2070213129) = true ∧
    ∀ q cq, listed (a_members sample_archive) q cq → Contains (labelled q) (Addr4 2070213129) = true →
      p_bits q < p_bits p ∨ p_bits q = p_bits p ∧ cq <= 53.
Proof.
  assert (parseCountryArchive sample_archive = Ok sample_table) as E by (vm_compute; reflexivity). split; [exact E|].
  pose proof (country_label_is_the_narrowest sample_archive) as H. rewrite E in H. destruct H as [_ H].
  assert (addr_ok (Addr4 2070213129)) as Ha by (split; [cbn; lia|reflexivity]). specialize (H (Addr4 2070213129) Ha).
  assert (lookup_country (Some sample_table) (Addr4 2070213129) = "de") as EL by (vm_compute; reflexivity).
  cbv zeta in H. rewrite EL in H.
  change (IsGlobalUnicast (Unmap (Addr4 2070213129)) && negb (IsPrivate (Unmap (Addr4 2070213129)))) with true in H. cbv iota in H.
  destruct H as [[H _]|(p & cc & Hp & Hc & Hl & Hn)]; [discriminate H|].
  assert (cc = 53) as ->.
  { clear - Hp Hl. destruct Hp as (m & d & s & _ & Hi & _). unfold member_index in Hi. destruct (m_regular m); [|discriminate Hi].
    destruct (member_code (m_name m)) as [c|]; [|discriminate Hi]. change (code_index c = Some cc) in Hi. unfold code_index in Hi.
    destruct (list_find (λ x, x = c) CountryCodes) as [[n x]|] eqn:El; [|discriminate Hi].
    assert (cc = Z.of_nat n) as -> by (injection Hi; congruence). apply list_find_Some in El as (El & -> & Hfirst).
    rewrite Nat2Z.id in Hl. rewrite Hl in El. injection El as <-.
    assert (CountryCodes !! 53%nat = Some "de") as E53 by (vm_compute; reflexivity).
    destruct (Nat.lt_trichotomy n 53) as [Hlt|[->|Hgt]]; [|reflexivity|by destruct (Hfirst 53%nat "de" E53 Hgt)].
    exfalso. assert (forallb (λ x, negb (String.eqb x "de")) (take 53 CountryCodes) = true) as HF by (vm_compute; reflexivity).
    rewrite forallb_forall in HF. assert (In "de" (take 53 CountryCodes)) as Hin.
    { apply list_elem_of_In. apply list_elem_of_lookup_2 with n. by rewrite lookup_take_lt. }
    apply HF in Hin. discriminate Hin. }
  exists p. split; [exact Hp|]. split; [exact Hc|]. exact Hn.
Defined.
