(* ===== verification/CountryLookup.v ===== *)
(** * The copy of the country table

    [src/internal/web/countrylookup.go]: the archive behind the country column
    is asked for once a day, kept on disk, and swapped in whole.  The state of
    its requests is an entry of the store [FeedRunner] models, so any other
    save of that store writes it too.

    A refresh is two steps, as a feed's: the attempt is recorded, then the
    answer is taken; the lock [busy] lets one be under way.  [unpack] is what
    [compress/gzip] and [archive/tar] make of a body. *)
From S2P Require Import Prelude GoStrings GoNet FeedIDs FeedRunner CountryTable.

Local Open Scope Z_scope.

Definition countryArchiveURL : string :=
  "https://github.com/ipverse/country-ip-blocks/releases/latest/download/country-ip-blocks.tar.gz".
Definition countryLookupKey : string := "country_lookup".
Definition countryArchiveHosts : list string := ["github.com"; "release-assets.githubusercontent.com"].
Definition countryArchiveMaxRedirects : nat := 3.

(** ** Redirects *)

(** The parts of the URL a redirect names. *)
Record target := mkTarget { tg_Scheme : string; tg_User : bool; tg_Hostname : string; tg_Port : string }.

Definition countryArchiveRedirect (u : target) (via : nat) : bool :=
  negb ((countryArchiveMaxRedirects <? via)%nat || negb (String.eqb (tg_Scheme u) "https") ||
        negb (is_empty (tg_Port u)) || tg_User u || negb (existsb (String.eqb (tg_Hostname u)) countryArchiveHosts)).

(** [http.Client.Do] asks before it follows; [false]: it refused.  [servers]
    is where the answer to the last of these requests redirects to, if it does. *)
Fixpoint client_do (fuel : nat) (servers : list target → option target) (sent : list target) : option (list target * bool) :=
  match fuel with
  | O => None
  | S n =>
      match servers sent with
      | None => Some (sent, true)
      | Some u => if countryArchiveRedirect u (length sent) then client_do n servers (sent ++ [u]) else Some (sent, false)
      end
  end.

(** ** The lookup *)

Record lookup := mkLookup {
  lk_runner : Runner;                          (* the store *)
  lk_disk : option (list ascii);               (* countries.tar.gz *)
  lk_table : option countryTable;
  lk_job : option feedFetchState }.            (* the refresh under way *)

Section Lookup.
Variable unpack : list ascii → option archive.

Definition parse_body (b : list ascii) : result archive_error countryTable :=
  match unpack b with None => Err AeArchive | Some a => parseCountryArchive a end.

Definition country (l : lookup) (a : addr) : string := lookup_country (lk_table l) a.

(** [load]; [readable]: the file could be read if there is one. *)
Definition load (readable : bool) (l : lookup) : lookup :=
  match (if readable then lk_disk l else None) with
  | None => l
  | Some raw =>
      match parse_body raw with
      | Ok t => mkLookup (lk_runner l) (lk_disk l) (Some t) (lk_job l)
      | Err _ => l
      end
  end.

Definition lookup_due (now : Z) (l : lookup) : bool :=
  let st := fetchState countryLookupKey (lk_runner l) in
  match ff_LastAttempt st, lk_table l with
  | None, _ => true
  | Some _, None => (ff_Failures st =? 0) || (nextFeedAttempt st CountryInterval <=? now)
  | Some _, Some _ => nextFeedAttempt st CountryInterval <=? now
  end.

Definition with_state (io : bool) (st : feedFetchState) (l : lookup) : lookup :=
  mkLookup (setFetchState io countryLookupKey st (lk_runner l)) (lk_disk l) (lk_table l) (lk_job l).
Definition with_job (j : option feedFetchState) (l : lookup) : lookup := mkLookup (lk_runner l) (lk_disk l) (lk_table l) j.

(** [refresh] up to the network. *)
Definition lookup_begin (now : Z) (io : bool) (l : lookup) : lookup :=
  match lk_job l with
  | Some _ => l
  | None =>
      let st := with_attempt now (fetchState countryLookupKey (lk_runner l)) in
      with_job (Some st) (with_state io st l)
  end.

(** The validators the request carries: those of the state, with a table. *)
Definition lookup_validators (l : lookup) (st : feedFetchState) : option (string * string) :=
  match lk_table l with Some _ => Some (ff_ETag st, ff_LastModified st) | None => None end.

Definition lookup_fail (io : bool) (st : feedFetchState) (reason : feedErr) (status : Z) (l : lookup) : lookup :=
  with_state io
    (mkFetch (ff_ETag st) (ff_LastModified st) (Some reason) status (ff_Failures st + 1) (ff_LastAttempt st)
       (match lk_table l with Some _ => FeedFailedCopy | None => FeedFailedNoCopy end)
       (ff_Rejected st) (ff_RejectedSample st) (ff_ShrankFrom st) (ff_ShrankTo st)) l.
Definition succeeded (status : FeedStatusKind) (st : feedFetchState) : feedFetchState :=
  mkFetch (ff_ETag st) (ff_LastModified st) None 0 0 (ff_LastAttempt st)
    status (ff_Rejected st) (ff_RejectedSample st) (ff_ShrankFrom st) (ff_ShrankTo st).

Definition archive_reason (e : archive_error) : feedErr :=
  match e with AeEmpty => feedErrEmpty | AeTooLong => feedErrTooLarge | AeArchive | AeUnsorted => feedErrTransfer end.

(** [refresh] from the answer on: [keep] and [io] are the outcomes of writing
    the copy and the state. *)
Definition take_answer (answer : http_answer) (keep io : bool) (st : feedFetchState) (l : lookup) : lookup :=
  match readFeedResponse (match lk_table l with Some _ => true | None => false end) answer with
  | FFailure reason status => lookup_fail io st reason status l
  | FNotModified => with_state io (succeeded FeedUnchanged st) l
  | FBody b etag lm =>
      match parse_body b with
      | Err e => lookup_fail io st (archive_reason e) 0 l
      | Ok t =>
          let st := if keep then with_validators etag lm st else st in
          let l := mkLookup (lk_runner l) (if keep then Some b else lk_disk l) (Some t) (lk_job l) in
          with_state io (succeeded FeedUpdated st) l
      end
  end.
Definition lookup_end (answer : http_answer) (keep io : bool) (l : lookup) : lookup :=
  match lk_job l with
  | None => l
  | Some st => with_job None (take_answer answer keep io st l)
  end.

(** ** Runs *)

Inductive lookup_event :=
| LPass (now : Z) (io : bool)                                  (* a pass asks whether it is due *)
| LAnswer (answer : http_answer) (keep io : bool)
| LSaved                                                       (* another entry of the store is saved *)
| LRestart (drawn : Z) (io readable : bool).

Definition lookup_step (l : lookup) (e : lookup_event) : lookup :=
  match e with
  | LPass now io => if lookup_due now l then lookup_begin now io l else l
  | LAnswer answer keep io => lookup_end answer keep io l
  | LSaved => mkLookup (saveLocked true (lk_runner l)) (lk_disk l) (lk_table l) (lk_job l)
  | LRestart drawn io readable =>
      load readable (mkLookup (restart drawn io (rn_file (lk_runner l))) (lk_disk l) None None)
  end.

(** What the publisher answered with and the lookup took, oldest first: the
    body, and the validators it came with. *)
Definition accepted_by (l : lookup) (e : lookup_event) : list (list ascii * (string * string)) :=
  match e, lk_job l with
  | LAnswer answer _ _, Some _ =>
      match readFeedResponse (match lk_table l with Some _ => true | None => false end) answer with
      | FBody b etag lm => match parse_body b with Ok _ => [(b, (etag, lm))] | Err _ => [] end
      | _ => []
      end
  | _, _ => []
  end.
Definition lookup_run (s : lookup * list (list ascii * (string * string))) (evs : list lookup_event) :
  lookup * list (list ascii * (string * string)) :=
  foldl (λ s e, (lookup_step s.1 e, s.2 ++ accepted_by s.1 e)) s evs.
Definition installed (drawn : Z) (io : bool) : lookup := mkLookup (restart drawn io None) None None None.

(** The validators of a stored state. *)
Definition validators_of (st : feedStateFile) : string * string :=
  let v := default noFetch (Fetch st !! countryLookupKey) in (ff_ETag v, ff_LastModified v).

(** ** Validators and the copy *)

Definition entry_validators (st : feedFetchState) : string * string := (ff_ETag st, ff_LastModified st).

(** Validators that came with an answer no later than the [j]th. *)
Definition no_later (took : list (list ascii * (string * string))) (j : option nat) (v : string * string) : Prop :=
  v = ("", "") ∨ ∃ i b n, j = Some n ∧ (i <= n)%nat ∧ took !! i = Some (b, v).

(** The copy on disk is the [j]th answer taken. *)
Record copy_is (took : list (list ascii * (string * string))) (j : option nat) (l : lookup) : Prop := {
  ci_disk : match j with Some n => ∃ b v, took !! n = Some (b, v) ∧ lk_disk l = Some b | None => lk_disk l = None end;
  ci_memory : no_later took j (validators_of (rn_st (lk_runner l)));
  ci_file : ∀ f, rn_file (lk_runner l) = Some f → no_later took j (validators_of f);
  ci_job : ∀ st, lk_job l = Some st → no_later took j (entry_validators st);
  ci_table : ∀ t, lk_table l = Some t → ∃ i b v, took !! i = Some (b, v) ∧ parse_body b = Ok t ∧
    match j with Some n => (n <= i)%nat | None => True end }.

Lemma no_later_more took more j v : no_later took j v → no_later (took ++ more) j v.
Proof. intros [?|(i & b & n & ? & ? & ?)]; [by left|]. right. exists i, b, n. split_and!; [done..|by apply lookup_app_l_Some]. Qed.

Lemma copy_more took more j l : copy_is took j l → copy_is (took ++ more) j l.
Proof.
  intros [H1 H2 H3 H4 H5]. split.
  - destruct j as [n|]; [|done]. destruct H1 as (b & v & ? & ?). exists b, v. split; [by apply lookup_app_l_Some|done].
  - by apply no_later_more.
  - intros f Hf. by apply no_later_more, H3.
  - intros st Hst. by apply no_later_more, H4.
  - intros t Ht. destruct (H5 t Ht) as (i & b & v & ? & ? & ?). exists i, b, v. split_and!; [by apply lookup_app_l_Some|done..].
Qed.

Lemma fetchState_validators r : entry_validators (fetchState countryLookupKey r) = validators_of (rn_st r).
Proof. done. Qed.

(** Writing the entry: what is held is the entry's, what is on disk is either. *)
Lemma with_state_ok took j io st l :
  copy_is took j l → no_later took j (entry_validators st) → copy_is took j (with_state io st l).
Proof.
  intros [H1 H2 H3 H4 H5] Hst. unfold with_state, setFetchState.
  set (s := mkStateFile _ _ _). assert (validators_of s = entry_validators st) as Hs
    by (unfold validators_of, s, entry_validators; cbn [Fetch]; by rewrite lookup_insert_eq).
  split; cbn [lk_disk lk_job lk_table lk_runner]; [done| | |done|done].
  - unfold saveLocked, with_st. destruct io; cbn [rn_st]; by rewrite Hs.
  - intros f. unfold saveLocked, with_st. destruct io; cbn [rn_file rn_st]; [|by apply H3]. intros [= <-]. by rewrite Hs.
Qed.
Lemma with_job_ok took j st l : copy_is took j l → (∀ s, st = Some s → no_later took j (entry_validators s)) → copy_is took j (with_job st l).
Proof. intros [H1 H2 H3 H4 H5] H. by split. Qed.

(** An answer that was taken: the table is the newest, and so are the copy and
    the validators, or neither. *)
Lemma take_ok took j answer keep io st l :
  copy_is took j l → lk_job l = Some st →
  ∃ j', copy_is (took ++ accepted_by l (LAnswer answer keep io)) j' (with_job None (take_answer answer keep io st l)).
Proof.
  intros H Hj. pose proof (ci_job _ _ _ H st Hj) as Hst. unfold take_answer, accepted_by. rewrite Hj.
  assert (∀ v, no_later took j v → no_later (took ++ []) j v) as Hnil by (intros v; by rewrite app_nil_r).
  destruct (readFeedResponse _ answer) as [|b etag lm|reason status].
  - exists j. apply with_job_ok; [|done]. apply with_state_ok; [by apply copy_more|by apply Hnil].
  - destruct (parse_body b) as [t|e] eqn:Ep.
    + set (new := (b, (etag, lm))). assert ((took ++ [new]) !! length took = Some new) as Hnew by (by apply list_lookup_middle).
      destruct H as [H1 H2 H3 H4 H5]. set (l' := mkLookup (lk_runner l) (if keep then Some b else lk_disk l) (Some t) None).
      assert (∀ j', match j' with Some n => ∃ b v, (took ++ [new]) !! n = Some (b, v) ∧ lk_disk l' = Some b ∧ (n <= length took)%nat | None => lk_disk l' = None end →
        (∀ v, no_later took j v → no_later (took ++ [new]) j' v) → copy_is (took ++ [new]) j' l') as Hcopy.
      { intros j' Hd Hn. split; cbn [lk_runner lk_job lk_table l'].
        - destruct j' as [n|]; [|done]. destruct Hd as (b' & v & ? & ? & _). by exists b', v.
        - by apply Hn.
        - intros f Hf. by apply Hn, H3.
        - done.
        - intros t' [= <-]. exists (length took), b, (etag, lm). split_and!; [done..|]. destruct j'; [|done]. by destruct Hd as (? & ? & _ & _ & ?). }
      destruct keep.
      * exists (Some (length took)). apply (with_state_ok _ _ io (succeeded FeedUpdated (with_validators etag lm st)) l').
        -- apply Hcopy; [by exists b, (etag, lm)|]. intros v [->|(i & b' & n & -> & ? & Hi)]; [by left|]. right.
           exists i, b', (length took). split_and!; [done|apply lookup_lt_Some in Hi; lia|by apply lookup_app_l_Some].
        -- right. exists (length took), b, (length took). split_and!; [done..|exact Hnew].
      * exists j. apply (with_state_ok _ _ io (succeeded FeedUpdated st) l').
        -- apply Hcopy; [|intros v; apply no_later_more]. destruct j as [n|]; [|done]. destruct H1 as (b' & v & Hi & ?).
           exists b', v. split_and!; [by apply lookup_app_l_Some|done|apply lookup_lt_Some in Hi; lia].
        -- by apply no_later_more.
    + exists j. apply with_job_ok; [|done]. apply with_state_ok; [by apply copy_more|by apply Hnil].
  - exists j. apply with_job_ok; [|done]. apply with_state_ok; [by apply copy_more|by apply Hnil].
Qed.

Lemma restart_validators took j drawn io f :
  (∀ st, f = Some st → no_later took j (validators_of st)) →
  no_later took j (validators_of (rn_st (restart drawn io f))) ∧
  ∀ st, rn_file (restart drawn io f) = Some st → no_later took j (validators_of st).
Proof.
  intros H. assert (no_later took j (validators_of (loaded f drawn))) as HL.
  { unfold loaded. destruct f as [st|]; cbn [default from_option Datatypes.id]; [|by left].
    by destruct (_ || _); apply (H st). }
  unfold restart. destruct (match f with None => _ | Some _ => _ end), io; cbn; split; try done. by intros st [= <-].
Qed.

Lemma lookup_step_ok took j l e : copy_is took j l → ∃ j', copy_is (took ++ accepted_by l e) j' (lookup_step l e).
Proof.
  intros H. destruct e as [now io|answer keep io| |drawn io readable]; cbn [lookup_step].
  - exists j. rewrite app_nil_r. destruct (lookup_due now l); [|done]. unfold lookup_begin. destruct (lk_job l) eqn:E; [done|].
    assert (no_later took j (entry_validators (with_attempt now (fetchState countryLookupKey (lk_runner l))))) as Hv
      by apply (ci_memory _ _ _ H).
    apply with_job_ok; [by apply with_state_ok|]. by intros s [= <-].
  - unfold lookup_end. destruct (lk_job l) as [st|] eqn:E; [by apply (take_ok took j)|].
    exists j. unfold accepted_by. rewrite E, app_nil_r. done.
  - exists j. cbn [accepted_by]. rewrite app_nil_r. destruct H as [H1 H2 H3 H4 H5]. split; try done. by intros f [= <-].
  - exists j. cbn [accepted_by]. rewrite app_nil_r. destruct H as [H1 H2 H3 H4 H5].
    destruct (restart_validators took j drawn io _ H3) as [R1 R2]. set (l' := mkLookup _ (lk_disk l) None None).
    assert (copy_is took j l') as H' by (by split). unfold load. cbn [lk_disk lk_runner lk_job l'].
    destruct readable; [|done]. destruct (lk_disk l) as [raw|] eqn:Ed; [|done].
    destruct (parse_body raw) as [t|] eqn:Ep; [|done]. destruct H' as [D1 D2 D3 D4 D5]. split; try done.
    intros t' [= <-]. destruct j as [n|]; [|done]. destruct H1 as (b & v & ? & [= ->]). exists n, b, v. split_and!; [done..|lia].
Qed.

(** A restart never confirms an old copy.  From a fresh installation,
    through any passes, answers, restarts and saves of other entries, and
    whichever writes fail: the copy on disk is an archive that was answered
    with and could be read; validators, in memory or in the state file, came
    with an answer no later than that copy, so that not modified never stands
    for an archive newer than the one a restart loads; and the table in use is
    that of an answer no older than the copy. *)
Theorem validators_never_outrun_the_copy drawn io evs :
  let '(l, took) := lookup_run (installed drawn io, []) evs in
  ∃ j, match j with Some n => ∃ b v, took !! n = Some (b, v) ∧ lk_disk l = Some b | None => lk_disk l = None end ∧
    (∀ v, v = validators_of (rn_st (lk_runner l)) ∨ (∃ f, rn_file (lk_runner l) = Some f ∧ v = validators_of f) →
       v = ("", "") ∨ ∃ i b n, j = Some n ∧ (i <= n)%nat ∧ took !! i = Some (b, v)) ∧
    (∀ t, lk_table l = Some t → ∃ i b v, took !! i = Some (b, v) ∧ parse_body b = Ok t ∧
       match j with Some n => (n <= i)%nat | None => True end).
Proof.
  assert (∃ j, copy_is (lookup_run (installed drawn io, []) evs).2 j (lookup_run (installed drawn io, []) evs).1) as (j & [H1 H2 H3 H4 H5]).
  { induction evs as [|e evs (j & IH)] using rev_ind.
    - exists None. unfold installed. cbn [lookup_run foldl fst snd].
      destruct (restart_validators [] None drawn io None) as [R1 R2]; [done|]. by split.
    - unfold lookup_run in *. rewrite foldl_app. by apply (lookup_step_ok _ j). }
  destruct (lookup_run (installed drawn io, []) evs) as [l took]. cbn [fst snd] in *.
  exists j. split_and!; [done| |done]. intros v [->|(f & Hf & ->)]; [done|by apply H3].
Qed.
End Lookup.

(** ** Redirects stay on the publisher's hosts *)

Definition archive_target (u : target) : Prop :=
  tg_Scheme u = "https" ∧ tg_Port u = "" ∧ tg_User u = false ∧ tg_Hostname u ∈ countryArchiveHosts.

Lemma countryArchiveRedirect_spec u via :
  countryArchiveRedirect u via = true ↔ (via <= countryArchiveMaxRedirects)%nat ∧ archive_target u.
Proof.
  unfold countryArchiveRedirect, archive_target. rewrite negb_true_iff, !orb_false_iff, !negb_false_iff, Nat.ltb_ge, String.eqb_eq.
  assert (is_empty (tg_Port u) = true ↔ tg_Port u = "") as -> by (by destruct (tg_Port u)).
  rewrite existsb_exists, list_elem_of_In. split.
  - intros ((((? & ?) & ?) & ?) & (h & ? & Hh)). apply String.eqb_eq in Hh as <-. done.
  - intros (? & ? & ? & ? & ?). split_and!; try done. exists (tg_Hostname u). split; [done|apply String.eqb_refl].
Qed.

(** The turns the redirects still allowed take are enough. *)
Lemma client_do_ends servers first rest n :
  (S countryArchiveMaxRedirects <= n + length rest)%nat → (length rest <= countryArchiveMaxRedirects)%nat → Forall archive_target rest →
  ∃ rest' ok, client_do n servers (first :: rest) = Some (first :: rest', ok) ∧ (length rest' <= countryArchiveMaxRedirects)%nat ∧
    Forall archive_target rest' ∧
    match servers (first :: rest') with
    | None => ok = true
    | Some u => ok = false ∧ ((length rest' = countryArchiveMaxRedirects)%nat ∨ ¬ archive_target u)
    end.
Proof.
  revert rest. induction n as [|n IH]; intros rest Hn Hl HF; [lia|]. cbn [client_do].
  destruct (servers (first :: rest)) as [u|] eqn:E; [|by exists rest, true; rewrite E].
  destruct (countryArchiveRedirect u (length (first :: rest))) eqn:Ec.
  - apply countryArchiveRedirect_spec in Ec as [Hv Hu]. cbn [length] in Hv. change ((first :: rest) ++ [u]) with (first :: (rest ++ [u])).
    apply IH; [rewrite length_app; cbn [length]; lia..|]. apply Forall_app. by split; [|apply Forall_singleton].
  - exists rest, false. rewrite E. split_and!; [done..|]. apply not_true_iff_false in Ec. rewrite countryArchiveRedirect_spec in Ec. cbn [length] in Ec.
    destruct (decide (length rest = countryArchiveMaxRedirects)%nat); [by left|]. right. intros Hu. apply Ec. split; [lia|done].
Qed.

(** C38: The download of the country archive ends, whatever the servers answer.
    Wherever they redirect to, each answer depending on all the requests before
    it, the client is done after at most four requests; all but the first go
    over https to one of the two hosts, on the default port and with no
    credentials; and it gives up exactly where it is sent elsewhere or a fourth
    time. *)
Theorem archive_download_ends servers first more :
  ∃ rest ok, client_do (S countryArchiveMaxRedirects + more) servers [first] = Some (first :: rest, ok) ∧
    (length rest <= countryArchiveMaxRedirects)%nat ∧ Forall archive_target rest ∧
    match servers (first :: rest) with
    | None => ok = true
    | Some u => ok = false ∧ ((length rest = countryArchiveMaxRedirects)%nat ∨ ¬ archive_target u)
    end.
Proof. apply (client_do_ends servers first []); cbn [length]; [lia|lia|constructor]. Qed.

(** ** A run *)

(** The first archive is kept; the one of the next day is taken but cannot be
    written.  A restart has the first again, and asks with its validators. *)
Definition some_archive (b : list ascii) : option archive := Some sample_archive.
Definition answered (body etag : string) : http_answer := HAnswer 200 "application/gzip" (Ok (bytes body)) etag "".
Example lookup_ex :
  let '(l, took) := lookup_run some_archive (installed 7 true, [])
    [LPass Second true; LAnswer (answered "one" "e1") true true;
     LPass (2 * Second) true; LAnswer (answered "early" "e0") true true;
     LPass (Second + CountryInterval) true; LAnswer (answered "two" "e2") false true; LRestart 7 true true] in
  took = [(bytes "one", ("e1", "")); (bytes "two", ("e2", ""))] ∧ lk_disk l = Some (bytes "one") ∧
  lk_table l = Some sample_table ∧ validators_of (rn_st (lk_runner l)) = ("e1", "") ∧
  country l (Addr4 2070213129) = "de" ∧ lookup_due (2 * CountryInterval) l = false ∧ lookup_due (2 * CountryInterval + Second) l = true.
Proof. vm_compute. done. Qed.
Example redirect_ex :
  let home := mkTarget "https" false "github.com" "" in
  let assets := mkTarget "https" false "release-assets.githubusercontent.com" "" in
  client_do 4 (λ sent, [None; Some home; Some assets; None] !! length sent ≫= id) [home] = Some ([home; home; assets], true) ∧
  client_do 4 (λ _, Some (mkTarget "https" false "example.com" "")) [home] = Some ([home], false) ∧
  client_do 4 (λ _, Some home) [home] = Some ([home; home; home; home], false).
Proof. vm_compute. done. Qed.
