(* ===== verification/GoJSONText.v ===== *)
(** * Writing JSON

    What [encoding/json.Marshal] writes for a string, a struct of strings and
    what reading it back gives: the escapes of [appendString] with the HTML
    ones, and the round trip through the parser of [GoJSON]. *)
From S2P Require Import Prelude GoStrings GoNet GoCrypto GoJSON FeedParse.
From S2P Require Import GoRunes.

Local Open Scope Z_scope.

Definition hex_char (d : Z) : ascii := nth (Z.to_nat d) (bytes "0123456789abcdef") "0"%char.

(** [htmlSafeSet], below 0x80. *)
Definition html_safe (c : ascii) : bool :=
  (0x20 <=? byte_val c) && negb (existsb (Z.eqb (byte_val c)) [34; 38; 60; 62; 92]).
Definition escape_byte (c : ascii) : list ascii :=
  let b := byte_val c in
  if (b =? 92) || (b =? 34) then ["\"%char; c]
  else if b =? 8 then bytes "\b" else if b =? 12 then bytes "\f"
  else if b =? 10 then bytes "\n" else if b =? 13 then bytes "\r" else if b =? 9 then bytes "\t"
  else bytes "\u00" ++ [hex_char (Z.shiftr b 4); hex_char (Z.land b 15)].

(** One rune of the string with its bytes. *)
Definition encode_chunk (k : Z * list ascii) : list ascii :=
  if bad_chunk k then bytes "\ufffd"
  else match snd k with
       | [c] => if html_safe c then [c] else escape_byte c
       | bs => if (fst k =? 0x2028) || (fst k =? 0x2029) then bytes "\u202" ++ [hex_char (Z.land (fst k) 15)] else bs
       end.
Definition encode_body (s : string) : list ascii := flat_map encode_chunk (chunks (length (bytes s)) (bytes s)).
Definition encode_string (s : string) : list ascii := dquote :: encode_body s ++ [dquote].

(** A struct of strings: its fields in order. *)
Fixpoint encode_fields (fs : list (string * string)) : list ascii :=
  match fs with
  | [] => []
  | [(k, v)] => encode_string k ++ ":"%char :: encode_string v
  | (k, v) :: fs => encode_string k ++ ":"%char :: encode_string v ++ ","%char :: encode_fields fs
  end.
Definition encode_object (fs : list (string * string)) : list ascii := "{"%char :: encode_fields fs ++ ["}"%char].

(** ** What is read back

    The text, with every byte that starts no character as U+FFFD. *)
Definition shown_chunk (k : Z * list ascii) : list ascii := if bad_chunk k then append_rune RuneError else snd k.
Definition shown (s : string) : string := of_bytes (flat_map shown_chunk (chunks (length (bytes s)) (bytes s))).

Example encode_ex :
  of_bytes (encode_string (of_bytes (bytes "a<b\" ++ map mkbyte [10; 1; 200; 0xE2; 0x80; 0xA8; 0xC3; 0xA4; 127]%nat))) =
  of_bytes (dquote :: bytes "a\u003cb\\\n\u0001\ufffd\u2028" ++ map mkbyte [0xC3; 0xA4; 127]%nat ++ [dquote]).
Proof. vm_compute. reflexivity. Qed.

(** *** Every byte is its value *)

Lemma octet_val c : 0 <= byte_val c < 256.
Proof. unfold byte_val. destruct c as [[] [] [] [] [] [] [] []]; vm_compute; split; congruence. Qed.
Lemma byte_of_val c : byte_of (byte_val c) = c.
Proof. destruct c as [[] [] [] [] [] [] [] []]; reflexivity. Qed.

(** *** Encoding inverts decoding *)

Lemma lor_shift a b n : 0 <= a → 0 <= n → 0 <= b < 2 ^ n → Z.lor (Z.shiftl a n) b = a * 2 ^ n + b.
Proof.
  intros Ha Hn Hb. rewrite <- Z.add_nocarry_lor; [by rewrite Z.shiftl_mul_pow2|].
  apply Z.bits_inj'. intros i Hi. rewrite Z.land_spec, Z.bits_0. destruct (Z.lt_ge_cases i n).
  - by rewrite Z.shiftl_spec_low by lia.
  - rewrite <- (Z.mod_small b (2 ^ n)) by lia. rewrite Z.mod_pow2_bits_high by lia. apply andb_false_r.
Qed.
Lemma land_ones a n : 0 <= n → Z.land a (Z.ones n) = a mod 2 ^ n.
Proof. intros. by apply Z.land_ones. Qed.

(** The last six bits of a byte, and a byte put together. *)
Lemma low6_val c : cont c = true → low6 c = byte_val c - 128 ∧ 0 <= byte_val c - 128 < 64.
Proof.
  unfold cont, in_range, low6. intros H. breflect. split; [|lia]. change 0x3F with (Z.ones 6). rewrite land_ones by lia. change (2 ^ 6) with 64.
  replace (byte_val c) with (byte_val c - 128 + 2 * 64) at 1 by lia. rewrite Z_mod_plus_full, Z.mod_small by lia. done.
Qed.
Lemma range_cont lo hi c : 0x80 <= lo → hi <= 0xBF → in_range lo hi c = true → cont c = true ∧ lo <= byte_val c <= hi.
Proof. unfold cont, in_range. intros ?? H. breflect. split; [apply andb_true_iff; split; apply Z.leb_le; lia|lia]. Qed.
Lemma lead_val c k n : 0 <= n → byte_val c = k * 2 ^ n + byte_val c mod 2 ^ n → Z.land (byte_val c) (Z.ones n) = byte_val c - k * 2 ^ n.
Proof. intros Hn H. rewrite land_ones by done. lia. Qed.
Lemma tail_byte x n k : 0 <= n → (x / 2 ^ n) mod 64 = k → byte_of (Z.lor 0x80 (Z.land (Z.shiftr x n) 0x3F)) = byte_of (128 + k).
Proof.
  intros Hn Hk. change 0x3F with (Z.ones 6). rewrite land_ones by lia. change (2 ^ 6) with 64. rewrite Z.shiftr_div_pow2, Hk by lia.
  change 0x80 with (Z.shiftl 2 6). rewrite lor_shift; [done|lia|lia|]. subst k. pose proof (Z.mod_pos_bound (x / 2 ^ n) 64 ltac:(lia)). lia.
Qed.

Lemma append_two k0 k1 : 2 <= k0 < 32 → 0 <= k1 < 64 →
  append_rune (Z.lor (Z.shiftl k0 6) k1) = [byte_of (192 + k0); byte_of (128 + k1)].
Proof.
  intros H0 H1. rewrite lor_shift by lia. change (2 ^ 6) with 64. set (x := k0 * 64 + k1). unfold append_rune.
  assert ((x <? 0) || (0x10FFFF <? x) || (0xD800 <=? x) && (x <=? 0xDFFF) = false) as ->.
  { rewrite !orb_false_iff, andb_false_iff, !Z.ltb_ge, !Z.leb_gt. lia. }
  rewrite (proj2 (Z.leb_gt x 0x7F)), (proj2 (Z.leb_le x 0x7FF)) by lia. cbv zeta.
  rewrite (tail_byte x 0 k1) by (lia || (change (2 ^ 0) with 1; rewrite Z.div_1_r; unfold x; rewrite Z.add_comm, Z_mod_plus_full; by apply Z.mod_small)).
  rewrite Z.shiftr_div_pow2 by lia. change (2 ^ 6) with 64. assert (x / 64 = k0) as -> by (unfold x; rewrite Z.add_comm, Z_div_plus_full, Z.div_small; lia).
  change 0xC0 with (Z.shiftl 3 6). rewrite lor_shift by lia. done.
Qed.

Lemma append_three k0 k1 k2 : 0 <= k0 < 16 → 0 <= k1 < 64 → 0 <= k2 < 64 → (k0 = 0 → 32 <= k1) → (k0 = 13 → k1 < 32) →
  append_rune (Z.lor (Z.shiftl k0 12) (Z.lor (Z.shiftl k1 6) k2)) = [byte_of (224 + k0); byte_of (128 + k1); byte_of (128 + k2)].
Proof.
  intros H0 H1 H2 Hlo Hs. rewrite (lor_shift k1) by lia. change (2 ^ 6) with 64. rewrite lor_shift by (change (2 ^ 12) with 4096; lia).
  change (2 ^ 12) with 4096. set (x := k0 * 4096 + (k1 * 64 + k2)). unfold append_rune.
  assert ((x <? 0) || (0x10FFFF <? x) || (0xD800 <=? x) && (x <=? 0xDFFF) = false) as ->.
  { rewrite !orb_false_iff, andb_false_iff, !Z.ltb_ge, !Z.leb_gt. lia. }
  rewrite (proj2 (Z.leb_gt x 0x7F)), (proj2 (Z.leb_gt x 0x7FF)), (proj2 (Z.leb_le x 0xFFFF)) by lia. cbv zeta.
  assert (x / 64 = k0 * 64 + k1) as E6 by (unfold x; symmetry; apply Z.div_unique with k2; lia).
  rewrite (tail_byte x 6 k1), (tail_byte x 0 k2).
  - rewrite Z.shiftr_div_pow2 by lia. change (2 ^ 12) with 4096.
    assert (x / 4096 = k0) as -> by (unfold x; symmetry; apply Z.div_unique with (k1 * 64 + k2); lia).
    change 0xE0 with (Z.shiftl 14 4). rewrite lor_shift by (change (2 ^ 4) with 16; lia). done.
  - lia.
  - change (2 ^ 0) with 1. rewrite Z.div_1_r. unfold x. symmetry. apply Z.mod_unique with (k0 * 64 + k1); lia.
  - lia.
  - change (2 ^ 6) with 64. rewrite E6. symmetry. apply Z.mod_unique with k0; lia.
Qed.

Lemma append_four k0 k1 k2 k3 : 0 <= k0 <= 4 → 0 <= k1 < 64 → 0 <= k2 < 64 → 0 <= k3 < 64 → (k0 = 0 → 16 <= k1) → (k0 = 4 → k1 < 16) →
  append_rune (Z.lor (Z.shiftl k0 18) (Z.lor (Z.shiftl k1 12) (Z.lor (Z.shiftl k2 6) k3))) =
    [byte_of (240 + k0); byte_of (128 + k1); byte_of (128 + k2); byte_of (128 + k3)].
Proof.
  intros H0 H1 H2 H3 Hlo Hhi. rewrite (lor_shift k2) by lia. change (2 ^ 6) with 64. rewrite (lor_shift k1) by (change (2 ^ 12) with 4096; lia).
  change (2 ^ 12) with 4096. rewrite lor_shift by (change (2 ^ 18) with 262144; lia). change (2 ^ 18) with 262144.
  set (x := k0 * 262144 + (k1 * 4096 + (k2 * 64 + k3))). unfold append_rune.
  assert ((x <? 0) || (0x10FFFF <? x) || (0xD800 <=? x) && (x <=? 0xDFFF) = false) as ->.
  { rewrite !orb_false_iff, andb_false_iff, !Z.ltb_ge, !Z.leb_gt. lia. }
  rewrite (proj2 (Z.leb_gt x 0x7F)), (proj2 (Z.leb_gt x 0x7FF)), (proj2 (Z.leb_gt x 0xFFFF)) by lia. cbv zeta.
  rewrite (tail_byte x 12 k1), (tail_byte x 6 k2), (tail_byte x 0 k3).
  - rewrite Z.shiftr_div_pow2 by lia. change (2 ^ 18) with 262144.
    assert (x / 262144 = k0) as -> by (unfold x; symmetry; apply Z.div_unique with (k1 * 4096 + (k2 * 64 + k3)); lia).
    change 0xF0 with (Z.shiftl 30 3). rewrite lor_shift by (change (2 ^ 3) with 8; lia). done.
  - lia.
  - change (2 ^ 0) with 1. rewrite Z.div_1_r. unfold x. symmetry. apply Z.mod_unique with (k0 * 4096 + k1 * 64 + k2); lia.
  - lia.
  - change (2 ^ 6) with 64. replace (x / 64) with (k0 * 4096 + k1 * 64 + k2) by (unfold x; apply Z.div_unique with k3; lia).
    symmetry. apply Z.mod_unique with (k0 * 64 + k1); lia.
  - lia.
  - change (2 ^ 12) with 4096. replace (x / 4096) with (k0 * 64 + k1) by (unfold x; apply Z.div_unique with (k2 * 64 + k3); lia).
    symmetry. apply Z.mod_unique with k0; lia.
Qed.

Lemma byte_of_sub n c : byte_of (n + (byte_val c - n)) = c.
Proof. replace (n + (byte_val c - n)) with (byte_val c) by lia. apply byte_of_val. Qed.

(** A whole character is encoded as the bytes it was decoded from. *)
Lemma append_decode c l x r rest :
  decode_rune c l = (x, rest) → l = r ++ rest → bad_chunk (x, c :: r) = false → append_rune x = c :: r.
Proof.
  intros Hd Hl Hb. assert (∀ l', (RuneError, l) = (x, l') → l' = rest → False) as Hbad.
  { intros l' [= <- <-] <-. assert (r = []) as -> by (destruct r; [done|apply (f_equal length) in Hl; rewrite length_app in Hl; cbn in Hl; lia]).
    unfold bad_chunk in Hb. cbn in Hb. done. }
  unfold decode_rune in Hd. cbv zeta in Hd. pose proof (octet_val c) as Hc.
  destruct (Z.ltb_spec (byte_val c) 0x80) as [Hlt|Hge].
  { injection Hd as <- <-. assert (r = []) as -> by (destruct r; [done|apply (f_equal length) in Hl; rewrite length_app in Hl; cbn in Hl; lia]).
    unfold append_rune. assert ((byte_val c <? 0) || (0x10FFFF <? byte_val c) || (0xD800 <=? byte_val c) && (byte_val c <=? 0xDFFF) = false) as ->.
    { rewrite !orb_false_iff, andb_false_iff, !Z.ltb_ge, !Z.leb_gt. lia. }
    rewrite (proj2 (Z.leb_le _ 0x7F)) by lia. by rewrite byte_of_val. }
  assert (∀ a, l = a ++ rest → r = a) as Hr by (intros a Ha; rewrite Ha in Hl; by apply app_inv_tail in Hl).
  destruct (in_range 0xC2 0xDF c) eqn:E2; [|destruct (in_range 0xE0 0xEF c) eqn:E3; [|destruct (in_range 0xF0 0xF4 c) eqn:E4]].
  - destruct l as [|c1 l']; [by destruct (Hbad _ Hd eq_refl)|]. destruct (cont c1) eqn:K1; [|by destruct (Hbad _ Hd eq_refl)].
    injection Hd as <- <-. rewrite (Hr [c1]) by done. apply low6_val in K1 as [-> K1]. unfold in_range in E2. breflect.
    change 0x1F with (Z.ones 5). rewrite (lead_val c 6 5) by (lia || (change (2 ^ 5) with 32; pose proof (Z.div_mod (byte_val c) 32 ltac:(lia)); assert (byte_val c / 32 = 6) by (symmetry; apply Z.div_unique with (byte_val c - 192); lia); lia)).
    rewrite append_two by lia. change (6 * 2 ^ 5) with 192. by rewrite !byte_of_sub.
  - destruct l as [|c1 [|c2 l']]; try by destruct (Hbad _ Hd eq_refl). destruct (_ && _) eqn:K; [|by destruct (Hbad _ Hd eq_refl)].
    injection Hd as <- <-. rewrite (Hr [c1; c2]) by done. apply andb_true_iff in K as [K1 K2].
    apply range_cont in K1 as [K1 R1]; [|destruct (byte_val c =? 0xE0); lia|destruct (byte_val c =? 0xED); lia]. apply low6_val in K1 as [-> K1], K2 as [-> K2]. unfold in_range in E3. breflect.
    change 0x0F with (Z.ones 4). rewrite (lead_val c 14 4) by (lia || (change (2 ^ 4) with 16; pose proof (Z.div_mod (byte_val c) 16 ltac:(lia)); assert (byte_val c / 16 = 14) by (symmetry; apply Z.div_unique with (byte_val c - 224); lia); lia)).
    change (14 * 2 ^ 4) with 224. rewrite append_three; [by rewrite !byte_of_sub|lia..| |].
    + intros E. rewrite (proj2 (Z.eqb_eq (byte_val c) 0xE0)) in R1 by lia. lia.
    + intros E. rewrite (proj2 (Z.eqb_eq (byte_val c) 0xED)) in R1 by lia. lia.
  - destruct l as [|c1 [|c2 [|c3 l']]]; try by destruct (Hbad _ Hd eq_refl). destruct (_ && _) eqn:K; [|by destruct (Hbad _ Hd eq_refl)].
    injection Hd as <- <-. rewrite (Hr [c1; c2; c3]) by done. apply andb_true_iff in K as [[K1 K2]%andb_true_iff K3].
    apply range_cont in K1 as [K1 R1]; [|destruct (byte_val c =? 0xF0); lia|destruct (byte_val c =? 0xF4); lia]. apply low6_val in K1 as [-> K1], K2 as [-> K2], K3 as [-> K3]. unfold in_range in E4. breflect.
    change 0x07 with (Z.ones 3). rewrite (lead_val c 30 3) by (lia || (change (2 ^ 3) with 8; pose proof (Z.div_mod (byte_val c) 8 ltac:(lia)); assert (byte_val c / 8 = 30) by (symmetry; apply Z.div_unique with (byte_val c - 240); lia); lia)).
    change (30 * 2 ^ 3) with 240. rewrite append_four; [by rewrite !byte_of_sub|lia..| |].
    + intros E. rewrite (proj2 (Z.eqb_eq (byte_val c) 0xF0)) in R1 by lia. lia.
    + intros E. rewrite (proj2 (Z.eqb_eq (byte_val c) 0xF4)) in R1 by lia. lia.
  - by destruct (Hbad _ Hd eq_refl).
Qed.

(** ** A string is read back *)

Definition c_u : ascii := "u"%char.

Lemma string_body_plain c l : html_safe c = true ∨ 0x80 <= byte_val c →
  string_body (c :: l) = ('(b, r) ← string_body l; Some (c :: b, r)).
Proof.
  intros H. cbn [string_body]. assert (Ascii.eqb c dquote = false ∧ Ascii.eqb c "\" = false ∧ (byte_val c <? 0x20) = false) as (-> & -> & ->); [|done].
  destruct H as [H|H].
  - destruct c as [[] [] [] [] [] [] [] []]; vm_compute in H; try discriminate H; by vm_compute.
  - split_and!; [..|apply Z.ltb_ge; lia]; apply Ascii.eqb_neq; intros ->; vm_compute in H; by apply H.
Qed.

Lemma string_body_bytes r l : Forall (λ c, 0x80 <= byte_val c) r →
  string_body (r ++ l) = ('(b, x) ← string_body l; Some (r ++ b, x)).
Proof.
  induction 1 as [|c r Hc Hr IH]; cbn [app]; [by destruct (string_body l) as [[]|]|].
  rewrite string_body_plain by (by right). rewrite IH. by destruct (string_body l) as [[]|].
Qed.

(** An escape of two bytes, and one of four hexadecimal digits. *)
Lemma string_body_escape e l : existsb (Ascii.eqb e) (dquote :: bytes "bfnrt\/") = true → Ascii.eqb e c_u = false →
  string_body ("\"%char :: e :: l) = ('(b, x) ← string_body l; Some ("\"%char :: e :: b, x)).
Proof. intros He Hu. cbn [string_body]. unfold c_u in Hu. rewrite Hu, He. done. Qed.
Lemma string_body_u h1 h2 h3 h4 l : hex h1 && hex h2 && hex h3 && hex h4 = true →
  string_body ("\"%char :: c_u :: h1 :: h2 :: h3 :: h4 :: l) =
  ('(b, x) ← string_body l; Some ("\"%char :: c_u :: h1 :: h2 :: h3 :: h4 :: b, x)).
Proof. intros Hh. unfold c_u. cbn [string_body]. rewrite Hh. done. Qed.

Lemma unquote_plain f c l : Ascii.eqb c "\" = false → byte_val c < 0x80 → unquote (S f) (c :: l) = c :: unquote f l.
Proof. intros Hc Hb. cbn [unquote]. by rewrite Hc, (proj2 (Z.ltb_lt _ _)). Qed.
Lemma unquote_escape f e l : Ascii.eqb e c_u = false → unquote (S f) ("\"%char :: e :: l) = escaped e :: unquote f l.
Proof.
  intros He. cbn [unquote]. assert (getu4 ("\"%char :: e :: l) = None) as ->; [|done].
  unfold getu4. do 4 (destruct l as [|? l]; [done|]). unfold c_u in He. by rewrite He.
Qed.
Lemma unquote_u f h1 h2 h3 h4 l : hex h1 && hex h2 && hex h3 && hex h4 = true → is_surrogate (hex4 h1 h2 h3 h4) = false →
  unquote (S f) ("\"%char :: c_u :: h1 :: h2 :: h3 :: h4 :: l) = append_rune (hex4 h1 h2 h3 h4) ++ unquote f l.
Proof.
  intros Hh Hs. cbn [unquote]. assert (getu4 ("\"%char :: c_u :: h1 :: h2 :: h3 :: h4 :: l) = Some (hex4 h1 h2 h3 h4, l)) as ->.
  { apply andb_true_iff in Hh as [[[H1 H2]%andb_true_iff H3]%andb_true_iff H4]. unfold getu4, c_u. by rewrite H1, H2, H3, H4. }
  by rewrite Hs.
Qed.
Lemma unquote_rune f c r x l : Ascii.eqb c "\" = false → 0x80 <= byte_val c → decode_rune c (r ++ l) = (x, l) →
  unquote (S f) (c :: r ++ l) = append_rune x ++ unquote f l.
Proof. intros Hc Hb Hd. cbn [unquote]. by rewrite Hc, (proj2 (Z.ltb_ge _ _)), Hd by lia. Qed.

(** One rune, read by the scanner and by [unquote]. *)
Definition reads_back (k : Z * list ascii) : Prop :=
  (∀ l, string_body (encode_chunk k ++ l) = ('(b, x) ← string_body l; Some (encode_chunk k ++ b, x))) ∧
  (0 < length (encode_chunk k))%nat ∧
  ∀ f l, unquote (S f) (encode_chunk k ++ l) = shown_chunk k ++ unquote f l.

Lemma escape_reads_back c : byte_val c < 0x80 → html_safe c = false →
  (∀ l, string_body (escape_byte c ++ l) = ('(b, x) ← string_body l; Some (escape_byte c ++ b, x))) ∧
  (0 < length (escape_byte c))%nat ∧ ∀ f l, unquote (S f) (escape_byte c ++ l) = [c] ++ unquote f l.
Proof.
  intros Hc Hs.
  assert ((∃ e, escape_byte c = ["\"%char; e] ∧ existsb (Ascii.eqb e) (dquote :: bytes "bfnrt\/") = true ∧ Ascii.eqb e c_u = false ∧ escaped e = c) ∨
    (∃ h1 h2 h3 h4, escape_byte c = ["\"%char; c_u; h1; h2; h3; h4] ∧ hex h1 && hex h2 && hex h3 && hex h4 = true ∧
       is_surrogate (hex4 h1 h2 h3 h4) = false ∧ append_rune (hex4 h1 h2 h3 h4) = [c])) as [(e & -> & H1 & H2 & H3)|(h1 & h2 & h3 & h4 & -> & H1 & H2 & H3)].
  { destruct c as [[] [] [] [] [] [] [] []]; vm_compute in Hs; try discriminate Hs; vm_compute in Hc; try discriminate Hc;
      (left; eexists; split; [vm_compute; reflexivity|vm_compute; by auto]) || (right; do 4 eexists; split; [vm_compute; reflexivity|vm_compute; by auto]). }
  - split_and!; [intros l; apply string_body_escape; done|cbn; lia|]. intros f l. cbn [app]. rewrite unquote_escape by done. by rewrite H3.
  - split_and!; [intros l; apply string_body_u; done|cbn; lia|]. intros f l. cbn [app]. rewrite unquote_u by done. by rewrite H3.
Qed.

Lemma u_reads_back h1 h2 h3 h4 v :
  hex h1 && hex h2 && hex h3 && hex h4 = true → is_surrogate (hex4 h1 h2 h3 h4) = false → append_rune (hex4 h1 h2 h3 h4) = v →
  let e := ["\"%char; c_u; h1; h2; h3; h4] in
  (∀ l, string_body (e ++ l) = ('(b, x) ← string_body l; Some (e ++ b, x))) ∧ (0 < length e)%nat ∧
  ∀ f l, unquote (S f) (e ++ l) = v ++ unquote f l.
Proof.
  intros H1 H2 H3. cbv zeta. split_and!; [intros l; by apply string_body_u|cbn; lia|]. intros f l. cbn [app]. rewrite unquote_u by done. by rewrite H3.
Qed.

Lemma chunk_reads_back k : chunk_of k → (∀ c r, snd k = c :: r → bad_chunk k = false → append_rune (fst k) = c :: r) → reads_back k.
Proof.
  intros Hk Happ. unfold reads_back, encode_chunk, shown_chunk. destruct (bad_chunk k) eqn:Hb.
  { by apply (u_reads_back "f" "f" "f" "d" (append_rune RuneError)). }
  destruct Hk as [(c & r & Er & _ & Hd & Hr)|(c & _ & Hb')]; [|congruence]. specialize (Happ c r Er eq_refl). rewrite Er.
  assert (0x80 <= byte_val c → Ascii.eqb c "\" = false) as Hnb by (intros Hc; apply Ascii.eqb_neq; intros ->; vm_compute in Hc; by apply Hc).
  destruct r as [|c' r].
  - destruct Hr as [[_ Ec]|[Hc _]%Forall_cons].
    + destruct (html_safe c) eqn:Hs.
      * split_and!; [intros l; cbn [app]; apply string_body_plain; by left|cbn; lia|]. intros f l. cbn [app]. apply unquote_plain.
        -- destruct c as [[] [] [] [] [] [] [] []]; vm_compute in Hs; try discriminate Hs; reflexivity.
        -- destruct (Z.lt_ge_cases (byte_val c) 0x80) as [|Hge]; [done|exfalso]. specialize (Hd []). unfold decode_rune in Hd. cbv zeta in Hd.
           rewrite (proj2 (Z.ltb_ge _ _) Hge) in Hd. cbn [app] in Hd. rewrite Ec in Hd. pose proof (octet_val c).
           repeat (destruct (in_range _ _ _) in Hd); injection Hd as Hd; unfold RuneError in Hd; lia.
      * apply escape_reads_back; [|done]. destruct (Z.lt_ge_cases (byte_val c) 0x80) as [|Hge]; [done|exfalso].
        unfold html_safe in Hs. apply andb_false_iff in Hs as [Hs|Hs]; [apply Z.leb_gt in Hs; lia|].
        apply negb_false_iff, existsb_exists in Hs as (v & Hv & Hs%Z.eqb_eq). subst v. cbn in Hv. lia.
    + exfalso. specialize (Hd []). unfold decode_rune in Hd. cbv zeta in Hd. rewrite (proj2 (Z.ltb_ge _ _) Hc) in Hd. cbn [app] in Hd.
      assert (fst k = RuneError) as E by (repeat (destruct (in_range _ _ _) in Hd); by injection Hd as <-).
      unfold bad_chunk in Hb. rewrite E, Er in Hb. cbn in Hb. done.
  - destruct Hr as [[? _]|Hr]; [done|]. pose proof Hr as [Hc Hr']%Forall_cons.
    destruct ((fst k =? 0x2028) || (fst k =? 0x2029)) eqn:E.
    + apply orb_true_iff in E as [E%Z.eqb_eq|E%Z.eqb_eq]; rewrite E in *.
      * apply (u_reads_back "2" "0" "2" "8" (c :: c' :: r)); [done..|]. rewrite <- Happ. done.
      * apply (u_reads_back "2" "0" "2" "9" (c :: c' :: r)); [done..|]. rewrite <- Happ. done.
    + split_and!; [intros l; by apply string_body_bytes|cbn; lia|]. intros f l. cbn [app].
      change (c :: c' :: r ++ l) with (c :: (c' :: r) ++ l). rewrite (unquote_rune f c (c' :: r) (fst k) l); [by rewrite Happ|by apply Hnb|done|apply Hd].
Qed.

Lemma chunks_read_back f l : (length l <= f)%nat → Forall reads_back (chunks f l).
Proof.
  revert l; induction f as [|f IH]; intros [|c l] Hf; cbn [chunks]; [apply Forall_nil_2|apply Forall_nil_2|apply Forall_nil_2|]. cbn [length] in Hf.
  destruct (decode_rune c l) as [x rest] eqn:E. pose proof (decode_chunk _ _ _ _ E) as (r & -> & Hk).
  rewrite length_app in Hf. replace (take (length (c :: r ++ rest) - length rest) (c :: r ++ rest)) with (c :: r).
  - constructor; [|apply IH; lia]. apply chunk_reads_back; [done|]. intros c' r' [= <- <-] Hb. by eapply append_decode.
  - cbn [length]. rewrite length_app. replace (S (length r + length rest) - length rest)%nat with (S (length r)) by lia. cbn [take]. by rewrite take_app_length.
Qed.

Lemma body_scanned ks rest : Forall reads_back ks →
  string_body (flat_map encode_chunk ks ++ dquote :: rest) = Some (flat_map encode_chunk ks, rest).
Proof.
  induction 1 as [|k ks (Hk & _) Hks IH]; cbn [flat_map]; [done|]. rewrite <- app_assoc, Hk, IH. done.
Qed.
Lemma body_unquoted ks f : Forall reads_back ks → (length (flat_map encode_chunk ks) <= f)%nat →
  unquote f (flat_map encode_chunk ks) = flat_map shown_chunk ks.
Proof.
  intros H. revert f. induction H as [|k ks (_ & Hl & Hk) Hks IH]; intros f Hf; cbn [flat_map] in *; [by destruct f|].
  rewrite length_app in Hf. destruct f as [|f]; [lia|]. rewrite Hk. f_equal. apply IH. lia.
Qed.

(** A string that was written is read as its text. *)
Lemma string_lit_encode s rest : string_lit (encode_body s ++ dquote :: rest) = Some (shown s, rest).
Proof.
  pose proof (chunks_read_back (length (bytes s)) (bytes s) ltac:(done)) as H. unfold string_lit, encode_body, shown.
  rewrite body_scanned by done. cbn [mbind option_bind]. by rewrite body_unquoted.
Qed.

(** ** An object is read back *)

Definition field_read (f : string * string) : string * json := (shown (fst f), JString (shown (snd f))).

Lemma encode_string_app s l : encode_string s ++ l = dquote :: encode_body s ++ dquote :: l.
Proof. unfold encode_string. cbn [app]. by rewrite <- app_assoc. Qed.

Lemma value_string f d s rest : value (S f) d (encode_string s ++ rest) = Some (JString (shown s), rest).
Proof. rewrite encode_string_app. cbn [value]. cbn [skip_ws is_ws]. change (is_ws dquote) with false. cbv iota. cbn [eat]. unfold scalar. cbn [eat]. change (Ascii.eqb dquote dquote) with true. cbv iota. by rewrite string_lit_encode. Qed.

Lemma members_read fs f d rest : fs ≠ [] → (S (length fs) <= f)%nat →
  members f d (encode_fields fs ++ "}"%char :: rest) = Some (map field_read fs, rest).
Proof.
  revert f. induction fs as [|[k v] fs IH]; intros f Hne Hf; [done|]. destruct f as [|f]; [cbn in Hf; lia|]. cbn [length] in Hf.
  assert (∀ X, members (S f) d (encode_string k ++ ":"%char :: X) =
    ('(v, r) ← value f d X;
     match eat "," (skip_ws r) with
     | Some r => '(ms, r) ← members f d r; Some ((shown k, v) :: ms, r)
     | None => r ← eat "}" (skip_ws r); Some ([(shown k, v)], r)
     end)) as HM.
  { intros X. rewrite encode_string_app. cbn [members skip_ws]. change (is_ws dquote) with false. cbv iota. cbn [eat].
    change (Ascii.eqb dquote dquote) with true. cbv iota. cbn [mbind option_bind]. rewrite string_lit_encode. done. }
  destruct f as [|f]; [lia|]. destruct fs as [|x fs].
  - cbn [encode_fields map field_read fst snd]. rewrite <- app_assoc. cbn [app]. rewrite HM, value_string. done.
  - change (encode_fields ((k, v) :: x :: fs)) with (encode_string k ++ ":"%char :: encode_string v ++ ","%char :: encode_fields (x :: fs)).
    rewrite <- app_assoc. cbn [app]. rewrite <- app_assoc. cbn [app]. rewrite HM, value_string. cbn [mbind option_bind].
    change (eat "," (skip_ws (","%char :: encode_fields (x :: fs) ++ "}"%char :: rest))) with (Some (encode_fields (x :: fs) ++ "}"%char :: rest)).
    cbv iota. rewrite IH by (done || (cbn [length] in *; lia)). done.
Qed.

Lemma encode_fields_length fs : (length fs <= length (encode_fields fs))%nat.
Proof.
  induction fs as [|[k v] fs IH]; [done|]. destruct fs as [|x fs].
  - cbn [encode_fields length]. rewrite length_app. cbn. lia.
  - change (encode_fields ((k, v) :: x :: fs)) with (encode_string k ++ ":"%char :: encode_string v ++ ","%char :: encode_fields (x :: fs)).
    rewrite length_app. cbn [length] in *. rewrite length_app. cbn [length]. lia.
Qed.

(** What [json.Marshal] wrote of a struct of strings, [json.Unmarshal] reads. *)
Lemma object_read fs : fs ≠ [] → parse_json (encode_object fs) = Some (JObject (map field_read fs)).
Proof.
  intros Hne. unfold parse_json, encode_object. set (l := "{"%char :: _).
  assert (∃ f, parse_fuel l = S f ∧ (S (length fs) <= f)%nat) as (f & -> & Hf).
  { eexists. split; [reflexivity|]. unfold l. cbn [length]. rewrite length_app. pose proof (encode_fields_length fs). cbn. lia. }
  unfold l. cbn [value skip_ws]. change (is_ws "{") with false. cbv iota.
  change (eat "{" ("{"%char :: encode_fields fs ++ ["}"%char])) with (Some (encode_fields fs ++ ["}"%char])). cbv iota.
  change (maxNestingDepth <? 0 + 1) with false. cbv iota.
  assert (eat "}" (skip_ws (encode_fields fs ++ ["}"%char])) = None) as ->.
  { destruct fs as [|[k v] fs]; [done|]. destruct fs as [|y fs]; cbn [encode_fields]; rewrite <- app_assoc, encode_string_app; done. }
  rewrite members_read by done. done.
Qed.

(** No newline in what is written. *)
Lemma encode_chunk_line k : chunk_of k → mkbyte 10 ∉ encode_chunk k.
Proof.
  intros Hk. unfold encode_chunk. destruct (bad_chunk k) eqn:Hb; [by apply (bool_decide_unpack _); vm_compute|].
  destruct Hk as [(c & r & Er & _ & _ & Hr)|(c & _ & Hb')]; [|congruence]. rewrite Er.
  assert (∀ a, 0x80 <= byte_val a → mkbyte 10 ≠ a) as Hhigh by (intros a Ha <-; vm_compute in Ha; by apply Ha).
  destruct r as [|c' r].
  - destruct Hr as [_|[Hc _]%Forall_cons].
    + destruct c as [[] [] [] [] [] [] [] []]; apply (bool_decide_unpack _); vm_compute; exact I.
    + destruct c as [[] [] [] [] [] [] [] []]; apply (bool_decide_unpack _); vm_compute; exact I.
  - destruct Hr as [[? _]|Hr]; [done|]. assert (mkbyte 10 ∉ c :: c' :: r) as Hn.
    { rewrite Forall_forall in Hr. intros Hin. by destruct (Hhigh _ (Hr _ Hin)). }
    destruct (_ || _); [|done]. intros [Hin|Hin]%elem_of_app; [revert Hin; by apply (bool_decide_unpack _); vm_compute|].
    apply list_elem_of_singleton in Hin. unfold hex_char in Hin.
    assert (nth (Z.to_nat (Z.land (fst k) 15)) (bytes "0123456789abcdef") "0"%char ∈ "0"%char :: bytes "0123456789abcdef") as Hmem.
    { destruct (nth_in_or_default (Z.to_nat (Z.land (fst k) 15)) (bytes "0123456789abcdef") "0"%char) as [H|H]; [right; by apply list_elem_of_In|rewrite H; by left]. }
    rewrite <- Hin in Hmem. revert Hmem. by apply (bool_decide_unpack _); vm_compute.
Qed.

Lemma encode_string_line s : mkbyte 10 ∉ encode_string s.
Proof.
  unfold encode_string, encode_body. destruct (chunks_spec (length (bytes s)) (bytes s) ltac:(done)) as [HC _].
  intros [Heq|[Hin|Hin%list_elem_of_singleton]%elem_of_app]%elem_of_cons; [vm_compute in Heq; discriminate Heq| |vm_compute in Hin; discriminate Hin].
  apply list_elem_of_In, in_flat_map in Hin as (k & Hk & Hin). rewrite Forall_forall in HC.
  apply (encode_chunk_line k); [apply HC|]; by apply list_elem_of_In.
Qed.
Lemma encode_object_line fs : mkbyte 10 ∉ encode_object fs.
Proof.
  assert (mkbyte 10 ∉ encode_fields fs) as H.
  { induction fs as [|[k v] fs IH]; [by intros ?%not_elem_of_nil|]. pose proof (encode_string_line k). pose proof (encode_string_line v).
    assert (mkbyte 10 ≠ ":"%char ∧ mkbyte 10 ≠ ","%char) as [? ?] by done. destruct fs as [|x fs]; cbn [encode_fields].
    - rewrite elem_of_app, elem_of_cons. tauto.
    - fold (encode_fields (x :: fs)). rewrite elem_of_app, elem_of_cons, elem_of_app, elem_of_cons. tauto. }
  unfold encode_object. rewrite elem_of_cons, elem_of_app, list_elem_of_singleton. intros [Hn|[Hn|Hn]]; [vm_compute in Hn; discriminate Hn|done|vm_compute in Hn; discriminate Hn].
Qed.

(** Text whose characters are whole is read as it was written. *)
Lemma shown_whole s : Forall (λ k, bad_chunk k = false) (chunks (length (bytes s)) (bytes s)) → shown s = s.
Proof.
  intros H. unfold shown. destruct (chunks_spec (length (bytes s)) (bytes s) ltac:(done)) as [_ E].
  transitivity (of_bytes (flat_map snd (chunks (length (bytes s)) (bytes s)))); [f_equal|by rewrite E, of_bytes_bytes].
  clear E. induction H as [|k ks Hk Hks IH]; [done|]. cbn [flat_map]. rewrite IH. unfold shown_chunk. by rewrite Hk.
Qed.
