(* ===== verification/AuditTrail.v ===== *)
(** * What the log page shows

    [readAuditLog] and [tailFile] of [src/internal/core/daemon.go], over a file
    written by [WriteAuditLog] ([AuditLog]) with the entries as
    [encoding/json] writes them: the page shows what was recorded, newest
    first, and nothing else, whatever text an entry was given. *)
From S2P Require Import Prelude GoStrings GoNet Models AuditLog GoJSON FeedParse GoJSONText.

Local Open Scope Z_scope.

(** An entry with its time. *)
Record log_line := mkLine { l_time : string; l_entry : AuditLogEntry }.

Definition encode_entry (x : log_line) : list ascii :=
  let e := l_entry x in
  encode_object [("time", l_time x); ("action", Action e); ("rule_type", RuleType e); ("detail", Detail e); ("user", User e)].

(** [json.Unmarshal] into an entry. *)
Definition set_entry (x : log_line) (f : string * json) : option log_line :=
  let e := l_entry x in
  if is_field "time" (fst f) then t ← set_string (l_time x) (snd f); Some (mkLine t e)
  else if is_field "action" (fst f) then t ← set_string (Action e) (snd f); Some (mkLine (l_time x) (mkAudit t (RuleType e) (Detail e) (User e)))
  else if is_field "rule_type" (fst f) then t ← set_string (RuleType e) (snd f); Some (mkLine (l_time x) (mkAudit (Action e) t (Detail e) (User e)))
  else if is_field "detail" (fst f) then t ← set_string (Detail e) (snd f); Some (mkLine (l_time x) (mkAudit (Action e) (RuleType e) t (User e)))
  else if is_field "user" (fst f) then t ← set_string (User e) (snd f); Some (mkLine (l_time x) (mkAudit (Action e) (RuleType e) (Detail e) t))
  else Some x.
Definition decode_entry (line : string) : option log_line :=
  v ← parse_json (bytes line); decode_struct set_entry (mkLine "" (mkAudit "" "" "" "")) v.

(** [tailFile]: the end of the file, and whether anything was skipped. *)
Definition tailFile (max : nat) (file : list ascii) : list ascii * bool :=
  if (length file <=? max)%nat then (file, false) else (drop (length file - max) file, true).

(** [strings.TrimRight(data, "\n")] *)
Fixpoint strip_newlines (l : list ascii) : list ascii :=
  match l with
  | c :: r => if Ascii.eqb c newline then strip_newlines r else l
  | [] => []
  end.
Definition TrimNewlines (l : list ascii) : list ascii := reverse (strip_newlines (reverse l)).

Fixpoint read_entries (n : nat) (lines : list string) : list log_line :=
  match lines, n with
  | line :: lines, S n' =>
      let line := TrimSpace line in
      if is_empty line then read_entries n lines
      else match decode_entry line with
           | None => read_entries n lines
           | Some e => e :: read_entries n' lines
           end
  | _, _ => []
  end.

(** [readAuditLog]; [tailBytes] is [auditTailBytes]. *)
Definition readAuditLog (tailBytes n : nat) (file : list ascii) : list log_line :=
  let '(data, truncated) := tailFile tailBytes file in
  let lines := SplitByte newline (of_bytes (TrimNewlines data)) in
  read_entries n (reverse (if truncated then tail lines else lines)).

(** [rotateAuditLogIfLarge]'s marker. *)
Definition rotated (maxBytes : nat) (now : string) (dropped : nat) : log_line :=
  mkLine now (mkAudit "audit_rotated" ""
    ("dropped " +:+ Itoa (Z.of_nat dropped) +:+ " bytes of older history to stay under " +:+ Itoa (Z.of_nat maxBytes)) "core").

(** One call of [WriteAuditLog]: when, what, and what fails. *)
Record write := mkWrite { w_entry : log_line; w_rotate : bool; w_io : bool }.
Definition log_step (maxBytes : nat) (file : list ascii) (w : write) : list ascii :=
  WriteAuditLog maxBytes (λ n, encode_entry (rotated maxBytes (l_time (w_entry w)) n)) (w_rotate w) (w_io w) (encode_entry (w_entry w)) file.
Definition log_run (maxBytes : nat) (ws : list write) : list ascii := foldl (log_step maxBytes) [] ws.
Definition written (ws : list write) : list log_line := omap (λ w, if w_io w then Some (w_entry w) else None) ws.

Definition shown_entry (x : log_line) : log_line :=
  let e := l_entry x in mkLine (shown (l_time x)) (mkAudit (shown (Action e)) (shown (RuleType e)) (shown (Detail e)) (shown (User e))).

Definition an_entry (detail : string) : log_line := mkLine "2026-10-14T10:00:00Z" (mkAudit "rules_saved" "tcp" detail "web").
Definition a_write (detail : string) : write := mkWrite (an_entry detail) true true.

(** A detail that tries to be an entry of its own is one detail. *)
Example readAuditLog_ex :
  let forged := of_bytes (bytes "x" ++ [dquote; "}"%char; newline] ++ encode_entry (an_entry "forged") ++ [newline]) in
  readAuditLog 2000 2 (log_run 1000 (map a_write ["first"; forged; "last"])) = [an_entry "last"; an_entry forged] ∧
  readAuditLog 2000 5 (log_run 250 (map a_write ["first"; "second"; "third"; "fourth"])) =
    [an_entry "fourth"; rotated 250 "2026-10-14T10:00:00Z" 207; an_entry "third"] ∧
  readAuditLog 205 5 (log_run 1000 (map a_write ["first"; "other"])) = [an_entry "other"].
Proof. vm_compute. done. Qed.

(** ** One line *)

Definition line_ok (l : list ascii) : Prop := no_newline l ∧ ∃ c r c' r', l = c :: r ∧ word_byte c = true ∧ reverse l = c' :: r' ∧ word_byte c' = true.

Lemma encode_entry_ok x : line_ok (encode_entry x).
Proof.
  split; [apply encode_object_line|]. unfold encode_entry, encode_object. set (fs := encode_fields _).
  exists "{"%char, (fs ++ ["}"%char]), "}"%char, (reverse fs ++ ["{"%char]). split_and!; [done|done| |done].
  rewrite reverse_cons, reverse_app. done.
Qed.

Lemma TrimSpace_line l : line_ok l → TrimSpace (of_bytes l) = of_bytes l.
Proof.
  intros (_ & c & r & c' & r' & -> & Hc & Hr & Hc'). unfold TrimSpace. rewrite bytes_of_bytes. f_equal. apply trimmed_trim. split.
  - by apply strip_one_word.
  - rewrite Hr. by apply strip_one_word.
Qed.

(** What was written is read, field by field. *)
Lemma decode_encode_entry x : decode_entry (of_bytes (encode_entry x)) = Some (shown_entry x).
Proof.
  unfold decode_entry, encode_entry. rewrite bytes_of_bytes, object_read by done. cbn [map field_read fst snd mbind option_bind].
  change (shown "time") with "time"%string. change (shown "action") with "action"%string. change (shown "rule_type") with "rule_type"%string.
  change (shown "detail") with "detail"%string. change (shown "user") with "user"%string. reflexivity.
Qed.

Lemma read_entries_spec n (xs : list log_line) : read_entries n (map (λ x, of_bytes (encode_entry x)) xs) = take n (map shown_entry xs).
Proof.
  revert n. induction xs as [|x xs IH]; intros [|n]; [done..|]. cbn [map read_entries take]. rewrite TrimSpace_line by apply encode_entry_ok.
  assert (is_empty (of_bytes (encode_entry x)) = false) as -> by done. by rewrite decode_encode_entry, IH.
Qed.

(** ** The lines of the file *)

Lemma strip_newlines_app l : strip_newlines (newline :: l) = strip_newlines l.
Proof. done. Qed.
Lemma strip_newlines_line c l : word_byte c = true → strip_newlines (c :: l) = c :: l.
Proof. intros Hc. cbn. destruct (Ascii.eqb_spec c newline) as [->|]; [by vm_compute in Hc|done]. Qed.

(** Lines joined by newlines, without the last. *)
Fixpoint joined (ls : list (list ascii)) : list ascii :=
  match ls with [] => [] | [l] => l | l :: ls => l ++ newline :: joined ls end.

Lemma of_lines_joined l ls : of_lines (l :: ls) = joined (l :: ls) ++ [newline].
Proof.
  revert l; induction ls as [|l' ls IH]; intros l; [apply of_lines_one|]. change (of_lines (l :: l' :: ls)) with ((l ++ [newline]) ++ of_lines (l' :: ls)).
  rewrite IH. change (joined (l :: l' :: ls)) with (l ++ newline :: joined (l' :: ls)). by rewrite <- !app_assoc.
Qed.

Lemma split_joined l ls : Forall no_newline (l :: ls) → SplitByte newline (of_bytes (joined (l :: ls))) = map of_bytes (l :: ls).
Proof.
  assert (∀ a b, no_newline a → SplitByte newline (of_bytes (a ++ newline :: b)) = of_bytes a :: SplitByte newline (of_bytes b)) as Hc.
  { intros a b. unfold no_newline. induction a as [|c a IH]; intros Ha; [done|]. cbn. apply not_elem_of_cons in Ha as [Hn Ha].
    destruct (Ascii.eqb_spec c newline); [congruence|]. specialize (IH Ha). unfold of_bytes in IH. by rewrite IH. }
  assert (∀ a, no_newline a → SplitByte newline (of_bytes a) = [of_bytes a]) as Hl.
  { intros a. unfold no_newline. induction a as [|c a IH]; intros Ha; [done|]. cbn. apply not_elem_of_cons in Ha as [Hn Ha].
    destruct (Ascii.eqb_spec c newline); [congruence|]. specialize (IH Ha). unfold of_bytes in IH. by rewrite IH. }
  revert l; induction ls as [|l' ls IH]; intros l [Hl1 H]%Forall_cons; [by apply Hl|].
  change (joined (l :: l' :: ls)) with (l ++ newline :: joined (l' :: ls)). rewrite Hc by done. by rewrite IH.
Qed.

(** Trimming a file of whole lines, the first of which may be cut short. *)
Lemma trim_joined l ls : Forall line_ok ls → (ls = [] → l = [] ∨ line_ok l) → TrimNewlines (joined (l :: ls) ++ [newline]) = joined (l :: ls).
Proof.
  intros HF Hl. unfold TrimNewlines. rewrite reverse_app. cbn [reverse rev_append app]. change (reverse [newline]) with [newline]. cbn [app].
  rewrite strip_newlines_app.
  assert (joined (l :: ls) = [] ∨ ∃ c r, reverse (joined (l :: ls)) = c :: r ∧ word_byte c = true) as [->|(c & r & E & Hc)]; [|done|].
  { revert l Hl. induction HF as [|l' ls Hl' HF IH]; intros l Hl.
    - destruct (Hl eq_refl) as [->|(_ & _ & _ & c' & r' & _ & _ & Hr & Hc)]; [by left|]. right. by exists c', r'.
    - right. change (joined (l :: l' :: ls)) with (l ++ newline :: joined (l' :: ls)). rewrite reverse_app, reverse_cons.
      destruct (IH l') as [E|(c & r & E & Hc)]; [by right| |].
      + destruct Hl' as (_ & c & r & _ & _ & -> & _). exfalso. destruct ls; [done|]. cbn in E. done.
      + rewrite E. cbn [app]. by exists c, ((r ++ [newline]) ++ reverse l). }
  rewrite E, strip_newlines_line by done. by rewrite <- E, reverse_involutive.
Qed.

(** Cutting into a file of whole lines: what is left of the line that was hit,
    and the lines after it. *)
Lemma drop_lines n ls : (n < length (of_lines ls))%nat →
  ∃ before x kept pre, ls = before ++ x :: kept ∧ pre `suffix_of` x ∧ drop n (of_lines ls) = pre ++ newline :: of_lines kept.
Proof.
  revert n. induction ls as [|l ls IH]; intros n Hn; [cbn in Hn; lia|].
  change (of_lines (l :: ls)) with ((l ++ [newline]) ++ of_lines ls) in *. rewrite <- app_assoc in *. cbn [app] in *.
  destruct (decide (n <= length l)%nat) as [Hle|Hgt].
  - exists [], l, ls, (drop n l). split_and!; [done|by apply suffix_drop|]. by rewrite drop_app_le.
  - destruct (IH (n - length l - 1)%nat) as (before & x & kept & pre & -> & Hp & Hd); [rewrite length_app in Hn; cbn in Hn; lia|].
    exists (l :: before), x, kept, pre. split_and!; [done|done|]. rewrite drop_app_ge by lia.
    replace (n - length l)%nat with (S (n - length l - 1)) by lia. done.
Qed.

(** ** The page *)

Definition lines_of (J : list log_line) : list ascii := of_lines (map encode_entry J).

Lemma encoded_ok J : Forall line_ok (map encode_entry J).
Proof. apply Forall_map, Forall_forall. intros x _. apply encode_entry_ok. Qed.
Lemma ok_lines ls : Forall line_ok ls → Forall no_newline ls.
Proof. intros H. eapply Forall_impl; [exact H|]. by intros l [? _]. Qed.

(** The entries whose lines lie whole behind the first newline of the window. *)
Lemma readAuditLog_spec tailBytes n J :
  (0 < tailBytes)%nat →
  ∃ older seen, J = older ++ seen ∧ readAuditLog tailBytes n (lines_of J) = take n (reverse (map shown_entry seen)) ∧
    (older = [] ∨ ∃ x, last older = Some x ∧ (tailBytes <= length (lines_of (x :: seen)))%nat) ∧
    ((length (lines_of J) <= tailBytes)%nat → older = []).
Proof.
  intros Hpos. unfold readAuditLog, tailFile. destruct (Nat.leb_spec (length (lines_of J)) tailBytes) as [Hle|Hgt].
  { exists [], J. split_and!; [done| |by left|done]. destruct J as [|x J]; [by destruct n|]. unfold lines_of.
    change (map encode_entry (x :: J)) with (encode_entry x :: map encode_entry J). rewrite of_lines_joined, trim_joined, split_joined.
    - rewrite <- map_cons, map_map, <- !fmap_reverse. by rewrite <- read_entries_spec.
    - by apply ok_lines, (encoded_ok (x :: J)).
    - apply encoded_ok.
    - intros _. right. apply encode_entry_ok. }
  destruct (drop_lines (length (lines_of J) - tailBytes) (map encode_entry J)) as (before & l & kept & pre & HJ & Hp & Hd); [unfold lines_of in *; lia|].
  apply map_eq_app in HJ as (older & rest & -> & Hb & HJ). apply map_eq_cons in HJ as (x & seen & -> & Hx & Hk).
  exists (older ++ [x]), seen. rewrite <- app_assoc. split_and!; [done| | |intros; lia].
  - unfold lines_of at 2. rewrite Hd. subst kept.
    change (pre ++ newline :: of_lines (map encode_entry seen)) with (pre ++ [newline] ++ of_lines (map encode_entry seen)).
    rewrite app_assoc. change ((pre ++ [newline]) ++ of_lines (map encode_entry seen)) with (of_lines (pre :: map encode_entry seen)).
    assert (no_newline pre) as Hpre.
    { subst l. destruct Hp as [a Ha]. pose proof (proj1 (encode_entry_ok x)) as Hn. unfold no_newline in *. rewrite Ha in Hn. set_solver. }
    rewrite of_lines_joined. destruct seen as [|y seen].
    + cbn [map]. assert (TrimNewlines (joined [pre] ++ [newline]) = pre) as ->.
      { cbn [joined]. unfold TrimNewlines. rewrite reverse_app. change (reverse [newline]) with [newline]. cbn [app]. rewrite strip_newlines_app.
        assert (strip_newlines (reverse pre) = reverse pre) as ->; [|apply reverse_involutive].
        destruct (reverse pre) as [|c r] eqn:E; [done|]. cbn. destruct (Ascii.eqb_spec c newline) as [->|]; [|done].
        exfalso. apply Hpre. apply elem_of_reverse. rewrite E. by left. }
      change pre with (joined [pre]). rewrite split_joined by (by apply Forall_singleton). cbn. by destruct n.
    + rewrite trim_joined, split_joined.
      * change (tail (map of_bytes (pre :: map encode_entry (y :: seen)))) with (map of_bytes (map encode_entry (y :: seen))).
        rewrite map_map, <- !fmap_reverse. by rewrite <- read_entries_spec.
      * constructor; [done|]. apply ok_lines, encoded_ok.
      * apply encoded_ok.
      * done.
  - right. exists x. split; [by rewrite last_snoc|]. subst l. destruct Hp as [a Ha].
    pose proof (f_equal length Hd) as HL. rewrite length_drop, length_app in HL. cbn [length] in HL. unfold lines_of in *.
    change (of_lines (map encode_entry (x :: seen))) with ((encode_entry x ++ [newline]) ++ of_lines (map encode_entry seen)).
    rewrite !length_app. cbn [length]. subst kept. apply (f_equal length) in Ha. rewrite length_app in Ha. lia.
Qed.

(** ** A history of writes *)

(** The file of a history is the lines of the entries written, but for the
    oldest, which a rotation replaces by its marker. *)
Definition journal (maxBytes : nat) (ws : list write) (J : list (bool * log_line)) : Prop :=
  log_run maxBytes ws = lines_of (map snd J) ∧
  map snd (filter (λ x, x.1 = false) J) `suffix_of` written ws ∧
  Forall (λ x, x.1 = true → ∃ now k, x.2 = rotated maxBytes now k) J ∧
  ((∀ k, (length (log_run maxBytes (take k ws)) < maxBytes)%nat) → map snd J = written ws).

Lemma journal_exists maxBytes ws : ∃ J, journal maxBytes ws J.
Proof.
  induction ws as [|w ws (J & H1 & H2 & H3 & H4)] using rev_ind.
  { exists []. split_and!; [done|done|constructor|done]. }
  assert (∀ K, rotateAuditLogIfLarge maxBytes (λ n, encode_entry (rotated maxBytes (l_time (w_entry w)) n)) (w_rotate w) (log_run maxBytes ws) = lines_of (map snd K) →
    map snd (filter (λ x, x.1 = false) K) `suffix_of` written ws → Forall (λ x, x.1 = true → ∃ now k, x.2 = rotated maxBytes now k) K →
    ((∀ k, (length (log_run maxBytes (take k ws)) < maxBytes)%nat) → map snd K = written ws) → ∃ J, journal maxBytes (ws ++ [w]) J) as Hgo.
  { intros K K1 K2 K3 K4. exists (K ++ if w_io w then [(false, w_entry w)] else []). unfold journal.
    assert (log_run maxBytes (ws ++ [w]) = log_step maxBytes (log_run maxBytes ws) w) as -> by (unfold log_run; by rewrite foldl_app).
    assert (written (ws ++ [w]) = written ws ++ if w_io w then [w_entry w] else []) as -> by (unfold written; rewrite omap_app; cbn; by destruct (w_io w)).
    unfold log_step, WriteAuditLog. rewrite K1, filter_app, !map_app. unfold lines_of. rewrite map_app, of_lines_app. split_and!.
    - destruct (w_io w); cbn [map snd]; [by rewrite of_lines_one|by rewrite app_nil_r].
    - destruct (w_io w); cbn; [by apply suffix_app|by rewrite !app_nil_r].
    - apply Forall_app. split; [done|]. destruct (w_io w); [by apply Forall_singleton|constructor].
    - intros Hk. rewrite K4; [by destruct (w_io w)|]. intros k. destruct (Nat.le_gt_cases k (length ws)).
      + specialize (Hk k). by rewrite take_app_le in Hk.
      + specialize (Hk (length ws)). rewrite take_app_length in Hk. by rewrite take_ge by lia. }
  unfold rotateAuditLogIfLarge in Hgo. destruct ((length (log_run maxBytes ws) <? maxBytes)%nat || negb (w_rotate w)) eqn:E.
  { by apply (Hgo J). }
  destruct (cut_lines (length (log_run maxBytes ws) - maxBytes / 2) (map encode_entry (map snd J)) (ok_lines _ (encoded_ok _))) as (kept & Hk & Hcut).
  fold (lines_of (map snd J)) in Hcut. rewrite <- H1 in Hcut. cbv zeta in Hgo. rewrite Hcut in Hgo.
  set (n := (length (log_run maxBytes ws) - length (of_lines kept))%nat) in *.
  destruct Hk as [pre Hpre]. rewrite map_map in Hpre. apply map_eq_app in Hpre as (J1 & J2 & -> & _ & HJ2).
  apply (Hgo (J2 ++ [(true, rotated maxBytes (l_time (w_entry w)) n)])).
  - rewrite <- HJ2. unfold lines_of. rewrite !map_app, of_lines_app, map_map. cbn [map snd]. by rewrite of_lines_one.
  - rewrite filter_app. cbn. rewrite app_nil_r. etrans; [|exact H2]. rewrite filter_app, map_app. by apply suffix_app_r.
  - apply Forall_app in H3 as [_ H3]. apply Forall_app. split; [done|]. apply Forall_singleton. by eauto.
  - intros Hlt. exfalso. specialize (Hlt (length ws)). rewrite firstn_all in Hlt. apply orb_false_iff in E as [E _]. apply Nat.ltb_ge in E. lia.
Qed.


