(* ===== verification/Health.v ===== *)
(** * Whether the firewall does what it says

    [src/internal/core/health.go] with [RuleCounters] and [Enforcing] of
    [nftables.go]: the state the health endpoint reports, from the counters the
    kernel keeps.  A rule's counter ticks for every packet whose evaluation
    reaches it, so the counters here are those of the traffic since the apply,
    evaluated as in [Nft.v].  The question of the file is whether an alarm means
    what it says: that the rule for replies matches nothing. *)
From S2P Require Import Prelude GoStrings GoNet NetBytes Models RuleID FeedIDs Validate Reach PacketLog FeedRanges Nft Matchers Builders ForwardChain Ruleset InputChain ReachKernel BuildCheck Usage.

Local Open Scope Z_scope.

(** ** health.go *)

Inductive HealthState := HealthOK | HealthDegraded | HealthFail.
Inductive HealthReason :=
| HealthReasonNotEnforcing | HealthReasonPanic | HealthReasonStatefulDead
| HealthReasonBuildFindings | HealthReasonSelftestFailed | HealthReasonHealthy.
(** The empty result is a stamp that was never recorded. *)
Inductive SelftestResult := SelftestNone | SelftestPassed | SelftestFailed | SelftestUnprovable.

#[global] Instance HealthState_eq_dec : EqDecision HealthState.
Proof. solve_decision. Defined.
#[global] Instance HealthReason_eq_dec : EqDecision HealthReason.
Proof. solve_decision. Defined.
#[global] Instance SelftestResult_eq_dec : EqDecision SelftestResult.
Proof. solve_decision. Defined.

Record SelftestStamp := mkStamp {
  ss_Version : string; ss_Kernel : string; ss_Result : SelftestResult; ss_At : Time; ss_Detail : string }.
Record HealthSelftest := mkHealthSelftest {
  hs_Version : string; hs_Kernel : string; hs_Result : SelftestResult; hs_At : Time }.
Record HealthResult := mkHealth { hr_State : HealthState; hr_Reason : HealthReason; hr_Selftest : HealthSelftest }.

Record healthInputs := mkInputs {
  enforcing : bool;
  panicEngaged : bool;
  establishedPkts : Z;
  portPkts : Z;
  stamp : SelftestStamp;
  buildFindings : Z }.

Definition computeHealth (i : healthInputs) : HealthResult :=
  let st := mkHealthSelftest (ss_Version (stamp i)) (ss_Kernel (stamp i)) (ss_Result (stamp i)) (ss_At (stamp i)) in
  if negb (enforcing i) then
    mkHealth HealthFail (if panicEngaged i then HealthReasonPanic else HealthReasonNotEnforcing) st
  else if panicEngaged i then mkHealth HealthFail HealthReasonPanic st
  else if (establishedPkts i =? 0) && (0 <? portPkts i) then mkHealth HealthDegraded HealthReasonStatefulDead st
  else if 0 <? buildFindings i then mkHealth HealthDegraded HealthReasonBuildFindings st
  else if bool_decide (ss_Result (stamp i) = SelftestFailed) then mkHealth HealthDegraded HealthReasonSelftestFailed st
  else mkHealth HealthOK HealthReasonHealthy st.

(** ** nftables.go *)

(** A rule as the kernel hands it back: each of its counters' packets and bytes. *)
Record LiveRule := mkLive { lr_rule : Rule; lr_counts : list (Z * Z) }.

Record RuleCounter := mkCounter { rc_Packets : Z; rc_Bytes : Z; rc_InputPackets : Z }.
Definition noCounter : RuleCounter := mkCounter 0 0 0.

(** The inner loops of [RuleCounters]: one expression, one rule. *)
Definition add_count (input : bool) (c : RuleCounter) (x : Z * Z) : RuleCounter :=
  mkCounter (wrap64 (rc_Packets c + x.1)) (wrap64 (rc_Bytes c + x.2))
    (if input then wrap64 (rc_InputPackets c + x.1) else rc_InputPackets c).
Definition add_rule (out : gmap string RuleCounter) (lr : LiveRule) : gmap string RuleCounter :=
  let r := lr_rule lr in
  if negb (String.eqb (r_chain r) inputChainName) && negb (String.eqb (r_chain r) forwardChainName) then out
  else if is_empty (r_tag r) then out
  else <[r_tag r := foldl (add_count (String.eqb (r_chain r) inputChainName)) (default noCounter (out !! r_tag r)) (lr_counts lr)]> out.
Definition RuleCounters (table : list LiveRule) : gmap string RuleCounter := foldl add_rule ∅ table.

(** [Enforcing], of a table that is there. *)
Definition Enforcing (table : list LiveRule) : bool :=
  existsb (λ lr, String.eqb (r_chain (lr_rule lr)) inputChainName) table.

(** The loop of [Health] over the counters. *)
Definition established_of (counters : gmap string RuleCounter) : Z :=
  match counters !! ReservedIDEstablished with Some c => rc_Packets c | None => 0 end.
Definition add_port (id : string) (c : RuleCounter) (ports : Z) : Z :=
  if IsReservedRuleID id then ports else wrap64 (ports + rc_InputPackets c).
Definition ports_of (counters : gmap string RuleCounter) : Z := map_fold add_port 0 counters.

(** [Health]: the counters first, then whether there are rules.  Each is a read
    of its own; [None] is a table that is gone, or a read that failed. *)
Definition Health (counted in_force : option (list LiveRule)) (engaged : bool) (st : SelftestStamp) (findings : Z) : HealthResult :=
  let counters := match counted with Some t => RuleCounters t | None => ∅ end in
  computeHealth (mkInputs (match in_force with Some t => Enforcing t | None => false end) engaged
    (established_of counters) (ports_of counters) st findings).

(** ** The counters of a table *)

(** A packet that came to a base chain, with its length in bytes. *)
Record arrival := mkArrival { av_chain : string; av_len : Z; av_packet : Packet }.

(** The counters of a rule. *)
Definition counters_in (es : list Expr) : nat := length (filter (λ e, e = Counter) es).

#[global] Instance decision_eq_dec : EqDecision decision.
Proof. solve_decision. Defined.

Section Count.
Context `{Host} (sets : string → list SetElement).

(** How many of a rule's counters a packet reaches. *)
Fixpoint counted (pk : Packet) (reg : list Z) (es : list Expr) : nat :=
  match es with
  | [] => 0
  | e :: es =>
      (if decide (e = Counter) then 1 else 0) +
      match step sets pk reg e with Fall reg => counted pk reg es | _ => 0 end
  end%nat.

(** The rules a packet comes by in a chain, each with the counters it reached;
    a rule is its place in the table. *)
Section Chain.
Context (pk : Packet) (jump : string → decision) (visited : string → list (nat * nat)).
Fixpoint visits_rules (rs : list (nat * Rule)) : list (nat * nat) :=
  match rs with
  | [] => []
  | (i, r) :: rs =>
      (i, counted pk [] (r_exprs r)) ::
      match run sets pk [] (r_exprs r) with
      | NoMatch | Fall _ => visits_rules rs
      | Decide (VerdictJump c) => visited c ++ (if decide (jump c = Returned) then visits_rules rs else [])
      | _ => []
      end
  end.
End Chain.

Definition indexed (tbl : list Rule) : list (nat * Rule) := imap pair tbl.
Definition chain_indexed (tbl : list (nat * Rule)) (c : string) : list (nat * Rule) := filter (λ x, r_chain x.2 = c) tbl.

Fixpoint chain_visits (pk : Packet) (depth : nat) (tbl : list (nat * Rule)) (c : string) : list (nat * nat) :=
  match depth with
  | O => []
  | S d => visits_rules pk (eval_chain sets pk d (map snd tbl)) (chain_visits pk d tbl) (chain_indexed tbl c)
  end.

(** What a packet reaches. *)
Definition visits (tbl : list Rule) (a : arrival) : list (nat * nat) :=
  chain_visits (av_packet a) NFT_JUMP_STACK_SIZE (indexed tbl) (av_chain a).

(** Counter [j] of rule [i] after this traffic, before it wraps. *)
Definition ticked (i j : nat) (vs : list (nat * nat)) : Z :=
  Z.of_nat (length (filter (λ v, v.1 = i ∧ (j < v.2)%nat) vs)).
Definition carried (tbl : list Rule) (traffic : list arrival) (weight : arrival → Z) (i j : nat) : Z :=
  foldr (λ a n, weight a * ticked i j (visits tbl a) + n) 0 traffic.
Definition live_rule (tbl : list Rule) (traffic : list arrival) (i : nat) (r : Rule) : LiveRule :=
  mkLive r (map (λ j, (wrap64 (carried tbl traffic (λ _, 1) i j), wrap64 (carried tbl traffic av_len i j))) (seq 0 (counters_in (r_exprs r)))).
Definition live (tbl : list Rule) (traffic : list arrival) : list LiveRule := imap (live_rule tbl traffic) tbl.
End Count.

(** The table of an apply, fed with replies. *)
Definition packets_of (counters : gmap string RuleCounter) (id : string) : Z := rc_Packets (default noCounter (counters !! id)).

(** ** Sums *)

Definition zsum (l : list Z) : Z := foldr Z.add 0 l.
Definition inrange (z : Z) : Prop := 0 <= z < 2 ^ 64.

Lemma zsum_app a b : zsum (a ++ b) = zsum a + zsum b.
Proof. induction a as [|x a IH]; [done|]. cbn [app zsum foldr]. fold (zsum (a ++ b)) (zsum a). lia. Qed.
Lemma zsum_nonneg l : Forall (λ z, 0 <= z) l → 0 <= zsum l.
Proof. induction 1 as [|x l Hx Hl IH]; [done|]. cbn. fold (zsum l). lia. Qed.
Lemma zsum_elem l x : Forall (λ z, 0 <= z) l → x ∈ l → x <= zsum l.
Proof.
  induction 1 as [|y l Hy Hl IH]; [by intros ?%not_elem_of_nil|]. pose proof (zsum_nonneg l Hl). cbn. fold (zsum l).
  intros [->|Hx]%elem_of_cons; [lia|]. specialize (IH Hx). lia.
Qed.
Lemma zsum_zero l : Forall (λ z, z = 0) l → zsum l = 0.
Proof. induction 1 as [|x l -> Hl IH]; [done|]. cbn. fold (zsum l). lia. Qed.
Lemma wrap64_id z : inrange z → wrap64 z = z.
Proof. intros. unfold wrap64. by apply Z.mod_small. Qed.
Lemma wrap64_add a b : wrap64 (wrap64 a + b) = wrap64 (a + b).
Proof. unfold wrap64. by rewrite Zplus_mod_idemp_l. Qed.

(** ** What RuleCounters reads *)

Definition packets_in (lr : LiveRule) : Z := zsum (map fst (lr_counts lr)).
Definition total (t : list LiveRule) : Z := zsum (map packets_in t).
Definition counted_rule (lr : LiveRule) : bool :=
  (String.eqb (r_chain (lr_rule lr)) inputChainName || String.eqb (r_chain (lr_rule lr)) forwardChainName) &&
  negb (is_empty (r_tag (lr_rule lr))).
Definition has_id (id : string) (lr : LiveRule) : bool := counted_rule lr && String.eqb (r_tag (lr_rule lr)) id.
(** A rule of the input chain with an id that is not easywall's own. *)
Definition operator_rule (r : Rule) : bool :=
  String.eqb (r_chain r) inputChainName && negb (is_empty (r_tag r)) && negb (IsReservedRuleID (r_tag r)).
Definition sum_of (p : LiveRule → bool) (t : list LiveRule) : Z := zsum (map (λ lr, if p lr then packets_in lr else 0) t).

Definition counts_ok (t : list LiveRule) : Prop := Forall (λ lr, Forall (λ x : Z * Z, 0 <= x.1) (lr_counts lr)) t.

Lemma packets_in_nonneg lr : Forall (λ x : Z * Z, 0 <= x.1) (lr_counts lr) → 0 <= packets_in lr.
Proof. intros H. apply zsum_nonneg. by apply Forall_map. Qed.
Lemma sum_of_bounds p t : counts_ok t → 0 <= sum_of p t <= total t.
Proof.
  unfold sum_of, total. induction 1 as [|lr t Hl Ht IH]; [done|]. cbn. pose proof (packets_in_nonneg lr Hl).
  destruct (p lr); unfold zsum in *; lia.
Qed.
Lemma sum_of_elem p t lr : counts_ok t → lr ∈ t → p lr = true → packets_in lr <= sum_of p t.
Proof.
  intros Ht Hin Hp. unfold sum_of. apply zsum_elem.
  - apply Forall_map, Forall_forall. intros x Hx. cbn. destruct (p x); [|done]. apply packets_in_nonneg. by apply (proj1 (Forall_forall _ _) Ht).
  - apply list_elem_of_fmap. exists lr. by rewrite Hp.
Qed.
Lemma sum_of_zero p t : (∀ lr, lr ∈ t → p lr = true → packets_in lr = 0) → sum_of p t = 0.
Proof.
  intros H. apply zsum_zero, Forall_map, Forall_forall. intros lr Hl. cbn. destruct (p lr) eqn:E; [by apply H|done].
Qed.

Lemma add_counts input c l :
  inrange (rc_Packets c) → inrange (rc_InputPackets c) →
  rc_Packets (foldl (add_count input) c l) = wrap64 (rc_Packets c + zsum (map fst l)) ∧
  rc_InputPackets (foldl (add_count input) c l) = wrap64 (rc_InputPackets c + if input then zsum (map fst l) else 0).
Proof.
  revert c; induction l as [|x l IH]; intros c Hp Hi; cbn [foldl map].
  { change (zsum []) with 0. destruct input; by rewrite !Z.add_0_r, !wrap64_id. }
  destruct (IH (add_count input c x)) as [-> ->].
  - apply Z.mod_pos_bound. done.
  - unfold add_count; cbn. destruct input; [by apply Z.mod_pos_bound|done].
  - unfold add_count; cbn [rc_Packets rc_InputPackets]. rewrite wrap64_add. change (zsum (x.1 :: map fst l)) with (x.1 + zsum (map fst l)).
    split; [f_equal; lia|]. destruct input; [rewrite wrap64_add; f_equal; lia|done].
Qed.

Definition input_of (counters : gmap string RuleCounter) (id : string) : Z := rc_InputPackets (default noCounter (counters !! id)).
Definition on_input (lr : LiveRule) : bool := String.eqb (r_chain (lr_rule lr)) inputChainName.
(** The unwrapped sum of [Health]'s loop. *)
Definition port_share (id : string) (c : RuleCounter) : Z := if IsReservedRuleID id then 0 else rc_InputPackets c.
Definition port_sum (counters : gmap string RuleCounter) : Z := map_fold (λ id c n, port_share id c + n) 0 counters.

Lemma port_sum_insert m k c :
  port_sum (<[k := c]> m) = port_sum m - port_share k (default noCounter (m !! k)) + port_share k c.
Proof.
  assert (∀ m' c, m' !! k = None → port_sum (<[k := c]> m') = port_share k c + port_sum m') as Hnew.
  { intros m' c' Hn. unfold port_sum. rewrite map_fold_insert_L; [done| |done]. intros. lia. }
  destruct (m !! k) as [c'|] eqn:E; cbn [default from_option].
  - pose proof (Hnew (delete k m) c' (lookup_delete_eq _ _)) as H1. rewrite (insert_delete_id m k c' E) in H1.
    pose proof (Hnew (delete k m) c (lookup_delete_eq _ _)) as H2. rewrite insert_delete_eq in H2. change (Datatypes.id c') with c'. lia.
  - rewrite Hnew by done. assert (port_share k noCounter = 0) as -> by (unfold port_share; cbn; by destruct (IsReservedRuleID k)). lia.
Qed.

Lemma ports_of_sum m : ports_of m = wrap64 (port_sum m).
Proof.
  unfold ports_of, port_sum. induction m as [|id c m Hm Hfirst IH] using map_first_key_ind; [by rewrite !map_fold_empty|].
  rewrite !map_fold_insert_first_key by done. unfold add_port at 1, port_share at 1. rewrite IH.
  destruct (IsReservedRuleID id); [f_equal; lia|]. rewrite wrap64_add. f_equal. lia.
Qed.

Lemma sum_of_snoc p t lr : sum_of p (t ++ [lr]) = sum_of p t + if p lr then packets_in lr else 0.
Proof. unfold sum_of. rewrite map_app, zsum_app. cbn. lia. Qed.

(** While no counter has wrapped, the map is the sums of the rules' counters. *)
Lemma RuleCounters_spec t :
  counts_ok t → total t < 2 ^ 64 →
  (∀ id, packets_of (RuleCounters t) id = sum_of (has_id id) t) ∧
  (∀ id, input_of (RuleCounters t) id = sum_of (λ lr, has_id id lr && on_input lr) t) ∧
  port_sum (RuleCounters t) = sum_of (λ lr, operator_rule (lr_rule lr)) t.
Proof.
  induction t as [|lr t IH] using rev_ind; intros Hok Ht; [done|].
  apply Forall_app in Hok as [Hok Hl]. apply Forall_cons in Hl as [Hl _].
  unfold total in Ht. rewrite map_app, zsum_app in Ht. fold (total t) in Ht. change (zsum (map packets_in [lr])) with (packets_in lr + 0) in Ht.
  pose proof (packets_in_nonneg lr Hl) as Hnn. destruct IH as (I1 & I2 & I3); [done|lia|].
  assert (RuleCounters (t ++ [lr]) = add_rule (RuleCounters t) lr) as -> by (unfold RuleCounters; by rewrite foldl_app).
  assert (∀ p, 0 <= sum_of p t <= total t) as Hb by (intros; by apply sum_of_bounds).
  destruct (counted_rule lr) eqn:Ec.
  - unfold add_rule. unfold counted_rule in Ec. apply andb_true_iff in Ec as [Ec1 Ec2]. apply negb_true_iff in Ec2.
    rewrite <- negb_orb, Ec1, Ec2. cbn [negb].
    set (id := r_tag (lr_rule lr)). set (out := RuleCounters t). fold (on_input lr).
    destruct (add_counts (on_input lr) (default noCounter (out !! id)) (lr_counts lr)) as [A1 A2].
    { fold (packets_of out id). unfold out. rewrite I1. specialize (Hb (has_id id)). split; lia. }
    { fold (input_of out id). unfold out. rewrite I2. specialize (Hb (λ lr, has_id id lr && on_input lr)). split; lia. }
    fold (packets_of out id) (input_of out id) (packets_in lr) in A1, A2. unfold out in A1, A2. rewrite I1 in A1. rewrite I2 in A2.
    rewrite wrap64_id in A1 by (specialize (Hb (has_id id)); split; lia).
    rewrite wrap64_id in A2 by (specialize (Hb (λ lr, has_id id lr && on_input lr)); destruct (on_input lr); split; lia).
    fold out in A1, A2. set (c := foldl (add_count (on_input lr)) _ _) in *.
    assert (∀ id', has_id id' lr = String.eqb id id') as Hid by (intros; unfold has_id, counted_rule; by rewrite Ec1, Ec2).
    split_and!.
    + intros id'. rewrite sum_of_snoc, Hid. unfold packets_of. destruct (String.eqb_spec id id') as [<-|Hne].
      * rewrite lookup_insert_eq. cbn. by rewrite A1.
      * rewrite lookup_insert_ne by done. fold (packets_of out id'). unfold out. rewrite I1. lia.
    + intros id'. rewrite sum_of_snoc, Hid. unfold input_of. destruct (String.eqb_spec id id') as [<-|Hne].
      * rewrite lookup_insert_eq. cbn. rewrite A2. done.
      * rewrite lookup_insert_ne by done. fold (input_of out id'). unfold out. rewrite I2. cbn. lia.
    + rewrite port_sum_insert, sum_of_snoc. unfold out at 1. rewrite I3.
      assert (operator_rule (lr_rule lr) = on_input lr && negb (IsReservedRuleID id)) as ->
        by (unfold operator_rule, on_input, id; rewrite Ec2; by rewrite andb_true_r).
      unfold port_share. fold (input_of out id). unfold out. rewrite I2, A2. destruct (IsReservedRuleID id), (on_input lr); cbn; lia.
  - assert (add_rule (RuleCounters t) lr = RuleCounters t) as ->.
    { unfold add_rule. unfold counted_rule in Ec. rewrite <- negb_orb. destruct (_ || _); [|done]. cbn in *. by destruct (is_empty _). }
    assert (operator_rule (lr_rule lr) = false) as Eo.
    { unfold operator_rule. unfold counted_rule in Ec. destruct (String.eqb (r_chain (lr_rule lr)) inputChainName); [|done]. cbn in *.
      by destruct (is_empty _). }
    rewrite sum_of_snoc, Eo, I3. assert (∀ id, has_id id lr = false) as Hid by (intros; unfold has_id; by rewrite Ec).
    split_and!; [| |lia].
    + intros id. rewrite sum_of_snoc, Hid, I1. lia.
    + intros id. rewrite sum_of_snoc, Hid, I2. cbn. lia.
Qed.

(** ** The counters of the traffic *)

Section Traffic.
Context `{Host} (sets : string → list SetElement) (tbl : list Rule) (traffic : list arrival).

Definition rule_carried (i : nat) (r : Rule) : Z :=
  zsum (map (carried sets tbl traffic (λ _, 1) i) (seq 0 (counters_in (r_exprs r)))).
(** Packets counted since the apply, over all rules. *)
Definition packets_carried : Z := zsum (imap rule_carried tbl).

Lemma wrap64_le z : 0 <= z → 0 <= wrap64 z <= z.
Proof. intros. unfold wrap64. split; [by apply Z.mod_pos_bound|by apply Z.mod_le]. Qed.

Lemma carried_nonneg i j : 0 <= carried sets tbl traffic (λ _, 1) i j.
Proof. unfold carried. induction traffic as [|a t IH]; [done|]. cbn [foldr]. unfold ticked at 1. lia. Qed.

Lemma live_rule_packets i r : packets_in (live_rule sets tbl traffic i r) =
  zsum (map (λ j, wrap64 (carried sets tbl traffic (λ _, 1) i j)) (seq 0 (counters_in (r_exprs r)))).
Proof. unfold packets_in, live_rule. cbn [lr_counts]. by rewrite map_map. Qed.

Lemma live_rule_le i r : 0 <= packets_in (live_rule sets tbl traffic i r) <= rule_carried i r.
Proof.
  rewrite live_rule_packets. unfold rule_carried. induction (seq 0 (counters_in (r_exprs r))) as [|j l IH]; [done|]. cbn [map zsum foldr].
  unfold zsum in IH. pose proof (wrap64_le _ (carried_nonneg i j)). lia.
Qed.

Lemma rule_carried_bound i r : tbl !! i = Some r → 0 <= rule_carried i r <= packets_carried.
Proof.
  intros Hi. assert (∀ i r, 0 <= rule_carried i r) as Hnn by (intros i' r'; pose proof (live_rule_le i' r'); lia). split; [apply Hnn|].
  apply zsum_elem.
  - apply Forall_forall. intros z (i' & r' & -> & _)%elem_of_lookup_imap. apply Hnn.
  - apply elem_of_lookup_imap. eauto.
Qed.

Lemma live_counts_ok : counts_ok (live sets tbl traffic).
Proof.
  apply Forall_forall. intros lr (i & r & -> & _)%elem_of_lookup_imap. apply Forall_map, Forall_forall. intros j _. cbn.
  by apply wrap64_le, carried_nonneg.
Qed.

Lemma live_total : total (live sets tbl traffic) <= packets_carried.
Proof.
  unfold total, live, packets_carried.
  assert (∀ (f g : nat → Rule → Z) l, (∀ i r, f i r <= g i r) → zsum (imap f l) <= zsum (imap g l)) as Hle.
  { intros f g l. revert f g. induction l as [|r l IH]; intros f g Hfg; [done|].
    pose proof (IH (f ∘ S) (g ∘ S) (λ i, Hfg (S i))) as Hl. pose proof (Hfg 0%nat r) as H0. unfold zsum in *. cbn [imap foldr]. lia. }
  assert (map packets_in (imap (live_rule sets tbl traffic) tbl) = imap (λ i r, packets_in (live_rule sets tbl traffic i r)) tbl) as ->
    by apply (fmap_imap (live_rule sets tbl traffic) packets_in).
  apply Hle. intros i r. apply live_rule_le.
Qed.

(** A packet that reached one of a rule's counters is in what the kernel hands back. *)
Lemma live_rule_pos i r a k :
  packets_carried < 2 ^ 64 → tbl !! i = Some r → a ∈ traffic → (i, k) ∈ visits sets tbl a → (0 < k)%nat → (0 < counters_in (r_exprs r))%nat →
  0 < packets_in (live_rule sets tbl traffic i r).
Proof.
  intros Hb Hi Ha Hv Hk Hc. rewrite live_rule_packets. pose proof (rule_carried_bound i r Hi) as Hr.
  assert (1 <= carried sets tbl traffic (λ _, 1) i 0) as H1.
  { clear -Ha Hv Hk. revert Ha. unfold carried. cbv beta. intros Ha. assert (∀ t, 0 <= foldr (λ a n, 1 * ticked i 0 (visits sets tbl a) + n) 0 t) as Hnn.
    { induction t as [|b t IH]; [done|]. cbn [foldr]. unfold ticked at 1. lia. }
    induction traffic as [|b t IH]; [by apply not_elem_of_nil in Ha|]. cbn [foldr]. specialize (Hnn t). cbv beta in *. apply elem_of_cons in Ha as [<-|Ha].
    - assert (1 <= ticked i 0 (visits sets tbl a)); [|lia]. unfold ticked.
      assert ((i, k) ∈ filter (λ v : nat * nat, v.1 = i ∧ (0 < v.2)%nat) (visits sets tbl a)) as Hin by by apply list_elem_of_filter.
      destruct (filter _ _); [by apply not_elem_of_nil in Hin|cbn; lia].
    - specialize (IH Ha). unfold ticked at 1. lia. }
  unfold rule_carried in Hr. destruct (counters_in (r_exprs r)) as [|n]; [lia|]. cbn [seq map zsum foldr] in *.
  assert (0 <= zsum (map (λ j, wrap64 (carried sets tbl traffic (λ _, 1) i j)) (seq 1 n))) as H2.
  { apply zsum_nonneg, Forall_map, Forall_forall. intros j _. cbn. apply wrap64_le, carried_nonneg. }
  assert (0 <= zsum (map (carried sets tbl traffic (λ _, 1) i) (seq 1 n))) as H3.
  { apply zsum_nonneg, Forall_map, Forall_forall. intros j _. apply carried_nonneg. }
  unfold zsum in *. rewrite wrap64_id; [lia|]. split; lia.
Qed.

(** A rule none of whose counters was reached. *)
Lemma live_rule_zero i r :
  (∀ a k, a ∈ traffic → (i, k) ∈ visits sets tbl a → k = 0%nat) → packets_in (live_rule sets tbl traffic i r) = 0.
Proof.
  intros Hz. rewrite live_rule_packets. apply zsum_zero, Forall_map, Forall_forall. intros j _. cbn.
  assert (carried sets tbl traffic (λ _, 1) i j = 0) as ->; [|done]. unfold carried. clear -Hz.
  induction traffic as [|a t IH]; [done|]. cbn [foldr]. rewrite IH by (intros a' k' Ha'; apply Hz; by right).
  assert (ticked i j (visits sets tbl a) = 0) as ->; [|lia]. unfold ticked.
  destruct (filter _ (visits sets tbl a)) as [|[i' k] l] eqn:E; [done|]. exfalso.
  assert ((i', k) ∈ filter (λ v : nat * nat, v.1 = i ∧ (j < v.2)%nat) (visits sets tbl a)) as Hin by (rewrite E; left).
  apply list_elem_of_filter in Hin as [[Hi Hk] Hin]. cbn in *. subst. rewrite (Hz a k) in Hk; [lia|left|done].
Qed.

(** What [Health] makes of it. *)
Lemma established_live : established_of (RuleCounters (live sets tbl traffic)) = packets_of (RuleCounters (live sets tbl traffic)) ReservedIDEstablished.
Proof. unfold established_of, packets_of. by destruct (RuleCounters _ !! _). Qed.
End Traffic.

(** ** What a packet reaches *)

Section Reach.
Context `{Host} (sets : string → list SetElement) (pk : Packet).

Lemma counted_counter reg reg' m rest : run sets pk reg m = Fall reg' → (0 < counted sets pk reg (m ++ Counter :: rest))%nat.
Proof.
  revert reg. induction m as [|e m IH]; intros reg; cbn [run app counted]; [destruct (decide (Counter = Counter)); [lia|done]|].
  destruct (step sets pk reg e); try done. intros Hm%IH. lia.
Qed.

Lemma counted_nomatch reg m rest : run sets pk reg m = NoMatch → Counter ∉ m → counted sets pk reg (m ++ rest) = 0%nat.
Proof.
  revert reg. induction m as [|e m IH]; intros reg; [done|]. cbn [run app counted].
  intros Hr [Hne Hm]%not_elem_of_cons. destruct (decide (e = Counter)); [congruence|]. destruct (step sets pk reg e); try done. by apply IH.
Qed.

Context (jump : string → decision) (visited : string → list (nat * nat)).

(** Rules a packet comes through without an end. *)
Definition passes (r : Rule) : Prop :=
  match run sets pk [] (r_exprs r) with
  | NoMatch | Fall _ => True
  | Decide (VerdictJump c) => jump c = Returned
  | _ => False
  end.

Lemma visits_rules_app X Y :
  Forall (λ x, passes x.2) X → visits_rules sets pk jump visited (X ++ Y) = visits_rules sets pk jump visited X ++ visits_rules sets pk jump visited Y.
Proof.
  induction 1 as [|[i r] X Hr HX IH]; [done|]. cbn [app visits_rules snd] in *. unfold passes in Hr. cbn in Hr.
  destruct (run sets pk [] (r_exprs r)) as [|reg|[]|p]; try done; rewrite IH; try done.
  destruct (decide (jump chain = Returned)); [by rewrite <- app_assoc|done].
Qed.

Lemma decides_passes rs d : decides sets pk jump rs false d → Forall passes rs.
Proof.
  induction rs as [|r rs IH]; intros Hd; [constructor|]. unfold decides in Hd. cbn [app eval_rules] in Hd.
  pose proof (Hd []) as H0. pose proof (Hd [mkRule "" [Verdict VerdictAccept] ""]) as H1.
  change (eval_rules sets pk jump []) with Returned in H0. change (eval_rules sets pk jump [mkRule "" [Verdict VerdictAccept] ""]) with Accepted in H1.
  constructor; [unfold passes|apply IH; intros rest; specialize (Hd rest); cbv iota in *];
    (destruct (run sets pk [] (r_exprs r)) as [|reg|[| | |t]|p]; [done|done|done|done|done| |done]).
  all: destruct (jump t); congruence.
Qed.
End Reach.

Section Table.
Context `{Host} (sets : string → list SetElement).

Lemma chain_indexed_snd tbl c : map snd (chain_indexed (indexed tbl) c) = chain_rules tbl c.
Proof.
  assert (∀ l : list (nat * Rule), map snd (chain_indexed l c) = chain_rules (map snd l) c) as ->.
  { induction l as [|[i r] l IH]; [done|]. unfold chain_indexed, chain_rules in *. cbn [map snd].
    destruct (decide (r_chain r = c)) as [E|E]; [rewrite !filter_cons_True by done; cbn [map snd]; by rewrite IH|by rewrite !filter_cons_False]. }
  f_equal. unfold indexed. change (map snd (imap pair tbl)) with (snd <$> imap pair tbl). rewrite fmap_imap.
  apply list_eq. intros i. rewrite list_lookup_imap. by destruct (tbl !! i).
Qed.

Lemma visits_rules_in pk jump visited X i k :
  (∀ c i k, (i, k) ∈ visited c → ∃ r, (i, r) ∈ X ∧ k = counted sets pk [] (r_exprs r)) →
  ∀ Y, Y ⊆ X → (i, k) ∈ visits_rules sets pk jump visited Y → ∃ r, (i, r) ∈ X ∧ k = counted sets pk [] (r_exprs r).
Proof.
  intros Hv Y. induction Y as [|[j r] Y IH]; intros HY; [by intros ?%not_elem_of_nil|]. cbn [visits_rules].
  assert (Y ⊆ X) as HY' by (intros x Hx; apply HY; by right). intros [[= -> ->]|Hin]%elem_of_cons.
  { exists r. split; [apply HY; left|done]. }
  destruct (run sets pk [] (r_exprs r)) as [|reg|[]|p]; try (by apply IH); try (by apply not_elem_of_nil in Hin).
  apply elem_of_app in Hin as [Hin|Hin]; [by eapply Hv|]. destruct (decide _); [by apply IH|by apply not_elem_of_nil in Hin].
Qed.

Lemma visits_in tbl a i k :
  (i, k) ∈ visits sets tbl a → ∃ r, tbl !! i = Some r ∧ k = counted sets (av_packet a) [] (r_exprs r).
Proof.
  unfold visits. assert (∀ d c i k, (i, k) ∈ chain_visits sets (av_packet a) d (indexed tbl) c →
    ∃ r, (i, r) ∈ indexed tbl ∧ k = counted sets (av_packet a) [] (r_exprs r)) as Hd.
  { induction d as [|d IH]; intros c i' k'; [by intros ?%not_elem_of_nil|]. cbn [chain_visits]. apply visits_rules_in; [exact IH|].
    intros x [_ Hx]%list_elem_of_filter. done. }
  intros (r & Hin & ->)%Hd. exists r. split; [|done]. apply elem_of_lookup_imap in Hin as (j & r' & [= -> ->] & ?). done.
Qed.
End Table.

(** ** The tags of the table *)

Definition established_exprs `{Host} : list Expr :=
  [Ct; Bitwise 4 (ctStateMask (Z.lor ctStateEstablished ctStateRelated)) ctStateNoMatch; Cmp CmpNeq ctStateNoMatch] ++
  [Counter; Verdict VerdictAccept].

Section Tags.
Context `{Host} `{NftConn} (sink : logSink).

(** Only the rule for replies carries its id. *)
Definition tag_ok (r : Rule) : Prop := r_tag r = ReservedIDEstablished → r_exprs r = established_exprs.
Definition tagged (b : list Cmd) : Prop := Forall (λ k, match k with AddRule r => tag_ok r | _ => True end) b.

Lemma tagged_app a b : tagged a → tagged b → tagged (a ++ b).
Proof. intros. by apply Forall_app. Qed.
Lemma tagged_nil : tagged [].
Proof. constructor. Qed.
Lemma tagged_cons_rule r b : tag_ok r → tagged b → tagged (AddRule r :: b).
Proof. intros. by constructor. Qed.
Lemma tagged_cons_other k b : match k with AddRule r => tag_ok r | _ => True end → tagged b → tagged (k :: b).
Proof. intros. by constructor. Qed.
Lemma tagged_flat_map {A} (f : A → list Cmd) l : (∀ x, tagged (f x)) → tagged (flat_map f l).
Proof. intros Hf. induction l as [|x l IH]; [constructor|]. by apply tagged_app. Qed.
Lemma tagged_map {A} (f : A → Cmd) l : (∀ x, match f x with AddRule r => tag_ok r | _ => True end) → tagged (map f l).
Proof. intros Hf. apply Forall_map, Forall_forall. intros x _. apply Hf. Qed.
Lemma tagged_option {B} (o : option B) f : (∀ x, tagged (f x)) → tagged (option_list o f).
Proof. destruct o; intros Hf; [apply Hf|constructor]. Qed.
Lemma tagged_rules b : tagged b → Forall tag_ok (rules_of b).
Proof. induction 1 as [|k b Hk Hb IH]; [constructor|]. destruct k; try exact IH. cbn. by constructor. Qed.

Ltac tags :=
  repeat lazymatch goal with
  | |- tagged [] => apply tagged_nil
  | |- tagged (_ ++ _) => apply tagged_app
  | |- tagged (flat_map _ _) => apply tagged_flat_map; intros ?
  | |- tagged (map _ _) => apply tagged_map; intros ?
  | |- tagged (option_list _ _) => apply tagged_option; intros ?
  | |- tagged (AddRule _ :: _) => apply tagged_cons_rule; [solve [let E := fresh in intros E; cbn in E; first [discriminate E|congruence]]|]
  | |- tagged (_ :: _) => apply tagged_cons_other; [exact I|]
  | |- tagged (if ?b then _ else _) => destruct b
  | |- tagged (when ?b _) => unfold when
  | |- tagged (let _ := _ in _) => cbv zeta
  end.

Lemma addLogged_tagged c m lg tag act : tag ≠ ReservedIDEstablished → tagged (addLogged sink c m lg tag act).
Proof. intros Ht. unfold addLogged, rule. tags. Qed.
Lemma addCIDRAccept_tagged c cidr : tagged (addCIDRAccept c cidr).
Proof. unfold addCIDRAccept, rule. cbv zeta. repeat case_match; tags. Qed.
Lemma over_tagged name lg : tagged (addOverRateChain sink name lg).
Proof. unfold addOverRateChain, rule. tags. Qed.
Lemma per_source_tagged c m r target : tagged (addPerSourceRateLimit c m r target).
Proof. unfold addPerSourceRateLimit, rule. tags. Qed.

Lemma established_tagged c : tagged (addEstablishedAccept c).
Proof. unfold addEstablishedAccept. apply Forall_singleton. by intros _. Qed.

Lemma early_tagged opts ipv6 : tagged (early_rules sink opts ipv6).
Proof.
  unfold early_rules, addLoopbackAccept, ipv6_disposition, addFamilyVerdict, addICMPFloodProtection, addTCPRSTFlood,
    addICMPRules, addICMPTypeAccept, rule.
  tags; first [apply over_tagged|apply per_source_tagged|apply established_tagged].
Qed.

Lemma module_tagged opts rules cidrs : tagged (module_rules sink opts rules cidrs).
Proof.
  unfold module_rules, addPortScanPrevention, addSYNFloodProtection, addInvalidPacketDrop, addFiltered, addFragmentDrop,
    addBogonFilter, bogon_source_returns, addFiltered, addSSHBruteForce, addConnectionLimit, addBroadcastDrop, addMulticastDrop, addAnycastDrop, rule.
  tags; first [apply over_tagged|apply per_source_tagged|by apply addLogged_tagged|by intros].
Qed.

Lemma list_tagged opts rules cidrs : tagged (list_rules sink opts rules cidrs).
Proof.
  unfold list_rules, addBlocklistRule, addAllowlistRule, rule. tags; try apply addCIDRAccept_tagged; [by apply addLogged_tagged|].
  destruct (ParseIP _); [tags|apply addCIDRAccept_tagged].
Qed.

Definition ids_ok (l : list PortRule) : Prop := Forall (λ r, ID r ≠ ReservedIDEstablished) l.

Lemma valid_ids_ok rules : ValidRules rules → ids_ok (TCP rules) ∧ ids_ok (UDP rules).
Proof.
  intros Hv. apply Forall_app. apply Forall_forall. intros r Hr E.
  assert (ValidRuleID (ID r) = true) as Hid; [|rewrite E in Hid; by vm_compute in Hid].
  apply (proj1 (Forall_forall _ _) (vr_ids _ Hv)). unfold nonempty_ids. apply list_elem_of_filter. rewrite E. split; [done|].
  rewrite <- E. by apply list_elem_of_fmap_2.
Qed.

Lemma portAccept_tags c proto r : ID r ≠ ReservedIDEstablished → Forall tag_ok (portAcceptRules c proto r).
Proof.
  intros Hid. assert (∀ m, tag_ok (port_rule c proto r m)) as Hr by (intros m E; by cbn in E).
  unfold portAcceptRules. cbv zeta. repeat case_match; [constructor|by apply Forall_singleton|]. by apply Forall_map, Forall_forall.
Qed.
Lemma tagged_AddRule l : Forall tag_ok l → tagged (map AddRule l).
Proof. intros Hl. by apply Forall_map. Qed.
Lemma tagged_flat_map_in {A} (P : A → Prop) (f : A → list Cmd) l : Forall P l → (∀ x, P x → tagged (f x)) → tagged (flat_map f l).
Proof. intros Hl Hf. induction Hl; [constructor|]. apply tagged_app; auto. Qed.

Lemma port_tagged opts rules ipv6 : ids_ok (TCP rules) → ids_ok (UDP rules) → tagged (port_rules opts rules ipv6).
Proof.
  intros Ht Hu. unfold port_rules. apply tagged_app; [unfold addEchoAccepts, addICMPTypeAccept, rule; tags|].
  assert (∀ proto l, ids_ok l → tagged (flat_map (λ r, if FiltersHost r then addPortAccept inputChainName proto r else []) l)) as Hp.
  { intros proto l Hl. eapply tagged_flat_map_in; [exact Hl|]. intros r Hr. destruct (FiltersHost r); [by apply tagged_AddRule, portAccept_tags|constructor]. }
  apply tagged_app; [by apply Hp|]. apply tagged_app; [by apply Hp|].
  destruct (bool_decide _); [constructor|]. unfold addForwardingRules, forwarding_rule, rule. tags. by intros.
Qed.

Lemma forward_rule_tags c proto v4 v6 ipv6 r : ID r ≠ ReservedIDEstablished → Forall tag_ok (forward_rule c proto v4 v6 ipv6 r).
Proof.
  intros Hid. unfold forward_rule. destruct (negb _); [constructor|]. pose proof (portAccept_tags c proto r Hid) as Hp.
  assert (∀ k, k ∈ portAcceptRules c proto r → r_tag k ≠ ReservedIDEstablished) as Hk.
  { intros k. unfold portAcceptRules. cbv zeta. destruct (_ && _); [by intros ?%not_elem_of_nil|]. destruct (bool_decide _).
    - by intros ->%list_elem_of_singleton.
    - by intros (m & -> & _)%list_elem_of_fmap. }
  apply Forall_app. split.
  - apply Forall_flat_map, Forall_forall. intros k Hin. pose proof (proj1 (Forall_forall _ _) Hp k Hin). cbn beta.
    destruct (ruleFamily _); [|constructor]. destruct (_ && _); [constructor|by apply Forall_singleton].
  - apply Forall_flat_map, Forall_forall. intros [on fam] _. destruct (negb on); [constructor|].
    apply Forall_flat_map, Forall_forall. intros k Hin. destruct (ruleFamily _); [constructor|]. apply Forall_singleton. intros E. by apply (Hk k) in Hin.
Qed.

Lemma Forall_flat_map_in {A} (P : A → Prop) (Q : Rule → Prop) f l : Forall P l → (∀ x, P x → Forall Q (f x)) → Forall Q (flat_map f l).
Proof. intros Hl Hf. induction Hl; [constructor|]. apply Forall_app; auto. Qed.

Lemma forward_tagged c rules docker routing cidrs ipv6 :
  ids_ok (TCP rules) → ids_ok (UDP rules) → tagged (buildForwardChain c rules docker routing cidrs ipv6).1.
Proof.
  intros Ht Hu. unfold buildForwardChain. cbv zeta. destruct (_ && _); [apply tagged_nil|].
  assert (tagged (addForwardLists c rules routing cidrs).1) as Hl.
  { unfold addForwardLists, lists_chain, lists_jumps, rule. cbv zeta. destruct (_ && _); cbn [fst]; tags; by intros. }
  destruct (addForwardLists c rules routing cidrs) as [lists fwd]. cbn [fst] in *.
  apply tagged_app; [apply established_tagged|]. apply tagged_app; [done|]. apply tagged_app.
  - unfold addForwardPortRules. destruct (negb _); [constructor|]. destruct (cidrFamilies cidrs) as [v4 v6]. destruct (_ && _); [constructor|].
    apply tagged_app.
    + apply tagged_AddRule, Forall_app. split; (eapply Forall_flat_map_in; [eassumption|]; intros; by apply forward_rule_tags).
    + apply tagged_flat_map. intros cidr. unfold bridge_deny, rule. destruct (cidrMatch _ _); [|constructor]. destruct (cidrMatchNegated _ _); tags.
  - unfold addForwardExceptions, rule. tags. by intros.
Qed.

Lemma feed_tagged c opts fwd id f : Forall tag_ok (rules_of (feed_rules sink c opts fwd id f)).
Proof.
  apply tagged_rules. unfold feed_rules, rule. cbv zeta. apply tagged_app; [by apply addLogged_tagged|]. destruct fwd; tags.
Qed.

Lemma table_tags detected nft rules opts net feeds queued bytes cidrs :
  ruleset sink detected rules opts net feeds = Some (queued, bytes, cidrs) → ValidRules rules →
  (∀ cmds, Forall (λ r, r_tag r ≠ ReservedIDEstablished) (nft cmds)) →
  Forall tag_ok (table_rules sink nft rules opts queued).
Proof.
  intros Hq Hv Hnft. destruct (valid_ids_ok rules Hv) as [Ht Hu].
  destruct (ruleset_parts sink detected rules opts net feeds queued bytes cidrs Hq) as (feed & n & Hf & _ & ->).
  unfold table_rules. rewrite !rules_of_app, (addFeeds_rules _ _ _ _ _ _ _ _ Hf).
  apply Forall_app. split; [|apply Forall_app; split].
  - change (rules_of (base_commands (Routing net))) with (@nil Rule). cbn [app]. rewrite !Forall_app. split_and!.
    + apply tagged_rules, early_tagged.
    + by apply tagged_rules, forward_tagged.
    + apply tagged_rules, module_tagged.
    + apply tagged_rules, list_tagged.
    + apply Forall_flat_map, Forall_forall. intros id _. apply Forall_flat_map, Forall_forall. intros f _. apply feed_tagged.
    + by apply tagged_rules, port_tagged.
  - unfold custom_rules. cbv zeta. destruct (bool_decide _); [constructor|]. eapply Forall_impl; [apply Hnft|]. by intros r Hr E.
  - apply tagged_rules. unfold addFinalLog, rule. tags.
Qed.
End Tags.

(** ** A reply is counted *)

(** A packet of a connection the host let through: not over the loopback, of a
    family the rules filter, from a source under every rate limit. *)
Record reply (mode : string) (pk : Packet) : Prop := {
  rp_ct : 0 <= pk_ct pk < 2 ^ 32;
  rp_established : Z.land (pk_ct pk) 6 ≠ 0;
  rp_outside : on_loopback pk = false;
  rp_filtered : pk_nfproto pk = NFPROTO_IPV6 → mode ≠ IPv6Passthrough ∧ mode ≠ IPv6Block;
  rp_over : ∀ set, pk_over pk set = false }.

Section Reply.
Context `{Host} `{NftConn} (sink : logSink) (sets : string → list SetElement) (pk : Packet) (mode : string).
Context (Hr : reply mode pk).

Lemma flood_passes jump c m r target d :
  (∀ f, Forall silent (m f)) → decides sets pk jump (rules_of (addPerSourceRateLimit c m r target)) false d.
Proof using Hr.
  intros Hm. unfold addPerSourceRateLimit. rewrite rules_of_flat_map.
  assert (existsb (λ _ : addrFamily, false) addrFamilies = false) as <- by done. apply decides_flat_map. intros f _.
  cbv zeta. destruct (AddSet_err _); [apply decides_nil|]. cbn [rules_of omap list_omap rule]. unfold rateExprs.
  assert (∀ a p e v, [Meta NFPROTO; Cmp CmpEq [a]] ++ m f ++ [p; e; v] =
                     ([Meta NFPROTO; Cmp CmpEq [a]] ++ m f ++ [p]) ++ e :: [v]) as -> by by intros; rewrite <- !app_assoc.
  apply decides_dynset_closed; [|apply Hr].
  apply Forall_app. split; [by repeat constructor|]. apply Forall_app. split; [done|by repeat constructor].
Qed.

Lemma flood_block jump (b : bool) name lg m r d :
  name ≠ inputChainName → (∀ f, Forall silent (m f)) →
  decides sets pk jump (chain_rules (rules_of (when b (addOverRateChain sink name lg ++ addPerSourceRateLimit inputChainName m r name))) inputChainName) false d.
Proof using Hr.
  intros Hn Hm. destruct b; [|apply decides_nil]. cbn [when]. rewrite rules_of_app, chain_rules_app.
  rewrite (within_not _ name) by (done || apply addOverRateChain_within). cbn [app]. rewrite within_all by apply addPerSourceRateLimit_within.
  by apply flood_passes.
Qed.

(** What stands before the rule for replies lets one through. *)
Definition before_established (opts : FirewallOptions) (ipv6 : IPv6Config) : list Cmd :=
  addLoopbackAccept inputChainName ++ ipv6_disposition (IPv6_Mode ipv6) ++
  when (ICMPFlood opts) (addICMPFloodProtection sink inputChainName opts) ++
  when (TCPRSTFlood opts) (addTCPRSTFlood sink inputChainName opts).

Lemma before_established_passes jump opts ipv6 d :
  IPv6_Mode ipv6 = mode → decides sets pk jump (chain_rules (rules_of (before_established opts ipv6)) inputChainName) false d.
Proof using Hr.
  intros Hm. unfold before_established. rewrite !rules_of_app, !chain_rules_app.
  assert (∀ a b, decides sets pk jump a false d → decides sets pk jump b false d → decides sets pk jump (a ++ b) false d) as Happ
    by (intros a b Ha Hb; exact (decides_app sets pk jump a b false false d Ha Hb)).
  apply Happ; [|apply Happ; [|apply Happ]].
  - rewrite within_all by (unfold addLoopbackAccept, rule; chains). eapply decides_false.
    pose proof (rule_decides sets pk jump inputChainName [Meta IIFNAME; Cmp CmpEq lo_name] _ VerdictAccept (Matches_iif_lo sets pk) I) as Hd.
    rewrite (rp_outside _ _ Hr) in Hd. exact Hd.
  - unfold ipv6_disposition. rewrite Hm.
    assert (∀ v, final v → mode = IPv6Passthrough ∨ mode = IPv6Block → decides sets pk jump (chain_rules (rules_of (addFamilyVerdict inputChainName NFPROTO_IPV6 v)) inputChainName) false d) as Hv.
    { intros v Hf Hmode. rewrite within_all by (unfold addFamilyVerdict, rule; chains). eapply decides_false.
      pose proof (Matches_meta_byte sets pk NFPROTO NFPROTO_IPV6 ltac:(by left)) as HM. cbn in HM.
      rewrite (proj2 (Z.eqb_neq _ _)) in HM by (intros E; destruct (rp_filtered _ _ Hr E); naive_solver).
      exact (rule_decides sets pk jump inputChainName [Meta NFPROTO; Cmp CmpEq [NFPROTO_IPV6]] _ v HM Hf). }
    destruct (String.eqb_spec mode IPv6Passthrough) as [E|_]; [apply Hv; [done|by left]|].
    destruct (String.eqb_spec mode IPv6Block) as [E|_]; [apply Hv; [done|by right]|apply decides_nil].
  - apply flood_block; [done|]. intros f. unfold echoMatch. destruct (_ =? _); by repeat constructor.
  - apply flood_block; [done|]. intros f. by repeat constructor.
Qed.

Context (detected : list string) (nft : list string → list Rule) (rules : Rules) (opts : FirewallOptions) (net : NetworkSettings)
  (feeds : FeedContents) (queued : list Cmd) (bytes : Z) (cidrs : list string).
Context (Hq : ruleset sink detected rules opts net feeds = Some (queued, bytes, cidrs)).

Definition established_rule : Rule := mkRule inputChainName established_exprs ReservedIDEstablished.

Lemma input_chain_starts : ∃ rest,
  chain_rules (table_rules sink nft rules opts queued) inputChainName =
  chain_rules (rules_of (before_established opts (IPv6 net))) inputChainName ++ established_rule :: rest.
Proof using Hq.
  clear Hr. destruct (ruleset_parts sink detected rules opts net feeds queued bytes cidrs Hq) as (feed & n & _ & _ & ->).
  unfold table_rules, early_rules, before_established. rewrite !rules_of_app, !chain_rules_app.
  assert (chain_rules (rules_of (base_commands (Routing net))) inputChainName = []) as -> by done. rewrite app_nil_l, <- !app_assoc.
  change (chain_rules (rules_of (addEstablishedAccept inputChainName)) inputChainName) with [established_rule]. eexists. rewrite <- !app_assoc.
  do 4 apply (f_equal (app _)). reflexivity.
Qed.

Lemma reply_is_counted a :
  IPv6_Mode (IPv6 net) = mode → av_chain a = inputChainName → av_packet a = pk →
  ∃ i k, table_rules sink nft rules opts queued !! i = Some established_rule ∧
    (i, k) ∈ visits sets (table_rules sink nft rules opts queued) a ∧ (0 < k)%nat.
Proof using Hq Hr.
  intros Hm Hc Hp. set (tbl := table_rules sink nft rules opts queued). destruct input_chain_starts as (rest & Hs). fold tbl in Hs.
  pose proof (chain_indexed_snd tbl inputChainName) as Hi. rewrite Hs in Hi.
  apply map_eq_app in Hi as (X & Y & HX & HA & HY). apply map_eq_cons in HY as ([i r] & Y' & -> & Hir & _). cbn in Hir. subst r.
  exists i, (counted sets pk [] established_exprs). split_and!.
  - assert ((i, established_rule) ∈ indexed tbl) as Hin.
    { assert ((i, established_rule) ∈ chain_indexed (indexed tbl) inputChainName) as Hc'
        by (rewrite HX; apply elem_of_app; right; left).
      unfold chain_indexed in Hc'. apply list_elem_of_filter in Hc' as [_ Hc']. exact Hc'. }
    apply elem_of_lookup_imap in Hin as (j & r' & [= -> <-] & ?). done.
  - unfold visits. rewrite Hc, Hp. unfold NFT_JUMP_STACK_SIZE. cbn [chain_visits]. rewrite HX, visits_rules_app.
    + apply elem_of_app. right. cbn [visits_rules]. left.
    + assert (Forall (passes sets pk (eval_chain sets pk 15 (map snd (indexed tbl)))) (map snd X)) as HF; [|exact (proj1 (Forall_map _ _ _) HF)].
      rewrite HA. eapply decides_passes. by apply (before_established_passes _ opts (IPv6 net) Dropped).
  - pose proof (Matches_ct sets pk 6 (rp_ct _ _ Hr) []) as HM. rewrite (proj2 (Z.eqb_neq _ _) (rp_established _ _ Hr)) in HM.
    cbn [negb] in HM. destruct HM as [reg' HM]. exact (counted_counter sets pk [] reg' _ _ HM).
Qed.
End Reply.

(** ** The alarm *)

Lemma counted_le `{Host} sets pk reg es : (counted sets pk reg es <= counters_in es)%nat.
Proof.
  unfold counters_in. revert reg. induction es as [|e es IH]; intros reg; [done|]. cbn [counted].
  destruct (decide (e = Counter)) as [E|E]; [rewrite filter_cons_True by done; cbn [length]|rewrite filter_cons_False by done];
    destruct (step sets pk reg e) as [|reg'| |]; try lia; pose proof (IH reg'); lia.
Qed.

(** A mask in the other byte order looks at no bit that conntrack sets. *)
Lemma reversed_counts_nothing (built kernel : Host) sets pk :
  @little_endian built ≠ @little_endian kernel → 0 <= pk_ct pk < 128 → @counted kernel sets pk [] (@established_exprs built) = 0%nat.
Proof.
  intros Hne Hct. apply counted_nomatch; [|by apply (bool_decide_unpack _); vm_compute].
  cbn [run step]. change (Z.to_nat 4) with 4%nat.
  set (reg := λ ct : Z, zip_with Z.lxor (zip_with Z.land (take 4 (@NativeEndian_PutUint32 kernel ct)) (@ctStateMask built 6)) ctStateNoMatch).
  assert (forallb (λ ct, negb (cmp_holds CmpNeq (reg ct) ctStateNoMatch)) (seqZ 0 128) = true) as Hall.
  { unfold reg. destruct built as [[]], kernel as [[]]; try done; by vm_compute. }
  rewrite forallb_forall in Hall. specialize (Hall (pk_ct pk)). unfold reg in Hall.
  change (Z.lor ctStateEstablished ctStateRelated) with 6.
  destruct (cmp_holds _ _ _); [|done]. by discriminate Hall; apply list_elem_of_In, elem_of_seqZ.
Qed.

(** Some packet was counted by a rule of the input chain with an id of the
    operator's. *)
Definition operator_counted `{Host} sets (tbl : list Rule) (traffic : list arrival) : Prop :=
  ∃ a i k r, a ∈ traffic ∧ tbl !! i = Some r ∧ operator_rule r = true ∧ (i, k) ∈ visits sets tbl a ∧ (0 < k)%nat.

Section Alarm.
Context `{kernel : Host} (sets : string → list SetElement) (tbl : list Rule) (traffic : list arrival).
Context (Hb : packets_carried sets tbl traffic < 2 ^ 64).
Let t := live sets tbl traffic.

Lemma live_lookup i r : tbl !! i = Some r → live_rule sets tbl traffic i r ∈ t.
Proof. intros Hi. apply elem_of_lookup_imap. eauto. Qed.

Lemma live_sums :
  established_of (RuleCounters t) = sum_of (has_id ReservedIDEstablished) t ∧
  ports_of (RuleCounters t) = sum_of (λ lr, operator_rule (lr_rule lr)) t.
Proof using Hb.
  pose proof (live_counts_ok sets tbl traffic) as Hok. pose proof (live_total sets tbl traffic) as Ht.
  destruct (RuleCounters_spec t Hok) as (H1 & _ & H3); [unfold t; lia|]. rewrite ports_of_sum. unfold t. rewrite established_live. fold t.
  rewrite H1, H3. split; [done|]. apply wrap64_id. pose proof (sum_of_bounds (λ lr, operator_rule (lr_rule lr)) t Hok). unfold t in *. split; lia.
Qed.

Lemma ports_positive : operator_counted sets tbl traffic → 0 < ports_of (RuleCounters t).
Proof using Hb.
  intros (a & i & k & r & Ha & Hi & Ho & Hv & Hk). rewrite (proj2 live_sums).
  assert (0 < counters_in (r_exprs r))%nat as Hc.
  { destruct (visits_in sets tbl a i k Hv) as (r' & Hi' & ->). simplify_eq. pose proof (counted_le sets (av_packet a) [] (r_exprs r)). lia. }
  pose proof (live_rule_pos sets tbl traffic i r a k Hb Hi Ha Hv Hk Hc) as Hp.
  pose proof (sum_of_elem (λ lr, operator_rule (lr_rule lr)) t _ (live_counts_ok sets tbl traffic) (live_lookup i r Hi) Ho). lia.
Qed.

Lemma ports_zero : ¬ operator_counted sets tbl traffic → ports_of (RuleCounters t) = 0.
Proof using Hb.
  intros Hno. rewrite (proj2 live_sums). apply sum_of_zero. intros lr (i & r & -> & Hi)%elem_of_lookup_imap Ho. apply live_rule_zero.
  intros a k Ha Hv. destruct k; [done|]. destruct Hno. exists a, i, (S k), r. split_and!; try done. lia.
Qed.
End Alarm.

(** C11: The alarm of a dead stateful half means what it says.  For the table of
    any apply and any traffic since, in which no sum of counters has wrapped:
    the alarm is never raised on a host where no operator's rule of the input
    chain has counted a packet, whatever is forwarded; where the mask of the
    rule for replies is spelt for this machine, one reply from outside, under
    the rate limits, rules it out for good; and where the mask is in the other
    byte order, the first packet an operator's rule counts raises it, whatever
    else arrives. *)
Theorem stateful_alarm_means_what_it_says (built kernel : Host) `{NftConn} sink detected nft rules opts net feeds queued bytes cidrs
    sets traffic st findings :
  @ruleset built _ sink detected rules opts net feeds = Some (queued, bytes, cidrs) →
  (∀ cmds, Forall (λ r, r_tag r ≠ ReservedIDEstablished) (nft cmds)) → ValidRules rules →
  let tbl := table_rules sink nft rules opts queued in
  Forall (λ a, 0 <= pk_ct (av_packet a) < 128) traffic → @packets_carried kernel sets tbl traffic < 2 ^ 64 →
  let t := Some (@live kernel sets tbl traffic) in
  let health := Health t t false st findings in
  (¬ @operator_counted kernel sets tbl traffic → hr_Reason health ≠ HealthReasonStatefulDead) ∧
  (@little_endian built = @little_endian kernel →
     (∃ a, a ∈ traffic ∧ av_chain a = inputChainName ∧ reply (IPv6_Mode (IPv6 net)) (av_packet a)) →
     hr_Reason health ≠ HealthReasonStatefulDead) ∧
  (@little_endian built ≠ @little_endian kernel → @operator_counted kernel sets tbl traffic →
     hr_State health = HealthDegraded ∧ hr_Reason health = HealthReasonStatefulDead).
Proof.
  intros Hq Hnft Hv tbl Hct Hb t health.
  pose proof (live_sums (kernel := kernel) sets tbl traffic Hb) as [He _].
  assert (Enforcing (live sets tbl traffic) = true) as Henf.
  { destruct (input_chain_starts (H := built) sink detected nft rules opts net feeds queued bytes cidrs Hq) as (rest & Hs). fold tbl in Hs.
    assert (@established_rule built ∈ chain_rules tbl inputChainName) as Hin by (rewrite Hs; apply elem_of_app; right; left).
    apply list_elem_of_filter in Hin as [_ Hin]. apply list_elem_of_lookup in Hin as [i Hi].
    apply existsb_exists. exists (live_rule sets tbl traffic i (@established_rule built)). split; [|done]. apply list_elem_of_In. by apply live_lookup. }
  unfold health, t, Health. rewrite Henf. unfold computeHealth; cbn [enforcing panicEngaged establishedPkts portPkts buildFindings stamp negb].
  split_and!.
  - intros Hno. rewrite (ports_zero sets tbl traffic Hb Hno), andb_false_r. by repeat case_match.
  - intros E (a & Ha & Hc & Hr). assert (built = kernel) as -> by (destruct built, kernel; cbn in E; by subst).
    destruct (reply_is_counted sink sets (av_packet a) _ Hr detected nft rules opts net feeds queued bytes cidrs Hq a) as (i & k & Hi & Hvis & Hk); [done..|].
    fold tbl in Hi, Hvis. pose proof (live_rule_pos sets tbl traffic i _ a k Hb Hi Ha Hvis Hk ltac:(apply Nat.ltb_lt; reflexivity)) as Hp.
    pose proof (sum_of_elem (has_id ReservedIDEstablished) _ _ (live_counts_ok sets tbl traffic) (live_lookup sets tbl traffic i _ Hi) eq_refl) as Hs.
    rewrite He, (proj2 (Z.eqb_neq _ _)) by lia. cbn [andb]. by repeat case_match.
  - intros Hne Ho. pose proof (ports_positive sets tbl traffic Hb Ho) as Hp. rewrite He, sum_of_zero.
    + cbn [Z.eqb andb]. by rewrite (proj2 (Z.ltb_lt _ _) Hp).
    + intros lr (i & r & -> & Hi)%elem_of_lookup_imap Hid. apply live_rule_zero. intros a k Ha Hvis.
      destruct (visits_in sets tbl a i k Hvis) as (r' & Hi' & ->). simplify_eq.
      pose proof (table_tags (H := built) sink detected nft rules opts net feeds queued bytes cidrs Hq Hv Hnft) as Ht. fold tbl in Ht.
      unfold has_id in Hid. apply andb_true_iff in Hid as [_ Hid]. apply String.eqb_eq in Hid.
      rewrite (proj1 (Forall_forall _ _) Ht r (list_elem_of_lookup_2 _ _ _ Hi) Hid).
      apply reversed_counts_nothing; [done|]. exact (proj1 (Forall_forall _ _) Hct a Ha).
Qed.
Definition no_stamp : SelftestStamp := mkStamp "" "" SelftestNone None "".
Definition reversed : Host := {| little_endian := false |}.
(** A connection to port 22, its answer and the next segment, and one to a container. *)
Definition some_traffic : list arrival :=
  [mkArrival inputChainName 60 (tcp_packet 0x08080808 0x01020304 22 8 2 eth0);
   mkArrival inputChainName 52 (tcp_packet 0x08080808 0x01020304 22 2 16 eth0);
   mkArrival forwardChainName 52 (tcp_packet 0x08080808 0xAC140005 443 2 16 eth0)].
Definition table_of (H : Host) : list Rule :=
  match @ruleset H netlink_conn kernel_log [] ssh_rules shipped_options container_networks (λ _, []) with
  | Some (queued, _, _) => table_rules kernel_log no_nft ssh_rules shipped_options queued
  | None => []
  end.
Definition state_after (H : Host) (traffic : list arrival) : HealthReason :=
  let t := @live amd64 (λ _, []) (table_of H) traffic in hr_Reason (Health (Some t) (Some t) false no_stamp 0).

Example Health_ex :
  state_after amd64 some_traffic = HealthReasonHealthy ∧ state_after reversed some_traffic = HealthReasonStatefulDead ∧
  state_after reversed (drop 2 some_traffic) = HealthReasonHealthy ∧
  let c := RuleCounters (@live amd64 (λ _, []) (table_of amd64) some_traffic) in
  c !! ReservedIDEstablished = Some (mkCounter 1 52 1) ∧ c !! "0123456789ab" = Some (mkCounter 1 60 1).
Proof. vm_compute. done. Qed.

Lemma ssh_rules_valid : ValidRules ssh_rules.
Proof. apply ValidateRules_spec. by vm_compute. Qed.
Lemma some_reply : reply IPv6Filter (tcp_packet 0x08080808 0x01020304 22 2 16 eth0).
Proof. by split. Qed.
Lemma some_traffic_conntrack : Forall (λ a, 0 <= pk_ct (av_packet a) < 128) some_traffic.
Proof. by repeat constructor. Qed.
Lemma ssh_rule_counted (built : Host) i :
  table_of built !! i = Some (port_rule inputChainName "tcp" (mkPortRule "0123456789ab" "22" "" true "" ["8.8.8.0/24"] "")
    (default [] (cidrMatch "8.8.8.0/24" posSrcAddr))) →
  (i, 1%nat) ∈ @visits amd64 (λ _, []) (table_of built) (mkArrival inputChainName 60 (tcp_packet 0x08080808 0x01020304 22 8 2 eth0)) →
  @operator_counted amd64 (λ _, []) (table_of built) some_traffic.
Proof. intros Hi Hv. eexists _, i, 1%nat, _. split_and!; [left|exact Hi|done|exact Hv|lia]. Qed.

Lemma stateful_alarm_means_what_it_says_witness :
  (∃ queued bytes cidrs, @ruleset amd64 netlink_conn kernel_log [] ssh_rules shipped_options container_networks (λ _, []) = Some (queued, bytes, cidrs)) ∧
  state_after amd64 some_traffic ≠ HealthReasonStatefulDead ∧ state_after reversed some_traffic = HealthReasonStatefulDead.
Proof.
  split; [do 3 eexists; vm_compute; reflexivity|]. split.
  - refine (proj1 (proj2 (stateful_alarm_means_what_it_says amd64 amd64 (H := netlink_conn) kernel_log [] no_nft ssh_rules shipped_options container_networks (λ _, [])
      _ _ _ (λ _, []) some_traffic no_stamp 0 _ _ _ _ _)) _ _).
    + vm_compute. reflexivity.
    + intros ?. constructor.
    + exact ssh_rules_valid.
    + exact some_traffic_conntrack.
    + apply Z.ltb_lt. vm_compute. reflexivity.
    + reflexivity.
    + exists (mkArrival inputChainName 52 (tcp_packet 0x08080808 0x01020304 22 2 16 eth0)). split; [right; left|]. split; [reflexivity|exact some_reply].
  - refine (proj2 (proj2 (proj2 (stateful_alarm_means_what_it_says reversed amd64 (H := netlink_conn) kernel_log [] no_nft ssh_rules shipped_options container_networks (λ _, [])
      _ _ _ (λ _, []) some_traffic no_stamp 0 _ _ _ _ _)) _ _)).
    + vm_compute. reflexivity.
    + intros ?. constructor.
    + exact ssh_rules_valid.
    + exact some_traffic_conntrack.
    + apply Z.ltb_lt. vm_compute. reflexivity.
    + discriminate.
    + assert (table_of reversed !! 37%nat = Some (port_rule inputChainName "tcp" (mkPortRule "0123456789ab" "22" "" true "" ["8.8.8.0/24"] "")
        (default [] (cidrMatch "8.8.8.0/24" posSrcAddr)))) as Hi by (vm_compute; reflexivity).
      assert ((37%nat, 1%nat) ∈ @visits amd64 (λ _, []) (table_of reversed)
        (mkArrival inputChainName 60 (tcp_packet 0x08080808 0x01020304 22 8 2 eth0))) as Hv
        by (apply (bool_decide_unpack _); vm_compute; exact I).
      exact (ssh_rule_counted reversed 37 Hi Hv).
Defined.
