(* ===== verification/Docker.v ===== *)
(** * Docker's bridges and published ports

    [src/internal/core/docker.go] and [unknown_bridges.go], with the warning of
    [nftables.go] about published ports no rule opens: which container networks
    and ports are detected, which networks the status calls unknown, and which
    ports an apply warns about.  The interfaces and the kernel's NAT rules are
    arguments; the expressions of a NAT rule are those the code looks at, and an
    interface has no IPv4-mapped address. *)
From S2P Require Import Prelude GoStrings GoNet NetString Models FeedIDs Validate Reach PacketLog FeedRanges NetBytes Nft Matchers Builders ForwardChain Ruleset InputChain ReachKernel.

Local Open Scope Z_scope.

(** ** Bridges *)

(** An address of an interface, with its prefix length; anything that is no
    [*net.IPNet] is [OtherAddr]. *)
Inductive iface_addr := Net4 (n bits : Z) | Net6 (n bits : Z) | OtherAddr.
(** [None]: the addresses cannot be listed. *)
Record iface := mkIface { if_Name : string; if_Addrs : option (list iface_addr) }.
Record bridgeNet := mkBridgeNet { bn_Iface : string; bn_CIDR : string }.

Definition isDockerInterface (name : string) : bool := HasPrefix name "docker" || HasPrefix name "br-".

(** [net.IP.IsLinkLocalUnicast] of an IPv6 address: fe80::/10. *)
Definition IsLinkLocalUnicast6 (n : Z) : bool := Z.shiftr n 118 =? 0x3fa.

Definition bridge_addr (name : string) (a : iface_addr) : list bridgeNet :=
  match a with
  | OtherAddr => []
  | Net4 n bits => [mkBridgeNet name (Prefix_String (Masked (Addr4 n) bits))]
  | Net6 n bits => if IsLinkLocalUnicast6 n then [] else [mkBridgeNet name (Prefix_String (Masked (Addr6 n "") bits))]
  end.

(** [detectDockerBridgeNets]; [None]: the interfaces cannot be listed. *)
Definition detectDockerBridgeNets (interfaces : option (list iface)) : list bridgeNet :=
  flat_map (λ i,
    if negb (isDockerInterface (if_Name i)) then []
    else match if_Addrs i with None => [] | Some addrs => flat_map (bridge_addr (if_Name i)) addrs end)
    (default [] interfaces).
Definition detectDockerBridges (interfaces : option (list iface)) : list string := map bn_CIDR (detectDockerBridgeNets interfaces).

(** ** unknown_bridges.go *)

Record UnknownBridge := mkUnknown { ub_Interface : string; ub_CIDRs : list string }.

(** One turn of the loop, on the report so far. *)
Definition add_unknown (out : list UnknownBridge) (n : bridgeNet) : list UnknownBridge :=
  match last out with
  | Some b => if String.eqb (ub_Interface b) (bn_Iface n)
              then removelast out ++ [mkUnknown (ub_Interface b) (ub_CIDRs b ++ [bn_CIDR n])]
              else out ++ [mkUnknown (bn_Iface n) [bn_CIDR n]]
  | None => [mkUnknown (bn_Iface n) [bn_CIDR n]]
  end.
Definition is_unknown (baked : list string) (mode : string) (n : bridgeNet) : bool :=
  if bool_decide (bn_CIDR n ∈ baked) then false
  else negb (String.eqb mode IPv6Block && snd (cidrFamilies [bn_CIDR n])).
Definition unknownBridges (now : list bridgeNet) (baked : list string) (mode : string) : list UnknownBridge :=
  foldl (λ out n, if is_unknown baked mode n then add_unknown out n else out) [] now.

Definition unknownBridgesWhen (enforcing dockerOn detectOn : bool) (now : list bridgeNet) (baked : list string) (mode : string)
    : list UnknownBridge :=
  if negb enforcing || negb dockerOn || negb detectOn then [] else unknownBridges now baked mode.

(** The status field. *)
Definition status_unknownBridges (enforcing engaged : bool) (net : NetworkSettings) (interfaces : option (list iface)) (baked : list string)
    : list UnknownBridge :=
  unknownBridgesWhen (enforcing && negb engaged) (Docker_Enabled (Docker net)) (AllowBridgeNetworks (Docker net))
    (detectDockerBridgeNets interfaces) baked (IPv6_Mode (IPv6 net)).

(** ** Published ports *)

(** What a DNAT target carries: revisions 1 and 2 are the same structure, of
    flags, addresses and ports. *)
Inductive target_info := NatRange (minIP : list Z) (flags minPort : Z) | OtherInfo.
Definition NatRangeProtoSpecified : Z := 2.

(** The expressions of a kernel rule that are read. *)
Inductive NatExpr :=
| NPayload (base : PayloadBase) (offset len : Z)
| NMeta (k : MetaKey)
| NImmediate (reg : Z) (data : list Z)
| NNat (dest : bool) (regAddrMin regProtoMin : Z)
| NTarget (name : string) (info : target_info)
| NCmp (op : CmpOp) (data : list Z)
| NOther.

#[global] Instance publishedPort_eq_dec : EqDecision publishedPort.
Proof. solve_decision. Defined.
#[global] Instance target_info_eq_dec : EqDecision target_info.
Proof. solve_decision. Defined.
#[global] Instance NatExpr_eq_dec : EqDecision NatExpr.
Proof. solve_decision. Defined.

Definition protoName (n : Z) : string :=
  if n =? IPPROTO_TCP then "tcp" else if n =? IPPROTO_UDP then "udp" else "".

(** [netip.AddrFromSlice] *)
Definition AddrFromSlice (b : list Z) : option addr :=
  if (length b =? 4)%nat then Some (Addr4 (be_val b)) else if (length b =? 16)%nat then Some (Addr6 (be_val b) "") else None.
(** [net.IP.String] of four or sixteen bytes. *)
Definition IP_String (b : list Z) : string := match AddrFromSlice b with Some a => Addr_String (Unmap a) | None => "" end.

Definition xtDNATTarget (info : target_info) : option (addr * Z) :=
  match info with
  | OtherInfo => None
  | NatRange ip flags port =>
      match AddrFromSlice ip with
      | None => None
      | Some a => Some (Unmap a, if Z.land flags NatRangeProtoSpecified =? 0 then 0 else port)
      end
  end.

(** The loop over the expressions: the port so far, what was loaded last, the
    immediates, and the last NAT statement and DNAT target. *)
Record reading := mkReading {
  rd_port : publishedPort;
  rd_payload : option (PayloadBase * Z * Z);
  rd_meta : option MetaKey;
  rd_imm : list (Z * list Z);
  rd_nat : option (bool * Z * Z);
  rd_target : option target_info }.

Definition with_proto (proto : string) (p : publishedPort) : publishedPort := mkPublishedPort proto (pp_addr p) (pp_port p) (pp_containerPort p).
Definition with_addr (a : string) (p : publishedPort) : publishedPort := mkPublishedPort (pp_proto p) a (pp_port p) (pp_containerPort p).
Definition with_port (n : Z) (p : publishedPort) : publishedPort := mkPublishedPort (pp_proto p) (pp_addr p) n (pp_containerPort p).
Definition with_containerPort (n : Z) (p : publishedPort) : publishedPort := mkPublishedPort (pp_proto p) (pp_addr p) (pp_port p) n.

(** An equality, against what was loaded right before it. *)
Definition read_cmp (payload : option (PayloadBase * Z * Z)) (meta : option MetaKey) (data : list Z) (p : publishedPort) : publishedPort :=
  match meta, data with
  | Some L4PROTO, [n] => with_proto (protoName n) p
  | _, _ =>
      match payload with
      | None => p
      | Some (base, off, len) =>
          let is_net := bool_decide (base = NetworkHeader) in
          if is_net && (off =? 16) && (len =? 4) && (length data =? 4)%nat then with_addr (IP_String data) p
          else if is_net && (off =? 24) && (len =? 16) && (length data =? 16)%nat then with_addr (IP_String data) p
          else if is_net && (off =? 9) && (len =? 1) && (length data =? 1)%nat then with_proto (protoName (be_val data)) p
          else if negb is_net && (off =? 2) && (len =? 2) && (length data =? 2)%nat then with_port (be_val data) p
          else p
      end
  end.

Definition read_expr (s : reading) (e : NatExpr) : reading :=
  let loaded pl mt := mkReading (rd_port s) pl mt (rd_imm s) (rd_nat s) (rd_target s) in
  match e with
  | NPayload base off len => loaded (Some (base, off, len)) None
  | NMeta k => loaded None (Some k)
  | NImmediate reg data => mkReading (rd_port s) None None ((reg, data) :: rd_imm s) (rd_nat s) (rd_target s)
  | NNat dest a p => mkReading (rd_port s) None None (rd_imm s) (Some (dest, a, p)) (rd_target s)
  | NTarget name info =>
      mkReading (rd_port s) None None (rd_imm s) (rd_nat s) (if String.eqb name "DNAT" then Some info else rd_target s)
  | NCmp CmpEq data =>
      mkReading (read_cmp (rd_payload s) (rd_meta s) data (rd_port s)) None None (rd_imm s) (rd_nat s) (rd_target s)
  | NCmp _ _ | NOther => loaded None None
  end.

Definition immediate (s : reading) (reg : Z) : list Z :=
  match find (λ x, fst x =? reg) (rd_imm s) with Some x => snd x | None => [] end.

(** The address and the port the rule translates to. *)
Definition translation (s : reading) : option (addr * Z) :=
  match rd_nat s, rd_target s with
  | Some (true, a, p), _ =>
      match AddrFromSlice (immediate s a) with
      | None => None
      | Some t =>
          let d := immediate s p in
          Some (Unmap t, if negb (p =? 0) && (length d =? 2)%nat then be_val d else 0)
      end
  | _, Some info => xtDNATTarget info
  | _, None => None
  end.

Definition publishedPortFromRule (exprs : list NatExpr) (nets : list prefix) (family6 : bool) : option publishedPort :=
  let s := foldl read_expr (mkReading (mkPublishedPort "" (if family6 then "::" else "0.0.0.0") 0 0) None None [] None None) exprs in
  let p := rd_port s in
  if pp_port p =? 0 then None
  else match translation s with
       | None => None
       | Some (target, toPort) =>
           let p := with_containerPort (if negb (toPort =? 0) then toPort else pp_port p) p in
           if existsb (λ n, Contains n target) nets then Some p else None
       end.

(** A table as the kernel lists it, each chain its rules; tables, chains or
    rules that cannot be listed are not there. *)
Record nat_table := mkNatTable { nt_v6 : bool; nt_Name : string; nt_chains : list (list (list NatExpr)) }.
Definition dockerNATTables : list string := ["nat"; "docker-bridges"].

Definition bridge_nets (cidrs : list string) : list prefix :=
  omap (λ c, if IsListComment c then None else ParseNetwork c) cidrs.
Definition detectPublishedPorts (cidrs : list string) (tables : list nat_table) : list publishedPort :=
  let nets := bridge_nets cidrs in
  if bool_decide (nets = []) then []
  else
    flat_map (λ v6 : bool,
      flat_map (λ t, if bool_decide (nt_Name t ∈ dockerNATTables)
                     then omap (λ r, publishedPortFromRule r nets v6) (concat (nt_chains t)) else [])
        (filter (λ t, nt_v6 t = v6) tables)) [false; true].

(** The ports [warnUnruledPublishedPorts] names. *)
Definition warns (rules : Rules) (p : publishedPort) : bool :=
  if match ParseAddr (pp_addr p) with Some a => IsLoopback a | None => false end then false
  else negb (forwardedRuleCovers rules p).
Definition warnUnruledPublishedPorts (rules : Rules) (cidrs : list string) (tables : list nat_table) : list publishedPort :=
  filter (λ p, warns rules p = true) (detectPublishedPorts cidrs tables).

(** ** What the detection finds *)

(** What a rule of this family is read as. *)
Definition read_rule (exprs : list NatExpr) (family6 : bool) : reading :=
  foldl read_expr (mkReading (mkPublishedPort "" (if family6 then "::" else "0.0.0.0") 0 0) None None [] None None) exprs.

Lemma publishedPortFromRule_spec exprs nets v6 p :
  publishedPortFromRule exprs nets v6 = Some p ↔
  ∃ target toPort, pp_port (rd_port (read_rule exprs v6)) ≠ 0 ∧ translation (read_rule exprs v6) = Some (target, toPort) ∧
    (∃ n, n ∈ nets ∧ Contains n target = true) ∧
    p = with_containerPort (if negb (toPort =? 0) then toPort else pp_port (rd_port (read_rule exprs v6))) (rd_port (read_rule exprs v6)).
Proof.
  unfold publishedPortFromRule. fold (read_rule exprs v6). cbv zeta. destruct (Z.eqb_spec (pp_port (rd_port (read_rule exprs v6))) 0) as [E|E].
  { split; [done|]. by intros (? & ? & ? & _). }
  destruct (translation (read_rule exprs v6)) as [[target toPort]|]; [|split; [done|]; by intros (? & ? & _ & ? & _)].
  destruct (existsb (λ n, Contains n target) nets) eqn:Ex.
  - apply existsb_exists in Ex as (n & Hn%list_elem_of_In & Hc). split.
    + intros [= <-]. exists target, toPort. by eauto 10.
    + by intros (t & tp & _ & [= <- <-] & _ & ->).
  - split; [done|]. intros (t & tp & _ & [= <- <-] & (n & Hn & Hc) & _). exfalso. apply not_true_iff_false in Ex. apply Ex, existsb_exists.
    exists n. split; [by apply list_elem_of_In|done].
Qed.

Lemma bridge_nets_spec n cidrs : n ∈ bridge_nets cidrs ↔ ∃ c, c ∈ cidrs ∧ IsListComment c = false ∧ ParseNetwork c = Some n.
Proof.
  unfold bridge_nets. rewrite list_elem_of_omap. split; intros (c & Hc & H); exists c; (split; [done|]);
    destruct (IsListComment c); naive_solver.
Qed.

(** A published port is some rule of a table Docker writes. *)
Lemma detectPublishedPorts_spec p cidrs tables :
  p ∈ detectPublishedPorts cidrs tables ↔
  ∃ t r, t ∈ tables ∧ nt_Name t ∈ dockerNATTables ∧ r ∈ concat (nt_chains t) ∧
    publishedPortFromRule r (bridge_nets cidrs) (nt_v6 t) = Some p.
Proof.
  unfold detectPublishedPorts. cbv zeta. destruct (bool_decide_reflect (bridge_nets cidrs = [])) as [->|Hne].
  { split; [by intros ?%not_elem_of_nil|]. intros (t & r & _ & _ & _ & H). apply publishedPortFromRule_spec in H as (? & ? & _ & _ & (n & Hn & _) & _).
    by apply not_elem_of_nil in Hn. }
  assert (∀ {A} (f : A → list publishedPort) l, p ∈ flat_map f l ↔ ∃ x, x ∈ l ∧ p ∈ f x) as Hfm
    by (intros A f l; rewrite list_elem_of_In, in_flat_map; split; intros (x & Hx & Hp); exists x; by rewrite ?list_elem_of_In in *).
  rewrite Hfm. split.
  - intros (v6 & _ & (t & [Hv Ht]%list_elem_of_filter & H)%Hfm). destruct (bool_decide_reflect (nt_Name t ∈ dockerNATTables)); [|by apply not_elem_of_nil in H].
    apply list_elem_of_omap in H as (r & Hr & H). exists t, r. by rewrite Hv.
  - intros (t & r & Ht & Hn & Hr & H). exists (nt_v6 t). split; [destruct (nt_v6 t); set_solver|]. apply Hfm. exists t.
    split; [by apply list_elem_of_filter|]. rewrite bool_decide_true by done. apply list_elem_of_omap. by exists r.
Qed.

(** ** The warning and the chain *)

Lemma cidrFamilies_has cidrs c n :
  c ∈ cidrs → IsListComment c = false → ParseNetwork c = Some n →
  (if Is4 (p_addr n) then fst (cidrFamilies cidrs) else snd (cidrFamilies cidrs)) = true.
Proof.
  assert (∀ l v4 v6, (v4 = true → fst (cidrFamilies_loop l v4 v6) = true) ∧ (v6 = true → snd (cidrFamilies_loop l v4 v6) = true)) as Hmono.
  { induction l as [|x l IH]; intros v4 v6; [done|]. cbn [cidrFamilies_loop]. destruct (IsListComment x); [apply IH|].
    destruct (ParseNetwork x) as [q|]; [|apply IH]. destruct (Is4 (p_addr q)); split; intros ?; by apply IH. }
  intros Hc Hn Hp. unfold cidrFamilies.
  assert (∀ v4 v6, (if Is4 (p_addr n) then fst (cidrFamilies_loop cidrs v4 v6) else snd (cidrFamilies_loop cidrs v4 v6)) = true) as H; [|apply H].
  induction cidrs as [|x l IH]; intros v4 v6; [by apply not_elem_of_nil in Hc|]. cbn [cidrFamilies_loop].
  apply elem_of_cons in Hc as [<-|Hc].
  - rewrite Hn, Hp. destruct (Is4 (p_addr n)); by apply Hmono.
  - destruct (IsListComment x); [by apply IH|]. destruct (ParseNetwork x) as [q|]; [|by apply IH]. destruct (Is4 (p_addr q)); by apply IH.
Qed.

Definition plain_ports (rules : Rules) : Prop := Forall (λ r, "+"%char ∉ bytes (Port r)) (TCP rules ++ UDP rules).

Section Warning.
Context (pk : Packet) (src dst : addr) (rules : Rules) (p : publishedPort) (cidrs : list string) (ipv6 : string).
Context (Hv : ValidRules rules) (Hplain : plain_ports rules).
Context (Hproto : pp_proto p = "tcp" ∨ pp_proto p = "udp") (Hl4 : pk_l4proto pk = protoNum (pp_proto p)).

Lemma rule_port r : r ∈ TCP rules ++ UDP rules → in_port r (pp_containerPort p) = PortInRule (Port r) (pp_containerPort p).
Proof using Hv Hplain.
  intros Hr. apply in_port_PortInRule; [|by apply (proj1 (Forall_forall _ _) Hplain)].
  apply elem_of_app in Hr as [Hr|Hr]; [by apply (proj1 (Forall_forall _ _) (vr_tcp _ Hv))|by apply (proj1 (Forall_forall _ _) (vr_udp _ Hv))].
Qed.

(** The list the packet's protocol is looked up in is the one it is covered by. *)
Definition proto_rules : list PortRule := if String.eqb (pp_proto p) "tcp" then TCP rules else UDP rules.

Lemma covers_proto : forwardedRuleCovers rules p =
  existsb (λ r, FiltersForwarded r && bool_decide (Sources r = []) && PortInRule (Port r) (pp_containerPort p)) proto_rules.
Proof using Hproto.
  unfold forwardedRuleCovers, proto_rules. destruct Hproto as [->| ->]; cbn; by rewrite orb_false_r.
Qed.

Lemma proto_rules_in r : r ∈ proto_rules → r ∈ TCP rules ++ UDP rules.
Proof using. clear. unfold proto_rules. intros Hr. apply elem_of_app. destruct (String.eqb _ _); [by left|by right]. Qed.

Lemma any_opens_proto : any_opens pk src (pp_containerPort p) rules cidrs ipv6 =
  existsb (forward_opens pk src (pp_containerPort p) (pp_proto p) (fst (cidrFamilies cidrs)) (snd (cidrFamilies cidrs)) ipv6) proto_rules.
Proof using Hproto Hl4.
  unfold any_opens, proto_rules. destruct (cidrFamilies cidrs) as [v4 v6]. cbn [fst snd].
  assert (∀ proto l, protoNum proto ≠ protoNum (pp_proto p) → existsb (forward_opens pk src (pp_containerPort p) proto v4 v6 ipv6) l = false) as Hno.
  { intros proto l Hne. induction l as [|r l IH]; [done|]. cbn [existsb]. rewrite IH, orb_false_r. unfold forward_opens.
    rewrite Hl4, (proj2 (Z.eqb_neq _ _)) by done. by rewrite andb_false_r. }
  destruct Hproto as [E|E]; rewrite E in *; cbn [String.eqb Ascii.eqb Bool.eqb].
  - rewrite (Hno "udp") by done. by rewrite orb_false_r.
  - by rewrite (Hno "tcp") by done.
Qed.

(** A covered port is open to every source of a family that has a network. *)
Lemma covered_opens :
  forwardedRuleCovers rules p = true →
  (if Is4 src then fst (cidrFamilies cidrs) else snd (cidrFamilies cidrs)) = true →
  any_opens pk src (pp_containerPort p) rules cidrs ipv6 = true.
Proof using Hv Hplain Hproto Hl4.
  rewrite covers_proto, any_opens_proto, !existsb_exists. intros (r & Hr & Hc) Hf. exists r. split; [done|].
  apply andb_true_iff in Hc as [[Hff Hs]%andb_true_iff Hp]. unfold forward_opens, rule_opens.
  rewrite Hff, Hl4, Z.eqb_refl, Hs, rule_port, Hp by (apply proto_rules_in; by apply list_elem_of_In). cbn. exact Hf.
Qed.

(** A port that is not is closed to a source no rule names. *)
Lemma uncovered_closed :
  forwardedRuleCovers rules p = false → Forall (λ r, InAnyEntry src (Sources r) = false) proto_rules →
  any_opens pk src (pp_containerPort p) rules cidrs ipv6 = false.
Proof using Hv Hplain Hproto Hl4.
  rewrite covers_proto, any_opens_proto. intros Hc HS. apply not_true_iff_false. rewrite existsb_exists. intros (r & Hr%list_elem_of_In & Ho).
  apply not_true_iff_false in Hc. apply Hc, existsb_exists. exists r. split; [by apply list_elem_of_In|].
  unfold forward_opens, rule_opens in Ho. rewrite (proj1 (Forall_forall _ _) HS r Hr), orb_false_r, rule_port in Ho by by apply proto_rules_in.
  rewrite !andb_true_iff in Ho. destruct Ho as [[[-> _] [-> ->]] _]. done.
Qed.
End Warning.

(** Over any rule the detection reads as a published port. *)
Lemma unwarned_ports_are_open `{Host} `{NftConn} sink detected nft rules opts net feeds queued bytes cidrs
    sets tables t r p target toPort pk src :
  ruleset sink detected rules opts net feeds = Some (queued, bytes, cidrs) →
  (∀ cmds, Forall (λ r, r_chain r = inputChainName) (nft cmds)) →
  ValidRules rules → plain_ports rules → Forall entry_valid detected → Forall entry_valid (CustomNetworks (Docker net)) →
  Forall entry_valid (Routing_Networks (Routing net)) → FiltersPublishedPorts (Docker net) = true →
  t ∈ tables → nt_Name t ∈ dockerNATTables → r ∈ concat (nt_chains t) →
  publishedPortFromRule r (bridge_nets cidrs) (nt_v6 t) = Some p →
  translation (read_rule r (nt_v6 t)) = Some (target, toPort) →
  (pp_proto p = "tcp" ∨ pp_proto p = "udp") → pk_l4proto pk = protoNum (pp_proto p) →
  forwarded pk src target (pp_containerPort p) → Z.land (pk_ct pk) 6 = 0 →
  lists_refuse src target sets rules (Routing net) cidrs = false →
  let verdict := base_chain sets pk (table_rules sink nft rules opts queued) forwardChainName (forward_policy net) in
  (p ∉ warnUnruledPublishedPorts rules cidrs tables →
     match ParseAddr (pp_addr p) with Some a => IsLoopback a = false | None => True end → verdict = Accepted) ∧
  (p ∈ warnUnruledPublishedPorts rules cidrs tables → InAnyEntry src cidrs = false →
     Forall (λ r, InAnyEntry src (Sources r) = false) (proto_rules rules p) → verdict = Dropped).
Proof.
  intros Hq Hnft Hv Hplain Hd Hc Hr Hfp Ht Hn Hin Hp Htr Hproto Hl4 Hfw Hct Hl verdict.
  assert (p ∈ detectPublishedPorts cidrs tables) as Hdet by (apply detectPublishedPorts_spec; by exists t, r).
  apply publishedPortFromRule_spec in Hp as (target' & toPort' & _ & Htr' & (n & Hn' & Hcon) & _). rewrite Htr in Htr'. injection Htr' as <- <-.
  apply bridge_nets_spec in Hn' as (c & Hcc & Hcm & Hcp).
  pose proof (aa_ok _ _ _ (fw_dst _ _ _ _ Hfw)) as Ha.
  assert (Is4 src = Is4 target) as Hsame by exact (same_family pk src target (pp_containerPort p) Hfw).
  pose proof Hcon as Hfam. rewrite Contains_mask in Hfam by (done || by eapply ParseNetwork_ok).
  apply andb_true_iff in Hfam as [Hfam%bool_decide_eq_true _].
  pose proof (cidrFamilies_has cidrs c n Hcc Hcm Hcp) as Hflag. rewrite <- Hfam, <- Hsame in Hflag.
  assert (forwardPortRulesRender (Docker net) cidrs = true) as Hrender.
  { unfold forwardPortRulesRender. destruct (cidrFamilies cidrs) as [v4 v6]. rewrite Hfp. cbn in *. destruct (Is4 src), v4, v6; done. }
  unfold verdict. rewrite (forward_chain_decides sink detected nft rules opts net feeds queued bytes cidrs sets pk src target (pp_containerPort p)) by done.
  unfold forward_verdict. rewrite Hrender, Hct, Hl. cbn [negb andb Z.eqb].
  split.
  - intros Hw Hloop. assert (forwardedRuleCovers rules p = true) as Hcov; [|by rewrite (covered_opens pk src rules p cidrs (IPv6_Mode (IPv6 net)) Hv Hplain Hproto Hl4 Hcov Hflag)].
    unfold warnUnruledPublishedPorts in Hw. rewrite list_elem_of_filter in Hw.
    destruct (forwardedRuleCovers rules p) eqn:E; [done|]. destruct Hw. split; [|done]. unfold warns. rewrite E.
    destruct (ParseAddr (pp_addr p)); [by rewrite Hloop|done].
  - intros [Hw _]%list_elem_of_filter Hout HS.
    assert (forwardedRuleCovers rules p = false) as Hno.
    { unfold warns in Hw. destruct (match ParseAddr _ with Some _ => _ | None => _ end); [done|]. by apply negb_true_iff. }
    rewrite (uncovered_closed pk src rules p cidrs (IPv6_Mode (IPv6 net)) Hv Hplain Hproto Hl4 Hno HS).
    assert (existsb (enters_bridge src target) cidrs = true) as ->; [|done].
    apply existsb_exists. exists c. split; [by apply list_elem_of_In|]. unfold enters_bridge.
    assert (Forall entry_valid cidrs) as Hvalid.
    { destruct (ruleset_parts sink detected rules opts net feeds queued bytes cidrs Hq) as (? & ? & _ & -> & _). by apply apply_cidrs_valid. }
    rewrite cidr_entry_covers; [|done|by apply (proj1 (Forall_forall _ _) Hvalid)|unfold cidr_covers; by rewrite Hcm, Hcp].
    apply negb_true_iff. apply not_true_iff_false. intros Hs. apply not_true_iff_false in Hout. apply Hout, existsb_exists. exists c. split; [by apply list_elem_of_In|done].
Qed.

(** ** Unknown bridges *)

(** The networks of a report, each with its bridge. *)
Definition reported (l : list UnknownBridge) : list bridgeNet := flat_map (λ b, map (mkBridgeNet (ub_Interface b)) (ub_CIDRs b)) l.

Lemma reported_app a b : reported (a ++ b) = reported a ++ reported b.
Proof. apply flat_map_app. Qed.

Lemma add_unknown_reported out n : reported (add_unknown out n) = reported out ++ [n].
Proof.
  unfold add_unknown. destruct n as [i c]. cbn [bn_Iface bn_CIDR]. destruct (last out) as [b|] eqn:E.
  - apply last_Some in E as [l ->]. destruct (String.eqb_spec (ub_Interface b) i) as [<-|_]; [|by rewrite reported_app].
    rewrite removelast_last, !reported_app, <- app_assoc. f_equal. cbn. rewrite !app_nil_r. by rewrite map_app.
  - apply last_None in E as ->. done.
Qed.

Lemma unknownBridges_reported now baked mode : reported (unknownBridges now baked mode) = filter (λ n, is_unknown baked mode n = true) now.
Proof.
  unfold unknownBridges. assert (∀ out, reported (foldl (λ out n, if is_unknown baked mode n then add_unknown out n else out) out now) =
    reported out ++ filter (λ n, is_unknown baked mode n = true) now) as H; [|apply H].
  induction now as [|n now IH]; intros out; [by rewrite app_nil_r|]. cbn [foldl]. rewrite IH, filter_cons.
  destruct (is_unknown baked mode n); cbn [decide]; [|done]. by rewrite add_unknown_reported, <- app_assoc.
Qed.

Lemma unknownBridges_nil now baked mode : filter (λ n, is_unknown baked mode n = true) now = [] → unknownBridges now baked mode = [].
Proof.
  unfold unknownBridges. generalize (@nil UnknownBridge). induction now as [|n now IH]; intros out; [done|]. rewrite filter_cons. cbn [foldl].
  destruct (is_unknown baked mode n); [done|]. apply IH.
Qed.

Lemma one_family_v6 c : snd (cidrFamilies [c]) = negb (kept_without_IPv6 c).
Proof.
  unfold cidrFamilies, kept_without_IPv6. cbn. destruct (IsListComment c); [done|]. destruct (ParseNetwork c) as [q|]; [|done].
  by destruct (Is4 (p_addr q)).
Qed.

(** The status names exactly the container networks a new apply would add.
    While rules are in force and detection is on, the networks it reports are,
    bridge by bridge and in the order of detection, those of the bridges there
    are now that the networks of an apply made now would hold and those of the
    rules in force do not; so right after an apply, and whenever nothing would
    be added, it names none. *)
Theorem unknown_bridges_are_what_an_apply_adds net interfaces baked engaged enforcing :
  Docker_Enabled (Docker net) = true → AllowBridgeNetworks (Docker net) = true → enforcing = true → engaged = false →
  let report := status_unknownBridges enforcing engaged net interfaces baked in
  let wanted := apply_cidrs (detectDockerBridges interfaces) net in
  reported report = filter (λ n, bn_CIDR n ∈ wanted ∧ bn_CIDR n ∉ baked) (detectDockerBridgeNets interfaces) ∧
  (report = [] ↔ ∀ n, n ∈ detectDockerBridgeNets interfaces → bn_CIDR n ∈ wanted → bn_CIDR n ∈ baked) ∧
  (baked = wanted → report = []).
Proof.
  intros He Ha -> -> report wanted.
  assert (reported report = filter (λ n, bn_CIDR n ∈ wanted ∧ bn_CIDR n ∉ baked) (detectDockerBridgeNets interfaces)) as Hrep.
  { unfold report, status_unknownBridges, unknownBridgesWhen. rewrite He, Ha. cbn [andb orb negb]. rewrite unknownBridges_reported.
    apply filter_ext_in. intros n Hn. unfold is_unknown. rewrite one_family_v6.
    assert (bn_CIDR n ∈ wanted ↔ String.eqb (IPv6_Mode (IPv6 net)) IPv6Block && negb (kept_without_IPv6 (bn_CIDR n)) = false) as ->.
    { unfold wanted, apply_cidrs, containerNetworks. rewrite He, Ha. cbn [andb negb].
      assert (bn_CIDR n ∈ detectDockerBridges interfaces) as Hd by by apply list_elem_of_fmap_2.
      destruct (String.eqb (IPv6_Mode (IPv6 net)) IPv6Block); cbn [andb].
      - unfold withoutIPv6. rewrite list_elem_of_filter, negb_false_iff, elem_of_app. naive_solver.
      - rewrite elem_of_app. naive_solver. }
    destruct (bool_decide_reflect (bn_CIDR n ∈ baked)); [naive_solver|]. rewrite negb_true_iff. naive_solver. }
  split; [exact Hrep|]. assert (report = [] ↔ filter (λ n, bn_CIDR n ∈ wanted ∧ bn_CIDR n ∉ baked) (detectDockerBridgeNets interfaces) = []) as Hnil.
  { rewrite <- Hrep. split; [by intros ->|]. unfold report, status_unknownBridges, unknownBridgesWhen. rewrite He, Ha. cbn [andb orb negb].
    rewrite unknownBridges_reported. apply unknownBridges_nil. }
  rewrite Hnil, filter_nil_iff. split; [|intros -> n _; tauto].
  split; intros H n Hn; specialize (H n Hn); [|tauto]. intros Hw. destruct (decide (bn_CIDR n ∈ baked)); tauto.
Qed.

(** ** Docker's rules are read *)

(** A rule that sends [proto] packets to [daddr]:[port], on any address where
    there is none, to [target]:[cport]: nftables writes a NAT statement over two
    registers, iptables a target. *)
Definition dnat_matches (daddr : option addr) (proto port : Z) : list NatExpr :=
  match daddr with
  | Some a => [NPayload NetworkHeader (if Is4 a then 16 else 24) (if Is4 a then 4 else 16); NCmp CmpEq (AsSlice a)]
  | None => []
  end ++ [NMeta L4PROTO; NCmp CmpEq [proto]; NPayload TransportHeader 2 2; NCmp CmpEq (be_bytes 2 port)].
Definition nft_dnat (target : addr) (cport : Z) : list NatExpr :=
  [NImmediate 1 (AsSlice target); NImmediate 2 (be_bytes 2 cport); NNat true 1 2].
Definition xt_dnat (target : addr) (cport : Z) : list NatExpr := [NOther; NTarget "DNAT" (NatRange (AsSlice target) 3 cport)].

Lemma AddrFromSlice_AsSlice a : addr_ok a → AddrFromSlice (AsSlice a) = Some a.
Proof.
  intros [Ha Hz]. destruct a as [n|n z]; cbn in Hz; unfold AddrFromSlice, AsSlice; rewrite length_be_bytes; cbn [Nat.eqb].
  - rewrite be_val_be_bytes; [done|]. exact Ha.
  - rewrite be_val_be_bytes by exact Ha. by subst.
Qed.

Lemma docker_rule_is_read daddr proto port target cport nets v6 (to_target : list NatExpr) :
  (proto = IPPROTO_TCP ∨ proto = IPPROTO_UDP) → 0 < port < 65536 → 0 < cport < 65536 →
  (∀ a, daddr = Some a → addr_ok a ∧ Is4In6 a = false) → addr_ok target → Is4In6 target = false →
  (∃ n, n ∈ nets ∧ Contains n target = true) →
  to_target = nft_dnat target cport ∨ to_target = xt_dnat target cport →
  let r := dnat_matches daddr proto port ++ to_target in
  publishedPortFromRule r nets v6 =
    Some (mkPublishedPort (protoName proto) (match daddr with Some a => Addr_String a | None => if v6 then "::" else "0.0.0.0" end) port cport) ∧
  translation (read_rule r v6) = Some (target, cport).
Proof.
  intros Hproto Hport Hc Hd Ht Htm Hn Hto r.
  set (p0 := mkPublishedPort (protoName proto) (match daddr with Some a => Addr_String a | None => if v6 then "::" else "0.0.0.0" end) port 0).
  assert (∃ pl, foldl read_expr (mkReading (mkPublishedPort "" (if v6 then "::" else "0.0.0.0") 0 0) None None [] None None) (dnat_matches daddr proto port) =
    mkReading p0 pl None [] None None) as (pl & Hm).
  { exists None. unfold dnat_matches. rewrite foldl_app. destruct daddr as [a|].
    - destruct (Hd a eq_refl) as [Ha Hma]. assert (IP_String (AsSlice a) = Addr_String a) as Es
        by (unfold IP_String; by rewrite AddrFromSlice_AsSlice, Unmap_id).
      cbn [foldl read_expr rd_payload rd_meta rd_port rd_imm rd_nat rd_target].
      assert (read_cmp (Some (NetworkHeader, if Is4 a then 16 else 24, if Is4 a then 4 else 16)) None (AsSlice a)
        (mkPublishedPort "" (if v6 then "::" else "0.0.0.0") 0 0) = mkPublishedPort "" (Addr_String a) 0 0) as ->.
      { unfold read_cmp. rewrite bool_decide_true by done. pose proof (length_AsSlice a) as HL.
        destruct (Is4 a); cbn [andb Z.eqb Pos.eqb].
        - rewrite (proj2 (Nat.eqb_eq (length (AsSlice a)) 4)) by lia. unfold with_addr. cbn. by rewrite Es.
        - rewrite (proj2 (Nat.eqb_eq (length (AsSlice a)) 16)) by lia. unfold with_addr. cbn. by rewrite Es. }
      unfold read_cmp, p0, with_proto, with_port. rewrite be_val_be_bytes by (change (256 ^ Z.of_nat 2) with 65536; lia).
      rewrite length_be_bytes. done.
    - cbn [foldl read_expr rd_payload rd_meta rd_port rd_imm rd_nat rd_target]. unfold read_cmp, p0, with_proto, with_port.
      rewrite be_val_be_bytes by (change (256 ^ Z.of_nat 2) with 65536; lia). rewrite length_be_bytes. done. }
  assert (be_val (be_bytes 2 cport) = cport) as Hcv by (apply be_val_be_bytes; change (256 ^ Z.of_nat 2) with 65536; lia).
  assert (translation (read_rule r v6) = Some (target, cport) ∧ rd_port (read_rule r v6) = p0) as [Htr Hp].
  { unfold read_rule, r. rewrite foldl_app, Hm. destruct Hto as [->| ->].
    - cbn [nft_dnat foldl read_expr rd_payload rd_meta rd_port rd_imm rd_nat rd_target]. split; [|done].
      unfold translation, immediate. cbn [rd_nat rd_imm find fst snd Z.eqb Pos.eqb]. rewrite AddrFromSlice_AsSlice by done.
      rewrite length_be_bytes. cbn [negb andb Nat.eqb]. by rewrite Hcv, Unmap_id.
    - cbn [xt_dnat foldl read_expr rd_payload rd_meta rd_port rd_imm rd_nat rd_target String.eqb Ascii.eqb Bool.eqb]. split; [|done].
      unfold translation, xtDNATTarget. cbn [rd_nat rd_target]. rewrite AddrFromSlice_AsSlice by done. cbn. by rewrite Unmap_id. }
  split; [|done]. apply publishedPortFromRule_spec. exists target, cport. rewrite Hp. split_and!; [cbn; lia|done|done|].
  rewrite (proj2 (Z.eqb_neq _ _)) by lia. done.
Qed.


(** ** The boot reconciler *)

(** What happens while it waits: a poll, with the networks found and those of
    the last restore, the deadline, or the stop of the daemon. *)
Inductive reconcile_event := RTick (found boot : list string) | RDeadline | RQuit.
Inductive reconcile_end := REndRestore (found : list string) | REndGaveUp | REndQuit | REndNothing.

Fixpoint reconcile_loop (events : list reconcile_event) : reconcile_end :=
  match events with
  | [] => REndNothing
  | RQuit :: _ => REndQuit
  | RDeadline :: _ => REndGaveUp
  | RTick found boot :: events =>
      if bool_decide (found = []) || bool_decide (found = boot) then reconcile_loop events else REndRestore found
  end.
Definition reconcileDockerBridges (docker : DockerConfig) (engaged : bool) (boot : list string) (events : list reconcile_event) : reconcile_end :=
  if negb (Docker_Enabled docker) || negb (AllowBridgeNetworks docker) then REndNothing
  else if engaged then REndNothing
  else if negb (bool_decide (boot = [])) then REndNothing
  else reconcile_loop events.

(** ** A host with containers *)

Definition docker_bridge : iface := mkIface "br-4f2a" (Some [Net4 0xAC140001 16; Net6 (0xfe80 * 2 ^ 112 + 1) 64; Net6 (0xfd00 * 2 ^ 112 + 1) 64]).
Definition docker_nat : nat_table :=
  mkNatTable false "nat" [[dnat_matches None IPPROTO_TCP 8443 ++ xt_dnat (Addr4 0xAC140005) 443;
                           dnat_matches (Some (Addr4 0x0A000005)) IPPROTO_TCP 9000 ++ nft_dnat (Addr4 0xAC140006) 5432;
                           dnat_matches (Some (Addr4 0x7F000001)) IPPROTO_TCP 8081 ++ xt_dnat (Addr4 0xAC140007) 80;
                           dnat_matches None IPPROTO_TCP 53 ++ nft_dnat (Addr4 0x0A000007) 53]].

Example detectDockerBridges_ex :
  detectDockerBridgeNets (Some [mkIface "eth0" (Some [Net4 0xC0A80002 24]); docker_bridge; mkIface "docker0" None]) =
    [mkBridgeNet "br-4f2a" "172.20.0.0/16"; mkBridgeNet "br-4f2a" "fd00::/64"] ∧
  unknownBridges (detectDockerBridgeNets (Some [docker_bridge])) ["10.0.0.0/8"] IPv6Filter = [mkUnknown "br-4f2a" ["172.20.0.0/16"; "fd00::/64"]] ∧
  unknownBridges (detectDockerBridgeNets (Some [docker_bridge])) ["10.0.0.0/8"] IPv6Block = [mkUnknown "br-4f2a" ["172.20.0.0/16"]] ∧
  reconcileDockerBridges (mkDockerConfig true true [] "") false [] [RTick [] []; RTick ["172.20.0.0/16"] []; RDeadline] = REndRestore ["172.20.0.0/16"].
Proof. vm_compute. done. Qed.

Example warnUnruledPublishedPorts_ex :
  detectPublishedPorts ["172.20.0.0/16"] [docker_nat] =
    [mkPublishedPort "tcp" "0.0.0.0" 8443 443; mkPublishedPort "tcp" "10.0.0.5" 9000 5432; mkPublishedPort "tcp" "127.0.0.1" 8081 80] ∧
  warnUnruledPublishedPorts container_rules ["172.20.0.0/16"] [docker_nat] = [mkPublishedPort "tcp" "10.0.0.5" 9000 5432].
Proof. vm_compute. done. Qed.

Lemma container_rules_plain : plain_ports container_rules.
Proof. apply (bool_decide_unpack _). vm_compute. exact I. Qed.


Definition bridge_networks : NetworkSettings :=
  mkNetworkSettings (mkIPv6Config IPv6Block false true true) (mkDockerConfig true true [] PublishedPortsFiltered) (mkRoutingConfig RoutingClosed []).

Lemma unknown_bridges_are_what_an_apply_adds_witness :
  reported (status_unknownBridges true false bridge_networks (Some [docker_bridge]) []) = [mkBridgeNet "br-4f2a" "172.20.0.0/16"] ∧
  status_unknownBridges true false bridge_networks (Some [docker_bridge]) (apply_cidrs (detectDockerBridges (Some [docker_bridge])) bridge_networks) = [].
Proof.
  split.
  - etrans; [exact (proj1 (unknown_bridges_are_what_an_apply_adds bridge_networks (Some [docker_bridge]) [] false true eq_refl eq_refl eq_refl eq_refl))|].
    vm_compute. reflexivity.
  - exact (proj2 (proj2 (unknown_bridges_are_what_an_apply_adds bridge_networks (Some [docker_bridge])
      (apply_cidrs (detectDockerBridges (Some [docker_bridge])) bridge_networks) false true eq_refl eq_refl eq_refl eq_refl)) eq_refl).
Defined.
