(* ===== verification/SecondFactor.v ===== *)
(** * One-time and recovery codes

    [src/internal/web/totp.go], [totpreplay.go] and [recovery.go]: the code an
    authenticator shows, the step it belongs to, the record that makes a step
    usable once, and the eight codes on the printout.  The current time is an
    argument in nanoseconds; random bytes, the outcome of a file write and the
    password hash are arguments too. *)
From S2P Require Import Prelude GoStrings GoNet FeedIDs GoCrypto GoRunes.

Local Open Scope Z_scope.

Definition nanosecond_per_second : Z := 10 ^ 9.
(** [t.Unix()] *)
Definition Unix (now : Z) : Z := now / nanosecond_per_second.

(** ** totp.go *)

Definition totpPeriod : Z := 30.
Definition totpDigits : nat := 6.
Definition totpSecretBytes : nat := 20.
Definition totpWindowLogin : nat := 1.
Definition totpWindowEnrol : nat := 10.

(** [fmt.Sprintf("%0*d", digits, n)] *)
Definition zero_pad (digits : nat) (s : string) : string :=
  of_bytes (replicate (digits - String.length s) "0"%char) +:+ s.

(** The loop's [mod *= 10] on a [uint32]. *)
Definition pow10_32 (digits : nat) : Z := Nat.iter digits (λ m, w32 (m * 10)) 1.

(** [sum[offset:offset+4]] and the reduction, from the HMAC of the counter. *)
Definition hotp (mac : list Z → list Z → list Z) (secret : list Z) (counter : Z) (digits : nat) : string :=
  let sum := mac secret (put_be 8 counter) in
  let offset := Z.land (List.last sum 0) 0x0f in
  let truncated := Z.land (be_val (take 4 (drop (Z.to_nat offset) sum))) 0x7fffffff in
  zero_pad digits (Itoa (truncated mod pow10_32 digits)).

Definition stepAt (now : Z) : Z := Unix now mod 2 ^ 64 / totpPeriod.

Definition totpAt (secret : list Z) (step : Z) : string := hotp (hmac sha1) secret step totpDigits.

#[global] Arguments hotp : simpl never.
#[global] Arguments totpAt : simpl never.

(** [matchTOTP]: the whole window is scanned and the first match kept. *)
Definition window_offsets (window : nat) : list Z :=
  map (λ i, Z.of_nat i - Z.of_nat window) (seq 0 (2 * window + 1)).

Definition match_step (secret : list Z) (code : string) (cur : Z) (acc : option (Z * Z)) (d : Z) :
    option (Z * Z) :=
  let c := cur + d in
  if c <? 0 then acc
  else if String.eqb (totpAt secret c) code then match acc with Some _ => acc | None => Some (c, d) end
  else acc.

Definition matchTOTP (secret : list Z) (now : Z) (code : string) (window : nat) : option (Z * Z) :=
  foldl (match_step secret code (stepAt now)) None (window_offsets window).

Definition newTOTPSecret (raw : option (list Z)) : option string := base32_EncodeToString <$> raw.

Section unicode.
(** [unicode.ToUpper] *)
Context (up : Z → Z).

(** [strings.NewReplacer(" ", "", "-", "", "=", "")] *)
Definition strip_separators (s : string) : string :=
  of_bytes (filter (λ c, c ∉ [" "; "-"; "="]%char) (bytes s)).

Definition decodeTOTPSecret (s : string) : option (list Z) :=
  match base32_DecodeString (ToUpperU up (strip_separators s)) with
  | Some [] | None => None
  | Some raw => Some raw
  end.

(** [formatTOTPSecret]: [i] is the byte index of the rune. *)
Fixpoint format_aux (fuel : nat) (i : Z) (l : list ascii) : list ascii :=
  match fuel, l with
  | S fuel, c :: l =>
      let '(r, rest) := decode_rune c l in
      (if (0 <? i) && (i mod 4 =? 0) then [" "%char] else []) ++ append_rune r ++
      format_aux fuel (i + 1 + Z.of_nat (length l - length rest)) rest
  | _, _ => []
  end.
Definition formatTOTPSecret (s : string) : string :=
  of_bytes (format_aux (length (bytes s)) 0 (bytes s)).

(** ** recovery.go *)

Definition recoveryAlphabet : list ascii := bytes "0123456789ABCDEFGHJKMNPQRSTVWXYZ".
Definition recoveryGroupLen : nat := 5.
Definition recoveryCodeLen : nat := 2 * recoveryGroupLen.
Definition recoveryCodeCount : nat := 8.

Definition recovery_symbol (v : Z) : ascii := nth (Z.to_nat (v mod 32)) recoveryAlphabet "0"%char.

Definition newRecoveryCode (raw : list Z) : string :=
  let syms := map recovery_symbol raw in
  of_bytes (take recoveryGroupLen syms ++ "-"%char :: drop recoveryGroupLen syms).

(** [newRecoveryCodes]: one draw of the random source and of the password hash
    per turn of the loop ([None] is a source that failed); a code already seen
    is drawn again.  The result is [None] when a draw failed before there were
    eight, or when the draws given ran out. *)
Fixpoint recovery_loop (draws : list (option (list Z * (string → string)))) (plain hashes : list string) :
    option (list string * list string) :=
  if (recoveryCodeCount <=? length plain)%nat then Some (plain, hashes)
  else
    match draws with
    | [] | None :: _ => None
    | Some (raw, hash) :: draws =>
        let code := newRecoveryCode raw in
        if bool_decide (code ∈ plain) then recovery_loop draws plain hashes
        else recovery_loop draws (plain ++ [code]) (hashes ++ [hash code])
    end.
Definition newRecoveryCodes (draws : list (option (list Z * (string → string)))) :=
  recovery_loop draws [] [].

(** [recoveryConfusions] *)
Definition confusion (c : ascii) : list ascii :=
  if Ascii.eqb c "I" || Ascii.eqb c "L" then ["1"%char]
  else if Ascii.eqb c "O" then ["0"%char]
  else if Ascii.eqb c "U" then ["V"%char]
  else if Ascii.eqb c " " || Ascii.eqb c "-" then []
  else [c].

Definition normaliseRecoveryCode (s : string) : string :=
  let clean := flat_map confusion (bytes (ToUpperU up (TrimSpace s))) in
  if negb (length clean =? recoveryCodeLen)%nat then of_bytes clean
  else of_bytes (take recoveryGroupLen clean ++ "-"%char :: drop recoveryGroupLen clean).

Definition isTOTPShape (s : string) : bool :=
  let l := bytes (TrimSpace s) in
  (length l =? totpDigits)%nat && forallb is_digit l.

(** The runes of [n] outside the alphabet include every byte that is not
    ASCII, so the test runs over bytes. *)
Definition isRecoveryShape (s : string) : bool :=
  let n := bytes (normaliseRecoveryCode s) in
  (length n =? recoveryCodeLen + 1)%nat &&
  match n !! recoveryGroupLen with Some c => Ascii.eqb c "-" | None => false end &&
  forallb (λ c, bool_decide (c ∈ recoveryAlphabet)) (take recoveryGroupLen n ++ drop (S recoveryGroupLen) n).

(** [VerifyPassword] *)
Context (VerifyPassword : string → string → bool).

(** [matchRecoveryCode]: every hash is checked, the first match kept; [None]
    is -1. *)
Definition matchRecoveryCode (code : string) (hashes : list string) : option nat :=
  if negb (isRecoveryShape code) then None
  else
    let want := normaliseRecoveryCode code in
    foldl (λ matched ih, if VerifyPassword want ih.2
                         then match matched with Some _ => matched | None => Some ih.1 end
                         else matched)
          None (zip (seq 0 (length hashes)) hashes).

(** [consumeRecoveryCode] *)
Definition consumeRecoveryCode (code : string) (hashes : list string) : list string * bool :=
  match matchRecoveryCode code hashes with
  | None => (hashes, false)
  | Some i => (take i hashes ++ drop (S i) hashes, true)
  end.
End unicode.

(** ** totpreplay.go *)

(** What is at the path of the replay file. *)
Inductive ReplayFile := RpMissing | RpUnreadable | RpGarbage | RpStep (step : Z).

Record totpReplay := mkReplay { rp_file : ReplayFile; rp_step : Z }.

(** [newTOTPReplay]: anything but a document is "nothing accepted yet". *)
Definition newTOTPReplay (file : ReplayFile) : totpReplay :=
  mkReplay file match file with RpStep n => n | _ => 0 end.

Definition last_step (r : totpReplay) : Z := rp_step r.

(** [accept]: whether the step is new; [ok] is whether the write succeeded. *)
Definition accept (ok : bool) (step : Z) (r : totpReplay) : bool * totpReplay :=
  if step <=? rp_step r then (false, r)
  else (true, mkReplay (if ok then RpStep step else rp_file r) step).

Example rfc6238_59 : hotp (hmac sha1) (byte_vals "12345678901234567890") (stepAt (59 * 10 ^ 9)) 8 = "94287082"%string.
Proof. vm_compute. reflexivity. Qed.
Example rfc6238_2e9 : hotp (hmac sha1) (byte_vals "12345678901234567890") (stepAt (2000000000 * 10 ^ 9)) 8 = "69279037"%string.
Proof. vm_compute. reflexivity. Qed.
Example rfc6238_1111111109 :
  hotp (hmac sha1) (byte_vals "12345678901234567890") (stepAt (1111111109 * 10 ^ 9)) 8 = "07081804"%string.
Proof. vm_compute. reflexivity. Qed.

(** [acceptTOTP] of [handler_login.go]: no secret, a secret that cannot be
    used, a code that matches no step of the window and a step already used
    are all a wrong code. *)
Definition acceptTOTP (up : Z → Z) (secret : string) (now : Z) (code : string) (ok : bool) (r : totpReplay) :
    bool * totpReplay :=
  if String.eqb secret "" then (false, r)
  else
    match decodeTOTPSecret up secret with
    | None => (false, r)
    | Some raw =>
        match matchTOTP raw now code totpWindowLogin with
        | None => (false, r)
        | Some (step, _) => accept ok step r
        end
    end.

(** ** Encodings *)

Lemma is_ascii_bytes s : is_ascii s = true ↔ Forall (λ c, byte_val c < 0x80) (bytes s).
Proof.
  unfold is_ascii. rewrite forallb_forall, Forall_forall. setoid_rewrite list_elem_of_In.
  split; intros H c Hc; specialize (H c Hc); lia.
Qed.

Lemma base32_bytes raw :
  bytes (base32_EncodeToString raw) = map (λ v, nth (Z.to_nat v) base32_alphabet "A"%char) (vals5 raw).
Proof.
  unfold base32_EncodeToString, encode_bits, vals5, groups5. by rewrite bytes_of_bytes, !map_map.
Qed.

Lemma vals5_bound raw : Forall is_byte raw → Forall (λ v, 0 <= v < 32) (vals5 raw).
Proof.
  intros H. apply vals5_decode in H as [_ H]. unfold vals5. apply Forall_map.
  eapply Forall_impl; [exact H|]. intros g Hg. by apply bits_val5_bound.
Qed.

(** What is true of every symbol of the alphabet is true of an encoding. *)
Lemma base32_Forall (P : ascii → Prop) raw :
  (∀ v, 0 <= v < 32 → P (nth (Z.to_nat v) base32_alphabet "A"%char)) →
  Forall is_byte raw → Forall P (bytes (base32_EncodeToString raw)).
Proof.
  intros HP H. rewrite base32_bytes. apply Forall_map.
  eapply Forall_impl; [by apply vals5_bound|]. intros v Hv. by apply HP.
Qed.

Lemma base32_roundtrip raw :
  Forall is_byte raw → base32_DecodeString (base32_EncodeToString raw) = Some raw.
Proof.
  intros H. unfold base32_DecodeString.
  rewrite filter_all.
  2:{ apply (base32_Forall (λ c, ¬ newline c)); [|done]. intros v Hv. apply (base32_symbol v Hv). }
  rewrite base32_bytes. assert (mapM base32_val (map (λ v, nth (Z.to_nat v) base32_alphabet "A"%char) (vals5 raw))
    = Some (vals5 raw)) as ->.
  { apply mapM_map_inv.
    eapply Forall_impl; [by apply vals5_bound|]. intros v Hv. apply (base32_symbol v Hv). }
  simpl. by rewrite (proj1 (vals5_decode raw H)).
Qed.

Lemma decode_typed up raw typed :
  raw ≠ [] → Forall is_byte raw → is_ascii typed = true →
  ToUpper (strip_separators typed) = base32_EncodeToString raw →
  decodeTOTPSecret up typed = Some raw.
Proof.
  intros Hne Hb Ha HE. unfold decodeTOTPSecret, ToUpperU.
  assert (is_ascii (strip_separators typed) = true) as ->.
  { apply is_ascii_bytes. unfold strip_separators. rewrite bytes_of_bytes.
    apply is_ascii_bytes in Ha. by apply Forall_filter_keep. }
  rewrite HE, base32_roundtrip by done. by destruct raw.
Qed.

(** Grouping an ASCII key only puts spaces into it. *)
Lemma format_aux_spec fuel i l :
  (length l ≤ fuel)%nat → 0 <= i → Forall (λ c, byte_val c < 0x80) l →
  filter (λ c, c ≠ " "%char) (format_aux fuel i l) = filter (λ c, c ≠ " "%char) l ∧
  Forall (λ c, byte_val c < 0x80) (format_aux fuel i l).
Proof.
  revert i l; induction fuel as [|fuel IH]; intros i l Hl Hi Ha; [by destruct l; simpl in *; [|lia]|].
  destruct l as [|c l]; [done|]. apply Forall_cons in Ha as [Hc Ha]. simpl in Hl.
  cbn [format_aux]. unfold decode_rune. rewrite (proj2 (Z.ltb_lt _ _) Hc).
  assert (append_rune (byte_val c) = [c]) as ->.
  { clear -Hc. destruct c as [[] [] [] [] [] [] [] []]; (reflexivity || (vm_compute in Hc; discriminate)). }
  edestruct (IH (i + 1 + Z.of_nat (length l - length l)) l) as [IH1 IH2]; [lia|lia|done|].
  split.
  - rewrite !filter_app, IH1.
    assert (∀ b : bool, filter (λ c, c ≠ " "%char) (if b then [" "%char] else []) = []) as -> by by intros [].
    rewrite !filter_cons. case_decide; done.
  - apply Forall_app. split; [by case_match; repeat constructor|]. by constructor.
Qed.

Lemma filter_upper P `{!∀ x : ascii, Decision (P x)} l :
  Forall (λ c, upper c = c) l → map upper (filter P l) = filter P l.
Proof.
  intros HF. apply (Forall_filter_keep _ P) in HF.
  induction HF as [|c k Hc _ IH]; simpl; [done|]. by rewrite Hc, IH.
Qed.

(** The setup key reads back however it is copied.  Any ASCII text that is
    the key once spaces, dashes and equals signs are dropped and letters are
    capitals decodes to the secret, and so does the grouped form the page
    shows. *)
Theorem setup_key_reads_back up raw :
  raw ≠ [] → Forall is_byte raw →
  (∀ typed, is_ascii typed = true →
     ToUpper (strip_separators typed) = base32_EncodeToString raw →
     decodeTOTPSecret up typed = Some raw) ∧
  decodeTOTPSecret up (formatTOTPSecret (base32_EncodeToString raw)) = Some raw.
Proof.
  intros Hne Hb. split; [intros; by apply decode_typed|].
  set (e := base32_EncodeToString raw).
  assert (Forall (λ c, byte_val c < 0x80) (bytes e)) as Ha.
  { by apply base32_Forall; [intros v Hv; apply base32_symbol|]. }
  destruct (format_aux_spec (length (bytes e)) 0 (bytes e)) as [HF HA]; [lia|lia|done|].
  apply decode_typed; [done..| |].
  - apply is_ascii_bytes. unfold formatTOTPSecret. by rewrite bytes_of_bytes.
  - unfold ToUpper, strip_separators, formatTOTPSecret. rewrite !bytes_of_bytes.
    rewrite <- (of_bytes_bytes (base32_EncodeToString raw)). fold e. f_equal.
    assert (∀ l : list ascii, filter (λ c, c ∉ [" "; "-"; "="]%char) l =
      filter (λ c, c ∉ [" "; "-"; "="]%char) (filter (λ c, c ≠ " "%char) l)) as Hss.
    { intros l. rewrite list_filter_filter_l; [done|]. set_solver. }
    rewrite Hss, HF, <- Hss, filter_upper.
    2:{ by apply base32_Forall; [intros v Hv; apply base32_symbol|]. }
    apply filter_all. by apply base32_Forall; [intros v Hv; apply base32_symbol|].
Qed.

Lemma setup_key_reads_back_witness :
  decodeTOTPSecret up_sample (formatTOTPSecret (base32_EncodeToString (byte_vals "12345678901234567890")))
    = Some (byte_vals "12345678901234567890") ∧
  decodeTOTPSecret up_sample "gezd gnbv-GY3TQOJQ gezdgnbvgy3tqojq=" = Some (byte_vals "12345678901234567890").
Proof.
  destruct (setup_key_reads_back up_sample (byte_vals "12345678901234567890")) as [H1 H2].
  - done.
  - apply (bool_decide_eq_true_1 _). vm_compute. reflexivity.
  - split; [exact H2|]. apply H1; vm_compute; reflexivity.
Defined.

(** ** The two shapes *)

Lemma digit_facts c : is_digit c = true → byte_val c < 0x80 ∧ upper c = c ∧ confusion c = [c].
Proof.
  destruct c as [[] [] [] [] [] [] [] []]; vm_compute; (discriminate || (intros _; repeat split)).
Qed.

Lemma TrimSpace_trimmed_digits s :
  forallb is_digit (bytes (TrimSpace s)) = true →
  ToUpper (TrimSpace s) = TrimSpace s ∧ is_ascii (TrimSpace s) = true ∧
  flat_map confusion (bytes (TrimSpace s)) = bytes (TrimSpace s).
Proof.
  intros H. pose proof (proj1 (forallb_forall _ _) H) as H'.
  assert (Forall (λ c, is_digit c = true) (bytes (TrimSpace s))) as HF.
  { apply Forall_forall. intros c Hc. apply H'. by apply list_elem_of_In. }
  split; [|split].
  - unfold ToUpper. rewrite <- (of_bytes_bytes (TrimSpace s)) at 2. f_equal.
    clear -HF. induction HF as [|c l Hc _ IH]; simpl; [done|]. rewrite IH. by rewrite (proj1 (proj2 (digit_facts c Hc))).
  - apply is_ascii_bytes. eapply Forall_impl; [exact HF|]. intros c Hc. by apply digit_facts.
  - clear -HF. induction HF as [|c l Hc _ IH]; simpl; [done|]. rewrite IH. by rewrite (proj2 (proj2 (digit_facts c Hc))).
Qed.

Lemma isTOTPShape_not_recovery up s : isTOTPShape s = true → isRecoveryShape up s = false.
Proof.
  unfold isTOTPShape. intros H. apply andb_true_iff in H as [Hl Hd]. apply Nat.eqb_eq in Hl.
  destruct (TrimSpace_trimmed_digits s Hd) as (HU & HA & HC).
  unfold isRecoveryShape, normaliseRecoveryCode, ToUpperU. rewrite HA, HU, HC, Hl. simpl.
  by rewrite bytes_of_bytes, Hl.
Qed.

(** ** The window *)

Definition step_matches (secret : list Z) (code : string) (cur d : Z) : bool :=
  (0 <=? cur + d) && String.eqb (totpAt secret (cur + d)) code.

Lemma foldl_match_step secret code cur ds acc :
  foldl (match_step secret code cur) acc ds =
  match acc with
  | Some x => Some x
  | None => (λ d, (cur + d, d)) <$> find (step_matches secret code cur) ds
  end.
Proof.
  revert acc; induction ds as [|d ds IH]; intros acc; [by destruct acc|].
  cbn [foldl find]. rewrite IH. clear IH.
  assert (match_step secret code cur acc d =
    match acc with Some x => Some x | None => if step_matches secret code cur d then Some (cur + d, d) else None end) as ->.
  { unfold match_step, step_matches. generalize (String.eqb (totpAt secret (cur + d)) code) as b. intros b.
    destruct (Z.ltb_spec (cur + d) 0), (Z.leb_spec 0 (cur + d)); [lia| | |lia]; by destruct b, acc. }
  by destruct acc, (step_matches secret code cur d).
Qed.

Lemma window_offsets_elem w d : d ∈ window_offsets w ↔ - Z.of_nat w <= d <= Z.of_nat w.
Proof.
  unfold window_offsets. rewrite list_elem_of_fmap. setoid_rewrite elem_of_seq. split.
  - intros (i & -> & ?). lia.
  - intros ?. exists (Z.to_nat (d + Z.of_nat w)). lia.
Qed.

Lemma matchTOTP_Some secret now code w s d :
  matchTOTP secret now code w = Some (s, d) →
  s = stepAt now + d ∧ - Z.of_nat w <= d <= Z.of_nat w ∧ 0 <= s ∧ totpAt secret s = code.
Proof.
  unfold matchTOTP. rewrite foldl_match_step. destruct (find _ _) as [d'|] eqn:E; [|done].
  intros [= <- <-]. apply find_some in E as [Hin Hm]. apply list_elem_of_In, window_offsets_elem in Hin.
  unfold step_matches in Hm. breflect. apply String.eqb_eq in H0. done.
Qed.

Lemma matchTOTP_None secret now code w d :
  matchTOTP secret now code w = None → - Z.of_nat w <= d <= Z.of_nat w → 0 <= stepAt now + d →
  totpAt secret (stepAt now + d) ≠ code.
Proof.
  unfold matchTOTP. rewrite foldl_match_step. destruct (find _ _) as [d'|] eqn:E; [done|].
  intros _ Hd%window_offsets_elem%list_elem_of_In Hc Heq. apply (find_none _ _ E d) in Hd.
  unfold step_matches in Hd. rewrite (proj2 (Z.leb_le _ _) Hc) in Hd.
  by rewrite (proj2 (String.eqb_eq _ _) Heq) in Hd.
Qed.

(** ** One step, one sign-in *)

Inductive totp_event :=
| TSubmit (now : Z) (code : string) (ok : bool)
| TRestart.

(** A code that signed in: when, which, and the step it was for. *)
Record totp_login := mkTotpLogin { tl_now : Z; tl_code : string; tl_step : Z }.

Definition run_totp (up : Z → Z) (secret : string) (st : totpReplay * list totp_login) (e : totp_event) :
    totpReplay * list totp_login :=
  let '(r, log) := st in
  match e with
  | TRestart => (newTOTPReplay (rp_file r), log)
  | TSubmit now code ok =>
      let '(granted, r) := acceptTOTP up secret now code ok r in
      (r, if granted then log ++ [mkTotpLogin now code (rp_step r)] else log)
  end.

Definition write_ok (e : totp_event) : Prop := match e with TSubmit _ _ ok => ok = true | TRestart => True end.

(** Every step of the log is past [lo] and at most [hi], each past the one
    before. *)
Fixpoint ascending (lo : Z) (l : list Z) (hi : Z) : Prop :=
  match l with
  | [] => lo <= hi
  | s :: l => lo < s ∧ ascending s l hi
  end.

Lemma ascending_snoc lo l hi s : ascending lo l hi → hi < s → ascending lo (l ++ [s]) s.
Proof. revert lo; induction l as [|x l IH]; intros lo; simpl; [lia|]. intros [??] ?. split; [done|auto]. Qed.

Lemma acceptTOTP_spec up secret now code ok r :
  match acceptTOTP up secret now code ok r with
  | (false, r') => r' = r
  | (true, r') =>
      rp_step r < rp_step r' ∧ r' = mkReplay (if ok then RpStep (rp_step r') else rp_file r) (rp_step r') ∧
      ∃ raw, decodeTOTPSecret up secret = Some raw ∧ totpAt raw (rp_step r') = code ∧
             stepAt now - 1 <= rp_step r' <= stepAt now + 1
  end.
Proof.
  unfold acceptTOTP. destruct (String.eqb secret ""); [done|].
  destruct (decodeTOTPSecret up secret) as [raw|] eqn:ED; [|done].
  destruct (matchTOTP raw now code _) as [[s d]|] eqn:EM; [|done].
  apply matchTOTP_Some in EM as (-> & Hd & Hc & Hcode). unfold totpWindowLogin in Hd.
  unfold accept. destruct (Z.leb_spec (stepAt now + d) (rp_step r)); [done|].
  simpl. split; [lia|]. split; [done|]. exists raw. split; [done|]. split; [done|lia].
Qed.

(** The record in memory is the one on disk, as long as every write
    succeeded. *)
Definition replay_synced (r : totpReplay) : Prop := newTOTPReplay (rp_file r) = r.

Definition login_in_window (up : Z → Z) (secret : string) (l : totp_login) : Prop :=
  ∃ raw, decodeTOTPSecret up secret = Some raw ∧ totpAt raw (tl_step l) = tl_code l ∧
         stepAt (tl_now l) - 1 <= tl_step l <= stepAt (tl_now l) + 1.

Lemma run_totp_inv up secret evs r log lo :
  (replay_synced r ∧ Forall write_ok evs) ∨ TRestart ∉ evs →
  ascending lo (map tl_step log) (rp_step r) → Forall (login_in_window up secret) log →
  let '(r', log') := foldl (run_totp up secret) (r, log) evs in
  ascending lo (map tl_step log') (rp_step r') ∧ Forall (login_in_window up secret) log'.
Proof.
  revert r log; induction evs as [|e evs IH]; intros r log Hc Ha Hw; [done|]. cbn [foldl].
  destruct e as [now code ok|]; simpl.
  - pose proof (acceptTOTP_spec up secret now code ok r) as HS.
    destruct (acceptTOTP up secret now code ok r) as [[] r'].
    + destruct HS as (Hlt & Hr' & raw & HD & Hcode & Hwin). apply IH.
      * destruct Hc as [[Hs Hok]|Hc]; [left|right; set_solver].
        apply Forall_cons in Hok as [Hok1 Hok]. simpl in Hok1. subst ok. split; [|done].
        rewrite Hr'. done.
      * rewrite map_app. simpl. eapply ascending_snoc; [exact Ha|done].
      * apply Forall_app; split; [done|]. constructor; [|done]. by exists raw.
    + subst r'. apply IH; [|done..]. destruct Hc as [[Hs Hok]|Hc]; [left|right; set_solver].
      apply Forall_cons in Hok as [_ Hok]. done.
  - destruct Hc as [[Hs Hok]|Hc]; [|set_solver]. rewrite Hs. apply IH; [|done..].
    left. apply Forall_cons in Hok as [_ Hok]. done.
Qed.

(** C16: A time step signs in at most once.  Whatever is submitted and whenever,
    over restarts too if every write of the replay file succeeded, the codes
    accepted belong to strictly increasing steps, none of them one the file
    already recorded, each code is the one its step yields, and its step is at
    most one away from the time it was submitted at. *)
Theorem totp_step_signs_in_once up secret file evs :
  Forall write_ok evs ∨ TRestart ∉ evs →
  let '(_, log) := foldl (run_totp up secret) (newTOTPReplay file, []) evs in
  (∃ hi, ascending (last_step (newTOTPReplay file)) (map tl_step log) hi) ∧
  Forall (login_in_window up secret) log.
Proof.
  intros Hc.
  pose proof (run_totp_inv up secret evs (newTOTPReplay file) [] (last_step (newTOTPReplay file))) as HI.
  destruct (foldl _ _ evs) as [r log]. destruct HI as [HA HW].
  - destruct Hc as [Hc|Hc]; [left|by right]. split; [|done]. by destruct file.
  - unfold last_step. simpl. lia.
  - done.
  - split; [by exists (rp_step r)|done].
Qed.

(** A code sent twice, a restart between, then the next one. *)
Definition totp_sample_events : list totp_event :=
  [TSubmit (59 * 10 ^ 9) "287082" true; TSubmit (59 * 10 ^ 9) "287082" true; TRestart;
   TSubmit (60 * 10 ^ 9) "287082" true; TSubmit (61 * 10 ^ 9) "359152" true].

Lemma totp_step_signs_in_once_witness :
  let '(_, log) := foldl (run_totp up_sample "GEZDGNBVGY3TQOJQGEZDGNBVGY3TQOJQ") (newTOTPReplay RpMissing, [])
                     totp_sample_events in
  map tl_step log = [1; 2] ∧
  (∃ hi, ascending (last_step (newTOTPReplay RpMissing)) (map tl_step log) hi).
Proof.
  pose proof (totp_step_signs_in_once up_sample "GEZDGNBVGY3TQOJQGEZDGNBVGY3TQOJQ" RpMissing totp_sample_events) as HT.
  assert (map tl_step (foldl (run_totp up_sample "GEZDGNBVGY3TQOJQGEZDGNBVGY3TQOJQ") (newTOTPReplay RpMissing, [])
                     totp_sample_events).2 = [1; 2]) as HL by (vm_compute; reflexivity).
  destruct (foldl _ _ _) as [r log]. simpl in HL.
  split; [exact HL|]. apply HT. left. repeat constructor.
Defined.

(** ** The printed codes *)

Lemma recovery_symbol_facts v :
  recovery_symbol v ∈ recoveryAlphabet ∧ upper (recovery_symbol v) = recovery_symbol v ∧
  confusion (recovery_symbol v) = [recovery_symbol v] ∧ recovery_symbol v ≠ "-"%char.
Proof.
  unfold recovery_symbol. pose proof (Z.mod_pos_bound v 32 ltac:(lia)) as H.
  generalize dependent (v mod 32). intros i H.
  assert (i ∈ map Z.of_nat (seq 0 32)) as Hin.
  { apply list_elem_of_fmap. exists (Z.to_nat i). split; [lia|]. apply elem_of_seq. lia. }
  clear H. revert i Hin. apply Forall_forall. apply (bool_decide_eq_true_1 _). vm_compute. reflexivity.
Qed.

(** What a person typed for a printed code: spaces around and inside, dashes
    anywhere, either case, and Crockford's four confusions. *)
Definition typed_as (code typed : string) : Prop :=
  is_ascii (TrimSpace typed) = true ∧
  flat_map confusion (map upper (bytes (TrimSpace typed))) = filter (λ c, c ≠ "-"%char) (bytes code).

Lemma code_symbols raw :
  filter (λ c, c ≠ "-"%char) (bytes (newRecoveryCode raw)) = map recovery_symbol raw.
Proof.
  unfold newRecoveryCode. rewrite bytes_of_bytes, filter_app, filter_cons, decide_False by (intros Hn; by apply Hn).
  assert (Forall (λ c, c ≠ "-"%char) (map recovery_symbol raw)) as HF.
  { apply Forall_map, Forall_true. intros v. apply recovery_symbol_facts. }
  rewrite !filter_all by (by apply Forall_take || by apply Forall_drop). apply take_drop.
Qed.

Lemma normalise_typed up raw typed :
  length raw = recoveryCodeLen → typed_as (newRecoveryCode raw) typed →
  normaliseRecoveryCode up typed = newRecoveryCode raw.
Proof.
  intros Hl [Ha HE]. unfold normaliseRecoveryCode, ToUpperU, ToUpper.
  rewrite Ha, bytes_of_bytes, HE, code_symbols. by rewrite length_map, Hl.
Qed.

Lemma recovery_shape_typed up raw typed :
  length raw = recoveryCodeLen → typed_as (newRecoveryCode raw) typed → isRecoveryShape up typed = true.
Proof.
  intros Hl Ht. unfold isRecoveryShape. rewrite (normalise_typed _ raw) by done.
  unfold newRecoveryCode. rewrite bytes_of_bytes. unfold recoveryCodeLen, recoveryGroupLen in *. simpl in Hl.
  do 10 (destruct raw as [|? raw]; [discriminate Hl|]). destruct raw; [|discriminate Hl].
  cbn [map take drop app length Nat.eqb andb lookup list_lookup forallb Nat.add Nat.mul].
  rewrite !bool_decide_eq_true_2 by apply recovery_symbol_facts. by rewrite Ascii.eqb_refl.
Qed.

(** A draw of the loop: ten random bytes, and a salted hash that verifies
    exactly the password it was made from. *)
Definition good_draw (verify : string → string → bool) (d : option (list Z * (string → string))) : Prop :=
  match d with
  | Some (raw, hash) => length raw = recoveryCodeLen ∧ ∀ p q, verify p (hash q) = String.eqb p q
  | None => True
  end.

(** A printed code and its stored hash. *)
Definition code_pair (verify : string → string → bool) (plain h : string) : Prop :=
  (∃ raw, length raw = recoveryCodeLen ∧ plain = newRecoveryCode raw) ∧
  ∀ p, verify p h = String.eqb p plain.

Lemma recovery_loop_spec verify draws plain hashes P H :
  Forall (good_draw verify) draws → (length plain ≤ recoveryCodeCount)%nat →
  NoDup plain → Forall2 (code_pair verify) plain hashes →
  recovery_loop draws plain hashes = Some (P, H) →
  length P = recoveryCodeCount ∧ NoDup P ∧ Forall2 (code_pair verify) P H.
Proof.
  revert plain hashes; induction draws as [|d draws IH]; intros plain hashes Hd Hl Hnd Hf; cbn [recovery_loop];
    (destruct (Nat.leb_spec recoveryCodeCount (length plain)); [intros [= <- <-]; split; [lia|done]|]); [done|].
  apply Forall_cons in Hd as [Hd1 Hd]. destruct d as [[raw hash]|]; [|done]. destruct Hd1 as [Hraw Hh].
  case_bool_decide as Hin; [by apply IH|]. apply IH; [done|..].
  - rewrite length_app. simpl. lia.
  - apply NoDup_app. split; [done|]. split; [|apply NoDup_singleton].
    intros x Hx ->%list_elem_of_singleton. done.
  - apply Forall2_app; [done|]. constructor; [|constructor]. split; [by exists raw|auto].
Qed.

Lemma foldl_first_match (P : string → bool) (l : list string) k acc :
  foldl (λ (m : option nat) ih, if P ih.2 then match m with Some _ => m | None => Some ih.1 end else m)
    acc (zip (seq k (length l)) l) =
  match acc with Some i => Some i | None => (λ i, k + i)%nat <$> (fst <$> list_find (λ h, P h = true) l) end.
Proof.
  revert k acc; induction l as [|h l IH]; intros k acc; [by destruct acc|].
  cbn [length seq zip zip_with foldl fst snd list_find]. rewrite IH. destruct acc as [i|].
  - by destruct (P h).
  - destruct (P h); case_decide as E; try done; simpl; [by rewrite Nat.add_0_r|].
    destruct (list_find _ l) as [[i x]|]; simpl; [f_equal; lia|done].
Qed.

(** The eight printed codes work, each against its own hash.  When the loop
    finishes there are eight, all different, and any of them, typed with
    spaces, without its dash, in either case or with a confused letter, is
    told from a time code by its shape and found at exactly the index of its
    own hash. *)
Theorem printed_codes_match_their_hash up verify draws plain hashes :
  Forall (good_draw verify) draws →
  newRecoveryCodes draws = Some (plain, hashes) →
  length plain = recoveryCodeCount ∧ length hashes = recoveryCodeCount ∧ NoDup plain ∧
  ∀ i code typed, plain !! i = Some code → typed_as code typed →
    isTOTPShape typed = false ∧ matchRecoveryCode up verify typed hashes = Some i.
Proof.
  intros Hd HE. destruct (recovery_loop_spec verify draws [] [] plain hashes Hd) as (Hl & Hnd & HF);
    [simpl; lia|constructor|constructor|done|].
  split; [done|]. split; [by rewrite <- (Forall2_length _ _ _ HF)|]. split; [done|].
  intros i code typed Hi Ht. destruct (Forall2_lookup_l _ _ _ _ _ HF Hi) as (h & Hh & (raw & Hraw & ->) & Hv).
  pose proof (recovery_shape_typed up raw typed Hraw Ht) as HS. split.
  { destruct (isTOTPShape typed) eqn:ET; [|done]. by rewrite (isTOTPShape_not_recovery up) in HS. }
  unfold matchRecoveryCode. rewrite HS, (normalise_typed up raw) by done. cbn [negb].
  rewrite foldl_first_match. assert (list_find (λ h, verify (newRecoveryCode raw) h = true) hashes = Some (i, h)) as ->;
    [|done].
  apply list_find_Some. split; [done|]. split; [by rewrite Hv, String.eqb_refl|].
  intros j h' Hj Hlt. destruct (Forall2_lookup_r _ _ _ _ _ HF Hj) as (code' & Hc' & _ & Hv').
  rewrite Hv'. destruct (String.eqb_spec (newRecoveryCode raw) code') as [<-|]; [|done].
  intros _. pose proof (NoDup_lookup _ _ _ _ Hnd Hc' Hi). lia.
Qed.

(** Nine draws with a repeat among them; the hash is the identity. *)
Definition sample_draws : list (option (list Z * (string → string))) :=
  map (λ k, Some (map (λ i, i + k * 7) (map Z.of_nat (seq 0 10)), λ p, p)) [0; 1; 1; 2; 3; 4; 5; 6; 7].

Lemma printed_codes_match_their_hash_witness :
  ∃ plain hashes, newRecoveryCodes sample_draws = Some (plain, hashes) ∧
    plain !! 1%nat = Some "789AB-CDEFG"%string ∧ matchRecoveryCode up_sample String.eqb " 789ab cdefg" hashes = Some 1%nat.
Proof.
  destruct (newRecoveryCodes sample_draws) as [[plain hashes]|] eqn:E; [|vm_compute in E; discriminate E].
  exists plain, hashes.
  destruct (printed_codes_match_their_hash up_sample String.eqb sample_draws plain hashes) as (_ & _ & _ & HT); [|done|].
  - repeat constructor.
  - assert (plain !! 1%nat = Some "789AB-CDEFG"%string) as HP.
    { vm_compute in E. injection E as <- <-. reflexivity. }
    split; [done|]. split; [done|]. apply (HT 1%nat _ " 789ab cdefg" HP). split; vm_compute; reflexivity.
Defined.
