(* ===== verification/WebAddr.v ===== *)
(** * Who a request is from

    [src/internal/web/clientaddr.go] and [limiterKey] of [middleware.go]: the
    address the sign-in limiter, the audit log and the apply screen all use.
    A request is its TCP peer, which the kernel reports, and its headers, which
    the other end of the socket wrote. *)
From S2P Require Import Prelude GoStrings GoNet NetBytes Models FeedIDs Validate Reach NetString.

Local Open Scope Z_scope.

Record Request := mkRequest { RemoteAddr : string; Header : gmap string (list string) }.

(** [http.CanonicalHeaderKey] on a token: capitals at the start and after each
    dash. *)
Definition lower (c : ascii) : ascii :=
  if (65 <=? byte_val c) && (byte_val c <=? 90) then mkbyte (Z.to_nat (byte_val c + 32)) else c.
Fixpoint canonical_aux (start : bool) (l : list ascii) : list ascii :=
  match l with
  | [] => []
  | c :: l => (if start then upper c else lower c) :: canonical_aux (Ascii.eqb c "-") l
  end.
Definition CanonicalHeaderKey (s : string) : string := of_bytes (canonical_aux true (bytes s)).

(** [net.SplitHostPort]; [None] is its error. *)
Definition has (c : ascii) (s : string) : bool := bool_decide (c ∈ bytes s).
Definition SplitHostPort (hostport : string) : option (string * string) :=
  match hostport with
  | String c rest =>
      if Ascii.eqb c "[" then
        match CutByte "]" rest with
        | Some (host, String c' port) =>
            if Ascii.eqb c' ":" && negb (has ":" port) && negb (has "[" rest) && negb (has "]" port)
            then Some (host, port) else None
        | _ => None
        end
      else
        match CutLastByte ":" hostport with
        | Some (host, port) =>
            if has ":" host || has "[" hostport || has "]" hostport then None else Some (host, port)
        | None => None
        end
  | EmptyString => None
  end.

Definition proxyHeaders : list string := ["X-Forwarded-For"; "X-Real-IP"; "True-Client-IP"; "Forwarded"].

Definition peerIP (r : Request) : string :=
  match SplitHostPort (RemoteAddr r) with Some (ip, _) => ip | None => RemoteAddr r end.

Definition proxiedRequest (r : Request) : bool :=
  existsb (λ h, match Header r !! CanonicalHeaderKey h with Some _ => true | None => false end) proxyHeaders.

(** The hops of [X-Forwarded-For], left to right. *)
Definition xff_lines (r : Request) : list string := default [] (Header r !! CanonicalHeaderKey "X-Forwarded-For").
Definition hops_of (lines : list string) : list string := flat_map (λ v, map TrimSpace (SplitByte "," v)) lines.

(** The walk, on the hops right to left. *)
Fixpoint walk_hops (trusted : list string) (peer : string) (hops : list string) : string :=
  match hops with
  | [] => peer
  | h :: hops =>
      match ParseAddr h with
      | None => peer
      | Some addr => if InAnyEntry (Unmap addr) trusted then walk_hops trusted peer hops else Addr_String (Unmap addr)
      end
  end.

Definition rightmostUntrusted (r : Request) (trusted : list string) (peer : string) : string :=
  walk_hops trusted peer (reverse (hops_of (xff_lines r))).

Definition peer_trusted (r : Request) (trusted : list string) : bool :=
  match ParseAddr (peerIP r) with Some addr => InAnyEntry (Unmap addr) trusted | None => false end.

(** [resolveClient] *)
Definition resolveClient (r : Request) (trusted : list string) : string * bool :=
  let peer := peerIP r in
  if negb (peer_trusted r trusted) then (peer, proxiedRequest r)
  else let client := rightmostUntrusted r trusted peer in (client, String.eqb client peer).

(** [limiterKey]: an IPv4 address, or the /64 of an IPv6 one. *)
Definition limiterKey (ip : string) : string :=
  match ParseAddr ip with
  | None => ip
  | Some a =>
      let a := Unmap a in
      if Is4 a then Addr_String a else Prefix_String (Masked (WithoutZone a) 64)
  end.

Example canonical_ex : map CanonicalHeaderKey proxyHeaders =
  ["X-Forwarded-For"; "X-Real-Ip"; "True-Client-Ip"; "Forwarded"]%string.
Proof. vm_compute. reflexivity. Qed.
Example split_host_ex : map SplitHostPort ["10.0.0.1:80"; "[::1]:443"; "::1:443"; "[::1]"; "10.0.0.1"; "[a]b]:1"]%string =
  [Some ("10.0.0.1", "80"); Some ("::1", "443"); None; None; None; None]%string.
Proof. vm_compute. reflexivity. Qed.

(** ** The left of the chain does not matter *)

Lemma SplitByte_nonnil sep s : SplitByte sep s ≠ [].
Proof. destruct s as [|c s]; simpl; [done|]. destruct (Ascii.eqb c sep); [done|]. by destruct (SplitByte sep s). Qed.

Lemma SplitByte_app sep a b : SplitByte sep (a +:+ String sep b) = SplitByte sep a ++ SplitByte sep b.
Proof.
  induction a as [|c a IH].
  - change ("" +:+ String sep b) with (String sep b). simpl. by rewrite Ascii.eqb_refl.
  - change (String c a +:+ String sep b) with (String c (a +:+ String sep b)). cbn [SplitByte]. rewrite IH.
    destruct (Ascii.eqb c sep); [done|].
    pose proof (SplitByte_nonnil sep a). by destruct (SplitByte sep a).
Qed.

(** A hop at which the walk stops: not an address, or not a trusted one. *)
Definition stops (trusted : list string) (h : string) : bool :=
  match ParseAddr h with Some a => negb (InAnyEntry (Unmap a) trusted) | None => true end.

Lemma walk_stops trusted peer l l' :
  existsb (stops trusted) l = true → walk_hops trusted peer (l ++ l') = walk_hops trusted peer l.
Proof.
  induction l as [|h l IH]; simpl; [done|]. unfold stops at 1. destruct (ParseAddr h) as [a|]; [|done].
  by destruct (InAnyEntry (Unmap a) trusted).
Qed.

Lemma walk_answer trusted peer l h l' :
  Forall (λ t, stops trusted t = false) l → stops trusted h = true →
  walk_hops trusted peer (l ++ h :: l') =
  match ParseAddr h with Some a => Addr_String (Unmap a) | None => peer end.
Proof.
  intros HF Hh. induction HF as [|t l Ht _ IH]; simpl.
  - unfold stops in Hh. destruct (ParseAddr h) as [a|]; [|done]. by destruct (InAnyEntry (Unmap a) trusted).
  - unfold stops in Ht. destruct (ParseAddr t) as [a|]; [|done]. by destruct (InAnyEntry (Unmap a) trusted).
Qed.

(** The request with these [X-Forwarded-For] lines. *)
Definition with_xff (lines : list string) (r : Request) : Request :=
  mkRequest (RemoteAddr r) (<["X-Forwarded-For" := lines]> (Header r)).

(** C19: A caller cannot choose the address it is taken for.  Behind a peer that
    is not on the list the answer is that peer whatever the headers say.
    Behind a trusted one, once the part of the chain the trusted proxies
    appended ([honest]) names a hop that is not theirs, nothing written to its
    left and no line before it changes the answer, which is that hop's address
    ([via] reports the proxy standing in for a hop that is not an address). *)
Theorem client_address_cannot_be_forged r trusted :
  (peer_trusted r trusted = false → ∀ h,
     (resolveClient (mkRequest (RemoteAddr r) h) trusted).1 = peerIP r) ∧
  (∀ lines forged honest pre hop post,
     peer_trusted r trusted = true →
     map TrimSpace (SplitByte "," honest) = pre ++ hop :: post →
     Forall (λ t, stops trusted t = false) post → stops trusted hop = true →
     resolveClient (with_xff (lines ++ [forged +:+ String "," honest]) r) trusted =
     match ParseAddr hop with
     | Some a => (Addr_String (Unmap a), String.eqb (Addr_String (Unmap a)) (peerIP r))
     | None => (peerIP r, true)
     end).
Proof.
  split.
  - intros Hp h. unfold resolveClient, peer_trusted, peerIP in *. simpl. by rewrite Hp.
  - intros lines forged honest pre hop post Hp Hh Hpost Hhop.
    unfold resolveClient. assert (peer_trusted (with_xff (lines ++ [forged +:+ String "," honest]) r) trusted = true) as ->
      by done. change (peerIP (with_xff _ r)) with (peerIP r). cbn [negb].
    assert (rightmostUntrusted (with_xff (lines ++ [forged +:+ String "," honest]) r) trusted (peerIP r)
      = match ParseAddr hop with Some a => Addr_String (Unmap a) | None => peerIP r end) as ->.
    { unfold rightmostUntrusted, xff_lines, with_xff. simpl. rewrite lookup_insert_eq. simpl.
      unfold hops_of. rewrite flat_map_app. cbn [flat_map]. rewrite app_nil_r, SplitByte_app, map_app, Hh.
      rewrite !reverse_app, reverse_cons, <- !app_assoc. simpl.
      apply walk_answer; [|done]. by apply Forall_reverse. }
    destruct (ParseAddr hop); [done|]. by rewrite String.eqb_refl.
Qed.

Definition proxied_request : Request := mkRequest "10.1.0.5:443" ∅.

Lemma client_address_cannot_be_forged_witness :
  resolveClient (with_xff ["6.6.6.6"; "10.1.0.5, 7.7.7.7,203.0.113.9, 10.1.0.6"] proxied_request) ["10.1.0.0/16"]
    = ("203.0.113.9"%string, false).
Proof.
  apply (proj2 (client_address_cannot_be_forged proxied_request ["10.1.0.0/16"%string])
           ["6.6.6.6"%string] "10.1.0.5, 7.7.7.7" "203.0.113.9, 10.1.0.6" [] "203.0.113.9" ["10.1.0.6"%string]).
  - vm_compute. reflexivity.
  - vm_compute. reflexivity.
  - apply (bool_decide_eq_true_1 _). vm_compute. reflexivity.
  - vm_compute. reflexivity.
Defined.

(** ** One budget per subscriber *)

(** The same IPv4 address, or the same /64. *)
Definition same_subscriber (a b : addr) : Prop :=
  match Unmap a, Unmap b with
  | Addr4 n, Addr4 m => n = m
  | Addr6 n _, Addr6 m _ => Z.shiftr n 64 = Z.shiftr m 64
  | _, _ => False
  end.

Lemma addr_ok_Unmap a : addr_ok a → addr_ok (Unmap a).
Proof.
  intros [Hr Hz]. destruct a as [n|n z]; [done|]. unfold Unmap. destruct (Is4In6 (Addr6 n z)); [|done].
  split; [|done]. simpl. apply Z.mod_pos_bound. lia.
Qed.

(** The key as data: what is printed. *)
Definition subscriber (a : addr) : addr + prefix :=
  match Unmap a with
  | Addr4 n => inl (Addr4 n)
  | Addr6 n _ => inr (Masked (Addr6 n "") 64)
  end.

Lemma limiterKey_String a :
  addr_ok a →
  limiterKey (Addr_String a) = match subscriber a with inl b => Addr_String b | inr p => Prefix_String p end.
Proof.
  intros Ha. unfold limiterKey, subscriber. rewrite ParseAddr_String by done. by destruct (Unmap a).
Qed.

Lemma subscriber_valid a p : addr_ok a → subscriber a = inr p → addr_ok (p_addr p) ∧ IsValid p = true.
Proof.
  intros Ha. apply addr_ok_Unmap in Ha. unfold subscriber. destruct (Unmap a) as [n|n z]; [done|].
  intros [= <-]. destruct Ha as [Hr Hz]. simpl in Hr. split; [|done]. split; [|done].
  simpl. apply mask_bits_range; lia.
Qed.

(** A printed address is no printed prefix: it parses. *)
Lemma Addr_String_not_prefix a p :
  addr_ok a → addr_ok (p_addr p) → IsValid p = true → Addr_String a ≠ Prefix_String p.
Proof.
  intros Ha Hp Hv HE. apply (ParseAddr_slash (Addr_String a) a).
  - by apply ParseAddr_String.
  - apply Ha.
  - rewrite HE. unfold Prefix_String. rewrite Hv.
    assert (∀ s t, bytes (s +:+ t) = bytes s ++ bytes t) as Happ.
    { induction s; intros t; simpl; [done|]. by f_equal. }
    rewrite !Happ. apply elem_of_app. right. apply elem_of_app. left. by left.
Qed.

(** One sign-in budget per subscriber.  Two addresses are limited together
    exactly when they are the same IPv4 address (an IPv4-mapped one included)
    or lie in the same /64. *)
Theorem limiter_key_is_the_subscriber a b :
  addr_ok a → addr_ok b →
  limiterKey (Addr_String a) = limiterKey (Addr_String b) ↔ same_subscriber a b.
Proof.
  intros Ha Hb. rewrite !limiterKey_String by done.
  assert (subscriber a = subscriber b ↔ same_subscriber a b) as <-.
  { unfold subscriber, same_subscriber. destruct (Unmap a) as [n|n z], (Unmap b) as [m|m z']; try naive_solver.
    unfold Masked, mask_addr, mask_bits. change (128 - 64) with 64. split; [|by intros ->].
    intros [= HE]. apply (f_equal (λ x, Z.shiftr x 64)) in HE.
    rewrite !Z.shiftr_shiftl_l, !Z.shiftl_0_r in HE by lia. done. }
  split; [|by intros ->].
  destruct (subscriber a) as [x|p] eqn:Ea, (subscriber b) as [y|q] eqn:Eb; intros HE.
  - f_equal. apply (f_equal ParseAddr) in HE.
    assert (∀ c x, addr_ok c → subscriber c = inl x → addr_ok x) as Hok.
    { intros c w Hc. apply addr_ok_Unmap in Hc. unfold subscriber. by destruct (Unmap c); intros [= <-]. }
    rewrite !ParseAddr_String in HE by eauto. by injection HE.
  - exfalso. destruct (subscriber_valid b q) as [? ?]; [done..|]. eapply Addr_String_not_prefix; [|done|done|exact HE].
    apply addr_ok_Unmap in Ha. unfold subscriber in Ea. by destruct (Unmap a); simplify_eq.
  - exfalso. destruct (subscriber_valid a p) as [? ?]; [done..|]. eapply Addr_String_not_prefix; [|done|done|symmetry; exact HE].
    apply addr_ok_Unmap in Hb. unfold subscriber in Eb. by destruct (Unmap b); simplify_eq.
  - f_equal. destruct (subscriber_valid a p) as [? ?]; [done..|]. destruct (subscriber_valid b q) as [? ?]; [done..|].
    apply (f_equal ParsePrefix) in HE. rewrite !ParsePrefix_String in HE by done. by injection HE.
Qed.

Lemma limiter_key_is_the_subscriber_witness :
  let a := Addr6 (0x20010db8 * 2 ^ 96 + 1) "" in let b := Addr6 (0x20010db8 * 2 ^ 96 + 0xffff) "" in
  limiterKey "2001:db8::1" = limiterKey "2001:db8::ffff".
Proof.
  intros a b. change "2001:db8::1"%string with (Addr_String a). change "2001:db8::ffff"%string with (Addr_String b).
  apply (limiter_key_is_the_subscriber a b);
    [split; [vm_compute; split; congruence|reflexivity]..|vm_compute; reflexivity].
Defined.
