(* ===== verification/LoginEvents.v ===== *)
(** * What the audit log says about sign-ins

    [src/internal/core/loginevents.go], with the events and the payload of
    [src/internal/shared/protocol.go]: the debouncer between the web process's
    login events and the audit log.  The first event of a burst is written at
    once, the rest of its window as one summary; past a ceiling of distinct
    addresses the bursts of one event share a bucket.

    The state is the two tables; an operation returns the lines it writes.  A
    line is a value and [render] its action and detail.  The order in which
    the runtime visits a map is unspecified, so a sweep takes it as an
    argument. *)
From S2P Require Import Prelude GoStrings GoNet NetBytes NetString.

Local Open Scope Z_scope.

(** ** Events *)

Inductive LoginEvent :=
| EvLoginOK | EvLoginFailed | Ev2FAFailed | EvRecoveryUsed | EvRateLimited | EvLogout
| EvTOTPEnabled | EvTOTPDisabled | EvRecoveryRenewed | EvPasskeyUsed | EvPasskeyEnrolled | EvPasskeyRemoved
| EvPasskeyCloneSuspected.

#[global] Instance LoginEvent_eq_dec : EqDecision LoginEvent.
Proof. solve_decision. Defined.

(** The value of the constant. *)
Definition event_name (e : LoginEvent) : string :=
  match e with
  | EvLoginOK => "login_ok"
  | EvLoginFailed => "login_failed"
  | Ev2FAFailed => "login_2fa_failed"
  | EvRecoveryUsed => "login_recovery_used"
  | EvRateLimited => "login_ratelimited"
  | EvLogout => "logout"
  | EvTOTPEnabled => "totp_enabled"
  | EvTOTPDisabled => "totp_disabled"
  | EvRecoveryRenewed => "recovery_codes_regenerated"
  | EvPasskeyUsed => "passkey_used"
  | EvPasskeyEnrolled => "passkey_enrolled"
  | EvPasskeyRemoved => "passkey_removed"
  | EvPasskeyCloneSuspected => "passkey_clone_suspected"
  end.

Definition AllLoginEvents : list LoginEvent :=
  [EvLoginOK; EvLoginFailed; Ev2FAFailed; EvRecoveryUsed; EvRateLimited; EvLogout; EvTOTPEnabled; EvTOTPDisabled;
   EvRecoveryRenewed; EvPasskeyUsed; EvPasskeyEnrolled; EvPasskeyRemoved; EvPasskeyCloneSuspected].

(** [ValidLoginEvent], with the event the text names. *)
Definition ValidLoginEvent (s : string) : option LoginEvent :=
  head (filter (λ e, event_name e = s) AllLoginEvents).

Lemma ValidLoginEvent_name e : ValidLoginEvent (event_name e) = Some e.
Proof. by destruct e. Qed.

#[global] Instance LoginEvent_countable : Countable LoginEvent :=
  inj_countable event_name ValidLoginEvent ValidLoginEvent_name.

Record LogEventPayload := mkLogEvent { lp_Event : string; lp_Addr : string; lp_Left : Z; lp_Proxied : bool }.

Definition ProxyToken : string := " via-proxy".

(** ** The debouncer's state *)

Definition loginEventWindow : Z := 60 * 10 ^ 9.
Definition loginEventMaxAddrs : nat := N.to_nat 1024.

Definition debouncedEvents (e : LoginEvent) : bool :=
  match e with EvLoginFailed | Ev2FAFailed | EvRateLimited | EvLogout => true | _ => false end.

Record loginEventKey := mkEventKey { k_event : LoginEvent; k_addr : string; k_proxied : bool }.
#[global] Instance loginEventKey_eq_dec : EqDecision loginEventKey.
Proof. solve_decision. Defined.
#[global] Instance loginEventKey_countable : Countable loginEventKey :=
  inj_countable' (λ k, (k_event k, k_addr k, k_proxied k)) (λ '(e, a, p), mkEventKey e a p) (λ k, match k with mkEventKey _ _ _ => eq_refl end).

Record loginEventBucket := mkEventBucket { b_count : Z; b_opened : Z }.

Record loginEvents := mkLoginEvents {
  le_buckets : gmap loginEventKey loginEventBucket;
  le_overflow : gmap LoginEvent loginEventBucket }.

Definition newLoginEvents : loginEvents := mkLoginEvents ∅ ∅.

(** ** The lines *)

Inductive line :=
| LImmediate (e : LoginEvent) (addr : string) (left_ : Z) (proxied : bool)
| LFirst (k : loginEventKey)                   (* the first of a burst *)
| LFirstOverflow (k : loginEventKey)           (* the same, when the burst has no bucket of its own *)
| LMore (k : loginEventKey) (n : Z)
| LMoreOverflow (e : LoginEvent) (n : Z).

Definition addrDetail (addr : string) (proxied : bool) : string :=
  if String.eqb addr "" then ""
  else if proxied then "from " +:+ addr +:+ ProxyToken else "from " +:+ addr.

Definition immediateDetail (e : LoginEvent) (left_ : Z) (addr : string) (proxied : bool) : string :=
  let d := addrDetail addr proxied in
  if bool_decide (e = EvRecoveryUsed) then
    let l := Itoa left_ +:+ " recovery codes left" in
    if String.eqb d "" then l else d +:+ ", " +:+ l
  else d.

(** The action and the detail of the line; the user is ["web"]. *)
Definition render (l : line) : string * string :=
  match l with
  | LImmediate e addr n proxied => (event_name e, immediateDetail e n addr proxied)
  | LFirst k | LFirstOverflow k => (event_name (k_event k), addrDetail (k_addr k) (k_proxied k))
  | LMore k n =>
      let detail := Itoa n +:+ " more within " +:+ Itoa (loginEventWindow / 10 ^ 9) +:+ "s" in
      let from := addrDetail (k_addr k) (k_proxied k) in
      (event_name (k_event k), if String.eqb from "" then detail else from +:+ ", " +:+ detail)
  | LMoreOverflow e n =>
      (event_name e,
       "from more than " +:+ Itoa (Z.of_nat loginEventMaxAddrs) +:+ " addresses, " +:+ Itoa n +:+ " more within " +:+
       Itoa (loginEventWindow / 10 ^ 9) +:+ "s")
  end.

Definition flushLocked (k : loginEventKey) (b : loginEventBucket) : list line :=
  if b_count b <=? 1 then [] else [LMore k (b_count b - 1)].
Definition flushOverflowLocked (e : LoginEvent) (b : loginEventBucket) : list line :=
  if b_count b <=? 1 then [] else [LMoreOverflow e (b_count b - 1)].

(** ** record and sweep *)

Definition window_open (now : Z) (b : loginEventBucket) : bool := now - b_opened b <? loginEventWindow.
Definition bump (b : loginEventBucket) : loginEventBucket := mkEventBucket (b_count b + 1) (b_opened b).

(** The address as it is recorded. *)
Definition event_addr (s : string) : string :=
  match ParseAddr s with Some a => Addr_String (WithoutZone a) | None => "" end.

(** The end of [record], once the key has no open bucket. *)
Definition record_new (key : loginEventKey) (now : Z) (s : loginEvents) : list line * loginEvents :=
  if (loginEventMaxAddrs <=? size (le_buckets s))%nat then
    let e := k_event key in
    let fresh := mkLoginEvents (le_buckets s) (<[e := mkEventBucket 1 now]> (le_overflow s)) in
    match le_overflow s !! e with
    | Some o =>
        if window_open now o then ([], mkLoginEvents (le_buckets s) (<[e := bump o]> (le_overflow s)))
        else (flushOverflowLocked e o ++ [LFirstOverflow key], fresh)
    | None => ([LFirstOverflow key], fresh)
    end
  else ([LFirst key], mkLoginEvents (<[key := mkEventBucket 1 now]> (le_buckets s)) (le_overflow s)).

(** [None]: the event is not one the protocol declares. *)
Definition record (p : LogEventPayload) (now : Z) (s : loginEvents) : option (list line * loginEvents) :=
  match ValidLoginEvent (lp_Event p) with
  | None => None
  | Some e =>
      let addr := event_addr (lp_Addr p) in
      if negb (debouncedEvents e) then Some ([LImmediate e addr (lp_Left p) (lp_Proxied p)], s)
      else
        let key := mkEventKey e addr (lp_Proxied p) in
        match le_buckets s !! key with
        | Some b =>
            if window_open now b then Some ([], mkLoginEvents (<[key := bump b]> (le_buckets s)) (le_overflow s))
            else
              let '(ls, s) := record_new key now (mkLoginEvents (delete key (le_buckets s)) (le_overflow s)) in
              Some (flushLocked key b ++ ls, s)
        | None => Some (record_new key now s)
        end
  end.

(** One visit of each loop of [sweep]. *)
Definition sweep_bucket (now : Z) (st : list line * loginEvents) (k : loginEventKey) : list line * loginEvents :=
  let '(ls, s) := st in
  match le_buckets s !! k with
  | Some b =>
      if window_open now b then st
      else (ls ++ flushLocked k b, mkLoginEvents (delete k (le_buckets s)) (le_overflow s))
  | None => st
  end.
Definition sweep_overflow (now : Z) (st : list line * loginEvents) (e : LoginEvent) : list line * loginEvents :=
  let '(ls, s) := st in
  match le_overflow s !! e with
  | Some b =>
      if window_open now b then st
      else (ls ++ flushOverflowLocked e b, mkLoginEvents (le_buckets s) (delete e (le_overflow s)))
  | None => st
  end.

Definition sweep (now : Z) (keys : list loginEventKey) (evs : list LoginEvent) (s : loginEvents) : list line * loginEvents :=
  foldl (sweep_overflow now) (foldl (sweep_bucket now) ([], s) keys) evs.

(** The last sweep of [run], when the daemon stops. *)
Definition stop_sweep (now : Z) (keys : list loginEventKey) (evs : list LoginEvent) (s : loginEvents) : list line * loginEvents :=
  sweep (now + loginEventWindow) keys evs s.

(** ** Runs

    What was written and when, latest first. *)
Inductive le_event := ERecord (p : LogEventPayload) (now : Z) | ESweep (now : Z) (keys : list loginEventKey) (evs : list LoginEvent).
Definition le_time (e : le_event) : Z := match e with ERecord _ t | ESweep t _ _ => t end.

Definition written (now : Z) (ls : list line) (log : list (line * Z)) : list (line * Z) :=
  rev (map (λ l, (l, now)) ls) ++ log.

Definition le_step (st : loginEvents * list (line * Z)) (e : le_event) : loginEvents * list (line * Z) :=
  let '(s, log) := st in
  match e with
  | ERecord p now => match record p now s with Some (ls, s') => (s', written now ls log) | None => (s, log) end
  | ESweep now keys evs => let '(ls, s') := sweep now keys evs s in (s', written now ls log)
  end.
Definition le_run (evs : list le_event) : loginEvents * list (line * Z) := foldl le_step (newLoginEvents, []) evs.

Fixpoint le_ordered (t : Z) (evs : list le_event) : Prop :=
  match evs with [] => True | e :: evs => t <= le_time e ∧ le_ordered (le_time e) evs end.

(** Who a line is about, and how many events it reports. *)
Definition line_event (l : line) : LoginEvent :=
  match l with
  | LImmediate e _ _ _ | LMoreOverflow e _ => e
  | LFirst k | LFirstOverflow k | LMore k _ => k_event k
  end.
Definition line_count (l : line) : Z := match l with LMore _ n | LMoreOverflow _ n => n | _ => 1 end.

Definition reported (e : LoginEvent) (log : list (line * Z)) : Z :=
  foldr (λ x acc, (if bool_decide (line_event (fst x) = e) then line_count (fst x) else 0) + acc) 0 log.
Definition is_event (e : LoginEvent) (x : le_event) : bool :=
  match x with ERecord p _ => bool_decide (ValidLoginEvent (lp_Event p) = Some e) | _ => false end.
Definition received (e : LoginEvent) (evs : list le_event) : Z := Z.of_nat (length (filter (λ x, is_event e x = true) evs)).

(** The bursts: a key's own, or an event's overflow. *)
Inductive burst := BKey (k : loginEventKey) | BOverflow (e : LoginEvent).
#[global] Instance burst_eq_dec : EqDecision burst.
Proof. solve_decision. Defined.
Definition burst_of (s : loginEvents) (x : burst) : option loginEventBucket :=
  match x with BKey k => le_buckets s !! k | BOverflow e => le_overflow s !! e end.
Definition is_first (x : burst) (l : line) : bool :=
  match x, l with
  | BKey k, LFirst k' => bool_decide (k = k')
  | BOverflow e, LFirstOverflow k => bool_decide (e = k_event k)
  | _, _ => false
  end.
Definition is_more (x : burst) (l : line) : bool :=
  match x, l with
  | BKey k, LMore k' _ => bool_decide (k = k')
  | BOverflow e, LMoreOverflow e' _ => bool_decide (e = e')
  | _, _ => false
  end.
Definition times (p : line → bool) (log : list (line * Z)) : list Z :=
  map snd (filter (λ x, p (fst x) = true) log).

(** At least a window apart. *)
Fixpoint apart (l : list Z) : Prop :=
  match l with [] => True | t :: l => Forall (λ u, u + loginEventWindow <= t) l ∧ apart l end.

(** ** The invariant *)

(** The events a table still holds back. *)
Definition add_held {K} (ev : K → LoginEvent) (e : LoginEvent) (k : K) (b : loginEventBucket) (acc : Z) : Z :=
  (if bool_decide (ev k = e) then b_count b - 1 else 0) + acc.
Definition held {K} `{Countable K} (ev : K → LoginEvent) (e : LoginEvent) (m : gmap K loginEventBucket) : Z :=
  map_fold (add_held ev e) 0 m.
Definition held_back (e : LoginEvent) (s : loginEvents) : Z :=
  held k_event e (le_buckets s) + held (λ x, x) e (le_overflow s).

Definition burst_inv (t : Z) (b : option loginEventBucket) (firsts mores : list Z) : Prop :=
  match b with
  | Some b => 1 <= b_count b ∧ b_opened b <= t ∧
              Forall (λ u, u <= b_opened b) firsts ∧ Forall (λ u, u <= b_opened b) mores
  | None => Forall (λ u, u + loginEventWindow <= t) firsts ∧ Forall (λ u, u <= t) mores
  end ∧ apart firsts ∧ apart mores.

Record le_inv (t : Z) (s : loginEvents) (log : list (line * Z)) : Prop := {
  ei_burst : ∀ x, burst_inv t (burst_of s x) (times (is_first x) log) (times (is_more x) log);
  ei_size : (size (le_buckets s) ≤ loginEventMaxAddrs)%nat }.

Section held.
Context {K} `{Countable K} (ev : K → LoginEvent) (e : LoginEvent).
Implicit Types m : gmap K loginEventBucket.

Lemma held_delete m k b :
  m !! k = Some b → held ev e m = (if bool_decide (ev k = e) then b_count b - 1 else 0) + held ev e (delete k m).
Proof. intros Hb. unfold held. apply (map_fold_delete_L (add_held ev e)); [unfold add_held; intros; lia|done]. Qed.

Lemma held_insert m k b :
  m !! k = None → held ev e (<[k := b]> m) = (if bool_decide (ev k = e) then b_count b - 1 else 0) + held ev e m.
Proof. intros Hb. unfold held. apply (map_fold_insert_L (add_held ev e)); [unfold add_held; intros; lia|done]. Qed.

Lemma held_replace m k b b' :
  m !! k = Some b →
  held ev e (<[k := b']> m) = (if bool_decide (ev k = e) then b_count b' - b_count b else 0) + held ev e m.
Proof.
  intros Hb. rewrite <- (insert_delete_eq m k b'), held_insert by apply lookup_delete_eq.
  rewrite (held_delete m k b Hb). case_bool_decide; lia.
Qed.
End held.

(** ** Lines written *)

Definition told (e : LoginEvent) (ls : list line) : Z :=
  foldr (λ l acc, (if bool_decide (line_event l = e) then line_count l else 0) + acc) 0 ls.

Lemma written_cons now l ls log : written now (l :: ls) log = written now ls ((l, now) :: log).
Proof. unfold written. cbn [map rev]. by rewrite <- app_assoc. Qed.

Lemma written_app now ls ls' log : written now (ls ++ ls') log = written now ls' (written now ls log).
Proof. unfold written. by rewrite map_app, rev_app_distr, <- app_assoc. Qed.

Lemma told_app e ls ls' : told e (ls ++ ls') = told e ls + told e ls'.
Proof. unfold told. induction ls as [|l ls IH]; simpl in *; lia. Qed.

Lemma reported_written e now ls log : reported e (written now ls log) = told e ls + reported e log.
Proof.
  revert log; induction ls as [|l ls IH]; intros log; [done|].
  rewrite written_cons, IH. unfold told, reported. simpl. lia.
Qed.

Lemma times_cons p l t log : times p ((l, t) :: log) = if p l then t :: times p log else times p log.
Proof. unfold times. rewrite filter_cons. simpl. by destruct (p l). Qed.

Lemma times_other p now ls log : Forall (λ l, p l = false) ls → times p (written now ls log) = times p log.
Proof.
  revert log; induction ls as [|l ls IH]; intros log Hf; [done|]. inversion_clear Hf.
  rewrite written_cons, IH, times_cons by done. by destruct (p l).
Qed.

(** ** Each transition keeps its burst's invariant *)

Lemma burst_inv_later t t' b firsts mores : t <= t' → burst_inv t b firsts mores → burst_inv t' b firsts mores.
Proof.
  intros Ht [HB HA]. split; [|done]. destruct b as [b|]; [naive_solver lia|].
  destruct HB. split; eapply Forall_impl; eauto; simpl; lia.
Qed.

Lemma burst_inv_bump t b firsts mores :
  burst_inv t (Some b) firsts mores → burst_inv t (Some (bump b)) firsts mores.
Proof. intros [HB HA]. split; [|done]. simpl in *. naive_solver lia. Qed.

Lemma burst_inv_open t firsts mores :
  burst_inv t None firsts mores → burst_inv t (Some (mkEventBucket 1 t)) (t :: firsts) mores.
Proof.
  intros [[HF HM] [HA HA']]. split; [|by split; [split|]]. simpl. repeat split; [lia|lia| |done].
  constructor; [lia|]. eapply Forall_impl; [exact HF|]. simpl. unfold loginEventWindow. lia.
Qed.

Lemma burst_inv_close t b firsts mores (more : bool) :
  window_open t b = false → burst_inv t (Some b) firsts mores →
  burst_inv t None firsts (if more then t :: mores else mores).
Proof.
  intros Hw [(_ & Ho & HF & HM) [HA HA']]. unfold window_open in Hw. breflect.
  assert (Forall (λ u, u + loginEventWindow <= t) mores) by (eapply Forall_impl; [exact HM|]; simpl; lia).
  assert (Forall (λ u, u <= t) mores) by (eapply Forall_impl; [exact HM|]; simpl; lia).
  split; [split; [eapply Forall_impl; [exact HF|]; simpl; lia|destruct more; [by constructor|done]]|].
  split; [done|]. destruct more; [by split|done].
Qed.

(** A transition of one burst, the lines about it alone. *)
Definition about (x : burst) (l : line) : Prop := ∀ y, y ≠ x → is_first y l = false ∧ is_more y l = false.

Lemma le_inv_set t s s' log x ls :
  le_inv t s log → (∀ y, y ≠ x → burst_of s' y = burst_of s y) → Forall (about x) ls →
  burst_inv t (burst_of s' x) (times (is_first x) (written t ls log)) (times (is_more x) (written t ls log)) →
  (size (le_buckets s') ≤ loginEventMaxAddrs)%nat →
  le_inv t s' (written t ls log).
Proof.
  intros HI Ho Hl Hx Hsz. constructor; [|done]. intros y. destruct (decide (y = x)) as [->|Hne]; [done|].
  rewrite Ho by done. rewrite !times_other; [apply HI| |]; eapply Forall_impl; try exact Hl; intros l Ha; by apply Ha.
Qed.

Lemma about_first k : about (BKey k) (LFirst k).
Proof. intros [k'|e] Hne; simpl; [|done]. case_bool_decide; [naive_solver|done]. Qed.
Lemma about_first_overflow k : about (BOverflow (k_event k)) (LFirstOverflow k).
Proof. intros [k'|e] Hne; simpl; [done|]. case_bool_decide; [naive_solver|done]. Qed.
Lemma about_flush k b : Forall (about (BKey k)) (flushLocked k b).
Proof.
  unfold flushLocked. case_match; [done|]. apply Forall_singleton. intros [k'|e] Hne; simpl; [|done].
  case_bool_decide; [naive_solver|done].
Qed.
Lemma about_flush_overflow e b : Forall (about (BOverflow e)) (flushOverflowLocked e b).
Proof.
  unfold flushOverflowLocked. case_match; [done|]. apply Forall_singleton. intros [k'|e'] Hne; simpl; [done|].
  case_bool_decide; [naive_solver|done].
Qed.

Lemma times_flush k b t log :
  times (is_first (BKey k)) (written t (flushLocked k b) log) = times (is_first (BKey k)) log ∧
  times (is_more (BKey k)) (written t (flushLocked k b) log) =
  if 1 <? b_count b then t :: times (is_more (BKey k)) log else times (is_more (BKey k)) log.
Proof.
  unfold flushLocked. destruct (Z.leb_spec (b_count b) 1), (Z.ltb_spec 1 (b_count b)); try lia; [done|].
  rewrite written_cons. unfold written. simpl. rewrite !times_cons. simpl. by rewrite bool_decide_eq_true_2.
Qed.
Lemma times_flush_overflow e b t log :
  times (is_first (BOverflow e)) (written t (flushOverflowLocked e b) log) = times (is_first (BOverflow e)) log ∧
  times (is_more (BOverflow e)) (written t (flushOverflowLocked e b) log) =
  if 1 <? b_count b then t :: times (is_more (BOverflow e)) log else times (is_more (BOverflow e)) log.
Proof.
  unfold flushOverflowLocked. destruct (Z.leb_spec (b_count b) 1), (Z.ltb_spec 1 (b_count b)); try lia; [done|].
  rewrite written_cons. unfold written. simpl. rewrite !times_cons. simpl. by rewrite bool_decide_eq_true_2.
Qed.

Lemma le_inv_later t t' s log : t <= t' → le_inv t s log → le_inv t' s log.
Proof. intros Ht [HB HS]. constructor; [|done]. intros x. eapply burst_inv_later; eauto. Qed.

(** Closing a key's burst, and opening one. *)
Lemma le_inv_close t s log k b :
  le_inv t s log → le_buckets s !! k = Some b → window_open t b = false →
  le_inv t (mkLoginEvents (delete k (le_buckets s)) (le_overflow s)) (written t (flushLocked k b) log).
Proof.
  intros HI Hb Hw. apply (le_inv_set t s _ _ (BKey k)); [done| |apply about_flush| |].
  - intros [k'|e] Hne; simpl; [|done]. apply lookup_delete_ne. naive_solver.
  - destruct (times_flush k b t log) as [-> ->]. simpl. rewrite lookup_delete_eq.
    eapply burst_inv_close; [exact Hw|]. rewrite <- Hb. apply (ei_burst _ _ _ HI (BKey k)).
  - pose proof (ei_size _ _ _ HI). simpl. rewrite map_size_delete, Hb. lia.
Qed.

Lemma le_inv_close_overflow t s log e b :
  le_inv t s log → le_overflow s !! e = Some b → window_open t b = false →
  le_inv t (mkLoginEvents (le_buckets s) (delete e (le_overflow s))) (written t (flushOverflowLocked e b) log).
Proof.
  intros HI Hb Hw. apply (le_inv_set t s _ _ (BOverflow e)); [done| |apply about_flush_overflow| |apply HI].
  - intros [k'|e'] Hne; simpl; [done|]. apply lookup_delete_ne. naive_solver.
  - destruct (times_flush_overflow e b t log) as [-> ->]. simpl. rewrite lookup_delete_eq.
    eapply burst_inv_close; [exact Hw|]. rewrite <- Hb. apply (ei_burst _ _ _ HI (BOverflow e)).
Qed.

Lemma le_inv_open t s log k :
  le_inv t s log → le_buckets s !! k = None → (size (le_buckets s) < loginEventMaxAddrs)%nat →
  le_inv t (mkLoginEvents (<[k := mkEventBucket 1 t]> (le_buckets s)) (le_overflow s)) (written t [LFirst k] log).
Proof.
  intros HI Hb Hsz. apply (le_inv_set t s _ _ (BKey k)); [done| | | |].
  - intros [k'|e] Hne; simpl; [|done]. apply lookup_insert_ne. naive_solver.
  - apply Forall_singleton, about_first.
  - rewrite written_cons. unfold written. simpl. rewrite !times_cons, lookup_insert_eq. simpl.
    rewrite bool_decide_eq_true_2 by done. apply burst_inv_open. rewrite <- Hb. apply (ei_burst _ _ _ HI (BKey k)).
  - simpl. rewrite map_size_insert, Hb. lia.
Qed.

Lemma le_inv_open_overflow t s log k :
  le_inv t s log → le_overflow s !! k_event k = None →
  le_inv t (mkLoginEvents (le_buckets s) (<[k_event k := mkEventBucket 1 t]> (le_overflow s))) (written t [LFirstOverflow k] log).
Proof.
  intros HI Hb. apply (le_inv_set t s _ _ (BOverflow (k_event k))); [done| | | |apply HI].
  - intros [k'|e] Hne; simpl; [done|]. apply lookup_insert_ne. naive_solver.
  - apply Forall_singleton, about_first_overflow.
  - rewrite written_cons. unfold written. simpl. rewrite !times_cons, lookup_insert_eq. simpl.
    rewrite bool_decide_eq_true_2 by done. apply burst_inv_open. rewrite <- Hb. apply (ei_burst _ _ _ HI (BOverflow (k_event k))).
Qed.

Lemma le_inv_bump t s log k b :
  le_inv t s log → le_buckets s !! k = Some b →
  le_inv t (mkLoginEvents (<[k := bump b]> (le_buckets s)) (le_overflow s)) log.
Proof.
  intros HI Hb. apply (le_inv_set t s _ log (BKey k) []); [done| |done| |].
  - intros [k'|e] Hne; simpl; [|done]. apply lookup_insert_ne. naive_solver.
  - simpl. rewrite lookup_insert_eq. apply burst_inv_bump. rewrite <- Hb. apply (ei_burst _ _ _ HI (BKey k)).
  - pose proof (ei_size _ _ _ HI). simpl. by rewrite map_size_insert, Hb.
Qed.

Lemma le_inv_bump_overflow t s log e b :
  le_inv t s log → le_overflow s !! e = Some b →
  le_inv t (mkLoginEvents (le_buckets s) (<[e := bump b]> (le_overflow s))) log.
Proof.
  intros HI Hb. apply (le_inv_set t s _ log (BOverflow e) []); [done| |done| |apply HI].
  - intros [k'|e'] Hne; simpl; [done|]. apply lookup_insert_ne. naive_solver.
  - simpl. rewrite lookup_insert_eq. apply burst_inv_bump. rewrite <- Hb. apply (ei_burst _ _ _ HI (BOverflow e)).
Qed.

(** A line outside any burst. *)
Lemma le_inv_immediate t s log e addr n p :
  le_inv t s log → le_inv t s (written t [LImmediate e addr n p] log).
Proof.
  intros [HB HS]. constructor; [|done]. intros x.
  rewrite !times_other; [apply HB| |]; apply Forall_singleton; by destruct x.
Qed.

(** ** The operations *)

Lemma told_flush e t s log k b :
  le_inv t s log → le_buckets s !! k = Some b →
  told e (flushLocked k b) = if bool_decide (k_event k = e) then b_count b - 1 else 0.
Proof.
  intros HI Hb. pose proof (ei_burst _ _ _ HI (BKey k)) as [HB _]. simpl in HB. rewrite Hb in HB. destruct HB as [Hc _].
  unfold flushLocked, told. destruct (Z.leb_spec (b_count b) 1); simpl; case_bool_decide; lia.
Qed.

Lemma told_flush_overflow e e' t s log b :
  le_inv t s log → le_overflow s !! e' = Some b →
  told e (flushOverflowLocked e' b) = if bool_decide (e' = e) then b_count b - 1 else 0.
Proof.
  intros HI Hb. pose proof (ei_burst _ _ _ HI (BOverflow e')) as [HB _]. simpl in HB. rewrite Hb in HB. destruct HB as [Hc _].
  unfold flushOverflowLocked, told. destruct (Z.leb_spec (b_count b) 1); simpl; case_bool_decide; lia.
Qed.

Definition one (e e' : LoginEvent) : Z := if bool_decide (e' = e) then 1 else 0.

Lemma record_new_inv t key s log :
  le_inv t s log → le_buckets s !! key = None →
  let '(ls, s') := record_new key t s in
  le_inv t s' (written t ls log) ∧ ∀ e, told e ls + held_back e s' = one e (k_event key) + held_back e s.
Proof.
  intros HI Hk. unfold record_new, held_back, one. destruct (Nat.leb_spec loginEventMaxAddrs (size (le_buckets s))).
  - destruct (le_overflow s !! k_event key) as [o|] eqn:Eo; [destruct (window_open t o) eqn:Ew|].
    + split; [by apply le_inv_bump_overflow|]. intros e. simpl. rewrite (held_replace _ _ _ _ o) by done. simpl.
      case_bool_decide; lia.
    + pose proof (le_inv_close_overflow t s log _ o HI Eo Ew) as HC.
      pose proof (le_inv_open_overflow t _ _ key HC ltac:(apply lookup_delete_eq)) as HO. simpl in HO.
      rewrite insert_delete_eq in HO. rewrite written_app. split; [exact HO|]. intros e.
      rewrite told_app, (told_flush_overflow e _ t s log o) by done. simpl.
      rewrite (held_replace _ _ _ _ o) by done. simpl. case_bool_decide; lia.
    + split; [by apply le_inv_open_overflow|]. intros e. simpl. rewrite held_insert by done. simpl. case_bool_decide; lia.
  - split; [by apply le_inv_open|]. intros e. simpl. rewrite held_insert by done. simpl. case_bool_decide; lia.
Qed.

Lemma record_inv t p s log :
  le_inv t s log →
  match record p t s with
  | Some (ls, s') =>
      le_inv t s' (written t ls log) ∧
      ∀ e, told e ls + held_back e s' = (if bool_decide (ValidLoginEvent (lp_Event p) = Some e) then 1 else 0) + held_back e s
  | None => ValidLoginEvent (lp_Event p) = None
  end.
Proof.
  intros HI. unfold record. destruct (ValidLoginEvent (lp_Event p)) as [ev|] eqn:Ev; [|done].
  assert (∀ e, (if bool_decide (Some ev = Some e) then 1 else 0) = one e ev) as Hone.
  { intros e. unfold one. by rewrite (bool_decide_ext (Some ev = Some e) (ev = e)) by naive_solver. }
  destruct (debouncedEvents ev); simpl negb.
  2:{ split; [by apply le_inv_immediate|]. intros e. rewrite Hone. unfold one. simpl. case_bool_decide; lia. }
  set (key := mkEventKey ev (event_addr (lp_Addr p)) (lp_Proxied p)).
  destruct (le_buckets s !! key) as [b|] eqn:Eb; [destruct (window_open t b) eqn:Ew|].
  - split; [by apply le_inv_bump|]. intros e. rewrite Hone. unfold held_back, one. simpl.
    rewrite (held_replace _ _ _ _ b) by done. simpl. case_bool_decide; lia.
  - pose proof (le_inv_close t s log key b HI Eb Ew) as HC.
    pose proof (record_new_inv t key _ _ HC ltac:(apply lookup_delete_eq)) as HR.
    destruct (record_new key t _) as [ls s']. destruct HR as [HR HT]. rewrite written_app. split; [done|].
    intros e. rewrite Hone, told_app, (told_flush e t s log key b) by done. specialize (HT e).
    unfold held_back in *. simpl in HT. rewrite (held_delete _ _ (le_buckets s) key b) by done. lia.
  - pose proof (record_new_inv t key s log HI Eb) as HR. destruct (record_new key t s) as [ls s'].
    destruct HR as [HR HT]. split; [done|]. intros e. rewrite Hone. apply HT.
Qed.

(** What a sweep has done so far: the invariant over what it wrote, and
    nothing lost. *)
Definition swept (t : Z) (s0 : loginEvents) (log : list (line * Z)) (st : list line * loginEvents) : Prop :=
  le_inv t (snd st) (written t (fst st) log) ∧ ∀ e, told e (fst st) + held_back e (snd st) = held_back e s0.

Lemma sweep_bucket_inv t s0 log st k : swept t s0 log st → swept t s0 log (sweep_bucket t st k).
Proof.
  destruct st as [ls s]. intros [HI HT]. simpl in *. destruct (le_buckets s !! k) as [b|] eqn:Eb; [|done].
  destruct (window_open t b) eqn:Ew; [done|]. split; simpl.
  - rewrite written_app. by apply le_inv_close.
  - intros e. rewrite told_app, (told_flush e t s (written t ls log) k b) by done. rewrite <- (HT e).
    unfold held_back. simpl. rewrite (held_delete k_event e (le_buckets s) k b) by done. lia.
Qed.

Lemma sweep_overflow_inv t s0 log st e : swept t s0 log st → swept t s0 log (sweep_overflow t st e).
Proof.
  destruct st as [ls s]. intros [HI HT]. simpl in *. destruct (le_overflow s !! e) as [b|] eqn:Eb; [|done].
  destruct (window_open t b) eqn:Ew; [done|]. split; simpl.
  - rewrite written_app. by apply le_inv_close_overflow.
  - intros e'. rewrite told_app, (told_flush_overflow e' e t s (written t ls log) b) by done. rewrite <- (HT e').
    unfold held_back. simpl. rewrite (held_delete (λ x, x) e' (le_overflow s) e b) by done. lia.
Qed.

Lemma sweep_inv t keys evs s log : le_inv t s log → swept t s log (sweep t keys evs s).
Proof.
  intros HI. unfold sweep. apply foldl_inv; [intros; by apply sweep_overflow_inv|].
  apply foldl_inv; [intros; by apply sweep_bucket_inv|]. split; [done|]. intros e. simpl. lia.
Qed.

Lemma sweep_buckets_closed t keys s ls :
  (∀ k b, le_buckets s !! k = Some b → window_open t b = false) → (∀ k, is_Some (le_buckets s !! k) → k ∈ keys) →
  snd (foldl (sweep_bucket t) (ls, s) keys) = mkLoginEvents ∅ (le_overflow s).
Proof.
  revert s ls; induction keys as [|k keys IH]; intros [m o] ls Hc Hk; simpl in *.
  - f_equal. apply map_empty. intros k. destruct (m !! k) eqn:E; [|done].
    exfalso. by eapply not_elem_of_nil, Hk, mk_is_Some.
  - destruct (m !! k) as [b|] eqn:Eb; [rewrite (Hc k b) by done|]; rewrite IH; simpl; [done| | |done|exact Hc|].
    + intros k' b' [_ Hb']%lookup_delete_Some. by eapply Hc.
    + intros k' [b' [Hne Hb']%lookup_delete_Some]. by apply mk_is_Some, Hk, elem_of_cons in Hb' as [->|?].
    + intros k' [b' Hb']. apply mk_is_Some in Hb' as Hs. apply Hk, elem_of_cons in Hs as [->|?]; [congruence|done].
Qed.

Lemma sweep_overflow_closed t evs s ls :
  (∀ k b, le_overflow s !! k = Some b → window_open t b = false) → (∀ k, is_Some (le_overflow s !! k) → k ∈ evs) →
  snd (foldl (sweep_overflow t) (ls, s) evs) = mkLoginEvents (le_buckets s) ∅.
Proof.
  revert s ls; induction evs as [|k evs IH]; intros [m o] ls Hc Hk; simpl in *.
  - f_equal. apply map_empty. intros k. destruct (o !! k) eqn:E; [|done].
    exfalso. by eapply not_elem_of_nil, Hk, mk_is_Some.
  - destruct (o !! k) as [b|] eqn:Eb; [rewrite (Hc k b) by done|]; rewrite IH; simpl; [done| | |done|exact Hc|].
    + intros k' b' [_ Hb']%lookup_delete_Some. by eapply Hc.
    + intros k' [b' [Hne Hb']%lookup_delete_Some]. by apply mk_is_Some, Hk, elem_of_cons in Hb' as [->|?].
    + intros k' [b' Hb']. apply mk_is_Some in Hb' as Hs. apply Hk, elem_of_cons in Hs as [->|?]; [congruence|done].
Qed.

(** Every burst is closed once a window has passed. *)
Lemma le_inv_closed t t' s log :
  le_inv t s log → t <= t' →
  (∀ k b, le_buckets s !! k = Some b → window_open (t' + loginEventWindow) b = false) ∧
  (∀ e b, le_overflow s !! e = Some b → window_open (t' + loginEventWindow) b = false).
Proof.
  intros HI Ht. split; intros x b Hb.
  - pose proof (ei_burst _ _ _ HI (BKey x)) as [HB _]. simpl in HB. rewrite Hb in HB.
    unfold window_open. destruct HB as (_ & Ho & _). lia.
  - pose proof (ei_burst _ _ _ HI (BOverflow x)) as [HB _]. simpl in HB. rewrite Hb in HB.
    unfold window_open. destruct HB as (_ & Ho & _). lia.
Qed.

Lemma stop_sweep_empties t now keys evs s log :
  le_inv t s log → t <= now →
  (∀ k, is_Some (le_buckets s !! k) → k ∈ keys) → (∀ e, is_Some (le_overflow s !! e) → e ∈ evs) →
  snd (stop_sweep now keys evs s) = newLoginEvents.
Proof.
  intros HI Ht Hk He. destruct (le_inv_closed t now s log HI Ht) as [HB HO]. unfold stop_sweep, sweep.
  pose proof (sweep_buckets_closed _ keys s [] HB Hk) as HS.
  destruct (foldl (sweep_bucket _) ([], s) keys) as [ls s1]. simpl in HS. subst s1.
  by rewrite sweep_overflow_closed.
Qed.

Lemma received_cons e x evs : received e (x :: evs) = (if is_event e x then 1 else 0) + received e evs.
Proof. unfold received. rewrite filter_cons. destruct (is_event e x); simpl; lia. Qed.

Lemma le_run_inv t evs s log :
  le_inv t s log → le_ordered t evs →
  let '(s', log') := foldl le_step (s, log) evs in
  (∃ t', t <= t' ∧ t' = foldl (λ _ x, le_time x) t evs ∧ le_inv t' s' log') ∧
  ∀ e, reported e log' + held_back e s' = received e evs + (reported e log + held_back e s).
Proof.
  revert t s log; induction evs as [|x evs IH]; intros t s log HI Ho; [split; [exists t; split; [lia|done]|done]|].
  destruct Ho as [Ht Ho]. cbn [foldl].
  assert (let '(s', log') := le_step (s, log) x in
          le_inv (le_time x) s' log' ∧
          ∀ e, reported e log' + held_back e s' = (if is_event e x then 1 else 0) + (reported e log + held_back e s)) as HS.
  { apply (le_inv_later _ _ _ _ Ht) in HI. destruct x as [p now|now keys es]; simpl in *.
    - pose proof (record_inv now p s log HI) as HR. destruct (record p now s) as [[ls s']|].
      + destruct HR as [HR HT]. split; [done|]. intros e. rewrite reported_written. specialize (HT e).
        case_bool_decide; lia.
      + split; [done|]. intros e. by rewrite HR, bool_decide_eq_false_2.
    - pose proof (sweep_inv now keys es s log HI) as [HR HT]. destruct (sweep now keys es s) as [ls s'].
      simpl in *. split; [done|]. intros e. rewrite reported_written. specialize (HT e). lia. }
  destruct (le_step (s, log) x) as [s1 log1]. destruct HS as [HI1 HT1].
  specialize (IH (le_time x) s1 log1 HI1 Ho). destruct (foldl le_step (s1, log1) evs) as [s2 log2].
  destruct IH as [(t' & Ht' & Heq & HI2) HT2]. split; [exists t'; split; [lia|by split]|].
  intros e. rewrite received_cons, HT2, HT1. lia.
Qed.

Lemma le_inv_init : le_inv 0 newLoginEvents [].
Proof. constructor; [|simpl; rewrite map_size_empty; lia]. intros [k|e]; simpl; rewrite lookup_empty; by split. Qed.

(** C20: The audit log tells every sign-in event and cannot be flooded by one
    address.  However records and sweeps interleave, the lines written and the
    counts still held add up, for every event, to the events received; when
    the daemon stops nothing is held back.  The first lines of one burst are a
    minute or more apart and so are its summaries, so an address takes at most
    two lines a minute of each event, and there are never more than
    [loginEventMaxAddrs] addresses with a burst of their own. *)
Theorem login_events_are_all_told evs now keys es :
  le_ordered 0 evs → foldl (λ _ x, le_time x) 0 evs <= now →
  let '(s, log) := le_run evs in
  (∀ k, is_Some (le_buckets s !! k) → k ∈ keys) → (∀ e, is_Some (le_overflow s !! e) → e ∈ es) →
  let '(ls, s') := stop_sweep now keys es s in
  let log' := written (now + loginEventWindow) ls log in
  s' = newLoginEvents ∧ (size (le_buckets s) ≤ loginEventMaxAddrs)%nat ∧
  (∀ e, reported e log + held_back e s = received e evs ∧ reported e log' = received e evs) ∧
  (∀ x, apart (times (is_first x) log') ∧ apart (times (is_more x) log')).
Proof.
  intros Ho Hnow. pose proof (le_run_inv 0 evs newLoginEvents [] le_inv_init Ho) as HR.
  fold (le_run evs) in HR. destruct (le_run evs) as [s log]. destruct HR as [(t & _ & -> & HI) HT].
  intros Hk He. pose proof (stop_sweep_empties _ now keys es s log HI Hnow Hk He) as HE.
  apply (le_inv_later _ (now + loginEventWindow)) in HI as HI'; [|unfold loginEventWindow; lia].
  pose proof (sweep_inv _ keys es s log HI') as [HS HT']. unfold stop_sweep in HE |- *.
  destruct (sweep _ keys es s) as [ls s']. simpl in HE, HS, HT'. subst s'. split; [done|]. split; [apply HI|].
  assert (∀ e, reported e log + held_back e s = received e evs) as Hacc.
  { intros e. rewrite HT. unfold held_back, held. simpl. rewrite !map_fold_empty. lia. }
  split.
  - intros e. split; [apply Hacc|]. rewrite reported_written, <- Hacc, <- HT'. unfold held_back, held. simpl.
    rewrite !map_fold_empty. lia.
  - intros x. pose proof (ei_burst _ _ _ HS x) as [_ HA]. exact HA.
Qed.

(** Three failures from one address, the last in another spelling, two
    logouts, a success: what the log says after the daemon stops. *)
Definition le_sample : list le_event :=
  let ev n a := mkLogEvent n a 0 false in
  [ERecord (ev "login_failed" "2001:db8::1") 1; ERecord (ev "login_failed" "2001:DB8:0::1") 2;
   ERecord (ev "logout" "198.51.100.7") 3; ERecord (ev "login_failed" "2001:db8::1%eth0") 4;
   ESweep (5 * 10 ^ 9) [] []; ERecord (ev "login_ok" "198.51.100.7") (6 * 10 ^ 9); ERecord (ev "no_such" "") (7 * 10 ^ 9)].
Definition le_sample_keys : list loginEventKey :=
  [mkEventKey EvLoginFailed "2001:db8::1" false; mkEventKey EvLogout "198.51.100.7" false].

Example le_sample_log :
  let '(s, log) := le_run le_sample in
  map (λ x, render (fst x)) (rev (written 0 (stop_sweep (8 * 10 ^ 9) le_sample_keys [] s).1 log)) =
  [("login_failed", "from 2001:db8::1"); ("logout", "from 198.51.100.7"); ("login_ok", "from 198.51.100.7");
   ("login_failed", "from 2001:db8::1, 2 more within 60s")].
Proof. vm_compute. reflexivity. Qed.

Lemma login_events_are_all_told_witness :
  let '(s, log) := le_run le_sample in
  reported EvLoginFailed (written (68 * 10 ^ 9) (stop_sweep (8 * 10 ^ 9) le_sample_keys [] s).1 log) = 3.
Proof.
  pose proof (login_events_are_all_told le_sample (8 * 10 ^ 9) le_sample_keys []
    ltac:(cbn; lia) ltac:(cbn; lia)) as H.
  assert (bool_decide (map_Forall (λ k _, k ∈ le_sample_keys) (le_buckets (le_run le_sample).1)) = true) as Hk
    by (vm_compute; reflexivity).
  assert (bool_decide (le_overflow (le_run le_sample).1 = ∅) = true) as He by (vm_compute; reflexivity).
  apply bool_decide_eq_true in Hk, He. destruct (le_run le_sample) as [s log]. cbn [fst] in Hk, He.
  specialize (H ltac:(intros k [b Hb]; by eapply Hk) ltac:(rewrite He; intros e [b Hb]; by rewrite lookup_empty in Hb)).
  destruct (stop_sweep _ _ _ s) as [ls s']. destruct H as (_ & _ & Hacc & _).
  destruct (Hacc EvLoginFailed) as [_ Hr]. exact Hr.
Defined.
