(* ===== verification/LoginLimit.v ===== *)
(** * The sign-in limiter

    [LoginRateLimit] and [sweepLoginBuckets] of
    [src/internal/web/middleware.go]: at most [loginBudget] sign-in attempts a
    subscriber in any ten minutes.  The token bucket itself is
    [golang.org/x/time/rate], not code of this repository, so it is an
    interface here: its operations and the behaviour its documentation
    promises, a bucket of [burst] tokens, full at first, that gains one token
    every [every] nanoseconds.  Times are nanoseconds. *)
From S2P Require Import Prelude GoStrings GoNet WebAddr.

Local Open Scope Z_scope.

(** ** The interface *)

(** [rate.NewLimiter(rate.Every(every), burst)], [AllowN(now, 1)] and
    [TokensAt(now) >= burst]. *)
Class TokenBucket (L : Type) := {
  NewLimiter : L;
  AllowN : Z → L → bool * L;
  FullAt : Z → L → bool }.

(** What the documentation promises.  [credit l t] is what the bucket holds at
    [t], in nanoseconds of refill: a token is [every] of them.  [used_until l
    t]: the bucket was not used after [t]. *)
Class TokenBucketLaws (every burst : Z) (L : Type) `{TokenBucket L} := {
  credit : L → Z → Z;
  used_until : L → Z → Prop;
  used_new t : used_until NewLimiter t;
  used_later l t t' : used_until l t → t <= t' → used_until l t';
  used_allow l t : used_until l t → used_until (AllowN t l).2 t;
  credit_new t : credit NewLimiter t = burst * every;
  credit_range l t : used_until l t → 0 <= credit l t <= burst * every;
  credit_refill l t t' : used_until l t → t <= t' →
    credit l t' = Z.min (burst * every) (credit l t + (t' - t));
  allow_spec l t : used_until l t → (AllowN t l).1 = (every <=? credit l t);
  credit_allow l t : used_until l t →
    credit (AllowN t l).2 t = if every <=? credit l t then credit l t - every else credit l t;
  full_spec l t : used_until l t → FullAt t l = (burst * every <=? credit l t) }.

(** ** The limiter *)

Definition minute : Z := 60 * 10 ^ 9.
Definition loginBudget : Z := 5.
Definition loginBudgetRefill : Z := 10 * minute.
Definition loginMaxBuckets : nat := N.to_nat 65536.

Record rateBucket (L : Type) := mkBucket { lim : L; lastSeen : Z }.
Arguments mkBucket {L} lim lastSeen.
Arguments lim {L} r.
Arguments lastSeen {L} r.

Section limiter.
Context {L : Type} `{TokenBucket L}.

(** A bucket that limits nobody. *)
Definition idle (now : Z) (b : rateBucket L) : bool :=
  (15 * minute <? now - lastSeen b) || FullAt now (lim b).

Definition sweepLoginBuckets (now : Z) (buckets : gmap string (rateBucket L)) : gmap string (rateBucket L) :=
  filter (λ x, idle now (snd x) = false) buckets.

(** The [default] case of the switch. *)
Definition use_bucket (key : string) (now : Z) (l : L) (buckets : gmap string (rateBucket L)) : bool * gmap string (rateBucket L) :=
  let '(allowed, l) := AllowN now l in (allowed, <[key := mkBucket l now]> buckets).

(** The critical section of the middleware. *)
Definition limit_key (key : string) (now : Z) (buckets : gmap string (rateBucket L)) : bool * gmap string (rateBucket L) :=
  match buckets !! key with
  | None => if (loginMaxBuckets <=? size buckets)%nat then (false, buckets) else use_bucket key now NewLimiter buckets
  | Some b => use_bucket key now (lim b) buckets
  end.

(** What the middleware does with the request: hand it on, or answer 429 after
    [onBlocked] with the address and whether it is a proxy's. *)
Inductive limited := Next | Blocked (ip : string) (proxied : bool).

Definition LoginRateLimit (trusted : list string) (r : Request) (now : Z) (buckets : gmap string (rateBucket L)) :
    limited * gmap string (rateBucket L) :=
  let '(ip, proxied) := resolveClient r trusted in
  let '(allowed, buckets) := limit_key (limiterKey ip) now buckets in
  (if allowed then Next else Blocked ip proxied, buckets).

(** ** Runs *)

Inductive lim_event := LRequest (r : Request) (now : Z) | LSweep (now : Z).
Definition lim_time (e : lim_event) : Z := match e with LRequest _ t | LSweep t => t end.

(** The request's key, and the admitted ones with their time, latest first. *)
Definition request_key (trusted : list string) (r : Request) : string := limiterKey (resolveClient r trusted).1.

Definition lim_step (trusted : list string) (st : gmap string (rateBucket L) * list (string * Z)) (e : lim_event) :
    gmap string (rateBucket L) * list (string * Z) :=
  let '(buckets, log) := st in
  match e with
  | LSweep now => (sweepLoginBuckets now buckets, log)
  | LRequest r now =>
      let '(res, buckets) := LoginRateLimit trusted r now buckets in
      (buckets, match res with Next => (request_key trusted r, now) :: log | Blocked _ _ => log end)
  end.

(** Admitted under [k] at a time [t] with [p t]. *)
Definition admitted (k : string) (p : Z → bool) (log : list (string * Z)) : Z :=
  Z.of_nat (length (filter (λ e, fst e = k ∧ p (snd e) = true) log)).

Definition since (s t : Z) : bool := s <=? t.
Definition window (a t : Z) : bool := (a <=? t) && (t <? a + loginBudgetRefill).

(** Events in the order of their times. *)
Fixpoint in_order (t : Z) (evs : list lim_event) : Prop :=
  match evs with [] => True | e :: evs => t <= lim_time e ∧ in_order (lim_time e) evs end.

(** ** The invariant *)

Context `{!TokenBucketLaws loginBudgetRefill loginBudget L}.

Definition full_credit : Z := loginBudget * loginBudgetRefill.
Definition bucket_credit (b : option (rateBucket L)) (t : Z) : Z :=
  match b with Some b => credit (lim b) t | None => full_credit end.

Record lim_inv (t : Z) (buckets : gmap string (rateBucket L)) (log : list (string * Z)) : Prop := {
  li_past : ∀ k u, (k, u) ∈ log → u <= t;
  li_bucket : ∀ k b, buckets !! k = Some b →
    used_until (lim b) t ∧ ∀ u, (k, u) ∈ log → u <= lastSeen b;
  li_credit : ∀ k s, t - 15 * minute <= s <= t →
    admitted k (since s) log * loginBudgetRefill + bucket_credit (buckets !! k) t <= full_credit + (t - s);
  li_window : ∀ k a, admitted k (window a) log <= loginBudget;
  li_size : (size buckets ≤ loginMaxBuckets)%nat }.

Lemma admitted_cons k p k' u log :
  admitted k p ((k', u) :: log) = (if bool_decide (k' = k) && p u then 1 else 0) + admitted k p log.
Proof using.
  unfold admitted. rewrite filter_cons. cbn [fst snd].
  destruct (decide (k' = k ∧ p u = true)) as [[Hk Hp]|Hn].
  - rewrite bool_decide_eq_true_2, Hp by done. simpl length. simpl. lia.
  - destruct (bool_decide_reflect (k' = k)) as [Hk|Hk], (p u) eqn:Hp; simpl; [by destruct Hn|done..].
Qed.

Lemma admitted_none k p log : (∀ u, (k, u) ∈ log → p u = false) → admitted k p log = 0.
Proof using.
  intros Hn. unfold admitted. replace (filter _ log) with (@nil (string * Z)); [done|]. symmetry.
  apply filter_nil_iff. intros [k' u] Hin [Hk Hp]. simpl in *. subst. by rewrite Hn in Hp.
Qed.

Lemma admitted_le k p q log : (∀ u, (k, u) ∈ log → p u = true → q u = true) → admitted k p log <= admitted k q log.
Proof using.
  intros Hpq. induction log as [|[k' u] log IH]; [done|]. rewrite !admitted_cons.
  assert (admitted k p log <= admitted k q log) by (apply IH; intros v Hv; apply Hpq; by right).
  case_bool_decide as Hk; simpl; [|lia]. subst. specialize (Hpq u ltac:(by left)).
  destruct (p u); [rewrite Hpq by done; lia|]. destruct (q u); lia.
Qed.

(** Time passes. *)
Lemma lim_inv_later t t' buckets log : t <= t' → lim_inv t buckets log → lim_inv t' buckets log.
Proof using Type*.
  intros Ht HI. destruct HI as [HP HB HC HW HS]. constructor; [| | |done|done].
  - intros k u Hin. specialize (HP k u Hin). lia.
  - intros k b Hb. destruct (HB k b Hb). split; [by eapply used_later|done].
  - intros k s Hs. destruct (decide (s <= t)) as [Hle|Hgt].
    + specialize (HC k s ltac:(lia)). destruct (buckets !! k) as [b|] eqn:Eb; simpl in *; [|lia].
      destruct (HB k b Eb) as [Hu _]. rewrite (credit_refill _ t t') by done. lia.
    + rewrite admitted_none; [|intros u Hin; specialize (HP k u Hin); unfold since; lia].
      destruct (buckets !! k) as [b|] eqn:Eb; simpl; [|lia].
      destruct (HB k b Eb) as [Hu _]. pose proof (credit_range (lim b) t' (used_later _ _ _ Hu Ht)).
      unfold full_credit. lia.
Qed.

Lemma sweep_lookup t (buckets : gmap string (rateBucket L)) k :
  sweepLoginBuckets t buckets !! k =
  match buckets !! k with Some b => if idle t b then None else Some b | None => None end.
Proof using.
  apply option_eq. intros b. unfold sweepLoginBuckets. rewrite map_lookup_filter_Some. simpl.
  destruct (buckets !! k) as [b'|]; [|naive_solver]. destruct (idle t b') eqn:E; naive_solver congruence.
Qed.

Lemma lim_inv_sweep t buckets log : lim_inv t buckets log → lim_inv t (sweepLoginBuckets t buckets) log.
Proof using Type*.
  intros [HP HB HC HW HS]. constructor; [done| | |done|].
  - intros k b. rewrite sweep_lookup. destruct (buckets !! k) as [b'|] eqn:Eb; [|done].
    destruct (idle t b'); [done|]. intros [= <-]. by apply HB.
  - intros k s Hs. specialize (HC k s Hs). rewrite sweep_lookup.
    destruct (buckets !! k) as [b|] eqn:Eb; [|done].
    destruct (idle t b) eqn:Hg; [|done]. simpl in *.
    destruct (HB k b Eb) as [Hu Hl]. unfold idle in Hg.
    rewrite full_spec in Hg by done. apply orb_true_iff in Hg as [Hg|Hg]; breflect.
    + rewrite admitted_none; [lia|]. intros u Hin. specialize (Hl u Hin). unfold since. lia.
    + unfold full_credit in *. lia.
  - etrans; [|exact HS]. apply map_subseteq_size, map_filter_subseteq.
Qed.

(** One use of the key's limiter [l], whose credit covers what was admitted. *)
Lemma lim_inv_use t key l buckets log :
  lim_inv t buckets log → used_until l t →
  (∀ s, t - 15 * minute <= s <= t →
     admitted key (since s) log * loginBudgetRefill + credit l t <= full_credit + (t - s)) →
  (size (<[key := mkBucket l t]> buckets) ≤ loginMaxBuckets)%nat →
  let '(allowed, buckets') := use_bucket key t l buckets in
  lim_inv t buckets' (if allowed then (key, t) :: log else log).
Proof using Type*.
  intros [HP HB HC HW HS] Hu Hc Hsz. unfold use_bucket.
  pose proof (allow_spec l t Hu) as HA. pose proof (credit_allow l t Hu) as HCA. pose proof (used_allow l t Hu) as HU.
  pose proof (credit_range l t Hu) as HR.
  destruct (AllowN t l) as [allowed l']. simpl in HA, HCA, HU. rewrite <- HA in HCA.
  assert (∀ k u, (k, u) ∈ (if allowed then (key, t) :: log else log) → (k, u) ∈ log ∨ (k = key ∧ u = t)) as Hlog.
  { destruct allowed; [|by left]. intros k u [[= -> ->]|?]%elem_of_cons; auto. }
  constructor.
  - intros k u [Hin|[-> ->]]%Hlog; [by eapply HP|lia].
  - intros k b. destruct (decide (k = key)) as [->|Hne].
    + rewrite lookup_insert_eq. intros [= <-]. split; [done|]. intros u [Hin|[_ ->]]%Hlog; simpl; [by eapply HP|lia].
    + rewrite lookup_insert_ne by done. intros Hb. destruct (HB k b Hb) as [Hub Hl]. split; [done|].
      intros u [Hin|[-> _]]%Hlog; [auto|done].
  - intros k s Hs. destruct (decide (k = key)) as [->|Hne].
    + rewrite lookup_insert_eq. simpl. specialize (Hc s Hs). destruct allowed; [|lia].
      rewrite admitted_cons, bool_decide_eq_true_2 by done. unfold since at 1.
      rewrite (proj2 (Z.leb_le _ _)) by lia. simpl. unfold loginBudgetRefill in *. lia.
    + rewrite lookup_insert_ne by done. specialize (HC k s Hs). destruct allowed; [|done].
      rewrite admitted_cons, bool_decide_eq_false_2 by done. done.
  - intros k a. destruct allowed; [|done]. rewrite admitted_cons. case_bool_decide as Hk; [|apply HW]. subst k.
    destruct (window a t) eqn:Ew; [|apply HW]. simpl. unfold window in Ew. breflect.
    symmetry in HA. breflect.
    assert (admitted key (window a) log <= admitted key (since a) log).
    { apply admitted_le. intros u _ Hw. unfold window in Hw. breflect. unfold since. lia. }
    specialize (Hc a ltac:(unfold loginBudgetRefill, minute in *; lia)).
    unfold full_credit, loginBudget, loginBudgetRefill, minute in *. lia.
  - by rewrite map_size_insert in Hsz |- *.
Qed.

Lemma lim_inv_step trusted t e buckets log :
  lim_inv t buckets log → t <= lim_time e →
  let '(buckets', log') := lim_step trusted (buckets, log) e in lim_inv (lim_time e) buckets' log'.
Proof using Type*.
  intros HI Ht. apply (lim_inv_later _ _ _ _ Ht) in HI. destruct e as [r now|now]; simpl in *.
  2:{ by apply lim_inv_sweep. }
  unfold LoginRateLimit, request_key. destruct (resolveClient r trusted) as [ip proxied]. simpl.
  set (key := limiterKey ip).
  assert (let '(allowed, buckets') := limit_key key now buckets in
          lim_inv now buckets' (if allowed then (key, now) :: log else log)) as HK.
  { unfold limit_key. destruct (buckets !! key) as [b|] eqn:Eb.
    - apply lim_inv_use; [done| | |].
      + by apply (li_bucket _ _ _ HI key b Eb).
      + intros s Hs. pose proof (li_credit _ _ _ HI key s Hs) as HC. by rewrite Eb in HC.
      + rewrite map_size_insert, Eb. apply (li_size _ _ _ HI).
    - destruct (Nat.leb_spec loginMaxBuckets (size buckets)); [done|].
      apply lim_inv_use; [done|apply used_new| |].
      + intros s Hs. pose proof (li_credit _ _ _ HI key s Hs) as HC. rewrite Eb in HC.
        by rewrite credit_new.
      + rewrite map_size_insert, Eb. lia. }
  destruct (limit_key key now buckets) as [[] buckets']; exact HK.
Qed.

Lemma lim_inv_run trusted t evs buckets log :
  lim_inv t buckets log → in_order t evs →
  let '(buckets', log') := foldl (lim_step trusted) (buckets, log) evs in ∃ t', lim_inv t' buckets' log'.
Proof using Type*.
  revert t buckets log; induction evs as [|e evs IH]; intros t buckets log HI Ho; [by exists t|].
  destruct Ho as [Ht Ho]. cbn [foldl]. pose proof (lim_inv_step trusted t e buckets log HI Ht) as HS.
  destruct (lim_step trusted (buckets, log) e) as [b' l']. by apply (IH (lim_time e)).
Qed.

Lemma lim_inv_init t : lim_inv t ∅ [].
Proof using Type*.
  constructor; [|done| | |rewrite map_size_empty; lia].
  - intros k u Hin. by apply not_elem_of_nil in Hin.
  - intros k s Hs. rewrite lookup_empty. simpl. unfold admitted. simpl. lia.
  - intros k a. by unfold admitted, loginBudget.
Qed.

(** C18: A subscriber gets five sign-in attempts in any ten minutes, whatever the
    traffic: however the requests of all addresses interleave with the sweeps
    that drop buckets, no key has more than [loginBudget] attempts let through
    in a window of [loginBudgetRefill], and the table never holds more than
    [loginMaxBuckets]. *)
Theorem login_budget_holds trusted evs t0 :
  in_order t0 evs →
  let '(buckets, log) := foldl (lim_step trusted) (∅, []) evs in
  (∀ key a, admitted key (window a) log <= loginBudget) ∧ (size buckets ≤ loginMaxBuckets)%nat.
Proof using Type*.
  intros Ho. pose proof (lim_inv_run trusted t0 evs ∅ [] (lim_inv_init t0) Ho) as HR.
  destruct (foldl _ _ evs) as [b l]. destruct HR as [t HI]. split; [apply (li_window _ _ _ HI)|apply (li_size _ _ _ HI)].
Qed.
End limiter.

(** ** A concrete bucket

    The credit when it was last used, and when that was. *)
Record simple_bucket := mkSimple { sb_credit : Z; sb_last : option Z }.

Definition simple_at (every burst : Z) (l : simple_bucket) (t : Z) : Z :=
  match sb_last l with
  | None => sb_credit l
  | Some u => Z.min (burst * every) (sb_credit l + (t - u))
  end.

#[global] Instance simple_TokenBucket : TokenBucket simple_bucket := {
  NewLimiter := mkSimple (loginBudget * loginBudgetRefill) None;
  AllowN t l :=
    let c := simple_at loginBudgetRefill loginBudget l t in
    if loginBudgetRefill <=? c then (true, mkSimple (c - loginBudgetRefill) (Some t)) else (false, mkSimple c (Some t));
  FullAt t l := loginBudget * loginBudgetRefill <=? simple_at loginBudgetRefill loginBudget l t }.

(** In range, and not used after [t]. *)
Definition simple_used (l : simple_bucket) (t : Z) : Prop :=
  0 <= sb_credit l <= loginBudget * loginBudgetRefill ∧
  match sb_last l with None => sb_credit l = loginBudget * loginBudgetRefill | Some u => u <= t end.

#[global] Instance simple_TokenBucketLaws : TokenBucketLaws loginBudgetRefill loginBudget simple_bucket.
Proof.
  apply (Build_TokenBucketLaws _ _ _ _ (simple_at loginBudgetRefill loginBudget) simple_used);
    unfold AllowN, FullAt, NewLimiter, simple_TokenBucket;
    unfold simple_used, simple_at;
    unfold loginBudget, loginBudgetRefill, minute.
  - intros t; simpl; lia.
  - intros [c [u|]] t t' [Hc Hu] Ht; simpl in *; lia.
  - intros [c [u|]] t [Hc Hu]; simpl in *; case_match; simpl in *; breflect; lia.
  - intros t; simpl; lia.
  - intros [c [u|]] t [Hc Hu]; simpl in *; lia.
  - intros [c [u|]] t t' [Hc Hu] Ht; simpl in *; lia.
  - intros [c [u|]] t [Hc Hu]; simpl in *; case_match; done.
  - intros [c [u|]] t [Hc Hu]; simpl in *; destruct (_ <=? _) eqn:E; simpl; breflect; lia.
  - done.
Defined.

(** Seven attempts of one /64 in three minutes with sweeps between them: the
    first five are let through. *)
Definition limiter_sample : list lim_event :=
  let from (ip : string) := mkRequest ("[" +:+ ip +:+ "]:4711") ∅ in
  [LRequest (from "2001:db8::1") minute; LRequest (from "2001:db8::2") minute; LSweep minute;
   LRequest (from "2001:db8::3") (2 * minute); LRequest (from "2001:db8::4") (2 * minute);
   LRequest (from "2001:db8::5") (3 * minute); LSweep (3 * minute);
   LRequest (from "2001:db8::6") (3 * minute); LRequest (from "2001:db8::7") (3 * minute)].

Lemma login_budget_holds_witness :
  let '(buckets, log) := foldl (lim_step []) (∅, []) limiter_sample in
  length log = 5%nat ∧ admitted "2001:db8::/64" (window minute) log <= loginBudget.
Proof.
  pose proof (login_budget_holds [] limiter_sample minute) as HT.
  assert (length (foldl (lim_step []) (∅, []) limiter_sample).2 = 5%nat) as HL by (vm_compute; reflexivity).
  destruct (foldl (lim_step []) (∅, []) limiter_sample) as [b l]. split; [exact HL|].
  apply HT. vm_compute. repeat split; discriminate.
Defined.
