(* ===== verification/Sessions.v ===== *)
(** * Sessions and the records that end them

    [src/internal/web/sessionrevoke.go], [pendingattempts.go] and
    [passkeyreplay.go], with [sessionUser] of [middleware.go]: three tables in
    memory, each under its own lock, each entry with a time after which it no
    longer matters.  A session itself is a signed cookie; the signature is
    [gorilla/sessions]'s, and what is used of it is that a cookie it accepts is
    one it issued, unchanged, at most its lifetime ago.  Times are
    nanoseconds, a cookie's stamp is in whole seconds. *)
From S2P Require Import Prelude GoStrings SecondFactor.

Local Open Scope Z_scope.

Definition Second : Z := nanosecond_per_second.

Definition SessionLifetime : Z := 600.
Definition revocationRetention : Z := (SessionLifetime + 1) * Second.
Definition pendingLifetime : Z := 180.
Definition pendingMaxAttempts : Z := 3.

(** ** Cookies *)

(** [sess.Values]; an absent value reads as the empty string. *)
Record SessionValues := mkSession { s_user : string; s_cred : string; s_id : string; s_flash : string }.
Definition no_session : SessionValues := mkSession "" "" "" "".

Record Cookie := mkCookie { ck_values : SessionValues; ck_stamp : Z }.

#[global] Instance SessionValues_eq_dec : EqDecision SessionValues.
Proof. solve_decision. Defined.
#[global] Instance Cookie_eq_dec : EqDecision Cookie.
Proof. solve_decision. Defined.

(** The codec's age check: the stamp and the clock in whole seconds. *)
Definition cookie_fresh (now : Z) (c : Cookie) : bool := Unix now - ck_stamp c <=? SessionLifetime.

(** [store.Get]: the session, and whether the cookie was refused. *)
Definition Get_session (now : Z) (c : option Cookie) : SessionValues * bool :=
  match c with
  | Some c => if cookie_fresh now c then (ck_values c, false) else (no_session, true)
  | None => (no_session, false)
  end.

(** ** sessionrevoke.go *)

(** [revokedSessions.at]: when each session was logged out. *)
Definition revokedLocked (revoked : gmap string Z) (now : Z) (id : string) : bool :=
  if String.eqb id "" then false
  else match revoked !! id with Some at_ => now - at_ <=? revocationRetention | None => false end.

Definition sessionRevoked := revokedLocked.

Definition revokeSession (id : string) (now : Z) (revoked : gmap string Z) : gmap string Z :=
  if String.eqb id "" then revoked
  else <[id := now]> (filter (λ x, now - snd x <= revocationRetention) revoked).

Definition drop_identity (sv : SessionValues) : SessionValues :=
  mkSession "" (s_cred sv) "" (s_flash sv).

Definition strip_revoked (revoked : gmap string Z) (now : Z) (sv : SessionValues) : SessionValues :=
  if revokedLocked revoked now (s_id sv) then drop_identity sv else sv.

(** [sessionStore.Save], under the revocation lock: the session as it is left,
    and the cookie signed. *)
Definition Save_session (revoked : gmap string Z) (now : Z) (sv : SessionValues) : SessionValues * Cookie :=
  let sv := strip_revoked revoked now sv in (sv, mkCookie sv (Unix now)).

(** [sessionForWrite] *)
Definition sessionForWrite (revoked : gmap string Z) (now : Z) (c : option Cookie) : SessionValues :=
  strip_revoked revoked now (Get_session now c).1.

(** [sessionUser] of [middleware.go]; [None] is a nil [currentCredential]. *)
Definition sessionUser (revoked : gmap string Z) (now : Z) (currentCredential : option string) (sv : SessionValues) : string :=
  if String.eqb (s_user sv) "" then ""
  else if sessionRevoked revoked now (s_id sv) then ""
  else match currentCredential with
       | Some fp => if String.eqb (s_cred sv) fp then s_user sv else ""
       | None => s_user sv
       end.

(** [RequireAuth]: whether the request is let through. *)
Definition RequireAuth (revoked : gmap string Z) (now : Z) (currentCredential : string) (c : option Cookie) : bool :=
  let '(sv, refused) := Get_session now c in
  negb (refused || String.eqb (sessionUser revoked now (Some currentCredential) sv) "").

(** ** pendingattempts.go *)

(** [pendingCounter] *)
Record pendingCounter := mkCounter { pc_n : Z; pc_begun : Z }.

Definition pendingAttemptCount (at_ : gmap string pendingCounter) (now : Z) (id : string) : Z :=
  if String.eqb id "" then 0
  else match at_ !! id with
       | Some c => if pendingLifetime * Second <? now - pc_begun c then 0 else pc_n c
       | None => 0
       end.

(** [reservePendingAttempt]: the attempts charged, and whether there was one
    to give. *)
Definition reservePendingAttempt (id : string) (now : Z) (at_ : gmap string pendingCounter) :
    (Z * bool) * gmap string pendingCounter :=
  if String.eqb id "" then ((0, false), at_)
  else
    let at_ := filter (λ x, now - pc_begun (snd x) <= pendingLifetime * Second) at_ in
    let c := default (mkCounter 0 now) (at_ !! id) in
    if pendingMaxAttempts <=? pc_n c then ((pc_n c, false), at_)
    else ((pc_n c + 1, true), <[id := mkCounter (pc_n c + 1) (pc_begun c)]> at_).

(** ** passkeyreplay.go *)

(** [spendChallenge]: whether the challenge was fresh; the table holds when
    each record lapses. *)
Definition spendChallenge (challenge : string) (ttl now : Z) (at_ : gmap string Z) : bool * gmap string Z :=
  if String.eqb challenge "" then (false, at_)
  else
    let at_ := filter (λ x, now <= snd x) at_ in
    match at_ !! challenge with
    | Some _ => (false, at_)
    | None => (true, <[challenge := now + ttl]> at_)
    end.

(** ** A logged-out session stays out

    Requests run concurrently: one reads its session when it begins and may
    sign it again when it answers, and a logout can fall in between.  An open
    request is the session it holds. *)

Inductive sess_event :=
| SGrant (user cred id : string) (now : Z)   (* [grantSession], a fresh id *)
| SLoad (rid : nat) (c : Cookie) (now : Z)   (* the request presents a cookie that was issued *)
| SStrip (rid : nat) (now : Z)               (* [sessionForWrite] *)
| SStamp (rid : nat) (cred : string) (now : Z) (* [restampSession] before its save *)
| SSave (rid : nat) (now : Z)                (* [sessionStore.Save] *)
| SRevoke (id : string) (now : Z).           (* [handleLogout] *)

Record sess_state := mkSess {
  ss_revoked : gmap string Z;
  ss_issued : list Cookie;
  ss_open : gmap nat SessionValues }.

Definition sess_init : sess_state := mkSess ∅ [] ∅.

Definition ev_time (e : sess_event) : Z :=
  match e with
  | SGrant _ _ _ t | SLoad _ _ t | SStrip _ t | SStamp _ _ t | SSave _ t | SRevoke _ t => t
  end.

(** A forged cookie is no cookie: only an issued one is read. *)
Definition sess_step (st : sess_state) (e : sess_event) : sess_state :=
  let '(mkSess rv iss op) := st in
  match e with
  | SGrant user cred id now =>
      let '(_, c) := Save_session rv now (mkSession user cred id "") in mkSess rv (c :: iss) op
  | SLoad rid c now =>
      if bool_decide (c ∈ iss) then mkSess rv iss (<[rid := (Get_session now (Some c)).1]> op) else st
  | SStrip rid now => mkSess rv iss (alter (strip_revoked rv now) rid op)
  | SStamp rid cred now => mkSess rv iss (alter (λ sv, mkSession (s_user sv) cred (s_id sv) (s_flash sv)) rid op)
  | SSave rid now =>
      match op !! rid with
      | Some sv => let '(sv, c) := Save_session rv now sv in mkSess rv (c :: iss) (<[rid := sv]> op)
      | None => st
      end
  | SRevoke id now => mkSess (revokeSession id now rv) iss op
  end.

Definition sess_run (st : sess_state) (evs : list sess_event) : sess_state := foldl sess_step st evs.

Fixpoint sess_ordered (t : Z) (evs : list sess_event) : Prop :=
  match evs with [] => True | e :: evs => t <= ev_time e ∧ sess_ordered (ev_time e) evs end.

Definition last_time (t : Z) (evs : list sess_event) : Z := foldl (λ _ e, ev_time e) t evs.

(** After a logout of [id] at [T]: the id is not drawn again, and a request
    that still holds the session signs it, if it does, before the record of
    the logout lapses. *)
Fixpoint quiet (id : string) (T : Z) (st : sess_state) (evs : list sess_event) : Prop :=
  match evs with
  | [] => True
  | e :: evs =>
      match e with
      | SGrant _ _ id' _ => id' ≠ id
      | SSave rid now => ∀ sv, ss_open st !! rid = Some sv → s_id sv = id → now <= T + revocationRetention
      | _ => True
      end ∧ quiet id T (sess_step st e) evs
  end.

(** No cookie is stamped in the future. *)
Definition stamped (t : Z) (st : sess_state) : Prop := ∀ c, c ∈ ss_issued st → ck_stamp c <= Unix t.

(** What a logout of [id] at [T] leaves true at [t]. *)
Record logged_out (id : string) (T t : Z) (st : sess_state) : Prop := {
  lo_after : T <= t;
  lo_issued : ∀ c, c ∈ ss_issued st → s_id (ck_values c) = id → ck_stamp c <= Unix T;
  lo_record : (∃ u, ss_revoked st !! id = Some u ∧ T <= u <= t) ∨ T + revocationRetention < t }.

Lemma Unix_mono t t' : t <= t' → Unix t <= Unix t'.
Proof. intros. unfold Unix, nanosecond_per_second. apply Z.div_le_mono; lia. Qed.

Lemma Unix_retention T t : T + revocationRetention < t → Unix T + SessionLifetime + 1 <= Unix t.
Proof.
  unfold Unix, revocationRetention, SessionLifetime, Second, nanosecond_per_second. intros H.
  assert ((T + 601 * 10 ^ 9) / 10 ^ 9 <= t / 10 ^ 9) as Hd by (apply Z.div_le_mono; lia).
  rewrite Z.div_add in Hd by lia. lia.
Qed.

Lemma drop_identity_id sv : s_id (drop_identity sv) = "".
Proof. done. Qed.

Lemma strip_id rv now sv id : id ≠ "" → s_id (strip_revoked rv now sv) = id → s_id sv = id ∧ revokedLocked rv now id = false.
Proof.
  intros Hid. unfold strip_revoked. destruct (revokedLocked rv now (s_id sv)) eqn:E; simpl; [by intros <-|].
  by intros <-.
Qed.

Lemma stamped_step t st e :
  stamped t st → t <= ev_time e → stamped (ev_time e) (sess_step st e).
Proof.
  intros HS Ht. assert (∀ c, c ∈ ss_issued st → ck_stamp c <= Unix (ev_time e)) as HS'.
  { intros c Hc. specialize (HS c Hc). pose proof (Unix_mono _ _ Ht). lia. }
  destruct st as [rv iss op], e; simpl in *; try exact HS'.
  - intros c [->|?]%elem_of_cons; [simpl; lia|auto].
  - by case_bool_decide.
  - destruct (op !! rid) as [sv|]; [|exact HS']. intros c [->|?]%elem_of_cons; [simpl; lia|auto].
Qed.

(** The record survives every step until it lapses. *)
Lemma record_step id T t st e :
  id ≠ "" → t <= ev_time e →
  (∃ u, ss_revoked st !! id = Some u ∧ T <= u <= t) ∨ T + revocationRetention < t →
  (∃ u, ss_revoked (sess_step st e) !! id = Some u ∧ T <= u <= ev_time e) ∨ T + revocationRetention < ev_time e.
Proof.
  intros Hid Ht [(u & Hu & HT)|?]; [|right; lia]. destruct st as [rv iss op]. simpl in Hu.
  assert (∃ u, rv !! id = Some u ∧ T <= u <= ev_time e) as Hsame by (exists u; split; [done|lia]).
  destruct e; simpl in *; try (by left).
  - case_bool_decide; by left.
  - destruct (op !! rid); by left.
  - unfold revokeSession. destruct (String.eqb_spec id0 ""); [by left|].
    destruct (decide (id0 = id)) as [->|Hne].
    + left. exists now. rewrite lookup_insert_eq. split; [done|lia].
    + rewrite lookup_insert_ne by done. destruct (decide (now - u <= revocationRetention)).
      * left. exists u. split; [|lia]. by apply map_lookup_filter_Some.
      * right. lia.
Qed.

(** While the record stands the session is refused; once it has lapsed the
    cookies that carry it are too old. *)
Lemma logged_out_refused id T t st c now :
  id ≠ "" → logged_out id T t st → t <= now → c ∈ ss_issued st → s_id (ck_values c) = id →
  cookie_fresh now c = true → sessionRevoked (ss_revoked st) now id = true.
Proof.
  intros Hid [HA HI HR] Hn Hc He Hf. specialize (HI c Hc He). unfold cookie_fresh in Hf. breflect.
  assert (¬ T + revocationRetention < now) as Hnl.
  { intros Hl%Unix_retention. lia. }
  destruct HR as [(u & Hu & HT)|?]; [|lia].
  unfold sessionRevoked, revokedLocked. rewrite Hu. destruct (String.eqb_spec id ""); [done|]. lia.
Qed.

Lemma logged_out_step id T t st e :
  id ≠ "" → t <= ev_time e → quiet id T st [e] → logged_out id T t st → logged_out id T (ev_time e) (sess_step st e).
Proof.
  intros Hid Ht [Hq _] [HA HI HR]. pose proof (record_step id T t st e Hid Ht HR) as HR'.
  constructor; [lia| |done]. destruct st as [rv iss op], e; simpl in *; try exact HI.
  - intros c [->|?]%elem_of_cons He; [|auto]. simpl in He. apply strip_id in He as [He _]; [|done]. by destruct Hq.
  - by case_bool_decide.
  - destruct (op !! rid) as [sv|] eqn:E; [|exact HI].
    intros c [->|?]%elem_of_cons He; [|auto]. simpl in He. apply strip_id in He as [He Hnr]; [|done].
    specialize (Hq sv eq_refl He). simpl in HR'.
    destruct HR' as [(u & Hu & HT)|?]; [|lia]. unfold revokedLocked in Hnr. rewrite Hu in Hnr.
    destruct (String.eqb_spec id ""); [done|]. breflect. lia.
Qed.

Lemma logged_out_run id T t st evs :
  id ≠ "" → sess_ordered t evs → quiet id T st evs → logged_out id T t st →
  logged_out id T (last_time t evs) (sess_run st evs).
Proof.
  intros Hid. revert t st; induction evs as [|e evs IH]; intros t st Ho Hq HL; [done|].
  destruct Ho as [Ht Ho], Hq as [Hq1 Hq]. apply (IH (ev_time e) (sess_step st e)); [done|done|].
  by apply (logged_out_step id T t).
Qed.

Lemma stamped_run t st evs : sess_ordered t evs → stamped t st → stamped (last_time t evs) (sess_run st evs).
Proof.
  revert t st; induction evs as [|e evs IH]; intros t st Ho HS; [done|]. destruct Ho as [Ht Ho].
  apply (IH (ev_time e) (sess_step st e) Ho). by apply (stamped_step t).
Qed.

Lemma revoke_logs_out id T t st :
  id ≠ "" → t <= T → stamped t st → logged_out id T T (sess_step st (SRevoke id T)).
Proof.
  intros Hid Ht HS. destruct st as [rv iss op]. constructor; [lia| |].
  - intros c Hc _. specialize (HS c Hc). pose proof (Unix_mono _ _ Ht). lia.
  - left. exists T. simpl. unfold revokeSession. destruct (String.eqb_spec id ""); [done|].
    rewrite lookup_insert_eq. split; [done|lia].
Qed.

(** C14: A logged-out session stays out.  Whatever requests were in flight at the
    logout and whatever is renewed, re-stamped, flashed or logged out
    afterwards, no cookie the server ever issued for that session is let
    through again, however long its holder waits; provided a request that
    still holds the session answers before the record of the logout lapses. *)
Theorem logged_out_session_stays_out pre id T post now cred c :
  id ≠ "" → sess_ordered 0 (pre ++ SRevoke id T :: post) →
  quiet id T (sess_run sess_init (pre ++ [SRevoke id T])) post →
  let st := sess_run sess_init (pre ++ SRevoke id T :: post) in
  last_time T post <= now → c ∈ ss_issued st → s_id (ck_values c) = id →
  RequireAuth (ss_revoked st) now cred (Some c) = false.
Proof.
  intros Hid Ho Hq st Hn Hc He.
  assert (∀ t l l', sess_ordered t (l ++ l') → sess_ordered t l ∧ sess_ordered (last_time t l) l') as Hsplit.
  { intros t l l'. revert t; induction l as [|e l IH]; intros t Ho'; [done|]. destruct Ho' as [? Ho'].
    destruct (IH _ Ho'). done. }
  destruct (Hsplit _ _ _ Ho) as [Ho1 [HoT Ho2]]. simpl in HoT, Ho2.
  assert (logged_out id T (last_time T post) st) as HL.
  { subst st. unfold sess_run in *. rewrite foldl_app in *. cbn [foldl] in *.
    apply logged_out_run; [done|done|done|]. apply (revoke_logs_out id T (last_time 0 pre)); [done|done|].
    apply stamped_run; [done|]. intros c' Hc'. by apply not_elem_of_nil in Hc'. }
  unfold RequireAuth, Get_session. destruct (cookie_fresh now c) eqn:Ef; [|done].
  unfold sessionUser. rewrite He, (logged_out_refused id T (last_time T post) st c now) by done.
  by destruct (String.eqb (s_user (ck_values c)) "").
Qed.

(** A session logged out while two of its requests are open, both of which
    answer afterwards, and an unrelated one. *)
Definition sess_sample : list sess_event :=
  [SGrant "op" "fp" "sid-1" (10 * Second); SLoad 1 (mkCookie (mkSession "op" "fp" "sid-1" "") 10) (11 * Second);
   SLoad 2 (mkCookie (mkSession "op" "fp" "sid-1" "") 10) (12 * Second)].
Definition sess_sample_after : list sess_event :=
  [SSave 1 (14 * Second); SStamp 2 "fp2" (15 * Second); SSave 2 (20 * Second);
   SGrant "op" "fp" "sid-2" (700 * Second); SRevoke "sid-2" (701 * Second)].

Lemma logged_out_session_stays_out_witness :
  RequireAuth (ss_revoked (sess_run sess_init (sess_sample ++ SRevoke "sid-1" (13 * Second) :: sess_sample_after)))
    (702 * Second) "fp" (Some (mkCookie (mkSession "op" "fp" "sid-1" "") 10)) = false.
Proof.
  apply (logged_out_session_stays_out sess_sample "sid-1" (13 * Second) sess_sample_after (702 * Second) "fp").
  - done.
  - vm_compute. repeat split; discriminate.
  - simpl. repeat split; done.
  - vm_compute. discriminate.
  - apply (bool_decide_eq_true_1 _). vm_compute. reflexivity.
  - reflexivity.
Defined.

(** What [quiet] excludes: a request that read the cookie in its last second
    and signs the session again just after the record of the logout lapsed
    brings it back. *)
Example late_answer_revives_session :
  let c := mkCookie (mkSession "op" "fp" "sid-1" "") 10 in
  let st := sess_run sess_init
    [SGrant "op" "fp" "sid-1" (10 * Second); SRevoke "sid-1" (10 * Second);
     SLoad 1 c (611 * Second - 1); SSave 1 (611 * Second + 1)] in
  ∃ c', c' ∈ ss_issued st ∧ RequireAuth (ss_revoked st) (1200 * Second) "fp" (Some c') = true.
Proof. exists (mkCookie (mkSession "op" "fp" "sid-1" "") 611). split; [|by vm_compute]. apply (bool_decide_eq_true_1 _). by vm_compute. Qed.

(** ** Three guesses a pending login *)

Definition reserve_step (st : gmap string pendingCounter * list (string * Z)) (e : string * Z) :
    gmap string pendingCounter * list (string * Z) :=
  let '((_, ok), at_) := reservePendingAttempt (fst e) (snd e) (fst st) in
  (at_, if ok then e :: snd st else snd st).

(** The attempts granted to [id] at times up to [t]. *)
Definition granted (id : string) (t : Z) (log : list (string * Z)) : Z :=
  Z.of_nat (length (filter (λ e, fst e = id ∧ snd e <= t) log)).

Fixpoint times_ordered (t : Z) (evs : list (string * Z)) : Prop :=
  match evs with [] => True | e :: evs => t <= snd e ∧ times_ordered (snd e) evs end.

Lemma granted_cons id t e log :
  granted id t (e :: log) = (if bool_decide (fst e = id) && (snd e <=? t) then 1 else 0) + granted id t log.
Proof.
  unfold granted. rewrite filter_cons. destruct (decide (e.1 = id ∧ e.2 <= t)) as [[Hk Hp]|Hn].
  - rewrite bool_decide_eq_true_2, (proj2 (Z.leb_le _ _)) by done. simpl length. simpl. lia.
  - destruct (bool_decide_reflect (e.1 = id)) as [Hk|Hk], (Z.leb_spec e.2 t); simpl; [by destruct Hn|done..].
Qed.

Definition pending_window : Z := pendingLifetime * Second.

(** Nothing granted to [id] yet; or its first attempt was at [f], and until
    [f]'s entry lapses that entry holds the count. *)
Definition guess_inv (id : string) (t : Z) (at_ : gmap string pendingCounter) (log : list (string * Z)) : Prop :=
  (at_ !! id = None ∧ ∀ u, (id, u) ∉ log) ∨
  ∃ f, (id, f) ∈ log ∧ f <= t ∧ (∀ u, (id, u) ∈ log → u <= t) ∧
       granted id (f + pending_window) log <= pendingMaxAttempts ∧
       (t <= f + pending_window →
          at_ !! id = Some (mkCounter (granted id (f + pending_window) log) f)).

Lemma granted_none id t log : (∀ u, (id, u) ∉ log) → granted id t log = 0.
Proof.
  intros Hn. unfold granted. replace (filter _ log) with (@nil (string * Z)); [done|]. symmetry.
  apply filter_nil_iff. intros [k u] Hin [Hk _]. simpl in Hk. subst. by destruct (Hn u).
Qed.

Lemma sweep_pending (at_ : gmap string pendingCounter) now id :
  filter (λ x, now - pc_begun (snd x) <= pendingLifetime * Second) at_ !! id =
  match at_ !! id with
  | Some c => if bool_decide (now - pc_begun c <= pendingLifetime * Second) then Some c else None
  | None => None
  end.
Proof.
  apply option_eq. intros b. rewrite map_lookup_filter_Some. simpl.
  destruct (at_ !! id) as [b'|]; [|naive_solver]. case_bool_decide; naive_solver.
Qed.

(** Time passes, entries lapse, and others are served. *)
Lemma guess_inv_other id t now at_ at_' log log' :
  guess_inv id t at_ log → t <= now →
  (at_' !! id = at_ !! id ∨
   at_' !! id = match at_ !! id with
     | Some c => if bool_decide (now - pc_begun c <= pendingLifetime * Second) then Some c else None
     | None => None end) →
  (∀ u, (id, u) ∈ log' ↔ (id, u) ∈ log) → (∀ x, granted id x log' = granted id x log) →
  guess_inv id now at_' log'.
Proof.
  intros HI Ht Hat Hin Hg. destruct HI as [[Hn Hlog]|(f & Hf & Hft & Hu & Hmax & Hn)].
  - left. split; [destruct Hat as [->| ->]; by rewrite Hn|]. intros u. rewrite Hin. apply Hlog.
  - right. exists f. rewrite Hg. split; [by apply Hin|]. split; [lia|].
    split; [intros u Hu'%Hin; specialize (Hu u Hu'); lia|]. split; [done|]. intros Hle.
    destruct Hat as [->| ->]; rewrite Hn by lia; [done|]. cbn [pc_begun].
    by rewrite bool_decide_eq_true_2 by (unfold pending_window in *; lia).
Qed.

Lemma guess_inv_step id t e at_ log :
  id ≠ "" → guess_inv id t at_ log → t <= snd e →
  let '(at_', log') := reserve_step (at_, log) e in guess_inv id (snd e) at_' log'.
Proof.
  intros Hid HI Ht. destruct e as [id' now]. unfold reserve_step, reservePendingAttempt. cbn [fst snd] in *.
  destruct (String.eqb_spec id' "") as [->|Hne].
  { apply (guess_inv_other id t now at_ at_ log log); auto. }
  set (sw := filter _ at_).
  assert (∀ k, sw !! k = match at_ !! k with
    | Some c => if bool_decide (now - pc_begun c <= pendingLifetime * Second) then Some c else None
    | None => None end) as Hsw by (intros k; apply sweep_pending).
  destruct (Z.leb_spec pendingMaxAttempts (pc_n (default (mkCounter 0 now) (sw !! id')))) as [Hmax|Hmax].
  { apply (guess_inv_other id t now at_ sw log log); auto. }
  destruct (decide (id' = id)) as [->|Hneq].
  2:{ apply (guess_inv_other id t now at_ _ log ((id', now) :: log)); [done|done| | |].
      - right. by rewrite lookup_insert_ne.
      - intros u. rewrite elem_of_cons. naive_solver.
      - intros x. rewrite granted_cons. cbn [fst]. by rewrite bool_decide_eq_false_2 by done. }
  rewrite Hsw in Hmax |- *. destruct HI as [[Hn Hlog]|(f & Hf & Hft & Hu & Hg & Hn)].
  - rewrite Hn. simpl. right. exists now. split; [left|]. split; [lia|]. split.
    { intros u [[= ->]|Hin]%elem_of_cons; [lia|by destruct (Hlog u)]. }
    rewrite granted_cons, granted_none by done. cbn [fst snd]. rewrite bool_decide_eq_true_2 by done.
    rewrite (proj2 (Z.leb_le _ _)) by (unfold pending_window, pendingLifetime, Second, nanosecond_per_second; lia).
    simpl. split; [unfold pendingMaxAttempts; lia|]. intros _. by rewrite lookup_insert_eq.
  - right. exists f. split; [by right|]. split; [lia|]. split.
    { intros u [[= ->]|Hin]%elem_of_cons; [lia|specialize (Hu u Hin); lia]. }
    rewrite granted_cons. cbn [fst snd]. rewrite bool_decide_eq_true_2 by done.
    destruct (Z.leb_spec now (f + pending_window)) as [Hle|Hgt]; simpl; [|split; [done|lia]].
    revert Hmax. rewrite Hn by lia. cbn [pc_begun]. rewrite bool_decide_eq_true_2 by (unfold pending_window in *; lia).
    intros Hmax. change (granted id (f + pending_window) log < pendingMaxAttempts) in Hmax.
    split; [lia|]. intros _. rewrite lookup_insert_eq. simpl. do 2 f_equal. lia.
Qed.

Lemma guess_inv_run id t evs at_ log :
  id ≠ "" → guess_inv id t at_ log → times_ordered t evs →
  let '(at_', log') := foldl reserve_step (at_, log) evs in ∃ t', guess_inv id t' at_' log'.
Proof.
  intros Hid. revert t at_ log; induction evs as [|e evs IH]; intros t at_ log HI Ho; [by exists t|].
  destruct Ho as [Ht Ho]. cbn [foldl]. pose proof (guess_inv_step id t e at_ log Hid HI Ht) as HS.
  destruct (reserve_step (at_, log) e) as [a l]. by apply (IH (snd e)).
Qed.

(** However attempts interleave, an id that has none before [issued] has at most
    three granted until [pendingLifetime] after it. *)
Lemma three_guesses evs t id issued :
  id ≠ "" → times_ordered t evs → (∀ u, (id, u) ∈ (foldl reserve_step (∅, []) evs).2 → issued <= u) →
  granted id (issued + pendingLifetime * Second) (foldl reserve_step (∅, []) evs).2 <= pendingMaxAttempts.
Proof.
  intros Hid Ho Hge. pose proof (guess_inv_run id t evs ∅ [] Hid) as HR.
  destruct (foldl reserve_step (∅, []) evs) as [a l]. simpl in Hge |- *.
  destruct HR as [t' HI]; [left; split; [done|intros u Hu; by apply not_elem_of_nil in Hu]|done|].
  destruct HI as [[_ Hn]|(f & Hf & _ & _ & Hg & _)]; [by rewrite granted_none|].
  etrans; [|exact Hg]. specialize (Hge f Hf). unfold granted, pending_window. apply inj_le, sublist_length.
  clear -Hge. induction l as [|e l IH]; [done|]. rewrite !filter_cons.
  case_decide as H1; case_decide as H2; [by apply sublist_skip|destruct H1; exfalso; apply H2; split; [done|lia]|by apply sublist_cons|done].
Qed.

(** Ten guesses at one login and one at another. *)
Definition guess_sample : list (string * Z) :=
  map (λ i, ("id-1"%string, i * Second)) [1; 2; 3; 4; 5] ++ [("id-2"%string, 5 * Second)] ++
  map (λ i, ("id-1"%string, i * Second)) [100; 150; 170; 180; 181].

Example guess_sample_granted : length (foldl reserve_step (∅, []) guess_sample).2 = 4%nat.
Proof. vm_compute. reflexivity. Qed.

(** ** A challenge is answered once *)

Record challenge_use := mkUse { cu_challenge : string; cu_ttl : Z; cu_now : Z }.

Definition spend_step (st : gmap string Z * list challenge_use) (u : challenge_use) : gmap string Z * list challenge_use :=
  let '(ok, at_) := spendChallenge (cu_challenge u) (cu_ttl u) (cu_now u) (fst st) in
  (at_, if ok then u :: snd st else snd st).

Fixpoint uses_ordered (t : Z) (us : list challenge_use) : Prop :=
  match us with [] => True | u :: us => t <= cu_now u ∧ uses_ordered (cu_now u) us end.

(** The latest accepted use of [ch], while its record has not lapsed. *)
Definition spent_inv (at_ : gmap string Z) (t : Z) (log : list challenge_use) : Prop :=
  ∀ u, u ∈ log → cu_now u <= t ∧ (t <= cu_now u + cu_ttl u → ∃ e, at_ !! cu_challenge u = Some e ∧ cu_now u + cu_ttl u <= e).

(** Two uses of one challenge in the log, the later one first. *)
Fixpoint spent_apart (log : list challenge_use) : Prop :=
  match log with
  | [] => True
  | u :: log => (∀ v, v ∈ log → cu_challenge v = cu_challenge u → cu_now v + cu_ttl v < cu_now u) ∧ spent_apart log
  end.

Lemma spend_step_inv t at_ log u :
  spent_inv at_ t log → spent_apart log → t <= cu_now u → 0 <= cu_ttl u →
  let '(at_', log') := spend_step (at_, log) u in spent_inv at_' (cu_now u) log' ∧ spent_apart log'.
Proof.
  intros HI HA Ht Httl. unfold spend_step, spendChallenge. cbn [fst snd].
  assert (spent_inv at_ (cu_now u) log) as HI'.
  { intros v Hv. destruct (HI v Hv) as [? He]. split; [lia|]. intros ?. apply He. lia. }
  destruct (String.eqb (cu_challenge u) ""); [done|].
  set (sw := filter _ at_).
  assert (spent_inv sw (cu_now u) log) as HS.
  { intros v Hv. destruct (HI' v Hv) as [? He]. split; [done|]. intros Hle. destruct (He Hle) as (e & Hl & ?).
    exists e. split; [|done]. apply map_lookup_filter_Some. simpl. split; [done|lia]. }
  destruct (sw !! cu_challenge u) as [e|] eqn:E; [done|]. split.
  - intros v [->|Hv]%elem_of_cons.
    + split; [lia|]. intros _. exists (cu_now u + cu_ttl u). rewrite lookup_insert_eq. split; [done|lia].
    + destruct (HS v Hv) as [? He]. split; [done|]. intros Hle. destruct (He Hle) as (e & Hl & ?).
      exists e. split; [|done]. rewrite lookup_insert_ne; [done|]. intros Heq. by rewrite <- Heq, E in Hl.
  - split; [|done]. intros v Hv Heq. destruct (HS v Hv) as [_ He].
    destruct (Z.lt_ge_cases (cu_now v + cu_ttl v) (cu_now u)); [done|].
    destruct (He ltac:(lia)) as (e & Hl & _). by rewrite Heq, E in Hl.
Qed.

(** A passkey challenge is answered once for as long as it was promised to
    be.  Over any sequence of ceremonies, two accepted uses of one challenge
    are further apart than the lifetime the first was spent with. *)
Theorem challenge_spent_once us :
  uses_ordered 0 us → Forall (λ u, 0 <= cu_ttl u) us → spent_apart (foldl spend_step (∅, []) us).2.
Proof.
  intros Ho HF.
  assert (∀ t at_ log, spent_inv at_ t log → spent_apart log → uses_ordered t us →
            spent_apart (foldl spend_step (at_, log) us).2) as HG; [|apply (HG 0); [|done|done]].
  - clear Ho. induction HF as [|u us Hu _ IH]; intros t at_ log HI HA Ho; [done|]. destruct Ho as [Ht Ho].
    cbn [foldl]. pose proof (spend_step_inv t at_ log u HI HA Ht Hu) as HS.
    destruct (spend_step (at_, log) u) as [a l]. destruct HS. by apply (IH (cu_now u)).
  - intros u Hu. by apply not_elem_of_nil in Hu.
Qed.

Definition loginPasskeyPendingLifetime : Z := 60.
Definition passkeyPendingLifetime : Z := 300.

Lemma challenge_spent_once_witness :
  let ttl := loginPasskeyPendingLifetime * Second in
  let log := (foldl spend_step (∅, []) [mkUse "c1" ttl Second; mkUse "c2" ttl (2 * Second); mkUse "c1" ttl (61 * Second)]).2 in
  length log = 2%nat ∧ spent_apart log.
Proof.
  intros ttl log. split; [vm_compute; reflexivity|].
  apply (challenge_spent_once [mkUse "c1" ttl Second; mkUse "c2" ttl (2 * Second); mkUse "c1" ttl (61 * Second)]);
    [vm_compute; repeat split; discriminate|].
  repeat constructor; vm_compute; discriminate.
Defined.

(** The challenge's own cookie: accepted while the whole seconds since its
    stamp are at most the lifetime. *)
Definition challenge_cookie_fresh (lifetime stamp now : Z) : bool := Unix now - stamp <=? lifetime.

(** That is up to a second longer than the record of its use is kept: a
    challenge stamped at 10 s and answered at 10.2 s is accepted again at
    70.9 s. *)
Example challenge_answered_twice :
  let ttl := loginPasskeyPendingLifetime * Second in
  challenge_cookie_fresh loginPasskeyPendingLifetime 10 (709 * 10 ^ 8) = true ∧
  (foldl spend_step (∅, []) [mkUse "c1" ttl (102 * 10 ^ 8); mkUse "c1" ttl (709 * 10 ^ 8)]).2 =
    [mkUse "c1" ttl (709 * 10 ^ 8); mkUse "c1" ttl (102 * 10 ^ 8)].
Proof. split; vm_compute; reflexivity. Qed.
