(* ===== verification/Credentials.v ===== *)
(** * The account's credentials

    The part of [src/internal/web/config.go] that holds the account (the
    password hash, the TOTP secret, the recovery hashes) with its savers,
    [passkeystore.go], [credentialFingerprint] of [auth.go] and [factors.go].
    The web process has one account.  Whether a write of web.toml or of
    passkeys.json succeeded is an argument; the bytes of the files are not
    modelled, what they record is.  A write of web.toml that failed is taken
    to have left the file as it was: where a temporary file cannot take its
    place, the code writes it in place, and a failure then may leave less. *)
From S2P Require Import Prelude GoStrings GoNet FeedIDs Models Diff AuditDetail GoCrypto NetString SecondFactor Sessions.

Local Open Scope Z_scope.

(** ** config.go *)

(** The credentials of [WebConfig]. *)
Record Account := mkAccount {
  Username : string;
  Password : string;
  TOTPSecret : string;
  RecoveryCodes : list string }.

#[global] Instance Account_eq_dec : EqDecision Account.
Proof. solve_decision. Defined.

(** The account in memory and the one in web.toml. *)
Record Config := mkConfig { cfg_mem : Account; cfg_file : Account }.

(** [saveLocked] of [next]: kept when the write succeeded, else rolled back. *)
Definition save_account (ok : bool) (next : Account) (c : Config) : bool * Config :=
  if ok then (true, mkConfig next next) else (false, c).

Definition IsFirstRun (c : Config) : bool := String.eqb (Password (cfg_mem c)) "".
Definition TOTPEnabled (c : Config) : bool := negb (String.eqb (TOTPSecret (cfg_mem c)) "").

Definition SaveCredentials (ok : bool) (username passwordHash : string) (c : Config) : bool * Config :=
  let a := cfg_mem c in save_account ok (mkAccount username passwordHash (TOTPSecret a) (RecoveryCodes a)) c.

Definition SaveTOTP (ok : bool) (secret : string) (hashes : list string) (c : Config) : bool * Config :=
  let a := cfg_mem c in save_account ok (mkAccount (Username a) (Password a) secret hashes) c.

Definition SaveRecoveryCodes (ok : bool) (hashes : list string) (c : Config) : bool * Config :=
  let a := cfg_mem c in save_account ok (mkAccount (Username a) (Password a) (TOTPSecret a) hashes) c.

(** [slices.Delete(slices.Clone(l), i, i+1)] at the first [h]. *)
Fixpoint delete_first (h : string) (l : list string) : option (list string) :=
  match l with
  | [] => None
  | x :: l => if String.eqb x h then Some l else cons x <$> delete_first h l
  end.

(** [RemoveRecoveryCode]: how many are left, whether the hash was there, and
    whether the write succeeded. *)
Definition RemoveRecoveryCode (ok : bool) (hash : string) (c : Config) : (nat * bool * bool) * Config :=
  let a := cfg_mem c in
  match delete_first hash (RecoveryCodes a) with
  | None => ((length (RecoveryCodes a), false, true), c)
  | Some rest =>
      let '(saved, c) := save_account ok (mkAccount (Username a) (Password a) (TOTPSecret a) rest) c in
      if saved then ((length rest, true, true), c) else ((length (RecoveryCodes a) - 1, true, false)%nat, c)
  end.

(** [SaveFirstRun]: refused once there is a password. *)
Inductive first_run_result := FirstRunSaved | ErrAlreadySetUp | FirstRunWriteFailed.
Definition SaveFirstRun (ok : bool) (a : Account) (c : Config) : first_run_result * Config :=
  if negb (IsFirstRun c) then (ErrAlreadySetUp, c)
  else let '(saved, c) := save_account ok a c in (if saved then FirstRunSaved else FirstRunWriteFailed, c).

(** ** passkeystore.go *)

Section store.
(** What the WebAuthn library keeps of an authenticator. *)
Context {Authenticator : Type}.

Record storedPasskey := mkPasskey { pk_Name : string; pk_AddedAt : Z; pk_Authenticator : Authenticator }.

(** What is at the path of passkeys.json. *)
Inductive PasskeyFile := PkMissing | PkUnreadable | PkDoc (passkeys : gmap string storedPasskey).

(** [passkeyStore]; a passkey is found under its credential ID. *)
Record passkeyStore := mkPasskeys {
  pk_file : PasskeyFile;
  pk_map : gmap string storedPasskey;
  pk_corrupt : bool }.

(** [newPasskeyStore]: absent is empty, present and unreadable is unknown. *)
Definition newPasskeyStore (file : PasskeyFile) : passkeyStore :=
  match file with
  | PkMissing => mkPasskeys file ∅ false
  | PkUnreadable => mkPasskeys file ∅ true
  | PkDoc m => mkPasskeys file m false
  end.

(** [saveLocked]: the file that does not parse is moved aside first. *)
Definition pk_saveLocked (moved ok : bool) (p : passkeyStore) : bool * passkeyStore :=
  if pk_corrupt p && negb moved then (false, p)
  else
    let file := if pk_corrupt p then PkMissing else pk_file p in
    if ok then (true, mkPasskeys (PkDoc (pk_map p)) (pk_map p) false)
    else (false, mkPasskeys file (pk_map p) false).

Definition pk_add (moved ok : bool) (name : string) (now : Z) (id : string) (auth : Authenticator) (p : passkeyStore) :
    bool * passkeyStore :=
  pk_saveLocked moved ok (mkPasskeys (pk_file p) (<[id := mkPasskey name now auth]> (pk_map p)) (pk_corrupt p)).

Definition pk_remove (moved ok : bool) (id : string) (p : passkeyStore) : bool * passkeyStore :=
  pk_saveLocked moved ok (mkPasskeys (pk_file p) (delete id (pk_map p)) (pk_corrupt p)).

(** [updateCounter]: an unknown id is left alone, a failed write swallowed. *)
Definition pk_updateCounter (moved ok : bool) (id : string) (auth : Authenticator) (p : passkeyStore) : passkeyStore :=
  match pk_map p !! id with
  | None => p
  | Some pk =>
      (pk_saveLocked moved ok
         (mkPasskeys (pk_file p) (<[id := mkPasskey (pk_Name pk) (pk_AddedAt pk) auth]> (pk_map p)) (pk_corrupt p))).2
  end.

(** [all]: oldest first, the id breaking ties. *)
Definition oldest_first (x y : string * storedPasskey) : Prop :=
  pk_AddedAt (snd x) < pk_AddedAt (snd y) ∨ (pk_AddedAt (snd x) = pk_AddedAt (snd y) ∧ string_le (fst x) (fst y)).
#[global] Instance oldest_first_dec x y : Decision (oldest_first x y).
Proof using. unfold oldest_first. apply _. Defined.

Definition pk_all (p : passkeyStore) : list (string * storedPasskey) := merge_sort oldest_first (map_to_list (pk_map p)).

(** [hex.EncodeToString] *)
Definition hex_byte (c : ascii) : list ascii := [digit_char (byte_val c / 16); digit_char (byte_val c mod 16)].
Definition hex_EncodeToString (s : string) : string := of_bytes (flat_map hex_byte (bytes s)).

Definition NUL : ascii := mkbyte 0.
Definition NUL_string : string := String NUL EmptyString.

Definition fingerprintInput (p : passkeyStore) : string :=
  Join (map hex_EncodeToString (merge_sort string_le (map fst (map_to_list (pk_map p))))) NUL_string.

(** ** factors.go *)

Definition passkeyCount (p : passkeyStore) : nat := length (pk_all p).

Definition factorCount (c : Config) (p : passkeyStore) : nat :=
  ((if TOTPEnabled c then 1 else 0) + passkeyCount p + (if pk_corrupt p then 1 else 0))%nat.

Definition hasSecondFactor (c : Config) (p : passkeyStore) : bool := (0 <? factorCount c p)%nat.

Definition mayRemoveFactor (isDemo : bool) (c : Config) (p : passkeyStore) : bool :=
  if isDemo then true
  else if pk_corrupt p then false
  else (1 <? factorCount c p)%nat.
End store.
Arguments storedPasskey : clear implicits.
Arguments PasskeyFile : clear implicits.
Arguments passkeyStore : clear implicits.
Arguments hex_byte : simpl never.

(** ** auth.go *)

Definition fingerprint_preimage (passwordHash totpSecret passkeySet : string) : string :=
  "easywall-session-v3:" +:+ passwordHash +:+ NUL_string +:+ totpSecret +:+ NUL_string +:+ passkeySet.

(** The first sixteen bytes of the hash, in base64. *)
Definition marker (preimage : string) : string := RawStdEncoding_EncodeToString (take 16 (sha256 (byte_vals preimage))).

Definition credentialFingerprint (passwordHash totpSecret passkeySet : string) : string :=
  marker (fingerprint_preimage passwordHash totpSecret passkeySet).

#[global] Arguments marker : simpl never.

(** The fingerprint in force. *)
Definition currentCredential {A} (c : Config) (p : passkeyStore A) : string :=
  credentialFingerprint (Password (cfg_mem c)) (TOTPSecret (cfg_mem c)) (fingerprintInput p).

(** ** What the fingerprint covers *)

Lemma bytes_app s t : bytes (s +:+ t) = bytes s ++ bytes t.
Proof. induction s as [|c s IH]; [done|]. change (String c s +:+ t) with (String c (s +:+ t)). simpl. by f_equal. Qed.

(** A separator that neither prefix holds. *)
Lemma app_sep_inj (x : ascii) a b a' b' : x ∉ a → x ∉ a' → a ++ x :: b = a' ++ x :: b' → a = a' ∧ b = b'.
Proof.
  revert a'; induction a as [|c a IH]; intros [|c' a'] Ha Ha'; simpl.
  - by intros [= ->].
  - intros [= <- _]. set_solver.
  - intros [= -> _]. set_solver.
  - intros [= -> HE]. destruct (IH a') as [-> ->]; [set_solver..|done|done].
Qed.

Lemma Join_inj (x : ascii) l l' :
  Forall (λ s, x ∉ bytes s ∧ s ≠ ""%string) l → Forall (λ s, x ∉ bytes s ∧ s ≠ ""%string) l' →
  Join l (String x "") = Join l' (String x "") → l = l'.
Proof.
  assert (∀ s r, Forall (λ s, x ∉ bytes s ∧ s ≠ ""%string) r →
    bytes (Join (s :: r) (String x "")) = bytes s ++ match r with [] => [] | _ => x :: bytes (Join r (String x "")) end) as HJ.
  { intros s r _. destruct r as [|s' r]; [by rewrite app_nil_r|].
    change (Join (s :: s' :: r) (String x "")) with (s +:+ String x "" +:+ Join (s' :: r) (String x "")).
    rewrite !bytes_app. done. }
  intros HF. revert l'. induction HF as [|s r [Hs Hne] Hr IH]; intros l' HF' HE.
  - destruct HF' as [|s' r' [Hs' Hne'] Hr']; [done|]. exfalso. apply (f_equal bytes) in HE.
    rewrite HJ in HE by done. change (bytes (Join [] _)) with (@nil ascii) in HE.
    symmetry in HE. apply app_eq_nil in HE as [HE _]. apply Hne'. by apply bytes_inj.
  - destruct HF' as [|s' r' [Hs' Hne'] Hr'].
    { exfalso. apply (f_equal bytes) in HE. rewrite HJ in HE by done. change (bytes (Join [] _)) with (@nil ascii) in HE.
      apply app_eq_nil in HE as [HE _]. apply Hne. by apply bytes_inj. }
    apply (f_equal bytes) in HE. rewrite !HJ in HE by done.
    destruct r as [|s2 r], r' as [|s2' r'].
    + rewrite !app_nil_r in HE. f_equal. by apply bytes_inj.
    + exfalso. rewrite app_nil_r in HE. apply Hs. rewrite HE. set_solver.
    + exfalso. rewrite app_nil_r in HE. apply Hs'. rewrite <- HE. set_solver.
    + apply app_sep_inj in HE as [He Ht]; [|done..]. apply bytes_inj in He. subst s'. f_equal.
      apply IH; [done|]. by apply bytes_inj.
Qed.

Lemma hex_byte_inj c d : hex_byte c = hex_byte d → c = d.
Proof.
  assert (∀ c, ∃ x y, hex_byte c = [x; y] ∧
    mkbyte (Z.to_nat (default 0 (hex_digit x) * 16 + default 0 (hex_digit y))) = c ∧ x ≠ NUL ∧ y ≠ NUL) as H.
  { intros e. do 2 eexists. split; [reflexivity|].
    destruct e as [[] [] [] [] [] [] [] []]; vm_compute; split; [reflexivity|split; discriminate|reflexivity|split; discriminate..]. }
  intros HE. destruct (H c) as (x & y & Hc & <- & _), (H d) as (x' & y' & Hd & <- & _). congruence.
Qed.

Lemma hex_byte_shape c : ∃ x y, hex_byte c = [x; y] ∧ x ≠ NUL ∧ y ≠ NUL.
Proof.
  do 2 eexists. split; [reflexivity|]. destruct c as [[] [] [] [] [] [] [] []]; vm_compute; split; discriminate.
Qed.

Lemma hex_inj s t : hex_EncodeToString s = hex_EncodeToString t → s = t.
Proof.
  unfold hex_EncodeToString. intros HE. apply (f_equal bytes) in HE. rewrite !bytes_of_bytes in HE. apply bytes_inj.
  revert HE. generalize (bytes s), (bytes t). intros l; induction l as [|c l IH]; intros [|d k]; [done|..];
    cbn [flat_map].
  - destruct (hex_byte_shape d) as (x & y & -> & _). done.
  - destruct (hex_byte_shape c) as (x & y & -> & _). done.
  - destruct (hex_byte_shape c) as (x & y & Hc & _), (hex_byte_shape d) as (x' & y' & Hd & _). rewrite Hc, Hd.
    intros [= -> -> HE]. f_equal; [|auto]. apply hex_byte_inj. by rewrite Hc, Hd.
Qed.

Lemma hex_no_NUL s : NUL ∉ bytes (hex_EncodeToString s).
Proof.
  unfold hex_EncodeToString. rewrite bytes_of_bytes. induction (bytes s) as [|c l IH]; [set_solver|]. cbn [flat_map].
  destruct (hex_byte_shape c) as (x & y & -> & Hx & Hy). set_solver.
Qed.

Lemma hex_nonempty s : s ≠ ""%string → hex_EncodeToString s ≠ ""%string.
Proof.
  intros Hs HE. apply Hs. apply hex_inj. by rewrite HE.
Qed.

#[global] Instance string_le_total : Total string_le.
Proof. intros a b. unfold string_le. destruct (String.leb_total a b); [by left|by right]. Qed.
#[global] Instance string_le_antisymm : AntiSymm (=) string_le.
Proof. intros a b. unfold string_le. apply String.leb_antisym. Qed.

Lemma ascii_compare_val a b : Ascii.compare a b = (byte_val a ?= byte_val b).
Proof. unfold Ascii.compare, byte_val. symmetry. apply N2Z.inj_compare. Qed.

#[global] Instance string_le_trans : Transitive string_le.
Proof.
  intros a b c. unfold string_le, String.leb. revert b c.
  induction a as [|x a IH]; intros [|y b] [|z c]; simpl; try done. rewrite !ascii_compare_val.
  destruct (Z.compare_spec (byte_val x) (byte_val y)), (Z.compare_spec (byte_val y) (byte_val z)),
    (Z.compare_spec (byte_val x) (byte_val z)); try done; try lia. apply IH.
Qed.

Definition ids_of {A} (p : passkeyStore A) : gset string := dom (pk_map p).

Definition sorted_ids {A} (p : passkeyStore A) : list string := merge_sort string_le (map fst (map_to_list (pk_map p))).

Lemma sorted_ids_elem {A} (p : passkeyStore A) id : id ∈ sorted_ids p ↔ id ∈ ids_of p.
Proof.
  unfold sorted_ids, ids_of. rewrite (merge_sort_Permutation string_le). rewrite elem_of_dom, list_elem_of_fmap. split.
  - intros ([k x] & -> & Hin%elem_of_map_to_list). by exists x.
  - intros [x Hx]. exists (id, x). split; [done|]. by apply elem_of_map_to_list.
Qed.

Lemma sorted_ids_set {A B} (p : passkeyStore A) (q : passkeyStore B) : sorted_ids p = sorted_ids q ↔ ids_of p = ids_of q.
Proof.
  split.
  - intros HE. apply set_eq. intros id. by rewrite <- !sorted_ids_elem, HE.
  - intros HE. unfold sorted_ids. apply (Sorted_unique string_le).
    + apply Sorted_merge_sort, _.
    + apply Sorted_merge_sort, _.
    + rewrite !merge_sort_Permutation. apply NoDup_Permutation; [apply NoDup_fst_map_to_list..|].
      intros id. pose proof (sorted_ids_elem p id) as H1. pose proof (sorted_ids_elem q id) as H2. unfold sorted_ids in *.
      rewrite merge_sort_Permutation in H1, H2. by rewrite H1, H2, HE.
Qed.

(** The printed set is the set. *)
Lemma fingerprintInput_set {A B} (p : passkeyStore A) (q : passkeyStore B) :
  ""%string ∉ ids_of p → ""%string ∉ ids_of q → fingerprintInput p = fingerprintInput q ↔ ids_of p = ids_of q.
Proof.
  intros Hp Hq. rewrite <- sorted_ids_set. unfold fingerprintInput. fold (sorted_ids p). fold (sorted_ids q).
  split; [|by intros ->]. intros HE.
  assert (∀ C (r : passkeyStore C), ""%string ∉ ids_of r →
    Forall (λ s, NUL ∉ bytes s ∧ s ≠ ""%string) (map hex_EncodeToString (sorted_ids r))) as HF.
  { intros C r Hr. apply Forall_map, Forall_forall. intros id Hid%sorted_ids_elem.
    split; [apply hex_no_NUL|apply hex_nonempty]. by intros ->. }
  apply Join_inj in HE; [|auto..]. revert HE. generalize (sorted_ids p), (sorted_ids q).
  intros l; induction l as [|x l IH]; intros [|y k]; simpl; try done. intros [= Hx%hex_inj Hl]. by rewrite Hx, (IH k Hl).
Qed.

Lemma preimage_inj h t s h' t' s' :
  NUL ∉ bytes h → NUL ∉ bytes h' → NUL ∉ bytes t → NUL ∉ bytes t' →
  fingerprint_preimage h t s = fingerprint_preimage h' t' s' → h = h' ∧ t = t' ∧ s = s'.
Proof.
  intros Hh Hh' Ht Ht' HE. apply (f_equal bytes) in HE. unfold fingerprint_preimage in HE.
  rewrite !bytes_app in HE. apply app_inv_head in HE. change (bytes NUL_string) with [NUL] in HE. simpl in HE.
  apply app_sep_inj in HE as [H1 HE]; [|done..]. apply app_sep_inj in HE as [H2 H3]; [|done..].
  split; [|split]; by apply bytes_inj.
Qed.

(** The credentials a session was issued under, as data. *)
Definition same_credentials {A} (c c' : Config) (p p' : passkeyStore A) : Prop :=
  Password (cfg_mem c) = Password (cfg_mem c') ∧ TOTPSecret (cfg_mem c) = TOTPSecret (cfg_mem c') ∧ ids_of p = ids_of p'.

(** C21: Changing any credential ends the other sessions, and nothing else does.
    A session stamped under one set of credentials is refused under another
    that differs in the password hash, the TOTP secret or the set of passkeys
    (unless the truncated SHA-256 of the two texts collides), and under one
    that differs in none of them, a signature counter that moved or a name
    included, its fingerprint is the one in force. *)
Theorem credential_change_ends_sessions {A} (c c' : Config) (p p' : passkeyStore A) revoked now ck :
  ""%string ∉ ids_of p → ""%string ∉ ids_of p' →
  (∀ a, a = cfg_mem c ∨ a = cfg_mem c' → NUL ∉ bytes (Password a) ∧ NUL ∉ bytes (TOTPSecret a)) →
  (let pre c p := fingerprint_preimage (Password (cfg_mem c)) (TOTPSecret (cfg_mem c)) (fingerprintInput p) in
   marker (pre c p) = marker (pre c' p') → pre c p = pre c' p') →
  s_cred (ck_values ck) = currentCredential c p →
  (¬ same_credentials c c' p p' → RequireAuth revoked now (currentCredential c' p') (Some ck) = false) ∧
  (same_credentials c c' p p' →
     RequireAuth revoked now (currentCredential c' p') (Some ck) = RequireAuth revoked now (currentCredential c p) (Some ck)).
Proof.
  intros Hp Hp' Hnul Hcol Hck. split.
  - intros Hne. assert (currentCredential c p ≠ currentCredential c' p') as Hfp.
    { intros HE. apply Hne. apply Hcol in HE. destruct (Hnul (cfg_mem c)) as [??]; [by left|].
      destruct (Hnul (cfg_mem c')) as [??]; [by right|].
      apply preimage_inj in HE as (? & ? & HS); [|done..]. split; [done|]. split; [done|]. by apply fingerprintInput_set. }
    unfold RequireAuth, Get_session. destruct (cookie_fresh now ck); [|done]. unfold sessionUser.
    destruct (String.eqb (s_user _) ""); [done|]. destruct (sessionRevoked _ _ _); [done|].
    destruct (String.eqb_spec (s_cred (ck_values ck)) (currentCredential c' p')) as [Heq|]; [|done].
    congruence.
  - intros (H1 & H2 & H3). unfold currentCredential. rewrite H1, H2.
    by rewrite (proj2 (fingerprintInput_set p p' Hp Hp') H3).
Qed.

Definition sample_config (totp : string) : Config :=
  let a := mkAccount "op" "$argon2id$v=19$m=65536,t=3,p=4$c2FsdA$a2V5" totp ["r1"; "r2"] in mkConfig a a.
Definition sample_passkeys (l : list (string * nat)) : passkeyStore nat :=
  mkPasskeys PkMissing (list_to_map (map (λ x, (fst x, mkPasskey "phone" 0 (snd x))) l)) false.

Lemma credential_change_ends_sessions_witness :
  let c := sample_config "GEZDGNBVGY3TQOJQ" in
  let p := sample_passkeys [("id-a"%string, 1%nat); ("id-b"%string, 7%nat)] in
  let ck := mkCookie (mkSession "op" (currentCredential c p) "sid" "") 100 in
  RequireAuth ∅ (101 * Second) (currentCredential c (sample_passkeys [("id-b"%string, 7%nat)])) (Some ck) = false ∧
  RequireAuth ∅ (101 * Second) (currentCredential c (sample_passkeys [("id-b"%string, 8%nat); ("id-a"%string, 2%nat)])) (Some ck)
    = RequireAuth ∅ (101 * Second) (currentCredential c p) (Some ck).
Proof.
  intros c p ck. split.
  - destruct (credential_change_ends_sessions c c p (sample_passkeys [("id-b"%string, 7%nat)]) ∅ (101 * Second) ck) as [H _].
    + apply (bool_decide_eq_true_1 _). vm_compute. reflexivity.
    + apply (bool_decide_eq_true_1 _). vm_compute. reflexivity.
    + intros a Ha. assert (a = cfg_mem c) as -> by by destruct Ha. split; apply (bool_decide_eq_true_1 _); vm_compute; reflexivity.
    + vm_compute. discriminate.
    + reflexivity.
    + apply H. intros (_ & _ & HS). revert HS. apply (bool_decide_eq_true_1 _). vm_compute. reflexivity.
  - destruct (credential_change_ends_sessions c c p (sample_passkeys [("id-b"%string, 8%nat); ("id-a"%string, 2%nat)]) ∅ (101 * Second) ck) as [_ H].
    + apply (bool_decide_eq_true_1 _). vm_compute. reflexivity.
    + apply (bool_decide_eq_true_1 _). vm_compute. reflexivity.
    + intros a Ha. assert (a = cfg_mem c) as -> by by destruct Ha. split; apply (bool_decide_eq_true_1 _); vm_compute; reflexivity.
    + intros pre _. vm_compute. reflexivity.
    + reflexivity.
    + apply H. split; [done|]. split; [done|]. apply (bool_decide_eq_true_1 _). vm_compute. reflexivity.
Defined.

(** ** Counting factors *)

Lemma passkeyCount_size {A} (p : passkeyStore A) : passkeyCount p = size (pk_map p).
Proof.
  unfold passkeyCount, pk_all. rewrite (Permutation_length (merge_sort_Permutation oldest_first _)). apply length_map_to_list.
Qed.

(** A factor that was counted before [pk_remove] or is enrolled still counts. *)
Lemma factorCount_remove {A} moved ok id c (p : passkeyStore A) :
  pk_corrupt p = false → (factorCount c p ≤ S (factorCount c (pk_remove moved ok id p).2))%nat.
Proof.
  intros Hc. unfold pk_remove, pk_saveLocked. simpl. rewrite Hc. simpl.
  assert (size (pk_map p) ≤ S (size (delete id (pk_map p))))%nat as Hs.
  { destruct (pk_map p !! id) as [x|] eqn:E; [|rewrite delete_id by done; lia].
    rewrite <- (insert_delete_id (pk_map p) id x) at 1 by done. rewrite map_size_insert, lookup_delete_eq. done. }
  unfold factorCount. destruct ok; simpl; rewrite !passkeyCount_size; simpl; rewrite ?Hc; lia.
Qed.

Lemma factorCount_totp_off {A} ok hashes c (p : passkeyStore A) :
  (factorCount c p ≤ S (factorCount (SaveTOTP ok "" hashes c).2 p))%nat.
Proof.
  unfold SaveTOTP, save_account, factorCount. destruct ok; simpl; [|lia]. destruct (TOTPEnabled c); unfold TOTPEnabled; simpl; lia.
Qed.
