(* ===== verification/Login.v ===== *)
(** * Signing in

    [src/internal/web/handler_login.go], [pending2fa.go] and the sign-in half
    of [handler_passkey.go]: the password step, the pending login it leaves,
    the second step's two doors (a code, a passkey) and the logout, composed
    from [Credentials], [SecondFactor] and [Sessions].

    A handler is a function of the server's state, the request and the current
    time (one instant per handler) to its answer and the next state.  The
    outcome of what the handler asks of others is an argument: argon2
    ([VerifyPassword]), the random source, a file write, the WebAuthn library.
    The audit line each handler writes is in its answer. *)
From S2P Require Import Prelude GoStrings LoginEvents GoRunes SecondFactor Sessions Credentials.

Local Open Scope Z_scope.

(** The pending login as its cookie carries it, with the codec's stamp. *)
Record pendingLogin := mkPending { p_User : string; p_CredFP : string; p_ID : string; p_IssuedAt : Z }.
Record PendingCookie := mkPendingCookie { pe_login : pendingLogin; pe_stamp : Z }.

#[global] Instance pendingLogin_eq_dec : EqDecision pendingLogin.
Proof. solve_decision. Defined.
#[global] Instance PendingCookie_eq_dec : EqDecision PendingCookie.
Proof. solve_decision. Defined.

Section login.
Context {Authenticator : Type}.
(** [unicode.ToUpper] and argon2. *)
Context (up : Z → Z) (VerifyPassword : string → string → bool).

(** The server, as far as signing in changes it. *)
Record Server := mkServer {
  srv_cfg : Config;
  srv_passkeys : passkeyStore Authenticator;
  srv_replay : totpReplay;
  srv_pending : gmap string pendingCounter;
  srv_revoked : gmap string Z;
  srv_spent : gmap string Z }.

Definition with_pending at_ s := mkServer (srv_cfg s) (srv_passkeys s) (srv_replay s) at_ (srv_revoked s) (srv_spent s).
Definition with_replay r s := mkServer (srv_cfg s) (srv_passkeys s) r (srv_pending s) (srv_revoked s) (srv_spent s).
Definition with_cfg c s := mkServer c (srv_passkeys s) (srv_replay s) (srv_pending s) (srv_revoked s) (srv_spent s).
Definition with_spent at_ s := mkServer (srv_cfg s) (srv_passkeys s) (srv_replay s) (srv_pending s) (srv_revoked s) at_.
Definition with_passkeys p s := mkServer (srv_cfg s) p (srv_replay s) (srv_pending s) (srv_revoked s) (srv_spent s).
Definition with_revoked at_ s := mkServer (srv_cfg s) (srv_passkeys s) (srv_replay s) (srv_pending s) at_ (srv_spent s).

Definition in_force (s : Server) : string := currentCredential (srv_cfg s) (srv_passkeys s).

(** ** The pending login *)

(** [writePending]: refused when the random source gave no id. *)
Definition writePending (now : Z) (newid : string) (p : pendingLogin) : option PendingCookie :=
  let id := if String.eqb (p_ID p) "" then newid else p_ID p in
  if String.eqb id "" then None
  else Some (mkPendingCookie (mkPending (p_User p) (p_CredFP p) id (p_IssuedAt p)) (Unix now)).

(** [readPending]: the login and the attempts it has spent. *)
Definition readPending (now : Z) (c : option PendingCookie) (s : Server) : option (pendingLogin * Z) :=
  match c with
  | None => None
  | Some c =>
      let p := pe_login c in
      if negb (Unix now - pe_stamp c <=? pendingLifetime) then None
      else if String.eqb (p_User p) "" || String.eqb (p_CredFP p) "" || String.eqb (p_ID p) "" || (p_IssuedAt p =? 0) then None
      else if pendingLifetime * Second <? now - p_IssuedAt p * Second then None
      else
        let n := pendingAttemptCount (srv_pending s) now (p_ID p) in
        if pendingMaxAttempts <=? n then None else Some (p, n)
  end.

Definition pendingForRequest (now : Z) (c : option PendingCookie) (s : Server) : option (pendingLogin * Z) :=
  match readPending now c s with
  | Some (p, n) => if String.eqb (p_CredFP p) (in_force s) then Some (p, n) else None
  | None => None
  end.

(** [spendPendingAttempt]: the attempt is charged before the factor is looked
    at. *)
Definition spendPendingAttempt (now : Z) (c : option PendingCookie) (s : Server) : option (pendingLogin * Z) * Server :=
  match pendingForRequest now c s with
  | None => (None, s)
  | Some (p, _) =>
      let '((n, ok), at_) := reservePendingAttempt (p_ID p) now (srv_pending s) in
      (if ok then Some (p, n) else None, with_pending at_ s)
  end.

(** ** Answers *)

(** How a session was earned. *)
Inductive factor := PasswordOnly | TimeCode | RecoveryCode (hash : string) (remaining : nat) | Passkey (id : string).

Inductive answer :=
| ToFirstRun
| Unavailable                                   (* 503 *)
| ToLogin (flash : string)                      (* back to /login *)
| ToVerify (flash : string)                     (* /login/verify, again or for the first time *)
| SecondStep (c : PendingCookie)                (* /login/verify, with a pending login *)
| SignedIn (f : factor) (flash : string) (c : Cookie). (* /dashboard, with a session *)

(** [grantSession] *)
Definition grantSession (now : Z) (username newid : string) (s : Server) : Cookie :=
  (Save_session (srv_revoked s) now (mkSession username (in_force s) newid "")).2.

(** [failVerifyAttempt], from the charge already taken. *)
Definition failVerifyAttempt (n : Z) : answer :=
  if pendingMaxAttempts <=? n then ToLogin "login_again" else ToVerify "verify_failed".

(** ** The password step

    [checked]: whether argon2 got its turn before the wait ended. *)
Definition handleLoginPOST (now : Z) (username password : string) (checked : bool) (newid : string) (s : Server) :
    answer * option LoginEvent :=
  let a := cfg_mem (srv_cfg s) in
  if IsFirstRun (srv_cfg s) then (ToFirstRun, None)
  else if negb checked then (Unavailable, None)
  else if negb (String.eqb username (Username a)) || negb (VerifyPassword password (Password a))
  then (ToLogin "invalid_credentials", Some EvLoginFailed)
  else if negb (hasSecondFactor (srv_cfg s) (srv_passkeys s))
  then (SignedIn PasswordOnly "" (grantSession now username newid s), Some EvLoginOK)
  else match writePending now newid (mkPending username (in_force s) "" (Unix now)) with
       | Some c => (SecondStep c, None)
       | None => (ToLogin "internal_error", None)
       end.

(** ** The code

    [hashes] is what [RecoveryCodes] returned; the removal is on the server's
    state, which another request may have changed since.  [replay_ok] and
    [codes_ok] are the outcomes of the two writes. *)
Definition recovery_case (now : Z) (p : pendingLogin) (n : Z) (code : string) (hashes : list string)
    (codes_ok : bool) (newid : string) (s : Server) : answer * option LoginEvent * Server :=
  match matchRecoveryCode up VerifyPassword code hashes with
  | None => (failVerifyAttempt n, Some Ev2FAFailed, s)
  | Some i =>
      let h := nth i hashes "" in
      let '((remaining, removed, ok), cfg) := RemoveRecoveryCode codes_ok h (srv_cfg s) in
      if negb removed then (failVerifyAttempt n, Some Ev2FAFailed, s)
      else
        let s := with_cfg cfg s in
        (SignedIn (RecoveryCode h remaining) (if ok then "recovery_left" else "recovery_not_consumed")
           (grantSession now (p_User p) newid s), Some EvRecoveryUsed, s)
  end.

Definition handleLoginVerifyPOST (now : Z) (c : option PendingCookie) (code : string) (hashes : list string)
    (replay_ok codes_ok : bool) (newid : string) (s : Server) : answer * option LoginEvent * Server :=
  match spendPendingAttempt now c s with
  | (None, s) => (ToLogin "", None, s)
  | (Some (p, n), s) =>
      let code := TrimSpace code in
      let '(timed, s) :=
        if isTOTPShape code
        then let '(ok, r) := acceptTOTP up (TOTPSecret (cfg_mem (srv_cfg s))) now code replay_ok (srv_replay s) in
             (ok, with_replay r s)
        else (false, s) in
      if timed then (SignedIn TimeCode "" (grantSession now (p_User p) newid s), Some EvLoginOK, s)
      else if isRecoveryShape up code then recovery_case now p n code hashes codes_ok newid s
      else (failVerifyAttempt n, Some Ev2FAFailed, s)
  end.

(** ** The passkey

    The challenge its cookie carries, and what the library made of the
    assertion: not run or refused, or verified for a credential, with the
    authenticator's new state and whether its counter stood still. *)
Record assertion := mkAssertion { as_id : string; as_auth : Authenticator; as_clone : bool }.

Definition handleLoginPasskeyFinish (now : Z) (c : option PendingCookie) (challenge : option string)
    (validated : option assertion) (moved pk_ok : bool) (newid : string) (s : Server) : answer * option LoginEvent * Server :=
  match spendPendingAttempt now c s with
  | (None, s) => (ToLogin "", None, s)
  | (Some (p, n), s) =>
      let '(fresh, s) :=
        match challenge with
        | None => (false, s)
        | Some ch =>
            let '(ok, at_) := spendChallenge ch (loginPasskeyPendingLifetime * Second) now (srv_spent s) in
            (ok, with_spent at_ s)
        end in
      if negb fresh then (failVerifyAttempt n, Some Ev2FAFailed, s)
      else match validated with
           | None => (failVerifyAttempt n, Some Ev2FAFailed, s)
           | Some a =>
               if as_clone a then (failVerifyAttempt n, Some EvPasskeyCloneSuspected, s)
               else
                 let s := with_passkeys (pk_updateCounter moved pk_ok (as_id a) (as_auth a) (srv_passkeys s)) s in
                 (SignedIn (Passkey (as_id a)) "" (grantSession now (p_User p) newid s), Some EvPasskeyUsed, s)
           end
  end.

(** ** The logout *)
Definition handleLogout (now : Z) (c : option Cookie) (s : Server) : option LoginEvent * Server :=
  let sv := (Get_session now c).1 in
  if String.eqb (s_id sv) "" then (None, s)
  else (if String.eqb (sessionUser (srv_revoked s) now (Some (in_force s)) sv) "" then None else Some EvLogout,
        with_revoked (revokeSession (s_id sv) now (srv_revoked s)) s).

(** ** Runs of the sign-in

    What a run records besides the server: the pending logins issued, with the
    password that opened each; the factor checks made, as the pending id and
    the time; and the sessions granted. *)
Inductive web_event :=
| WPassword (username password : string) (checked : bool) (newid : string) (now : Z)
| WCode (c : PendingCookie) (code : string) (hashes : list string) (replay_ok codes_ok : bool) (newid : string) (now : Z)
| WPasskey (c : PendingCookie) (challenge : option string) (validated : option assertion) (moved pk_ok : bool)
    (newid : string) (now : Z)
| WAccount (cfg : Config) (passkeys : passkeyStore Authenticator) (now : Z) (* the settings pages *)
| WLogout (c : Cookie) (now : Z).

Definition web_time (e : web_event) : Z :=
  match e with
  | WPassword _ _ _ _ t | WCode _ _ _ _ _ _ t | WPasskey _ _ _ _ _ _ t | WAccount _ _ t | WLogout _ t => t
  end.

Record opened := mkOpened { op_cookie : PendingCookie; op_password : string; op_account : Account }.
Record grant := mkGrant { g_factor : factor; g_pending : option pendingLogin; g_password : option string;
  g_account : Account; g_fp : string; g_hadFactor : bool; g_now : Z }.

Record run := mkRun {
  r_srv : Server;
  r_opened : list opened;
  r_checks : list (string * Z);
  r_grants : list grant }.

(** A cookie the codec accepts is one that was issued. *)
Definition presented (c : PendingCookie) (r : run) : option PendingCookie :=
  if bool_decide (c ∈ map op_cookie (r_opened r)) then Some c else None.

(** The check a request makes, if its attempt was granted. *)
Definition check_made (now : Z) (c : option PendingCookie) (s : Server) : list (string * Z) :=
  match (spendPendingAttempt now c s).1 with Some (p, _) => [(p_ID p, now)] | None => [] end.

Definition granted_by (a : answer) (p : option pendingLogin) (pw : option string) (now : Z) (s : Server) : list grant :=
  match a with SignedIn f _ _ => [mkGrant f p pw (cfg_mem (srv_cfg s)) (in_force s) (hasSecondFactor (srv_cfg s) (srv_passkeys s)) now] | _ => [] end.

Definition web_step (r : run) (e : web_event) : run :=
  let s := r_srv r in
  match e with
  | WPassword username password checked newid now =>
      let '(a, _) := handleLoginPOST now username password checked newid s in
      mkRun s (match a with SecondStep c => mkOpened c password (cfg_mem (srv_cfg s)) :: r_opened r | _ => r_opened r end)
        (r_checks r) (granted_by a None (Some password) now s ++ r_grants r)
  | WCode c code hashes rok cok newid now =>
      let c := presented c r in
      let '(a, _, s') := handleLoginVerifyPOST now c code hashes rok cok newid s in
      mkRun s' (r_opened r) (check_made now c s ++ r_checks r) (granted_by a (pe_login <$> c) None now s ++ r_grants r)
  | WPasskey c ch v moved ok newid now =>
      let c := presented c r in
      let '(a, _, s') := handleLoginPasskeyFinish now c ch v moved ok newid s in
      mkRun s' (r_opened r) (check_made now c s ++ r_checks r) (granted_by a (pe_login <$> c) None now s ++ r_grants r)
  | WAccount cfg pks _ => mkRun (with_passkeys pks (with_cfg cfg s)) (r_opened r) (r_checks r) (r_grants r)
  | WLogout c now => mkRun (handleLogout now (Some c) s).2 (r_opened r) (r_checks r) (r_grants r)
  end.

Definition web_run (s : Server) (evs : list web_event) : run := foldl web_step (mkRun s [] [] []) evs.

Fixpoint web_ordered (t : Z) (evs : list web_event) : Prop :=
  match evs with [] => True | e :: evs => t <= web_time e ∧ web_ordered (web_time e) evs end.

(** The random source never repeats the id of a pending login. *)
Fixpoint fresh_ids (r : run) (evs : list web_event) : Prop :=
  match evs with
  | [] => True
  | e :: evs =>
      match e with
      | WPassword _ _ _ newid _ => ∀ o, o ∈ r_opened r → p_ID (pe_login (op_cookie o)) ≠ newid
      | _ => True
      end ∧ fresh_ids (web_step r e) evs
  end.

(** ** The attempt comes before the check *)

Lemma pending_Some now pc s p n :
  pendingForRequest now (Some pc) s = Some (p, n) →
  p = pe_login pc ∧ p_ID p ≠ "" ∧ p_CredFP p = in_force s ∧ now <= (p_IssuedAt p + pendingLifetime) * Second.
Proof.
  unfold pendingForRequest, readPending.
  destruct (negb (Unix now - pe_stamp pc <=? pendingLifetime)); [done|].
  destruct (String.eqb_spec (p_ID (pe_login pc)) ""); [by rewrite orb_true_r|].
  destruct (_ || _ || _ || _); [done|].
  destruct (Z.ltb_spec (pendingLifetime * Second) (now - p_IssuedAt (pe_login pc) * Second)); [done|].
  destruct (pendingMaxAttempts <=? _); [done|].
  destruct (String.eqb_spec (p_CredFP (pe_login pc)) (in_force s)); [|done].
  intros [= <- <-]. split; [done|]. split; [done|]. split; [done|lia].
Qed.

Lemma spend_Some now c s p n s' :
  spendPendingAttempt now c s = (Some (p, n), s') →
  (∃ pc, c = Some pc ∧ pe_login pc = p) ∧ p_ID p ≠ "" ∧ p_CredFP p = in_force s ∧
  now <= (p_IssuedAt p + pendingLifetime) * Second ∧ n <= pendingMaxAttempts ∧ in_force s' = in_force s ∧
  srv_cfg s' = srv_cfg s ∧ srv_replay s' = srv_replay s ∧ srv_spent s' = srv_spent s ∧ srv_passkeys s' = srv_passkeys s.
Proof.
  unfold spendPendingAttempt. destruct c as [pc|]; [|done].
  destruct (pendingForRequest now (Some pc) s) as [[p' n']|] eqn:E; [|done].
  destruct (pending_Some _ _ _ _ _ E) as (-> & Hid & Hfp & Hl).
  unfold reservePendingAttempt. destruct (String.eqb_spec (p_ID (pe_login pc)) ""); [done|].
  destruct (Z.leb_spec pendingMaxAttempts (pc_n (default (mkCounter 0 now)
    (filter (λ x, now - pc_begun (snd x) <= pendingLifetime * Second) (srv_pending s) !! p_ID (pe_login pc))))); [done|].
  intros [= <- <- <-]. split; [by eexists|]. repeat (split; [done || lia|]). done.
Qed.

Lemma spend_reserves now c s log :
  let s' := (spendPendingAttempt now c s).2 in
  (srv_pending s' = srv_pending s ∧ check_made now c s = []) ∨
  ∃ pc, c = Some pc ∧ (srv_pending s', check_made now c s ++ log) =
        reserve_step (srv_pending s, log) (p_ID (pe_login pc), now).
Proof.
  intros s'. subst s'. unfold check_made, spendPendingAttempt. destruct c as [pc|]; [|by left].
  destruct (pendingForRequest now (Some pc) s) as [[p n]|] eqn:E; [|by left].
  right. exists pc. split; [done|]. destruct (pending_Some _ _ _ _ _ E) as [-> _].
  unfold reserve_step. cbn [fst snd]. destruct (reservePendingAttempt _ now (srv_pending s)) as [[n' ok] at_].
  by destruct ok.
Qed.

Lemma code_pending now c code hashes rok cok newid s :
  srv_pending (handleLoginVerifyPOST now c code hashes rok cok newid s).2 = srv_pending (spendPendingAttempt now c s).2.
Proof.
  unfold handleLoginVerifyPOST. destruct (spendPendingAttempt now c s) as [[[p n]|] s']; [|done]. cbn [snd].
  destruct (isTOTPShape (TrimSpace code)); [destruct (acceptTOTP _ _ _ _ _ _) as [[] r]|]; try done;
    (destruct (isRecoveryShape up (TrimSpace code)); [|done]);
    unfold recovery_case; (destruct (matchRecoveryCode _ _ _ _); [|done]);
    destruct (RemoveRecoveryCode _ _ _) as [[[k []] ok] cfg]; done.
Qed.

Lemma passkey_pending now c ch v moved ok newid s :
  srv_pending (handleLoginPasskeyFinish now c ch v moved ok newid s).2 = srv_pending (spendPendingAttempt now c s).2.
Proof.
  unfold handleLoginPasskeyFinish. destruct (spendPendingAttempt now c s) as [[[p n]|] s']; [|done]. cbn [snd].
  destruct ch as [ch|]; [|done]. destruct (spendChallenge _ _ _ _) as [[] at_]; [|done]. simpl.
  destruct v as [a|]; [|done]. by destruct (as_clone a).
Qed.

(** ** Three checks a pending login *)

Record web_inv (t : Z) (r : run) : Prop := {
  wi_reserved : ∃ rs t0, times_ordered t0 rs ∧ Forall (λ e, snd e <= t) rs ∧
    foldl reserve_step (∅, []) rs = (srv_pending (r_srv r), r_checks r);
  wi_opened : ∀ o, o ∈ r_opened r → p_IssuedAt (pe_login (op_cookie o)) * Second <= t;
  wi_unique : ∀ o o', o ∈ r_opened r → o' ∈ r_opened r →
    p_ID (pe_login (op_cookie o)) = p_ID (pe_login (op_cookie o')) → o = o';
  wi_checks : ∀ id u, (id, u) ∈ r_checks r → ∃ o, o ∈ r_opened r ∧ p_ID (pe_login (op_cookie o)) = id ∧ id ≠ "" ∧
    p_IssuedAt (pe_login (op_cookie o)) * Second <= u <= (p_IssuedAt (pe_login (op_cookie o)) + pendingLifetime) * Second }.

Lemma times_ordered_snoc t rs e :
  times_ordered t rs → Forall (λ x, snd x <= snd e) rs → t <= snd e → times_ordered t (rs ++ [e]).
Proof.
  revert t; induction rs as [|x rs IH]; intros t; [by simpl|]. intros [Ht Ho] HF Hle.
  apply Forall_cons in HF as [Hx HF]. split; [done|]. by apply IH.
Qed.

Lemma times_ordered_weaken t t' rs : t' <= t → times_ordered t rs → times_ordered t' rs.
Proof. destruct rs as [|x rs]; [done|]. intros ? [??]. split; [lia|done]. Qed.

Lemma presented_Some c r pc : presented c r = Some pc → pc = c ∧ ∃ o, o ∈ r_opened r ∧ op_cookie o = c.
Proof.
  unfold presented. case_bool_decide as H; [|done]. intros [= <-]. split; [done|].
  apply list_elem_of_fmap in H as (o & -> & Ho). by exists o.
Qed.

(** A check leaves the invariant in place. *)
Lemma web_inv_check t now c r s' grants :
  web_inv t r → t <= now → 0 <= now →
  srv_pending s' = srv_pending (spendPendingAttempt now (presented c r) (r_srv r)).2 →
  web_inv now (mkRun s' (r_opened r) (check_made now (presented c r) (r_srv r) ++ r_checks r) grants).
Proof.
  intros [HR HO HU HC] Ht Hn Hs. constructor; cbn [r_srv r_opened r_checks].
  - rewrite Hs. destruct HR as (rs & t0 & Hts & HF & HE).
    assert (Forall (λ e : string * Z, e.2 <= now) rs) as HF'.
    { eapply Forall_impl; [exact HF|]. intros x Hx. simpl in Hx. lia. }
    destruct (spend_reserves now (presented c r) (r_srv r) (r_checks r)) as [[-> ->]|(pc & Hpc & Hres)].
    + exists rs, t0. split; [done|]. split; [done|exact HE].
    + exists (rs ++ [(p_ID (pe_login pc), now)]), (Z.min t0 now). split; [|split].
      * apply times_ordered_snoc; [|exact HF'|simpl; lia]. apply (times_ordered_weaken t0); [lia|done].
      * apply Forall_app; split; [done|]. constructor; [simpl; lia|constructor].
      * rewrite foldl_app, HE. simpl. by symmetry.
  - intros o Ho. specialize (HO o Ho). lia.
  - done.
  - intros id u Hin. apply elem_of_app in Hin as [Hin|Hin]; [|by apply HC].
    unfold check_made in Hin. destruct (spendPendingAttempt now (presented c r) (r_srv r)) as [[[p n]|] s1] eqn:E;
      cbn [fst] in Hin; [|by apply not_elem_of_nil in Hin].
    apply list_elem_of_singleton in Hin as [= -> ->].
    destruct (spend_Some _ _ _ _ _ _ E) as ((pc & Hpc & <-) & Hid & _ & Hlate & _).
    destruct (presented_Some _ _ _ Hpc) as (-> & o & Ho & <-). exists o. split; [done|]. split; [done|]. split; [done|].
    specialize (HO o Ho). lia.
Qed.

Lemma web_inv_same t now r s' grants :
  web_inv t r → t <= now → srv_pending s' = srv_pending (r_srv r) →
  web_inv now (mkRun s' (r_opened r) (r_checks r) grants).
Proof.
  intros [HR HO HU HC] Ht Hs. constructor; cbn [r_srv r_opened r_checks]; [|intros o Ho; specialize (HO o Ho); lia|done|done].
  rewrite Hs. destruct HR as (rs & t0 & Hts & HF & HE). exists rs, t0. split; [done|]. split; [|done].
  eapply Forall_impl; [exact HF|]. intros x Hx. simpl in Hx. lia.
Qed.

Lemma Unix_le now : Unix now * Second <= now.
Proof using. unfold Unix, Second, nanosecond_per_second. pose proof (Z.mul_div_le now (10 ^ 9) ltac:(lia)). lia. Qed.

Lemma SecondStep_cookie now username password checked newid s c ev :
  handleLoginPOST now username password checked newid s = (SecondStep c, ev) →
  newid ≠ "" ∧ pe_login c = mkPending username (in_force s) newid (Unix now) ∧
  username = Username (cfg_mem (srv_cfg s)) ∧ VerifyPassword password (Password (cfg_mem (srv_cfg s))) = true ∧
  hasSecondFactor (srv_cfg s) (srv_passkeys s) = true.
Proof.
  unfold handleLoginPOST. destruct (IsFirstRun _); [done|]. destruct checked; [|done]. cbn [negb].
  destruct (String.eqb_spec username (Username (cfg_mem (srv_cfg s)))) as [Hu|]; [|done].
  destruct (VerifyPassword _ _); [|done]. destruct (hasSecondFactor _ _) eqn:EF; [|done]. cbn [negb orb].
  unfold writePending. cbn [p_ID p_User p_CredFP p_IssuedAt]. change (String.eqb "" "") with true. cbn [negb].
  destruct (String.eqb_spec newid ""); [done|]. intros [= <- <-]. done.
Qed.

Lemma web_inv_step t r e :
  web_inv t r → t <= web_time e → 0 <= web_time e → fresh_ids r [e] → web_inv (web_time e) (web_step r e).
Proof.
  intros HI Ht Hn [Hf _]. destruct e as [u pw ck newid now|c code hashes rok cok newid now|c ch v moved ok newid now|cfg pks now|c now];
    cbn [web_step web_time] in *.
  - destruct (handleLoginPOST now u pw ck newid (r_srv r)) as [a ev] eqn:E.
    assert (web_inv now (mkRun (r_srv r) (r_opened r) (r_checks r) (granted_by a None (Some pw) now (r_srv r) ++ r_grants r))) as HS
      by (by apply (web_inv_same t)).
    destruct a; try exact HS. destruct (SecondStep_cookie _ _ _ _ _ _ _ _ E) as (Hid & Hc & _).
    destruct HS as [HR HO HU HC]. constructor; cbn [r_srv r_opened r_checks] in *; [done| | |].
    + intros o [->|Ho]%elem_of_cons; [|auto]. cbn [op_cookie]. rewrite Hc. apply Unix_le.
    + intros o o' [->|Ho]%elem_of_cons [->|Ho']%elem_of_cons; cbn [op_cookie]; rewrite ?Hc; cbn [p_ID]; [done| | |by apply HU].
      * intros Heq. by destruct (Hf o' Ho').
      * intros Heq. by destruct (Hf o Ho).
    + intros id x Hin. destruct (HC id x Hin) as (o & Ho & Hrest). exists o. split; [by right|done].
  - destruct (handleLoginVerifyPOST now (presented c r) code hashes rok cok newid (r_srv r)) as [[a ev] s'] eqn:E.
    apply (web_inv_check t); [done..|]. rewrite <- (code_pending now (presented c r) code hashes rok cok newid), E. done.
  - destruct (handleLoginPasskeyFinish now (presented c r) ch v moved ok newid (r_srv r)) as [[a ev] s'] eqn:E.
    apply (web_inv_check t); [done..|]. rewrite <- (passkey_pending now (presented c r) ch v moved ok newid), E. done.
  - by apply (web_inv_same t).
  - apply (web_inv_same t); [done..|]. unfold handleLogout. by destruct (String.eqb _ "").
Qed.

Lemma web_inv_run t r evs :
  web_inv t r → 0 <= t → web_ordered t evs → fresh_ids r evs → ∃ t', web_inv t' (foldl web_step r evs).
Proof.
  revert t r; induction evs as [|e evs IH]; intros t r HI Hn Ho Hf; [by exists t|]. destruct Ho as [Ht Ho], Hf as [Hf1 Hf].
  cbn [foldl]. apply (IH (web_time e)); [|lia|done|done]. apply (web_inv_step t); [done|done|lia|done].
Qed.

(** C15: A correct password buys three checks of the second factor.  Over any run
    of sign-ins, logouts and changes of the account, in which nobody can forge
    a cookie and no random id repeats, the codes and passkey assertions looked
    at on the strength of one pending login are at most [pendingMaxAttempts],
    whichever door they came through and however often its cookie is sent. *)
Theorem pending_login_gets_three_guesses s evs id :
  srv_pending s = ∅ → web_ordered 0 evs → fresh_ids (mkRun s [] [] []) evs →
  (length (filter (λ e, fst e = id) (r_checks (web_run s evs))) ≤ Z.to_nat pendingMaxAttempts)%nat.
Proof.
  intros Hs Ho Hf. destruct (web_inv_run 0 (mkRun s [] [] []) evs) as [t HI]; [|done..|].
  { constructor; cbn [r_srv r_opened r_checks].
    - exists [], 0. rewrite Hs. done.
    - intros o Hin. by apply not_elem_of_nil in Hin.
    - intros o o' Hin. by apply not_elem_of_nil in Hin.
    - intros i u Hin. by apply not_elem_of_nil in Hin. }
  fold (web_run s evs) in HI. destruct HI as [(rs & t0 & Hts & _ & HE) HO HU HC].
  destruct (filter (λ e, fst e = id) (r_checks (web_run s evs))) as [|[i u] l] eqn:EF; [simpl; lia|]. rewrite <- EF.
  assert ((i, u) ∈ filter (λ e, fst e = id) (r_checks (web_run s evs))) as Hin by (rewrite EF; by left).
  apply list_elem_of_filter in Hin as [Hi Hin]. simpl in Hi. subst i.
  destruct (HC id u Hin) as (o & Hoo & Hido & Hne & _). set (issued := p_IssuedAt (pe_login (op_cookie o)) * Second).
  assert (∀ v, (id, v) ∈ r_checks (web_run s evs) → issued <= v <= issued + pendingLifetime * Second) as Hall.
  { intros v Hv. destruct (HC id v Hv) as (o' & Hoo' & Hido' & _ & Hr).
    assert (o' = o) as -> by (apply HU; [done|done|congruence]). unfold issued. lia. }
  pose proof (three_guesses rs t0 id issued Hne Hts) as H3. rewrite HE in H3. cbn [snd] in H3.
  specialize (H3 (λ v Hv, proj1 (Hall v Hv))). unfold granted in H3.
  assert (filter (λ e, fst e = id) (r_checks (web_run s evs)) =
          filter (λ e, fst e = id ∧ snd e <= issued + pendingLifetime * Second) (r_checks (web_run s evs))) as ->; [|lia].
  apply filter_ext_in. intros [i v] Hv. simpl. split; [|naive_solver]. intros ->. split; [done|].
  by apply Hall.
Qed.

(** ** What the second step takes *)

Lemma delete_first_Some h l l' : delete_first h l = Some l' → h ∈ l ∧ l ≡ₚ h :: l' ∧ length l = S (length l').
Proof.
  revert l'; induction l as [|x l IH]; intros l'; simpl; [done|].
  destruct (String.eqb_spec x h) as [->|].
  - intros [= <-]. split; [by left|done].
  - destruct (delete_first h l) as [r|]; simpl; [|done]. intros [= <-].
    destruct (IH r eq_refl) as (Hin & Hp & Hl). split; [by right|]. split; [by rewrite Hp; constructor|simpl; lia].
Qed.

Lemma matchRecoveryCode_Some code hashes i :
  matchRecoveryCode up VerifyPassword code hashes = Some i →
  isRecoveryShape up code = true ∧ VerifyPassword (normaliseRecoveryCode up code) (nth i hashes ""%string) = true.
Proof.
  unfold matchRecoveryCode. destruct (isRecoveryShape up code); [|done]. cbn [negb].
  rewrite foldl_first_match. destruct (list_find _ hashes) as [[j h]|] eqn:E; [|done]. intros [= <-]. split; [done|].
  apply list_find_Some in E as (Hj & Hv & _). by rewrite (nth_lookup_Some _ _ _ _ Hj).
Qed.

(** The account's codes afterwards, for a factor a code can be. *)
Definition code_spent (now : Z) (code : string) (codes_ok : bool) (f : factor) (s s' : Server) : Prop :=
  match f with
  | TimeCode =>
      last_step (srv_replay s) < last_step (srv_replay s') ∧ srv_cfg s' = srv_cfg s ∧
      ∃ raw, decodeTOTPSecret up (TOTPSecret (cfg_mem (srv_cfg s))) = Some raw ∧
             totpAt raw (last_step (srv_replay s')) = TrimSpace code ∧
             stepAt now - 1 <= last_step (srv_replay s') <= stepAt now + 1
  | RecoveryCode h remaining =>
      srv_replay s' = srv_replay s ∧ VerifyPassword (normaliseRecoveryCode up (TrimSpace code)) h = true ∧
      length (RecoveryCodes (cfg_mem (srv_cfg s))) = S remaining ∧ h ∈ RecoveryCodes (cfg_mem (srv_cfg s)) ∧
      (codes_ok = true → RecoveryCodes (cfg_mem (srv_cfg s)) ≡ₚ h :: RecoveryCodes (cfg_mem (srv_cfg s'))) ∧
      (codes_ok = false → srv_cfg s' = srv_cfg s)
  | PasswordOnly | Passkey _ => False
  end.

Lemma fail_not_signed n (x : option LoginEvent) (s s' : Server) f fl ck (ev : option LoginEvent) : (failVerifyAttempt n, x, s) = (SignedIn f fl ck, ev, s') → False.
Proof. unfold failVerifyAttempt. by destruct (_ <=? _). Qed.

Lemma recovery_signs_in now p n code hashes cok newid s f fl ck ev s' :
  recovery_case now p n (TrimSpace code) hashes cok newid s = (SignedIn f fl ck, ev, s') →
  match f with RecoveryCode _ _ => code_spent now code cok f s s' | _ => False end ∧ in_force s' = in_force s.
Proof.
  unfold recovery_case. destruct (matchRecoveryCode _ _ _ hashes) as [i|] eqn:EM; [|by intros ?%fail_not_signed].
  destruct (matchRecoveryCode_Some _ _ _ EM) as [_ Hv]. unfold RemoveRecoveryCode.
  destruct (delete_first _ _) as [rest|] eqn:ED; [|by intros ?%fail_not_signed].
  destruct (delete_first_Some _ _ _ ED) as (Hin & Hp & Hl).
  destruct cok; cbn [save_account negb]; intros [= <- _ _ _ <-]; (split; [|done]);
    (split; [done|]); (split; [exact Hv|]); (split; [simpl; lia|]); (split; [exact Hin|]); by split.
Qed.

Lemma code_signs_in now c code hashes rok cok newid s f fl ck ev s' :
  handleLoginVerifyPOST now c code hashes rok cok newid s = (SignedIn f fl ck, ev, s') →
  (∃ p n s1, spendPendingAttempt now c s = (Some (p, n), s1)) ∧ code_spent now code cok f s s' ∧ in_force s' = in_force s.
Proof.
  unfold handleLoginVerifyPOST. destruct (spendPendingAttempt now c s) as [[[p n]|] s1] eqn:ES; [|done].
  destruct (spend_Some _ _ _ _ _ _ ES) as (_ & _ & _ & _ & _ & Hfp & Hcfg & Hrep & _).
  intros HE. split; [by eauto|]. revert HE. rewrite <- Hfp. revert Hcfg Hrep. clear Hfp ES.
  intros Hcfg Hrep. rewrite Hcfg, Hrep.
  assert (∀ r, srv_cfg r = srv_cfg s → srv_replay r = srv_replay s → in_force r = in_force s1 →
    (if isRecoveryShape up (TrimSpace code) then recovery_case now p n (TrimSpace code) hashes cok newid r
     else (failVerifyAttempt n, Some Ev2FAFailed, r)) = (SignedIn f fl ck, ev, s') →
    code_spent now code cok f s s' ∧ in_force s' = in_force s1) as HR.
  { intros r Hc Hr Hf HE. destruct (isRecoveryShape up (TrimSpace code)); [|by apply fail_not_signed in HE].
    destruct (recovery_signs_in _ _ _ _ _ _ _ _ _ _ _ _ _ HE) as (Hs & Hfs). rewrite Hfs. split; [|done].
    unfold code_spent in *. destruct f; try done. by rewrite <- Hc, <- Hr. }
  destruct (isTOTPShape (TrimSpace code)); [|by apply HR].
  pose proof (acceptTOTP_spec up (TOTPSecret (cfg_mem (srv_cfg s))) now (TrimSpace code) rok (srv_replay s)) as HA.
  destruct (acceptTOTP _ _ _ _ _ _) as [[] r'].
  - intros [= <- _ _ _ <-]. destruct HA as (Hlt & _ & raw & HD & Hcode & Hw).
    split; [|done]. split; [exact Hlt|]. split; [exact Hcfg|]. exists raw. exact (conj HD (conj Hcode Hw)).
  - subst r'. by apply HR.
Qed.

Lemma passkey_signs_in now c ch v moved ok newid s f fl ck ev s' :
  handleLoginPasskeyFinish now c ch v moved ok newid s = (SignedIn f fl ck, ev, s') →
  (∃ p n s1, spendPendingAttempt now c s = (Some (p, n), s1)) ∧
  (∃ challenge a, ch = Some challenge ∧ v = Some a ∧ as_clone a = false ∧ f = Passkey (as_id a) ∧
     spendChallenge challenge (loginPasskeyPendingLifetime * Second) now (srv_spent s) = (true, srv_spent s')) ∧
  srv_cfg s' = srv_cfg s ∧ srv_replay s' = srv_replay s.
Proof.
  unfold handleLoginPasskeyFinish. destruct (spendPendingAttempt now c s) as [[[p n]|] s1] eqn:ES; [|done].
  destruct (spend_Some _ _ _ _ _ _ ES) as (_ & _ & _ & _ & _ & _ & Hcfg & Hrep & Hsp & _).
  destruct ch as [challenge|]; [|by intros ?%fail_not_signed]. rewrite Hsp.
  destruct (spendChallenge challenge _ now (srv_spent s)) as [[] at_] eqn:EC; [|by intros ?%fail_not_signed].
  destruct v as [a|]; [|by intros ?%fail_not_signed]. cbn [negb]. destruct (as_clone a) eqn:EA; [by intros ?%fail_not_signed|].
  intros [= <- _ _ _ <-]. split; [by eauto|]. split; [|done]. exists challenge, a. done.
Qed.


Definition from_pending (now : Z) (c : option PendingCookie) (s : Server) : Prop :=
  ∃ pc, c = Some pc ∧ p_CredFP (pe_login pc) = in_force s ∧
        now <= (p_IssuedAt (pe_login pc) + pendingLifetime) * Second.

Definition passkey_spent (now : Z) (ch : option string) (v : option assertion) (f : factor) (s s' : Server) : Prop :=
  ∃ challenge a, ch = Some challenge ∧ v = Some a ∧ as_clone a = false ∧ f = Passkey (as_id a) ∧
    spendChallenge challenge (loginPasskeyPendingLifetime * Second) now (srv_spent s) = (true, srv_spent s').

Lemma spend_from_pending now c s p n s1 : spendPendingAttempt now c s = (Some (p, n), s1) → from_pending now c s.
Proof. intros HE. destruct (spend_Some _ _ _ _ _ _ HE) as ((pc & -> & <-) & _ & ? & ? & _). by exists pc. Qed.

(** C17: The second step spends a factor.  A session is granted at it only on the
    strength of a pending login whose credentials are still in force, at most
    [pendingLifetime] after it began and for one of its attempts, and then
    either a time code moved the replay record to a later step whose code it
    is, or a stored recovery code that verifies was removed (exactly one copy,
    when the write succeeded), or a passkey assertion verified, its counter
    not standing still, over a challenge that had not been spent. *)
Theorem second_step_spends_a_factor now c newid s f fl ck ev s' :
  (∀ code hashes rok cok,
     handleLoginVerifyPOST now c code hashes rok cok newid s = (SignedIn f fl ck, ev, s') →
     from_pending now c s ∧ code_spent now code cok f s s') ∧
  (∀ ch v moved ok,
     handleLoginPasskeyFinish now c ch v moved ok newid s = (SignedIn f fl ck, ev, s') →
     from_pending now c s ∧ passkey_spent now ch v f s s').
Proof.
  split.
  - intros code hashes rok cok HE. destruct (code_signs_in _ _ _ _ _ _ _ _ _ _ _ _ _ HE) as ((p & n & s1 & HS) & Hc & _).
    split; [by eapply spend_from_pending|exact Hc].
  - intros ch v moved ok HE. destruct (passkey_signs_in _ _ _ _ _ _ _ _ _ _ _ _ _ HE) as ((p & n & s1 & HS) & Hc & _).
    split; [by eapply spend_from_pending|exact Hc].
Qed.

(** ** What does not sign in leaves the account alone *)

Lemma spend_cfg now c s : srv_cfg (spendPendingAttempt now c s).2 = srv_cfg s.
Proof.
  unfold spendPendingAttempt. destruct (pendingForRequest now c s) as [[p n]|]; [|done].
  by destruct (reservePendingAttempt _ _ _) as [[? ?] ?].
Qed.

Lemma code_fails now c code hashes rok cok newid s a ev s' :
  handleLoginVerifyPOST now c code hashes rok cok newid s = (a, ev, s') →
  (∀ f fl k, a ≠ SignedIn f fl k) → srv_cfg s' = srv_cfg s.
Proof.
  pose proof (spend_cfg now c s) as HS. unfold handleLoginVerifyPOST.
  destruct (spendPendingAttempt now c s) as [[[p n]|] s1]; cbn [snd] in HS; [|by intros [= _ _ <-]].
  assert (∀ r, srv_cfg r = srv_cfg s →
    (if isRecoveryShape up (TrimSpace code) then recovery_case now p n (TrimSpace code) hashes cok newid r
     else (failVerifyAttempt n, Some Ev2FAFailed, r)) = (a, ev, s') →
    (∀ f fl k, a ≠ SignedIn f fl k) → srv_cfg s' = srv_cfg s) as HR.
  { intros r Hr HE Hn. destruct (isRecoveryShape up (TrimSpace code)); [|by injection HE as _ _ <-].
    unfold recovery_case in HE. destruct (matchRecoveryCode _ _ _ hashes); [|by injection HE as _ _ <-].
    destruct (RemoveRecoveryCode _ _ _) as [[[k []] ok] cfg']; cbn [negb] in HE; injection HE as Ha _ <-; [|done].
    by destruct (Hn _ _ _ (eq_sym Ha)). }
  destruct (isTOTPShape (TrimSpace code)); [|by apply HR].
  destruct (acceptTOTP _ _ _ _ _ _) as [[] r']; [|by apply HR].
  intros [= <- _ _] Hn. by destruct (Hn _ _ _ eq_refl).
Qed.

Lemma passkey_cfg now c ch v moved ok newid s a ev s' :
  handleLoginPasskeyFinish now c ch v moved ok newid s = (a, ev, s') → srv_cfg s' = srv_cfg s.
Proof.
  pose proof (spend_cfg now c s) as HS. unfold handleLoginPasskeyFinish.
  destruct (spendPendingAttempt now c s) as [[[p n]|] s1]; cbn [snd] in HS; [|by intros [= _ _ <-]].
  destruct ch as [ch|]; [|by intros [= _ _ <-]]. destruct (spendChallenge _ _ _ _) as [[] at_]; cbn [negb]; [|by intros [= _ _ <-]].
  destruct v as [x|]; [|by intros [= _ _ <-]]. destruct (as_clone x); by intros [= _ _ <-].
Qed.

(** ** Where sessions come from *)

Lemma password_signs_in now username password checked newid s f fl ck ev :
  handleLoginPOST now username password checked newid s = (SignedIn f fl ck, ev) →
  f = PasswordOnly ∧ username = Username (cfg_mem (srv_cfg s)) ∧ IsFirstRun (srv_cfg s) = false ∧
  VerifyPassword password (Password (cfg_mem (srv_cfg s))) = true ∧ hasSecondFactor (srv_cfg s) (srv_passkeys s) = false.
Proof.
  unfold handleLoginPOST. destruct (IsFirstRun _); [done|]. destruct checked; [|done]. cbn [negb].
  destruct (String.eqb_spec username (Username (cfg_mem (srv_cfg s)))) as [Hu|]; [|done].
  destruct (VerifyPassword _ _); [|done]. destruct (hasSecondFactor _ _); cbn [negb orb].
  - by destruct (writePending _ _ _).
  - by intros [= <- _ _ _].
Qed.

(** A grant and the password behind it. *)
Definition earned (opens : list opened) (g : grant) : Prop :=
  match g_pending g with
  | None =>
      g_factor g = PasswordOnly ∧ g_hadFactor g = false ∧
      ∃ pw, g_password g = Some pw ∧ VerifyPassword pw (Password (g_account g)) = true
  | Some p =>
      g_factor g ≠ PasswordOnly ∧ p_CredFP p = g_fp g ∧ g_now g <= (p_IssuedAt p + pendingLifetime) * Second ∧
      ∃ o, o ∈ opens ∧ pe_login (op_cookie o) = p ∧ p_User p = Username (op_account o) ∧
           VerifyPassword (op_password o) (Password (op_account o)) = true
  end.

Definition opened_ok (o : opened) : Prop :=
  p_User (pe_login (op_cookie o)) = Username (op_account o) ∧ VerifyPassword (op_password o) (Password (op_account o)) = true.

Lemma earned_mono o opens g : earned opens g → earned (o :: opens) g.
Proof.
  unfold earned. destruct (g_pending g); [|done]. intros (? & ? & ? & o' & Ho & Hr).
  split; [done|]. split; [done|]. split; [done|]. exists o'. split; [by right|done].
Qed.

Lemma granted_by_earned r c a now pc s' :
  c = presented pc r → (∀ f fl ck, a = SignedIn f fl ck → from_pending now c (r_srv r) ∧ f ≠ PasswordOnly) →
  Forall opened_ok (r_opened r) → s' = r_srv r →
  Forall (earned (r_opened r)) (granted_by a (pe_login <$> c) None now s').
Proof.
  intros -> Ha Ho ->. destruct a as [| | | | |f fl ck]; [by constructor..|]. constructor; [|constructor].
  destruct (Ha f fl ck eq_refl) as [(pc' & Hpc & Hfp & Hl) Hne]. rewrite Hpc. unfold earned. simpl.
  split; [done|]. split; [done|]. split; [done|].
  apply presented_Some in Hpc as (-> & o & Hoo & <-). exists o. split; [done|]. split; [done|].
  rewrite Forall_forall in Ho. by apply Ho.
Qed.

Lemma earned_step r e :
  Forall opened_ok (r_opened r) → Forall (earned (r_opened r)) (r_grants r) →
  Forall opened_ok (r_opened (web_step r e)) ∧ Forall (earned (r_opened (web_step r e))) (r_grants (web_step r e)).
Proof.
  intros Ho Hg. destruct e as [u pw ck newid now|c code hashes rok cok newid now|c ch v moved ok newid now|cfg pks now|c now];
    cbn [web_step]; [| | |done|done].
  - destruct (handleLoginPOST now u pw ck newid (r_srv r)) as [a ev] eqn:E.
    assert (Forall (earned (r_opened r)) (granted_by a None (Some pw) now (r_srv r))) as HG.
    { destruct a as [| | | | |f fl k]; [by constructor..|]. constructor; [|constructor].
      destruct (password_signs_in _ _ _ _ _ _ _ _ _ _ E) as (-> & _ & _ & Hv & Hf). unfold earned. simpl.
      split; [done|]. split; [done|]. by exists pw. }
    destruct a as [| | | |c|f fl k]; cbn [r_opened r_grants granted_by app] in *; try done.
    + destruct (SecondStep_cookie _ _ _ _ _ _ _ _ E) as (_ & Hc & Hu & Hv & _). split.
      * constructor; [|done]. unfold opened_ok. cbn. rewrite Hc. done.
      * eapply Forall_impl; [exact Hg|]. intros g. apply earned_mono.
    + split; [done|]. apply Forall_cons. split; [|done]. by apply Forall_cons in HG as [HG _].
  - destruct (handleLoginVerifyPOST now (presented c r) code hashes rok cok newid (r_srv r)) as [[a ev] s'] eqn:E.
    cbn [r_opened r_grants]. split; [done|]. apply Forall_app; split; [|done].
    apply (granted_by_earned r _ _ _ c); [done| |done|done]. intros f fl k ->.
    destruct (code_signs_in _ _ _ _ _ _ _ _ _ _ _ _ _ E) as ((p & n & s1 & HS) & Hc & _).
    split; [by eapply spend_from_pending|]. by intros ->.
  - destruct (handleLoginPasskeyFinish now (presented c r) ch v moved ok newid (r_srv r)) as [[a ev] s'] eqn:E.
    cbn [r_opened r_grants]. split; [done|]. apply Forall_app; split; [|done].
    apply (granted_by_earned r _ _ _ c); [done| |done|done]. intros f fl k ->.
    destruct (passkey_signs_in _ _ _ _ _ _ _ _ _ _ _ _ _ E) as ((p & n & s1 & HS) & (? & a & _ & _ & _ & -> & _) & _).
    split; [by eapply spend_from_pending|done].
Qed.

(** C13: Every session comes from the account's password.  In any run, a session
    granted on the password alone was granted while there was no second factor
    and the password verified against the hash then stored; one granted at the
    second step continues a pending login that such a password opened at most
    [pendingLifetime] before, for the account's name, and the fingerprint of
    the credentials in force then is still the one in force. *)
Theorem session_is_earned s evs g :
  g ∈ r_grants (web_run s evs) → earned (r_opened (web_run s evs)) g.
Proof.
  intros Hin. assert (∀ r, Forall opened_ok (r_opened r) → Forall (earned (r_opened r)) (r_grants r) →
    Forall (earned (r_opened (foldl web_step r evs))) (r_grants (foldl web_step r evs))) as HF.
  { clear Hin. induction evs as [|e evs IH]; intros r Ho Hg; [done|]. cbn [foldl].
    destruct (earned_step r e Ho Hg). by apply IH. }
  specialize (HF (mkRun s [] [] []) (Forall_nil_2 _) (Forall_nil_2 _)). fold (web_run s evs) in HF.
  exact (proj1 (Forall_forall _ _) HF g Hin).
Qed.

(** ** A recovery code opens one session *)

Definition uses_code (h : string) (g : grant) : bool :=
  match g_factor g with RecoveryCode h' _ => String.eqb h' h | _ => false end.

Definition copies (h : string) (l : list string) : nat := length (filter (λ x, x = h) l).
Definition sessions_by (h : string) (gs : list grant) : nat := length (filter (λ g, uses_code h g = true) gs).

(** No settings page runs, and the removal of a code is written. *)
Definition codes_kept (e : web_event) : Prop :=
  match e with WAccount _ _ _ => False | WCode _ _ _ _ cok _ _ => cok = true | _ => True end.

Lemma copies_step r e h :
  codes_kept e →
  let n r := (sessions_by h (r_grants r) + copies h (RecoveryCodes (cfg_mem (srv_cfg (r_srv r)))))%nat in
  n (web_step r e) = n r.
Proof.
  intros Hk. destruct e as [u pw ck newid now|c code hashes rok cok newid now|c ch v moved ok newid now|cfg pks now|c now];
    cbn [web_step codes_kept] in *; [| | |done|].
  - destruct (handleLoginPOST now u pw ck newid (r_srv r)) as [a ev] eqn:E. cbn [r_srv r_grants].
    destruct a as [| | | | |f fl k]; try done.
    by destruct (password_signs_in _ _ _ _ _ _ _ _ _ _ E) as (-> & _).
  - destruct (handleLoginVerifyPOST now (presented c r) code hashes rok cok newid (r_srv r)) as [[a ev] s'] eqn:E.
    cbn [r_srv r_grants]. assert ((∀ f fl k, a ≠ SignedIn f fl k) → srv_cfg s' = srv_cfg (r_srv r)) as Hfail.
    { intros Hns. by apply (code_fails _ _ _ _ _ _ _ _ _ _ _ E). }
    destruct a as [| | | | |f fl k]; try (cbn [granted_by app]; by rewrite Hfail).
    destruct (code_signs_in _ _ _ _ _ _ _ _ _ _ _ _ _ E) as (_ & Hc & _). unfold code_spent in Hc.
    cbn [granted_by app]. unfold sessions_by. rewrite filter_cons. cbn [uses_code g_factor].
    destruct f as [| |h' rem|]; try done.
    + destruct Hc as (_ & -> & _). done.
    + destruct Hc as (_ & _ & _ & _ & Hp & _). specialize (Hp Hk). unfold copies, uses_code. cbn [g_factor].
      rewrite (Permutation_length (filter_Permutation (λ x, x = h) _ _ Hp)), filter_cons.
      destruct (String.eqb_spec h' h) as [->|Hne].
      * rewrite decide_True by done. rewrite (decide_True (P := h = h)) by done. simpl. lia.
      * rewrite decide_False by done. rewrite (decide_False (P := h' = h)) by done. done.
  - destruct (handleLoginPasskeyFinish now (presented c r) ch v moved ok newid (r_srv r)) as [[a ev] s'] eqn:E.
    cbn [r_srv r_grants]. assert (srv_cfg s' = srv_cfg (r_srv r)) as ->.
    { by apply (passkey_cfg _ _ _ _ _ _ _ _ _ _ _ E). }
    destruct a as [| | | | |f fl k]; try done.
    by destruct (passkey_signs_in _ _ _ _ _ _ _ _ _ _ _ _ _ E) as (_ & (? & a & _ & _ & _ & -> & _) & _).
  - cbn [r_srv r_grants]. unfold handleLogout. by destruct (String.eqb _ "").
Qed.

(** A recovery code opens one session.  While no settings page replaces the
    set and every removal is written, each session opened with a stored hash
    uses up one copy of it, however many requests checked it at once against
    the set as it was before: sessions so far and copies left always add up to
    the copies there were. *)
Theorem recovery_code_opens_one_session s evs h :
  Forall codes_kept evs →
  (sessions_by h (r_grants (web_run s evs)) + copies h (RecoveryCodes (cfg_mem (srv_cfg (r_srv (web_run s evs)))))
   = copies h (RecoveryCodes (cfg_mem (srv_cfg s))))%nat.
Proof.
  intros HF. unfold web_run.
  assert (∀ r, let n r := (sessions_by h (r_grants r) + copies h (RecoveryCodes (cfg_mem (srv_cfg (r_srv r)))))%nat in
    n (foldl web_step r evs) = n r) as HR; [|by apply (HR (mkRun s [] [] []))].
  induction HF as [|e evs He _ IH]; intros r n; [done|]. cbn [foldl]. unfold n. rewrite IH. by apply copies_step.
Qed.
End login.

(** ** A run

    A server whose hash is the password itself, two wrong codes and a printed
    code sent twice on one pending login, then a fourth attempt. *)
Definition sample_server : Server (Authenticator := nat) :=
  let a := mkAccount "op" "secret" "GEZDGNBVGY3TQOJQGEZDGNBVGY3TQOJQ" ["789AB-CDEFG"; "01234-56789"] in
  mkServer (mkConfig a a) (mkPasskeys PkMissing ∅ false) (newTOTPReplay RpMissing) ∅ ∅ ∅.

Definition sample_cookie : PendingCookie :=
  mkPendingCookie (mkPending "op" (in_force sample_server) "id-1" 1000) 1000.

Definition sample_run : list (web_event (Authenticator := nat)) :=
  let hashes := ["789AB-CDEFG"; "01234-56789"]%string in
  let code c t := WCode sample_cookie c hashes true true "sid" (t * Second) in
  [WPassword "op" "secret" true "id-1" (1000 * Second); code "000000" 1001; code "789ab-cdefg" 1002;
   code "789AB CDEFG" 1002; code "012345" 1003; WPasskey sample_cookie (Some "c"%string) None true true "sid" (1004 * Second)].

Lemma pending_login_gets_three_guesses_witness :
  let r := web_run up_sample String.eqb sample_server sample_run in
  length (r_checks r) = 3%nat ∧
  (length (filter (λ e, fst e = "id-1"%string) (r_checks r)) ≤ Z.to_nat pendingMaxAttempts)%nat.
Proof.
  split; [vm_compute; reflexivity|].
  apply (pending_login_gets_three_guesses up_sample String.eqb sample_server sample_run "id-1").
  - reflexivity.
  - vm_compute. repeat split; discriminate.
  - cbn [fresh_ids sample_run]. split; [|done]. intros o Ho. by apply not_elem_of_nil in Ho.
Defined.

Lemma recovery_code_opens_one_session_witness :
  let r := web_run up_sample String.eqb sample_server sample_run in
  sessions_by "789AB-CDEFG" (r_grants r) = 1%nat ∧
  (sessions_by "789AB-CDEFG" (r_grants r) + copies "789AB-CDEFG" (RecoveryCodes (cfg_mem (srv_cfg (r_srv r)))) = 1)%nat.
Proof.
  split; [vm_compute; reflexivity|].
  apply (recovery_code_opens_one_session up_sample String.eqb sample_server sample_run "789AB-CDEFG").
  repeat constructor.
Defined.

Lemma session_is_earned_witness :
  let r := web_run up_sample String.eqb sample_server sample_run in
  length (r_grants r) = 1%nat ∧ ∃ g, g ∈ r_grants r ∧ earned String.eqb (r_opened r) g.
Proof.
  intros r. split; [vm_compute; reflexivity|].
  assert (∃ g, g ∈ r_grants r) as [g Hg].
  { assert (r_grants r ≠ []) as Hne by (vm_compute; discriminate).
    destruct (r_grants r) as [|g l]; [by destruct Hne|]. exists g. by left. }
  exists g. split; [exact Hg|]. exact (session_is_earned up_sample String.eqb sample_server sample_run g Hg).
Defined.

Lemma second_step_spends_a_factor_witness :
  let s := with_pending (<["id-1"%string := mkCounter 1 (1001 * Second)]> ∅) sample_server in
  ∃ ck ev s', handleLoginVerifyPOST up_sample String.eqb (1002 * Second) (Some sample_cookie) "789ab-cdefg"
    ["789AB-CDEFG"; "01234-56789"]%string true true "sid" s = (SignedIn (RecoveryCode "789AB-CDEFG" 1) "recovery_left" ck, ev, s') ∧
    code_spent up_sample String.eqb (1002 * Second) "789ab-cdefg" true (RecoveryCode "789AB-CDEFG" 1) s s'.
Proof.
  intros s. set (res := handleLoginVerifyPOST up_sample String.eqb (1002 * Second) (Some sample_cookie) "789ab-cdefg"
    ["789AB-CDEFG"; "01234-56789"]%string true true "sid" s).
  set (ck := grantSession (1002 * Second) "op" "sid" s). exists ck, res.1.2, res.2.
  assert (res = (SignedIn (RecoveryCode "789AB-CDEFG" 1) "recovery_left" ck, res.1.2, res.2)) as HE by (vm_compute; reflexivity).
  split; [exact HE|].
  exact (proj2 (proj1 (second_step_spends_a_factor up_sample String.eqb (1002 * Second) (Some sample_cookie) "sid" s
    (RecoveryCode "789AB-CDEFG" 1) "recovery_left" ck res.1.2 res.2)
    "789ab-cdefg"%string ["789AB-CDEFG"; "01234-56789"]%string true true HE)).
Defined.
