(* ===== verification/Enrolment.v ===== *)
(** * Changing the credentials

    The settings pages of [src/internal/web]: [handler_2fa.go], the enrolment
    half of [handler_passkey.go], [handler_password.go] and
    [passwordPolicyError] of [auth.go].  A handler is a function of the state,
    the form and what it asks of others (the random source, argon2, a file
    write, the WebAuthn library) to its reply and the next state; all of them
    run behind [RequireAuth]. *)
From S2P Require Import Prelude GoStrings LoginEvents GoRunes SecondFactor Sessions Credentials Login.

Local Open Scope Z_scope.

(** ** The password policy

    The Unicode classes are the standard library's tables. *)
Record RuneClasses := mkClasses {
  is_invisible : Z → bool;   (* Cf, Cc, Mn, Me *)
  is_digit_rune : Z → bool;
  is_symbol_rune : Z → bool  (* punctuation, symbols, Zs *) }.

Definition minPasswordLen : Z := 12.

Definition policy_rune (cl : RuneClasses) (acc : Z * bool * bool) (r : Z) : Z * bool * bool :=
  let '(length, hasDigit, hasSymbol) := acc in
  if is_invisible cl r then acc
  else if is_digit_rune cl r then (length + 1, true, hasSymbol)
  else if is_symbol_rune cl r then (length + 1, hasDigit, true)
  else (length + 1, hasDigit, hasSymbol).

Definition passwordPolicyError (cl : RuneClasses) (password : string) : string :=
  let '(length, hasDigit, hasSymbol) := foldl (policy_rune cl) (0, false, false) (runes password) in
  if length <? minPasswordLen then "password_too_short"
  else if negb hasDigit then "password_needs_digit"
  else if negb hasSymbol then "password_needs_symbol"
  else "".

(** ASCII, for examples. *)
Definition ascii_classes : RuneClasses :=
  mkClasses (λ r, (r <? 32) || (r =? 127))
    (λ r, (48 <=? r) && (r <=? 57))
    (λ r, (r =? 32) || ((33 <=? r) && (r <=? 47)) || ((58 <=? r) && (r <=? 64)) ||
          ((91 <=? r) && (r <=? 96)) || ((123 <=? r) && (r <=? 126))).

Example policy_ex : map (passwordPolicyError ascii_classes)
  ["abcdefghij1!"; "abcdefghi1!"; "abcdefghijk!"; "abcdefghijk1"; "correct horse 1"]%string =
  [""; "password_too_short"; "password_needs_digit"; "password_needs_symbol"; ""]%string.
Proof. vm_compute. reflexivity. Qed.

(** ** Unconfirmed secrets *)

Definition pendingSecretLifetime : Z := 600 * Second.

Record pendingSecret := mkSecret { ps_secret : string; ps_issued : Z; ps_failed : bool }.

Definition pendingSecretStore (sid secret : string) (now : Z) (at_ : gmap string pendingSecret) : gmap string pendingSecret :=
  if String.eqb sid "" then at_
  else <[sid := mkSecret secret now false]> (filter (λ x, now - ps_issued (snd x) <= pendingSecretLifetime) at_).

Definition pendingSecretLookup (sid : string) (now : Z) (at_ : gmap string pendingSecret) : option (string * bool) :=
  if String.eqb sid "" then None
  else match at_ !! sid with
       | Some p => if pendingSecretLifetime <? now - ps_issued p then None else Some (ps_secret p, ps_failed p)
       | None => None
       end.

Definition pendingSecretClear (sid : string) (at_ : gmap string pendingSecret) : gmap string pendingSecret := delete sid at_.

Definition pendingSecretMarkFailed (sid : string) (now : Z) (at_ : gmap string pendingSecret) : gmap string pendingSecret :=
  match pendingSecretLookup sid now at_ with
  | None => at_
  | Some _ => alter (λ p, mkSecret (ps_secret p) (ps_issued p) true) sid at_
  end.

(** ** The handlers *)

(** The flash shown, the recovery codes on the page, the audit line, whether
    the acting session is re-stamped, and the setup card with its secret. *)
Record reply := mkReply {
  re_flash : string;
  re_codes : list string;
  re_event : option LoginEvent;
  re_restamped : bool;
  re_setup : option string }.

Definition flash (f : string) : reply := mkReply f [] None false None.
Definition setup_again (f secret : string) : reply := mkReply f [] None false (Some secret).

(** [clockSkewKey] and [skewMinutes] *)
Definition skewMinutes (offset : Z) : Z := (Z.abs offset * totpPeriod + 59) / 60.
Definition clockSkewKey (offset : Z) : string :=
  (if offset <=? 0 then "totp_clock_ahead" else "totp_clock_behind") +:+
  (if skewMinutes offset =? 1 then "_one" else "_many").

Section enrolment.
Context {Authenticator : Type}.
Context (up : Z → Z) (VerifyPassword : string → string → bool).

Record Settings := mkSettings {
  st_cfg : Config;
  st_passkeys : passkeyStore Authenticator;
  st_secrets : gmap string pendingSecret;
  st_spent : gmap string Z;
  st_demo : bool }.

Definition st_with_cfg c s := mkSettings c (st_passkeys s) (st_secrets s) (st_spent s) (st_demo s).
Definition st_with_passkeys p s := mkSettings (st_cfg s) p (st_secrets s) (st_spent s) (st_demo s).
Definition st_with_secrets m s := mkSettings (st_cfg s) (st_passkeys s) m (st_spent s) (st_demo s).
Definition st_with_spent m s := mkSettings (st_cfg s) (st_passkeys s) (st_secrets s) m (st_demo s).

Definition st_factorCount (s : Settings) : nat := factorCount (st_cfg s) (st_passkeys s).
Definition st_hasFactor (s : Settings) : bool := hasSecondFactor (st_cfg s) (st_passkeys s).
Definition st_codes (s : Settings) : list string := RecoveryCodes (cfg_mem (st_cfg s)).
Definition st_mayRemove (s : Settings) : bool := mayRemoveFactor (st_demo s) (st_cfg s) (st_passkeys s).

Definition checkCurrentPassword (current : string) (s : Settings) : bool :=
  VerifyPassword current (Password (cfg_mem (st_cfg s))).

Definition draw := option (list Z * (string → string)).

(** [handle2FABegin]: [raw] is what the random source gave. *)
Definition handle2FABegin (now : Z) (sid current : string) (raw : option (list Z)) (s : Settings) : reply * Settings :=
  if negb (checkCurrentPassword current s) then (flash "password_wrong", s)
  else match newTOTPSecret raw with
       | None => (flash "internal_error", s)
       | Some secret => (setup_again "" secret, st_with_secrets (pendingSecretStore sid secret now (st_secrets s)) s)
       end.

(** [handle2FAConfirm] *)
Definition handle2FAConfirm (now : Z) (sid code : string) (draws : list draw) (ok : bool) (s : Settings) : reply * Settings :=
  match pendingSecretLookup sid now (st_secrets s) with
  | None => (flash "totp_setup_expired", s)
  | Some (secret, _) =>
      match decodeTOTPSecret up secret with
      | None => (flash "internal_error", s)
      | Some raw =>
          let wasFirstFactor := (st_factorCount s =? 0)%nat in
          match matchTOTP raw now (TrimSpace code) totpWindowEnrol with
          | None => (setup_again "totp_code_wrong" secret, st_with_secrets (pendingSecretMarkFailed sid now (st_secrets s)) s)
          | Some (_, offset) =>
              if (offset <? - Z.of_nat totpWindowLogin) || (Z.of_nat totpWindowLogin <? offset)
              then (setup_again (clockSkewKey offset) secret, st_with_secrets (pendingSecretMarkFailed sid now (st_secrets s)) s)
              else
                let minted :=
                  if wasFirstFactor && bool_decide (st_codes s = []) then newRecoveryCodes draws
                  else Some ([], st_codes s) in
                match minted with
                | None => (flash "internal_error", s)
                | Some (plain, hashes) =>
                    if st_demo s then (mkReply "demo_readonly" plain None false None, s)
                    else
                      let '(saved, cfg) := SaveTOTP ok secret hashes (st_cfg s) in
                      if negb saved then (setup_again "totp_not_saved" secret, s)
                      else (mkReply "totp_enabled" plain (Some EvTOTPEnabled) true None,
                            st_with_secrets (pendingSecretClear sid (st_secrets s)) (st_with_cfg cfg s))
                end
          end
      end
  end.

(** [handle2FAEnrolUnverified]: [ack] is whether the box was ticked. *)
Definition handle2FAEnrolUnverified (now : Z) (sid : string) (ack : bool) (draws : list draw) (ok : bool) (s : Settings) :
    reply * Settings :=
  if st_hasFactor s || st_demo s then (flash "", s)
  else match pendingSecretLookup sid now (st_secrets s) with
       | None => (flash "totp_setup_expired", s)
       | Some (secret, failed) =>
           if negb failed || negb ack then (setup_again "" secret, s)
           else match newRecoveryCodes draws with
                | None => (flash "internal_error", s)
                | Some (plain, hashes) =>
                    let '(saved, cfg) := SaveTOTP ok secret hashes (st_cfg s) in
                    if negb saved then (setup_again "totp_not_saved" secret, s)
                    else (mkReply "totp_enabled" plain (Some EvTOTPEnabled) true None,
                          st_with_secrets (pendingSecretClear sid (st_secrets s)) (st_with_cfg cfg s))
                end
       end.

(** [handle2FADisable], what it does once it may; and the handler. *)
Definition disable_totp (ok : bool) (s : Settings) : reply * Settings :=
  let '(saved, cfg) := SaveTOTP ok "" (st_codes s) (st_cfg s) in
  if negb saved then (flash "internal_error", s)
  else (mkReply "totp_disabled" [] (Some EvTOTPDisabled) true None, st_with_cfg cfg s).

Definition handle2FADisable (current : string) (ok : bool) (s : Settings) : reply * Settings :=
  if negb (checkCurrentPassword current s) then (flash "password_wrong", s)
  else if st_demo s then (flash "demo_readonly", s)
  else if negb (st_mayRemove s) then (flash "factor_last", s)
  else disable_totp ok s.

(** [handle2FARecovery] *)
Definition handle2FARecovery (current : string) (draws : list draw) (ok : bool) (s : Settings) : reply * Settings :=
  if negb (st_hasFactor s) && negb (st_demo s) then (flash "totp_recovery_needs_factor", s)
  else if negb (checkCurrentPassword current s) then (flash "password_wrong", s)
  else match newRecoveryCodes draws with
       | None => (flash "internal_error", s)
       | Some (plain, hashes) =>
           if st_demo s then (mkReply "demo_readonly" plain None false None, s)
           else
             let '(saved, cfg) := SaveRecoveryCodes ok hashes (st_cfg s) in
             if negb saved then (flash "internal_error", s)
             else (mkReply "totp_recovery_renewed" plain (Some EvRecoveryRenewed) false None, st_with_cfg cfg s)
       end.

(** [handlePasskeyFinish]: [unavailable] is [passkeyUnavailableReason],
    [challenge] what the ceremony's cookie carries, [created] the credential
    id and authenticator the library verified. *)
Definition maxPasskeyNameLen : nat := 64.

Definition handlePasskeyFinish (now : Z) (unavailable : string) (challenge : option string) (name : string)
    (created : option (string * Authenticator)) (moved pk_ok : bool) (draws : list draw) (ok : bool) (s : Settings) :
    reply * Settings :=
  if negb (String.eqb unavailable "") then (flash unavailable, s)
  else match challenge with
  | None => (flash "passkey_setup_expired", s)
  | Some ch =>
      let '(fresh, spent) := spendChallenge ch (passkeyPendingLifetime * Second) now (st_spent s) in
      let s := st_with_spent spent s in
      if negb fresh then (flash "passkey_setup_expired", s)
      else
        let name := TrimSpace name in
        if String.eqb name "" || (maxPasskeyNameLen <? length (runes name))%nat then (flash "passkey_name_required", s)
        else match created with
        | None => (flash "passkey_ceremony_failed", s)
        | Some (id, auth) =>
            let wasFirstFactor := (st_factorCount s =? 0)%nat in
            let '(added, pks) := pk_add moved pk_ok name now id auth (st_passkeys s) in
            let s := st_with_passkeys pks s in
            if negb added then (flash "internal_error", s)
            else if wasFirstFactor && bool_decide (st_codes s = []) then
              match newRecoveryCodes draws with
              | None => (mkReply "passkey_added_no_codes" [] (Some EvPasskeyEnrolled) true None, s)
              | Some (plain, hashes) =>
                  let '(saved, cfg) := SaveRecoveryCodes ok hashes (st_cfg s) in
                  if negb saved then (mkReply "passkey_added_no_codes" [] (Some EvPasskeyEnrolled) true None, s)
                  else (mkReply "passkey_added" plain (Some EvPasskeyEnrolled) true None, st_with_cfg cfg s)
              end
            else (mkReply "passkey_added" [] (Some EvPasskeyEnrolled) true None, s)
        end
  end.

(** [handlePasskeyRemove], what it does once it may; and the handler.  [id] is
    the decoded form value. *)
Definition remove_passkey (id : option string) (moved pk_ok : bool) (s : Settings) : reply * Settings :=
  match id with
  | None => (flash "internal_error", s)
  | Some id =>
      if bool_decide (pk_map (st_passkeys s) !! id = None) then (flash "passkey_not_found", s)
      else
        let '(removed, pks) := pk_remove moved pk_ok id (st_passkeys s) in
        let s := st_with_passkeys pks s in
        if negb removed then (flash "internal_error", s)
        else (mkReply "passkey_removed" [] (Some EvPasskeyRemoved) true None, s)
  end.

Definition handlePasskeyRemove (current : string) (id : option string) (moved pk_ok : bool) (s : Settings) : reply * Settings :=
  if negb (checkCurrentPassword current s) then (flash "password_wrong", s)
  else if st_demo s then (flash "demo_readonly", s)
  else if negb (st_mayRemove s) then (flash "factor_last", s)
  else remove_passkey id moved pk_ok s.

(** [handlePasswordPOST]: [hash] is [HashPassword] of the new one. *)
Definition handlePasswordPOST (cl : RuneClasses) (current newPw confirm : string) (hash : option string) (ok : bool) (s : Settings) :
    reply * Settings :=
  if st_demo s then (flash "demo_readonly", s)
  else if negb (checkCurrentPassword current s) then (flash "password_wrong", s)
  else if negb (String.eqb newPw confirm) then (flash "password_mismatch", s)
  else
    let key := passwordPolicyError cl newPw in
    if negb (String.eqb key "") then (flash key, s)
    else match hash with
         | None => (flash "internal_error", s)
         | Some h =>
             let '(saved, cfg) := SaveCredentials ok (Username (cfg_mem (st_cfg s))) h (st_cfg s) in
             if negb saved then (flash "internal_error", s)
             else (mkReply "password_changed" [] None true None, st_with_cfg cfg s)
         end.

(** ** Every page *)

Inductive settings_event :=
| EBegin (now : Z) (sid current : string) (raw : option (list Z))
| EConfirm (now : Z) (sid code : string) (draws : list draw) (ok : bool)
| EUnverified (now : Z) (sid : string) (ack : bool) (draws : list draw) (ok : bool)
| EDisable (current : string) (ok : bool)
| ERecovery (current : string) (draws : list draw) (ok : bool)
| EPasskeyFinish (now : Z) (unavailable : string) (challenge : option string) (name : string)
    (created : option (string * Authenticator)) (moved pk_ok : bool) (draws : list draw) (ok : bool)
| EPasskeyRemove (current : string) (id : option string) (moved pk_ok : bool)
| EPassword (cl : RuneClasses) (current newPw confirm : string) (hash : option string) (ok : bool).

Definition settings_step (s : Settings) (e : settings_event) : reply * Settings :=
  match e with
  | EBegin now sid current raw => handle2FABegin now sid current raw s
  | EConfirm now sid code draws ok => handle2FAConfirm now sid code draws ok s
  | EUnverified now sid ack draws ok => handle2FAEnrolUnverified now sid ack draws ok s
  | EDisable current ok => handle2FADisable current ok s
  | ERecovery current draws ok => handle2FARecovery current draws ok s
  | EPasskeyFinish now un ch name cr moved pok draws ok => handlePasskeyFinish now un ch name cr moved pok draws ok s
  | EPasskeyRemove current id moved pok => handlePasskeyRemove current id moved pok s
  | EPassword cl current n c h ok => handlePasswordPOST cl current n c h ok s
  end.

Definition settings_run (s : Settings) (evs : list settings_event) : Settings :=
  foldl (λ s e, (settings_step s e).2) s evs.

(** ** The last factor *)

Lemma hasFactor_count s : st_hasFactor s = true ↔ (0 < st_factorCount s)%nat.
Proof. unfold st_hasFactor, hasSecondFactor, st_factorCount. apply Nat.ltb_lt. Qed.

(** The factors are counted from the secret, the passkeys and the flag. *)
Lemma factorCount_same (c c' : Config) (p : passkeyStore Authenticator) :
  TOTPSecret (cfg_mem c') = TOTPSecret (cfg_mem c) → factorCount c' p = factorCount c p.
Proof. intros HE. unfold factorCount, TOTPEnabled. by rewrite HE. Qed.

Lemma save_account_totp ok a c : TOTPSecret a = TOTPSecret (cfg_mem c) → TOTPSecret (cfg_mem (save_account ok a c).2) = TOTPSecret (cfg_mem c).
Proof. by destruct ok. Qed.

(** Adding a passkey leaves one, whatever becomes of the write. *)
Lemma pk_add_counts moved ok name now id auth c (p : passkeyStore Authenticator) :
  (0 < factorCount c (pk_add moved ok name now id auth p).2)%nat.
Proof.
  assert (0 < size (<[id := mkPasskey name now auth]> (pk_map p)))%nat as Hs.
  { assert (size (<[id := mkPasskey name now auth]> (pk_map p)) ≠ 0%nat); [|lia].
    intros H0%map_size_empty_iff. by apply insert_non_empty in H0. }
  unfold pk_add, pk_saveLocked. cbn [pk_corrupt pk_map pk_file].
  destruct (pk_corrupt p && negb moved); [|destruct ok]; cbn [snd]; unfold factorCount; rewrite passkeyCount_size;
    cbn [pk_map]; lia.
Qed.

Lemma decode_nonempty secret raw : decodeTOTPSecret up secret = Some raw → secret ≠ ""%string.
Proof. intros HE ->. by vm_compute in HE. Qed.

Lemma totp_saved_counts secret hashes c (p : passkeyStore Authenticator) :
  secret ≠ ""%string → (0 < factorCount (SaveTOTP true secret hashes c).2 p)%nat.
Proof.
  intros Hne. unfold SaveTOTP, save_account, factorCount, TOTPEnabled. simpl.
  destruct (String.eqb_spec secret ""); [done|simpl; lia].
Qed.

(** One page at a time: the count afterwards, for each kind of page. *)
Lemma may_remove_two s : st_demo s = false → st_mayRemove s = true →
  pk_corrupt (st_passkeys s) = false ∧ (1 < st_factorCount s)%nat.
Proof.
  unfold st_mayRemove, mayRemoveFactor. intros ->. destruct (pk_corrupt _); [done|]. intros H. split; [done|].
  by apply Nat.ltb_lt in H.
Qed.

Lemma disable_kept current ok s :
  st_demo s = false → st_hasFactor s = true → st_hasFactor (handle2FADisable current ok s).2 = true.
Proof.
  intros Hd Hf. unfold handle2FADisable. destruct (checkCurrentPassword _ _); [|done]. rewrite Hd. cbn [negb].
  destruct (st_mayRemove s) eqn:EM; [|done]. destruct (may_remove_two s Hd EM) as [_ H2]. cbn [negb].
  unfold disable_totp. destruct (SaveTOTP ok "" (st_codes s) (st_cfg s)) as [saved cfg] eqn:ES.
  destruct saved; [|done]. cbn [negb snd]. apply hasFactor_count. unfold st_factorCount in *. cbn.
  pose proof (factorCount_totp_off ok (st_codes s) (st_cfg s) (st_passkeys s)) as HT. rewrite ES in HT. cbn in HT. lia.
Qed.

Lemma remove_kept current id moved pok s :
  st_demo s = false → st_hasFactor s = true → st_hasFactor (handlePasskeyRemove current id moved pok s).2 = true.
Proof.
  intros Hd Hf. unfold handlePasskeyRemove. destruct (checkCurrentPassword _ _); [|done]. rewrite Hd. cbn [negb].
  destruct (st_mayRemove s) eqn:EM; [|done]. destruct (may_remove_two s Hd EM) as [Hc H2]. cbn [negb].
  unfold remove_passkey. destruct id as [id|]; [|done]. case_bool_decide; [done|].
  pose proof (factorCount_remove moved pok id (st_cfg s) (st_passkeys s) Hc) as HR.
  destruct (pk_remove moved pok id (st_passkeys s)) as [removed pks]. cbn [snd] in HR.
  assert (st_hasFactor (st_with_passkeys pks s) = true).
  { apply hasFactor_count. unfold st_factorCount in *. cbn. lia. }
  by destruct removed.
Qed.

Lemma confirm_kept now sid code draws ok s :
  st_hasFactor s = true → st_hasFactor (handle2FAConfirm now sid code draws ok s).2 = true.
Proof.
  intros Hf. unfold handle2FAConfirm. destruct (pendingSecretLookup _ _ _) as [[secret failed]|]; [|done].
  destruct (decodeTOTPSecret up secret) as [raw|] eqn:ED; [|done].
  destruct (matchTOTP _ _ _ _) as [[step off]|]; [|done]. destruct (_ || _); [done|].
  destruct (if _ : bool then _ else _) as [[plain hashes]|]; [|done]. destruct (st_demo s); [done|].
  destruct ok; [|done]. apply hasFactor_count. apply totp_saved_counts. by eapply decode_nonempty.
Qed.

Lemma finish_kept now un ch name cr moved pok draws ok s :
  st_hasFactor s = true → st_hasFactor (handlePasskeyFinish now un ch name cr moved pok draws ok s).2 = true.
Proof.
  intros Hf. unfold handlePasskeyFinish. destruct (String.eqb un ""); [|done]. cbn [negb].
  destruct ch as [ch|]; [|done]. destruct (spendChallenge _ _ _ _) as [[] spent]; [|done]. cbn [negb].
  destruct (_ || _); [done|]. destruct cr as [[id auth]|]; [|done].
  pose proof (λ c, pk_add_counts moved pok (TrimSpace name) now id auth c (st_passkeys s)) as HA. cbn [st_passkeys st_with_spent].
  destruct (pk_add _ _ _ _ _ _ _) as [added pks]. cbn [snd] in HA.
  assert (∀ c, st_hasFactor (mkSettings c pks (st_secrets s) spent (st_demo s)) = true) as HG.
  { intros c. apply hasFactor_count. apply HA. }
  destruct added; cbn [negb]; [|apply HG]. destruct (_ && _); [|apply HG].
  destruct (newRecoveryCodes draws) as [[plain hashes]|]; [|apply HG].
  destruct (SaveRecoveryCodes _ _ _) as [saved cfg]. destruct saved; apply HG.
Qed.

Lemma step_kept s e :
  st_demo s = false → st_hasFactor s = true → st_hasFactor (settings_step s e).2 = true.
Proof.
  intros Hd Hf. destruct e; cbn [settings_step].
  - unfold handle2FABegin. destruct (checkCurrentPassword _ _); [|done]. by destruct raw.
  - by apply confirm_kept.
  - unfold handle2FAEnrolUnverified. by rewrite Hf.
  - by apply disable_kept.
  - unfold handle2FARecovery. rewrite Hf. destruct (checkCurrentPassword _ _); [|done]. cbn [negb andb].
    destruct (newRecoveryCodes draws) as [[plain hashes]|]; [|done]. rewrite Hd. destruct ok; [|done].
    revert Hf. rewrite !hasFactor_count. unfold st_factorCount. cbn. by rewrite (factorCount_same (st_cfg s) (mkConfig _ _)).
  - by apply finish_kept.
  - by apply remove_kept.
  - unfold handlePasswordPOST. rewrite Hd. destruct (checkCurrentPassword _ _); [|done]. cbn [negb].
    destruct (String.eqb newPw confirm); [|done]. cbn [negb]. destruct (String.eqb _ ""); [|done]. cbn [negb].
    destruct hash as [h|]; [|done]. destruct ok; [|done].
    revert Hf. rewrite !hasFactor_count. unfold st_factorCount. cbn. by rewrite (factorCount_same (st_cfg s) (mkConfig _ _)).
Qed.

Lemma step_demo s e : st_demo (settings_step s e).2 = st_demo s.
Proof.
  destruct e; cbn [settings_step];
  unfold handle2FABegin, handle2FAConfirm, handle2FAEnrolUnverified, handle2FADisable, disable_totp, handle2FARecovery,
    handlePasskeyFinish, handlePasskeyRemove, remove_passkey, handlePasswordPOST;
  cbn zeta; repeat (case_match; simplify_eq/=; try done).
Qed.

(** C22: No settings page takes the last factor away.  On an account that has a
    second factor, any sequence of the settings pages, each run to its end,
    whatever is typed into them and whichever writes fail, leaves it with at
    least one. *)
Theorem last_factor_is_kept s evs :
  st_demo s = false → st_hasFactor s = true → st_hasFactor (settings_run s evs) = true.
Proof.
  unfold settings_run. revert s; induction evs as [|e evs IH]; intros s Hd Hf; [done|]. cbn [foldl].
  apply IH; [by rewrite step_demo|by apply step_kept].
Qed.

(** ** The way back in *)

Lemma newRecoveryCodes_length draws plain hashes :
  newRecoveryCodes draws = Some (plain, hashes) → length plain = recoveryCodeCount ∧ length hashes = recoveryCodeCount.
Proof.
  unfold newRecoveryCodes. assert (∀ P H, length P = length H → (length P ≤ recoveryCodeCount)%nat →
    recovery_loop draws P H = Some (plain, hashes) → length plain = recoveryCodeCount ∧ length hashes = recoveryCodeCount) as HG.
  { induction draws as [|d draws IH]; intros P H HL Hle; cbn [recovery_loop];
      (destruct (Nat.leb_spec recoveryCodeCount (length P)); [intros [= <- <-]; split; lia|]); [done|].
    destruct d as [[raw hash]|]; [|done]. case_bool_decide; [by apply IH|]. apply IH; rewrite !length_app; simpl; lia. }
  apply HG; simpl; lia.
Qed.

(** The reply shows eight codes and eight hashes are stored. *)
Definition codes_minted (r : reply) (s : Settings) : Prop :=
  length (re_codes r) = recoveryCodeCount ∧ length (st_codes s) = recoveryCodeCount.

(** Nothing changed that counts. *)
Ltac still_none s :=
  let HT := fresh in intros HT; change (st_hasFactor s = true) in HT; exfalso; congruence.

Lemma confirm_mints now sid code draws ok s :
  st_demo s = false → st_hasFactor s = false → st_codes s = [] →
  let '(r, s') := handle2FAConfirm now sid code draws ok s in st_hasFactor s' = true → codes_minted r s'.
Proof.
  intros Hd Hf Hc. assert (st_factorCount s =? 0 = true)%nat as H0.
  { apply Nat.eqb_eq. destruct (st_factorCount s) eqn:E; [done|].
    rewrite (proj2 (hasFactor_count s)) in Hf by lia. done. }
  unfold handle2FAConfirm. destruct (pendingSecretLookup _ _ _) as [[secret failed]|]; [|still_none s].
  destruct (decodeTOTPSecret up secret) as [raw|] eqn:ED; [|still_none s].
  destruct (matchTOTP _ _ _ _) as [[step off]|]; [|still_none s].
  destruct (_ || _); [still_none s|]. rewrite H0, bool_decide_eq_true_2 by done. cbn [andb].
  destruct (newRecoveryCodes draws) as [[plain hashes]|] eqn:EN; [|still_none s]. rewrite Hd.
  destruct ok; [|still_none s]. intros _. by destruct (newRecoveryCodes_length _ _ _ EN).
Qed.

Lemma unverified_mints now sid ack draws ok s :
  st_hasFactor s = false →
  let '(r, s') := handle2FAEnrolUnverified now sid ack draws ok s in st_hasFactor s' = true → codes_minted r s'.
Proof.
  intros Hf. unfold handle2FAEnrolUnverified. destruct (st_hasFactor s || st_demo s); [still_none s|].
  destruct (pendingSecretLookup _ _ _) as [[secret failed]|]; [|still_none s].
  destruct (negb failed || negb ack); [still_none s|].
  destruct (newRecoveryCodes draws) as [[plain hashes]|] eqn:EN; [|still_none s].
  destruct ok; [|still_none s]. intros _. by destruct (newRecoveryCodes_length _ _ _ EN).
Qed.

Lemma finish_mints now un ch name cr moved pok draws ok s :
  st_hasFactor s = false → st_codes s = [] →
  let '(r, s') := handlePasskeyFinish now un ch name cr moved pok draws ok s in
  st_hasFactor s' = true →
  codes_minted r s' ∨ re_flash r = "passkey_added_no_codes" ∨ (re_flash r = "internal_error" ∧ (pok = false ∨ moved = false)).
Proof.
  intros Hf Hc. assert (st_factorCount s =? 0 = true)%nat as H0.
  { apply Nat.eqb_eq. destruct (st_factorCount s) eqn:E; [done|].
    rewrite (proj2 (hasFactor_count s)) in Hf by lia. done. }
  unfold handlePasskeyFinish. destruct (String.eqb un ""); [|still_none s]. cbn [negb].
  destruct ch as [ch|]; [|still_none s].
  destruct (spendChallenge _ _ _ _) as [[] spent]; [|still_none s]. cbn [negb].
  destruct (_ || _); [still_none s|].
  destruct cr as [[id auth]|]; [|still_none s].
  change (st_factorCount (st_with_spent spent s)) with (st_factorCount s).
  unfold pk_add, pk_saveLocked. cbn [pk_corrupt st_passkeys st_with_spent].
  destruct (pk_corrupt (st_passkeys s) && negb moved) eqn:EM.
  { intros _. right; right. apply andb_true_iff in EM as [_ EM]. split; [done|right]. by apply negb_true_iff in EM. }
  destruct pok; [|intros _; right; right; split; [done|by left]]. cbn [negb]. rewrite H0. cbn [andb].
  rewrite bool_decide_eq_true_2 by done.
  destruct (newRecoveryCodes draws) as [[plain hashes]|] eqn:EN; [|intros _; right; by left].
  destruct ok; [|intros _; right; by left]. intros _. left. by destruct (newRecoveryCodes_length _ _ _ EN).
Qed.

(** A first factor comes with a way back.  A page that turns an account
    without a second factor and without recovery codes into one that has a
    factor shows eight codes and stores eight hashes, or says that it could
    not; the one way to end with neither is a passkey whose write failed. *)
Theorem first_factor_comes_with_codes s e :
  st_demo s = false → st_hasFactor s = false → st_codes s = [] →
  let '(r, s') := settings_step s e in
  st_hasFactor s' = true →
  codes_minted r s' ∨ re_flash r = "passkey_added_no_codes" ∨
  (re_flash r = "internal_error" ∧ ∃ now un ch name cr moved pok draws ok,
     e = EPasskeyFinish now un ch name cr moved pok draws ok ∧ (pok = false ∨ moved = false)).
Proof.
  intros Hd Hf Hc. destruct e; cbn [settings_step].
  - unfold handle2FABegin. destruct (checkCurrentPassword _ _); [|still_none s]. destruct raw as [raw|]; [|still_none s].
    cbn [negb newTOTPSecret fmap option_fmap option_map]. still_none s.
  - pose proof (confirm_mints now sid code draws ok s Hd Hf Hc) as HM.
    destruct (handle2FAConfirm _ _ _ _ _ _). intros H. left. auto.
  - pose proof (unverified_mints now sid ack draws ok s Hf) as HM.
    destruct (handle2FAEnrolUnverified _ _ _ _ _ _). intros H. left. auto.
  - unfold handle2FADisable. destruct (checkCurrentPassword _ _); [|still_none s]. rewrite Hd. cbn [negb].
    destruct (st_mayRemove s) eqn:EM; [|still_none s]. destruct (may_remove_two s Hd EM) as [_ H2].
    rewrite (proj2 (hasFactor_count s)) in Hf by lia. done.
  - unfold handle2FARecovery. rewrite Hf, Hd. still_none s.
  - pose proof (finish_mints now unavailable challenge name created moved pk_ok draws ok s Hf Hc) as HM.
    destruct (handlePasskeyFinish _ _ _ _ _ _ _ _ _ _) as [r s']. intros H.
    destruct (HM H) as [?|[?|[? ?]]]; [by left|right; by left|right; right]. split; [done|]. by do 9 eexists.
  - unfold handlePasskeyRemove. destruct (checkCurrentPassword _ _); [|still_none s]. rewrite Hd. cbn [negb].
    destruct (st_mayRemove s) eqn:EM; [|still_none s]. destruct (may_remove_two s Hd EM) as [_ H2].
    rewrite (proj2 (hasFactor_count s)) in Hf by lia. done.
  - unfold handlePasswordPOST. rewrite Hd. destruct (checkCurrentPassword _ _); [|still_none s]. cbn [negb].
    destruct (String.eqb newPw confirm); [|still_none s]. cbn [negb]. destruct (String.eqb _ ""); [|still_none s]. cbn [negb].
    destruct hash as [h|]; [|still_none s]. destruct ok; [|still_none s].
    intros HT. exfalso. revert Hf HT. rewrite <- not_true_iff_false, !hasFactor_count. unfold st_factorCount.
    cbn [SaveCredentials save_account negb st_cfg st_with_cfg st_passkeys].
    rewrite (factorCount_same (st_cfg s) (mkConfig _ _)) by done. lia.
Qed.
End enrolment.

(** ** Examples *)

Definition settings_sample (totp : string) (ids : list (string * nat)) : Settings (Authenticator := nat) :=
  let a := mkAccount "op" "secret" totp [] in
  mkSettings (mkConfig a a) (sample_passkeys ids) ∅ ∅ false.

Definition settings_sample_run : list (settings_event (Authenticator := nat)) :=
  [EDisable "secret" true; EPasskeyRemove "secret" (Some "id-a"%string) true true;
   EPasskeyRemove "secret" (Some "id-b"%string) true true; EDisable "secret" false].

Lemma last_factor_is_kept_witness :
  let s := settings_sample "GEZDGNBV" [("id-a"%string, 1%nat); ("id-b"%string, 1%nat)] in
  st_factorCount (settings_run up_sample String.eqb s settings_sample_run) = 1%nat ∧
  st_hasFactor (settings_run up_sample String.eqb s settings_sample_run) = true.
Proof.
  intros s. split; [vm_compute; reflexivity|].
  apply (last_factor_is_kept up_sample String.eqb s settings_sample_run); vm_compute; reflexivity.
Defined.

Lemma first_factor_comes_with_codes_witness :
  let s := settings_sample "" [] in
  let e := EPasskeyFinish Second "" (Some "challenge"%string) "phone" (Some ("id-a"%string, 0%nat)) true true sample_draws true in
  let '(r, s') := settings_step up_sample String.eqb s e in
  re_flash r = "passkey_added"%string ∧
  (codes_minted r s' ∨ re_flash r = "passkey_added_no_codes"%string ∨
   (re_flash r = "internal_error"%string ∧ ∃ now un ch name cr moved pok draws ok,
      e = EPasskeyFinish now un ch name cr moved pok draws ok ∧ (pok = false ∨ moved = false))).
Proof.
  intros s e. pose proof (first_factor_comes_with_codes up_sample String.eqb s e) as HT.
  assert (re_flash (settings_step up_sample String.eqb s e).1 = "passkey_added"%string) as HF by (vm_compute; reflexivity).
  assert (st_hasFactor (settings_step up_sample String.eqb s e).2 = true) as HS by (vm_compute; reflexivity).
  destruct (settings_step up_sample String.eqb s e) as [r s']. split; [exact HF|].
  apply HT; [reflexivity..|exact HS].
Defined.

(** Two pages at once: both checks pass on the state before either acts, and
    the account is left with no factor. *)
Example both_factors_removed_at_once :
  let s := settings_sample "GEZDGNBV" [("id-a"%string, 1%nat)] in
  st_mayRemove s = true ∧
  st_factorCount (remove_passkey (Some "id-a"%string) true true (disable_totp true s).2).2 = 0%nat.
Proof. split; vm_compute; reflexivity. Qed.

(** A first passkey whose write failed stays enrolled in memory, so the attempt
    that succeeds is not the first factor and mints no codes. *)
Example failed_enrolment_costs_the_codes :
  let s := settings_sample "" [] in
  let finish t ch ok := EPasskeyFinish t "" (Some ch) "phone" (Some (ch, 0%nat)) true ok sample_draws true in
  let '(r1, s1) := settings_step up_sample String.eqb s (finish Second "c1"%string false) in
  let '(r2, s2) := settings_step up_sample String.eqb s1 (finish (2 * Second) "c2"%string true) in
  re_flash r1 = "internal_error"%string ∧ re_flash r2 = "passkey_added"%string ∧ re_codes r2 = [] ∧ st_codes s2 = [].
Proof. vm_compute. repeat split. Qed.
